(* ===== verification/_CoqProject ===== *)
-Q . S2P
Prelude.v
CString.v
Riscv.v
Kalloc.v
Vm.v
PageTable.v
UserMem.v
UserCopy.v
VmImage.v
UserFree.v
Proc.v
ProcMem.v
ProcSpec.v
ProcStep.v
Ring.v
Console.v
Printf.v
Grep.v
Umalloc.v
UmallocSpec.v
UmallocSafe.v
Sh.v
ShSpec.v
ShParse.v
ShRun.v
Sleeplock.v
Spinlock.v
Pipe.v
BlockIO.v
Bio.v
Virtio.v
VirtioSpec.v
VirtioRefine.v
Log.v
LogSpec.v
LogImage.v
Balloc.v
Inode.v
InodeSpec.v
DiskInode.v
BlockMap.v
FileData.v
FileLost.v
Dir.v
Path.v
DirSpec.v
NameSpec.v
Image.v
File.v
FileSpec.v
Syscall.v
Sysfile.v
Handles.v
CallSpec.v
SysSpec.v
ConsoleFile.v
Exec.v
ExecMem.v
ExecSpec.v
ExecRun.v
ExecFile.v
Trap.v
TrapSpec.v
ProcImage.v
KernelImage.v
