(* ===== verification/Prelude.v ===== *)
(** xv6-riscv with an ext2 file system: a model of the kernel and of some of its
    user programs, with the theorems that make it correct.

    * The program

    The kernel ([src/kernel]) is xv6 for RISC-V: a page allocator, page tables,
    processes, spin and sleep locks, pipes, a console, a buffer cache over a
    virtio disk, a redo log, and - in place of xv6's own file system - an ext2
    file system ([fs.c]: block and inode bitmaps, inodes, block maps,
    directories, paths).  Processes reach files through the file table
    ([file.c]); user programs ([src/user]) run above the system calls.

    * How code is modelled

    C functions are translated to Rocq functions of the same name.  Integers are
    [Z] with the wrap-around of their C type written out ([u32], [s32], [u64],
    ...).  Structures in memory are records; structures that are copied out of a
    disk block or a page are lists of bytes read and written at their offsets
    ([rd], [wr], [slice], [splice]).  Stateful code is in the monad [M S]: a run
    on a state [S] returns ([Ok]), calls [panic] ([Panic]), blocks in [sleep]
    ([Sleep], with the state at that point), or does something C gives no meaning
    to ([Undef]).  Loops without a structural bound take fuel; running out is the
    outcome [NoFuel], which the theorems exclude, so they prove that the loop ends
    within the fuel its caller gives (one iteration per byte, block, page or
    directory entry).  Code under a spin lock is one atomic step; a call that may
    sleep is modelled run by run, and interleavings of processes are step
    relations over such runs.

    * Files

    - This file: integers, the monad and its rules, bytes, sums.
      [CString]: [kernel/string.c] and the string routines of [user/ulib.c].
      [Riscv]: the macros of [riscv.h] and [memlayout.h].  [Ring]: ring buffers.
    - Memory.  [Kalloc]: [kalloc.c], the free list threaded through free pages.
      [Vm]: [vm.c].  [PageTable]: which mapping the bytes of a page table
      represent, and [walk] and [mappages] on it.  [UserMem], [UserCopy],
      [UserFree]: address spaces as maps from page numbers to permissions and
      contents, and [uvmalloc], [uvmdealloc], [uvmcopy], [copyin], [copyout],
      [uvmfree] on them.  [VmImage]: a concrete memory for the witnesses.
    - Processes.  [Proc]: [proc.c] over memory and over an interface for files
      ([FileOps]).  [ProcMem]: page tables of processes.  [ProcSpec]: the
      invariants of memory ([minv]: who owns which page) and of descriptors
      ([finv]), what files must promise ([FileLaws]), [allocproc] and [fork].
      [ProcStep]: the other operations, and executions as a step relation.
      [ProcImage]: a concrete system.  [Spinlock], [Sleeplock]: the locks.
    - Files.  [File]: [file.c] and [pipealloc] over memory, pipes and inodes.
      [FileSpec]: the file table satisfies [FileLaws], so the theorems on
      processes hold of the two together.  [Pipe]: [pipe.c].
    - System calls and traps.  [Syscall]: [syscall.c] (arguments) and
      [sysproc.c], on the state [sys] of the whole kernel.  [Sysfile]:
      [sysfile.c].  [Exec]: [exec.c] and [sys_exec].  [Trap]: [trap.c] and the
      table of system calls.  [Handles], [CallSpec], [SysSpec]: what holds in
      the middle of a call ([call]: references and pages the call itself holds)
      and when it ends.  [ConsoleFile]: the file all processes share for the
      console.  [ExecMem], [ExecSpec], [ExecRun], [ExecFile]: the new address
      space of [exec] beside the old one, from headers to stack, for a file of
      any kind and for a file whose contents are known.  [TrapSpec]: executions
      of the whole kernel.  [KernelImage]: a process that runs a program from
      the disk of [Image], as witness.
    - Disk.  [BlockIO]: what the file system and the log use of the buffer cache,
      as classes with laws.  [Bio]: [bio.c], which implements them, over the
      completed transfer of one block.  [Virtio]: [virtio_disk.c], the device and
      its interrupts as a step relation; [VirtioSpec], [VirtioRefine]: they
      implement that transfer.  [Log], [LogSpec], [LogImage]: [log.c] with
      crashes between any two disk writes.
    - File system ([fs.c]).  [Balloc]: superblock, block bitmap.  [Inode]: inode
      table, on-disk inodes, block map, truncation.  [InodeSpec], [DiskInode],
      [BlockMap]: reference counts, what [ilock], [iupdate] and [ialloc] do to the
      disk, [bmap] against a reference definition of the ext2 block tree.
      [FileData]: [readi] and [writei].  [FileLost]: [writei] over a cache with
      buffers that differ from the disk.  [Dir], [DirSpec], [Path], [NameSpec]:
      directories and path resolution.  [Image]: a concrete disk.
    - Devices and printing.  [Console]: [uart.c] and [console.c].  [Printf]:
      [kernel/printf.c] and [user/printf.c].
    - User programs.  [Grep]: [user/grep.c].  [Umalloc], [UmallocSpec],
      [UmallocSafe]: [user/umalloc.c], blocks as a partition of the heap.  [Sh]:
      [user/sh.c]; [ShSpec]: tokens and the grammar of commands; [ShParse]: the
      parser; [ShRun]: what a command and a script start.

    * What is shown

    - The kernel as a whole: in executions of [tame] steps - user code, system
      calls, faults, interrupts, scheduling - no page has two owners, a step of
      one process changes nothing of another's memory, registers or descriptors,
      and descriptors refer to live objects of the kind their tag says.  Not
      [tame] are [printinfo] of the current directory or of a file, and traps
      while the console's file is not as [console_ok] says: its slot in the file
      table was never used before and no other file has its device number.
      The first of them breaks the reference counts, and a theorem says how.
    - [exec] always returns, and either changes nothing or leaves the process
      with exactly the image, stack and registers that the file named by its path
      describes.
    - Processes: [fork] makes an exact copy or changes nothing; [exit] and [wait]
      hand over the status, the children and the memory, and no exit is missed;
      [sbrk].
    - Memory: the page allocator partitions the pages; the page-table routines
      implement operations on abstract address spaces and neither leak pages nor
      touch those of others; [copyout] and [copyin] agree with each other and
      with what the process may access.
    - Disk: the buffer cache is indistinguishable from an uncached disk; a group
      of operations in the log reaches the disk whole or not at all for a crash
      after any write, and recovery may itself crash; the disk driver, with
      concurrent calls and a device that serves them in any order, transfers each
      block in one step between call and return, never fails by itself, and
      loses no wakeup.
    - File system: path resolution, directory lookup, reading files, the block map
      and inode reference counts do what their ext2 definitions say.
    - Where the code does not do what it means to, a theorem says what it does
      instead: bitmap bit order, truncated inode updates, misplaced inodes, file
      data that never gets to the disk, endless directory searches, entries that
      are not found, a log that fills the cache, stranded pipe readers, buffer
      overflow in printing, a console whose last close crashes the kernel, a reference too few after
      [printinfo], memory from [malloc] that does not exist.
    - Pipes and the console are queues; spin locks exclude each other and keep
      interrupts off; grep's matcher decides its language; the user allocator
      hands out disjoint pieces of its heap; the shell's parser decides its
      grammar, and the shell starts the programs its input calls for.

    * What is not modelled

    Assembly, control registers and interrupt controllers (hardware; the virtio
    device behaves as its specification says, the 16550 answers as it likes);
    weak memory (locks are sequentially consistent); failures of [malloc] in the
    shell and its message on leftovers; user programs that only call the kernel.
    User programs run above what they use of the system calls, not above the
    model of the kernel.  A system call is one step of an execution up to the
    point where it returns or sleeps on a pipe, the console, the clock or a child; runs in which it blocks
    on a sleep lock that another call holds are not among the steps, and
    [begin_op] and [end_op], which bracket it, are modelled with the log. *)

From Stdlib Require Export ZArith Lia Zify ZifyNat.
From stdpp Require Export base list list_numbers strings numbers gmap sets.

Local Open Scope Z_scope.

(** * Machine integers

    A C integer of width [w] is a [Z]; the conversions of the source
    ([uint], [int], [ushort], [short], [uchar], [uint64]) are the wrap-around
    functions below. *)

Definition u8 (z : Z) : Z := z mod 2 ^ 8.
Definition u16 (z : Z) : Z := z mod 2 ^ 16.
Definition u32 (z : Z) : Z := z mod 2 ^ 32.
Definition u64 (z : Z) : Z := z mod 2 ^ 64.
Definition s16 (z : Z) : Z := (z + 2 ^ 15) mod 2 ^ 16 - 2 ^ 15.
Definition s32 (z : Z) : Z := (z + 2 ^ 31) mod 2 ^ 32 - 2 ^ 31.

Definition is_u8 (z : Z) : Prop := 0 ≤ z < 2 ^ 8.
Definition is_u16 (z : Z) : Prop := 0 ≤ z < 2 ^ 16.
Definition is_u32 (z : Z) : Prop := 0 ≤ z < 2 ^ 32.

(** [lia] extended with the defining equations of [div] and [mod]. *)
Ltac zlia := Z.div_mod_to_equations; lia.
(** The same for [nat]. *)
Ltac nlia := zify; Z.div_mod_to_equations; lia.
Ltac wrap_lia := unfold u8, u16, u32, u64, s16, s32, is_u8, is_u16, is_u32 in *; zlia.

Lemma u8_id z : is_u8 z → u8 z = z.
Proof. intros. wrap_lia. Qed.
Lemma u16_id z : is_u16 z → u16 z = z.
Proof. intros. wrap_lia. Qed.
Lemma u32_id z : is_u32 z → u32 z = z.
Proof. intros. wrap_lia. Qed.
Lemma u64_id z : 0 ≤ z < 2 ^ 64 → u64 z = z.
Proof. intros. wrap_lia. Qed.
Lemma u16_range z : is_u16 (u16 z).
Proof. wrap_lia. Qed.
Lemma u32_range z : is_u32 (u32 z).
Proof. wrap_lia. Qed.
Lemma s32_id z : - 2 ^ 31 ≤ z < 2 ^ 31 → s32 z = z.
Proof. intros. wrap_lia. Qed.
Lemma s16_u16 z : - 2 ^ 15 ≤ z < 2 ^ 15 → s16 (u16 z) = z.
Proof. intros. wrap_lia. Qed.

Create HintDb ints.
Create Rewrite HintDb ints.
#[export] Hint Resolve u16_range u32_range : ints.
#[export] Hint Rewrite u8_id u16_id u32_id s32_id using (wrap_lia) : ints.

(** * Outcomes and the kernel monad

    A C function that runs on a state of type [S] either returns, calls
    [panic], blocks in [sleep()] (the state at that point is kept), or does
    something C gives no meaning to (an out-of-range array access, a null
    dereference).  [NoFuel] marks a loop whose iteration budget ran out; a
    property that a call returns excludes it. *)

Inductive outcome (S A : Type) : Type :=
  | Ok (a : A) (s : S)
  | Panic (msg : string)
  | Sleep (s : S)
  | Undef
  | NoFuel.
Arguments Ok {S A} a s.
Arguments Panic {S A} msg%_string_scope.
Arguments Sleep {S A} s.
Arguments Undef {S A}.
Arguments NoFuel {S A}.

Definition M (S A : Type) : Type := S → outcome S A.

#[export] Instance M_ret S : MRet (M S) := λ A a s, Ok a s.
#[export] Instance M_bind S : MBind (M S) := λ A B f m s,
  match m s with
  | Ok a s' => f a s'
  | Panic e => Panic e
  | Sleep s' => Sleep s'
  | Undef => Undef
  | NoFuel => NoFuel
  end.

Definition get {S} : M S S := λ s, Ok s s.
Definition gets {S A} (f : S → A) : M S A := λ s, Ok (f s) s.
Definition put {S} (s : S) : M S unit := λ _, Ok tt s.
Definition modify {S} (f : S → S) : M S unit := λ s, Ok tt (f s).
Definition panic {S A} (msg : string) : M S A := λ _, Panic msg.
Arguments panic {S A} msg%_string_scope.
Definition undef {S A} : M S A := λ _, Undef.
Definition nofuel {S A} : M S A := λ _, NoFuel.
Definition block {S A} : M S A := λ s, Sleep s.
Definition when {S} (b : bool) (m : M S unit) : M S unit :=
  if b then m else mret tt.
(** [x] or undefined behaviour when [o] is [None] (a bad index or pointer). *)
Definition of_option {S A} (o : option A) : M S A :=
  match o with Some a => mret a | None => undef end.

(** Run an operation of a component on the part of a larger state that holds
    that component. *)
Definition zoom {S T A} (pr : S → T) (up : T → S → S) (m : M T A) : M S A :=
  λ s, match m (pr s) with
       | Ok a t => Ok a (up t s)
       | Panic e => Panic e
       | Sleep t => Sleep (up t s)
       | Undef => Undef
       | NoFuel => NoFuel
       end.

(** * Total-correctness triples *)

Definition wp {S A} (m : M S A) (Q : A → S → Prop) (s : S) : Prop :=
  match m s with Ok a s' => Q a s' | _ => False end.

Section wp.
Context {S : Type}.
Implicit Types s : S.

Lemma wp_ret {A} (a : A) (Q : A → S → Prop) s : Q a s → wp (mret a) Q s.
Proof. done. Qed.

Lemma wp_bind {A B} (m : M S A) (f : A → M S B) Q s :
  wp m (λ a s', wp (f a) Q s') s → wp (mbind f m) Q s.
Proof. unfold wp, mbind, M_bind. by destruct (m s). Qed.

Lemma wp_mono {A} (m : M S A) (Q Q' : A → S → Prop) s :
  wp m Q s → (∀ a s', Q a s' → Q' a s') → wp m Q' s.
Proof. unfold wp. destruct (m s); firstorder (try congruence). Qed.

Lemma wp_gets {A} (f : S → A) (Q : A → S → Prop) s : Q (f s) s → wp (gets f) Q s.
Proof. done. Qed.
Lemma wp_get (Q : S → S → Prop) s : Q s s → wp get Q s.
Proof. done. Qed.
Lemma wp_put (Q : unit → S → Prop) s s' : Q tt s' → wp (put s') Q s.
Proof. done. Qed.
Lemma wp_modify (f : S → S) (Q : unit → S → Prop) s : Q tt (f s) → wp (modify f) Q s.
Proof. done. Qed.

Lemma wp_of_option {A} (o : option A) a (Q : A → S → Prop) s :
  o = Some a → Q a s → wp (of_option o) Q s.
Proof. by intros ->. Qed.

(** A triple says that the call returns and what it returns. *)
Lemma wp_ok {A} (m : M S A) (Q : A → S → Prop) s :
  wp m Q s ↔ ∃ a s', m s = Ok a s' ∧ Q a s'.
Proof. unfold wp. destruct (m s); firstorder (try congruence). Qed.
End wp.

Lemma wp_zoom {S T A} (pr : S → T) (up : T → S → S) (m : M T A) (Q : A → S → Prop) s :
  wp m (λ a t, Q a (up t s)) (pr s) → wp (zoom pr up m) Q s.
Proof. unfold wp, zoom. by destruct (m (pr s)). Qed.

(** Evaluate the call in front of a body whose result is known. *)
Lemma bind_ok {S A B} (m : M S A) (f : A → M S B) s a s' :
  m s = Ok a s' → mbind f m s = f a s'.
Proof. intros H. unfold mbind, M_bind. by rewrite H. Qed.
(** A body that returned ran each of its calls to completion. *)
Lemma bind_inv {S A B} (m : M S A) (f : A → M S B) s b s2 :
  mbind f m s = Ok b s2 → ∃ a s1, m s = Ok a s1 ∧ f a s1 = Ok b s2.
Proof. unfold mbind, M_bind. destruct (m s); try done. eauto. Qed.
Ltac run := erewrite bind_ok by (first [eassumption|reflexivity]); cbv beta iota.

(** [post P m s]: running [m] from [s] ends in an outcome that satisfies [P];
    for bodies whose last call may do anything. *)
Definition post {S A} (P : outcome S A → Prop) (m : M S A) (s : S) : Prop := P (m s).
Lemma post_bind {S A B} (m : M S A) (f : A → M S B) P s :
  wp m (λ a s', post P (f a) s') s → post P (mbind f m) s.
Proof. unfold wp, post, mbind, M_bind. by destruct (m s). Qed.

(** * Partial-correctness triples: what holds if the call returns *)

Definition pwp {S A} (m : M S A) (Q : A → S → Prop) (s : S) : Prop :=
  match m s with Ok a s' => Q a s' | _ => True end.

Section pwp.
Context {S : Type}.
Implicit Types s : S.

Lemma pwp_ok {A} (m : M S A) (Q : A → S → Prop) s :
  pwp m Q s ↔ ∀ a s', m s = Ok a s' → Q a s'.
Proof.
  unfold pwp. split.
  - by intros H a s' E; rewrite E in H.
  - intros H. destruct (m s); try done. by apply H.
Qed.
Lemma pwp_bind {A B} (m : M S A) (f : A → M S B) Q s :
  pwp m (λ a s', pwp (f a) Q s') s → pwp (mbind f m) Q s.
Proof. unfold pwp, mbind, M_bind. by destruct (m s). Qed.
Lemma pwp_mono {A} (m : M S A) (Q Q' : A → S → Prop) s :
  pwp m Q s → (∀ a s', Q a s' → Q' a s') → pwp m Q' s.
Proof. unfold pwp. destruct (m s); auto. Qed.
Lemma pwp_ret {A} (a : A) (Q : A → S → Prop) s : Q a s → pwp (mret a) Q s.
Proof. done. Qed.
Lemma pwp_gets {A} (f : S → A) (Q : A → S → Prop) s : Q (f s) s → pwp (gets f) Q s.
Proof. done. Qed.
Lemma pwp_get (Q : S → S → Prop) s : Q s s → pwp get Q s.
Proof. done. Qed.
Lemma pwp_put (Q : unit → S → Prop) s s' : Q tt s' → pwp (put s') Q s.
Proof. done. Qed.
Lemma pwp_modify (f : S → S) (Q : unit → S → Prop) s : Q tt (f s) → pwp (modify f) Q s.
Proof. done. Qed.
Lemma pwp_of_option {A} (o : option A) (Q : A → S → Prop) s :
  (∀ a, o = Some a → Q a s) → pwp (of_option o) Q s.
Proof. destruct o; [intros H; by apply H|done]. Qed.
Lemma pwp_when b (m : M S unit) Q s : (b = true → pwp m Q s) → (b = false → Q tt s) → pwp (when b m) Q s.
Proof. destruct b; cbn [when]; [auto|]. intros _ H. by apply H. Qed.
Lemma pwp_if {A} (b : bool) (m k : M S A) Q s :
  (b = true → pwp m Q s) → (b = false → pwp k Q s) → pwp (if b then m else k) Q s.
Proof. destruct b; auto. Qed.
End pwp.

Lemma pwp_zoom {S T A} (pr : S → T) (up : T → S → S) (m : M T A) (Q : A → S → Prop) s :
  pwp m (λ a t, Q a (up t s)) (pr s) → pwp (zoom pr up m) Q s.
Proof. unfold pwp, zoom. by destruct (m (pr s)). Qed.

Ltac pwp_pure :=
  lazymatch goal with
  | |- pwp (mbind _ _) _ _ => apply pwp_bind
  | |- pwp (mret _) _ _ => apply pwp_ret
  | |- pwp (gets _) _ _ => apply pwp_gets
  | |- pwp get _ _ => apply pwp_get
  | |- pwp (put _) _ _ => apply pwp_put
  | |- pwp (modify _) _ _ => apply pwp_modify
  | |- pwp (panic _) _ _ => exact I
  | |- pwp undef _ _ => exact I
  | |- pwp nofuel _ _ => exact I
  | |- pwp block _ _ => exact I
  | |- pwp (if _ then _ else _) _ _ => apply pwp_if; let H := fresh "Hc" in intros H; rewrite ?bool_decide_eq_true, ?bool_decide_eq_false in H
  | |- pwp (when _ _) _ _ => apply pwp_when; let H := fresh "Hc" in intros H; rewrite ?bool_decide_eq_true, ?bool_decide_eq_false in H
  | |- pwp (of_option _) _ _ => apply pwp_of_option; intros ? ?
  end; cbv beta.
Ltac pwp_pures := repeat pwp_pure.
(** Use a proved triple for the call in front. *)
Ltac pwp_enter := repeat lazymatch goal with |- pwp (mbind _ _) _ _ => apply pwp_bind end.
Tactic Notation "pwp_use" uconstr(H) :=
  pwp_enter; eapply pwp_mono; [apply H|cbv beta].

(** * Triples that are total when [total] says so, and partial otherwise *)

Definition gwp {S A} (total : bool) (m : M S A) (Q : A → S → Prop) (s : S) : Prop :=
  match m s with Ok a s' => Q a s' | _ => total = false end.

Section gwp.
Context {S : Type} (total : bool).
Implicit Types s : S.

Lemma gwp_pwp {A} (m : M S A) Q s : gwp false m Q s ↔ pwp m Q s.
Proof. unfold gwp, pwp. by destruct (m s). Qed.
Lemma gwp_wp {A} (m : M S A) Q s : gwp true m Q s ↔ wp m Q s.
Proof. unfold gwp, wp. destruct (m s); (done || by split). Qed.
Lemma gwp_run {A} (m : M S A) (Q : A → S → Prop) s a s' : m s = Ok a s' → Q a s' → gwp total m Q s.
Proof. unfold gwp. by intros ->. Qed.
Lemma gwp_partial {A} (m : M S A) Q s : gwp total m Q s → pwp m Q s.
Proof. unfold gwp, pwp. by destruct (m s). Qed.
(** A fact on what is returned comes with the triple that says it returns. *)
Lemma gwp_and {A} (m : M S A) (Q P : A → S → Prop) s : gwp total m Q s → pwp m P s → gwp total m (λ a s', Q a s' ∧ P a s') s.
Proof. unfold gwp, pwp. by destruct (m s). Qed.
Lemma gwp_bind {A B} (m : M S A) (f : A → M S B) Q s :
  gwp total m (λ a s', gwp total (f a) Q s') s → gwp total (mbind f m) Q s.
Proof. unfold gwp, mbind, M_bind. by destruct (m s). Qed.
Lemma gwp_mono {A} (m : M S A) (Q Q' : A → S → Prop) s :
  gwp total m Q s → (∀ a s', Q a s' → Q' a s') → gwp total m Q' s.
Proof. unfold gwp. destruct (m s); auto. Qed.
Lemma gwp_ret {A} (a : A) (Q : A → S → Prop) s : Q a s → gwp total (mret a) Q s.
Proof. done. Qed.
Lemma gwp_gets {A} (f : S → A) (Q : A → S → Prop) s : Q (f s) s → gwp total (gets f) Q s.
Proof. done. Qed.
Lemma gwp_get (Q : S → S → Prop) s : Q s s → gwp total get Q s.
Proof. done. Qed.
Lemma gwp_of_option {A} (o : option A) (Q : A → S → Prop) s :
  (∀ a, o = Some a → Q a s) → (total = true → is_Some o) → gwp total (of_option o) Q s.
Proof. destruct o; [intros H _; by apply H|]. intros _ H. unfold gwp. cbn. destruct total; [by destruct (H eq_refl)|done]. Qed.
Lemma gwp_when c (m : M S unit) Q s : (c = true → gwp total m Q s) → (c = false → Q tt s) → gwp total (when c m) Q s.
Proof. destruct c; cbn [when]; [auto|]. intros _ H. by apply H. Qed.
Lemma gwp_if {A} (c : bool) (m k : M S A) Q s :
  (c = true → gwp total m Q s) → (c = false → gwp total k Q s) → gwp total (if c then m else k) Q s.
Proof. destruct c; auto. Qed.
End gwp.

Lemma gwp_zoom {S T A} total (pr : S → T) (up : T → S → S) (m : M T A) (Q : A → S → Prop) s :
  gwp total m (λ a t, Q a (up t s)) (pr s) → gwp total (zoom pr up m) Q s.
Proof. unfold gwp, zoom. by destruct (m (pr s)). Qed.

Ltac gwp_enter := repeat lazymatch goal with |- gwp _ (mbind _ _) _ _ => apply gwp_bind end.
Tactic Notation "gwp_use" uconstr(H) :=
  gwp_enter; eapply gwp_mono; [apply H|cbv beta].
(** The call in front is known to return. *)
Tactic Notation "gwp_step" uconstr(H) :=
  gwp_enter; eapply gwp_run; [apply H|].

(** Walk through a monadic body: one primitive per call. *)
Ltac wp_pure :=
  lazymatch goal with
  | |- wp (mbind _ _) _ _ => apply wp_bind
  | |- wp (mret _) _ _ => apply wp_ret
  | |- wp (gets _) _ _ => apply wp_gets
  | |- wp get _ _ => apply wp_get
  | |- wp (put _) _ _ => apply wp_put
  | |- wp (modify _) _ _ => apply wp_modify
  | |- wp (when true _) _ _ => unfold when
  | |- wp (when false _) _ _ => unfold when
  | |- wp (of_option (Some _)) _ _ => apply wp_ret
  | |- wp (zoom _ _ _) _ _ => apply wp_zoom
  end; cbv beta.
Ltac wp_pures := repeat wp_pure.
(** Use a proved triple for the call in front. *)
Tactic Notation "wp_use" uconstr(H) :=
  try apply wp_bind; eapply wp_mono; [apply H|cbv beta].
Tactic Notation "wp_use" uconstr(H) "by" tactic3(tac) :=
  try apply wp_bind; eapply wp_mono; [apply H; tac|cbv beta].

(** * Bytes and little-endian fields *)

Definition le_of (bs : list Z) : Z := foldr (λ b acc, b + 256 * acc) 0 bs.
Fixpoint le_to (n : nat) (z : Z) : list Z :=
  match n with
  | O => []
  | S n => z mod 256 :: le_to n (z / 256)
  end.

(** The bytes [off .. off+n) of a buffer, and the write of [bs] at [off]. *)
Definition slice (off n : nat) (l : list Z) : list Z := take n (drop off l).
Definition splice (off : nat) (bs l : list Z) : list Z :=
  take off l ++ bs ++ drop (off + length bs) l.

Definition rd (n off : nat) (l : list Z) : Z := le_of (slice off n l).
Definition wr (n off : nat) (z : Z) (l : list Z) : list Z := splice off (le_to n z) l.

Definition bytes (l : list Z) : Prop := Forall is_u8 l.

Lemma length_le_to n z : length (le_to n z) = n.
Proof. revert z. induction n; simpl; auto. Qed.

Lemma le_of_to n z : le_of (le_to n z) = z mod 2 ^ (8 * Z.of_nat n).
Proof.
  revert z. induction n as [|n IH]; intros z.
  { simpl. by rewrite Z.mod_1_r. }
  change (le_of (le_to (S n) z)) with (z mod 256 + 256 * le_of (le_to n (z / 256))).
  rewrite IH.
  replace (8 * Z.of_nat (S n)) with (8 + 8 * Z.of_nat n) by lia.
  rewrite Z.pow_add_r by lia. change (2 ^ 8) with 256.
  rewrite Z.rem_mul_r by lia. lia.
Qed.

Lemma le_of_range l : bytes l → 0 ≤ le_of l < 2 ^ (8 * Z.of_nat (length l)).
Proof.
  induction 1 as [|b l Hb _ IH]; [done|].
  change (le_of (b :: l)) with (b + 256 * le_of l).
  change (length (b :: l)) with (S (length l)).
  replace (8 * Z.of_nat (S (length l))) with (8 + 8 * Z.of_nat (length l)) by lia.
  rewrite Z.pow_add_r by lia. change (2 ^ 8) with 256. wrap_lia.
Qed.

Lemma le_to_of l : bytes l → le_to (length l) (le_of l) = l.
Proof.
  induction 1 as [|b l Hb _ IH]; [done|].
  change (le_of (b :: l)) with (b + 256 * le_of l). simpl.
  replace ((b + 256 * le_of l) mod 256) with b by wrap_lia.
  replace ((b + 256 * le_of l) / 256) with (le_of l) by wrap_lia.
  by rewrite IH.
Qed.

Lemma bytes_le_to n z : bytes (le_to n z).
Proof. revert z. induction n; simpl; constructor; [wrap_lia|apply IHn]. Qed.

Lemma length_splice off bs l :
  (off + length bs ≤ length l)%nat → length (splice off bs l) = length l.
Proof. intros. unfold splice. rewrite !length_app, length_take, length_drop. lia. Qed.

Lemma length_slice off n l :
  (off + n ≤ length l)%nat → length (slice off n l) = n.
Proof. intros. unfold slice. rewrite length_take, length_drop. lia. Qed.

Lemma lookup_splice off bs l i :
  (off + length bs ≤ length l)%nat →
  splice off bs l !! i =
    if decide (off ≤ i < off + length bs)%nat then bs !! (i - off)%nat else l !! i.
Proof.
  intros Hlen. unfold splice. case_decide.
  - rewrite lookup_app_r by (rewrite length_take; lia).
    rewrite length_take, lookup_app_l by lia. f_equal. lia.
  - destruct (decide (i < off)%nat).
    + rewrite lookup_app_l by (rewrite length_take; lia). apply lookup_take_lt. lia.
    + rewrite lookup_app_r by (rewrite length_take; lia).
      rewrite length_take, lookup_app_r by lia.
      rewrite lookup_drop. f_equal. lia.
Qed.

Lemma lookup_slice off n l i :
  slice off n l !! i = if decide (i < n)%nat then l !! (off + i)%nat else None.
Proof.
  unfold slice. case_decide.
  - by rewrite lookup_take_lt, lookup_drop by lia.
  - apply lookup_take_ge. lia.
Qed.

(** Reading back a field that was written, and one that was not touched. *)
Lemma slice_splice_eq off bs l :
  (off + length bs ≤ length l)%nat → slice off (length bs) (splice off bs l) = bs.
Proof.
  intros. unfold slice, splice.
  rewrite drop_app_ge by (rewrite length_take; lia).
  rewrite length_take, Nat.min_l, Nat.sub_diag, drop_0 by lia.
  apply take_app_length.
Qed.

Lemma slice_splice_ne off bs l off' n :
  (off + length bs ≤ length l)%nat →
  (off' + n ≤ off ∨ off + length bs ≤ off')%nat →
  slice off' n (splice off bs l) = slice off' n l.
Proof.
  intros Hlen Hdis. apply list_eq. intros i. rewrite !lookup_slice.
  case_decide; [|done]. rewrite lookup_splice by done.
  rewrite decide_False by lia. done.
Qed.

Lemma splice_slice_same off n l :
  (off + n ≤ length l)%nat → splice off (slice off n l) l = l.
Proof.
  intros. apply list_eq. intros i. rewrite lookup_splice by (rewrite length_slice; lia).
  rewrite length_slice by lia. case_decide; [|done].
  rewrite lookup_slice, decide_True by lia. f_equal. lia.
Qed.

Lemma rd_wr_eq n off z l :
  (off + n ≤ length l)%nat → rd n off (wr n off z l) = z mod 2 ^ (8 * Z.of_nat n).
Proof.
  intros. unfold rd, wr. rewrite <-(length_le_to n z) at 1.
  rewrite slice_splice_eq by (rewrite length_le_to; lia). apply le_of_to.
Qed.

Lemma rd_wr_ne n off z l n' off' :
  (off + n ≤ length l)%nat → (off' + n' ≤ off ∨ off + n ≤ off')%nat →
  rd n' off' (wr n off z l) = rd n' off' l.
Proof.
  intros. unfold rd, wr. by rewrite slice_splice_ne by (rewrite length_le_to; lia).
Qed.

(** Fields of a copied structure, of a written range, and of zeroed memory. *)
Lemma rd_slice n off o m l : (off + n ≤ m)%nat → rd n off (slice o m l) = rd n (o + off) l.
Proof.
  intros. unfold rd, slice. rewrite skipn_firstn_comm, take_take, drop_drop. do 3 f_equal; lia.
Qed.
Lemma rd_splice_in n off o bs l :
  (o + length bs ≤ length l)%nat → (o ≤ off)%nat → (off + n ≤ o + length bs)%nat →
  rd n off (splice o bs l) = rd n (off - o) bs.
Proof.
  intros Hl Ho Hn. unfold rd. f_equal. apply list_eq. intros i. rewrite !lookup_slice.
  case_decide; [|done]. rewrite lookup_splice, decide_True by lia. f_equal. lia.
Qed.
Lemma le_of_zeros n : le_of (replicate n 0) = 0.
Proof.
  induction n as [|n IH]; [done|]. cbn [replicate].
  change (le_of (0 :: replicate n 0)) with (0 + 256 * le_of (replicate n 0)). lia.
Qed.
Lemma rd_zeros n off m : rd n off (replicate m 0) = 0.
Proof. unfold rd, slice. rewrite drop_replicate, take_replicate. apply le_of_zeros. Qed.

Lemma length_wr n off z l :
  (off + n ≤ length l)%nat → length (wr n off z l) = length l.
Proof. intros. unfold wr. apply length_splice. rewrite length_le_to. lia. Qed.

Lemma bytes_app l k : bytes (l ++ k) ↔ bytes l ∧ bytes k.
Proof. apply Forall_app. Qed.
Lemma bytes_take n l : bytes l → bytes (take n l).
Proof. apply Forall_take. Qed.
Lemma bytes_drop n l : bytes l → bytes (drop n l).
Proof. apply Forall_drop. Qed.
Lemma bytes_slice off n l : bytes l → bytes (slice off n l).
Proof. intros. by apply bytes_take, bytes_drop. Qed.
Lemma bytes_splice off bs l : bytes bs → bytes l → bytes (splice off bs l).
Proof. intros. unfold splice. rewrite !bytes_app. eauto using bytes_take, bytes_drop. Qed.
Lemma bytes_wr n off z l : bytes l → bytes (wr n off z l).
Proof. intros. apply bytes_splice; auto using bytes_le_to. Qed.
Lemma bytes_replicate n b : is_u8 b → bytes (replicate n b).
Proof. intros. by apply Forall_replicate. Qed.

Lemma rd_range n off l :
  bytes l → (off + n ≤ length l)%nat → 0 ≤ rd n off l < 2 ^ (8 * Z.of_nat n).
Proof.
  intros Hl Hlen. unfold rd. pose proof (le_of_range (slice off n l)) as H.
  rewrite length_slice in H by done. auto using bytes_slice.
Qed.

Create HintDb blk.
Create Rewrite HintDb blk.
#[export] Hint Resolve bytes_le_to bytes_slice bytes_splice bytes_wr bytes_take bytes_drop
  bytes_replicate : blk.
#[export] Hint Rewrite length_le_to length_splice length_slice length_wr @length_replicate
  using (rewrite ?length_le_to; lia) : blk.

(** * Sums over lists *)

Fixpoint sum_over {A} (g : A → Z) (l : list A) : Z := match l with [] => 0 | x :: l => g x + sum_over g l end.

Section sum_over.
Context {A : Type} (g : A → Z).

Lemma sum_over_insert l i p q : l !! i = Some p → sum_over g (<[i := q]> l) = sum_over g l - g p + g q.
Proof.
  revert i. induction l as [|r l IH]; intros [|i] Hi; [done|done|..].
  - injection Hi as ->. change (<[0%nat := q]> (p :: l)) with (q :: l). cbn [sum_over]. lia.
  - change (<[S i := q]> (r :: l)) with (r :: <[i := q]> l). cbn [sum_over]. rewrite (IH i Hi). lia.
Qed.
Lemma sum_over_nonneg l : (∀ p, 0 ≤ g p) → 0 ≤ sum_over g l.
Proof. intros Hg. induction l as [|r l IH]; cbn [sum_over]; [lia|]. pose proof (Hg r). lia. Qed.
Lemma sum_over_ge l i p : (∀ p, 0 ≤ g p) → l !! i = Some p → g p ≤ sum_over g l.
Proof.
  intros Hg. revert i. induction l as [|r l IH]; intros [|i] Hi; cbn in *; simplify_eq.
  - pose proof (sum_over_nonneg l Hg). lia.
  - pose proof (Hg r). pose proof (IH i Hi). lia.
Qed.
Lemma sum_over_le l b : (∀ p, p ∈ l → g p ≤ b) → sum_over g l ≤ b * Z.of_nat (length l).
Proof.
  induction l as [|r l IH]; intros Hb; cbn [sum_over length]; [lia|]. pose proof (Hb r ltac:(by left)).
  assert (sum_over g l ≤ b * Z.of_nat (length l)) by (apply IH; intros p Hp; apply Hb; by right). lia.
Qed.
End sum_over.
