(* ===== verification/CString.v ===== *)
(** Byte memory and C strings: [kernel/string.c] and the string routines of
    [user/ulib.c].

    The [mem*] routines take two pointers into one memory, which may overlap:
    [Mem] models them on a finite map from addresses to bytes, a missing
    address being one the code must not touch.  The [str*] routines are on
    character arrays: a [char *] is the list of the bytes from the pointer to
    the end of its array, and reading past that end is [None]. *)

From S2P Require Import Prelude.

Local Open Scope Z_scope.

(** The bytes of a string constant. *)
Definition chars (s : string) : list Z := (λ a, Z.of_N (Ascii.N_of_ascii a)) <$> String.list_ascii_of_string s.
Arguments chars s%_string_scope.

Module Mem.

Definition load (a : Z) : M (gmap Z Z) Z := m ← get; of_option (m !! a).
Definition store (a v : Z) : M (gmap Z Z) unit :=
  m ← get; match m !! a with Some _ => put (<[a := u8 v]> m) | None => undef end.

Fixpoint memset_loop (n : nat) (cdst c : Z) : M (gmap Z Z) unit :=
  match n with
  | O => mret tt
  | S n => store cdst c;; memset_loop n (cdst + 1) c
  end.
Definition memset (dst c : Z) (n : nat) : M (gmap Z Z) Z :=
  memset_loop n dst c;; mret dst.

Fixpoint memcmp (s1 s2 : Z) (n : nat) : M (gmap Z Z) Z :=
  match n with
  | O => mret 0
  | S n =>
      a ← load s1; b ← load s2;
      if bool_decide (a ≠ b) then mret (a - b) else memcmp (s1 + 1) (s2 + 1) n
  end.

(** The two loops of [memmove]: ascending, and descending from the ends. *)
Fixpoint copy_up (d s : Z) (n : nat) : M (gmap Z Z) unit :=
  match n with
  | O => mret tt
  | S n => c ← load s; store d c;; copy_up (d + 1) (s + 1) n
  end.
Fixpoint copy_down (d s : Z) (n : nat) : M (gmap Z Z) unit :=
  match n with
  | O => mret tt
  | S n => c ← load (s - 1); store (d - 1) c;; copy_down (d - 1) (s - 1) n
  end.

Definition memmove (dst src : Z) (n : nat) : M (gmap Z Z) Z :=
  if bool_decide (n = O) then mret dst
  else if bool_decide (src < dst ∧ src + Z.of_nat n > dst)
  then copy_down (dst + Z.of_nat n) (src + Z.of_nat n) n;; mret dst
  else copy_up dst src n;; mret dst.

Definition memcpy (dst src : Z) (n : nat) : M (gmap Z Z) Z := memmove dst src n.

(** [user/ulib.c] decides the direction on the pointers alone. *)
Definition umemmove (vdst vsrc : Z) (n : nat) : M (gmap Z Z) Z :=
  if bool_decide (vsrc > vdst) then copy_up vdst vsrc n;; mret vdst
  else copy_down (vdst + Z.of_nat n) (vsrc + Z.of_nat n) n;; mret vdst.

(** ** Reference: the simultaneous copy *)

Definition mapped (m : gmap Z Z) (a : Z) (n : nat) : Prop :=
  ∀ i, a ≤ i < a + Z.of_nat n → is_Some (m !! i).
Definition bytes_mem (m : gmap Z Z) : Prop := ∀ a v, m !! a = Some v → is_u8 v.
Definition copied (m m' : gmap Z Z) (dst src : Z) (n : nat) : Prop :=
  ∀ a, m' !! a = if decide (dst ≤ a < dst + Z.of_nat n)
                 then m !! (src + (a - dst)) else m !! a.

Lemma wp_load a v (Q : Z → gmap Z Z → Prop) m :
  m !! a = Some v → Q v m → wp (load a) Q m.
Proof. intros H HQ. unfold wp, load, mbind, M_bind, get. by rewrite H. Qed.

Lemma wp_store a v (Q : unit → gmap Z Z → Prop) m :
  is_Some (m !! a) → Q tt (<[a := u8 v]> m) → wp (store a v) Q m.
Proof. intros [? H] HQ. unfold wp, store, mbind, M_bind, get. by rewrite H. Qed.

Lemma mapped_insert m a n k v :
  mapped m a n → mapped (<[k := v]> m) a n.
Proof.
  intros H i Hi. destruct (decide (k = i)) as [->|]; [by rewrite lookup_insert_eq|].
  rewrite lookup_insert_ne by done. auto.
Qed.

Lemma bytes_mem_insert m a v : bytes_mem m → is_u8 v → bytes_mem (<[a := v]> m).
Proof. intros Hm Hv k w. rewrite lookup_insert. case_decide; naive_solver. Qed.

Lemma mapped_sub m a n b k :
  mapped m a n → a ≤ b → b + Z.of_nat k ≤ a + Z.of_nat n → mapped m b k.
Proof. intros H ?? i Hi. apply H. lia. Qed.

(** Ascending copy is right unless the source lies below an overlapping
    destination; descending copy is right unless it lies above. *)
Lemma copy_up_spec n d s m :
  bytes_mem m → mapped m s n → mapped m d n → (d ≤ s ∨ s + Z.of_nat n ≤ d) →
  wp (copy_up d s n) (λ _ m', copied m m' d s n) m.
Proof.
  revert d s m. induction n as [|n IH]; intros d s m Hm Hs Hd Hdir; simpl.
  { apply wp_ret. intros a. rewrite decide_False by lia. done. }
  destruct (Hs s ltac:(lia)) as [v Hv]. pose proof (Hm _ _ Hv) as Hvb.
  apply wp_bind. eapply wp_load; [done|]. apply wp_bind. apply wp_store; [apply Hd; lia|].
  rewrite u8_id by done. eapply wp_mono.
  { apply IH; [by apply bytes_mem_insert|apply mapped_insert..|lia].
    - apply (mapped_sub _ s (S n)); [done|lia..].
    - apply (mapped_sub _ d (S n)); [done|lia..]. }
  intros [] m' Hc a. rewrite (Hc a). repeat case_decide; try lia.
  - rewrite lookup_insert_ne by lia. f_equal. lia.
  - assert (a = d) as -> by lia. rewrite lookup_insert_eq, <-Hv. f_equal. lia.
  - by rewrite lookup_insert_ne by lia.
Qed.

Lemma copy_down_spec n d s m :
  bytes_mem m → mapped m (s - Z.of_nat n) n → mapped m (d - Z.of_nat n) n →
  (s ≤ d ∨ d ≤ s - Z.of_nat n) →
  wp (copy_down d s n) (λ _ m', copied m m' (d - Z.of_nat n) (s - Z.of_nat n) n) m.
Proof.
  revert d s m. induction n as [|n IH]; intros d s m Hm Hs Hd Hdir; simpl.
  { apply wp_ret. intros a. rewrite decide_False by lia. done. }
  destruct (Hs (s - 1) ltac:(lia)) as [v Hv]. pose proof (Hm _ _ Hv) as Hvb.
  apply wp_bind. eapply wp_load; [done|]. apply wp_bind. apply wp_store; [apply Hd; lia|].
  rewrite u8_id by done. eapply wp_mono.
  { apply IH; [by apply bytes_mem_insert|apply mapped_insert..|lia].
    - apply (mapped_sub _ (s - Z.of_nat (S n)) (S n)); [done|lia..].
    - apply (mapped_sub _ (d - Z.of_nat (S n)) (S n)); [done|lia..]. }
  intros [] m' Hc a. rewrite (Hc a). repeat case_decide; try lia.
  - rewrite lookup_insert_ne by lia. f_equal. lia.
  - assert (a = d - 1) as -> by lia. rewrite lookup_insert_eq, <-Hv. f_equal. lia.
  - by rewrite lookup_insert_ne by lia.
Qed.

Lemma copied_0 m dst src : copied m m dst src 0.
Proof. intros a. rewrite decide_False by lia. done. Qed.

Lemma wp_then_ret (c : M (gmap Z Z) unit) (r : Z) (P : gmap Z Z → Prop) m :
  wp c (λ _, P) m → wp (c;; mret r) (λ r' m', r' = r ∧ P m') m.
Proof. intros H. apply wp_bind. eapply wp_mono; [exact H|]. intros. by apply wp_ret. Qed.

Lemma copy_down_spec' n d s m :
  bytes_mem m → mapped m s n → mapped m d n → (s ≤ d ∨ d + Z.of_nat n ≤ s) →
  wp (copy_down (d + Z.of_nat n) (s + Z.of_nat n) n) (λ _ m', copied m m' d s n) m.
Proof.
  intros. pose proof (copy_down_spec n (d + Z.of_nat n) (s + Z.of_nat n) m) as Hc.
  rewrite !Z.add_simpl_r in Hc. apply Hc; auto; lia.
Qed.

(** [memmove] copies as if through a temporary buffer, whatever the overlap. *)
Lemma memmove_copied m dst src n :
  bytes_mem m → mapped m src n → mapped m dst n →
  wp (memmove dst src n) (λ r m', r = dst ∧ copied m m' dst src n) m.
Proof.
  intros Hm Hs Hd. unfold memmove. case_bool_decide as Hn.
  { subst. apply wp_ret. auto using copied_0. }
  case_bool_decide as Hov; apply wp_then_ret.
  - apply copy_down_spec'; auto; lia.
  - apply copy_up_spec; auto; lia.
Qed.

Lemma umemmove_copied m dst src n :
  bytes_mem m → mapped m src n → mapped m dst n →
  wp (umemmove dst src n) (λ r m', r = dst ∧ copied m m' dst src n) m.
Proof.
  intros Hm Hs Hd. unfold umemmove.
  case_bool_decide as Hov; apply wp_then_ret.
  - apply copy_up_spec; auto; lia.
  - apply copy_down_spec'; auto; lia.
Qed.

Lemma memset_spec n dst c m :
  mapped m dst n →
  wp (memset dst c n) (λ r m', r = dst ∧
    ∀ a, m' !! a = if decide (dst ≤ a < dst + Z.of_nat n) then Some (u8 c) else m !! a) m.
Proof.
  intros Hm. unfold memset. apply wp_then_ret.
  revert dst m Hm. induction n as [|n IH]; intros dst m Hm; simpl.
  { apply wp_ret. intros a. rewrite decide_False by lia. done. }
  apply wp_bind, wp_store; [apply Hm; lia|]. eapply wp_mono.
  { apply IH. apply mapped_insert. eapply mapped_sub; eauto; lia. }
  intros [] m' H a. rewrite H. repeat case_decide; try lia; try done.
  - assert (a = dst) as -> by lia. by rewrite lookup_insert_eq.
  - by rewrite lookup_insert_ne by lia.
Qed.

(** the kernel's and the C library's [memmove] return, return [dst], and
    leave [dst .. dst+n) holding the bytes [src .. src+n) had before the call,
    with the rest of memory unchanged, for every overlap of the two ranges. *)
Theorem memmove_handles_overlap m dst src n :
  bytes_mem m → mapped m src n → mapped m dst n →
  wp (memmove dst src n) (λ r m', r = dst ∧ copied m m' dst src n) m ∧
  wp (memcpy dst src n) (λ r m', r = dst ∧ copied m m' dst src n) m ∧
  wp (umemmove dst src n) (λ r m', r = dst ∧ copied m m' dst src n) m.
Proof. auto using memmove_copied, umemmove_copied. Qed.

(** Bytes 10, 11, 12 moved up by one over themselves. *)
Lemma memmove_handles_overlap_witness :
  let m : gmap Z Z := {[ 10 := 1; 11 := 2; 12 := 3; 13 := 4 ]} in
  wp (memmove 11 10 3) (λ r m', r = 11 ∧ copied m m' 11 10 3) m.
Proof.
  intros m. apply (memmove_handles_overlap m 11 10 3).
  - intros a v. unfold m. rewrite !lookup_insert_Some, lookup_singleton_Some.
    intros H. wrap_lia.
  - intros i Hi. assert (i = 10 ∨ i = 11 ∨ i = 12) as [->|[->| ->]] by lia; done.
  - intros i Hi. assert (i = 11 ∨ i = 12 ∨ i = 13) as [->|[->| ->]] by lia; done.
Defined.

End Mem.

Module Str.

(** ** [kernel/string.c] *)

Fixpoint strncmp (p q : list Z) (n : nat) {struct n} : option Z :=
  match n with
  | O => Some 0
  | S n =>
      match p, q with
      | a :: p', b :: q' =>
          if bool_decide (a ≠ 0 ∧ a = b) then strncmp p' q' n else Some (u8 a - u8 b)
      | _, _ => None
      end
  end.

(** The second loop of [strncpy]: [while(n-- > 0) *s++ = 0]. *)
Fixpoint zfill (s : list Z) (n : nat) {struct n} : option (list Z) :=
  match n with
  | O => Some s
  | S n => match s with _ :: s' => cons 0 <$> zfill s' n | [] => None end
  end.

(** [strncpy s t n] is the array [s] after the call. *)
Fixpoint strncpy (s t : list Z) (n : nat) {struct n} : option (list Z) :=
  match n with
  | O => Some s
  | S n =>
      match s, t with
      | _ :: s', c :: t' =>
          if bool_decide (c = 0) then cons 0 <$> zfill s' n else cons c <$> strncpy s' t' n
      | _, _ => None
      end
  end.

(** [*s = 0]. *)
Definition put0 (s : list Z) : option (list Z) :=
  match s with _ :: s' => Some (0 :: s') | [] => None end.
(** The loop of [safestrcpy] with [n] characters of room before the
    terminator, and the store after it. *)
Fixpoint safestrcpy_loop (s t : list Z) (n : nat) {struct n} : option (list Z) :=
  match n with
  | O => put0 s
  | S n =>
      match s, t with
      | _ :: s', c :: t' =>
          if bool_decide (c = 0) then cons 0 <$> put0 s' else cons c <$> safestrcpy_loop s' t' n
      | _, _ => None
      end
  end.
Definition safestrcpy (s t : list Z) (n : Z) : option (list Z) :=
  if bool_decide (n ≤ 0) then Some s else safestrcpy_loop s t (Z.to_nat (n - 1)).

Fixpoint strlen (s : list Z) : option Z :=
  match s with
  | [] => None
  | c :: s => if bool_decide (c = 0) then Some 0 else Z.succ <$> strlen s
  end.

(** ** [user/ulib.c] *)

Fixpoint strcpy (s t : list Z) : option (list Z) :=
  match s, t with
  | _ :: s', c :: t' => if bool_decide (c = 0) then Some (0 :: s') else cons c <$> strcpy s' t'
  | _, _ => None
  end.

Fixpoint strcmp (p q : list Z) : option Z :=
  match p, q with
  | a :: p', b :: q' =>
      if bool_decide (a ≠ 0 ∧ a = b) then strcmp p' q' else Some (u8 a - u8 b)
  | _, _ => None
  end.

(** The offset of the first [c] before the terminator, if there is one. *)
Fixpoint strchr (s : list Z) (c : Z) : option (option nat) :=
  match s with
  | [] => None
  | x :: s =>
      if bool_decide (x = 0) then Some None
      else if bool_decide (x = c) then Some (Some O)
      else option_map (option_map S) (strchr s c)
  end.

(** ['0' <= *s && *s <= '9']; [None] also stands for signed overflow. *)
Fixpoint atoi_loop (n : Z) (s : list Z) : option Z :=
  match s with
  | [] => None
  | c :: s =>
      if bool_decide (48 ≤ c ≤ 57) then
        if bool_decide (n * 10 + c < 2 ^ 31) then atoi_loop (n * 10 + c - 48) s else None
      else Some n
  end.
Definition atoi (s : list Z) : option Z := atoi_loop 0 s.

(** ** Reference definitions *)

(** The string an array holds: the bytes before its first NUL. *)
Fixpoint cstr (l : list Z) : list Z :=
  match l with
  | [] => []
  | c :: l => if bool_decide (c = 0) then [] else c :: cstr l
  end.

(** [n] characters can be read from [l], or it is terminated before that. *)
Definition readable (l : list Z) (n : nat) : Prop := (n ≤ length l)%nat ∨ 0 ∈ l.

Lemma readable_cons c l n : readable (c :: l) (S n) → c ≠ 0 → readable l n.
Proof.
  intros [Hl|Hl] Hc; [left; simpl in *; lia|right].
  apply elem_of_cons in Hl as [?|?]; congruence.
Qed.

Lemma readable_nil n : ¬ readable [] (S n).
Proof. intros [?|H]; [simpl in *; lia|by apply elem_of_nil in H]. Qed.

Lemma cstr_nonzero l c : c ∈ cstr l → c ≠ 0.
Proof.
  induction l as [|x l IH]; simpl; [by intros ?%elem_of_nil|].
  case_bool_decide; [by intros ?%elem_of_nil|].
  intros [->|?]%elem_of_cons; auto.
Qed.

Lemma cstr_length l : (length (cstr l) ≤ length l)%nat.
Proof. induction l; simpl; [lia|]. case_bool_decide; simpl; lia. Qed.

Lemma cstr_app_nul l k : Forall (λ c, c ≠ 0) l → cstr (l ++ 0 :: k) = l.
Proof.
  induction 1 as [|c l Hc _ IH]; simpl; [done|]. by rewrite bool_decide_false, IH.
Qed.

(** [strncmp] is 0 exactly when the two strings agree up to [n] characters. *)
Lemma strncmp_zero n p q :
  bytes p → bytes q → readable p n → readable q n →
  ∃ r, strncmp p q n = Some r ∧ (r = 0 ↔ take n (cstr p) = take n (cstr q)).
Proof.
  revert p q. induction n as [|n IH]; intros p q Hp Hq Rp Rq; [by exists 0|].
  destruct p as [|a p]; [by apply readable_nil in Rp|].
  destruct q as [|b q]; [by apply readable_nil in Rq|].
  apply Forall_cons in Hp as [Ha Hp], Hq as [Hb Hq]. simpl.
  case_bool_decide as Hab.
  - destruct Hab as [Ha0 <-]. rewrite bool_decide_false by done. simpl.
    destruct (IH p q) as (r & -> & Hr); eauto using readable_cons.
    exists r. split; [done|]. rewrite Hr. split; congruence.
  - exists (u8 a - u8 b). split; [done|]. rewrite !u8_id by done.
    repeat case_bool_decide; simpl; split; intros; simplify_eq; try done; lia.
Qed.

Lemma zfill_spec n s : (n ≤ length s)%nat → zfill s n = Some (replicate n 0 ++ drop n s).
Proof.
  revert s. induction n as [|n IH]; intros s Hs; [done|].
  destruct s as [|x s]; simpl in *; [lia|]. rewrite IH by lia. done.
Qed.

(** [strncpy] leaves the first [n] bytes holding the copied string padded with
    NULs, and no terminator when the string has [n] characters or more. *)
Lemma strncpy_spec n s t :
  (n ≤ length s)%nat → readable t n →
  strncpy s t n = Some (take n (cstr t) ++ replicate (n - length (cstr t)) 0 ++ drop n s).
Proof.
  revert s t. induction n as [|n IH]; intros s t Hs Ht; [done|].
  destruct s as [|x s]; simpl in Hs; [lia|].
  destruct t as [|c t]; [by apply readable_nil in Ht|]. simpl.
  case_bool_decide as Hc.
  - rewrite zfill_spec by lia. done.
  - rewrite IH by (eauto using readable_cons with lia). done.
Qed.

Lemma strcmp_zero p q :
  bytes p → bytes q → 0 ∈ p → 0 ∈ q →
  ∃ r, strcmp p q = Some r ∧ (r = 0 ↔ cstr p = cstr q).
Proof.
  revert q. induction p as [|a p IH]; intros [|b q] Hp Hq Zp Zq;
    try (by apply elem_of_nil in Zp); try (by apply elem_of_nil in Zq).
  apply Forall_cons in Hp as [Ha Hp], Hq as [Hb Hq]. simpl.
  case_bool_decide as Hab.
  - destruct Hab as [Ha0 <-]. rewrite bool_decide_false by done.
    apply elem_of_cons in Zp as [?|Zp], Zq as [?|Zq]; try congruence.
    destruct (IH q) as (r & -> & Hr); auto.
    exists r. split; [done|]. rewrite Hr. split; congruence.
  - exists (u8 a - u8 b). split; [done|]. rewrite !u8_id by done.
    repeat case_bool_decide; simpl; split; intros; simplify_eq; try done; lia.
Qed.

Lemma strlen_cstr s : 0 ∈ s → strlen s = Some (Z.of_nat (length (cstr s))).
Proof.
  induction s as [|c s IH]; [by intros ?%elem_of_nil|]. simpl.
  case_bool_decide; [done|]. intros [?|Hs]%elem_of_cons; [congruence|].
  rewrite IH by done. simpl. f_equal. lia.
Qed.

Lemma safestrcpy_length s t n s' : safestrcpy s t n = Some s' → length s' = length s.
Proof.
  assert (Hput : ∀ s s', put0 s = Some s' → length s' = length s) by (intros [|x l] l' [= <-]; done).
  unfold safestrcpy. case_bool_decide; [by intros [= <-]|]. generalize (Z.to_nat (n - 1)). intros m. revert s t s'.
  induction m as [|m IH]; intros s t s'; cbn [safestrcpy_loop]; [apply Hput|]. destruct s as [|x s], t as [|c t]; try done.
  case_bool_decide; intros (l & Hl & ->)%fmap_Some; cbn; f_equal; [by apply Hput|by eapply IH].
Qed.
(** [safestrcpy] keeps the length of the array, always terminates it, and the
    string it holds is the source cut to [n - 1] characters. *)
Lemma safestrcpy_loop_spec n s t :
  (n < length s)%nat → readable t n →
  ∃ s', safestrcpy_loop s t n = Some s' ∧ length s' = length s ∧ 0 ∈ s' ∧
        cstr s' = take n (cstr t).
Proof.
  revert s t. induction n as [|n IH]; intros s t Hs Ht.
  { destruct s as [|x s]; simpl in *; [lia|]. eexists. split; [done|].
    split; [done|]. split; [apply elem_of_cons; auto|done]. }
  destruct s as [|x s]; simpl in Hs; [lia|].
  destruct t as [|c t]; [by apply readable_nil in Ht|]. simpl.
  case_bool_decide as Hc.
  - destruct s as [|y s]; simpl in *; [lia|]. eexists. split; [done|].
    split; [done|]. split; [apply elem_of_cons; auto|done].
  - destruct (IH s t) as (s' & -> & Hl & Hz & Hs'); eauto using readable_cons with lia.
    eexists. split; [done|]. simpl. rewrite bool_decide_false, Hs' by done.
    split; [by rewrite Hl|]. split; [apply elem_of_cons; auto|done].
Qed.

Lemma strchr_spec s c :
  0 ∈ s → c ≠ 0 →
  strchr s c = Some (if decide (c ∈ cstr s)
                     then fst <$> list_find (λ x, x = c) (cstr s) else None).
Proof.
  induction s as [|x s IH]; [by intros ?%elem_of_nil|]. intros Hs Hc. simpl.
  case_bool_decide as Hx; [done|].
  apply elem_of_cons in Hs as [?|Hs]; [congruence|].
  case_bool_decide as Hxc.
  - rewrite decide_True by (apply elem_of_cons; auto). simpl.
    by rewrite decide_True by done.
  - rewrite IH by done. simpl. rewrite (decide_False (P := x = c)) by done.
    case_decide as H1; case_decide as H2; [|set_solver..|done].
    simpl. f_equal. destruct (list_find _ (cstr s)) as [[]|]; done.
Qed.

Lemma cstr_strncpy n t k :
  take n (cstr (take n (cstr t) ++ replicate (n - length (cstr t)) 0 ++ k)) = take n (cstr t).
Proof.
  assert (Hnz : Forall (λ c, c ≠ 0) (take n (cstr t))).
  { apply Forall_take, Forall_forall. intros c. apply cstr_nonzero. }
  destruct (decide (length (cstr t) < n)%nat) as [Hlt|Hge].
  - replace (n - length (cstr t))%nat with (S (n - length (cstr t) - 1)) by lia.
    cbn [replicate app]. rewrite cstr_app_nul by done. by rewrite take_take, Nat.min_id.
  - assert (Hlen : length (take n (cstr t)) = n) by (rewrite length_take; lia).
    revert Hnz Hlen. generalize (take n (cstr t)) as u. intros u Hnz <-.
    replace (length u - length (cstr t))%nat with 0%nat by lia. cbn [replicate app]. clear Hge.
    induction Hnz as [|c u Hc _ IH]; [done|]. simpl. rewrite bool_decide_false by done.
    simpl. by rewrite IH.
Qed.

(** a name stored in a fixed-width field with [strncpy] compares equal to
    the original with [strncmp] over that width, and compares equal to exactly
    the names with the same first [n] characters. *)
Theorem strncpy_strncmp n s t u :
  (n ≤ length s)%nat → bytes s → bytes t → bytes u → readable t n → readable u n →
  ∃ s' r, strncpy s t n = Some s' ∧ length s' = length s ∧ strncmp s' u n = Some r ∧
          (r = 0 ↔ take n (cstr t) = take n (cstr u)).
Proof.
  intros Hn Hs Ht Hu Rt Ru. rewrite strncpy_spec by done.
  assert (Hb : bytes (take n (cstr t) ++ replicate (n - length (cstr t)) 0 ++ drop n s)).
  { rewrite !bytes_app. split_and!; [|apply bytes_replicate; wrap_lia|by apply bytes_drop].
    apply bytes_take. clear -Ht. induction Ht; simpl; [constructor|].
    case_bool_decide; by constructor. }
  assert (Hl : length (take n (cstr t) ++ replicate (n - length (cstr t)) 0 ++ drop n s) = length s).
  { rewrite !length_app, length_take, length_replicate, length_drop. lia. }
  destruct (strncmp_zero n _ u Hb Hu) as (r & Hr & Hr0); [left; lia|done|].
  eexists _, r. split_and!; [done|done|done|]. by rewrite Hr0, cstr_strncpy.
Qed.

(** A file name in a field of fourteen bytes. *)
Lemma strncpy_strncmp_witness :
  ∃ s' r, strncpy (replicate 14 9) [98; 105; 110; 0] 14 = Some s' ∧
    length s' = length (replicate 14 9) ∧ strncmp s' [98; 105; 110; 0; 7] 14 = Some r ∧
    (r = 0 ↔ take 14 (cstr [98; 105; 110; 0]) = take 14 (cstr [98; 105; 110; 0; 7])).
Proof.
  apply (strncpy_strncmp 14 (replicate 14 9) [98; 105; 110; 0] [98; 105; 110; 0; 7]);
    try (repeat constructor; wrap_lia); right; by apply (bool_decide_unpack _).
Defined.

(** [safestrcpy] always leaves a terminated string in an array of the same
    length, and the string is the source cut to [n - 1] characters. *)
Theorem safestrcpy_terminates n s t :
  0 < n ≤ Z.of_nat (length s) → readable t (Z.to_nat (n - 1)) →
  ∃ s', safestrcpy s t n = Some s' ∧ length s' = length s ∧ 0 ∈ s' ∧
        cstr s' = take (Z.to_nat (n - 1)) (cstr t).
Proof.
  intros Hn Ht. unfold safestrcpy. rewrite bool_decide_false by lia.
  apply safestrcpy_loop_spec; [lia|done].
Qed.

(** A name that does not fit. *)
Lemma safestrcpy_terminates_witness :
  ∃ s', safestrcpy (replicate 4 9) [98; 105; 110; 115; 0] 4 = Some s' ∧
    length s' = length (replicate 4 9) ∧ 0 ∈ s' ∧
    cstr s' = take (Z.to_nat (4 - 1)) (cstr [98; 105; 110; 115; 0]).
Proof.
  apply safestrcpy_terminates; [simpl; lia|]. left. simpl. lia.
Defined.

End Str.
