(* ===== verification/Riscv.v ===== *)
(** Page arithmetic and memory layout: the macros of [kernel/riscv.h] and
    [kernel/memlayout.h], with the arithmetic reading of their bit operations. *)

From S2P Require Import Prelude.

Local Open Scope Z_scope.

Definition PGSIZE : Z := 4096.
Definition PGSHIFT : Z := 12.
Definition PGROUNDUP (sz : Z) : Z := Z.land (u64 (sz + PGSIZE - 1)) (u64 (Z.lnot (PGSIZE - 1))).
Definition PGROUNDDOWN (a : Z) : Z := Z.land a (u64 (Z.lnot (PGSIZE - 1))).

Definition PTE_V : Z := Z.shiftl 1 0.
Definition PTE_R : Z := Z.shiftl 1 1.
Definition PTE_W : Z := Z.shiftl 1 2.
Definition PTE_X : Z := Z.shiftl 1 3.
Definition PTE_U : Z := Z.shiftl 1 4.
Definition PA2PTE (pa : Z) : Z := u64 (Z.shiftl (Z.shiftr pa 12) 10).
Definition PTE2PA (pte : Z) : Z := u64 (Z.shiftl (Z.shiftr pte 10) 12).
Definition PTE_FLAGS (pte : Z) : Z := Z.land pte 0x3FF.
Definition PXMASK : Z := 0x1FF.
Definition PXSHIFT (level : Z) : Z := PGSHIFT + 9 * level.
Definition PX (level va : Z) : Z := Z.land (Z.shiftr va (PXSHIFT level)) PXMASK.
Definition MAXVA : Z := Z.shiftl 1 (9 + 9 + 9 + 12 - 1).

Definition KERNBASE : Z := 0x80000000.
Definition PHYSTOP : Z := KERNBASE + 128 * 1024 * 1024.
Definition TRAMPOLINE : Z := MAXVA - PGSIZE.
Definition TRAPFRAME : Z := TRAMPOLINE - PGSIZE.
Definition KSTACK (p : Z) : Z := TRAMPOLINE - (p + 1) * 2 * PGSIZE.

(** ** Arithmetic reading *)

(** Clearing the low [k] bits rounds down to a multiple of [2^k]. *)
Lemma land_high_mask a k w :
  0 ≤ k ≤ w → 0 ≤ a < 2 ^ w →
  Z.land a (Z.lnot (Z.ones k) mod 2 ^ w) = 2 ^ k * (a / 2 ^ k).
Proof.
  intros Hk Ha. rewrite <-(Z.land_ones _ w) by lia.
  transitivity (Z.ldiff a (Z.ones k)).
  - rewrite Z.land_comm, <-Z.land_assoc, (Z.land_comm _ a).
    rewrite Z.land_ones, Z.mod_small by lia. by rewrite Z.land_comm, Z.ldiff_land.
  - rewrite Z.ldiff_ones_r, Z.shiftr_div_pow2, Z.shiftl_mul_pow2 by lia. lia.
Qed.

Lemma PGROUNDDOWN_div a : 0 ≤ a < 2 ^ 64 → PGROUNDDOWN a = 4096 * (a / 4096).
Proof. intros Ha. apply (land_high_mask a 12 64); lia. Qed.

Lemma PGROUNDUP_div sz :
  0 ≤ sz → sz + 4095 < 2 ^ 64 → PGROUNDUP sz = 4096 * ((sz + 4095) / 4096).
Proof.
  intros ??. unfold PGROUNDUP, PGSIZE.
  replace (sz + 4096 - 1) with (sz + 4095) by lia.
  unfold u64 at 1. rewrite Z.mod_small by lia. apply (land_high_mask _ 12 64); lia.
Qed.

Lemma PGROUNDUP_aligned sz :
  0 ≤ sz → sz + 4095 < 2 ^ 64 → PGROUNDUP sz mod 4096 = 0 ∧ sz ≤ PGROUNDUP sz < sz + 4096.
Proof. intros ??. rewrite PGROUNDUP_div by done. zlia. Qed.

Lemma PX_range level va : 0 ≤ PX level va < 512.
Proof.
  unfold PX, PXMASK. change 0x1FF with (Z.ones 9). rewrite Z.land_ones by lia. zlia.
Qed.
