(* ===== verification/Kalloc.v ===== *)
(** The physical page allocator: [kernel/kalloc.c].

    Physical memory is a map from page addresses to 4096-byte contents; the
    free list is threaded through the first eight bytes of the free pages, as
    [struct run] is. *)

From S2P Require Import Prelude Riscv.

Local Open Scope Z_scope.

Module Kalloc.

(** [kmem.freelist] and the memory behind it. *)
Record kmem := MkKmem { freelist : Z; pmem : gmap Z (list Z) }.

Section kalloc.
  (** [end], the first address after the kernel (set by kernel.ld). *)
  Context (kend : Z).

Definition kfree (pa : Z) : M kmem unit :=
  if bool_decide (pa mod PGSIZE ≠ 0 ∨ pa < kend ∨ PHYSTOP ≤ pa) then panic "kfree" else
  k ← get;
  match pmem k !! pa with
  | None => undef
  | Some _ =>
      let page := replicate 4096 1 in
      let page := wr 8 0 (freelist k) page in
      put (MkKmem pa (<[pa := page]> (pmem k)))
  end.

Definition kalloc : M kmem Z :=
  k ← get;
  let r := freelist k in
  if bool_decide (r ≠ 0) then
    match pmem k !! r with
    | None => undef
    | Some page =>
        put (MkKmem (rd 8 0 page) (<[r := replicate 4096 5]> (pmem k)));; mret r
    end
  else mret r.

(** [for(; p + PGSIZE <= pa_end; p += PGSIZE) kfree(p)] *)
Fixpoint freerange_loop (fuel : nat) (p pa_end : Z) : M kmem unit :=
  if bool_decide (p + PGSIZE ≤ pa_end) then
    match fuel with
    | O => nofuel
    | S fuel => kfree p;; freerange_loop fuel (p + PGSIZE) pa_end
    end
  else mret tt.
Definition freerange (pa_start pa_end : Z) : M kmem unit :=
  let p := PGROUNDUP pa_start in
  freerange_loop (Z.to_nat ((pa_end - p) / PGSIZE)) p pa_end.
Definition kinit : M kmem unit := freerange kend PHYSTOP.

(** ** Representation of the free list *)

(** [chain pm r l]: following [next] pointers from [r] visits the pages [l]
    and ends at the null pointer. *)
Fixpoint chain (pm : gmap Z (list Z)) (r : Z) (l : list Z) : Prop :=
  match l with
  | [] => r = 0
  | p :: l => r = p ∧ p ≠ 0 ∧ ∃ page, pm !! p = Some page ∧ length page = 4096%nat ∧
                chain pm (rd 8 0 page) l
  end.

(** An address [kfree] accepts. *)
Definition page_ok (p : Z) : Prop := p mod PGSIZE = 0 ∧ kend ≤ p < PHYSTOP.

Definition kinv (k : kmem) (l : list Z) : Prop :=
  chain (pmem k) (freelist k) l ∧ NoDup l ∧ Forall page_ok l.

Lemma chain_insert pm r l p page :
  p ∉ l → chain pm r l → chain (<[p := page]> pm) r l.
Proof.
  revert r. induction l as [|q l IH]; intros r Hp; simpl; [done|].
  apply not_elem_of_cons in Hp as [Hpq Hp]. intros (-> & Hq & pg & Hpg & Hlen & Hc).
  split_and!; [done..|]. exists pg. rewrite lookup_insert_ne by done. eauto.
Qed.

Lemma rd8_wr8 z page : length page = 4096%nat → 0 ≤ z < 2 ^ 64 → rd 8 0 (wr 8 0 z page) = z.
Proof. intros ??. rewrite rd_wr_eq by lia. by apply Z.mod_small. Qed.

Hypothesis kend_pos : 0 < kend.

Lemma kfree_spec k l p :
  kinv k l → page_ok p → p ∉ l → is_Some (pmem k !! p) →
  wp (kfree p) (λ _ k', kinv k' (p :: l) ∧
    ∀ q, q ≠ p → pmem k' !! q = pmem k !! q) k.
Proof.
  intros (Hc & Hnd & Hok) Hp Hpl [pg Hpg]. unfold kfree.
  assert (Hr : 0 ≤ freelist k < 2 ^ 64).
  { destruct l as [|q l]; simpl in Hc; [lia|]. destruct Hc as (-> & _).
    apply Forall_cons in Hok as [[_ ?] _]. unfold PHYSTOP, KERNBASE in *. lia. }
  rewrite bool_decide_false by (destruct Hp; lia). apply wp_bind, wp_get.
  rewrite Hpg. apply wp_put. split; [split_and!|].
  - cbn [chain freelist pmem]. split_and!; [done|destruct Hp; lia|].
    eexists. rewrite lookup_insert_eq.
    split; [done|]. split; [rewrite length_wr; rewrite length_replicate; lia|].
    rewrite rd8_wr8 by (apply length_replicate || lia). by apply chain_insert.
  - by constructor.
  - by constructor.
  - intros q Hq. simpl. by rewrite lookup_insert_ne.
Qed.

Lemma kalloc_spec k l :
  kinv k l →
  wp kalloc (λ r k', match l with
    | [] => r = 0 ∧ k' = k
    | p :: l' => r = p ∧ kinv k' l' ∧ pmem k' = <[p := replicate 4096 5]> (pmem k)
    end) k.
Proof.
  intros (Hc & Hnd & Hok). unfold kalloc. apply wp_bind, wp_get.
  destruct l as [|p l]; simpl in Hc.
  - rewrite Hc. rewrite bool_decide_false by lia. by apply wp_ret.
  - destruct Hc as (-> & Hp & pg & Hpg & Hlen & Hc).
    rewrite bool_decide_true by done. rewrite Hpg. wp_pures.
    apply NoDup_cons in Hnd as [Hpl Hnd]. apply Forall_cons in Hok as [_ Hok].
    split; [done|]. split; [|done].
    split_and!; [by apply chain_insert|done..].
Qed.

(** ** Allocator traces

    A client owns a set of pages.  It may ask for a page, and may give back a
    page it owns. *)

Inductive kstep : kmem * gset Z → kmem * gset Z → Prop :=
  | step_alloc k A r k' :
      kalloc k = Ok r k' → r ≠ 0 → kstep (k, A) (k', {[r]} ∪ A)
  | step_alloc_fail k A k' :
      kalloc k = Ok 0 k' → kstep (k, A) (k', A)
  | step_free k A p k' :
      p ∈ A → kfree p k = Ok tt k' → kstep (k, A) (k', A ∖ {[p]}).

(** Every page of [P] is either free or owned by the client, never both. *)
Definition partition_inv (P : gset Z) (c : kmem * gset Z) : Prop :=
  ∃ l, kinv c.1 l ∧ list_to_set l ∪ c.2 = P ∧ list_to_set l ## c.2 ∧
       (∀ p, p ∈ P → page_ok p ∧ is_Some (pmem c.1 !! p)).

Lemma part_alloc p (l : list Z) (A P : gset Z) :
  p ∉ l → list_to_set (p :: l) ∪ A = P → list_to_set (p :: l) ## A →
  p ∉ A ∧ p ∈ P ∧ list_to_set l ∪ ({[p]} ∪ A) = P ∧ list_to_set l ## {[p]} ∪ A.
Proof. set_solver. Qed.

Lemma part_free p (l : list Z) (A P : gset Z) :
  p ∈ A → list_to_set l ∪ A = P → list_to_set l ## A →
  p ∉ l ∧ p ∈ P ∧ list_to_set (p :: l) ∪ A ∖ {[p]} = P ∧ list_to_set (p :: l) ## A ∖ {[p]}.
Proof.
  intros Hp Hun Hdis. split_and!; [set_solver..| |set_solver].
  rewrite <-Hun. apply set_eq. intros x. destruct (decide (x = p)); set_solver.
Qed.

Lemma kstep_inv P c c' : partition_inv P c → kstep c c' → partition_inv P c'.
Proof.
  intros (l & Hinv & Hun & Hdis & Hpg) Hstep.
  destruct Hstep as [k A r k' Ha Hr|k A k' Ha|k A p k' Hp Hf]; simpl in *.
  - pose proof (kalloc_spec k l Hinv) as H. unfold wp in H. rewrite Ha in H.
    destruct l as [|p l]; [by destruct H|]. destruct H as (-> & Hinv' & Hpm).
    destruct Hinv as (_ & [Hpl _]%NoDup_cons & _).
    destruct (part_alloc p l A P) as (_ & _ & ? & ?); [done..|].
    exists l. split_and!; [apply Hinv'..|done|done|].
    intros q Hq; cbn [fst snd]. destruct (Hpg q) as [? Hs]; [done|]. split; [done|]. rewrite Hpm.
    destruct (decide (q = p)) as [->|]; [by rewrite lookup_insert_eq|by rewrite lookup_insert_ne].
  - pose proof (kalloc_spec k l Hinv) as H. unfold wp in H. rewrite Ha in H.
    destruct l as [|p l].
    + destruct H as [_ ->]. by exists [].
    + destruct H as (H & _). destruct Hinv as ((_ & ? & _) & _). congruence.
  - destruct (part_free p l A P) as (Hpl & HpP & ? & ?); [done..|].
    destruct (Hpg p) as [Hok Hs]; [done|].
    pose proof (kfree_spec k l p Hinv Hok Hpl Hs) as Hw. unfold wp in Hw.
    rewrite Hf in Hw. destruct Hw as [Hinv' Hoth]. exists (p :: l).
    split_and!; [apply Hinv'..|done|done|].
    intros q Hq; cbn [fst snd]. destruct (Hpg q) as [? Hs']; [done|]. split; [done|].
    destruct (decide (q = p)) as [->|]; [|by rewrite Hoth].
    destruct Hinv' as ((_ & _ & pg & -> & _) & _). done.
Qed.

Lemma ksteps_inv P c c' : partition_inv P c → rtc kstep c c' → partition_inv P c'.
Proof. intros H0 Hs. revert H0. induction Hs; eauto using kstep_inv. Qed.

(** C21: the allocator never hands out a page a client still owns and never
    loses one.  After any sequence of [kalloc] calls and [kfree] calls on owned
    pages, [kalloc] returns: either null, when the clients own every page, or a
    page nobody owns; and [kfree] of an owned page returns.  In each case the
    free list and the owned pages partition the initial pages again. *)
Theorem kalloc_exclusive P c0 k A :
  partition_inv P c0 → rtc kstep c0 (k, A) →
  (∃ r k', kalloc k = Ok r k' ∧
     ((r = 0 ∧ k' = k ∧ A = P) ∨
      (r ∈ P ∧ r ∉ A ∧ partition_inv P (k', {[r]} ∪ A)))) ∧
  (∀ p, p ∈ A → ∃ k', kfree p k = Ok tt k' ∧ partition_inv P (k', A ∖ {[p]})).
Proof.
  intros H0 Hsteps. pose proof (ksteps_inv _ _ _ H0 Hsteps) as Hinv.
  pose proof Hinv as (l & Hk & Hun & Hdis & Hpg). cbn [fst snd] in *. split.
  - destruct (proj1 (wp_ok _ _ _) (kalloc_spec k l Hk)) as (r & k' & Hrun & Hr).
    exists r, k'. split; [done|]. destruct l as [|p l].
    + left. destruct Hr as [-> ->]. set_solver.
    + right. destruct Hr as (-> & _). pose proof Hk as ((_ & Hp0 & _) & [Hpl _]%NoDup_cons & _).
      destruct (part_alloc p l A P) as (? & ? & _); [done..|].
      split; [done|]. split; [done|]. by eapply kstep_inv; [|apply step_alloc].
  - intros p Hp. destruct (part_free p l A P) as (Hpl & HpP & _); [done..|].
    destruct (Hpg p HpP) as [Hok Hs].
    destruct (proj1 (wp_ok _ _ _) (kfree_spec k l p Hk Hok Hpl Hs)) as ([] & k' & Hrun & _).
    exists k'. split; [done|]. by eapply kstep_inv; [|apply step_free].
Qed.

(** ** Initialisation *)

Lemma freerange_loop_spec fuel p pa_end k l :
  kinv k l → p mod PGSIZE = 0 → kend ≤ p → pa_end ≤ PHYSTOP →
  (∀ q, q ∈ l → q < p) →
  (∀ q, page_ok q → is_Some (pmem k !! q)) →
  (Z.to_nat ((pa_end - p) / PGSIZE) ≤ fuel)%nat →
  wp (freerange_loop fuel p pa_end) (λ _ k', ∃ l', kinv k' l' ∧
    (∀ q, q ∈ l' ↔ q ∈ l ∨ (q mod PGSIZE = 0 ∧ p ≤ q ∧ q + PGSIZE ≤ pa_end)) ∧
    (∀ q, page_ok q → is_Some (pmem k' !! q))) k.
Proof.
  unfold PGSIZE in *.
  revert p k l. induction fuel as [|fuel IH]; intros p k l Hk Hp Hkp Hend Hlt Hpm Hfuel;
    cbn [freerange_loop]; unfold PGSIZE; (case_bool_decide as Hc;
    [|apply wp_ret; exists l; split_and!; [done| |done]; intros q; split; [auto|intros [?|?]; [done|lia]]]).
  { zlia. }
  assert (Hpok : page_ok p) by (unfold page_ok, PGSIZE; lia).
  apply wp_bind. eapply wp_mono.
  { apply (kfree_spec k l p); auto. intros H. specialize (Hlt _ H). lia. }
  intros [] k1 [Hk1 Hoth]. eapply wp_mono.
  { apply (IH (p + 4096) k1 (p :: l)); try zlia; [done| |].
    - intros q [->|Hq]%elem_of_cons; [lia|]. specialize (Hlt _ Hq). lia.
    - intros q Hq. destruct (decide (q = p)) as [->|Hne].
      + destruct Hk1 as ((_ & _ & pg & -> & _) & _). done.
      + rewrite Hoth by done. auto. }
  intros [] k2 (l' & Hk2 & Hin & Hpm2). exists l'. split_and!; [done| |done].
  intros q. rewrite Hin, elem_of_cons. split.
  - intros [[->|?]|?]; [right; lia|auto|right; lia].
  - intros [?|(H1 & H2 & H3)]; [auto|]. destruct (decide (q = p)); [auto|]. right. zlia.
Qed.

(** [kinit] on an empty allocator puts every whole page between the end of
    the kernel and [PHYSTOP] on the free list, exactly once, and the scan of
    [freerange] terminates. *)
Theorem kinit_frees_all_pages k :
  freelist k = 0 → kend < PHYSTOP → (∀ p, page_ok p → is_Some (pmem k !! p)) →
  ∃ k' l, kinit k = Ok tt k' ∧ kinv k' l ∧ (∀ p, p ∈ l ↔ page_ok p).
Proof.
  intros Hfl Hk Hpm.
  destruct (PGROUNDUP_aligned kend) as [Hal Hup]; [lia|unfold PHYSTOP, KERNBASE in *; lia|].
  assert (Hw : wp kinit (λ _ k', ∃ l', kinv k' l' ∧
    (∀ q, q ∈ l' ↔ q ∈ [] ∨ (q mod PGSIZE = 0 ∧ PGROUNDUP kend ≤ q ∧ q + PGSIZE ≤ PHYSTOP)) ∧
    (∀ q, page_ok q → is_Some (pmem k' !! q))) k).
  { apply freerange_loop_spec; try done; try lia.
    - split_and!; [done|constructor|constructor].
    - intros q ?%elem_of_nil. done. }
  apply wp_ok in Hw as ([] & k' & Hrun & l & Hinv & Hin & _).
  exists k', l. split_and!; [done|apply Hinv..|]. intros p. rewrite Hin. unfold page_ok.
  replace PHYSTOP with (4096 * 557056) by done. unfold PGSIZE in *. split.
  - intros [?%elem_of_nil|?]; [done|lia].
  - intros [? ?]. right. zlia.
Qed.

End kalloc.

(** One free page just below [PHYSTOP]. *)
Lemma kalloc_exclusive_witness :
  let p := PHYSTOP - PGSIZE in
  let k := MkKmem p {[ p := replicate 4096 0 ]} in
  ∃ r k', kalloc k = Ok r k' ∧
    ((r = 0 ∧ k' = k ∧ ∅ = ({[ p ]} : gset Z)) ∨
     (r ∈ ({[ p ]} : gset Z) ∧ r ∉ (∅ : gset Z) ∧ partition_inv p {[ p ]} (k', {[ r ]} ∪ ∅))).
Proof.
  intros p k. apply (kalloc_exclusive p ltac:(done) {[ p ]} (k, ∅) k ∅); [|apply rtc_refl].
  exists [p]. split; [|split; [|split]].
  - split; [|split; [apply NoDup_singleton|by repeat constructor]].
    split; [reflexivity|]. split; [done|]. eexists. split; [apply lookup_singleton_eq|].
    split; reflexivity.
  - cbn [list_to_set list_to_set_disj foldr snd]. set_solver.
  - set_solver.
  - intros q Hq%elem_of_singleton. subst q. split; [done|]. simpl. by rewrite lookup_singleton_eq.
Defined.

(** Two free pages. *)
Lemma kinit_frees_all_pages_witness :
  let p := PHYSTOP - 2 * PGSIZE in
  let k := MkKmem 0 {[ p := replicate 4096 0; p + PGSIZE := replicate 4096 0 ]} in
  ∃ k' l, kinit p k = Ok tt k' ∧ kinv p k' l ∧ (∀ q, q ∈ l ↔ page_ok p q).
Proof.
  intros p k. apply kinit_frees_all_pages; [done|reflexivity|done|].
  intros q [Hm Hq]. assert (q = p ∨ q = p + PGSIZE) as [->| ->].
  { unfold p, PGSIZE, PHYSTOP, KERNBASE in *. zlia. }
  - unfold k. cbn [pmem]. by rewrite lookup_insert_eq.
  - unfold k. cbn [pmem]. rewrite lookup_insert_ne by done. by rewrite lookup_singleton_eq.
Defined.

End Kalloc.
