(* ===== verification/Vm.v ===== *)
(** Page tables and user memory: [kernel/vm.c].

    Page-table pages and user pages live in the physical memory of the page
    allocator; a [pte_t *] is the address of the eight bytes of an entry, 0 the
    null pointer.  A kernel buffer that user memory is copied from or to is a
    list of bytes. *)

From S2P Require Import Prelude Riscv Kalloc.
Import Kalloc.

Local Open Scope Z_scope.

Module Vm.

Definition UART0 : Z := 0x10000000.
Definition VIRTIO0 : Z := 0x10001000.
Definition PLIC : Z := 0x0c000000.
Definition NPROC : Z := 64.

(** ** Memory accesses *)

(** The page an address lies in, and its offset there. *)
Definition page_of (a : Z) : Z := 4096 * (a / 4096).
Definition off_of (a : Z) : nat := Z.to_nat (a mod 4096).

Definition load_page (pa : Z) : M kmem (list Z) := k ← get; of_option (pmem k !! pa).
Definition store_page (pa : Z) (x : list Z) : M kmem unit :=
  k ← get;
  match pmem k !! pa with
  | Some _ => put (MkKmem (freelist k) (<[pa := x]> (pmem k)))
  | None => undef
  end.
(** [*p] and [*p = v] for a [uint64 *p]. *)
Definition ld64 (a : Z) : M kmem Z := x ← load_page (page_of a); mret (rd 8 (off_of a) x).
Definition st64 (a v : Z) : M kmem unit :=
  x ← load_page (page_of a); store_page (page_of a) (wr 8 (off_of a) v x).
(** [memset(pa, 0, PGSIZE)] of a page. *)
Definition zero_page (pa : Z) : M kmem unit := store_page pa (replicate (Z.to_nat PGSIZE) 0).
(** [memmove] out of and into a range inside one page. *)
Definition ld_bytes (a : Z) (n : nat) : M kmem (list Z) :=
  x ← load_page (page_of a); mret (slice (off_of a) n x).
Definition st_bytes (a : Z) (bs : list Z) : M kmem unit :=
  x ← load_page (page_of a); store_page (page_of a) (splice (off_of a) bs x).

Section vm.
(** [end], [etext] and [trampoline] are set by the linker. *)
Context (kend etext trampoline : Z).

(** [pte & flag] as a condition. *)
Definition has (pte flag : Z) : bool := negb (bool_decide (Z.land pte flag = 0)).

(** ** Walking *)

(** The loop of [walk] for the remaining levels. *)
Fixpoint walk_loop (levels : list Z) (pagetable va : Z) (alloc : bool) : M kmem Z :=
  match levels with
  | [] => mret (pagetable + 8 * PX 0 va)
  | level :: levels =>
      let pte := pagetable + 8 * PX level va in
      v ← ld64 pte;
      if has v PTE_V then walk_loop levels (PTE2PA v) va alloc
      else if negb alloc then mret 0
      else
        p ← kalloc;
        if bool_decide (p = 0) then mret 0 else
        zero_page p;;
        st64 pte (Z.lor (PA2PTE p) PTE_V);;
        walk_loop levels p va alloc
  end.
Definition walk (pagetable va : Z) (alloc : bool) : M kmem Z :=
  if bool_decide (va >= MAXVA) then panic "walk" else walk_loop [2; 1] pagetable va alloc.

Definition walkaddr (pagetable va : Z) : M kmem Z :=
  if bool_decide (va >= MAXVA) then mret 0 else
  pte ← walk pagetable va false;
  if bool_decide (pte = 0) then mret 0 else
  v ← ld64 pte;
  if negb (has v PTE_V) then mret 0 else
  if negb (has v PTE_U) then mret 0 else
  mret (PTE2PA v).

(** ** Mapping *)

(** The loop of [mappages]; [fuel] counts the pages left. *)
Fixpoint mappages_loop (fuel : nat) (pagetable a last pa perm : Z) : M kmem Z :=
  match fuel with
  | O => nofuel
  | S fuel =>
      pte ← walk pagetable a true;
      if bool_decide (pte = 0) then mret (-1) else
      v ← ld64 pte;
      if has v PTE_V then panic "mappages: remap" else
      st64 pte (Z.lor (Z.lor (PA2PTE pa) perm) PTE_V);;
      if bool_decide (a = last) then mret 0
      else mappages_loop fuel pagetable (u64 (a + PGSIZE)) last (u64 (pa + PGSIZE)) perm
  end.
Definition mappages (pagetable va size pa perm : Z) : M kmem Z :=
  if bool_decide (va mod PGSIZE ≠ 0) then panic "mappages: va not aligned" else
  if bool_decide (size mod PGSIZE ≠ 0) then panic "mappages: size not aligned" else
  if bool_decide (size = 0) then panic "mappages: size" else
  mappages_loop (Z.to_nat (size / PGSIZE)) pagetable va (u64 (va + size - PGSIZE)) pa perm.

Definition kvmmap (kpgtbl va pa sz perm : Z) : M kmem unit :=
  r ← mappages kpgtbl va sz pa perm;
  when (bool_decide (r ≠ 0)) (panic "kvmmap").

(** [uvmunmap]'s loop over the page addresses [a, a + PGSIZE, ...] below [stop]. *)
Fixpoint uvmunmap_loop (fuel : nat) (pagetable a stop : Z) (do_free : bool) : M kmem unit :=
  if bool_decide (a < stop) then
    match fuel with
    | O => nofuel
    | S fuel =>
        pte ← walk pagetable a false;
        if bool_decide (pte = 0) then panic "uvmunmap: walk" else
        v ← ld64 pte;
        if negb (has v PTE_V) then panic "uvmunmap: not mapped" else
        if bool_decide (PTE_FLAGS v = PTE_V) then panic "uvmunmap: not a leaf" else
        when do_free (kfree kend (PTE2PA v));;
        st64 pte 0;;
        uvmunmap_loop fuel pagetable (u64 (a + PGSIZE)) stop do_free
    end
  else mret tt.
Definition uvmunmap (pagetable va npages : Z) (do_free : bool) : M kmem unit :=
  if bool_decide (va mod PGSIZE ≠ 0) then panic "uvmunmap: not aligned" else
  uvmunmap_loop (Z.to_nat npages) pagetable va (u64 (va + npages * PGSIZE)) do_free.

(** ** User address spaces *)

Definition uvmcreate : M kmem Z :=
  pagetable ← kalloc;
  if bool_decide (pagetable = 0) then mret 0 else
  zero_page pagetable;; mret pagetable.

Definition uvmfirst (pagetable : Z) (src : list Z) : M kmem unit :=
  if bool_decide (Z.of_nat (length src) >= PGSIZE) then panic "uvmfirst: more than a page" else
  mem ← kalloc;
  zero_page mem;;
  mappages pagetable 0 PGSIZE mem (Z.lor (Z.lor PTE_W PTE_R) (Z.lor PTE_X PTE_U));;
  st_bytes mem src.

Definition uvmdealloc (pagetable oldsz newsz : Z) : M kmem Z :=
  if bool_decide (newsz >= oldsz) then mret oldsz else
  when (bool_decide (PGROUNDUP newsz < PGROUNDUP oldsz))
    (let npages := s32 ((PGROUNDUP oldsz - PGROUNDUP newsz) / PGSIZE) in
     uvmunmap pagetable (PGROUNDUP newsz) (u64 npages) true);;
  mret newsz.

(** [uvmalloc]'s loop; [base] is the rounded old size. *)
Fixpoint uvmalloc_loop (fuel : nat) (pagetable base a newsz xperm : Z) : M kmem Z :=
  if bool_decide (a < newsz) then
    match fuel with
    | O => nofuel
    | S fuel =>
        mem ← kalloc;
        if bool_decide (mem = 0) then uvmdealloc pagetable a base;; mret 0 else
        zero_page mem;;
        r ← mappages pagetable a PGSIZE mem (Z.lor (Z.lor PTE_R PTE_U) xperm);
        if bool_decide (r ≠ 0) then
          kfree kend mem;; uvmdealloc pagetable a base;; mret 0
        else uvmalloc_loop fuel pagetable base (u64 (a + PGSIZE)) newsz xperm
    end
  else mret newsz.
Definition uvmalloc (pagetable oldsz newsz xperm : Z) : M kmem Z :=
  if bool_decide (newsz < oldsz) then mret oldsz else
  let base := PGROUNDUP oldsz in
  uvmalloc_loop (Z.to_nat ((newsz - base + PGSIZE - 1) / PGSIZE)) pagetable base base newsz xperm.

(** One page-table page of [freewalk], given how to free its children. *)
Fixpoint freewalk_loop (child : Z → M kmem unit) (pagetable : Z) (ixs : list Z) : M kmem unit :=
  match ixs with
  | [] => mret tt
  | i :: ixs =>
      pte ← ld64 (pagetable + 8 * i);
      (if (has pte PTE_V && bool_decide (Z.land pte (Z.lor PTE_R (Z.lor PTE_W PTE_X)) = 0))%bool
       then child (PTE2PA pte);; st64 (pagetable + 8 * i) 0
       else when (has pte PTE_V) (panic "freewalk: leaf"));;
      freewalk_loop child pagetable ixs
  end.
Fixpoint freewalk (depth : nat) (pagetable : Z) : M kmem unit :=
  match depth with
  | O => nofuel
  | S depth => freewalk_loop (freewalk depth) pagetable (seqZ 0 512);; kfree kend pagetable
  end.

Definition uvmfree (pagetable sz : Z) : M kmem unit :=
  when (bool_decide (sz > 0)) (uvmunmap pagetable 0 (PGROUNDUP sz / PGSIZE) true);;
  freewalk 3 pagetable.

(** [uvmcopy]'s loop from address [i]. *)
Fixpoint uvmcopy_loop (fuel : nat) (old new i sz : Z) : M kmem Z :=
  if bool_decide (i < sz) then
    match fuel with
    | O => nofuel
    | S fuel =>
        let err := uvmunmap new 0 (i / PGSIZE) true;; mret (-1) in
        pte ← walk old i false;
        if bool_decide (pte = 0) then panic "uvmcopy: pte should exist" else
        v ← ld64 pte;
        if negb (has v PTE_V) then panic "uvmcopy: page not present" else
        mem ← kalloc;
        if bool_decide (mem = 0) then err else
        x ← load_page (PTE2PA v); store_page mem x;;
        r ← mappages new i PGSIZE mem (PTE_FLAGS v);
        if bool_decide (r ≠ 0) then kfree kend mem;; err
        else uvmcopy_loop fuel old new (u64 (i + PGSIZE)) sz
    end
  else mret 0.
Definition uvmcopy (old new sz : Z) : M kmem Z :=
  uvmcopy_loop (Z.to_nat ((sz + PGSIZE - 1) / PGSIZE)) old new 0 sz.

Definition uvmclear (pagetable va : Z) : M kmem unit :=
  pte ← walk pagetable va false;
  if bool_decide (pte = 0) then panic "uvmclear" else
  v ← ld64 pte; st64 pte (Z.land v (u64 (Z.lnot PTE_U))).

(** ** Copying between kernel and user *)

Fixpoint copyout_loop (fuel : nat) (pagetable dstva : Z) (src : list Z) : M kmem Z :=
  if bool_decide (src = []) then mret 0 else
  match fuel with
  | O => nofuel
  | S fuel =>
      let va0 := PGROUNDDOWN dstva in
      if bool_decide (va0 >= MAXVA) then mret (-1) else
      pte ← walk pagetable va0 false;
      if bool_decide (pte = 0) then mret (-1) else
      v ← ld64 pte;
      if (negb (has v PTE_V) || negb (has v PTE_U) || negb (has v PTE_W))%bool then mret (-1) else
      let pa0 := PTE2PA v in
      let n := Z.min (PGSIZE - (dstva - va0)) (Z.of_nat (length src)) in
      st_bytes (pa0 + (dstva - va0)) (take (Z.to_nat n) src);;
      copyout_loop fuel pagetable (u64 (va0 + PGSIZE)) (drop (Z.to_nat n) src)
  end.
(** Each iteration but the first starts at a page boundary. *)
Definition copyout (pagetable dstva : Z) (src : list Z) : M kmem Z :=
  copyout_loop (length src) pagetable dstva src.

(** [copyin] returns what it copied with its status. *)
Fixpoint copyin_loop (fuel : nat) (pagetable srcva len : Z) (dst : list Z) : M kmem (list Z * Z) :=
  if bool_decide (len ≤ 0) then mret (dst, 0) else
  match fuel with
  | O => nofuel
  | S fuel =>
      let va0 := PGROUNDDOWN srcva in
      pa0 ← walkaddr pagetable va0;
      if bool_decide (pa0 = 0) then mret (dst, -1) else
      let n := Z.min (PGSIZE - (srcva - va0)) len in
      x ← ld_bytes (pa0 + (srcva - va0)) (Z.to_nat n);
      copyin_loop fuel pagetable (u64 (va0 + PGSIZE)) (len - n) (dst ++ x)
  end.
Definition copyin (pagetable srcva len : Z) : M kmem (list Z * Z) :=
  copyin_loop (Z.to_nat len) pagetable srcva len [].

(** The inner loop of [copyinstr]: the bytes up to and including a null, and
    whether there was one. *)
Fixpoint until_null (x : list Z) : list Z * bool :=
  match x with
  | [] => ([], false)
  | c :: x => if bool_decide (c = 0) then ([0], true)
              else let '(y, b) := until_null x in (c :: y, b)
  end.
Fixpoint copyinstr_loop (fuel : nat) (pagetable srcva max : Z) (dst : list Z) : M kmem (list Z * Z) :=
  if bool_decide (max ≤ 0) then mret (dst, -1) else
  match fuel with
  | O => nofuel
  | S fuel =>
      let va0 := PGROUNDDOWN srcva in
      pa0 ← walkaddr pagetable va0;
      if bool_decide (pa0 = 0) then mret (dst, -1) else
      let n := Z.min (PGSIZE - (srcva - va0)) max in
      x ← ld_bytes (pa0 + (srcva - va0)) (Z.to_nat n);
      let '(y, got_null) := until_null x in
      if got_null then mret (dst ++ y, 0)
      else copyinstr_loop fuel pagetable (u64 (va0 + PGSIZE)) (max - n) (dst ++ y)
  end.
Definition copyinstr (pagetable srcva max : Z) : M kmem (list Z * Z) :=
  copyinstr_loop (Z.to_nat max) pagetable srcva max [].

(** ** The kernel's page table *)

(** [proc_mapstacks]: a stack page for each process slot. *)
Fixpoint proc_mapstacks_loop (kpgtbl : Z) (ps : list Z) : M kmem unit :=
  match ps with
  | [] => mret tt
  | p :: ps =>
      pa ← kalloc;
      if bool_decide (pa = 0) then panic "kalloc" else
      kvmmap kpgtbl (KSTACK p) pa PGSIZE (Z.lor PTE_R PTE_W);;
      proc_mapstacks_loop kpgtbl ps
  end.
Definition proc_mapstacks (kpgtbl : Z) : M kmem unit := proc_mapstacks_loop kpgtbl (seqZ 0 NPROC).

Definition kvmmake : M kmem Z :=
  kpgtbl ← kalloc;
  zero_page kpgtbl;;
  kvmmap kpgtbl UART0 UART0 PGSIZE (Z.lor PTE_R PTE_W);;
  kvmmap kpgtbl VIRTIO0 VIRTIO0 PGSIZE (Z.lor PTE_R PTE_W);;
  kvmmap kpgtbl PLIC PLIC 0x4000000 (Z.lor PTE_R PTE_W);;
  kvmmap kpgtbl KERNBASE KERNBASE (etext - KERNBASE) (Z.lor PTE_R PTE_X);;
  kvmmap kpgtbl etext etext (PHYSTOP - etext) (Z.lor PTE_R PTE_W);;
  kvmmap kpgtbl TRAMPOLINE trampoline PGSIZE (Z.lor PTE_R PTE_X);;
  proc_mapstacks kpgtbl;;
  mret kpgtbl.
End vm.

End Vm.
