(* ===== verification/PageTable.v ===== *)
(** What a page table in physical memory represents, and what [walk] and
    [mappages] do to it. *)

From S2P Require Import Prelude Riscv Kalloc Vm.
Import Kalloc Vm.

Local Open Scope Z_scope.

Module PageTable.

(** * Entries *)

Lemma lor_low a b n : 0 ≤ n → 0 ≤ b < 2 ^ n → Z.lor (a * 2 ^ n) b = a * 2 ^ n + b.
Proof.
  intros Hn Hb. rewrite <-Z.shiftl_mul_pow2 by done.
  assert (Hz : Z.land (Z.shiftl a n) b = 0).
  { apply Z.bits_inj'. intros k Hk. rewrite Z.land_spec, Z.bits_0. destruct (decide (k < n)).
    - rewrite Z.shiftl_spec_low by done. done.
    - destruct (decide (b = 0)) as [->|]; [by rewrite Z.bits_0, andb_false_r|].
      rewrite (Z.bits_above_log2 b), andb_false_r; [done|lia|].
      assert (Z.log2 b < n); [|lia]. apply Z.log2_lt_pow2; lia. }
  by rewrite <-Z.lxor_lor, Z.add_nocarry_lxor by done.
Qed.

Lemma land_low a b m n : 0 ≤ n → 0 ≤ b < 2 ^ n → 0 ≤ m < 2 ^ n → Z.land (a * 2 ^ n + b) m = Z.land b m.
Proof.
  intros Hn Hb Hm. rewrite <-lor_low, Z.land_lor_distr_l by done.
  assert (Z.land (a * 2 ^ n) m = 0) as ->; [|done].
  assert (Hmm : m = Z.land m (Z.ones n)) by (rewrite Z.land_ones, Z.mod_small; lia).
  rewrite Hmm, (Z.land_comm m), Z.land_assoc, Z.land_ones, Z.mod_mul by lia. done.
Qed.

(** A page-table entry for the page at [pa], with its ten flag bits. *)
Definition mkpte (pa flags : Z) : Z := pa / 4096 * 1024 + flags.

(** Physical addresses of pages. *)
Definition pa_ok (pa : Z) : Prop := pa mod 4096 = 0 ∧ 0 ≤ pa < 2 ^ 54.

Lemma PA2PTE_mk pa : pa_ok pa → PA2PTE pa = pa / 4096 * 2 ^ 10.
Proof.
  intros [Ha Hp]. unfold PA2PTE, u64. rewrite Z.shiftr_div_pow2, Z.shiftl_mul_pow2 by lia.
  apply Z.mod_small. change (2 ^ 12) with 4096. zlia.
Qed.

Lemma pte_make pa perm :
  pa_ok pa → 0 ≤ perm < 1024 →
  Z.lor (Z.lor (PA2PTE pa) perm) PTE_V = mkpte pa (Z.lor perm PTE_V).
Proof.
  intros Hpa Hp. rewrite PA2PTE_mk, <-Z.lor_assoc by done. apply lor_low; [lia|].
  split; [apply Z.lor_nonneg; change PTE_V with 1; lia|].
  destruct (decide (Z.lor perm PTE_V = 0)); [lia|]. apply Z.log2_lt_pow2.
  { assert (0 ≤ Z.lor perm PTE_V) by (apply Z.lor_nonneg; change PTE_V with 1; lia). lia. }
  rewrite Z.log2_lor by (change PTE_V with 1; lia). change (Z.log2 PTE_V) with 0.
  rewrite Z.max_l by apply Z.log2_nonneg.
  destruct (decide (perm = 0)) as [->|]; [done|]. apply Z.log2_lt_pow2; lia.
Qed.
Lemma pte_make_ptr pa : pa_ok pa → Z.lor (PA2PTE pa) PTE_V = mkpte pa PTE_V.
Proof. intros. rewrite <-(Z.lor_0_r (PA2PTE pa)), (pte_make pa 0) by (done || lia). done. Qed.

Lemma mkpte_pa pa f : pa_ok pa → 0 ≤ f < 1024 → PTE2PA (mkpte pa f) = pa.
Proof.
  intros [Ha Hp] Hf. unfold PTE2PA, mkpte, u64.
  rewrite Z.shiftr_div_pow2, Z.shiftl_mul_pow2 by lia. change (2 ^ 10) with 1024. change (2 ^ 12) with 4096.
  rewrite Z.div_add_l, (Z.div_small f), Z.add_0_r by lia. rewrite Z.mod_small; zlia.
Qed.
Lemma mkpte_flags pa f : 0 ≤ f < 1024 → PTE_FLAGS (mkpte pa f) = f.
Proof.
  intros Hf. unfold PTE_FLAGS, mkpte. change 1024 with (2 ^ 10). change 0x3FF with (Z.ones 10).
  rewrite Z.land_ones by lia. rewrite Z.add_comm, Z.mod_add, Z.mod_small by lia. done.
Qed.
Lemma has_mkpte pa f flag : 0 ≤ f < 1024 → 0 ≤ flag < 1024 → has (mkpte pa f) flag = has f flag.
Proof.
  intros Hf Hm. unfold has, mkpte. change 1024 with (2 ^ 10) in *. by rewrite land_low by lia.
Qed.
Lemma mkpte_range pa f : pa_ok pa → 0 ≤ f < 1024 → 0 ≤ mkpte pa f < 2 ^ 64.
Proof. intros [Ha Hp] Hf. unfold mkpte. zlia. Qed.

Lemma has_V v : has v PTE_V = Z.odd v.
Proof.
  unfold has. change PTE_V with (Z.ones 1). rewrite Z.land_ones by lia. change (2 ^ 1) with 2.
  rewrite Zmod_odd. by destruct (Z.odd v).
Qed.

(** * Page tables in memory *)

(** The contents of a page. *)
Definition is_page (x : list Z) : Prop := Z.of_nat (length x) = 4096 ∧ bytes x.
Lemma is_page_wr n off v x : is_page x → Z.of_nat (off + n) ≤ 4096 → is_page (wr n off v x).
Proof. intros [Hl Hb] Ho. split; [rewrite length_wr; lia|by apply bytes_wr]. Qed.

(** Entry [i] of the table page [p]. *)
Definition ent (pm : gmap Z (list Z)) (p i : Z) : Z := rd 8 (Z.to_nat (8 * i)) (pm !!! p).

(** The position of a table: the root, the second-level table of a root entry,
    the last-level table below that. *)
Inductive tag := TRoot | T1 (i2 : Z) | T0 (i2 i1 : Z).

(** A page table: its table pages by position, and its valid leaf entries by
    virtual page number. *)
Record ptree := MkPt {
  p_root : Z;
  p_l1 : gmap Z Z;
  p_l0 : gmap (Z * Z) Z;
  p_leaf : gmap Z Z;
}.
Definition tbl (t : ptree) (g : tag) : option Z :=
  match g with TRoot => Some (p_root t) | T1 i2 => p_l1 t !! i2 | T0 i2 i1 => p_l0 t !! (i2, i1) end.
Definition is_table (t : ptree) (p : Z) : Prop := ∃ g, tbl t g = Some p.

Definition vpn (i2 i1 i0 : Z) : Z := (i2 * 512 + i1) * 512 + i0.

Definition ptr_entry (o : option Z) (v : Z) : Prop :=
  match o with Some p => v = mkpte p PTE_V | None => has v PTE_V = false end.
Definition leaf_entry (o : option Z) (v : Z) : Prop :=
  match o with Some w => v = w ∧ has w PTE_V = true | None => has v PTE_V = false end.

Section rep.
Context (kend : Z).

Record pt_rep (pm : gmap Z (list Z)) (t : ptree) : Prop := {
  pr_page p : is_table t p → ∃ pg, pm !! p = Some pg ∧ is_page pg;
  pr_root i2 : 0 ≤ i2 < 512 → ptr_entry (p_l1 t !! i2) (ent pm (p_root t) i2);
  pr_l1 i2 p i1 : p_l1 t !! i2 = Some p → 0 ≤ i1 < 512 → ptr_entry (p_l0 t !! (i2, i1)) (ent pm p i1);
  pr_l0 i2 i1 p i0 : p_l0 t !! (i2, i1) = Some p → 0 ≤ i0 < 512 →
    leaf_entry (p_leaf t !! vpn i2 i1 i0) (ent pm p i0);
  pr_l1_dom i2 : is_Some (p_l1 t !! i2) → 0 ≤ i2 < 512;
  pr_l0_dom i2 i1 : is_Some (p_l0 t !! (i2, i1)) → is_Some (p_l1 t !! i2) ∧ 0 ≤ i1 < 512;
  pr_leaf_dom v : is_Some (p_leaf t !! v) → ∃ i2 i1 i0, v = vpn i2 i1 i0 ∧ 0 ≤ i0 < 512 ∧ is_Some (p_l0 t !! (i2, i1));
  pr_distinct g g' p : tbl t g = Some p → tbl t g' = Some p → g = g';
  pr_ok p : is_table t p → page_ok kend p;
}.

Lemma pt_rep_frame pm pm' t :
  pt_rep pm t → (∀ p, is_table t p → pm' !! p = pm !! p) → pt_rep pm' t.
Proof.
  intros [Hpg Hr H1 H0 Hd1 Hd0 Hdl Hdist Hok] Hf.
  assert (He : ∀ p i, is_table t p → ent pm' p i = ent pm p i).
  { intros p i Hp. unfold ent. by rewrite !lookup_total_alt, Hf. }
  split; try done.
  - intros p Hp. rewrite Hf by done. auto.
  - intros i2 Hi. rewrite He by (by exists TRoot). auto.
  - intros i2 p i1 Hp Hi. rewrite He by (by exists (T1 i2)). eauto.
  - intros i2 i1 p i0 Hp Hi. rewrite He by (by exists (T0 i2 i1)). eauto.
Qed.

(** Writing an entry. *)
Lemma ent_write pm p pg i v q j :
  pm !! p = Some pg → is_page pg → 0 ≤ i < 512 → 0 ≤ j < 512 → 0 ≤ v < 2 ^ 64 →
  ent (<[p := wr 8 (Z.to_nat (8 * i)) v pg]> pm) q j =
    if decide (q = p ∧ j = i) then v else ent pm q j.
Proof.
  intros Hp [Hl _] Hi Hj Hv. unfold ent. destruct (decide (q = p)) as [->|Hq].
  - rewrite lookup_total_insert_eq. case_decide as Hc.
    + destruct Hc as [_ ->]. rewrite rd_wr_eq by lia. by apply Z.mod_small.
    + rewrite rd_wr_ne by lia. by rewrite (lookup_total_correct _ _ _ Hp).
  - rewrite lookup_total_insert_ne by done. rewrite decide_False by tauto. done.
Qed.

Hypothesis kend_pos : 0 < kend.

Lemma page_ok_pa p : page_ok kend p → pa_ok p ∧ p ≠ 0.
Proof. unfold page_ok, pa_ok, PGSIZE, PHYSTOP, KERNBASE. lia. Qed.

Lemma entry_addr p i : p mod 4096 = 0 → 0 ≤ i < 512 → page_of (p + 8 * i) = p ∧ off_of (p + 8 * i) = Z.to_nat (8 * i).
Proof.
  intros Hp Hi. unfold page_of, off_of.
  assert (Hd : (p + 8 * i) / 4096 = p / 4096) by zlia. rewrite Hd. split; [zlia|]. f_equal. zlia.
Qed.

Lemma ld64_ent k p i : page_ok kend p → is_Some (pmem k !! p) → 0 ≤ i < 512 → ld64 (p + 8 * i) k = Ok (ent (pmem k) p i) k.
Proof.
  intros [Hp _] [pg Hpg] Hi. destruct (entry_addr p i Hp Hi) as [Ha Ho].
  unfold ld64, load_page, mbind, M_bind, get. rewrite Ha, Ho, Hpg. cbn. unfold ent.
  by rewrite (lookup_total_correct _ _ _ Hpg).
Qed.

Lemma st64_run k p pg i v :
  page_ok kend p → pmem k !! p = Some pg → 0 ≤ i < 512 →
  st64 (p + 8 * i) v k = Ok tt (MkKmem (freelist k) (<[p := wr 8 (Z.to_nat (8 * i)) v pg]> (pmem k))).
Proof.
  intros [Hp _] Hpg Hi. destruct (entry_addr p i Hp Hi) as [Ha Ho].
  unfold st64, load_page, store_page, mbind, M_bind, get. rewrite Ha, Ho, Hpg. cbn. by rewrite Hpg.
Qed.

(** ** Indices *)
Definition ix (level va : Z) : Z := va / 2 ^ (12 + 9 * level) mod 512.
Lemma PX_ix level va : 0 ≤ level → PX level va = ix level va.
Proof.
  intros Hl. unfold PX, ix, PXSHIFT, PGSHIFT, PXMASK. change 0x1FF with (Z.ones 9).
  rewrite Z.land_ones, Z.shiftr_div_pow2 by lia. done.
Qed.
Lemma ix_range level va : 0 ≤ ix level va < 512.
Proof. apply Z.mod_pos_bound. lia. Qed.
Lemma vpn_ix va : 0 ≤ va < MAXVA → vpn (ix 2 va) (ix 1 va) (ix 0 va) = va / 4096.
Proof.
  change MAXVA with (2 ^ 38). intros Hva. unfold vpn, ix.
  change (2 ^ (12 + 9 * 2)) with (4096 * 512 * 512). change (2 ^ (12 + 9 * 1)) with (4096 * 512).
  change (2 ^ (12 + 9 * 0)) with 4096. rewrite <-!Z.div_div by lia.
  set (a := va / 4096) in *. assert (0 ≤ a < 2 ^ 26) by (unfold a; zlia). zlia.
Qed.
Lemma vpn_inj i2 i1 i0 j2 j1 j0 :
  0 ≤ i1 < 512 → 0 ≤ i0 < 512 → 0 ≤ j1 < 512 → 0 ≤ j0 < 512 →
  vpn i2 i1 i0 = vpn j2 j1 j0 → i2 = j2 ∧ i1 = j1 ∧ i0 = j0.
Proof. unfold vpn. lia. Qed.

(** The leaf entry of [va], if there is a last-level table for it. *)
Definition slot (t : ptree) (va : Z) : option Z := p_l0 t !! (ix 2 va, ix 1 va).
Definition slot_addr (o : option Z) (va : Z) : Z :=
  match o with Some p => p + 8 * ix 0 va | None => 0 end.

Lemma walk_lookup k t va :
  pt_rep (pmem k) t → 0 ≤ va < MAXVA →
  walk (p_root t) va false k = Ok (slot_addr (slot t va) va) k.
Proof.
  intros [Hpg Hr H1 H0 Hd1 Hd0 Hdl Hdist Hok] Hva. unfold walk.
  rewrite bool_decide_false by lia. unfold slot.
  assert (Htbl : ∀ g p, tbl t g = Some p → page_ok kend p ∧ is_Some (pmem k !! p)).
  { intros g p Hg. split; [apply Hok; by exists g|]. destruct (Hpg p) as (pg & -> & _); [by exists g|done]. }
  cbn [walk_loop]. rewrite !PX_ix by lia.
  destruct (Htbl TRoot _ eq_refl) as [Hrok Hrs].
  erewrite bind_ok by (apply ld64_ent; [done|done|apply ix_range]). cbv beta.
  specialize (Hr _ (ix_range 2 va)). destruct (p_l1 t !! ix 2 va) as [p1|] eqn:E1; cbn in Hr.
  2:{ rewrite Hr. cbn [negb]. destruct (p_l0 t !! (ix 2 va, ix 1 va)) eqn:E0; [|done].
      destruct (Hd0 (ix 2 va) (ix 1 va)) as [Hs _]; [by rewrite E0|]. rewrite E1 in Hs. by destruct Hs. }
  destruct (Htbl (T1 (ix 2 va)) p1 E1) as [H1ok H1s].
  rewrite Hr, has_mkpte by (change PTE_V with 1; lia). change (has PTE_V PTE_V) with true. cbv iota.
  rewrite mkpte_pa by (apply page_ok_pa, H1ok || (change PTE_V with 1; lia)).
  erewrite bind_ok by (apply ld64_ent; [done|done|apply ix_range]). cbv beta.
  specialize (H1 _ _ _ E1 (ix_range 1 va)). destruct (p_l0 t !! (ix 2 va, ix 1 va)) as [p0|] eqn:E0; cbn in H1.
  2:{ rewrite H1. done. }
  destruct (Htbl (T0 (ix 2 va) (ix 1 va)) p0 E0) as [H0ok H0s].
  rewrite H1, has_mkpte by (change PTE_V with 1; lia). change (has PTE_V PTE_V) with true. cbv iota.
  by rewrite mkpte_pa by (apply page_ok_pa, H0ok || (change PTE_V with 1; lia)).
Qed.

(** ** New tables *)
Definition zeros : list Z := replicate (Z.to_nat PGSIZE) 0.
Lemma zeros_page : is_page zeros.
Proof. split; [by unfold zeros; rewrite length_replicate|]. apply bytes_replicate. wrap_lia. Qed.

Lemma ent_zeros pm p i : 0 ≤ i < 512 → ent (<[p := zeros]> pm) p i = 0.
Proof. intros Hi. unfold ent. rewrite lookup_total_insert_eq. apply rd_zeros. Qed.
Lemma ent_other pm p x q i : q ≠ p → ent (<[p := x]> pm) q i = ent pm q i.
Proof. intros Hq. unfold ent. by rewrite lookup_total_insert_ne. Qed.

Definition add1 (t : ptree) (i2 p : Z) : ptree := MkPt (p_root t) (<[i2 := p]> (p_l1 t)) (p_l0 t) (p_leaf t).
Definition add0 (t : ptree) (i2 i1 p : Z) : ptree :=
  MkPt (p_root t) (p_l1 t) (<[(i2, i1) := p]> (p_l0 t)) (p_leaf t).

Lemma tbl_add1 t i2 p g q :
  tbl (add1 t i2 p) g = Some q → g = T1 i2 ∧ q = p ∨ g ≠ T1 i2 ∧ tbl t g = Some q.
Proof.
  destruct g as [|j2|j2 j1]; cbn; [by right| |by right].
  rewrite lookup_insert. case_decide as Hc; [|right; naive_solver]. subst. intros [= ->]. by left.
Qed.
Lemma tbl_add0 t i2 i1 p g q :
  tbl (add0 t i2 i1 p) g = Some q → g = T0 i2 i1 ∧ q = p ∨ g ≠ T0 i2 i1 ∧ tbl t g = Some q.
Proof.
  destruct g as [|j2|j2 j1]; cbn; [by right|by right|].
  rewrite lookup_insert. case_decide as Hc; [|right; naive_solver]. simplify_eq. intros [= ->]. by left.
Qed.

(** The memory after a fresh zeroed page [p] is entered at index [i] of the
    table [q], whose contents are [pg]. *)
Definition linked (pm : gmap Z (list Z)) (p q : Z) (pg : list Z) (i : Z) : gmap Z (list Z) :=
  <[q := wr 8 (Z.to_nat (8 * i)) (mkpte p PTE_V) pg]> (<[p := zeros]> pm).

Lemma linked_ent pm p q pg i r j :
  page_ok kend p → q ≠ p → pm !! q = Some pg → is_page pg → 0 ≤ i < 512 → 0 ≤ j < 512 →
  ent (linked pm p q pg i) r j =
    if decide (r = q ∧ j = i) then mkpte p PTE_V else if decide (r = p) then 0 else ent pm r j.
Proof.
  intros Hp Hqp Hq Hl Hi Hj. unfold linked. rewrite (ent_write _ q pg); [|by rewrite lookup_insert_ne|done|done|done|].
  - case_decide; [done|]. case_decide; [subst; by apply ent_zeros|by apply ent_other].
  - apply mkpte_range; [by apply page_ok_pa|change PTE_V with 1; lia].
Qed.

Lemma linked_page pm p q pg i r :
  pm !! q = Some pg → is_page pg → 0 ≤ i < 512 →
  (∃ x, pm !! r = Some x ∧ is_page x) ∨ r = p →
  ∃ x, linked pm p q pg i !! r = Some x ∧ is_page x.
Proof.
  intros Hq Hpg Hi Hr. unfold linked. destruct (decide (r = q)) as [->|Hrq].
  { rewrite lookup_insert_eq. eexists. split; [reflexivity|]. apply is_page_wr; [done|lia]. }
  rewrite lookup_insert_ne by done. destruct (decide (r = p)) as [->|Hrp].
  - rewrite lookup_insert_eq. exists zeros. split; [reflexivity|]. apply zeros_page.
  - rewrite lookup_insert_ne by done. by destruct Hr as [Hr| ->].
Qed.

Lemma add1_rep pm t i2 p pg :
  pt_rep pm t → p_l1 t !! i2 = None → 0 ≤ i2 < 512 → page_ok kend p → ¬ is_table t p →
  pm !! p_root t = Some pg → pt_rep (linked pm p (p_root t) pg i2) (add1 t i2 p).
Proof.
  intros [Hpg Hr H1 H0 Hd1 Hd0 Hdl Hdist Hok] Hnone Hi2 Hp Hfresh Hroot.
  destruct (Hpg (p_root t)) as (pg' & Hpg' & Hpage); [by exists TRoot|]. simplify_eq.
  assert (Hne : p_root t ≠ p) by (intros <-; apply Hfresh; by exists TRoot).
  assert (Hen : ∀ r j, 0 ≤ j < 512 → ent (linked pm p (p_root t) pg i2) r j =
    if decide (r = p_root t ∧ j = i2) then mkpte p PTE_V else if decide (r = p) then 0 else ent pm r j)
    by (intros; by apply linked_ent).
  assert (Hnt : ∀ g q, tbl t g = Some q → q ≠ p) by (intros g q Hg ->; apply Hfresh; by exists g).
  split; cbn [add1 p_root p_l1 p_l0 p_leaf].
  - intros q [g Hg]. apply linked_page; [done..|].
    apply tbl_add1 in Hg as [[_ ->]|[_ Hg]]; [by right|left]. apply Hpg. by exists g.
  - intros j Hj. rewrite Hen by done. destruct (decide (j = i2)) as [->|Hji].
    + rewrite decide_True by done. by rewrite lookup_insert_eq.
    + rewrite decide_False by tauto. rewrite decide_False by done. rewrite lookup_insert_ne by done. auto.
  - intros j2 q j1 Hq Hj. rewrite Hen by done. rewrite lookup_insert in Hq. case_decide as Hc.
    + simplify_eq. rewrite decide_False by naive_solver. rewrite decide_True by done.
      destruct (p_l0 t !! (j2, j1)) eqn:E; [|done].
      destruct (Hd0 j2 j1) as [[? ?] _]; [by rewrite E|congruence].
    + rewrite decide_False; [rewrite decide_False; [eauto|by apply (Hnt (T1 j2))]|].
      intros [-> _]. by specialize (Hdist (T1 j2) TRoot _ Hq eq_refl).
  - intros j2 j1 q j0 Hq Hj. rewrite Hen by done.
    rewrite decide_False; [rewrite decide_False; [eauto|by apply (Hnt (T0 j2 j1))]|].
    intros [-> _]. by specialize (Hdist (T0 j2 j1) TRoot _ Hq eq_refl).
  - intros j2. rewrite lookup_insert. case_decide; [by subst|auto].
  - intros j2 j1 Hs. apply Hd0 in Hs as [[q Hq] ?]. split; [|done]. rewrite lookup_insert. case_decide; eauto.
  - done.
  - intros g g' q [[-> ->]|[_ Hg]]%tbl_add1 [[-> ?]|[? Hg']]%tbl_add1; [done| | |by eapply Hdist].
    + exfalso. by apply (Hnt g' p).
    + subst. exfalso. by apply (Hnt g p).
  - intros q [g [[_ ->]|[_ Hg]]%tbl_add1]; [done|]. apply Hok. by exists g.
Qed.

Lemma add0_rep pm t i2 i1 q p pg :
  pt_rep pm t → p_l1 t !! i2 = Some q → p_l0 t !! (i2, i1) = None → 0 ≤ i1 < 512 →
  page_ok kend p → ¬ is_table t p → pm !! q = Some pg →
  pt_rep (linked pm p q pg i1) (add0 t i2 i1 p).
Proof.
  intros [Hpg Hr H1 H0 Hd1 Hd0 Hdl Hdist Hok] Hq1 Hnone Hi1 Hp Hfresh Hqpg.
  destruct (Hpg q) as (pg' & Hpg' & Hpage); [by exists (T1 i2)|]. simplify_eq.
  assert (Hne : q ≠ p) by (intros ->; apply Hfresh; by exists (T1 i2)).
  assert (Hen : ∀ r j, 0 ≤ j < 512 → ent (linked pm p q pg i1) r j =
    if decide (r = q ∧ j = i1) then mkpte p PTE_V else if decide (r = p) then 0 else ent pm r j)
    by (intros; by apply linked_ent).
  assert (Hnt : ∀ g r, tbl t g = Some r → r ≠ p) by (intros g r Hg ->; apply Hfresh; by exists g).
  split; cbn [add0 p_root p_l1 p_l0 p_leaf].
  - intros r [g Hg]. apply linked_page; [done..|].
    apply tbl_add0 in Hg as [[_ ->]|[_ Hg]]; [by right|left]. apply Hpg. by exists g.
  - intros j Hj. rewrite Hen by done.
    rewrite decide_False; [rewrite decide_False; [auto|by apply (Hnt TRoot)]|].
    intros [Heq _]. specialize (Hdist (T1 i2) TRoot q Hq1). cbn in Hdist. rewrite Heq in Hdist. by specialize (Hdist eq_refl).
  - intros j2 r j1 Hr1 Hj. rewrite Hen by done. destruct (decide (j2 = i2 ∧ j1 = i1)) as [[-> ->]|Hn].
    + assert (r = q) as -> by congruence. rewrite decide_True by done. by rewrite lookup_insert_eq.
    + rewrite lookup_insert_ne by (intros [= <- <-]; by apply Hn).
      rewrite decide_False; [rewrite decide_False; [eauto|by apply (Hnt (T1 j2))]|].
      intros [-> ->]. specialize (Hdist (T1 j2) (T1 i2) q Hr1 Hq1). apply Hn. by injection Hdist.
  - intros j2 j1 r j0 Hr0 Hj. rewrite Hen by done. rewrite lookup_insert in Hr0. case_decide as Hc.
    + simplify_eq. rewrite decide_False by naive_solver. rewrite decide_True by done.
      destruct (p_leaf t !! vpn j2 j1 j0) eqn:E; [|done].
      destruct (Hdl (vpn j2 j1 j0)) as (k2 & k1 & k0 & Hv & Hk0 & Hs); [by rewrite E|].
      destruct (Hd0 k2 k1 Hs) as [_ Hk1].
      destruct (vpn_inj j2 j1 j0 k2 k1 k0) as (<- & <- & <-); [done..|]. rewrite Hnone in Hs. by destruct Hs.
    + rewrite decide_False; [rewrite decide_False; [eauto|by apply (Hnt (T0 j2 j1))]|].
      intros [-> _]. by specialize (Hdist (T0 j2 j1) (T1 i2) q Hr0 Hq1).
  - done.
  - intros j2 j1. rewrite lookup_insert. case_decide as Hc; [|apply Hd0]. injection Hc as <- <-. rewrite Hq1. eauto.
  - intros v Hs. destruct (Hdl v Hs) as (k2 & k1 & k0 & Hv & Hk0 & Hs'). exists k2, k1, k0.
    split; [done|]. split; [done|]. rewrite lookup_insert. case_decide; eauto.
  - intros g g' r [[-> ->]|[_ Hg]]%tbl_add0 [[-> ?]|[? Hg']]%tbl_add0; [done| | |by eapply Hdist].
    + exfalso. by apply (Hnt g' p).
    + subst. exfalso. by apply (Hnt g p).
  - intros r [g [[_ ->]|[_ Hg]]%tbl_add0]; [done|]. apply Hok. by exists g.
Qed.

(** ** Changing a leaf *)
Definition set_leaf (t : ptree) (v w : Z) : ptree :=
  MkPt (p_root t) (p_l1 t) (p_l0 t) (if has w PTE_V then <[v := w]> (p_leaf t) else delete v (p_leaf t)).

Lemma tbl_set_leaf t v w g : tbl (set_leaf t v w) g = tbl t g.
Proof. by destruct g. Qed.

Lemma set_leaf_rep pm t i2 i1 i0 p pg w :
  pt_rep pm t → p_l0 t !! (i2, i1) = Some p → 0 ≤ i0 < 512 → 0 ≤ w < 2 ^ 64 → pm !! p = Some pg →
  pt_rep (<[p := wr 8 (Z.to_nat (8 * i0)) w pg]> pm) (set_leaf t (vpn i2 i1 i0) w).
Proof.
  intros [Hpg Hr H1 H0 Hd1 Hd0 Hdl Hdist Hok] Hp Hi0 Hw Hppg.
  destruct (Hpg p) as (pg' & Hpg' & Hpage); [by exists (T0 i2 i1)|]. simplify_eq.
  assert (Hen : ∀ r j, 0 ≤ j < 512 → ent (<[p := wr 8 (Z.to_nat (8 * i0)) w pg]> pm) r j =
    if decide (r = p ∧ j = i0) then w else ent pm r j) by (intros; by apply ent_write).
  assert (Hto : ∀ g, tbl t g = Some p → g = T0 i2 i1) by (intros g Hg; by eapply Hdist).
  split; cbn [set_leaf p_root p_l1 p_l0].
  - intros r [g Hg]. rewrite tbl_set_leaf in Hg. destruct (decide (r = p)) as [->|Hne].
    + rewrite lookup_insert_eq. eexists. split; [reflexivity|]. apply is_page_wr; [done|lia].
    + rewrite lookup_insert_ne by done. apply Hpg. by exists g.
  - intros j Hj. rewrite Hen by done. rewrite decide_False; [auto|]. intros [Heq _].
    specialize (Hto TRoot). cbn in Hto. rewrite Heq in Hto. by specialize (Hto eq_refl).
  - intros j2 r j1 Hr1 Hj. rewrite Hen by done. rewrite decide_False; [eauto|]. intros [-> _].
    by specialize (Hto (T1 j2) Hr1).
  - intros j2 j1 r j0 Hr0 Hj. rewrite Hen by done.
    destruct (Hd0 j2 j1) as [_ Hj1]; [by rewrite Hr0|]. destruct (Hd0 i2 i1) as [_ Hi1]; [by rewrite Hp|].
    specialize (H0 _ _ _ _ Hr0 Hj). unfold set_leaf. cbn [p_leaf].
    destruct (decide (r = p ∧ j0 = i0)) as [[-> ->]|Hn].
    + injection (Hto (T0 j2 j1) Hr0) as -> ->. destruct (has w PTE_V) eqn:HV; unfold leaf_entry.
      * by rewrite lookup_insert_eq.
      * by rewrite lookup_delete_eq.
    + assert (Hv : vpn i2 i1 i0 ≠ vpn j2 j1 j0).
      { intros (<- & <- & <-)%vpn_inj; [|done..]. apply Hn. split; [congruence|done]. }
      destruct (has w PTE_V); [by rewrite lookup_insert_ne|by rewrite lookup_delete_ne].
  - done.
  - done.
  - intros v Hs. unfold set_leaf in Hs. cbn [p_leaf] in Hs.
    destruct (decide (v = vpn i2 i1 i0)) as [->|Hv]; [exists i2, i1, i0; rewrite Hp; eauto|].
    apply Hdl. destruct (has w PTE_V); [by rewrite lookup_insert_ne in Hs|by rewrite lookup_delete_ne in Hs].
  - intros g g' r. rewrite !tbl_set_leaf. apply Hdist.
  - intros r [g Hg]. rewrite tbl_set_leaf in Hg. apply Hok. by exists g.
Qed.

(** * Allocating walks *)

(** The allocator's free pages [l] and a page table [t] that shares none of them. *)
Record vst (k : kmem) (l : list Z) (t : ptree) : Prop := {
  vs_kinv : kinv kend k l;
  vs_rep : pt_rep (pmem k) t;
  vs_apart p : is_table t p → p ∉ l;
}.

(** From [k] to [k'] the page table has only taken free pages for tables; other
    memory is as it was. *)
Record grows (k : kmem) (l : list Z) (t : ptree) (k' : kmem) (l' : list Z) (t' : ptree) : Prop := {
  gr_st : vst k' l' t';
  gr_used : ∃ used, l = used ++ l' ∧ (∀ q, is_table t' q ↔ is_table t q ∨ q ∈ used);
  gr_mem q : ¬ is_table t' q → pmem k' !! q = pmem k !! q;
  gr_root : p_root t' = p_root t;
}.

Lemma grows_refl k l t : vst k l t → grows k l t k l t.
Proof.
  intros Hv. split; try done. exists []. split; [done|]. intros q.
  split; [by left|]. by intros [?|?%elem_of_nil].
Qed.
Lemma grows_trans k l t k1 l1 t1 k2 l2 t2 :
  grows k l t k1 l1 t1 → grows k1 l1 t1 k2 l2 t2 → grows k l t k2 l2 t2.
Proof.
  intros [Hv (u1 & Hl1 & Ht1) Hm1 Hr1] [Hv2 (u2 & Hl2 & Ht2) Hm2 Hr2]. split; [done| | |congruence].
  - exists (u1 ++ u2). split; [by rewrite Hl1, Hl2, app_assoc|]. intros q.
    rewrite Ht2, Ht1, elem_of_app. tauto.
  - intros q Hq. rewrite Hm2 by done. apply Hm1. intros Hq1. apply Hq, Ht2. by left.
Qed.

Lemma kinv_write k l q x : kinv kend k l → q ∉ l → kinv kend (MkKmem (freelist k) (<[q := x]> (pmem k))) l.
Proof. intros (Hc & Hnd & Hok) Hq. split; [by apply chain_insert|done]. Qed.

(** [kalloc], zeroing the page, and linking it into table [q]. *)
Definition new_table (q i : Z) : M kmem Z :=
  p ← kalloc;
  if bool_decide (p = 0) then mret 0 else
  zero_page p;; st64 (q + 8 * i) (Z.lor (PA2PTE p) PTE_V);; mret p.

Lemma kalloc_empty k : kinv kend k [] → kalloc k = Ok 0 k.
Proof.
  intros Hk. destruct (proj1 (wp_ok _ _ _) (kalloc_spec kend k [] Hk)) as (r & k' & Hrun & -> & ->). done.
Qed.
Lemma kalloc_page k p l :
  kinv kend k (p :: l) → ∃ fl x, kalloc k = Ok p (MkKmem fl (<[p := x]> (pmem k))) ∧
    kinv kend (MkKmem fl (<[p := x]> (pmem k))) l ∧ page_ok kend p ∧ p ∉ l ∧ is_page x.
Proof.
  intros Hk. pose proof Hk as (_ & [Hpl _]%NoDup_cons & [Hok _]%Forall_cons).
  destruct (proj1 (wp_ok _ _ _) (kalloc_spec kend k _ Hk)) as (r & [fl pm] & Hrun & -> & Hk' & Hpm).
  cbn [pmem] in Hpm. rewrite Hpm in *. exists fl, (replicate 4096 5). split; [exact Hrun|]. split; [exact Hk'|]. split; [done|]. split; [done|].
  split; [by rewrite length_replicate|]. apply bytes_replicate. wrap_lia.
Qed.

Lemma zero_page_run k p : is_Some (pmem k !! p) → zero_page p k = Ok tt (MkKmem (freelist k) (<[p := zeros]> (pmem k))).
Proof. intros [x Hx]. unfold zero_page, store_page, mbind, M_bind, get. rewrite Hx. done. Qed.

Lemma new_table_run k p l q pg i :
  kinv kend k (p :: l) → page_ok kend q → q ∉ p :: l → pmem k !! q = Some pg → 0 ≤ i < 512 →
  ∃ k', new_table q i k = Ok p k' ∧ pmem k' = linked (pmem k) p q pg i ∧ kinv kend k' l ∧
    page_ok kend p ∧ p ≠ 0.
Proof.
  intros Hk Hq Hql Hpg Hi. apply not_elem_of_cons in Hql as [Hqp Hql].
  destruct (kalloc_page k p l Hk) as (fl & x & Hrun & Hk1 & Hp & Hpl & _).
  pose proof (page_ok_pa p Hp) as [Hpa Hp0].
  assert (Hq2 : <[p := zeros]> (<[p := x]> (pmem k)) !! q = Some pg) by (by rewrite !lookup_insert_ne).
  eexists. unfold new_table. erewrite bind_ok by exact Hrun. cbv beta. rewrite bool_decide_false by done.
  erewrite bind_ok by (apply zero_page_run; cbn [pmem]; rewrite lookup_insert_eq; eauto). cbv beta.
  erewrite bind_ok by (apply st64_run; [exact Hq|exact Hq2|exact Hi]). cbn [pmem freelist].
  split; [reflexivity|]. cbn [pmem]. rewrite insert_insert_eq, pte_make_ptr by done.
  split; [reflexivity|]. split; [|done].
  rewrite <-(insert_insert_eq (pmem k) p zeros x). apply (kinv_write (MkKmem _ _)); [|done].
  by apply (kinv_write (MkKmem _ _)).
Qed.

Lemma walk_loop_alloc level levels pt va k :
  walk_loop (level :: levels) pt va true k =
  (v ← ld64 (pt + 8 * PX level va);
   if has v PTE_V then walk_loop levels (PTE2PA v) va true
   else p ← new_table pt (PX level va); if bool_decide (p = 0) then mret 0 else walk_loop levels p va true) k.
Proof.
  cbn [walk_loop]. unfold new_table, mbind, M_bind. destruct (ld64 _ k) as [v k1| | | |]; try done.
  destruct (has v PTE_V); [done|]. cbn [negb]. destruct (kalloc k1) as [p k2| | | |]; try done.
  case_bool_decide as Hp; [done|]. destruct (zero_page p k2) as [[] k3| | | |]; try done.
  destruct (st64 _ _ k3) as [[] k4| | | |]; try done. cbn. by rewrite bool_decide_false.
Qed.

Lemma table_page k l t g p :
  vst k l t → tbl t g = Some p → page_ok kend p ∧ p ∉ l ∧ ∃ pg, pmem k !! p = Some pg ∧ is_page pg.
Proof.
  intros [Hk Hr Ha] Hg. split; [apply (pr_ok _ _ Hr); by exists g|]. split; [apply Ha; by exists g|].
  apply (pr_page _ _ Hr). by exists g.
Qed.

(** The table [p] that a growing page table takes from the free list. *)
Lemma grows_add k p l t k' t' q pg i :
  vst k (p :: l) t → pmem k' = linked (pmem k) p q pg i → kinv kend k' l → is_table t q →
  pt_rep (pmem k') t' → (∀ r, is_table t' r ↔ is_table t r ∨ r = p) →
  p_root t' = p_root t → grows k (p :: l) t k' l t'.
Proof.
  intros [Hk Hr Ha] Hpm Hk' Hq Hr' Ht' Hroot. pose proof Hk as (_ & [Hpl _]%NoDup_cons & _).
  split; try done.
  - split; [done|done|]. intros r [Hrt| ->]%Ht'; [|done]. apply Ha in Hrt. by apply not_elem_of_cons in Hrt as [_ ?].
  - exists [p]. split; [done|]. intros r. by rewrite Ht', list_elem_of_singleton.
  - intros r Hrt. rewrite Ht' in Hrt. rewrite Hpm. unfold linked. rewrite !lookup_insert_ne; [done|..]; naive_solver.
Qed.

Lemma is_table_add1 t i2 p r : p_l1 t !! i2 = None → is_table (add1 t i2 p) r ↔ is_table t r ∨ r = p.
Proof.
  intros Hn. split.
  - intros [g [[_ ->]|[_ Hg]]%tbl_add1]; [by right|left; by exists g].
  - intros [[g Hg]| ->]; [|exists (T1 i2); cbn; by rewrite lookup_insert_eq]. exists g.
    destruct g; cbn in *; [done| |done]. rewrite lookup_insert_ne; [done|]. intros ->. congruence.
Qed.
Lemma is_table_add0 t i2 i1 p r : p_l0 t !! (i2, i1) = None → is_table (add0 t i2 i1 p) r ↔ is_table t r ∨ r = p.
Proof.
  intros Hn. split.
  - intros [g [[_ ->]|[_ Hg]]%tbl_add0]; [by right|left; by exists g].
  - intros [[g Hg]| ->]; [|exists (T0 i2 i1); cbn; by rewrite lookup_insert_eq]. exists g.
    destruct g; cbn in *; [done|done|]. rewrite lookup_insert_ne; [done|]. intros [= -> ->]. congruence.
Qed.

(** What an allocating walk returns. *)
Definition walked (l' : list Z) (t t' : ptree) (va r : Z) : Prop :=
  p_leaf t' = p_leaf t ∧ (r = 0 ∧ l' = [] ∧ slot t' va = None ∨ ∃ p, slot t' va = Some p ∧ r = p + 8 * ix 0 va).

Lemma walk_level1 k l t va p1 :
  vst k l t → p_l1 t !! ix 2 va = Some p1 →
  ∃ r k' l' t', walk_loop [1] p1 va true k = Ok r k' ∧ grows k l t k' l' t' ∧ walked l' t t' va r.
Proof.
  intros Hv H1. destruct (table_page _ _ _ (T1 (ix 2 va)) _ Hv H1) as (Hok & Hnl & pg & Hpg & Hpage).
  pose proof (vs_rep _ _ _ Hv) as Hr. rewrite walk_loop_alloc. rewrite PX_ix by lia.
  erewrite bind_ok by (apply ld64_ent; [done|eauto|apply ix_range]). cbv beta.
  pose proof (pr_l1 _ _ Hr _ _ _ H1 (ix_range 1 va)) as He.
  destruct (p_l0 t !! (ix 2 va, ix 1 va)) as [p0|] eqn:E0; cbn in He.
  { destruct (table_page _ _ _ (T0 (ix 2 va) (ix 1 va)) _ Hv E0) as (Hok0 & _).
    rewrite He, has_mkpte by (change PTE_V with 1; lia). change (has PTE_V PTE_V) with true. cbv iota.
    rewrite mkpte_pa by (apply page_ok_pa, Hok0 || (change PTE_V with 1; lia)). cbn [walk_loop].
    rewrite PX_ix by lia. eexists _, k, l, t. split; [reflexivity|]. split; [by apply grows_refl|]. split; [done|]. right. by exists p0. }
  rewrite He. destruct l as [|p l].
  { erewrite bind_ok by (unfold new_table; erewrite bind_ok by (apply kalloc_empty, Hv); reflexivity).
    eexists 0, k, [], t. split; [reflexivity|]. split; [by apply grows_refl|]. split; [done|]. by left. }
  destruct (new_table_run k p l p1 pg (ix 1 va)) as (k' & Hrun & Hpm & Hk' & Hp & Hp0);
    [apply Hv|done|done|done|apply ix_range|].
  erewrite bind_ok by exact Hrun. cbv beta. rewrite bool_decide_false by done. cbn [walk_loop]. rewrite PX_ix by lia.
  eexists _, k', l, (add0 t (ix 2 va) (ix 1 va) p). split; [reflexivity|]. split.
  - eapply grows_add; [done|exact Hpm|done|by exists (T1 (ix 2 va))| |by intros; apply is_table_add0|done].
    rewrite Hpm. apply add0_rep; [done|done|done|apply ix_range|done| |done].
    intros Hpt. apply (vs_apart _ _ _ Hv) in Hpt. apply Hpt. by left.
  - split; [done|]. right. exists p. split; [|done]. unfold slot. cbn. by rewrite lookup_insert_eq.
Qed.

Lemma walk_alloc k l t va :
  vst k l t → 0 ≤ va < MAXVA →
  ∃ r k' l' t', walk (p_root t) va true k = Ok r k' ∧ grows k l t k' l' t' ∧ walked l' t t' va r.
Proof.
  intros Hv Hva. unfold walk. rewrite bool_decide_false by lia. rewrite walk_loop_alloc.
  destruct (table_page _ _ _ TRoot _ Hv eq_refl) as (Hok & Hnl & pg & Hpg & Hpage).
  pose proof (vs_rep _ _ _ Hv) as Hr. rewrite PX_ix by lia.
  erewrite bind_ok by (apply ld64_ent; [done|eauto|apply ix_range]). cbv beta.
  pose proof (pr_root _ _ Hr _ (ix_range 2 va)) as He.
  destruct (p_l1 t !! ix 2 va) as [p1|] eqn:E1; cbn in He.
  { destruct (table_page _ _ _ (T1 (ix 2 va)) _ Hv E1) as (Hok1 & _).
    rewrite He, has_mkpte by (change PTE_V with 1; lia). change (has PTE_V PTE_V) with true. cbv iota.
    rewrite mkpte_pa by (apply page_ok_pa, Hok1 || (change PTE_V with 1; lia)). by apply walk_level1. }
  rewrite He. destruct l as [|p l].
  { erewrite bind_ok by (unfold new_table; erewrite bind_ok by (apply kalloc_empty, Hv); reflexivity).
    eexists 0, k, [], t. split; [reflexivity|]. split; [by apply grows_refl|]. split; [done|]. left. split; [done|]. split; [done|].
    unfold slot. destruct (p_l0 t !! _) eqn:E0; [|done].
    destruct (pr_l0_dom _ _ Hr (ix 2 va) (ix 1 va)) as [[? ?] _]; [by rewrite E0|congruence]. }
  destruct (new_table_run k p l (p_root t) pg (ix 2 va)) as (k1 & Hrun & Hpm & Hk1 & Hp & Hp0);
    [apply Hv|done|done|done|apply ix_range|].
  erewrite bind_ok by exact Hrun. cbv beta. rewrite bool_decide_false by done.
  assert (Hg : grows k (p :: l) t k1 l (add1 t (ix 2 va) p)).
  { eapply grows_add; [done|exact Hpm|done|by exists TRoot| |by intros; apply is_table_add1|done].
    rewrite Hpm. apply add1_rep; [done|done|apply ix_range|done| |done].
    intros Hpt. apply (vs_apart _ _ _ Hv) in Hpt. apply Hpt. by left. }
  destruct (walk_level1 k1 l (add1 t (ix 2 va) p) va p) as (r & k2 & l2 & t2 & Hw & Hg2 & Hres).
  { apply Hg. }
  { cbn. by rewrite lookup_insert_eq. }
  exists r, k2, l2, t2. split; [exact Hw|]. split; [by eapply grows_trans|done].
Qed.

(** * Leaf entries *)

Lemma leaf_page k l t va p :
  vst k l t → slot t va = Some p → page_ok kend p ∧ p ∉ l ∧ p ≠ 0 ∧ is_table t p ∧ ∃ pg, pmem k !! p = Some pg ∧ is_page pg.
Proof.
  intros Hv Hs. destruct (table_page _ _ _ (T0 (ix 2 va) (ix 1 va)) _ Hv Hs) as (Hok & Hl & Hpg).
  split; [done|]. split; [done|]. split; [by apply page_ok_pa|]. split; [|done]. by exists (T0 (ix 2 va) (ix 1 va)).
Qed.

(** A leaf without a last-level table is not mapped. *)
Lemma slot_none t pm va : pt_rep pm t → 0 ≤ va < MAXVA → slot t va = None → p_leaf t !! (va / 4096) = None.
Proof.
  intros Hr Hva Hs. destruct (p_leaf t !! _) eqn:E; [|done].
  destruct (pr_leaf_dom _ _ Hr (va / 4096)) as (i2 & i1 & i0 & Hvpn & Hi0 & Hsome); [by rewrite E|].
  destruct (pr_l0_dom _ _ Hr _ _ Hsome) as [_ Hi1]. rewrite <-vpn_ix in Hvpn by done.
  apply vpn_inj in Hvpn as (H2 & H1 & _); [|apply ix_range..|done|done]. unfold slot in Hs. rewrite H2, H1, <-not_eq_None_Some in *.
  done.
Qed.

Lemma ld64_leaf k l t va p :
  vst k l t → slot t va = Some p → 0 ≤ va < MAXVA →
  ∃ v, ld64 (p + 8 * ix 0 va) k = Ok v k ∧ leaf_entry (p_leaf t !! (va / 4096)) v.
Proof.
  intros Hv Hs Hva. destruct (leaf_page _ _ _ _ _ Hv Hs) as (Hok & _ & _ & _ & pg & Hpg & _). eexists. split.
  - apply ld64_ent; [done|eauto|apply ix_range].
  - rewrite <-vpn_ix by done. by apply (pr_l0 _ _ (vs_rep _ _ _ Hv)); [|apply ix_range].
Qed.

Lemma is_table_set_leaf t v w q : is_table (set_leaf t v w) q ↔ is_table t q.
Proof. split; intros [g Hg]; exists g; by rewrite ?tbl_set_leaf in *. Qed.

Lemma st64_leaf k l t va p w :
  vst k l t → slot t va = Some p → 0 ≤ va < MAXVA → 0 ≤ w < 2 ^ 64 →
  ∃ k', st64 (p + 8 * ix 0 va) w k = Ok tt k' ∧ grows k l t k' l (set_leaf t (va / 4096) w).
Proof.
  intros Hv Hs Hva Hw. destruct (leaf_page _ _ _ _ _ Hv Hs) as (Hok & Hpl & _ & Htp & pg & Hpg & Hpage).
  eexists. split; [apply st64_run; [done|exact Hpg|apply ix_range]|]. split; [|..|done].
  - split.
    + by apply kinv_write; [apply Hv|].
    + rewrite <-vpn_ix by done. cbn [pmem]. apply set_leaf_rep; [apply Hv|exact Hs|apply ix_range|done|done].
    + intros q. rewrite is_table_set_leaf. apply Hv.
  - exists []. split; [done|]. intros q. rewrite is_table_set_leaf, elem_of_nil. tauto.
  - intros q. rewrite is_table_set_leaf. intros Hq. cbn [pmem]. rewrite lookup_insert_ne; [done|]. by intros ->.
Qed.

(** * Mapping a range *)

(** The leaves of [t'] are those of [t] with [m] pages from [va] mapped to [pa]. *)
Definition leaf_range (t t' : ptree) (va pa perm : Z) (m : nat) : Prop :=
  ∀ v, p_leaf t' !! v =
    if decide (va / 4096 ≤ v < va / 4096 + Z.of_nat m)
    then Some (mkpte (pa + 4096 * (v - va / 4096)) (Z.lor perm PTE_V)) else p_leaf t !! v.

Lemma leaf_range_0 t t' va pa perm : p_leaf t' = p_leaf t → leaf_range t t' va pa perm 0.
Proof. intros H v. rewrite decide_False by lia. by rewrite H. Qed.

Lemma perm_range perm : 0 ≤ perm < 1024 → 0 ≤ Z.lor perm PTE_V < 1024 ∧ has (Z.lor perm PTE_V) PTE_V = true.
Proof.
  intros Hp. change PTE_V with 1. split.
  - split; [apply Z.lor_nonneg; lia|]. destruct (Z.eq_dec (Z.lor perm 1) 0) as [->|]; [lia|].
    change 1024 with (2 ^ 10). apply Z.log2_lt_pow2; [pose proof (proj2 (Z.lor_nonneg perm 1)); lia|].
    rewrite Z.log2_lor by lia. change (Z.log2 1) with 0.
    destruct (Z.eq_dec perm 0) as [->|]; [cbn; lia|].
    pose proof (proj1 (Z.log2_lt_pow2 perm 10 ltac:(lia)) ltac:(lia)). pose proof (Z.log2_nonneg perm). lia.
  - change 1 with PTE_V at 2. rewrite has_V, <-Z.bit0_odd, Z.lor_spec. by rewrite orb_true_r.
Qed.

Lemma leaf_range_S t t1 t' va pa perm m :
  0 ≤ va < MAXVA → va mod 4096 = 0 → 0 ≤ perm < 1024 → p_leaf t1 = p_leaf t →
  leaf_range (set_leaf t1 (va / 4096) (mkpte pa (Z.lor perm PTE_V))) t' (va + 4096) (pa + 4096) perm m →
  leaf_range t t' va pa perm (S m).
Proof.
  intros Hva Hal Hperm Hleaf Hr v. rewrite Hr. assert ((va + 4096) / 4096 = va / 4096 + 1) as -> by zlia.
  destruct (perm_range perm Hperm) as [Hp1 Hp2]. cbn [set_leaf p_leaf].
  rewrite has_mkpte, Hp2, Hleaf by (change PTE_V with 1 in *; lia).
  destruct (decide (v = va / 4096)) as [->|Hne].
  - rewrite decide_False by lia. rewrite decide_True by lia. rewrite lookup_insert_eq. do 2 f_equal. lia.
  - rewrite lookup_insert_ne by lia. destruct (decide (va / 4096 + 1 ≤ v < _)), (decide (va / 4096 ≤ v < _)); try lia; [|done].
    do 2 f_equal. lia.
Qed.

Lemma map_step fuel k l t va last pa perm :
  vst k l t → 0 ≤ va < MAXVA → pa_ok pa → 0 ≤ perm < 1024 → p_leaf t !! (va / 4096) = None →
  (∃ k' t', mappages_loop (S fuel) (p_root t) va last pa perm k = Ok (-1) k' ∧
     grows k l t k' [] t' ∧ p_leaf t' = p_leaf t) ∨
  (∃ k' l' t', p_leaf t' = p_leaf t ∧
     grows k l t k' l' (set_leaf t' (va / 4096) (mkpte pa (Z.lor perm PTE_V))) ∧
     mappages_loop (S fuel) (p_root t) va last pa perm k =
       (if bool_decide (va = last) then mret 0
        else mappages_loop fuel (p_root t) (u64 (va + PGSIZE)) last (u64 (pa + PGSIZE)) perm) k').
Proof.
  intros Hv Hva Hpa Hperm Hfree. cbn [mappages_loop].
  destruct (walk_alloc k l t va Hv Hva) as (r & k1 & l1 & t1 & Hw & Hg & Hleaf & Hres).
  destruct Hres as [(-> & -> & Hs)|(p & Hs & ->)].
  { left. exists k1, t1. erewrite bind_ok by exact Hw. done. }
  right. destruct (leaf_page _ _ _ _ _ (gr_st _ _ _ _ _ _ Hg) Hs) as ([Hp0 Hp1] & _ & _ & _ & _).
  destruct (ld64_leaf _ _ _ _ _ (gr_st _ _ _ _ _ _ Hg) Hs Hva) as (v & Hld & Hent).
  rewrite Hleaf, Hfree in Hent. cbn in Hent.
  destruct (perm_range perm Hperm) as [Hpr _].
  destruct (st64_leaf _ _ _ _ _ (mkpte pa (Z.lor perm PTE_V)) (gr_st _ _ _ _ _ _ Hg) Hs Hva) as (k2 & Hst & Hg2).
  { by apply mkpte_range. }
  exists k2, l1, t1. split; [done|]. split; [by eapply grows_trans|].
  erewrite bind_ok by exact Hw. cbv beta.
  rewrite bool_decide_false by (pose proof (ix_range 0 va); lia).
  erewrite bind_ok by exact Hld. cbv beta. rewrite Hent, pte_make by done. by erewrite bind_ok by exact Hst.
Qed.

Lemma mappages_loop_spec n : ∀ k l t va pa perm,
  vst k l t → va mod 4096 = 0 → 0 ≤ va → va + 4096 * (Z.of_nat n + 1) ≤ MAXVA →
  pa_ok pa → pa + 4096 * (Z.of_nat n + 1) ≤ 2 ^ 54 → 0 ≤ perm < 1024 →
  (∀ i, 0 ≤ i ≤ Z.of_nat n → p_leaf t !! (va / 4096 + i) = None) →
  ∃ r k' l' t' m, mappages_loop (S n) (p_root t) va (va + 4096 * Z.of_nat n) pa perm k = Ok r k' ∧
    grows k l t k' l' t' ∧ leaf_range t t' va pa perm m ∧
    (r = 0 ∧ m = S n ∨ r = -1 ∧ l' = [] ∧ (m ≤ n)%nat).
Proof.
  change MAXVA with (2 ^ 38).
  induction n as [|n IH]; intros k l t va pa perm Hv Hal Hva Hmax Hpa Hpmax Hperm Hfree.
  all: match goal with |- context [mappages_loop (S ?f) _ _ ?last] =>
    destruct (map_step f k l t va last pa perm Hv ltac:(change MAXVA with (2 ^ 38); lia) Hpa Hperm
    ltac:(rewrite <-(Z.add_0_r (va / 4096)); apply Hfree; lia)) as
    [(k1 & t1 & -> & Hg & Hleaf)|(k1 & l1 & t1 & Hleaf & Hg & ->)];
    [exists (-1), k1, [], t1, 0%nat; split; [done|]; split; [done|]; split; [by apply leaf_range_0|]; right; split; [done|]; split; [done|lia]|] end.
  - rewrite bool_decide_true by lia. eexists _, _, _, _, 1%nat. split; [reflexivity|]. split; [exact Hg|].
    split; [|by left]. eapply leaf_range_S; [change MAXVA with (2 ^ 38); lia|done|done|exact Hleaf|by apply leaf_range_0].
  - rewrite bool_decide_false by lia. destruct Hpa as [Hpa1 Hpa2].
    rewrite (u64_id (va + PGSIZE)), (u64_id (pa + PGSIZE)) by (change PGSIZE with 4096; lia).
    change PGSIZE with 4096.
    destruct (IH k1 l1 _ (va + 4096) (pa + 4096) perm (gr_st _ _ _ _ _ _ Hg)) as (r & k2 & l2 & t2 & m & Hrun & Hg2 & Hlr & Hres);
      [zlia|lia|lia|split; zlia|lia|done| |].
    { intros i Hi. cbn [set_leaf p_leaf]. destruct (perm_range perm Hperm) as [Hp1 Hp2].
      rewrite has_mkpte, Hp2 by (change PTE_V with 1 in *; lia). assert ((va + 4096) / 4096 = va / 4096 + 1) as -> by zlia.
      rewrite lookup_insert_ne by lia. rewrite Hleaf, <-Z.add_assoc. apply Hfree. lia. }
    exists r, k2, l2, t2, (S m). split; [|split; [by eapply grows_trans|split]].
    + rewrite <-Hrun, <-(gr_root _ _ _ _ _ _ Hg).
      by replace (va + 4096 * Z.of_nat (S n)) with (va + 4096 + 4096 * Z.of_nat n) by lia.
    + eapply leaf_range_S; [change MAXVA with (2 ^ 38); lia|done|done|exact Hleaf|done].
    + destruct Hres as [[-> ->]|(-> & -> & ?)]; [by left|right; split; [done|split; [done|lia]]].
Qed.

(** The page table with no entry but its root. *)
Definition pt_empty (root : Z) : ptree := MkPt root ∅ ∅ ∅.
Lemma pt_empty_rep pm root : page_ok kend root → pm !! root = Some zeros → pt_rep pm (pt_empty root).
Proof.
  intros Hok Hpm.
  assert (Ht : ∀ g p, tbl (pt_empty root) g = Some p → g = TRoot ∧ p = root).
  { intros [|i2|i2 i1] p Hg; cbn in Hg; rewrite ?lookup_empty in Hg; by simplify_eq. }
  assert (Hz : ∀ i, 0 ≤ i < 512 → ent pm root i = 0).
  { intros i Hi. rewrite <-(ent_zeros pm root i Hi). unfold ent.
    by rewrite (lookup_total_correct _ _ _ Hpm), lookup_total_insert_eq. }
  split; cbn [p_l1 p_l0 p_leaf pt_empty p_root].
  - intros p [g [-> ->]%Ht]. exists zeros. split; [done|apply zeros_page].
  - intros i Hi. rewrite lookup_empty, Hz by done. done.
  - intros i2 p i1. by rewrite lookup_empty.
  - intros i2 i1 p i0. by rewrite lookup_empty.
  - intros i2 [? ?]. by rewrite lookup_empty in *.
  - intros i2 i1 [? ?]. by rewrite lookup_empty in *.
  - intros v [? ?]. by rewrite lookup_empty in *.
  - intros g g' p [-> _]%Ht [-> _]%Ht. done.
  - intros p [g [_ ->]%Ht]. done.
Qed.

Lemma has_flags w f : 0 ≤ f < 1024 → has (PTE_FLAGS w) f = has w f.
Proof.
  intros Hf. unfold has, PTE_FLAGS. rewrite <-Z.land_assoc, (Z.land_comm 0x3FF f).
  change 0x3FF with (Z.ones 10). rewrite (Z.land_ones f), Z.mod_small by lia. done.
Qed.
Lemma PTE_FLAGS_range w : 0 ≤ PTE_FLAGS w < 1024.
Proof. unfold PTE_FLAGS. change 0x3FF with (Z.ones 10). rewrite Z.land_ones by lia. zlia. Qed.
Lemma lor_V f : has f PTE_V = true → Z.lor f PTE_V = f.
Proof.
  rewrite has_V. change PTE_V with 1. intros Ho. apply Z.bits_inj'. intros i Hi. rewrite Z.lor_spec.
  destruct (Z.eq_dec i 0) as [->|]; [by rewrite Z.bit0_odd, Ho|].
  by rewrite (Z.bits_above_log2 1), orb_false_r by (cbn; lia).
Qed.
End rep.

End PageTable.
