(* ===== verification/UserMem.v ===== *)
(** User address spaces: what the routines of [kernel/vm.c] do to the memory a
    process sees.

    A page table is seen as a map from virtual page numbers to permission bits
    and page contents.  The pages below the trap frame belong to the process. *)

From S2P Require Import Prelude Riscv Kalloc Vm PageTable.
Import Kalloc Vm PageTable.

Local Open Scope Z_scope.

Module UserMem.

(** The page number of the trap frame: the process's own memory is below it. *)
Definition TFPN : Z := TRAPFRAME / 4096.
Definition PTE_RWX : Z := Z.lor PTE_R (Z.lor PTE_W PTE_X).

(** A page number of the process's own memory: its permission bits and bytes. *)
Definition aspace (k : kmem) (t : ptree) (v : Z) : option (Z * list Z) :=
  if decide (v < TFPN) then
    w ← p_leaf t !! v; x ← pmem k !! PTE2PA w; Some (PTE_FLAGS w, x)
  else None.

(** The physical pages of an address space. *)
Definition upage (t : ptree) (p : Z) : Prop :=
  is_table t p ∨ ∃ v w, v < TFPN ∧ p_leaf t !! v = Some w ∧ PTE2PA w = p.

Section user.
Context (kend : Z) (kend_pos : 0 < kend).
Notation page_ok := (Kalloc.page_ok kend).
Notation kinv := (Kalloc.kinv kend).
Notation vst := (PageTable.vst kend).

Record uspace (k : kmem) (l : list Z) (t : ptree) : Prop := {
  us_st : vst k l t;
  us_leaf v w : v < TFPN → p_leaf t !! v = Some w →
    page_ok (PTE2PA w) ∧ PTE2PA w ∉ l ∧ ¬ is_table t (PTE2PA w) ∧ has w PTE_RWX = true ∧
    ∃ x, pmem k !! PTE2PA w = Some x ∧ is_page x;
  us_inj v v' w w' : v < TFPN → v' < TFPN → p_leaf t !! v = Some w → p_leaf t !! v' = Some w' →
    PTE2PA w = PTE2PA w' → v = v';
  us_high v w : TFPN ≤ v → p_leaf t !! v = Some w → has w PTE_U = false;
}.

(** An operation on an address space neither leaks a page nor touches a page of
    anybody else. *)
Record ustep (k : kmem) (l : list Z) (t : ptree) (k' : kmem) (l' : list Z) (t' : ptree) : Prop := {
  st_space : uspace k' l' t';
  st_pages p : p ∈ l' ∨ upage t' p ↔ p ∈ l ∨ upage t p;
  st_frame q : ¬ (q ∈ l ∨ upage t q) → pmem k' !! q = pmem k !! q;
  st_root : p_root t' = p_root t;
  st_high v : TFPN ≤ v → p_leaf t' !! v = p_leaf t !! v;
}.

Lemma ustep_refl k l t : uspace k l t → ustep k l t k l t.
Proof. by intros Hu. Qed.
Lemma ustep_trans k l t k1 l1 t1 k2 l2 t2 :
  ustep k l t k1 l1 t1 → ustep k1 l1 t1 k2 l2 t2 → ustep k l t k2 l2 t2.
Proof.
  intros [H1 Hp1 Hf1 Hr1 Hh1] [H2 Hp2 Hf2 Hr2 Hh2]. split; [done| | |congruence|].
  - intros p. by rewrite Hp2, Hp1.
  - intros q Hq. rewrite Hf2, Hf1; [done|done|by rewrite Hp1].
  - intros v Hv. by rewrite Hh2, Hh1.
Qed.

Lemma aspace_None k l t v : uspace k l t → v < TFPN → aspace k t v = None ↔ p_leaf t !! v = None.
Proof.
  intros Hu Hv. unfold aspace. rewrite decide_True by done.
  destruct (p_leaf t !! v) as [w|] eqn:E; cbn; [|done].
  destruct (us_leaf _ _ _ Hu _ _ Hv E) as (_ & _ & _ & _ & x & Hx & _). by rewrite Hx.
Qed.

Lemma aspace_Some k l t v f x :
  uspace k l t → aspace k t v = Some (f, x) →
  v < TFPN ∧ ∃ w, p_leaf t !! v = Some w ∧ f = PTE_FLAGS w ∧ pmem k !! PTE2PA w = Some x ∧
    page_ok (PTE2PA w) ∧ PTE2PA w ∉ l ∧ ¬ is_table t (PTE2PA w) ∧ has w PTE_RWX = true ∧ is_page x.
Proof.
  intros Hu. unfold aspace. destruct (decide (v < TFPN)) as [Hv|]; [|done].
  destruct (p_leaf t !! v) as [w|] eqn:E; cbn; [|done].
  destruct (us_leaf _ _ _ Hu _ _ Hv E) as (? & ? & ? & ? & x' & Hx & ?). rewrite Hx. cbn. intros [= <- <-].
  split; [done|]. exists w. done.
Qed.

(** ** Pages between the allocator and the page table *)

(** [mem] was taken from the allocator and is not mapped. *)
Record limbo (k : kmem) (l : list Z) (t : ptree) (mem : Z) (x : list Z) : Prop := {
  lb_space : uspace k l t;
  lb_ok : page_ok mem;
  lb_free : mem ∉ l;
  lb_own : ¬ upage t mem;
  lb_mem : pmem k !! mem = Some x;
  lb_page : is_page x;
}.

(** Other memory may change without harm. *)
Lemma uspace_frame k l t k' l' :
  uspace k l t → kinv k' l' → (∀ p, upage t p → p ∉ l') →
  (∀ p, upage t p → pmem k' !! p = pmem k !! p) → uspace k' l' t.
Proof.
  intros [[Hk Hr Ha] Hlf Hinj Hhigh] Hk' Hap Hf. split; [split| |done|done].
  - done.
  - eapply pt_rep_frame; [done|]. intros p Hp. apply Hf. by left.
  - intros p Hp. apply Hap. by left.
  - intros v w Hv Hw. assert (Hu : upage t (PTE2PA w)) by (right; eauto).
    destruct (Hlf v w Hv Hw) as (? & ? & ? & ? & Hx). rewrite Hf by done. auto.
Qed.
Lemma aspace_frame k k' t v : (∀ p, upage t p → pmem k' !! p = pmem k !! p) → aspace k' t v = aspace k t v.
Proof.
  intros Hf. unfold aspace. destruct (decide (v < TFPN)); [|done].
  destruct (p_leaf t !! v) as [w|] eqn:E; cbn; [|done]. rewrite Hf; [done|]. right. eauto.
Qed.

Lemma upage_apart k l t p : uspace k l t → upage t p → p ∉ l.
Proof.
  intros Hu [Ht|(v & w & Hv & Hw & <-)].
  - by apply (vs_apart _ _ _ _ (us_st _ _ _ Hu)).
  - by apply (us_leaf _ _ _ Hu v w).
Qed.

Lemma take_page k mem l t x :
  uspace k (mem :: l) t → is_page x →
  ∃ k1 k2, kalloc k = Ok mem k1 ∧ store_page mem x k1 = Ok tt k2 ∧ limbo k2 l t mem x ∧
    (∀ q, q ≠ mem → pmem k1 !! q = pmem k !! q ∧ pmem k2 !! q = pmem k !! q).
Proof.
  intros Hu Hx. destruct (kalloc_page kend k mem l (vs_kinv _ _ _ _ (us_st _ _ _ Hu))) as (fl & y & Hrun & Hk1 & Hok & Hml & Hy).
  eexists _, _. split; [exact Hrun|]. split.
  { unfold store_page, mbind, M_bind, get. cbn [pmem]. rewrite lookup_insert_eq. reflexivity. }
  cbn [pmem]. split.
  - assert (Hne : ∀ p, upage t p → p ≠ mem ∧ p ∉ l).
    { intros p Hp. apply (upage_apart _ _ _ _ Hu) in Hp. by apply not_elem_of_cons in Hp. }
    split; cbn [pmem].
    + eapply uspace_frame; [exact Hu| |naive_solver|].
      * apply (kinv_write kend (MkKmem _ _)); [exact Hk1|done].
      * intros p Hp. cbn [pmem]. rewrite !lookup_insert_ne by (apply not_eq_sym, Hne, Hp). done.
    + done.
    + done.
    + intros Hm. by apply Hne in Hm as [? _].
    + by rewrite lookup_insert_eq.
    + done.
  - intros q Hq. by rewrite !lookup_insert_ne.
Qed.

Lemma give_page k l t mem x :
  limbo k l t mem x →
  ∃ k', kfree kend mem k = Ok tt k' ∧ uspace k' (mem :: l) t ∧ (∀ q, q ≠ mem → pmem k' !! q = pmem k !! q).
Proof.
  intros [Hu Hok Hfree Hown Hmem Hx].
  destruct (proj1 (wp_ok _ _ _) (kfree_spec kend kend_pos k l mem (vs_kinv _ _ _ _ (us_st _ _ _ Hu)) Hok Hfree ltac:(eauto)))
    as ([] & k' & Hrun & Hk' & Hf).
  exists k'. split; [done|]. split; [|done]. eapply uspace_frame; [exact Hu|done| |].
  - intros p Hp. apply not_elem_of_cons. split; [by intros ->|]. by eapply upage_apart.
  - intros p Hp. apply Hf. by intros ->.
Qed.

(** The address space of a new page table, as [uvmcreate] leaves it. *)
Lemma uspace_empty k l root :
  kinv k l → page_ok root → root ∉ l → pmem k !! root = Some zeros → uspace k l (pt_empty root).
Proof.
  intros Hk Hok Hl Hz. split; [split|..].
  - done.
  - by apply pt_empty_rep.
  - intros p [[|i2|i2 i1] Hg]; cbn in Hg; rewrite ?lookup_empty in Hg; by simplify_eq.
  - intros v w _. cbn. by rewrite lookup_empty.
  - intros v v' w w' _ _. cbn. by rewrite lookup_empty.
  - intros v w _. cbn. by rewrite lookup_empty.
Qed.

(** ** Growing the page table *)

Lemma grows_keep k l t k' l' t' p :
  grows kend k l t k' l' t' → ¬ is_table t p → p ∉ l → pmem k' !! p = pmem k !! p ∧ ¬ is_table t' p ∧ p ∉ l'.
Proof.
  intros [_ (used & -> & Ht) Hm _] Hp Hl. apply not_elem_of_app in Hl as [Hu Hl].
  assert (¬ is_table t' p) by (rewrite Ht; tauto). auto.
Qed.

Lemma grows_space k l t k' l' t' :
  uspace k l t → grows kend k l t k' l' t' → p_leaf t' = p_leaf t → uspace k' l' t'.
Proof.
  intros [Hst Hlf Hinj Hhigh] Hg Hleaf. split; rewrite ?Hleaf; [apply Hg| |done|done].
  intros v w Hv Hw. destruct (Hlf v w Hv Hw) as (Hok & Hl & Ht & Hf & x & Hx & Hp).
  destruct (grows_keep _ _ _ _ _ _ _ Hg Ht Hl) as (Hm & Ht' & Hl'). rewrite Hm. eauto 10.
Qed.

Lemma has_lor a b f : has (Z.lor a b) f = (has a f || has b f)%bool.
Proof.
  unfold has. rewrite Z.land_lor_distr_l.
  destruct (decide (Z.land a f = 0)) as [Ha|Ha], (decide (Z.land b f = 0)) as [Hb|Hb];
    rewrite ?(bool_decide_true _ Ha), ?(bool_decide_false _ Ha), ?(bool_decide_true _ Hb), ?(bool_decide_false _ Hb); cbn.
  - by rewrite Ha, Hb.
  - rewrite bool_decide_false; [done|]. by intros [_ ?]%Z.lor_eq_0_iff.
  - rewrite bool_decide_false; [done|]. by intros [? _]%Z.lor_eq_0_iff.
  - rewrite bool_decide_false; [done|]. by intros [? _]%Z.lor_eq_0_iff.
Qed.

Lemma TFPN_val : TFPN = 2 ^ 26 - 2.
Proof. done. Qed.

Lemma mapped_space k l t mem x k' l' t' v0 perm :
  limbo k l t mem x → grows kend k l t k' l' t' → v0 < TFPN → 0 ≤ perm < 1024 → has perm PTE_RWX = true →
  p_leaf t' = <[v0 := mkpte mem (Z.lor perm PTE_V)]> (p_leaf t) → uspace k' l' t'.
Proof.
  intros [[Hst Hlf Hinj Hhigh] Hok Hfree Hown Hmem Hx] Hg Hv0 Hperm Hrwx Hleaf.
  destruct (perm_range perm Hperm) as [Hpr _]. pose proof (page_ok_pa kend kend_pos mem Hok) as [Hpa _].
  assert (Hpte : PTE2PA (mkpte mem (Z.lor perm PTE_V)) = mem) by (by apply mkpte_pa).
  split; rewrite ?Hleaf; [apply Hg|..].
  - intros v w Hv [[<- <-]|[Hne Hw]]%lookup_insert_Some.
    + rewrite Hpte. destruct (grows_keep _ _ _ _ _ _ mem Hg) as (Hm & Ht' & Hl'); [intros ?; apply Hown; by left|done|].
      rewrite Hm. split; [done|]. split; [done|]. split; [done|]. split; [|eauto].
      rewrite has_mkpte, has_lor, Hrwx by (done || lia). done.
    + destruct (Hlf v w Hv Hw) as (Hok' & Hl & Ht & Hf & y & Hy & Hp).
      destruct (grows_keep _ _ _ _ _ _ _ Hg Ht Hl) as (Hm & Ht' & Hl'). rewrite Hm. eauto 10.
  - intros v v' w w' Hv Hv' [[<- <-]|[Hne Hw]]%lookup_insert_Some [[<- <-]|[Hne' Hw']]%lookup_insert_Some; [done| | |by eapply Hinj].
    + rewrite Hpte. intros Heq. destruct Hown. right. eauto.
    + rewrite Hpte. intros Heq. destruct Hown. right. eauto.
  - intros v w Hv. rewrite lookup_insert_ne by lia. by apply Hhigh.
Qed.

Lemma map_page k l t mem x va perm :
  limbo k l t mem x → va mod 4096 = 0 → 0 ≤ va → va / 4096 < TFPN → p_leaf t !! (va / 4096) = None →
  0 ≤ perm < 1024 → has perm PTE_RWX = true →
  ∃ r k' l' t', mappages (p_root t) va PGSIZE mem perm k = Ok r k' ∧ grows kend k l t k' l' t' ∧
    (r = 0 ∧ uspace k' l' t' ∧ p_leaf t' = <[va / 4096 := mkpte mem (Z.lor perm PTE_V)]> (p_leaf t) ∧ pmem k' !! mem = Some x ∨
     r = -1 ∧ limbo k' l' t' mem x ∧ p_leaf t' = p_leaf t).
Proof.
  intros Hlb Hal Hva Hlow Hfree Hperm Hrwx. pose proof Hlb as [Hu Hok Hml Hown Hmem Hx].
  rewrite TFPN_val in Hlow. assert (MAXVA = 2 ^ 38) as Hmv by done. pose proof (page_ok_pa kend kend_pos mem Hok) as [Hpa _].
  assert (Hmk : ¬ is_table t mem) by (intros ?; apply Hown; by left).
  destruct (mappages_loop_spec kend kend_pos 0 k l t va mem perm) as (r & k' & l' & t' & m & Hrun & Hg & Hlr & Hres);
    [apply Hu|done|done|rewrite Hmv; zlia|done|destruct Hok as [_ [_ ?]]; change PHYSTOP with 0x88000000 in *; lia|done| |].
  { intros i Hi. by replace (va / 4096 + i) with (va / 4096) by lia. }
  destruct (grows_keep _ _ _ _ _ _ mem Hg Hmk Hml) as (Hm & Ht' & Hl').
  exists r, k', l', t'. split.
  { unfold mappages. change PGSIZE with 4096. rewrite bool_decide_false by lia. do 2 rewrite bool_decide_false by (vm_compute; congruence).
    rewrite u64_id by lia. rewrite <-Hrun. by replace (va + 4096 - 4096) with (va + 4096 * Z.of_nat 0) by lia. }
  split; [done|]. destruct Hres as [[-> ->]|(-> & -> & Hm0)].
  - assert (Hleaf : p_leaf t' = <[va / 4096 := mkpte mem (Z.lor perm PTE_V)]> (p_leaf t)).
    { apply map_eq. intros v. rewrite Hlr. destruct (decide (v = va / 4096)) as [->|].
      - rewrite lookup_insert_eq, decide_True by lia. do 2 f_equal. lia.
      - by rewrite lookup_insert_ne, decide_False by lia. }
    left. split; [done|]. split; [by eapply mapped_space; [done|done|by rewrite TFPN_val|done|done|exact Hleaf]|]. split; [done|congruence].
  - assert (Hleaf : p_leaf t' = p_leaf t).
    { apply map_eq. intros v. rewrite Hlr. by rewrite decide_False by lia. }
    right. split; [done|]. split; [|done]. split; [by eapply grows_space|done|done| |congruence|done].
    intros [?|(v & w & Hv & Hw & Heq)]; [done|]. apply Hown. right. rewrite Hleaf in Hw. eauto.
Qed.

Lemma grows_pages k l t k' l' t' p :
  grows kend k l t k' l' t' → p_leaf t' = p_leaf t → (p ∈ l' ∨ upage t' p ↔ p ∈ l ∨ upage t p).
Proof.
  intros [_ (used & -> & Ht) _ _] Hleaf. unfold upage. rewrite Ht, Hleaf, elem_of_app. tauto.
Qed.
Lemma grows_pages_mapped k l t k' l' t' p v0 w :
  grows kend k l t k' l' t' → v0 < TFPN → p_leaf t !! v0 = None → p_leaf t' = <[v0 := w]> (p_leaf t) →
  (p ∈ l' ∨ upage t' p ↔ p ∈ PTE2PA w :: l ∨ upage t p).
Proof.
  intros [_ (used & -> & Ht) _ _] Hv0 Hnone Hleaf. unfold upage. rewrite Ht, Hleaf, elem_of_cons, elem_of_app. split.
  - intros [?|[[?|?]|(v & w' & Hv & [[<- <-]|[Hne Hw]]%lookup_insert_Some & <-)]]; eauto 10.
  - intros [[->|[?|?]]|[?|(v & w' & Hv & Hw & <-)]]; eauto 10.
    + right. right. exists v0, w. by rewrite lookup_insert_eq.
    + right. right. exists v, w'. rewrite lookup_insert_ne by congruence. done.
Qed.

Lemma grows_aspace k l t k' l' t' v :
  uspace k l t → grows kend k l t k' l' t' → p_leaf t' !! v = p_leaf t !! v → aspace k' t' v = aspace k t v.
Proof.
  intros Hu Hg Hleaf. unfold aspace. destruct (decide (v < TFPN)) as [Hv|]; [|done]. rewrite Hleaf.
  destruct (p_leaf t !! v) as [w|] eqn:E; [|done]. cbn.
  destruct (us_leaf _ _ _ Hu v w Hv E) as (_ & Hl & Ht & _).
  by destruct (grows_keep _ _ _ _ _ _ _ Hg Ht Hl) as (-> & _).
Qed.

(** Taking a page, filling it with [x] and mapping it at [va]: how [uvmalloc] and
    [uvmcopy] extend an address space. *)
Definition alloc_map {A} (x : list Z) (root va perm : Z) (fail cont : M kmem A) : M kmem A :=
  mem ← kalloc;
  if bool_decide (mem = 0) then fail else
  store_page mem x;;
  r ← mappages root va PGSIZE mem perm;
  if bool_decide (r ≠ 0) then kfree kend mem;; fail else cont.

(** [k'] and [t'] show the address space of [k] and [t], with page [v0] set to [o]. *)
Definition aupdate (k : kmem) (t : ptree) (v0 : Z) (o : option (Z * list Z)) (k' : kmem) (t' : ptree) : Prop :=
  ∀ v, aspace k' t' v = if decide (v = v0) then o else aspace k t v.
Definition asame (k : kmem) (t : ptree) (k' : kmem) (t' : ptree) : Prop := ∀ v, aspace k' t' v = aspace k t v.

Lemma alloc_map_spec {A} x va perm (fail cont : M kmem A) k l t :
  uspace k l t → is_page x → va mod 4096 = 0 → 0 ≤ va → va / 4096 < TFPN → aspace k t (va / 4096) = None →
  0 ≤ perm < 1024 → has perm PTE_RWX = true →
  (∃ k' l' t', ustep k l t k' l' t' ∧ asame k t k' t' ∧ alloc_map x (p_root t) va perm fail cont k = fail k') ∨
  (∃ k' l' t', ustep k l t k' l' t' ∧ aupdate k t (va / 4096) (Some (Z.lor perm PTE_V, x)) k' t' ∧
     alloc_map x (p_root t) va perm fail cont k = cont k').
Proof.
  intros Hu Hx Hal Hva Hlow Hnone Hperm Hrwx. unfold alloc_map. destruct l as [|mem l].
  { left. exists k, [], t. split; [by apply ustep_refl|]. split; [done|].
    erewrite bind_ok by (apply (kalloc_empty kend), (us_st _ _ _ Hu)). done. }
  destruct (take_page k mem l t x Hu Hx) as (k1 & k2 & Hrun1 & Hrun2 & Hlb & Hf).
  pose proof (page_ok_pa kend kend_pos mem (lb_ok _ _ _ _ _ Hlb)) as [Hpa Hm0].
  apply (aspace_None k (mem :: l) t) in Hnone; [|done|done].
  assert (Has : asame k t k2 t).
  { intros v. apply aspace_frame. intros p Hp. apply Hf. intros ->. by apply (lb_own _ _ _ _ _ Hlb). }
  destruct (map_page k2 l t mem x va perm) as (r & k3 & l3 & t3 & Hrun3 & Hg & Hres); [done..|].
  erewrite bind_ok by exact Hrun1. cbv beta. rewrite bool_decide_false by done. erewrite bind_ok by exact Hrun2.
  cbv beta. erewrite bind_ok by exact Hrun3. cbv beta. destruct (perm_range perm Hperm) as [Hpr _].
  assert (Hframe : ∀ q, ¬ (q ∈ mem :: l ∨ upage t q) → pmem k3 !! q = pmem k !! q).
  { intros q Hq. destruct (grows_keep _ _ _ _ _ _ q Hg) as (-> & _); [intros ?; apply Hq; right; by left|set_solver|].
    apply Hf. set_solver. }
  destruct Hres as [(-> & Hu3 & Hleaf & Hmem)|(-> & Hlb3 & Hleaf)].
  - right. exists k3, l3, t3. split; [|split; [|done]].
    + split; [done| |done|apply Hg|intros v Hv; by rewrite Hleaf, lookup_insert_ne by lia].
      intros p. rewrite (grows_pages_mapped _ _ _ _ _ _ p _ _ Hg Hlow Hnone Hleaf). by rewrite mkpte_pa.
    + intros v. destruct (decide (v = va / 4096)) as [->|Hne].
      * unfold aspace. rewrite decide_True by done. rewrite Hleaf, lookup_insert_eq. cbn.
        rewrite mkpte_pa, mkpte_flags, Hmem by done. done.
      * rewrite <-Has. eapply grows_aspace; [apply Hlb|done|]. by rewrite Hleaf, lookup_insert_ne.
  - left. destruct (give_page _ _ _ _ _ Hlb3) as (k4 & Hrun4 & Hu4 & Hf4). exists k4, (mem :: l3), t3.
    rewrite bool_decide_true by done. split; [|split; [|by erewrite bind_ok by exact Hrun4]].
    + split; [done| | |apply Hg|by rewrite Hleaf].
      * intros p. pose proof (grows_pages _ _ _ _ _ _ p Hg Hleaf). rewrite !elem_of_cons. tauto.
      * intros q Hq. rewrite Hf4 by set_solver. auto.
    + intros v. rewrite <-Has, <-(grows_aspace _ _ _ _ _ _ v (lb_space _ _ _ _ _ Hlb) Hg) by (by rewrite Hleaf).
      apply aspace_frame. intros p Hp. apply Hf4. intros ->. by apply (lb_own _ _ _ _ _ Hlb3).
Qed.

(** ** Unmapping *)

Lemma mapped_slot k l t va w :
  vst k l t → 0 ≤ va < MAXVA → p_leaf t !! (va / 4096) = Some w →
  ∃ p, walk (p_root t) va false k = Ok (p + 8 * ix 0 va) k ∧ p + 8 * ix 0 va ≠ 0 ∧ slot t va = Some p ∧
    ld64 (p + 8 * ix 0 va) k = Ok w k ∧ has w PTE_V = true.
Proof.
  intros Hv Hva Hw. pose proof (walk_lookup kend kend_pos k t va (vs_rep _ _ _ _ Hv) Hva) as Hwalk.
  destruct (slot t va) as [p|] eqn:Hs.
  2:{ rewrite (slot_none kend t (pmem k) va (vs_rep _ _ _ _ Hv) Hva Hs) in Hw. done. }
  exists p. destruct (leaf_page kend kend_pos _ _ _ _ _ Hv Hs) as ([_ Hok] & _).
  destruct (ld64_leaf kend kend_pos _ _ _ _ _ Hv Hs Hva) as (v & Hld & Hent). rewrite Hw in Hent. destruct Hent as [-> HV].
  pose proof (ix_range 0 va). split; [done|]. split; [lia|]. done.
Qed.

Lemma low_MAXVA va : 0 ≤ va → va / 4096 < TFPN → 0 ≤ va < MAXVA.
Proof. rewrite TFPN_val. change MAXVA with (2 ^ 38). zlia. Qed.

Lemma rwx_not_V w : has w PTE_RWX = true → PTE_FLAGS w ≠ PTE_V.
Proof. intros Hrwx Heq. by rewrite <-has_flags, Heq in Hrwx by done. Qed.

(** Clearing the entry of a page that was given back. *)
Lemma unmapped_space k l t k1 k2 v0 w :
  uspace k l t → v0 < TFPN → p_leaf t !! v0 = Some w → vst k1 (PTE2PA w :: l) t →
  (∀ q, q ≠ PTE2PA w → pmem k1 !! q = pmem k !! q) →
  grows kend k1 (PTE2PA w :: l) t k2 (PTE2PA w :: l) (set_leaf t v0 0) →
  ustep k l t k2 (PTE2PA w :: l) (set_leaf t v0 0) ∧ aupdate k t v0 None k2 (set_leaf t v0 0).
Proof.
  intros Hu Hv0 Hw Hv1 Hf Hg. pose proof Hu as [Hst Hlf Hinj Hhigh].
  assert (Hdel : p_leaf (set_leaf t v0 0) = delete v0 (p_leaf t)) by done.
  assert (Hkeep : ∀ v w', v < TFPN → v ≠ v0 → p_leaf t !! v = Some w' →
    PTE2PA w' ≠ PTE2PA w ∧ pmem k2 !! PTE2PA w' = pmem k !! PTE2PA w').
  { intros v w' Hv Hne Hw'. destruct (Hlf v w' Hv Hw') as (_ & Hl & Ht & _).
    assert (Hp : PTE2PA w' ≠ PTE2PA w) by (intros Heq; by apply Hne, (Hinj v v0 w' w)).
    split; [done|]. destruct (grows_keep _ _ _ _ _ _ (PTE2PA w') Hg) as (-> & _); [done|by apply not_elem_of_cons|]. by apply Hf. }
  split; [split|].
  - split; rewrite ?Hdel; [apply Hg|..].
    + intros v w' Hv [Hne Hw']%lookup_delete_Some. destruct (Hlf v w' Hv Hw') as (Hok & Hl & Ht & Hrwx & x & Hx & Hpx).
      destruct (Hkeep v w' Hv (not_eq_sym Hne) Hw') as [Hp Hm]. rewrite Hm, is_table_set_leaf, not_elem_of_cons. eauto 10.
    + intros v v' w1 w2 Hv Hv' [_ H1]%lookup_delete_Some [_ H2]%lookup_delete_Some. by eapply Hinj.
    + intros v w' Hv [_ Hw']%lookup_delete_Some. by eapply Hhigh.
  - intros p. unfold upage. rewrite is_table_set_leaf, Hdel, elem_of_cons. split.
    + intros [[->|?]|[?|(v & w' & Hv & [_ Hw']%lookup_delete_Some & <-)]]; eauto 10.
    + intros [?|[?|(v & w' & Hv & Hw' & <-)]]; eauto 10. destruct (decide (v = v0)) as [->|Hne].
      * left. left. congruence.
      * right. right. exists v, w'. rewrite lookup_delete_ne by done. done.
  - intros q Hq. assert (q ≠ PTE2PA w) by (intros ->; apply Hq; right; right; eauto).
    destruct (grows_keep _ _ _ _ _ _ q Hg) as (-> & _); [intros ?; apply Hq; right; by left|apply not_elem_of_cons; naive_solver|auto].
  - done.
  - intros v Hv. rewrite Hdel. by rewrite lookup_delete_ne by lia.
  - intros v. unfold aspace at 1. rewrite Hdel. destruct (decide (v = v0)) as [->|Hne].
    + rewrite lookup_delete_eq. by destruct (decide (v0 < TFPN)).
    + unfold aspace. rewrite lookup_delete_ne by done. destruct (decide (v < TFPN)) as [Hv|]; [|done].
      destruct (p_leaf t !! v) as [w'|] eqn:Hw'; [|done]. cbn. by destruct (Hkeep v w' Hv Hne Hw') as [_ ->].
Qed.

Lemma unmap_step fuel k l t va stop :
  uspace k l t → is_Some (aspace k t (va / 4096)) → 0 ≤ va < stop →
  ∃ k' l' t', ustep k l t k' l' t' ∧ aupdate k t (va / 4096) None k' t' ∧
    uvmunmap_loop kend (S fuel) (p_root t) va stop true k =
    uvmunmap_loop kend fuel (p_root t) (u64 (va + PGSIZE)) stop true k'.
Proof.
  intros Hu [[f x] Has] Hva. destruct (aspace_Some _ _ _ _ _ _ Hu Has) as (Hlow & w & Hw & -> & Hx & Hok & Hl & Ht & Hrwx & Hpx).
  pose proof (low_MAXVA va ltac:(lia) Hlow) as Hmax.
  destruct (mapped_slot _ _ _ _ _ (us_st _ _ _ Hu) Hmax Hw) as (p & Hwalk & Hp0 & Hs & Hld & HV).
  destruct (proj1 (wp_ok _ _ _) (kfree_spec kend kend_pos k l _ (vs_kinv _ _ _ _ (us_st _ _ _ Hu)) Hok Hl ltac:(eauto)))
    as ([] & k1 & Hrun & Hk1 & Hf).
  assert (Hv1 : vst k1 (PTE2PA w :: l) t).
  { split; [done| |].
    - eapply pt_rep_frame; [apply Hu|]. intros q Hq. apply Hf. by intros ->.
    - intros q Hq. apply not_elem_of_cons. split; [by intros ->|]. by apply (us_st _ _ _ Hu). }
  destruct (st64_leaf kend kend_pos k1 _ t va p 0 Hv1 Hs Hmax ltac:(lia)) as (k2 & Hst & Hg).
  destruct (unmapped_space k l t k1 k2 (va / 4096) w) as [Hstep Hupd]; [done..|].
  exists k2, (PTE2PA w :: l), (set_leaf t (va / 4096) 0). split; [done|]. split; [done|].
  cbn [uvmunmap_loop]. rewrite bool_decide_true by lia. erewrite bind_ok by exact Hwalk. cbv beta.
  rewrite bool_decide_false by done. erewrite bind_ok by exact Hld. cbv beta. rewrite HV. cbn [negb].
  rewrite bool_decide_false by (by apply rwx_not_V). erewrite bind_ok by exact Hrun. by erewrite bind_ok by exact Hst.
Qed.

(** Clearing the pages [v0, v0 + n). *)
Definition aclear (k : kmem) (t : ptree) (v0 n : Z) (k' : kmem) (t' : ptree) : Prop :=
  ∀ v, aspace k' t' v = if decide (v0 ≤ v < v0 + n) then None else aspace k t v.

Lemma uvmunmap_loop_spec n : ∀ k l t va,
  uspace k l t → va mod 4096 = 0 → 0 ≤ va → (∀ i, 0 ≤ i < Z.of_nat n → is_Some (aspace k t (va / 4096 + i))) →
  ∃ k' l' t', uvmunmap_loop kend n (p_root t) va (va + 4096 * Z.of_nat n) true k = Ok tt k' ∧
    ustep k l t k' l' t' ∧ aclear k t (va / 4096) (Z.of_nat n) k' t'.
Proof.
  induction n as [|n IH]; intros k l t va Hu Hal Hva Hmapped.
  { exists k, l, t. split; [cbn [uvmunmap_loop]; by rewrite bool_decide_false by lia|]. split; [by apply ustep_refl|].
    intros v. by rewrite decide_False by lia. }
  destruct (unmap_step n k l t va (va + 4096 * Z.of_nat (S n)) Hu) as (k1 & l1 & t1 & Hstep & Hupd & ->);
    [rewrite <-(Z.add_0_r (va / 4096)); apply Hmapped; lia|lia|].
  assert (Hlow : va / 4096 < TFPN).
  { destruct (Hmapped 0) as [[f x] Hx]; [lia|]. rewrite Z.add_0_r in Hx. by apply (aspace_Some k l) in Hx as [? _]. }
  pose proof (low_MAXVA va Hva Hlow) as Hmax. change MAXVA with (2 ^ 38) in Hmax. change PGSIZE with 4096. rewrite u64_id by lia.
  assert (Hd : (va + 4096) / 4096 = va / 4096 + 1) by zlia.
  destruct (IH k1 l1 t1 (va + 4096)) as (k2 & l2 & t2 & Hrun & Hstep2 & Hclr); [apply Hstep|zlia|lia| |].
  { intros i Hi. rewrite Hupd, Hd, decide_False, <-Z.add_assoc by lia. apply Hmapped. lia. }
  exists k2, l2, t2. split; [|split; [by eapply ustep_trans|]].
  - rewrite <-Hrun, (st_root _ _ _ _ _ _ Hstep).
    by replace (va + 4096 * Z.of_nat (S n)) with (va + 4096 + 4096 * Z.of_nat n) by lia.
  - intros v. rewrite Hclr, Hupd, Hd. repeat destruct (decide _); done || lia.
Qed.

Lemma uvmunmap_free k l t va n :
  uspace k l t → va mod 4096 = 0 → 0 ≤ va → 0 ≤ n → va + 4096 * n ≤ TRAPFRAME →
  (∀ i, 0 ≤ i < n → is_Some (aspace k t (va / 4096 + i))) →
  ∃ k' l' t', uvmunmap kend (p_root t) va n true k = Ok tt k' ∧ ustep k l t k' l' t' ∧ aclear k t (va / 4096) n k' t'.
Proof.
  intros Hu Hal Hva Hn Hmax Hm. change TRAPFRAME with (2 ^ 38 - 8192) in Hmax.
  destruct (uvmunmap_loop_spec (Z.to_nat n) k l t va) as (k' & l' & t' & Hrun & Hstep & Hclr); [done..| |].
  { intros i Hi. apply Hm. lia. }
  rewrite Z2Nat.id in * by done. exists k', l', t'. split; [|done].
  unfold uvmunmap. change PGSIZE with 4096. rewrite bool_decide_false by lia. rewrite u64_id by lia.
  rewrite <-Hrun. by replace (va + n * 4096) with (va + 4096 * n) by lia.
Qed.

(** The number of pages of [sz] bytes. *)
Definition npages (sz : Z) : Z := (sz + 4095) / 4096.
Lemma PGROUNDUP_npages sz : 0 ≤ sz ≤ TRAPFRAME → PGROUNDUP sz = 4096 * npages sz ∧ 0 ≤ npages sz ≤ TFPN.
Proof.
  change TRAPFRAME with (2 ^ 38 - 8192). rewrite TFPN_val. intros Hs. unfold npages. rewrite PGROUNDUP_div by lia. zlia.
Qed.

Lemma uvmdealloc_spec k l t oldsz newsz :
  uspace k l t → 0 ≤ newsz ≤ TRAPFRAME → 0 ≤ oldsz ≤ TRAPFRAME →
  (∀ v, npages newsz ≤ v < npages oldsz → is_Some (aspace k t v)) →
  ∃ k' l' t', uvmdealloc kend (p_root t) oldsz newsz k = Ok (Z.min oldsz newsz) k' ∧ ustep k l t k' l' t' ∧
    aclear k t (npages newsz) (npages oldsz - npages newsz) k' t'.
Proof.
  intros Hu Hn Ho Hm. destruct (PGROUNDUP_npages _ Hn) as [Hn1 Hn2], (PGROUNDUP_npages _ Ho) as [Ho1 Ho2].
  rewrite TFPN_val in *.
  assert (Hsame : npages oldsz ≤ npages newsz → aclear k t (npages newsz) (npages oldsz - npages newsz) k t).
  { intros Hle v. by rewrite decide_False by lia. }
  unfold uvmdealloc. case_bool_decide as Hge.
  { exists k, l, t. split; [by rewrite Z.min_l by lia|]. split; [by apply ustep_refl|]. apply Hsame. unfold npages. zlia. }
  rewrite Hn1, Ho1, Z.min_r by lia. case_bool_decide as Hlt; cbn [when].
  2:{ exists k, l, t. split; [done|]. split; [by apply ustep_refl|]. apply Hsame. lia. }
  replace ((4096 * npages oldsz - 4096 * npages newsz) / PGSIZE) with (npages oldsz - npages newsz) by (change PGSIZE with 4096; zlia).
  rewrite s32_id, u64_id by lia. change TRAPFRAME with (2 ^ 38 - 8192) in *.
  destruct (uvmunmap_free k l t (4096 * npages newsz) (npages oldsz - npages newsz)) as (k' & l' & t' & Hrun & Hstep & Hclr);
    [done|zlia|lia|lia|change TRAPFRAME with (2 ^ 38 - 8192); lia| |].
  { intros i Hi. apply Hm. zlia. }
  replace (4096 * npages newsz / 4096) with (npages newsz) in Hclr by zlia.
  exists k', l', t'. split; [|done]. by erewrite bind_ok by exact Hrun.
Qed.

(** ** Growing *)

(** Pages [b, b + j) filled with zeros, with permissions [f]. *)
Definition afill (k : kmem) (t : ptree) (b j f : Z) (k' : kmem) (t' : ptree) : Prop :=
  ∀ v, aspace k' t' v = if decide (b ≤ v < b + j) then Some (f, zeros) else aspace k t v.

Definition uperm (xperm : Z) : Z := Z.lor (Z.lor PTE_R PTE_U) xperm.

Lemma uvmalloc_step {A} (fail cont : M kmem A) root a xperm k :
  (mem ← kalloc;
   if bool_decide (mem = 0) then fail else
   zero_page mem;;
   r ← mappages root a PGSIZE mem (Z.lor (Z.lor PTE_R PTE_U) xperm);
   if bool_decide (r ≠ 0) then kfree kend mem;; fail else cont) k =
  alloc_map zeros root a (uperm xperm) fail cont k.
Proof. done. Qed.

Lemma uvmalloc_undo k0 l0 t0 k l t b j f :
  ustep k0 l0 t0 k l t → afill k0 t0 b j f k t → (∀ v, b ≤ v < b + j → aspace k0 t0 v = None) →
  0 ≤ b → 0 ≤ j → b + j ≤ TFPN →
  ∃ k' l' t', (uvmdealloc kend (p_root t) (4096 * (b + j)) (4096 * b);; mret 0) k = Ok 0 k' ∧
    ustep k0 l0 t0 k' l' t' ∧ asame k0 t0 k' t'.
Proof.
  intros Hstep Hfill Hnone Hb Hj Hlow. rewrite TFPN_val in Hlow.
  assert (Hnp : ∀ z, npages (4096 * z) = z) by (intros; unfold npages; zlia).
  assert (Htf : TRAPFRAME = 2 ^ 38 - 8192) by done.
  destruct (uvmdealloc_spec k l t (4096 * (b + j)) (4096 * b)) as (k' & l' & t' & Hrun & Hst & Hclr);
    [apply Hstep|lia|lia| |].
  { intros v. rewrite !Hnp. intros Hv. rewrite Hfill, decide_True by lia. eauto. }
  rewrite !Hnp in Hclr. exists k', l', t'. split; [by erewrite bind_ok by exact Hrun|]. split; [by eapply ustep_trans|].
  intros v. rewrite Hclr, Hfill. repeat destruct (decide _); try done; try lia. symmetry. apply Hnone. lia.
Qed.

(** Memory ends at [PHYSTOP]. *)
Lemma pages_bound k l t n : uspace k l t → (∀ v, 0 ≤ v < n → is_Some (aspace k t v)) → n ≤ 0x88000.
Proof.
  intros Hu Hsome. set (pg v := PTE2PA (default 0 (p_leaf t !! v))).
  assert (Hleaf : ∀ v, 0 ≤ v < n → ∃ w, p_leaf t !! v = Some w ∧ v < TFPN ∧ page_ok (pg v)).
  { intros v Hv. destruct (Hsome v Hv) as [[f x] Hx]. apply (aspace_Some k l t) in Hx as (Hlt & w & Hw & _); [|done].
    exists w. split; [done|]. split; [done|]. unfold pg. rewrite Hw. by apply (us_leaf _ _ _ Hu v w). }
  assert (Hnd : NoDup ((λ v, pg v / 4096) <$> seqZ 0 n)).
  { apply NoDup_fmap_2_strong; [|apply NoDup_seqZ]. intros v v' Hv%elem_of_seqZ Hv'%elem_of_seqZ Heq.
    destruct (Hleaf v ltac:(lia)) as (w & Hw & Hlt & [Hal _]), (Hleaf v' ltac:(lia)) as (w' & Hw' & Hlt' & [Hal' _]).
    apply (us_inj _ _ _ Hu v v' w w'); try done. change PGSIZE with 4096 in *.
    unfold pg in *. rewrite Hw, Hw' in *. cbn in *. zlia. }
  assert (Hsub : (λ v, pg v / 4096) <$> seqZ 0 n ⊆+ seqZ 0 0x88000).
  { apply NoDup_submseteq; [done|]. intros x (v & -> & Hv%elem_of_seqZ)%list_elem_of_fmap. apply elem_of_seqZ.
    destruct (Hleaf v ltac:(lia)) as (w & Hw & Hlt & [_ Hr]). change PHYSTOP with 0x88000000 in Hr. zlia. }
  apply submseteq_length in Hsub. rewrite length_fmap, !length_seqZ in Hsub. lia.
Qed.

(** However large [newsz] is, memory runs out before the user part of the address
    space does. *)
Lemma uvmalloc_loop_spec n : ∀ k0 l0 t0 k l t b j newsz xperm,
  ustep k0 l0 t0 k l t → afill k0 t0 b j (Z.lor (uperm xperm) PTE_V) k t →
  (∀ v, b ≤ v < b + j + Z.of_nat n → aspace k0 t0 v = None) → 0 ≤ b → 0 ≤ j →
  b + j + Z.of_nat n ≤ TFPN ∨ (∀ v, 0 ≤ v < b → is_Some (aspace k0 t0 v)) →
  0 ≤ xperm < 1024 → 4096 * (b + j + Z.of_nat n) - 4096 < newsz ≤ 4096 * (b + j + Z.of_nat n) →
  ∃ r k' l' t', uvmalloc_loop kend n (p_root t) (4096 * b) (4096 * (b + j)) newsz xperm k = Ok r k' ∧
    ustep k0 l0 t0 k' l' t' ∧
    (r = newsz ∧ afill k0 t0 b (j + Z.of_nat n) (Z.lor (uperm xperm) PTE_V) k' t' ∨ r = 0 ∧ asame k0 t0 k' t').
Proof.
  induction n as [|n IH]; intros k0 l0 t0 k l t b j newsz xperm Hstep Hfill Hnone Hb Hj Hlow Hx Hsz.
  { exists newsz, k, l, t. cbn [uvmalloc_loop]. rewrite bool_decide_false by lia. split; [done|]. split; [done|].
    left. split; [done|]. by rewrite Z.add_0_r. }
  cbn [uvmalloc_loop]. rewrite bool_decide_true by lia. rewrite uvmalloc_step.
  assert (Hfit : b + j + 1 ≤ 2 ^ 26 - 2).
  { destruct Hlow as [Hlow|Hlow]; [rewrite TFPN_val in Hlow; lia|]. assert (b + j ≤ 0x88000); [|lia].
    apply (pages_bound k l t); [apply Hstep|]. intros v Hv. rewrite Hfill. destruct (decide _); [eauto|]. apply Hlow. lia. }
  assert (Hperm : 0 ≤ uperm xperm < 1024 ∧ has (uperm xperm) PTE_RWX = true).
  { unfold uperm. rewrite has_lor. split; [|done]. split; [apply Z.lor_nonneg; by split; [|lia]|].
    destruct (Z.eq_dec xperm 0) as [->|]; [done|].
    apply (Z.log2_lt_cancel _ 1024). rewrite Z.log2_lor by (done || lia). change (Z.log2 1024) with 10.
    apply Z.max_lub_lt; [done|]. apply Z.log2_lt_pow2; lia. }
  destruct Hperm as [Hp1 Hp2].
  assert (Hd : 4096 * (b + j) / 4096 = b + j) by zlia.
  destruct (alloc_map_spec zeros (4096 * (b + j)) (uperm xperm) (uvmdealloc kend (p_root t) (4096 * (b + j)) (4096 * b);; mret 0)
    (uvmalloc_loop kend n (p_root t) (4096 * b) (u64 (4096 * (b + j) + PGSIZE)) newsz xperm) k l t)
    as [(k1 & l1 & t1 & Hst & Has & ->)|(k1 & l1 & t1 & Hst & Hupd & ->)];
    [apply Hstep|apply zeros_page|zlia|lia|rewrite Hd, TFPN_val; lia
    |rewrite Hd, Hfill, decide_False by lia; apply Hnone; lia|done|done|..].
  - rewrite <-(st_root _ _ _ _ _ _ Hst).
    destruct (uvmalloc_undo k0 l0 t0 k1 l1 t1 b j (Z.lor (uperm xperm) PTE_V)) as (k2 & l2 & t2 & Hrun & Hst2 & Hs2);
      [by eapply ustep_trans|intros v; by rewrite Has, Hfill|intros v Hv; apply Hnone; lia|done|done|rewrite TFPN_val; lia|].
    exists 0, k2, l2, t2. split; [done|]. split; [done|]. by right.
  - change PGSIZE with 4096. rewrite u64_id by lia. rewrite Hd in Hupd.
    destruct (IH k0 l0 t0 k1 l1 t1 b (j + 1) newsz xperm) as (r & k2 & l2 & t2 & Hrun & Hst2 & Hres);
      [by eapply ustep_trans| |intros v Hv; apply Hnone; lia|done|lia|destruct Hlow; [left; lia|by right]|done|lia|].
    { intros v. rewrite Hupd, Hfill. repeat destruct (decide _); done || lia. }
    exists r, k2, l2, t2. split; [|split; [done|]].
    + rewrite <-Hrun, (st_root _ _ _ _ _ _ Hst). by replace (4096 * (b + (j + 1))) with (4096 * (b + j) + 4096) by lia.
    + by replace (j + Z.of_nat (S n)) with (j + 1 + Z.of_nat n) by lia.
Qed.

Lemma uvmalloc_any k l t oldsz newsz xperm :
  uspace k l t → 0 ≤ oldsz ≤ newsz → oldsz ≤ TRAPFRAME → newsz < 2 ^ 64 →
  newsz ≤ TRAPFRAME ∨ (∀ v, 0 ≤ v < npages oldsz → is_Some (aspace k t v)) → 0 ≤ xperm < 1024 →
  (∀ v, npages oldsz ≤ v < npages newsz → aspace k t v = None) →
  ∃ r k' l' t', uvmalloc kend (p_root t) oldsz newsz xperm k = Ok r k' ∧ ustep k l t k' l' t' ∧
    (r = newsz ∧ afill k t (npages oldsz) (npages newsz - npages oldsz) (Z.lor (uperm xperm) PTE_V) k' t' ∨
     r = 0 ∧ asame k t k' t').
Proof.
  intros Hu Hold Htop Hnew Hor Hx Hnone. destruct (PGROUNDUP_npages oldsz) as [Ho1 Ho2]; [lia|].
  assert (Hmono : npages oldsz ≤ npages newsz) by (unfold npages; zlia).
  assert (Hfuel : Z.to_nat ((newsz - PGROUNDUP oldsz + PGSIZE - 1) / PGSIZE) = Z.to_nat (npages newsz - npages oldsz)).
  { rewrite Ho1. change PGSIZE with 4096. unfold npages. f_equal. zlia. }
  unfold uvmalloc. rewrite bool_decide_false by lia. rewrite Hfuel, Ho1.
  destruct (uvmalloc_loop_spec (Z.to_nat (npages newsz - npages oldsz)) k l t k l t (npages oldsz) 0 newsz xperm)
    as (r & k' & l' & t' & Hrun & Hst & Hres); try done; try lia.
  - intros v. by rewrite decide_False by lia.
  - intros v Hv. apply Hnone. lia.
  - destruct Hor as [Hor|Hor]; [left|by right]. destruct (PGROUNDUP_npages newsz) as [_ Hn2]; lia.
  - unfold npages in *. zlia.
  - exists r, k', l', t'. rewrite Z.add_0_r in Hrun. split; [done|]. split; [done|].
    replace (npages newsz - npages oldsz) with (0 + Z.of_nat (Z.to_nat (npages newsz - npages oldsz))) by lia. done.
Qed.
Lemma uvmalloc_run k l t oldsz newsz xperm :
  uspace k l t → 0 ≤ oldsz ≤ newsz → newsz ≤ TRAPFRAME → 0 ≤ xperm < 1024 →
  (∀ v, npages oldsz ≤ v < npages newsz → aspace k t v = None) →
  ∃ r k' l' t', uvmalloc kend (p_root t) oldsz newsz xperm k = Ok r k' ∧ ustep k l t k' l' t' ∧
    (r = newsz ∧ afill k t (npages oldsz) (npages newsz - npages oldsz) (Z.lor (uperm xperm) PTE_V) k' t' ∨
     r = 0 ∧ asame k t k' t').
Proof.
  intros Hu Ho Hn Hx Hnone. assert (TRAPFRAME < 2 ^ 64) by done. apply uvmalloc_any; [done|done|lia|lia|by left|done|done].
Qed.

(** C19: [uvmalloc] from [oldsz] to [newsz] either maps zeroed user pages for exactly
    the new page numbers and returns [newsz], or returns 0 with the address space as
    it was; no page is leaked and no memory of others is touched. *)
Theorem uvmalloc_grows k l t oldsz newsz xperm :
  uspace k l t → 0 ≤ oldsz ≤ newsz → newsz ≤ TRAPFRAME → 0 ≤ xperm < 1024 →
  (∀ v, npages oldsz ≤ v < npages newsz → aspace k t v = None) →
  ∃ r k' l' t', uvmalloc kend (p_root t) oldsz newsz xperm k = Ok r k' ∧ ustep k l t k' l' t' ∧
    (r = newsz ∧ afill k t (npages oldsz) (npages newsz - npages oldsz) (Z.lor (uperm xperm) PTE_V) k' t' ∨
     r = 0 ∧ asame k t k' t').
Proof. apply uvmalloc_run. Qed.

(** ** Two address spaces in one memory *)

Definition apart (t t' : ptree) : Prop := ∀ p, upage t p → ¬ upage t' p.

(** What happens to one address space leaves another as it is. *)
Lemma other_space k l t k' l' t' o :
  ustep k l t k' l' t' → uspace k l o → apart o t → uspace k' l' o ∧ asame k o k' o ∧ apart o t'.
Proof.
  intros Hst Ho Hap.
  assert (Hout : ∀ p, upage o p → ¬ (p ∈ l ∨ upage t p)).
  { intros p Hp [?|?]; [by apply (upage_apart _ _ _ _ Ho Hp)|by apply (Hap p)]. }
  assert (Hout' : ∀ p, upage o p → ¬ (p ∈ l' ∨ upage t' p)).
  { intros p Hp. rewrite (st_pages _ _ _ _ _ _ Hst). auto. }
  assert (Hf : ∀ p, upage o p → pmem k' !! p = pmem k !! p) by (intros p Hp; apply (st_frame _ _ _ _ _ _ Hst); auto).
  split; [|split].
  - eapply uspace_frame; [done|apply (st_space _ _ _ _ _ _ Hst)| |done]. intros p Hp ?. apply (Hout' p Hp). by left.
  - intros v. by apply aspace_frame.
  - intros p Hp ?. apply (Hout' p Hp). by right.
Qed.

(** The copy into the fresh page, read after the page was taken. *)
Lemma uvmcopy_step {A} (fail cont : M kmem A) root a perm k l t pa x :
  uspace k l t → pmem k !! pa = Some x → pa ∉ l →
  (mem ← kalloc;
   if bool_decide (mem = 0) then fail else
   y ← load_page pa; store_page mem y;;
   r ← mappages root a PGSIZE mem perm;
   if bool_decide (r ≠ 0) then kfree kend mem;; fail else cont) k =
  alloc_map x root a perm fail cont k.
Proof.
  intros Hu Hx Hl. unfold alloc_map. pose proof (vs_kinv _ _ _ _ (us_st _ _ _ Hu)) as Hk. destruct l as [|mem l].
  - erewrite !bind_ok by (by apply (kalloc_empty kend)). done.
  - apply not_elem_of_cons in Hl as [Hne Hl]. destruct (kalloc_page kend k mem l Hk) as (fl & y & Hrun & _ & Hok & _ & _).
    erewrite !bind_ok by exact Hrun. cbv beta. case_bool_decide; [done|].
    erewrite bind_ok; [done|]. unfold load_page, mbind, M_bind, get. cbn [pmem]. by rewrite lookup_insert_ne, Hx.
Qed.

(** The pages [0, n) of [t'] are those of [o], its other pages those of [t]. *)
Definition acopy (k0 : kmem) (o t : ptree) (n : Z) (k' : kmem) (t' : ptree) : Prop :=
  ∀ v, aspace k' t' v = if decide (0 ≤ v < n) then aspace k0 o v else aspace k0 t v.

Lemma uvmcopy_undo k0 l0 t0 o k l t j :
  ustep k0 l0 t0 k l t → acopy k0 o t0 j k t → (∀ v, 0 ≤ v < j → is_Some (aspace k0 o v) ∧ aspace k0 t0 v = None) →
  0 ≤ j ≤ TFPN →
  ∃ k' l' t', (uvmunmap kend (p_root t) 0 j true;; mret (-1)) k = Ok (-1) k' ∧
    ustep k0 l0 t0 k' l' t' ∧ asame k0 t0 k' t'.
Proof.
  intros Hstep Hcp Hm Hj. rewrite TFPN_val in Hj.
  destruct (uvmunmap_free k l t 0 j) as (k' & l' & t' & Hrun & Hst & Hclr);
    [apply Hstep|done|lia|lia|change TRAPFRAME with (2 ^ 38 - 8192); lia| |].
  { intros i Hi. rewrite Hcp, decide_True by lia. by apply Hm. }
  exists k', l', t'. split; [by erewrite bind_ok by exact Hrun|]. split; [by eapply ustep_trans|].
  intros v. rewrite Hclr, Hcp. change (0 / 4096) with 0. repeat destruct (decide _); try done; try lia.
  symmetry. apply Hm. lia.
Qed.

Lemma uvmcopy_loop_spec n : ∀ k0 l0 t0 o k l t j sz,
  uspace k0 l0 o → apart o t0 → ustep k0 l0 t0 k l t → acopy k0 o t0 j k t →
  (∀ v, 0 ≤ v < j + Z.of_nat n → is_Some (aspace k0 o v) ∧ aspace k0 t0 v = None) →
  0 ≤ j → j + Z.of_nat n ≤ TFPN → 4096 * (j + Z.of_nat n) - 4096 < sz ≤ 4096 * (j + Z.of_nat n) →
  ∃ r k' l' t', uvmcopy_loop kend n (p_root o) (p_root t) (4096 * j) sz k = Ok r k' ∧ ustep k0 l0 t0 k' l' t' ∧
    (r = 0 ∧ acopy k0 o t0 (j + Z.of_nat n) k' t' ∨ r = -1 ∧ asame k0 t0 k' t').
Proof.
  induction n as [|n IH]; intros k0 l0 t0 o k l t j sz Ho Hap Hstep Hcp Hm Hj Hlow Hsz.
  { exists 0, k, l, t. cbn [uvmcopy_loop]. rewrite bool_decide_false by lia. split; [done|]. split; [done|].
    left. split; [done|]. by rewrite Z.add_0_r. }
  destruct (other_space _ _ _ _ _ _ _ Hstep Ho Hap) as (Ho1 & Has1 & Hap1).
  assert (Hd : 4096 * j / 4096 = j) by zlia. destruct (Hm j) as [[[f x] Hj0] Hnone]; [lia|].
  destruct (aspace_Some k l o j f x Ho1) as (Hlj & w & Hw & -> & Hx & _ & Hwl & _ & Hrwx & Hpx); [by rewrite Has1|].
  destruct (mapped_slot k l o (4096 * j) w (us_st _ _ _ Ho1)) as (p & Hwalk & Hp0 & _ & Hld & HV);
    [apply low_MAXVA; [lia|by rewrite Hd]|by rewrite Hd|]. rewrite TFPN_val in Hlow.
  cbn [uvmcopy_loop]. rewrite bool_decide_true by lia. erewrite bind_ok by exact Hwalk. cbv beta.
  rewrite bool_decide_false by done. erewrite bind_ok by exact Hld. cbv beta. rewrite HV. cbn [negb].
  rewrite (uvmcopy_step _ _ _ _ _ k l o _ x) by done. change PGSIZE with 4096. rewrite Hd, u64_id by lia.
  pose proof (PTE_FLAGS_range w) as Hfr.
  destruct (alloc_map_spec x (4096 * j) (PTE_FLAGS w) (uvmunmap kend (p_root t) 0 j true;; mret (-1))
    (uvmcopy_loop kend n (p_root o) (p_root t) (4096 * j + 4096) sz) k l t)
    as [(k1 & l1 & t1 & Hst & Has & ->)|(k1 & l1 & t1 & Hst & Hupd & ->)];
    [apply Hstep|done|zlia|lia|by rewrite Hd|by rewrite Hd, Hcp, decide_False by lia|done|by rewrite has_flags|..].
  - rewrite <-(st_root _ _ _ _ _ _ Hst).
    destruct (uvmcopy_undo k0 l0 t0 o k1 l1 t1 j) as (k2 & l2 & t2 & Hrun & Hst2 & Hs2);
      [by eapply ustep_trans|intros v; by rewrite Has, Hcp|intros v Hv; apply Hm; lia|rewrite TFPN_val; lia|].
    exists (-1), k2, l2, t2. split; [done|]. split; [done|]. by right.
  - rewrite Hd, lor_V in Hupd by (by rewrite has_flags).
    destruct (IH k0 l0 t0 o k1 l1 t1 (j + 1) sz) as (r & k2 & l2 & t2 & Hrun & Hst2 & Hres);
      [done|done|by eapply ustep_trans| |intros v Hv; apply Hm; lia|lia|rewrite TFPN_val; lia|lia|].
    { intros v. rewrite Hupd, Hcp. repeat destruct (decide _); try done; try lia. by subst. }
    exists r, k2, l2, t2. split; [|split; [done|]].
    + rewrite <-Hrun, (st_root _ _ _ _ _ _ Hst). by replace (4096 * (j + 1)) with (4096 * j + 4096) by lia.
    + by replace (j + Z.of_nat (S n)) with (j + 1 + Z.of_nat n) by lia.
Qed.

Lemma uvmcopy_run k l new old sz :
  uspace k l new → uspace k l old → apart old new → 0 ≤ sz ≤ TRAPFRAME →
  (∀ v, 0 ≤ v < npages sz → is_Some (aspace k old v) ∧ aspace k new v = None) →
  ∃ r k' l' new', uvmcopy kend (p_root old) (p_root new) sz k = Ok r k' ∧ ustep k l new k' l' new' ∧
    (r = 0 ∧ acopy k old new (npages sz) k' new' ∨ r = -1 ∧ asame k new k' new') ∧
    uspace k' l' old ∧ asame k old k' old ∧ apart old new'.
Proof.
  intros Hn Ho Hap Hsz Hm. destruct (PGROUNDUP_npages sz Hsz) as [_ Hnp].
  destruct (uvmcopy_loop_spec (Z.to_nat (npages sz)) k l new old k l new 0 sz) as (r & k' & l' & t' & Hrun & Hst & Hres);
    [done|done|by apply ustep_refl|intros v; by rewrite decide_False by lia
    |intros v Hv; apply Hm; lia|done|lia|unfold npages in *; zlia|].
  rewrite Z.add_0_l, Z2Nat.id in Hres by lia. exists r, k', l', t'. unfold uvmcopy.
  replace ((sz + PGSIZE - 1) / PGSIZE) with (npages sz) by (unfold npages; change PGSIZE with 4096; f_equal; lia).
  split; [exact Hrun|]. split; [done|]. split; [done|]. by eapply other_space.
Qed.

(** C18: [uvmcopy] gives a child whose first [sz] bytes are unmapped a copy of every
    page of the parent's first [sz] bytes, with the parent's permissions, and
    returns 0; or it returns -1 with the child as it was.  In both cases the
    parent's address space is unchanged and no page is leaked. *)
Theorem uvmcopy_copies k l new old sz :
  uspace k l new → uspace k l old → apart old new → 0 ≤ sz ≤ TRAPFRAME →
  (∀ v, 0 ≤ v < npages sz → is_Some (aspace k old v) ∧ aspace k new v = None) →
  ∃ r k' l' new', uvmcopy kend (p_root old) (p_root new) sz k = Ok r k' ∧ ustep k l new k' l' new' ∧
    (r = 0 ∧ acopy k old new (npages sz) k' new' ∨ r = -1 ∧ asame k new k' new') ∧
    uspace k' l' old ∧ asame k old k' old ∧ apart old new'.
Proof. apply uvmcopy_run. Qed.
End user.

End UserMem.
