(* ===== verification/UserCopy.v ===== *)
(** Copying between the kernel and user memory: [copyout] and [copyin] of
    [kernel/vm.c] against the bytes a process sees. *)

From S2P Require Import Prelude Riscv Kalloc Vm PageTable UserMem.
Import Kalloc Vm PageTable UserMem.

Local Open Scope Z_scope.

Module UserCopy.

(** A byte of the process's memory, with the permission bits of its page. *)
Definition abyte (k : kmem) (t : ptree) (va : Z) : option (Z * Z) :=
  fx ← aspace k t (va / 4096); b ← fx.2 !! Z.to_nat (va mod 4096); Some (fx.1, b).
(** What the process itself could read or write there. *)
Definition uread (k : kmem) (t : ptree) (va : Z) : option Z :=
  fb ← abyte k t va; if has fb.1 PTE_U then Some fb.2 else None.
Definition uwritable (k : kmem) (t : ptree) (va : Z) : bool :=
  match abyte k t va with Some (f, _) => has f PTE_U && has f PTE_W | None => false end.

Section copy.
Context (kend : Z) (kend_pos : 0 < kend).
Notation uspace := (UserMem.uspace kend).
Notation ustep := (UserMem.ustep kend).

Lemma user_pte k l t va :
  uspace k l t → 0 ≤ va < MAXVA →
  ∃ pte, walk (p_root t) va false k = Ok pte k ∧
    (pte = 0 ∧ p_leaf t !! (va / 4096) = None ∨
     pte ≠ 0 ∧ ∃ v, ld64 pte k = Ok v k ∧ leaf_entry (p_leaf t !! (va / 4096)) v).
Proof.
  intros Hu Hva. pose proof (us_st _ _ _ _ Hu) as Hv.
  rewrite (walk_lookup kend kend_pos k t va (vs_rep _ _ _ _ Hv) Hva). eexists. split; [done|].
  destruct (slot t va) as [p|] eqn:Hs; cbn [slot_addr].
  - right. destruct (leaf_page kend kend_pos _ _ _ _ _ Hv Hs) as ([_ Hok] & _). pose proof (ix_range 0 va).
    split; [lia|]. by apply (ld64_leaf kend kend_pos k l).
  - left. split; [done|]. by eapply slot_none; [apply Hv|..].
Qed.

(** A user leaf lies in the process's own memory. *)
Lemma user_leaf k l t v w :
  uspace k l t → p_leaf t !! v = Some w → has w PTE_U = true →
  ∃ x, aspace k t v = Some (PTE_FLAGS w, x) ∧ pmem k !! PTE2PA w = Some x ∧ is_page x ∧
    PTE2PA w mod 4096 = 0 ∧ PTE2PA w ≠ 0.
Proof.
  intros Hu Hw HU. destruct (decide (v < TFPN)) as [Hv|Hv].
  2:{ rewrite (us_high _ _ _ _ Hu v w) in HU by (done || lia). done. }
  destruct (us_leaf _ _ _ _ Hu v w Hv Hw) as ([Hal Hok] & _ & _ & _ & x & Hx & Hp).
  exists x. unfold aspace. rewrite decide_True, Hw by done. cbn. rewrite Hx. cbn. split; [done|]. split; [done|]. split; [done|].
  split; [done|lia].
Qed.

(** [walkaddr] finds exactly the pages the process may read. *)
Lemma walkaddr_run k l t va :
  uspace k l t → 0 ≤ va < 2 ^ 64 → va mod 4096 = 0 →
  ∃ pa, walkaddr (p_root t) va k = Ok pa k ∧
    (pa = 0 ∧ (∀ i, 0 ≤ i < 4096 → uread k t (va + i) = None) ∨
     pa ≠ 0 ∧ pa mod 4096 = 0 ∧ ∃ f x, aspace k t (va / 4096) = Some (f, x) ∧ has f PTE_U = true ∧
       pmem k !! pa = Some x ∧ is_page x).
Proof.
  intros Hu Hva Hal. unfold walkaddr.
  assert (Hnone : (∀ g x, aspace k t (va / 4096) = Some (g, x) → has g PTE_U = false) →
    ∀ i, 0 ≤ i < 4096 → uread k t (va + i) = None).
  { intros H i Hi. unfold uread, abyte. replace ((va + i) / 4096) with (va / 4096) by zlia.
    destruct (aspace k t (va / 4096)) as [[g x]|]; [|done]. cbn. destruct (x !! _); [|done]. cbn.
    by rewrite (H g x eq_refl). }
  case_bool_decide as Hmax.
  { exists 0. split; [done|]. left. split; [done|]. apply Hnone. intros g x Has. exfalso.
    apply (aspace_Some kend k l) in Has as [Hlow _]; [|done]. rewrite TFPN_val in Hlow.
    change MAXVA with (2 ^ 38) in Hmax. zlia. }
  destruct (user_pte k l t va Hu ltac:(lia)) as (pte & Hwalk & Hpte). erewrite bind_ok by exact Hwalk. cbv beta.
  assert (Hleaf : ∀ g x, aspace k t (va / 4096) = Some (g, x) → ∃ w, p_leaf t !! (va / 4096) = Some w ∧ g = PTE_FLAGS w).
  { intros g x Has. apply (aspace_Some kend k l) in Has as (_ & w & Hw & -> & _); [eauto|done]. }
  destruct Hpte as [[-> Hl]|(Hp0 & v & Hld & Hent)].
  { exists 0. split; [done|]. left. split; [done|]. apply Hnone. intros g x (w & Hw & _)%Hleaf. congruence. }
  rewrite bool_decide_false by done. erewrite bind_ok by exact Hld. cbv beta.
  destruct (p_leaf t !! (va / 4096)) as [w|] eqn:Hw; cbn in Hent.
  2:{ rewrite Hent. exists 0. split; [done|]. left. split; [done|]. apply Hnone. intros g x (w & Hw' & _)%Hleaf. congruence. }
  destruct Hent as [-> HV]. rewrite HV. cbn [negb]. destruct (has w PTE_U) eqn:HU; cbn [negb].
  - destruct (user_leaf k l t _ w Hu Hw HU) as (x & Has & Hx & Hpx & Hwal & Hw0). eexists. split; [done|]. right.
    split; [done|]. split; [done|]. eexists _, x. split; [done|]. split; [by rewrite has_flags by done|]. done.
  - exists 0. split; [done|]. left. split; [done|]. apply Hnone. intros g x (w' & Hw' & ->)%Hleaf.
    rewrite has_flags by done. congruence.
Qed.

Lemma page_split a o : a mod 4096 = 0 → 0 ≤ o < 4096 → page_of (a + o) = a ∧ off_of (a + o) = Z.to_nat o.
Proof. intros Ha Ho. unfold page_of, off_of. split; [zlia|f_equal; zlia]. Qed.

Lemma uread_page k t va f x o :
  va mod 4096 = 0 → 0 ≤ o < 4096 → aspace k t (va / 4096) = Some (f, x) → has f PTE_U = true →
  uread k t (va + o) = x !! Z.to_nat o.
Proof.
  intros Hal Ho Has HU. unfold uread, abyte. replace ((va + o) / 4096) with (va / 4096) by zlia.
  replace ((va + o) mod 4096) with o by zlia. rewrite Has. cbn. destruct (x !! Z.to_nat o); [|done]. cbn. by rewrite HU.
Qed.

(** ** Reading *)

(** [x] are the bytes at [va], and they are all of the [len] bytes if the status is 0. *)
Definition read_at (k : kmem) (t : ptree) (va len : Z) (x : list Z) (r : Z) : Prop :=
  (∀ i : nat, (i < length x)%nat → uread k t (va + Z.of_nat i) = x !! i) ∧
  (r = 0 ∧ Z.of_nat (length x) = len ∨
   r = -1 ∧ Z.of_nat (length x) < len ∧ uread k t (va + Z.of_nat (length x)) = None).

Lemma copyin_loop_spec fuel : ∀ k l t va len dst,
  uspace k l t → 0 ≤ va < 2 ^ 64 → 0 ≤ len ≤ Z.of_nat fuel →
  ∃ x r, copyin_loop fuel (p_root t) va len dst k = Ok (dst ++ x, r) k ∧ read_at k t va len x r.
Proof.
  induction fuel as [|fuel IH]; intros k l t va len dst Hu Hva Hlen; cbn [copyin_loop].
  { rewrite bool_decide_true by lia. exists [], 0. rewrite app_nil_r. split; [done|]. split; [cbn; lia|]. left. split; [done|cbn; lia]. }
  case_bool_decide as Hl0.
  { exists [], 0. rewrite app_nil_r. split; [done|]. split; [cbn; lia|]. left. split; [done|cbn; lia]. }
  rewrite PGROUNDDOWN_div by done. set (va0 := 4096 * (va / 4096)). set (o := va - va0).
  assert (Ho : 0 ≤ o < 4096) by (unfold o, va0; zlia). assert (Hal : va0 mod 4096 = 0) by (unfold va0; zlia).
  assert (Hva0 : 0 ≤ va0 < 2 ^ 64) by (unfold va0; zlia). assert (Hsum : va = va0 + o) by (unfold o; lia).
  destruct (walkaddr_run k l t va0 Hu Hva0 Hal) as (pa & Hrun & Hres). erewrite bind_ok by exact Hrun. cbv beta.
  destruct Hres as [[-> Hno]|(Hpa0 & Hpal & f & x & Has & HU & Hx & [Hlx Hbx])].
  { exists [], (-1). rewrite app_nil_r. split; [done|]. split; [cbn; lia|]. right. split; [done|]. split; [cbn; lia|].
    cbn. rewrite Z.add_0_r, Hsum. by apply Hno. }
  rewrite bool_decide_false by done. set (n := Z.min (PGSIZE - o) len). assert (Hn : 1 ≤ n ≤ len ∧ o + n ≤ 4096) by (unfold n; change PGSIZE with 4096; lia).
  destruct (page_split pa o Hpal Ho) as [Hpo Hoo].
  erewrite bind_ok by (unfold ld_bytes, load_page, mbind, M_bind, get; rewrite Hpo, Hoo, Hx; reflexivity). cbv beta.
  set (y := slice (Z.to_nat o) (Z.to_nat n) x). assert (Hy : length y = Z.to_nat n) by (apply length_slice; lia).
  assert (Hyr : ∀ i : nat, (i < length y)%nat → uread k t (va + Z.of_nat i) = y !! i).
  { intros i Hi. rewrite Hy in Hi. unfold y. rewrite lookup_slice, decide_True by done. rewrite Hsum, <-Z.add_assoc.
    rewrite (uread_page k t va0 f x) by (done || lia). f_equal. lia. }
  assert (Hlow : va0 < 2 ^ 38).
  { apply (aspace_Some kend k l) in Has as [Hlow _]; [|done]. rewrite TFPN_val in Hlow. zlia. }
  change PGSIZE with 4096. rewrite u64_id by lia.
  destruct (IH k l t (va0 + 4096) (len - n) (dst ++ y) Hu ltac:(lia) ltac:(lia)) as (z & r & Hrun2 & Hz & Hr).
  exists (y ++ z), r. split; [by rewrite app_assoc|].
  assert (Hend : z = [] ∨ va0 + 4096 = va + n).
  { destruct (decide (n = len)) as [Heq|Hne]; [|right; unfold n in *; change PGSIZE with 4096 in *; lia].
    left. apply length_zero_iff_nil. lia. }
  assert (Hfin : n = len ∨ va0 + 4096 = va + n) by (unfold n in *; change PGSIZE with 4096 in *; lia).
  split.
  - intros i Hi. rewrite length_app in Hi. destruct (decide (i < length y)%nat) as [Hiy|Hiy].
    + rewrite lookup_app_l by done. by apply Hyr.
    + rewrite lookup_app_r by lia. destruct Hend as [->|Hend]; [cbn in Hi; lia|].
      rewrite <-Hz by lia. f_equal. lia.
  - rewrite length_app. destruct Hr as [[-> Hr]|(-> & Hr & Hno)]; [left; split; [done|lia]|]. right.
    split; [done|]. split; [lia|]. destruct Hfin as [Hfin|Hfin]; [lia|]. rewrite <-Hno. f_equal. lia.
Qed.

(** ** Reading strings *)

(** [x] are the bytes at [va]: a string with its null, of at most [max] bytes, if
    the status is 0; otherwise there is no null in [x], which is cut at [max] or
    at a byte the process may not read. *)
Definition string_at (k : kmem) (t : ptree) (va max : Z) (x : list Z) (r : Z) : Prop :=
  (∀ i : nat, (i < length x)%nat → uread k t (va + Z.of_nat i) = x !! i) ∧ bytes x ∧
  (r = 0 ∧ Z.of_nat (length x) ≤ max ∧ (∃ y, x = y ++ [0] ∧ 0 ∉ y) ∨
   r = -1 ∧ 0 ∉ x ∧ (Z.of_nat (length x) = max ∨ Z.of_nat (length x) < max ∧ uread k t (va + Z.of_nat (length x)) = None)).

Lemma until_null_spec x : let '(y, b) := until_null x in
  if b then ∃ z, y = z ++ [0] ∧ 0 ∉ z ∧ (length y ≤ length x)%nat ∧ y = take (length y) x else y = x ∧ 0 ∉ x.
Proof.
  induction x as [|c x IH]; cbn [until_null]; [split; [done|apply not_elem_of_nil]|]. case_bool_decide as Hc.
  - subst. exists []. split; [done|]. split; [apply not_elem_of_nil|]. cbn. split; [lia|done].
  - destruct (until_null x) as [y []].
    + destruct IH as (z & -> & Hz & Hl & He). exists (c :: z). split; [done|]. split; [apply not_elem_of_cons; done|]. cbn. split; [lia|]. by f_equal.
    + destruct IH as [-> Hx]. split; [done|]. apply not_elem_of_cons. done.
Qed.

Lemma copyinstr_loop_spec fuel : ∀ k l t va max dst,
  uspace k l t → 0 ≤ va < 2 ^ 64 → 0 ≤ max ≤ Z.of_nat fuel →
  ∃ x r, copyinstr_loop fuel (p_root t) va max dst k = Ok (dst ++ x, r) k ∧ string_at k t va max x r.
Proof.
  induction fuel as [|fuel IH]; intros k l t va max dst Hu Hva Hmax; cbn [copyinstr_loop].
  all: assert (Hstop : (max = 0 ∨ uread k t va = None) → string_at k t va max [] (-1)) by
    (intros Hs; split; [cbn; lia|]; split; [constructor|]; right; split; [done|]; split; [apply not_elem_of_nil|]; cbn; rewrite Z.add_0_r;
     destruct (decide (max = 0)); [by left|right; split; [lia|naive_solver]]).
  { rewrite bool_decide_true by lia. exists [], (-1). rewrite app_nil_r. split; [done|]. apply Hstop. left. lia. }
  case_bool_decide as Hl0.
  { exists [], (-1). rewrite app_nil_r. split; [done|]. apply Hstop. left. lia. }
  rewrite PGROUNDDOWN_div by done. set (va0 := 4096 * (va / 4096)). set (o := va - va0).
  assert (Ho : 0 ≤ o < 4096) by (unfold o, va0; zlia). assert (Hal : va0 mod 4096 = 0) by (unfold va0; zlia).
  assert (Hva0 : 0 ≤ va0 < 2 ^ 64) by (unfold va0; zlia). assert (Hsum : va = va0 + o) by (unfold o; lia).
  destruct (walkaddr_run k l t va0 Hu Hva0 Hal) as (pa & Hrun & Hres). erewrite bind_ok by exact Hrun. cbv beta.
  destruct Hres as [[-> Hno]|(Hpa0 & Hpal & f & x & Has & HU & Hx & [Hlx Hbx])].
  { exists [], (-1). rewrite app_nil_r. split; [done|]. apply Hstop. right. rewrite Hsum. by apply Hno. }
  clear Hstop. rewrite bool_decide_false by done. set (n := Z.min (PGSIZE - o) max).
  assert (Hn : 1 ≤ n ≤ max ∧ o + n ≤ 4096) by (unfold n; change PGSIZE with 4096; lia). destruct (page_split pa o Hpal Ho) as [Hpo Hoo].
  erewrite bind_ok by (unfold ld_bytes, load_page, mbind, M_bind, get; rewrite Hpo, Hoo, Hx; reflexivity). cbv beta.
  set (y := slice (Z.to_nat o) (Z.to_nat n) x). assert (Hy : length y = Z.to_nat n) by (apply length_slice; lia).
  assert (Hby : bytes y) by (by apply bytes_slice).
  assert (Hyr : ∀ i : nat, (i < length y)%nat → uread k t (va + Z.of_nat i) = y !! i).
  { intros i Hi. rewrite Hy in Hi. unfold y. rewrite lookup_slice, decide_True by done. rewrite Hsum, <-Z.add_assoc.
    rewrite (uread_page k t va0 f x) by (done || lia). f_equal. lia. }
  pose proof (until_null_spec y) as Hz. destruct (until_null y) as [z []].
  { destruct Hz as (w & -> & Hw & Hl & He). eexists _, 0. split; [done|]. split; [|split].
    - intros i Hi. rewrite Hyr by lia. rewrite He. by rewrite lookup_take_lt.
    - rewrite He. by apply bytes_take.
    - left. split; [done|]. split; [lia|]. by exists w. }
  destruct Hz as [-> Hnz].
  assert (Hlow : va0 < 2 ^ 38).
  { apply (aspace_Some kend k l) in Has as [Hlow _]; [|done]. rewrite TFPN_val in Hlow. zlia. }
  change PGSIZE with 4096. rewrite u64_id by lia.
  destruct (IH k l t (va0 + 4096) (max - n) (dst ++ y) Hu ltac:(lia) ltac:(lia)) as (z & r & Hrun2 & Hz & Hbz & Hr).
  exists (y ++ z), r. split; [by rewrite app_assoc|].
  assert (Hfin : z = [] ∧ n = max ∨ va0 + 4096 = va + n).
  { destruct (decide (n = max)) as [Heq|Hne]; [|right; unfold n in *; change PGSIZE with 4096 in *; lia].
    left. split; [|done]. apply length_zero_iff_nil. destruct Hr as [(_ & ? & w & -> & _)|(_ & _ & ?)]; [rewrite length_app in *; cbn in *; lia|lia]. }
  split; [|split; [apply bytes_app; done|]].
  - intros i Hi. rewrite length_app in Hi. destruct (decide (i < length y)%nat) as [Hiy|Hiy].
    + rewrite lookup_app_l by done. by apply Hyr.
    + rewrite lookup_app_r by lia. destruct Hfin as [[-> _]|Hend]; [cbn in Hi; lia|]. rewrite <-Hz by lia. f_equal. lia.
  - rewrite length_app. destruct Hr as [(-> & Hr & w & -> & Hw)|(-> & Hw & Hr)]; [left|right]; (split; [done|]).
    + split; [lia|]. exists (y ++ w). split; [by rewrite app_assoc|]. rewrite elem_of_app. tauto.
    + split; [rewrite elem_of_app; tauto|]. destruct Hr as [Hr|[Hr Hno]]; [left; lia|]. destruct Hfin as [[_ ?]|Hfin]; [lia|].
      right. split; [lia|]. rewrite <-Hno. f_equal. lia.
Qed.

(** ** Writing *)

Lemma write_page k l t v w x y :
  uspace k l t → v < TFPN → p_leaf t !! v = Some w → pmem k !! PTE2PA w = Some x → is_page y →
  let k' := MkKmem (freelist k) (<[PTE2PA w := y]> (pmem k)) in
  ustep k l t k' l t ∧ aupdate k t v (Some (PTE_FLAGS w, y)) k' t.
Proof.
  intros Hu Hv Hw Hx Hy k'. pose proof Hu as [[Hk Hr Ha] Hlf Hinj Hhigh].
  destruct (Hlf v w Hv Hw) as (_ & Hl & Ht & _).
  split; [split|].
  - split; [split| |done|done].
    + by apply kinv_write.
    + eapply pt_rep_frame; [done|]. intros p Hp. cbn. rewrite lookup_insert_ne; [done|]. intros Heq. by rewrite <-Heq in Hp.
    + done.
    + intros v' w' Hv' Hw'. destruct (Hlf v' w' Hv' Hw') as (Hok & Hl' & Ht' & Hrwx & z & Hz & Hpz).
      split; [done|]. split; [done|]. split; [done|]. split; [done|]. cbn.
      destruct (decide (PTE2PA w = PTE2PA w')) as [Heq|Hne]; [rewrite Heq, lookup_insert_eq; eauto|].
      rewrite lookup_insert_ne by done. eauto.
  - done.
  - intros q Hq. cbn. rewrite lookup_insert_ne; [done|]. intros Heq. apply Hq. right. right. eauto.
  - done.
  - done.
  - intros v'. unfold aspace. destruct (decide (v' = v)) as [->|Hne].
    + rewrite decide_True, Hw by done. cbn. by rewrite lookup_insert_eq.
    + destruct (decide (v' < TFPN)) as [Hv'|]; [|done]. destruct (p_leaf t !! v') as [w'|] eqn:Hw'; [|done]. cbn.
      rewrite lookup_insert_ne; [done|]. intros Heq. by apply Hne, (Hinj v' v w' w).
Qed.

(** The user's memory after the bytes [bs] were written at [va]. *)
Definition written (k : kmem) (t : ptree) (va : Z) (bs : list Z) (k' : kmem) : Prop :=
  ∀ a, abyte k' t a =
    if decide (va ≤ a < va + Z.of_nat (length bs))
    then fb ← abyte k t a; b ← bs !! Z.to_nat (a - va); Some (fb.1, b) else abyte k t a.

Lemma written_nil k t va : written k t va [] k.
Proof. intros a. rewrite decide_False; [done|cbn; lia]. Qed.

Lemma written_app k t va bs1 bs2 k1 k2 :
  written k t va bs1 k1 → written k1 t (va + Z.of_nat (length bs1)) bs2 k2 → written k t va (bs1 ++ bs2) k2.
Proof.
  intros H1 H2 a. rewrite H2, H1, length_app. repeat destruct (decide _); try lia; [| |done].
  - rewrite lookup_app_r by lia. replace (Z.to_nat (a - va) - length bs1)%nat with (Z.to_nat (a - (va + Z.of_nat (length bs1)))) by lia. done.
  - by rewrite lookup_app_l by lia.
Qed.

Lemma written_page k t va0 o f x bs k' :
  va0 mod 4096 = 0 → 0 ≤ o → o + Z.of_nat (length bs) ≤ 4096 → is_page x →
  aspace k t (va0 / 4096) = Some (f, x) →
  aupdate k t (va0 / 4096) (Some (f, splice (Z.to_nat o) bs x)) k' t → written k t (va0 + o) bs k'.
Proof.
  intros Hal Ho Hlen [Hlx _] Has Hupd a. unfold abyte. rewrite Hupd.
  destruct (decide (a / 4096 = va0 / 4096)) as [Heq|Hne].
  - rewrite Heq, Has. cbn [option_bind mbind fst snd]. rewrite lookup_splice by lia.
    assert (Ha : a = va0 + a mod 4096) by zlia. assert (0 ≤ a mod 4096 < 4096) by zlia.
    destruct (decide (va0 + o ≤ a < _)), (decide _); try lia; [|done].
    destruct (lookup_lt_is_Some_2 x (Z.to_nat (a mod 4096))) as [b ->]; [lia|]. cbn.
    replace (Z.to_nat (a mod 4096) - Z.to_nat o)%nat with (Z.to_nat (a - (va0 + o))) by lia. done.
  - rewrite decide_False; [done|]. intros Hin. apply Hne. zlia.
Qed.

(** [copyout] wrote the first [m] bytes, all of them if the status is 0; otherwise
    it stopped at a byte the process may not write. *)
Definition wrote (k : kmem) (t : ptree) (va : Z) (src : list Z) (r : Z) (k' : kmem) : Prop :=
  ∃ m, written k t va (take m src) k' ∧
    (r = 0 ∧ m = length src ∨
     r = -1 ∧ (m < length src)%nat ∧ uwritable k t (va + Z.of_nat m) = false).

Lemma uwritable_page k l t va0 o :
  uspace k l t → va0 mod 4096 = 0 → 0 ≤ o < 4096 →
  uwritable k t (va0 + o) =
    match aspace k t (va0 / 4096) with Some (f, _) => has f PTE_U && has f PTE_W | None => false end.
Proof.
  intros Hu Hal Ho. unfold uwritable, abyte. replace ((va0 + o) / 4096) with (va0 / 4096) by zlia.
  replace ((va0 + o) mod 4096) with o by zlia.
  destruct (aspace k t (va0 / 4096)) as [[f x]|] eqn:E; [|done]. cbn.
  destruct (aspace_Some kend k l t _ _ _ Hu E) as (_ & w & _ & _ & _ & _ & _ & _ & _ & [Hlx _]).
  by destruct (lookup_lt_is_Some_2 x (Z.to_nat o)) as [b ->]; [lia|].
Qed.

(** One page of [copyout]: refused, or written. *)
Lemma copyout_step fuel k l t va src :
  uspace k l t → 0 ≤ va < 2 ^ 64 → src ≠ [] → bytes src →
  let va0 := PGROUNDDOWN va in
  let n := Z.to_nat (Z.min (PGSIZE - (va - va0)) (Z.of_nat (length src))) in
  copyout_loop (S fuel) (p_root t) va src k = Ok (-1) k ∧ uwritable k t va = false ∨
  ∃ k', copyout_loop (S fuel) (p_root t) va src k = copyout_loop fuel (p_root t) (va0 + 4096) (drop n src) k' ∧
    ustep k l t k' l t ∧ written k t va (take n src) k' ∧ va0 + 4096 ≤ 2 ^ 38.
Proof.
  intros Hu Hva Hne Hb va0 n. cbn [copyout_loop]. rewrite bool_decide_false by done. fold va0. fold n.
  assert (Hva0 : va0 = 4096 * (va / 4096)) by (unfold va0; by rewrite PGROUNDDOWN_div). set (o := va - va0) in *.
  assert (Ho : 0 ≤ o < 4096) by (unfold o; zlia). assert (Hal : va0 mod 4096 = 0) by zlia.
  assert (Hsum : va = va0 + o) by (unfold o; lia). rewrite Hsum, (uwritable_page k l) by done.
  assert (Hlen : (0 < length src)%nat) by (destruct src; [done|cbn; lia]).
  assert (Hn : (n ≤ length src)%nat ∧ (0 < n)%nat ∧ o + Z.of_nat n ≤ 4096) by (unfold n; change PGSIZE with 4096; lia).
  assert (Hd : va0 / 4096 = va / 4096) by zlia. clearbody o va0 n.
  destruct (aspace k t (va0 / 4096)) as [[f x]|] eqn:Has.
  - destruct (aspace_Some kend k l t _ _ _ Hu Has) as (Hlow & w & Hw & -> & Hx & [Hwal _] & _ & _ & _ & Hpx).
    pose proof (low_MAXVA va0 ltac:(lia) Hlow) as Hmax. rewrite TFPN_val in Hlow.
    rewrite bool_decide_false by lia.
    destruct (mapped_slot kend kend_pos k l t va0 w (us_st _ _ _ _ Hu) Hmax Hw) as (p & Hwalk & Hp0 & _ & Hld & HV).
    erewrite bind_ok by exact Hwalk. cbv beta. rewrite bool_decide_false by done.
    erewrite bind_ok by exact Hld. cbv beta. rewrite HV, !has_flags by done. cbn [negb orb].
    destruct (has w PTE_U && has w PTE_W) eqn:HUW.
    2:{ left. split; [|done]. rewrite <-negb_andb, HUW. done. }
    right. apply andb_true_iff in HUW as [-> ->]. cbn [negb orb].
    replace (va0 + o - va0) with o by lia. change PGSIZE with 4096. rewrite u64_id by lia.
    destruct (page_split (PTE2PA w) o Hwal Ho) as [Hpo Hoo].
    assert (Hpy : is_page (splice (Z.to_nat o) (take n src) x)).
    { destruct Hpx as [Hlx Hbx]. split; [rewrite length_splice; rewrite ?length_take; lia|].
      apply bytes_splice; [by apply bytes_take|done]. }
    eexists. split.
    + erewrite bind_ok; [reflexivity|]. unfold st_bytes, load_page, store_page, mbind, M_bind, get. rewrite Hpo, Hoo, Hx. cbn.
      rewrite Hx. reflexivity.
    + destruct (write_page k l t (va0 / 4096) w x _ Hu ltac:(rewrite TFPN_val; lia) Hw Hx Hpy) as [Hst Hupd].
      split; [exact Hst|]. split; [|zlia]. eapply written_page; [done|lia|rewrite length_take; lia|exact Hpx|exact Has|exact Hupd].
  - left. split; [|done]. case_bool_decide as Hmax; [done|].
    destruct (user_pte k l t va0 Hu ltac:(lia)) as (pte & Hwalk & Hpte). erewrite bind_ok by exact Hwalk. cbv beta.
    destruct Hpte as [[-> _]|(Hp0 & v & Hld & Hent)]; [done|].
    rewrite bool_decide_false by done. erewrite bind_ok by exact Hld. cbv beta.
    destruct (p_leaf t !! (va0 / 4096)) as [w|] eqn:Hw; cbn in Hent; [|by rewrite Hent].
    destruct Hent as [-> HV]. destruct (has w PTE_U) eqn:HU; [|by rewrite orb_true_r].
    destruct (user_leaf k l t _ w Hu Hw HU) as (y & Hy & _). congruence.
Qed.

Lemma uwritable_written k t va bs k' a :
  written k t va bs k' → uwritable k' t a = uwritable k t a.
Proof.
  intros Hw. unfold uwritable. rewrite Hw. destruct (decide _); [|done].
  destruct (abyte k t a) as [[f b]|]; [|done]. cbn. by destruct (lookup_lt_is_Some_2 bs (Z.to_nat (a - va))) as [c ->]; [lia|].
Qed.

Lemma copyout_loop_spec fuel : ∀ k l t va src,
  uspace k l t → 0 ≤ va < 2 ^ 64 → bytes src → (length src ≤ fuel)%nat →
  ∃ r k', copyout_loop fuel (p_root t) va src k = Ok r k' ∧ ustep k l t k' l t ∧ wrote k t va src r k'.
Proof.
  induction fuel as [|fuel IH]; intros k l t va src Hu Hva Hb Hlen.
  { apply Nat.le_0_r, length_zero_iff_nil in Hlen as ->. exists 0, k. split; [done|]. split; [by apply ustep_refl|].
    exists 0%nat. split; [apply written_nil|by left]. }
  destruct (decide (src = [])) as [->|Hne].
  { exists 0, k. split; [done|]. split; [by apply ustep_refl|]. exists 0%nat. split; [apply written_nil|by left]. }
  assert (Hpos : (0 < length src)%nat) by (destruct src; [done|cbn; lia]).
  destruct (copyout_step fuel k l t va src Hu Hva Hne Hb) as [[Hrun Hno]|(k1 & Hrun & Hst & Hwr & Hmax)].
  { exists (-1), k. split; [done|]. split; [by apply ustep_refl|]. exists 0%nat. split; [apply written_nil|].
    right. split; [done|]. split; [done|]. by rewrite Z.add_0_r. }
  rewrite Hrun. revert Hwr Hmax. clear Hrun. rewrite PGROUNDDOWN_div by done. change PGSIZE with 4096.
  set (va0 := 4096 * (va / 4096)). set (n := Z.to_nat _). intros Hwr Hmax.
  assert (Hva0 : 0 ≤ va0 ≤ va ∧ va < va0 + 4096) by (unfold va0; zlia).
  assert (Hn : (0 < n ≤ length src)%nat) by (unfold n; lia).
  assert (Hend : n = length src ∨ va0 + 4096 = va + Z.of_nat n) by (unfold n; lia).
  destruct (IH k1 l t (va0 + 4096) (drop n src)) as (r & k2 & Hrun & Hst2 & m & Hwr2 & Hres);
    [apply Hst|lia|by apply bytes_drop|rewrite length_drop; lia|].
  exists r, k2. split; [done|]. split; [by eapply ustep_trans|]. exists (n + m)%nat. rewrite length_drop in Hres.
  assert (Hlt : length (take n src) = n) by (rewrite length_take; lia). split.
  - rewrite <-take_take_drop. eapply written_app; [exact Hwr|]. rewrite Hlt.
    destruct Hend as [Hend|<-]; [|done]. rewrite Hend, drop_all, take_nil in *.
    intros a. rewrite Hwr2. rewrite !decide_False; [done|cbn; lia..].
  - destruct Hres as [[-> ->]|(-> & Hm & Hno)]; [left; split; [done|lia]|]. right. split; [done|]. split; [lia|].
    rewrite <-Hno, (uwritable_written _ _ _ _ _ _ Hwr). f_equal. lia.
Qed.

Lemma uread_written k t va bs k' (i : nat) :
  written k t va bs k' → (i < length bs)%nat → is_Some (uread k t (va + Z.of_nat i)) →
  uread k' t (va + Z.of_nat i) = bs !! i.
Proof.
  intros Hw Hi [c Hc]. unfold uread in *. rewrite Hw, decide_True by lia.
  destruct (abyte k t (va + Z.of_nat i)) as [[f b]|]; [|done]. cbn in *.
  replace (Z.to_nat (va + Z.of_nat i - va)) with i by lia.
  destruct (lookup_lt_is_Some_2 bs i) as [d Hd]; [done|]. rewrite Hd. cbn. by destruct (has f PTE_U).
Qed.

(** C20: [copyout] writes the bytes of [src] to the user's memory up to the first
    byte the process may not write, returns 0 exactly when it wrote all of them,
    and changes nothing else. *)
Theorem copyout_writes k l t dstva src :
  uspace k l t → 0 ≤ dstva < 2 ^ 64 → bytes src →
  ∃ r k', copyout (p_root t) dstva src k = Ok r k' ∧ ustep k l t k' l t ∧ wrote k t dstva src r k'.
Proof. intros Hu Hd Hb. by apply copyout_loop_spec. Qed.

(** After [copyout] to memory that the process may write, [copyin] of the same
    range returns the bytes, and [copyin] never changes memory. *)
Theorem copyout_copyin k l t va src :
  uspace k l t → 0 ≤ va < 2 ^ 64 → bytes src →
  (∀ i : nat, (i < length src)%nat → uwritable k t (va + Z.of_nat i) = true) →
  ∃ k', copyout (p_root t) va src k = Ok 0 k' ∧
    copyin (p_root t) va (Z.of_nat (length src)) k' = Ok (src, 0) k'.
Proof.
  intros Hu Hd Hb Hok. destruct (copyout_loop_spec (length src) k l t va src) as (r & k' & Hrun & Hst & m & Hw & Hres); [done..|].
  destruct Hres as [[-> ->]|(_ & Hm & Hno)]; [|by rewrite Hok in Hno]. rewrite firstn_all in Hw.
  exists k'. split; [exact Hrun|].
  destruct (copyin_loop_spec (length src) k' l t va (Z.of_nat (length src)) []) as (x & r & Hrun2 & Hx & Hr); [apply Hst|done|lia|].
  assert (Hread : ∀ i : nat, (i < length src)%nat → uread k' t (va + Z.of_nat i) = src !! i).
  { intros i Hi. eapply uread_written; [done|done|]. specialize (Hok i Hi). unfold uwritable in Hok. unfold uread.
    destruct (abyte k t _) as [[f b]|]; [|done]. cbn. apply andb_true_iff in Hok as [-> _]. eauto. }
  unfold copyin. rewrite Nat2Z.id, Hrun2. cbn [app].
  assert (r = 0 ∧ length x = length src) as [-> Hlx].
  { destruct Hr as [[-> ?]|(-> & Hlt & Hno)]; [split; [done|lia]|]. rewrite Hread in Hno by lia.
    apply lookup_ge_None in Hno. lia. }
  do 2 f_equal. apply list_eq_same_length with (n := length src); [done|done|]. intros i a b Hi Ha Hb'.
  rewrite <-Hx, Hread in Ha by lia. congruence.
Qed.
End copy.

End UserCopy.
