(* ===== verification/VmImage.v ===== *)
(** A concrete memory with two address spaces, on which the theorems on user
    memory are evaluated: a parent with one user page and a child with none. *)

From S2P Require Import Prelude Riscv Kalloc Vm PageTable UserMem UserCopy.
Import Kalloc Vm PageTable UserMem UserCopy.

Local Open Scope Z_scope.

Module VmImage.

Definition kend0 : Z := 0x80020000.
Lemma kend0_pos : 0 < kend0.
Proof. done. Qed.

Local Notation R := 0x80100000.
Local Notation A := 0x80101000.
Local Notation B := 0x80102000.
Local Notation D := 0x80103000.
Local Notation N := 0x80104000.
Local Notation F1 := 0x80105000.
Local Notation F2 := 0x80106000.
Local Notation F3 := 0x80107000.
Local Notation F4 := 0x80108000.

Definition w0 : Z := mkpte D 0x17.
(** The pages of the parent before its tables are linked, the child's root and
    the free pages. *)
Definition pm0 : gmap Z (list Z) :=
  <[R := zeros]> (<[A := zeros]> (<[B := zeros]> (<[D := zeros]> (<[N := zeros]> (
  <[F1 := wr 8 0 F2 zeros]> (<[F2 := wr 8 0 F3 zeros]> (<[F3 := wr 8 0 F4 zeros]> (<[F4 := zeros]> ∅)))))))).
Definition pm1 : gmap Z (list Z) := linked pm0 A R zeros 0.
Definition pm2 : gmap Z (list Z) := linked pm1 B A zeros 0.
Definition pm3 : gmap Z (list Z) := <[B := wr 8 (Z.to_nat (8 * 0)) w0 zeros]> pm2.
Definition k0 : kmem := MkKmem F1 pm3.
Definition free0 : list Z := [F1; F2; F3; F4].
Definition parent : ptree := set_leaf (add0 (add1 (pt_empty R) 0 A) 0 0 B) (vpn 0 0 0) w0.
Definition child : ptree := pt_empty N.

Lemma kinv0 : kinv kend0 k0 free0.
Proof.
  split; [|split].
  - cbn [k0 pmem freelist free0 chain].
    assert (Hz : ∀ p, length (wr 8 0 p zeros) = 4096%nat) by (intros; unfold zeros; rewrite length_wr; rewrite length_replicate; (done || vm_compute; lia)).
    assert (Hr : ∀ p, 0 ≤ p < 2 ^ 64 → rd 8 0 (wr 8 0 p zeros) = p) by (intros; apply rd8_wr8; [apply length_replicate|done]).
    repeat (split; [by rewrite ?Hr|split; [done|eexists; split; [reflexivity|split; [by rewrite ?Hz, ?length_replicate|]]]]).
    done.
  - repeat (constructor; [set_solver|]). constructor.
  - repeat (constructor; [split; [done|split; done]|]). constructor.
Qed.

Lemma parent_tables p : is_table parent p → p = R ∨ p = A ∨ p = B.
Proof.
  unfold parent. rewrite is_table_set_leaf. intros [g [[_ ->]|[_ Hg]]%tbl_add0]; [auto|].
  apply tbl_add1 in Hg as [[_ ->]|[_ Hg]]; [auto|]. destruct g; cbn in Hg; rewrite ?lookup_empty in Hg; simplify_eq. auto.
Qed.
Lemma parent_leaf v w : p_leaf parent !! v = Some w → v = 0 ∧ w = w0.
Proof.
  assert (Hl : p_leaf parent = <[0 := w0]> ∅) by done. rewrite Hl.
  intros [[<- <-]|[_ H]]%lookup_insert_Some; [done|]. by rewrite lookup_empty in H.
Qed.
Lemma w0_pa : PTE2PA w0 = D.
Proof. done. Qed.

Lemma parent_rep : pt_rep kend0 pm3 parent.
Proof.
  assert (HR : page_ok kend0 R) by done. assert (HA : page_ok kend0 A) by done. assert (HB : page_ok kend0 B) by done.
  assert (H0 : pt_rep kend0 pm0 (pt_empty R)) by (by apply pt_empty_rep).
  assert (HnA : ¬ is_table (pt_empty R) A) by (intros [[| |] Hg]; cbn in Hg; rewrite ?lookup_empty in Hg; simplify_eq).
  assert (H1 : pt_rep kend0 pm1 (add1 (pt_empty R) 0 A)) by (by apply (add1_rep kend0 kend0_pos pm0 (pt_empty R) 0 A zeros)).
  assert (HnB : ¬ is_table (add1 (pt_empty R) 0 A) B).
  { rewrite is_table_add1 by done. intros [[[| |] Hg]|?]; [..|done]; cbn in Hg; rewrite ?lookup_empty in Hg; simplify_eq. }
  assert (H2 : pt_rep kend0 pm2 (add0 (add1 (pt_empty R) 0 A) 0 0 B)) by (by apply (add0_rep kend0 kend0_pos pm1 (add1 (pt_empty R) 0 A) 0 0 A B zeros)).
  by apply (set_leaf_rep kend0 pm2 _ 0 0 0 B zeros).
Qed.

Lemma in_free p : p ∈ free0 → p = F1 ∨ p = F2 ∨ p = F3 ∨ p = F4.
Proof. unfold free0. set_solver. Qed.

Lemma parent_space : uspace kend0 k0 free0 parent.
Proof.
  assert (Hzp : is_page zeros) by apply zeros_page.
  split; [split|..].
  - apply kinv0.
  - apply parent_rep.
  - intros p [->|[->| ->]]%parent_tables Hf%in_free; naive_solver.
  - intros v w _ [_ ->]%parent_leaf. rewrite w0_pa. split; [done|]. split; [intros Hf%in_free; naive_solver|].
    split; [intros Ht%parent_tables; naive_solver|]. split; [done|]. by exists zeros.
  - intros v v' w w' _ _ [-> _]%parent_leaf [-> _]%parent_leaf. done.
  - intros v w Hv [-> _]%parent_leaf. rewrite TFPN_val in Hv. lia.
Qed.
Lemma child_space : uspace kend0 k0 free0 child.
Proof. apply uspace_empty; [apply kinv0|done|intros Hf%in_free; naive_solver|done]. Qed.

Lemma child_none v : aspace k0 child v = None.
Proof. unfold aspace. destruct (decide _); [|done]. cbn. by rewrite lookup_empty. Qed.
Lemma parent_page : aspace k0 parent 0 = Some (0x17, zeros).
Proof. done. Qed.
Lemma parent_child : apart parent child.
Proof.
  intros p [Ht|(v & w & _ & [_ ->]%parent_leaf & <-)] [[g Hg]|(v' & w' & _ & Hl & _)].
  2,4: cbn in Hl; by rewrite lookup_empty in Hl.
  - apply parent_tables in Ht. destruct g; cbn in Hg; rewrite ?lookup_empty in Hg; simplify_eq; naive_solver.
  - rewrite w0_pa in Hg. destruct g; cbn in Hg; rewrite ?lookup_empty in Hg; simplify_eq.
Qed.

Lemma uvmalloc_grows_witness :
  ∃ r k' l' t', uvmalloc kend0 N 0 4096 PTE_W k0 = Ok r k' ∧ ustep kend0 k0 free0 child k' l' t' ∧
    (r = 4096 ∧ afill k0 child 0 1 0x17 k' t' ∨ r = 0 ∧ asame k0 child k' t').
Proof.
  apply (uvmalloc_grows kend0 kend0_pos k0 free0 child 0 4096 PTE_W); [apply child_space|lia|done|done|].
  intros v _. apply child_none.
Defined.

Lemma uvmcopy_copies_witness :
  ∃ r k' l' new', uvmcopy kend0 R N 4096 k0 = Ok r k' ∧ ustep kend0 k0 free0 child k' l' new' ∧
    (r = 0 ∧ acopy k0 parent child 1 k' new' ∨ r = -1 ∧ asame k0 child k' new') ∧
    uspace kend0 k' l' parent ∧ asame k0 parent k' parent ∧ apart parent new'.
Proof.
  apply (uvmcopy_copies kend0 kend0_pos k0 free0 child parent 4096);
    [apply child_space|apply parent_space|apply parent_child|done|].
  intros v Hv. assert (v = 0) as -> by (change (npages 4096) with 1 in Hv; lia).
  split; [rewrite parent_page; eauto|apply child_none].
Defined.

Lemma copyout_writes_witness :
  ∃ r k', copyout R 100 [1; 2; 3] k0 = Ok r k' ∧ ustep kend0 k0 free0 parent k' free0 parent ∧
    wrote k0 parent 100 [1; 2; 3] r k'.
Proof.
  apply (copyout_writes kend0 kend0_pos k0 free0 parent 100 [1; 2; 3]); [apply parent_space|lia|].
  repeat constructor; done.
Defined.

Lemma copyout_copyin_witness :
  ∃ k', copyout R 100 [1; 2; 3] k0 = Ok 0 k' ∧ copyin R 100 3 k' = Ok ([1; 2; 3], 0) k'.
Proof.
  apply (copyout_copyin kend0 kend0_pos k0 free0 parent 100 [1; 2; 3]); [apply parent_space|lia|repeat constructor; done|].
  intros i Hi. unfold uwritable, abyte. cbn in Hi. assert (Hi' : i = 0%nat ∨ i = 1%nat ∨ i = 2%nat) by lia.
  by destruct Hi' as [->|[->| ->]].
Defined.
End VmImage.
