(* ===== verification/UserFree.v ===== *)
(** Freeing address spaces: [freewalk] and [uvmfree] of [kernel/vm.c] give back
    every page of a page table. *)

From S2P Require Import Prelude Riscv Kalloc Vm PageTable UserMem.
Import Kalloc Vm PageTable UserMem.

Local Open Scope Z_scope.

Module UserFree.

Section free.
Context (kend : Z) (kend_pos : 0 < kend).
Notation page_ok := (Kalloc.page_ok kend).
Notation kinv := (Kalloc.kinv kend).
Notation vst := (PageTable.vst kend).

(** The pages [S] went back to the allocator; other memory is as it was. *)
Record gives (k : kmem) (l : list Z) (k' : kmem) (l' : list Z) (S : Z → Prop) : Prop := {
  gv_inv : kinv k' l';
  gv_pages p : p ∈ l' ↔ p ∈ l ∨ S p;
  gv_mem q : ¬ S q → pmem k' !! q = pmem k !! q;
}.

Lemma kfree_gives k l p :
  kinv k l → page_ok p → p ∉ l → is_Some (pmem k !! p) →
  ∃ k', kfree kend p k = Ok tt k' ∧ gives k l k' (p :: l) (eq p).
Proof.
  intros Hk Hp Hl Hs.
  destruct (proj1 (wp_ok _ _ _) (kfree_spec kend kend_pos k l p Hk Hp Hl Hs)) as ([] & k' & Hrun & Hk' & Hf).
  exists k'. split; [done|]. split; [done|..].
  - intros q. rewrite elem_of_cons. naive_solver.
  - intros q Hq. apply Hf. congruence.
Qed.

(** ** A table and its children *)
Section loop.
Context (child : Z → M kmem unit) (q : Z) (c : Z → option Z) (S : Z → Z → Prop) (P : Z → gmap Z (list Z) → Prop).
Hypothesis q_ok : page_ok q.
Hypothesis c_ok : ∀ i p, c i = Some p → page_ok p.
Hypothesis child_spec : ∀ i p k l, c i = Some p → kinv k l → P i (pmem k) → (∀ r, S i r → r ∉ l) →
  ∃ k' l', child p k = Ok tt k' ∧ gives k l k' l' (S i).
Hypothesis P_frame : ∀ i pm pm', P i pm → (∀ r, S i r → pm' !! r = pm !! r) → P i pm'.
Hypothesis S_disj : ∀ i j r, S i r → S j r → i = j.
Hypothesis S_q : ∀ i, ¬ S i q.

(** The pages of the children with an index in [ixs]. *)
Definition kids (ixs : list Z) (r : Z) : Prop := ∃ i, i ∈ ixs ∧ is_Some (c i) ∧ S i r.
Definition ready (ixs : list Z) (k : kmem) (l : list Z) : Prop :=
  kinv k l ∧ q ∉ l ∧ (∃ pg, pmem k !! q = Some pg ∧ is_page pg) ∧
  ∀ i, i ∈ ixs → 0 ≤ i < 512 ∧ ptr_entry (c i) (ent (pmem k) q i) ∧
    (is_Some (c i) → P i (pmem k) ∧ ∀ r, S i r → r ∉ l).

Lemma ptr_no_rwx p : page_ok p → Z.land (mkpte p PTE_V) (Z.lor PTE_R (Z.lor PTE_W PTE_X)) = 0.
Proof.
  intros _. unfold mkpte. change 1024 with (2 ^ 10).
  by rewrite land_low by (done || (split; by vm_compute)).
Qed.

(** One child freed and its entry cleared. *)
Lemma child_step i ixs p k l :
  NoDup (i :: ixs) → ready (i :: ixs) k l → c i = Some p →
  ∃ k' l', (child (PTE2PA (ent (pmem k) q i));; st64 (q + 8 * i) 0) k = Ok tt k' ∧ ready ixs k' l' ∧
    (∀ r, r ∈ l' ↔ r ∈ l ∨ S i r) ∧ (∀ r, r ≠ q → ¬ S i r → pmem k' !! r = pmem k !! r).
Proof.
  intros Hnd (Hk & Hql & (pg & Hpg & Hpage) & Hix) Hc. apply NoDup_cons in Hnd as [Hni Hnd].
  destruct (Hix i) as (Hi & Hent & Hsub); [by left|]. rewrite Hc in Hent. cbn in Hent.
  destruct Hsub as [HP Hout]; [by rewrite Hc|].
  rewrite Hent, mkpte_pa by (apply (page_ok_pa kend kend_pos), (c_ok i p Hc) || done).
  destruct (child_spec i p k l Hc Hk HP Hout) as (k1 & l1 & Hrun & [Hk1 Hl1 Hm1]).
  erewrite bind_ok by exact Hrun.
  assert (Hpg1 : pmem k1 !! q = Some pg) by (by rewrite Hm1 by apply S_q).
  eexists _, l1. split; [by apply (st64_run kend k1 q pg)|].
  assert (Hql1 : q ∉ l1) by (rewrite Hl1; intros [?|?]; [done|by eapply S_q]).
  split; [|split; [done|]].
  - split; [by apply kinv_write|]. split; [done|]. split.
    { cbn [pmem]. eexists. rewrite lookup_insert_eq. split; [done|]. apply is_page_wr; [done|lia]. }
    intros j Hj. assert (Hij : j ≠ i) by (intros ->; done). destruct (Hix j) as (Hjr & Hje & Hjs); [by right|].
    split; [done|]. split.
    + cbn [pmem]. rewrite ent_write by done. rewrite decide_False by naive_solver.
      unfold ent in *. by rewrite !lookup_total_alt, Hpg1, <-Hpg, <-!lookup_total_alt.
    + intros Hcj. destruct (Hjs Hcj) as [HPj Houtj]. split.
      * eapply P_frame; [exact HPj|]. intros r Hr. cbn [pmem]. rewrite lookup_insert_ne by (intros <-; by eapply S_q).
        apply Hm1. intros Hr'. by apply Hij, (S_disj _ _ r).
      * intros r Hr. rewrite Hl1. intros [?|Hr']; [by eapply Houtj|]. by apply Hij, (S_disj _ _ r).
  - intros r Hrq Hr. cbn [pmem]. rewrite lookup_insert_ne by done. by apply Hm1.
Qed.

Lemma freewalk_loop_spec ixs : ∀ k l,
  NoDup ixs → ready ixs k l →
  ∃ k' l', freewalk_loop child q ixs k = Ok tt k' ∧ ready [] k' l' ∧
    (∀ r, r ∈ l' ↔ r ∈ l ∨ kids ixs r) ∧ (∀ r, r ≠ q → ¬ kids ixs r → pmem k' !! r = pmem k !! r).
Proof.
  assert (Hkids : ∀ i ixs r, kids (i :: ixs) r ↔ is_Some (c i) ∧ S i r ∨ kids ixs r).
  { intros i ixs' r. unfold kids. setoid_rewrite elem_of_cons. naive_solver. }
  induction ixs as [|i ixs IH]; intros k l Hnd Hr.
  { exists k, l. split; [done|]. split; [done|]. split; [|done]. intros r. split; [by left|].
    intros [?|(i & Hi & _)]; [done|by apply elem_of_nil in Hi]. }
  cbn [freewalk_loop]. pose proof Hr as (_ & _ & (pg & Hpg & _) & Hix). destruct (Hix i) as (Hi & Hent & _); [by left|].
  erewrite bind_ok by (apply (ld64_ent kend); [done|eauto|done]). cbv beta.
  destruct (c i) as [p|] eqn:Hc; cbn in Hent.
  - rewrite Hent, has_mkpte by done. change (has PTE_V PTE_V) with true.
    rewrite ptr_no_rwx by (by apply (c_ok i)). rewrite bool_decide_true by done. cbn [andb]. rewrite <-Hent.
    destruct (child_step i ixs p k l Hnd Hr Hc) as (k1 & l1 & Hrun & Hr1 & Hl1 & Hm1).
    erewrite bind_ok by exact Hrun. apply NoDup_cons in Hnd as [_ Hnd].
    destruct (IH k1 l1 Hnd Hr1) as (k2 & l2 & Hrun2 & Hr2 & Hl2 & Hm2). exists k2, l2.
    split; [done|]. split; [done|]. split.
    + intros r. rewrite Hl2, Hl1, Hkids, Hc. naive_solver.
    + intros r Hrq Hnk. rewrite Hkids, Hc in Hnk. rewrite Hm2, Hm1; [done|done|naive_solver|done|naive_solver].
  - rewrite Hent. cbn [andb when]. erewrite bind_ok by reflexivity. cbv beta.
    apply NoDup_cons in Hnd as [_ Hnd]. destruct (IH k l Hnd) as (k2 & l2 & Hrun2 & Hr2 & Hl2 & Hm2).
    { destruct Hr as (? & ? & ? & Hall). split; [done|]. split; [done|]. split; [done|]. intros j Hj. apply Hall. by right. }
    exists k2, l2. split; [done|]. split; [done|]. split.
    + intros r. rewrite Hl2, Hkids, Hc. split; [tauto|]. intros [?|[[[? ?] _]|?]]; by auto.
    + intros r Hrq Hnk. apply Hm2; [done|]. rewrite Hkids in Hnk. tauto.
Qed.

(** The whole table: its children and then the table itself. *)
Lemma freewalk_table k l :
  ready (seqZ 0 512) k l →
  ∃ k' l', (freewalk_loop child q (seqZ 0 512);; kfree kend q) k = Ok tt k' ∧
    gives k l k' l' (λ r, r = q ∨ kids (seqZ 0 512) r).
Proof.
  intros Hr. destruct (freewalk_loop_spec (seqZ 0 512) k l (NoDup_seqZ _ _) Hr) as (k1 & l1 & Hrun & Hr1 & Hl1 & Hm1).
  destruct Hr1 as (Hk1 & Hq1 & (pg & Hpg & _) & _).
  destruct (kfree_gives k1 l1 q Hk1 q_ok Hq1 ltac:(eauto)) as (k2 & Hrun2 & [Hk2 Hl2 Hm2]).
  exists k2, (q :: l1). erewrite bind_ok by exact Hrun. split; [done|]. split; [done|..].
  - intros r. rewrite Hl2, Hl1. split; [intros [[?|?]|?]; auto|intros [?|[?|?]]; auto].
  - intros r Hout. assert (r ≠ q) by (intros ->; apply Hout; by left).
    rewrite Hm2, Hm1; [done|done|intros ?; apply Hout; by right|congruence].
Qed.
End loop.

(** ** The three levels *)

(** A last-level table without valid entries. *)
Definition dead0 (p : Z) (pm : gmap Z (list Z)) : Prop :=
  (∃ pg, pm !! p = Some pg ∧ is_page pg) ∧ ∀ i, 0 ≤ i < 512 → has (ent pm p i) PTE_V = false.
Lemma ent_frame pm pm' p i : pm' !! p = pm !! p → ent pm' p i = ent pm p i.
Proof. intros He. unfold ent. by rewrite !lookup_total_alt, He. Qed.
Lemma dead0_frame p pm pm' : dead0 p pm → pm' !! p = pm !! p → dead0 p pm'.
Proof.
  intros [Hp Hi] He. split; [by rewrite He|]. intros i Hr. rewrite (ent_frame pm) by done. auto.
Qed.

Lemma freewalk0 k l p :
  kinv k l → page_ok p → p ∉ l → dead0 p (pmem k) →
  ∃ k' l', freewalk kend 1 p k = Ok tt k' ∧ gives k l k' l' (eq p).
Proof.
  intros Hk Hp Hl [Hpg Hdead]. cbn [freewalk].
  destruct (freewalk_table (freewalk kend 0) p (λ _, None) (λ _ _, False) (λ _ _, True)) with (k := k) (l := l)
    as (k' & l' & Hrun & [Hk' Hl' Hm']); [done|by intros|by intros|done|done|by intros ? []| |].
  - split; [done|]. split; [done|]. split; [done|]. intros i Hi%elem_of_seqZ. split; [lia|]. split; [apply Hdead; lia|].
    by intros [? ?].
  - exists k', l'. split; [exact Hrun|]. split; [done|..].
    + intros r. rewrite Hl'. split; [|intros [?|<-]; auto]. intros [?|[->|(i & _ & [? ?] & _)]]; [by left|by right|done].
    + intros r Hr. apply Hm'. intros [->|(i & _ & [? ?] & _)]; done.
Qed.

Definition sub1 (t : ptree) (i2 : Z) (r : Z) : Prop := p_l1 t !! i2 = Some r ∨ ∃ i1, p_l0 t !! (i2, i1) = Some r.
Definition dead1 (t : ptree) (i2 : Z) (pm : gmap Z (list Z)) : Prop :=
  (∀ p, p_l1 t !! i2 = Some p → (∃ pg, pm !! p = Some pg ∧ is_page pg) ∧
     ∀ i1, 0 ≤ i1 < 512 → ptr_entry (p_l0 t !! (i2, i1)) (ent pm p i1)) ∧
  ∀ i1 p, p_l0 t !! (i2, i1) = Some p → dead0 p pm.
Lemma dead1_frame t i2 pm pm' : dead1 t i2 pm → (∀ r, sub1 t i2 r → pm' !! r = pm !! r) → dead1 t i2 pm'.
Proof.
  intros [H1 H0] Hf. split.
  - intros p Hp. assert (He : pm' !! p = pm !! p) by (apply Hf; by left). destruct (H1 p Hp) as [Hpg Hent].
    split; [by rewrite He|]. intros i1 Hi. rewrite (ent_frame pm) by done. auto.
  - intros i1 p Hp. eapply dead0_frame; [by eapply H0|]. apply Hf. right. eauto.
Qed.

Section tree.
Context (t : ptree) (pm0 : gmap Z (list Z)) (Hrep : pt_rep kend pm0 t).

Lemma freewalk1 i2 p1 k l :
  p_l1 t !! i2 = Some p1 → kinv k l → dead1 t i2 (pmem k) → (∀ r, sub1 t i2 r → r ∉ l) →
  ∃ k' l', freewalk kend 2 p1 k = Ok tt k' ∧ gives k l k' l' (sub1 t i2).
Proof.
  intros H1 Hk [Hd1 Hd0] Hout. destruct (Hd1 p1 H1) as [Hpg Hent].
  assert (Hok : ∀ g p, tbl t g = Some p → page_ok p) by (intros g p Hg; apply (pr_ok _ _ _ Hrep); by exists g).
  cbn [freewalk]. fold (freewalk kend 1).
  destruct (freewalk_table (freewalk kend 1) p1 (λ i1, p_l0 t !! (i2, i1)) (λ i1 r, p_l0 t !! (i2, i1) = Some r)
    (λ i1 pm, ∀ p, p_l0 t !! (i2, i1) = Some p → dead0 p pm)) with (k := k) (l := l) as (k' & l' & Hrun & [Hk' Hl' Hm']).
  - by apply (Hok (T1 i2)).
  - intros i1 p Hp. by apply (Hok (T0 i2 i1)).
  - intros i1 p k1 l1 Hp Hk1 Hdp Hout1.
    destruct (freewalk0 k1 l1 p) as (k2 & l2 & Hrun & [Hk2 Hl2 Hm2]); [done|by apply (Hok (T0 i2 i1))|by apply Hout1|by apply Hdp|].
    exists k2, l2. split; [done|]. split; [done|..].
    + intros r. rewrite Hl2, Hp. split; (intros [?|?]; [by left|right; congruence]).
    + intros r Hr. apply Hm2. intros ->. by apply Hr.
  - intros i1 pm pm' Hd Hf p Hp. eapply dead0_frame; [by apply Hd|]. by apply Hf.
  - intros i j r Hi Hj. pose proof (pr_distinct _ _ _ Hrep (T0 i2 i) (T0 i2 j) r Hi Hj). congruence.
  - intros i Hi. pose proof (pr_distinct _ _ _ Hrep (T0 i2 i) (T1 i2) p1 Hi H1). congruence.
  - split; [done|]. split; [apply Hout; by left|]. split; [done|]. intros i Hi%elem_of_seqZ. split; [lia|].
    split; [apply Hent; lia|]. intros _. split; [intros p Hp; by eapply Hd0|]. intros r Hr. apply Hout. right. eauto.
  - exists k', l'. split; [exact Hrun|].
    assert (Hset : ∀ r, (r = p1 ∨ kids (λ i1, p_l0 t !! (i2, i1)) (λ i1 r, p_l0 t !! (i2, i1) = Some r) (seqZ 0 512) r) ↔ sub1 t i2 r).
    { intros r. unfold sub1, kids. rewrite H1. split.
      - intros [->|(i & _ & _ & Hi)]; eauto.
      - intros [[= ->]|(i1 & Hi)]; [by left|]. right. exists i1. rewrite elem_of_seqZ. split; [|eauto].
        destruct (pr_l0_dom _ _ _ Hrep i2 i1) as [_ ?]; [eauto|lia]. }
    split; [done|..]; intros r; [by rewrite Hl', Hset|]. intros Hr. apply Hm'. by rewrite Hset.
Qed.
End tree.

(** [freewalk] of a page table without leaves gives back all its tables. *)
Lemma freewalk_spec k l t :
  vst k l t → p_leaf t = ∅ →
  ∃ k' l', freewalk kend 3 (p_root t) k = Ok tt k' ∧ gives k l k' l' (is_table t).
Proof.
  intros [Hk Hrep Hap] Hleaf. pose proof Hrep as [Hpg Hr H1 H0 Hd1 Hd0 _ Hdist Hok].
  assert (Hdead : ∀ i2, dead1 t i2 (pmem k)).
  { intros i2. split.
    - intros p Hp. split; [apply Hpg; by exists (T1 i2)|]. intros i1 Hi. by apply H1.
    - intros i1 p Hp. split; [apply Hpg; by exists (T0 i2 i1)|]. intros i Hi.
      pose proof (H0 i2 i1 p i Hp Hi) as He. rewrite Hleaf, lookup_empty in He. done. }
  assert (Hsub : ∀ i2 r, sub1 t i2 r → is_table t r) by (intros i2 r [?|[i1 ?]]; [by exists (T1 i2)|by exists (T0 i2 i1)]).
  cbn [freewalk]. fold (freewalk kend 2).
  destruct (freewalk_table (freewalk kend 2) (p_root t) (λ i2, p_l1 t !! i2) (sub1 t) (dead1 t)) with (k := k) (l := l)
    as (k' & l' & Hrun & [Hk' Hl' Hm']).
  - apply Hok. by exists TRoot.
  - intros i p Hp. apply Hok. by exists (T1 i).
  - intros i p k1 l1 Hp Hk1 Hd Hout. by apply (freewalk1 t (pmem k) Hrep i).
  - intros i pm pm'. apply dead1_frame.
  - intros i j r [Hi|[i1 Hi]] [Hj|[j1 Hj]].
    + pose proof (Hdist (T1 i) (T1 j) r Hi Hj). congruence.
    + pose proof (Hdist (T1 i) (T0 j j1) r Hi Hj). congruence.
    + pose proof (Hdist (T0 i i1) (T1 j) r Hi Hj). congruence.
    + pose proof (Hdist (T0 i i1) (T0 j j1) r Hi Hj). congruence.
  - intros i [Hi|[i1 Hi]]; [pose proof (Hdist (T1 i) TRoot _ Hi eq_refl)|pose proof (Hdist (T0 i i1) TRoot _ Hi eq_refl)]; congruence.
  - split; [done|]. split; [apply Hap; by exists TRoot|]. split; [apply Hpg; by exists TRoot|].
    intros i Hi%elem_of_seqZ. split; [lia|]. split; [apply Hr; lia|]. intros _. split; [done|].
    intros r Hs. by eapply Hap, Hsub.
  - exists k', l'. split; [exact Hrun|].
    assert (Hset : ∀ r, (r = p_root t ∨ kids (λ i2, p_l1 t !! i2) (sub1 t) (seqZ 0 512) r) ↔ is_table t r).
    { intros r. unfold kids. split.
      - intros [->|(i & _ & _ & Hs)]; [by exists TRoot|by eapply Hsub].
      - intros [[|i2|i2 i1] Hg]; cbn in Hg; [left; congruence|..]; right; exists i2; rewrite elem_of_seqZ.
        + split; [pose proof (Hd1 i2 ltac:(eauto)); lia|]. split; [eauto|by left].
        + destruct (Hd0 i2 i1) as [Hs _]; [eauto|]. split; [pose proof (Hd1 i2 Hs); lia|]. split; [done|]. right. eauto. }
    split; [done|..]; intros r; [by rewrite Hl', Hset|]. intros Hr'. apply Hm'. by rewrite Hset.
Qed.
End free.
End UserFree.
