(* ===== verification/Proc.v ===== *)
(** Processes: [kernel/proc.c].

    The process table is a list of [NPROC] slots; a [struct proc *] is an index.
    What a system call does between two points where it may block is one
    operation; [sched] ends it with [Sleep].  Open files and inodes are behind an
    interface. *)

From S2P Require Import Prelude Riscv CString Kalloc Vm.
Import Kalloc Vm.

Local Open Scope Z_scope.

(** ** What processes need of the file system *)
Class FileOps (F : Type) := {
  filedup : Z → M F Z;
  (** Closing the last reference to a pipe frees its page; the result lists the
      addresses [wakeup] is called on. *)
  fileclose (kend : Z) : Z → M (kmem * F) (list Z);
  idup : Z → M F Z;
  (** [begin_op(); iput(ip); end_op();] *)
  iput : Z → M F unit;
  namei_root : M F Z;
}.

Module Proc.

Definition NOFILE : Z := 16.

Inductive procstate := UNUSED | USED | SLEEPING | RUNNABLE | RUNNING | ZOMBIE.
#[export] Instance procstate_eq_dec : EqDecision procstate.
Proof. solve_decision. Defined.

(** The address a process sleeps on: a process (in [wait]) or some other object. *)
Inductive channel := ChNull | ChProc (i : nat) | ChAddr (a : Z).
#[export] Instance channel_eq_dec : EqDecision channel.
Proof. solve_decision. Defined.

Record proc := MkProc {
  state : procstate;
  chan : channel;
  killed : Z;
  xstate : Z;
  pid : Z;
  parent : option nat;
  kstack : Z;
  sz : Z;
  pagetable : Z;
  trapframe : Z;
  ctx_ra : Z;
  ctx_sp : Z;
  ofile : list Z;
  cwd : Z;
  name : list Z;
}.

(** Byte offsets in [struct trapframe]. *)
Definition tf_size : nat := 288.
Definition tf_epc : nat := 24.
Definition tf_sp : nat := 48.
Definition tf_a0 : nat := 112.

Section proc.
Context {F : Type} `{FileOps F}.
Context (kend trampoline forkret : Z).

Record ps := MkPs {
  procs : list proc;
  nextpid : Z;
  initproc : option nat;
  mem : kmem;
  fs : F;
}.

Definition on_mem {A} (m : M kmem A) : M ps A :=
  zoom mem (λ k s, MkPs (procs s) (nextpid s) (initproc s) k (fs s)) m.
Definition on_fs {A} (m : M F A) : M ps A :=
  zoom fs (λ f s, MkPs (procs s) (nextpid s) (initproc s) (mem s) f) m.
Definition on_file {A} (m : M (kmem * F) A) : M ps A :=
  zoom (λ s, (mem s, fs s)) (λ x s, MkPs (procs s) (nextpid s) (initproc s) x.1 x.2) m.
Definition getp (i : nat) : M ps proc := s ← get; of_option (procs s !! i).
Definition setp (i : nat) (f : proc → proc) : M ps unit :=
  s ← get;
  match procs s !! i with
  | Some p => put (MkPs (<[i := f p]> (procs s)) (nextpid s) (initproc s) (mem s) (fs s))
  | None => undef
  end.

(** Field updates. *)
Definition set_state (x : procstate) (p : proc) : proc :=
  MkProc x (chan p) (killed p) (xstate p) (pid p) (parent p) (kstack p) (sz p) (pagetable p) (trapframe p)
    (ctx_ra p) (ctx_sp p) (ofile p) (cwd p) (name p).
Definition set_chan (x : channel) (p : proc) : proc :=
  MkProc (state p) x (killed p) (xstate p) (pid p) (parent p) (kstack p) (sz p) (pagetable p) (trapframe p)
    (ctx_ra p) (ctx_sp p) (ofile p) (cwd p) (name p).
Definition set_killed (x : Z) (p : proc) : proc :=
  MkProc (state p) (chan p) x (xstate p) (pid p) (parent p) (kstack p) (sz p) (pagetable p) (trapframe p)
    (ctx_ra p) (ctx_sp p) (ofile p) (cwd p) (name p).
Definition set_xstate (x : Z) (p : proc) : proc :=
  MkProc (state p) (chan p) (killed p) x (pid p) (parent p) (kstack p) (sz p) (pagetable p) (trapframe p)
    (ctx_ra p) (ctx_sp p) (ofile p) (cwd p) (name p).
Definition set_pid (x : Z) (p : proc) : proc :=
  MkProc (state p) (chan p) (killed p) (xstate p) x (parent p) (kstack p) (sz p) (pagetable p) (trapframe p)
    (ctx_ra p) (ctx_sp p) (ofile p) (cwd p) (name p).
Definition set_parent (x : option nat) (p : proc) : proc :=
  MkProc (state p) (chan p) (killed p) (xstate p) (pid p) x (kstack p) (sz p) (pagetable p) (trapframe p)
    (ctx_ra p) (ctx_sp p) (ofile p) (cwd p) (name p).
Definition set_kstack (x : Z) (p : proc) : proc :=
  MkProc (state p) (chan p) (killed p) (xstate p) (pid p) (parent p) x (sz p) (pagetable p) (trapframe p)
    (ctx_ra p) (ctx_sp p) (ofile p) (cwd p) (name p).
Definition set_sz (x : Z) (p : proc) : proc :=
  MkProc (state p) (chan p) (killed p) (xstate p) (pid p) (parent p) (kstack p) x (pagetable p) (trapframe p)
    (ctx_ra p) (ctx_sp p) (ofile p) (cwd p) (name p).
Definition set_pagetable (x : Z) (p : proc) : proc :=
  MkProc (state p) (chan p) (killed p) (xstate p) (pid p) (parent p) (kstack p) (sz p) x (trapframe p)
    (ctx_ra p) (ctx_sp p) (ofile p) (cwd p) (name p).
Definition set_trapframe (x : Z) (p : proc) : proc :=
  MkProc (state p) (chan p) (killed p) (xstate p) (pid p) (parent p) (kstack p) (sz p) (pagetable p) x
    (ctx_ra p) (ctx_sp p) (ofile p) (cwd p) (name p).
Definition set_context (ra sp : Z) (p : proc) : proc :=
  MkProc (state p) (chan p) (killed p) (xstate p) (pid p) (parent p) (kstack p) (sz p) (pagetable p) (trapframe p)
    ra sp (ofile p) (cwd p) (name p).
Definition set_ofile (x : list Z) (p : proc) : proc :=
  MkProc (state p) (chan p) (killed p) (xstate p) (pid p) (parent p) (kstack p) (sz p) (pagetable p) (trapframe p)
    (ctx_ra p) (ctx_sp p) x (cwd p) (name p).
Definition set_cwd (x : Z) (p : proc) : proc :=
  MkProc (state p) (chan p) (killed p) (xstate p) (pid p) (parent p) (kstack p) (sz p) (pagetable p) (trapframe p)
    (ctx_ra p) (ctx_sp p) (ofile p) x (name p).
Definition set_name (x : list Z) (p : proc) : proc :=
  MkProc (state p) (chan p) (killed p) (xstate p) (pid p) (parent p) (kstack p) (sz p) (pagetable p) (trapframe p)
    (ctx_ra p) (ctx_sp p) (ofile p) (cwd p) x.

(** ** Allocation *)

Definition allocpid : M ps Z :=
  s ← get;
  put (MkPs (procs s) (s32 (nextpid s + 1)) (initproc s) (mem s) (fs s));;
  mret (nextpid s).

(** [proc_pagetable], given the process's trap frame. *)
Definition make_pagetable (tf : Z) : M kmem Z :=
  pt ← uvmcreate;
  if bool_decide (pt = 0) then mret 0 else
  r ← mappages pt TRAMPOLINE PGSIZE trampoline (Z.lor PTE_R PTE_X);
  if bool_decide (r < 0) then uvmfree kend pt 0;; mret 0 else
  r ← mappages pt TRAPFRAME PGSIZE tf (Z.lor PTE_R PTE_W);
  if bool_decide (r < 0) then uvmunmap kend pt TRAMPOLINE 1 false;; uvmfree kend pt 0;; mret 0 else
  mret pt.
Definition proc_pagetable (i : nat) : M ps Z := p ← getp i; on_mem (make_pagetable (trapframe p)).

Definition proc_freepagetable (pt size : Z) : M kmem unit :=
  uvmunmap kend pt TRAMPOLINE 1 false;;
  uvmunmap kend pt TRAPFRAME 1 false;;
  uvmfree kend pt size.

Definition freeproc (i : nat) : M ps unit :=
  p ← getp i;
  when (bool_decide (trapframe p ≠ 0)) (on_mem (kfree kend (trapframe p)));;
  setp i (set_trapframe 0);;
  when (bool_decide (pagetable p ≠ 0)) (on_mem (proc_freepagetable (pagetable p) (sz p)));;
  setp i (λ p, set_state UNUSED (set_xstate 0 (set_killed 0 (set_chan ChNull (set_name (<[0%nat := 0]> (name p))
                 (set_parent None (set_pid 0 (set_sz 0 (set_pagetable 0 p)))))))))%Z.

(** The scan of [allocproc] for an unused slot. *)
Fixpoint find_unused (k i : nat) : M ps (option nat) :=
  match k with
  | O => mret None
  | S k => p ← getp i; if bool_decide (state p = UNUSED) then mret (Some i) else find_unused k (S i)
  end.
Definition allocproc : M ps (option nat) :=
  found ← find_unused (Z.to_nat NPROC) 0;
  match found with
  | None => mret None
  | Some i =>
      n ← allocpid;
      setp i (set_pid n);;
      setp i (set_state USED);;
      tf ← on_mem kalloc;
      setp i (set_trapframe tf);;
      if bool_decide (tf = 0) then freeproc i;; mret None else
      pt ← proc_pagetable i;
      setp i (set_pagetable pt);;
      if bool_decide (pt = 0) then freeproc i;; mret None else
      setp i (λ p, set_context forkret (kstack p + PGSIZE) p);;
      mret (Some i)
  end.

(** [memset(&p->lock...)] aside, [procinit] marks the slots unused. *)
Fixpoint procinit_loop (ixs : list Z) : M ps unit :=
  match ixs with
  | [] => mret tt
  | i :: ixs => setp (Z.to_nat i) (λ p, set_kstack (KSTACK i) (set_state UNUSED p));; procinit_loop ixs
  end.
Definition procinit : M ps unit := procinit_loop (seqZ 0 NPROC).

(** ** The first process *)

Definition initcode : list Z :=
  [0x17; 0x05; 0x00; 0x00; 0x13; 0x05; 0x45; 0x02;
   0x97; 0x05; 0x00; 0x00; 0x93; 0x85; 0x35; 0x02;
   0x93; 0x08; 0x70; 0x00; 0x73; 0x00; 0x00; 0x00;
   0x93; 0x08; 0x20; 0x00; 0x73; 0x00; 0x00; 0x00;
   0xef; 0xf0; 0x9f; 0xff; 0x2f; 0x69; 0x6e; 0x69;
   0x74; 0x00; 0x00; 0x24; 0x00; 0x00; 0x00; 0x00;
   0x00; 0x00; 0x00; 0x00].
(** "initcode", terminated. *)
Definition initcode_name : list Z := [105; 110; 105; 116; 99; 111; 100; 101; 0].

(** A 64-bit field of a trap frame. *)
Definition tf_put (tf : Z) (off : nat) (v : Z) : M kmem unit :=
  x ← load_page tf; store_page tf (wr 8 off v x).

Definition userinit : M ps unit :=
  found ← allocproc;
  s ← get;
  put (MkPs (procs s) (nextpid s) found (mem s) (fs s));;
  i ← of_option found;
  p ← getp i;
  on_mem (uvmfirst (pagetable p) initcode);;
  setp i (set_sz PGSIZE);;
  on_mem (tf_put (trapframe p) tf_epc 0);;
  on_mem (tf_put (trapframe p) tf_sp PGSIZE);;
  nm ← of_option (Str.safestrcpy (name p) initcode_name 16);
  setp i (set_name nm);;
  root ← on_fs namei_root;
  setp i (set_cwd root);;
  setp i (set_state RUNNABLE).

(** [growproc(n)] of process [i]. *)
Definition growproc (i : nat) (n : Z) : M ps Z :=
  p ← getp i;
  if bool_decide (n > 0) then
    r ← on_mem (uvmalloc kend (pagetable p) (sz p) (u64 (sz p + n)) PTE_W);
    if bool_decide (r = 0) then mret (-1) else setp i (set_sz r);; mret 0
  else if bool_decide (n < 0) then
    r ← on_mem (uvmdealloc kend (pagetable p) (sz p) (u64 (sz p + n)));
    setp i (set_sz r);; mret 0
  else setp i (set_sz (sz p));; mret 0.

(** ** Fork *)

(** [*(np->trapframe) = *(p->trapframe); np->trapframe->a0 = 0;] *)
Definition copy_trapframe (src dst : Z) : M kmem unit :=
  x ← load_page src;
  y ← load_page dst;
  store_page dst (splice 0 (take tf_size x) y);;
  tf_put dst tf_a0 0.

(** The descriptors of [fs] duplicated from slot [fd] on. *)
Fixpoint dup_files (fls : list Z) (fd : nat) (np : nat) : M ps unit :=
  match fls with
  | [] => mret tt
  | f :: fls =>
      (if bool_decide (f ≠ 0) then
         g ← on_fs (filedup f); setp np (λ q, set_ofile (<[fd := g]> (ofile q)) q)
       else mret tt);;
      dup_files fls (S fd) np
  end.

Definition fork (cur : nat) : M ps Z :=
  p ← getp cur;
  found ← allocproc;
  match found with
  | None => mret (-1)
  | Some np =>
      q ← getp np;
      r ← on_mem (uvmcopy kend (pagetable p) (pagetable q) (sz p));
      if bool_decide (r < 0) then freeproc np;; mret (-1) else
      setp np (set_sz (sz p));;
      on_mem (copy_trapframe (trapframe p) (trapframe q));;
      dup_files (ofile p) 0 np;;
      dir ← on_fs (idup (cwd p));
      setp np (set_cwd dir);;
      nm ← of_option (Str.safestrcpy (name q) (name p) 16);
      setp np (set_name nm);;
      setp np (set_parent (Some cur));;
      setp np (set_state RUNNABLE);;
      mret (pid q)
  end.

(** ** Sleep and wakeup *)

(** [sched]: the process must have changed its state; it runs again later. *)
Definition sched (i : nat) {A} : M ps A :=
  p ← getp i;
  if bool_decide (state p = RUNNING) then panic "sched running" else block.

Definition wake (ch : channel) (cur : option nat) (i : nat) (p : proc) : proc :=
  if (bool_decide (Some i ≠ cur) && bool_decide (state p = SLEEPING) && bool_decide (chan p = ch))%bool
  then set_state RUNNABLE p else p.
(** [wakeup(ch)] by process [cur], or by an interrupt with no process. *)
Definition wakeup (ch : channel) (cur : option nat) : M ps unit :=
  modify (λ s, MkPs (imap (wake ch cur) (procs s)) (nextpid s) (initproc s) (mem s) (fs s)).

(** [sleep(ch, lk)] up to the switch to the scheduler. *)
Definition sleep (cur : nat) (ch : channel) {A} : M ps A :=
  setp cur (set_chan ch);; setp cur (set_state SLEEPING);; sched cur.
(** What [sleep] does once it runs again. *)
Definition sleep_resume (cur : nat) : M ps unit := setp cur (set_chan ChNull).

Definition yield (cur : nat) {A} : M ps A := setp cur (set_state RUNNABLE);; sched cur.

(** The scheduler's choice of a runnable process. *)
Definition schedule (i : nat) : M ps bool :=
  p ← getp i;
  if bool_decide (state p = RUNNABLE) then setp i (set_state RUNNING);; mret true else mret false.

(** ** Kill *)

Fixpoint kill_from (k i : nat) (n : Z) : M ps Z :=
  match k with
  | O => mret (-1)
  | S k =>
      p ← getp i;
      if bool_decide (pid p = n) then
        setp i (set_killed 1);;
        when (bool_decide (state p = SLEEPING)) (setp i (set_state RUNNABLE));;
        mret 0
      else kill_from k (S i) n
  end.
Definition kill (n : Z) : M ps Z := kill_from (Z.to_nat NPROC) 0 n.
Definition setkilled (i : nat) : M ps unit := setp i (set_killed 1).
Definition is_killed (i : nat) : M ps Z := p ← getp i; mret (killed p).

(** ** Exit and wait *)

(** [reparent(p)]: children go to [initproc], which is woken for each. *)
Fixpoint reparent_from (k i : nat) (cur : nat) : M ps unit :=
  match k with
  | O => mret tt
  | S k =>
      p ← getp i;
      (if bool_decide (parent p = Some cur) then
         s ← get;
         setp i (set_parent (initproc s));;
         wakeup (match initproc s with Some j => ChProc j | None => ChNull end) (Some cur)
       else mret tt);;
      reparent_from k (S i) cur
  end.
Definition reparent (cur : nat) : M ps unit := reparent_from (Z.to_nat NPROC) 0 cur.

Fixpoint wake_all (chs : list Z) (cur : nat) : M ps unit :=
  match chs with
  | [] => mret tt
  | a :: chs => wakeup (ChAddr a) (Some cur);; wake_all chs cur
  end.
(** The body of the loop of [exit] over the descriptors. *)
Definition close_fd (cur fd : nat) (f : Z) : M ps unit :=
  chs ← on_file (fileclose kend f);
  wake_all chs cur;;
  setp cur (λ q, set_ofile (<[fd := 0]> (ofile q)) q).
Fixpoint close_files (fls : list Z) (fd : nat) (cur : nat) : M ps unit :=
  match fls with
  | [] => mret tt
  | f :: fls =>
      (if bool_decide (f ≠ 0) then close_fd cur fd f else mret tt);;
      close_files fls (S fd) cur
  end.
(** The part of [exit] with [wait_lock] held. *)
Definition exit_zombie (cur : nat) (status : Z) {A} : M ps A :=
  reparent cur;;
  p ← getp cur;
  wakeup (match parent p with Some j => ChProc j | None => ChNull end) (Some cur);;
  setp cur (set_xstate status);;
  setp cur (set_state ZOMBIE);;
  sched cur.
Definition exit_cwd (cur : nat) : M ps unit :=
  p ← getp cur;
  on_fs (iput (cwd p));;
  setp cur (set_cwd 0).

(** [exit(status)] never returns: it ends in [sched]. *)
Definition exit (cur : nat) (status : Z) : M ps unit :=
  p ← getp cur;
  s ← get;
  if bool_decide (initproc s = Some cur) then panic "init exiting" else
  close_files (ofile p) 0 cur;;
  exit_cwd cur;;
  exit_zombie cur status.

(** One scan of [wait]: a zombie child, or whether there is any child. *)
Fixpoint wait_scan (k i : nat) (cur : nat) (havekids : bool) : M ps (nat + bool) :=
  match k with
  | O => mret (inr havekids)
  | S k =>
      p ← getp i;
      if bool_decide (parent p = Some cur) then
        if bool_decide (state p = ZOMBIE) then mret (inl i) else wait_scan k (S i) cur true
      else wait_scan k (S i) cur havekids
  end.
Definition wait (cur : nat) (addr : Z) : M ps Z :=
  r ← wait_scan (Z.to_nat NPROC) 0 cur false;
  p ← getp cur;
  match r with
  | inl i =>
      pp ← getp i;
      c ← (if bool_decide (addr ≠ 0) then on_mem (copyout (pagetable p) addr (le_to 4 (u32 (xstate pp)))) else mret 0);
      if bool_decide (c < 0) then mret (-1) else
      freeproc i;; mret (pid pp)
  | inr havekids =>
      if (negb havekids || bool_decide (killed p ≠ 0))%bool then mret (-1)
      else sleep cur (ChProc cur)
  end.
End proc.
End Proc.
