(* ===== verification/ProcMem.v ===== *)
(** The memory of a process: page tables as [proc_pagetable] builds them and
    [proc_freepagetable] takes them down ([kernel/proc.c]). *)

From S2P Require Import Prelude Riscv Kalloc Vm PageTable UserMem UserCopy UserFree Proc.
Import Kalloc Vm PageTable UserMem UserCopy UserFree Proc.

Local Open Scope Z_scope.

Module ProcMem.

Section procmem.
Context (kend trampoline : Z) (kend_pos : 0 < kend).
(** The trampoline is a page of kernel code. *)
Hypothesis tramp_ok : pa_ok trampoline.
Hypothesis tramp_kernel : trampoline + 4096 ≤ 2 ^ 54.
Notation page_ok := (Kalloc.page_ok kend).
Notation kinv := (Kalloc.kinv kend).
Notation vst := (PageTable.vst kend).
Notation uspace := (UserMem.uspace kend).
Notation ustep := (UserMem.ustep kend).
Notation grows := (PageTable.grows kend).
Notation gives := (UserFree.gives kend).

(** ** Moving pages *)

(** Pages go between the free list and an owner, who had [A] and now has [B];
    nobody else's memory changes. *)
Record moves (k : kmem) (l : list Z) (A : Z → Prop) (k' : kmem) (l' : list Z) (B : Z → Prop) : Prop := {
  mv_inv : kinv k' l';
  mv_pages p : p ∈ l' ∨ B p ↔ p ∈ l ∨ A p;
  mv_apart p : B p → p ∉ l';
  mv_mem q : ¬ (q ∈ l ∨ A q) → pmem k' !! q = pmem k !! q;
}.

Lemma moves_refl k l A : kinv k l → (∀ p, A p → p ∉ l) → moves k l A k l A.
Proof. by intros. Qed.
Lemma moves_trans k l A k1 l1 A1 k2 l2 A2 : moves k l A k1 l1 A1 → moves k1 l1 A1 k2 l2 A2 → moves k l A k2 l2 A2.
Proof.
  intros [H1 Hp1 Ha1 Hm1] [H2 Hp2 Ha2 Hm2]. split; [done| |done|].
  - intros p. by rewrite Hp2.
  - intros q Hq. rewrite Hm2, Hm1; [done|done|by rewrite Hp1].
Qed.
Lemma moves_ext k l A k' l' B A' B' :
  moves k l A k' l' B → (∀ p, A p ↔ A' p) → (∀ p, B p ↔ B' p) → moves k l A' k' l' B'.
Proof.
  intros [H1 Hp1 Ha1 Hm1] HA HB. split; [done|..].
  - intros p. by rewrite <-HA, <-HB.
  - intros p. rewrite <-HB. auto.
  - intros q. rewrite <-HA. auto.
Qed.

Lemma gives_moves k l k' l' S : gives k l k' l' S → moves k l S k' l' (λ _, False).
Proof.
  intros [Hk Hp Hm]. split; [done|..].
  - intros p. rewrite Hp. tauto.
  - done.
  - intros q Hq. apply Hm. tauto.
Qed.
Lemma ustep_moves k l t k' l' t' : ustep k l t k' l' t' → moves k l (upage t) k' l' (upage t').
Proof.
  intros [Hu Hp Hf _ _]. split; [apply Hu|done| |done]. intros p. by apply (upage_apart kend k').
Qed.
Lemma grows_moves k l t k' l' t' : grows k l t k' l' t' → moves k l (is_table t) k' l' (is_table t').
Proof.
  intros [Hst (used & -> & Ht) Hm _]. split; [apply Hst| |apply Hst|].
  - intros p. rewrite Ht, elem_of_app. tauto.
  - intros q Hq. apply Hm. rewrite Ht. rewrite elem_of_app in Hq. tauto.
Qed.

(** What a third party owns may be counted with either side. *)
Lemma moves_frame k l A k' l' B C :
  moves k l A k' l' B → (∀ p, C p → p ∉ l ∧ ¬ A p) → moves k l (λ p, A p ∨ C p) k' l' (λ p, B p ∨ C p).
Proof.
  intros [Hk Hp Ha Hm] HC. split; [done|..].
  - intros p. specialize (Hp p). tauto.
  - intros p [HB|Hc]; [auto|]. specialize (Hp p). destruct (HC p Hc). tauto.
  - intros q Hq. apply Hm. tauto.
Qed.

(** Pages outside stay outside. *)
Lemma moves_out k l A k' l' B p : moves k l A k' l' B → p ∉ l → ¬ A p → p ∉ l' ∧ ¬ B p ∧ pmem k' !! p = pmem k !! p.
Proof.
  intros [_ Hp _ Hm] Hl HA. specialize (Hp p). split; [tauto|]. split; [tauto|]. apply Hm. tauto.
Qed.

(** An address space somewhere else. *)
Lemma uspace_moves k l A k' l' B t :
  moves k l A k' l' B → uspace k l t → (∀ p, upage t p → ¬ A p) →
  uspace k' l' t ∧ asame k t k' t ∧ (∀ p, upage t p → ¬ B p).
Proof.
  intros Hmv Hu Hd.
  assert (Hout : ∀ p, upage t p → p ∉ l' ∧ ¬ B p ∧ pmem k' !! p = pmem k !! p).
  { intros p Hp. eapply moves_out; [done|by eapply upage_apart|by apply Hd]. }
  split; [|split].
  - eapply uspace_frame; [done|apply Hmv|..]; intros p Hp; by destruct (Hout p Hp) as (? & ? & ?).
  - intros v. apply aspace_frame. intros p Hp. by apply Hout.
  - intros p Hp. by apply Hout.
Qed.

(** ** The leaves above the user's memory *)

Definition tf_leaf (tf : Z) : Z := mkpte tf (Z.lor (Z.lor PTE_R PTE_W) PTE_V).
Definition tramp_leaf : Z := mkpte trampoline (Z.lor (Z.lor PTE_R PTE_X) PTE_V).
(** The only leaves from [v0] on are those of [m]. *)
Definition high (t : ptree) (m : gmap Z Z) : Prop := ∀ v, TFPN ≤ v → p_leaf t !! v = m !! v.

(** A page table that grew and whose leaves changed only above the user's memory. *)
Lemma high_space k l t k' l' t' :
  uspace k l t → grows k l t k' l' t' →
  (∀ v, v < TFPN → p_leaf t' !! v = p_leaf t !! v) →
  (∀ v w, TFPN ≤ v → p_leaf t' !! v = Some w → has w PTE_U = false) →
  uspace k' l' t' ∧ asame k t k' t' ∧ moves k l (upage t) k' l' (upage t').
Proof.
  intros Hu Hg Hlow Hhigh. pose proof Hu as [Hst Hlf Hinj _].
  assert (Hkeep : ∀ v w, v < TFPN → p_leaf t !! v = Some w →
    pmem k' !! PTE2PA w = pmem k !! PTE2PA w ∧ ¬ is_table t' (PTE2PA w) ∧ PTE2PA w ∉ l').
  { intros v w Hv Hw. destruct (Hlf v w Hv Hw) as (_ & Hl & Ht & _). by apply (grows_keep kend k l t). }
  assert (Hu' : uspace k' l' t').
  { split; [apply Hg|..].
    - intros v w Hv Hw. rewrite Hlow in Hw by done. destruct (Hlf v w Hv Hw) as (Hok & _ & _ & Hrwx & x & Hx & Hp).
      destruct (Hkeep v w Hv Hw) as (Hm & Ht' & Hl'). rewrite Hm. eauto 10.
    - intros v v' w w' Hv Hv'. rewrite !Hlow by done. by apply Hinj.
    - done. }
  split; [done|]. split.
  - intros v. destruct (decide (v < TFPN)) as [Hv|Hv]; [|unfold aspace; by rewrite !decide_False by done].
    by eapply grows_aspace; [done|done|apply Hlow].
  - assert (Hpg : ∀ p, upage t' p ↔ is_table t' p ∨ ∃ v w, v < TFPN ∧ p_leaf t !! v = Some w ∧ PTE2PA w = p).
    { intros p. unfold upage. split; (intros [?|(v & w & Hv & Hw & <-)]; [by left|right; exists v, w]).
      - rewrite Hlow in Hw by done. done.
      - rewrite Hlow by done. done. }
    destruct Hg as [Hst' (used & -> & Ht) Hm _]. split; [apply Hst'|..].
    + intros p. rewrite Hpg, Ht, elem_of_app. unfold upage. tauto.
    + intros p. by apply (upage_apart kend k').
    + intros q Hq. apply Hm. rewrite Ht. rewrite elem_of_app in Hq. unfold upage in Hq. tauto.
Qed.

Lemma map_high k l t va pa perm :
  uspace k l t → va mod 4096 = 0 → 0 ≤ va → TFPN ≤ va / 4096 → va + 4096 ≤ MAXVA → p_leaf t !! (va / 4096) = None →
  pa_ok pa → pa + 4096 ≤ 2 ^ 54 → 0 ≤ perm < 1024 → has perm PTE_U = false →
  ∃ r k' l' t', mappages (p_root t) va PGSIZE pa perm k = Ok r k' ∧ uspace k' l' t' ∧ asame k t k' t' ∧
    moves k l (upage t) k' l' (upage t') ∧ p_root t' = p_root t ∧
    (r = 0 ∧ p_leaf t' = <[va / 4096 := mkpte pa (Z.lor perm PTE_V)]> (p_leaf t) ∨ r = -1 ∧ p_leaf t' = p_leaf t).
Proof.
  intros Hu Hal Hva Hhi Hmax Hnone Hpa Hpmax Hperm HU. change MAXVA with (2 ^ 38) in Hmax.
  destruct (mappages_loop_spec kend kend_pos 0 k l t va pa perm) as (r & k' & l' & t' & m & Hrun & Hg & Hlr & Hres);
    [apply Hu|done|done|change MAXVA with (2 ^ 38); lia|done|lia|done| |].
  { intros i Hi. by replace (va / 4096 + i) with (va / 4096) by lia. }
  assert (Hlow : ∀ v, v < TFPN → p_leaf t' !! v = p_leaf t !! v).
  { intros v Hv. rewrite Hlr. by rewrite decide_False by lia. }
  destruct (perm_range perm Hperm) as [Hpr _].
  assert (Hh : ∀ v w, TFPN ≤ v → p_leaf t' !! v = Some w → has w PTE_U = false).
  { intros v w Hv Hw. rewrite Hlr in Hw. case_decide; [|by apply (us_high _ _ _ _ Hu v)]. injection Hw as <-.
    rewrite has_mkpte by done. by rewrite has_lor, HU. }
  destruct (high_space k l t k' l' t' Hu Hg Hlow Hh) as (Hu' & Has & Hmv).
  exists r, k', l', t'. split.
  { unfold mappages. change PGSIZE with 4096. rewrite bool_decide_false by lia. do 2 rewrite bool_decide_false by (vm_compute; congruence).
    rewrite u64_id by lia. rewrite <-Hrun. by replace (va + 4096 - 4096) with (va + 4096 * Z.of_nat 0) by lia. }
  split; [done|]. split; [done|]. split; [done|]. split; [apply Hg|].
  destruct Hres as [[-> ->]|(-> & -> & Hm0)]; [left|right]; (split; [done|]); apply map_eq; intros v; rewrite Hlr.
  - destruct (decide (v = va / 4096)) as [->|].
    + rewrite lookup_insert_eq, decide_True by lia. do 2 f_equal. lia.
    + by rewrite lookup_insert_ne, decide_False by lia.
  - by rewrite decide_False by lia.
Qed.

Lemma unmap_high k l t va w :
  uspace k l t → va mod 4096 = 0 → 0 ≤ va → TFPN ≤ va / 4096 → va + 4096 ≤ MAXVA →
  p_leaf t !! (va / 4096) = Some w → has w PTE_RWX = true →
  ∃ k' t', uvmunmap kend (p_root t) va 1 false k = Ok tt k' ∧ uspace k' l t' ∧ asame k t k' t' ∧
    moves k l (upage t) k' l (upage t') ∧ p_root t' = p_root t ∧ p_leaf t' = delete (va / 4096) (p_leaf t).
Proof.
  intros Hu Hal Hva Hhi Hmax Hw Hrwx. change MAXVA with (2 ^ 38) in Hmax.
  destruct (mapped_slot kend kend_pos k l t va w (us_st _ _ _ _ Hu) ltac:(change MAXVA with (2 ^ 38); lia) Hw)
    as (p & Hwalk & Hp0 & Hs & Hld & HV).
  destruct (st64_leaf kend kend_pos k l t va p 0 (us_st _ _ _ _ Hu) Hs ltac:(change MAXVA with (2 ^ 38); lia) ltac:(lia)) as (k' & Hst & Hg).
  assert (Hdel : p_leaf (set_leaf t (va / 4096) 0) = delete (va / 4096) (p_leaf t)) by done.
  destruct (high_space k l t k' l (set_leaf t (va / 4096) 0) Hu Hg) as (Hu' & Has & Hmv).
  { intros v Hv. rewrite Hdel. by rewrite lookup_delete_ne by lia. }
  { intros v x Hv. rewrite Hdel. intros [_ Hx]%lookup_delete_Some. by apply (us_high _ _ _ _ Hu v). }
  exists k', (set_leaf t (va / 4096) 0). split; [|done].
  unfold uvmunmap. change PGSIZE with 4096. rewrite bool_decide_false by lia. rewrite u64_id by lia.
  change (Z.to_nat 1) with 1%nat. cbn [uvmunmap_loop]. rewrite bool_decide_true by lia.
  erewrite bind_ok by exact Hwalk. cbv beta. rewrite bool_decide_false by done.
  erewrite bind_ok by exact Hld. cbv beta. rewrite HV. cbn [negb]. rewrite bool_decide_false by (by apply rwx_not_V).
  cbn [when]. erewrite bind_ok by reflexivity. cbv beta. erewrite bind_ok by exact Hst. cbv beta.
  change PGSIZE with 4096. rewrite u64_id, bool_decide_false by lia. done.
Qed.

(** ** Taking an address space down *)

(** The process's own pages are exactly those of its first [sz] bytes. *)
Definition sized (k : kmem) (t : ptree) (sz : Z) : Prop :=
  0 ≤ sz ≤ TRAPFRAME ∧ ∀ v, is_Some (aspace k t v) ↔ 0 ≤ v < npages sz.

Lemma uvmfree_spec k l t sz :
  uspace k l t → high t ∅ → sized k t sz →
  ∃ k' l', uvmfree kend (p_root t) sz k = Ok tt k' ∧ moves k l (upage t) k' l' (λ _, False).
Proof.
  intros Hu Hhi [Hsz Hmap]. destruct (PGROUNDUP_npages sz Hsz) as [Hup Hnp].
  assert (Hun : ∃ k1 l1 t1, when (bool_decide (sz > 0)) (uvmunmap kend (p_root t) 0 (PGROUNDUP sz / PGSIZE) true) k = Ok tt k1 ∧
    ustep k l t k1 l1 t1 ∧ ∀ v, aspace k1 t1 v = None).
  { assert (Hpg : PGROUNDUP sz / PGSIZE = npages sz) by (rewrite Hup; change PGSIZE with 4096; zlia). rewrite Hpg.
    case_bool_decide; cbn [when].
    - destruct (uvmunmap_free kend kend_pos k l t 0 (npages sz)) as (k1 & l1 & t1 & Hrun & Hst & Hclr);
        [done|done|lia|lia|rewrite TFPN_val in Hnp; change TRAPFRAME with (2 ^ 38 - 8192); lia|intros i Hi; apply Hmap; change (0 / 4096) with 0; lia|].
      exists k1, l1, t1. split; [done|]. split; [done|]. intros v. rewrite Hclr. change (0 / 4096) with 0. case_decide; [done|].
      destruct (aspace k t v) eqn:E; [|done]. destruct (proj1 (Hmap v)); [by rewrite E|lia].
    - exists k, l, t. split; [done|]. split; [by apply ustep_refl|]. intros v.
      destruct (aspace k t v) eqn:E; [|done]. destruct (proj1 (Hmap v)); [by rewrite E|]. unfold npages in *. zlia. }
  destruct Hun as (k1 & l1 & t1 & Hrun & Hst & Hnone).
  assert (Hleaf : p_leaf t1 = ∅).
  { apply map_eq. intros v. rewrite lookup_empty. destruct (decide (v < TFPN)) as [Hv|Hv].
    - by apply (aspace_None kend k1 l1 t1 v (st_space _ _ _ _ _ _ _ Hst) Hv).
    - rewrite (st_high _ _ _ _ _ _ _ Hst) by lia. by rewrite Hhi by lia. }
  destruct (freewalk_spec kend kend_pos k1 l1 t1 (us_st _ _ _ _ (st_space _ _ _ _ _ _ _ Hst)) Hleaf) as (k2 & l2 & Hrun2 & Hgv).
  exists k2, l2. unfold uvmfree. erewrite bind_ok by exact Hrun. rewrite <-(st_root _ _ _ _ _ _ _ Hst). split; [done|].
  eapply moves_trans; [by apply ustep_moves|]. eapply moves_ext; [by apply gives_moves| |done].
  intros p. unfold upage. rewrite Hleaf. split; [by left|]. intros [?|(v & w & _ & Hw & _)]; [done|by rewrite lookup_empty in Hw].
Qed.

(** ** A process's page table *)

Record pspace (k : kmem) (l : list Z) (t : ptree) (tf size : Z) : Prop := {
  sp_space : uspace k l t;
  sp_high : high t {[TFPN := tf_leaf tf; TFPN + 1 := tramp_leaf]};
  sp_sized : sized k t size;
}.

Definition nothing : Z → Prop := λ _, False.

Lemma upage_empty root p : upage (pt_empty root) p ↔ p = root.
Proof.
  unfold upage. split.
  - intros [[g Hg]|(v & w & _ & Hw & _)]; [|cbn in Hw; by rewrite lookup_empty in Hw].
    destruct g; cbn in Hg; rewrite ?lookup_empty in Hg; by simplify_eq.
  - intros ->. left. by exists TRoot.
Qed.

Lemma uvmcreate_spec k l :
  kinv k l →
  ∃ r k' l', uvmcreate k = Ok r k' ∧
    (r = 0 ∧ moves k l nothing k' l' nothing ∨
     r ≠ 0 ∧ uspace k' l' (pt_empty r) ∧ moves k l nothing k' l' (upage (pt_empty r))).
Proof.
  intros Hk. unfold uvmcreate. destruct l as [|root l].
  { exists 0, k, []. erewrite bind_ok by (by apply (kalloc_empty kend)). split; [done|]. left. split; [done|]. by apply moves_refl. }
  destruct (kalloc_page kend k root l Hk) as (fl & x & Hrun & Hk1 & Hok & Hrl & _).
  pose proof (page_ok_pa kend kend_pos root Hok) as [_ Hr0].
  erewrite bind_ok by exact Hrun. cbv beta. rewrite bool_decide_false by done.
  eexists root, _, l. erewrite bind_ok by (apply zero_page_run; cbn [pmem]; rewrite lookup_insert_eq; eauto).
  split; [done|]. right. split; [done|].
  assert (Hk2 : kinv (MkKmem fl (<[root := zeros]> (<[root := x]> (pmem k)))) l) by (by apply (kinv_write kend (MkKmem _ _))).
  split.
  - apply uspace_empty; [done|done|done|]. cbn [pmem]. by rewrite lookup_insert_eq.
  - split; [done|..].
    + intros p. rewrite upage_empty, elem_of_cons. unfold nothing. naive_solver.
    + intros p. rewrite upage_empty. by intros ->.
    + intros q Hq. rewrite elem_of_cons in Hq. cbn [pmem]. rewrite !lookup_insert_ne by naive_solver. done.
Qed.

Lemma sized_empty k t : (∀ v, aspace k t v = None) → sized k t 0.
Proof. intros Hn. split; [done|]. intros v. rewrite Hn. change (npages 0) with 0. split; [by intros []|lia]. Qed.
Lemma aspace_pt_empty k root v : aspace k (pt_empty root) v = None.
Proof. unfold aspace. case_decide; [|done]. cbn. by rewrite lookup_empty. Qed.

(** [proc_pagetable] returns 0 and keeps no page, or a page table with the two
    pages every process has and no user memory. *)
Lemma make_pagetable_spec k l tf :
  kinv k l → page_ok tf →
  ∃ r k' l', make_pagetable kend trampoline tf k = Ok r k' ∧
    (r = 0 ∧ moves k l nothing k' l' nothing ∨
     r ≠ 0 ∧ ∃ t, p_root t = r ∧ pspace k' l' t tf 0 ∧ moves k l nothing k' l' (upage t)).
Proof.
  intros Hk Htf. unfold make_pagetable. destruct (uvmcreate_spec k l Hk) as (pt & k1 & l1 & Hrun1 & Hres).
  erewrite bind_ok by exact Hrun1. cbv beta. destruct Hres as [[-> Hmv]|(Hpt & Hu1 & Hmv1)].
  { exists 0, k1, l1. split; [done|]. by left. }
  rewrite bool_decide_false by done.
  assert (Hn : ∀ v, p_leaf (pt_empty pt) !! v = None) by (intros; apply lookup_empty).
  destruct (map_high k1 l1 (pt_empty pt) TRAMPOLINE trampoline (Z.lor PTE_R PTE_X)) as (r & k2 & l2 & t2 & Hrun2 & Hu2 & Has2 & Hmv2 & Hroot2 & Hres2);
    [done|done|done|done|done|done|done|done|done|done|]. cbn [p_root pt_empty] in Hrun2, Hroot2.
  erewrite bind_ok by exact Hrun2. cbv beta.
  assert (Hno2 : ∀ v, aspace k2 t2 v = None) by (intros; by rewrite Has2, aspace_pt_empty).
  assert (Htp : TRAMPOLINE / 4096 = TFPN + 1) by done. rewrite Htp in Hres2.
  destruct Hres2 as [[-> Hleaf2]|[-> Hleaf2]].
  2:{ rewrite bool_decide_true by lia.
      destruct (uvmfree_spec k2 l2 t2 0 Hu2) as (k3 & l3 & Hrun3 & Hmv3).
      { intros v _. by rewrite Hleaf2, lookup_empty. }
      { by apply sized_empty. }
      exists 0, k3, l3. rewrite <-Hroot2. erewrite bind_ok by exact Hrun3. split; [done|]. left. split; [done|].
      eapply moves_trans; [exact Hmv1|]. eapply moves_trans; [exact Hmv2|exact Hmv3]. }
  rewrite bool_decide_false by lia. rewrite <-Hroot2.
  pose proof (page_ok_pa kend kend_pos tf Htf) as [Hpa Htf0].
  destruct (map_high k2 l2 t2 TRAPFRAME tf (Z.lor PTE_R PTE_W)) as (r & k3 & l3 & t3 & Hrun3 & Hu3 & Has3 & Hmv3 & Hroot3 & Hres3);
    [done|done|done|done|done| |done|destruct Htf as [_ [_ ?]]; change PHYSTOP with 0x88000000 in *; lia|done|done|].
  { rewrite Hleaf2, lookup_insert_ne by done. apply lookup_empty. }
  erewrite bind_ok by exact Hrun3. cbv beta. assert (Htfp : TRAPFRAME / 4096 = TFPN) by done. rewrite Htfp in Hres3.
  assert (Hno3 : ∀ v, aspace k3 t3 v = None) by (intros; by rewrite Has3, Hno2).
  destruct Hres3 as [[-> Hleaf3]|[-> Hleaf3]].
  - rewrite bool_decide_false by lia. eexists _, k3, l3. split; [done|]. right. split; [by rewrite Hroot2|]. exists t3.
    split; [done|]. split; [|eapply moves_trans; [exact Hmv1|]; by eapply moves_trans].
    split; [done| |by apply sized_empty]. intros v Hv. rewrite Hleaf3, Hleaf2. done.
  - rewrite bool_decide_true by lia. rewrite <-Hroot3.
    destruct (unmap_high k3 l3 t3 TRAMPOLINE tramp_leaf) as (k4 & t4 & Hrun4 & Hu4 & Has4 & Hmv4 & Hroot4 & Hleaf4);
      [done|done|done|done|done| | |].
    { rewrite Htp, Hleaf3, Hleaf2. apply lookup_insert_eq. }
    { unfold tramp_leaf. by rewrite has_mkpte by done. }
    destruct (uvmfree_spec k4 l3 t4 0 Hu4) as (k5 & l5 & Hrun5 & Hmv5).
    { intros v _. rewrite Hleaf4, Htp, Hleaf3, Hleaf2, lookup_empty.
      destruct (decide (v = TFPN + 1)) as [->|]; [apply lookup_delete_eq|].
      rewrite lookup_delete_ne, lookup_insert_ne by done. apply lookup_empty. }
    { apply sized_empty. intros v. by rewrite Has4. }
    exists 0, k5, l5. erewrite bind_ok by exact Hrun4. rewrite <-Hroot4. erewrite bind_ok by exact Hrun5. split; [done|].
    left. split; [done|]. eapply moves_trans; [exact Hmv1|]. eapply moves_trans; [exact Hmv2|].
    eapply moves_trans; [exact Hmv3|]. eapply moves_trans; [exact Hmv4|exact Hmv5].
Qed.

(** [proc_freepagetable] gives every page back. *)
Lemma proc_freepagetable_spec k l t tf size :
  pspace k l t tf size →
  ∃ k' l', proc_freepagetable kend (p_root t) size k = Ok tt k' ∧ moves k l (upage t) k' l' nothing.
Proof.
  intros [Hu Hhi Hsz].
  destruct (unmap_high k l t TRAMPOLINE tramp_leaf) as (k1 & t1 & Hrun1 & Hu1 & Has1 & Hmv1 & Hroot1 & Hleaf1);
    [done|done|done|done|done|by rewrite Hhi|unfold tramp_leaf; by rewrite has_mkpte by done|].
  destruct (unmap_high k1 l t1 TRAPFRAME (tf_leaf tf)) as (k2 & t2 & Hrun2 & Hu2 & Has2 & Hmv2 & Hroot2 & Hleaf2);
    [done|done|done|done|done| |unfold tf_leaf; by rewrite has_mkpte by done|].
  { rewrite Hleaf1, lookup_delete_ne by done. by rewrite Hhi. }
  destruct (uvmfree_spec k2 l t2 size Hu2) as (k3 & l3 & Hrun3 & Hmv3).
  { intros v Hv. rewrite Hleaf2, Hleaf1, lookup_empty. change (TRAMPOLINE / 4096) with (TFPN + 1). change (TRAPFRAME / 4096) with TFPN.
    destruct (decide (v = TFPN)) as [->|]; [apply lookup_delete_eq|]. rewrite lookup_delete_ne by done.
    destruct (decide (v = TFPN + 1)) as [->|]; [apply lookup_delete_eq|]. rewrite lookup_delete_ne by done.
    rewrite Hhi by done. by rewrite lookup_insert_ne, lookup_singleton_ne by done. }
  { destruct Hsz as [Hs Hm]. split; [done|]. intros v. by rewrite Has2, Has1. }
  exists k3, l3. unfold proc_freepagetable. erewrite bind_ok by exact Hrun1. rewrite <-Hroot1. erewrite bind_ok by exact Hrun2.
  rewrite <-Hroot2. split; [exact Hrun3|]. eapply moves_trans; [exact Hmv1|]. eapply moves_trans; [exact Hmv2|exact Hmv3].
Qed.
End procmem.
End ProcMem.
