(* ===== verification/ProcSpec.v ===== *)
(** Process isolation: every page belongs to the allocator or to one process, and
    the operations of [kernel/proc.c] keep it so. *)

From stdpp Require Import functions.
From S2P Require Import Prelude Riscv CString Kalloc Vm PageTable UserMem UserCopy UserFree Proc ProcMem.
Import Kalloc Vm PageTable UserMem UserCopy Proc ProcMem.

Local Open Scope Z_scope.

(** ** What the file system promises

    [fok f R I]: the table [f] counts [R x] references to file [x] and [I x]
    references to inode [x] from processes. *)
Class FileLaws (F : Type) {FO : FileOps F} := {
  fok : F → (Z → Z) → (Z → Z) → Prop;
  (** The pages that hold pipes. *)
  fpages : F → Z → Prop;
  fok_ext f R I R' I' : fok f R I → (∀ x, R x = R' x) → (∀ x, I x = I' x) → fok f R' I';
  filedup_law f R I x : fok f R I → 0 < R x < 2 ^ 30 →
    wp (filedup x) (λ r f', r = x ∧ fok f' (<[x := R x + 1]> R) I ∧ ∀ p, fpages f' p ↔ fpages f p) f;
  fileclose_law kend f R I x k l chs k' f' : 0 < kend → fok f R I → 0 < R x →
    Kalloc.kinv kend k l → (∀ p, fpages f p → p ∉ l ∧ Kalloc.page_ok kend p ∧ is_Some (pmem k !! p)) →
    fileclose kend x (k, f) = Ok chs (k', f') →
    fok f' (<[x := R x - 1]> R) I ∧ ∃ l', moves kend k l (fpages f) k' l' (fpages f') ∧
      ∀ p, fpages f' p → is_Some (pmem k' !! p);
  idup_law f R I x : fok f R I → 0 < I x < 2 ^ 30 →
    wp (idup x) (λ r f', r = x ∧ fok f' R (<[x := I x + 1]> I) ∧ ∀ p, fpages f' p ↔ fpages f p) f;
  iput_law f R I x f' : fok f R I → 0 < I x → iput x f = Ok tt f' →
    fok f' R (<[x := I x - 1]> I) ∧ ∀ p, fpages f' p ↔ fpages f p;
  namei_root_law f R I r f' : fok f R I → namei_root f = Ok r f' → I r < 2 ^ 30 →
    r ≠ 0 ∧ fok f' R (<[r := I r + 1]> I) ∧ ∀ p, fpages f' p ↔ fpages f p;
}.

Module ProcSpec.

Section spec.
Context {F : Type} {FO : FileOps F} {FL : FileLaws F}.
Context (kend trampoline forkret : Z) (kend_pos : 0 < kend).
Hypothesis tramp_ok : pa_ok trampoline.
Hypothesis tramp_kernel : trampoline + 4096 ≤ 2 ^ 54.
Notation ps := (@Proc.ps F).
Notation page_ok := (Kalloc.page_ok kend).
Notation kinv := (Kalloc.kinv kend).
Notation pspace := (ProcMem.pspace kend trampoline).
Notation moves := (ProcMem.moves kend).

(** * Memory *)

(** A trap-frame page. *)
Definition frame (k : kmem) (l : list Z) (tf : Z) : Prop :=
  page_ok tf ∧ tf ∉ l ∧ ∃ x, pmem k !! tf = Some x ∧ is_page x.
(** The pages a process with page table [t] and trap frame [tf] owns. *)
Definition own (t : ptree) (tf : Z) (x : Z) : Prop := upage t x ∨ x = tf.

(** The memory of one live process. *)
Record holds (k : kmem) (l : list Z) (t : ptree) (p : proc) : Prop := {
  ho_root : p_root t = pagetable p;
  ho_space : pspace k l t (trapframe p) (sz p);
  ho_frame : frame k l (trapframe p);
  ho_self : ¬ upage t (trapframe p);
}.

(** The address space and the trap frame of a process are as they were. *)
Definition intact (k k' : kmem) (t : ptree) (p : proc) : Prop :=
  asame k t k' t ∧ pmem k' !! trapframe p = pmem k !! trapframe p.
Lemma intact_refl k t p : intact k k t p.
Proof. done. Qed.
Lemma intact_trans k k1 k2 t p : intact k k1 t p → intact k1 k2 t p → intact k k2 t p.
Proof. intros [H1 H1'] [H2 H2']. split; [intros v; by rewrite H2|congruence]. Qed.

Record minv (s : ps) (l : list Z) (T : gmap nat ptree) : Prop := {
  mi_len : length (procs s) = Z.to_nat NPROC;
  mi_kinv : kinv (mem s) l;
  mi_unused i p : procs s !! i = Some p → state p = UNUSED →
    T !! i = None ∧ trapframe p = 0 ∧ pagetable p = 0 ∧ sz p = 0;
  mi_live i p : procs s !! i = Some p → state p ≠ UNUSED → ∃ t, T !! i = Some t ∧ holds (mem s) l t p;
  mi_sep i j p q t u x : procs s !! i = Some p → procs s !! j = Some q → T !! i = Some t → T !! j = Some u →
    i ≠ j → own t (trapframe p) x → ¬ own u (trapframe q) x;
  (** The pages of pipes are nobody else's. *)
  mi_files x : fpages (fs s) x → x ∉ l ∧ page_ok x ∧ is_Some (pmem (mem s) !! x);
  mi_fsep i p t x : procs s !! i = Some p → T !! i = Some t → own t (trapframe p) x → ¬ fpages (fs s) x;
}.

(** The pages of slot [i]. *)
Definition owned (s : ps) (T : gmap nat ptree) (i : nat) (x : Z) : Prop :=
  ∃ p t, procs s !! i = Some p ∧ T !! i = Some t ∧ own t (trapframe p) x.

Lemma own_apart k l t p x : holds k l t p → own t (trapframe p) x → x ∉ l.
Proof.
  intros [_ Hsp (_ & Htf & _) _] [Hx| ->]; [|done]. by eapply upage_apart; [apply (sp_space _ _ _ _ _ _ _ Hsp)|].
Qed.

(** Another process's memory is not touched. *)
Lemma holds_moves k l A k' l' B t p :
  moves k l A k' l' B → holds k l t p → (∀ x, own t (trapframe p) x → ¬ A x) →
  holds k' l' t p ∧ intact k k' t p ∧ (∀ x, own t (trapframe p) x → ¬ B x).
Proof.
  intros Hmv Hh Hd. pose proof Hh as [Hroot [Hu Hhi [Hs1 Hs2]] (Hok & Hl & x & Hx & Hpx) Hself].
  destruct (uspace_moves kend k l A k' l' B t Hmv Hu) as (Hu' & Has & HB); [intros y Hy; apply Hd; by left|].
  destruct (moves_out kend _ _ _ _ _ _ (trapframe p) Hmv Hl) as (Hl' & HBt & Hm); [apply Hd; by right|].
  split; [|split; [by split|]].
  - split; [done| | |done].
    + split; [done|done|]. split; [done|]. intros v. by rewrite Has.
    + split; [done|]. split; [done|]. rewrite Hm. eauto.
  - intros y [Hy| ->]; auto.
Qed.

(** Slot [i] changes its memory from [A] to [B]; all others keep theirs. *)
Lemma minv_update_gen s l T i p p' k' l' T' A B ps' :
  minv s l T → procs s !! i = Some p → moves (mem s) l A k' l' B →
  (∀ x, A x → ¬ fpages (fs s) x ∧ ∀ j q t, j ≠ i → procs s !! j = Some q → T !! j = Some t → ¬ own t (trapframe q) x) → (∀ j, j ≠ i → T' !! j = T !! j) →
  (state p' = UNUSED → T' !! i = None ∧ trapframe p' = 0 ∧ pagetable p' = 0 ∧ sz p' = 0) →
  (state p' ≠ UNUSED → ∃ t, T' !! i = Some t ∧ holds k' l' t p' ∧ ∀ x, own t (trapframe p') x → B x) →
  procs ps' = <[i := p']> (procs s) → mem ps' = k' → (∀ x, fpages (fs ps') x ↔ fpages (fs s) x) →
  minv ps' l' T' ∧ ∀ j q t, j ≠ i → procs s !! j = Some q → T !! j = Some t → intact (mem s) k' t q.
Proof.
  intros Hm Hi Hmv HA HT Hun Hlv Hps Hmem Hfs. pose proof Hm as [Hlen Hk Hu Hl Hsep Hfl Hfsep].
  assert (Hother : ∀ j q t, j ≠ i → procs s !! j = Some q → T !! j = Some t →
    holds k' l' t q ∧ intact (mem s) k' t q ∧ (∀ x, own t (trapframe q) x → ¬ B x)).
  { intros j q t Hj Hq Ht. destruct (decide (state q = UNUSED)) as [Hs|Hs]; [destruct (Hu j q Hq Hs); congruence|].
    destruct (Hl j q Hq Hs) as (t' & Ht' & Hh). simplify_eq. eapply holds_moves; [done|done|].
    intros x Hx [_ Hax]%HA. by apply (Hax j q t). }
  split; [|intros j q t Hj Hq Ht; by apply (Hother j q t)].
  assert (Hlook : ∀ j q, procs ps' !! j = Some q → j = i ∧ q = p' ∨ j ≠ i ∧ procs s !! j = Some q).
  { intros j q. rewrite Hps. destruct (decide (j = i)) as [->|Hj].
    - rewrite list_lookup_insert_eq by (by eapply lookup_lt_Some). naive_solver.
    - rewrite list_lookup_insert_ne by done. naive_solver. }
  split.
  - rewrite Hps, length_insert. done.
  - rewrite Hmem. apply Hmv.
  - intros j q [[-> ->]|[Hj Hq]]%Hlook Hs; [auto|]. rewrite HT by done. by apply Hu.
  - intros j q [[-> ->]|[Hj Hq]]%Hlook Hs; rewrite Hmem.
    + destruct (Hlv Hs) as (t & Ht & Hh & _). eauto.
    + rewrite HT by done. destruct (Hl j q Hq Hs) as (t & Ht & _). exists t. split; [done|]. by apply (Hother j q t).
  - assert (HB : ∀ t x, T' !! i = Some t → own t (trapframe p') x → B x).
    { intros t x Ht Hx. destruct (decide (state p' = UNUSED)) as [Hs|Hs]; [destruct (Hun Hs); congruence|].
      destruct (Hlv Hs) as (t' & Ht' & _ & Hall). simplify_eq. by apply Hall. }
    intros a b q1 q2 t u x [[-> ->]|[Ha Hq1]]%Hlook [[-> ->]|[Hb Hq2]]%Hlook Ht Hut Hab Ho1 Ho2; [done|..].
    + rewrite HT in Hut by done. destruct (Hother b q2 u Hb Hq2 Hut) as (_ & _ & Hnb). by apply (Hnb x Ho2), (HB t).
    + rewrite HT in Ht by done. destruct (Hother a q1 t Ha Hq1 Ht) as (_ & _ & Hnb). by apply (Hnb x Ho1), (HB u).
    + rewrite HT in Ht, Hut by done. by apply (Hsep a b q1 q2 t u x Hq1 Hq2 Ht Hut Hab Ho1).
  - intros x Hx%Hfs. rewrite Hmem. destruct (Hfl x Hx) as (Hxl & Hok & Hs).
    destruct (moves_out kend _ _ _ _ _ _ x Hmv Hxl) as (Hxl' & _ & ->); [|done].
    by intros [Hnf _]%HA.
  - intros j q t x [[-> ->]|[Hj Hq]]%Hlook Ht Ho Hx%Hfs; [|rewrite HT in Ht by done; by apply (Hfsep j q t x)].
    destruct (decide (state p' = UNUSED)) as [Hs|Hs]; [destruct (Hun Hs); congruence|].
    destruct (Hlv Hs) as (t' & Ht' & _ & Hall). simplify_eq. destruct (Hfl x Hx) as (Hxl & _).
    destruct (moves_out kend _ _ _ _ _ _ x Hmv Hxl) as (_ & Hnb & _); [|by apply Hnb, Hall].
    by intros [Hnf _]%HA.
Qed.

Lemma minv_update s l T i p p' k' l' T' A B ps' :
  minv s l T → procs s !! i = Some p → moves (mem s) l A k' l' B →
  (∀ x, owned s T i x ↔ A x) → (∀ j, j ≠ i → T' !! j = T !! j) →
  (state p' = UNUSED → T' !! i = None ∧ trapframe p' = 0 ∧ pagetable p' = 0 ∧ sz p' = 0) →
  (state p' ≠ UNUSED → ∃ t, T' !! i = Some t ∧ holds k' l' t p' ∧ ∀ x, own t (trapframe p') x → B x) →
  procs ps' = <[i := p']> (procs s) → mem ps' = k' → (∀ x, fpages (fs ps') x ↔ fpages (fs s) x) →
  minv ps' l' T' ∧ ∀ j q t, j ≠ i → procs s !! j = Some q → T !! j = Some t → intact (mem s) k' t q.
Proof.
  intros Hm Hi Hmv HA. eapply minv_update_gen; [done|done|done|]. intros x (p0 & t0 & Hp0 & Ht0 & Ho)%HA. split.
  - by apply (mi_fsep _ _ _ Hm i p0 t0 x).
  - intros j q t Hj Hq Ht Ho'. by apply (mi_sep _ _ _ Hm i j p0 q t0 t x).
Qed.

(** * Running the operations *)

Definition put_proc (i : nat) (p : proc) (s : ps) : ps :=
  MkPs (<[i := p]> (procs s)) (nextpid s) (initproc s) (mem s) (fs s).
Definition put_mem (k : kmem) (s : ps) : ps := MkPs (procs s) (nextpid s) (initproc s) k (fs s).

Lemma getp_run i p (s : ps) : procs s !! i = Some p → getp i s = Ok p s.
Proof. intros Hp. unfold getp, mbind, M_bind, get. by rewrite Hp. Qed.
Lemma setp_run i p f (s : ps) : procs s !! i = Some p → setp i f s = Ok tt (put_proc i (f p) s).
Proof. intros Hp. unfold setp, mbind, M_bind, get. by rewrite Hp. Qed.
Lemma on_mem_run {A} (m : M kmem A) (s : ps) a k : m (mem s) = Ok a k → on_mem m s = Ok a (put_mem k s).
Proof. intros Hm. unfold on_mem, zoom. by rewrite Hm. Qed.

Lemma put_proc_lookup i p q (s : ps) : procs s !! i = Some q → procs (put_proc i p s) !! i = Some p.
Proof. intros Hq. cbn. apply list_lookup_insert_eq. by eapply lookup_lt_Some. Qed.
Lemma put_put i p q (s : ps) : put_proc i q (put_proc i p s) = put_proc i q s.
Proof. unfold put_proc. cbn. by rewrite list_insert_insert_eq. Qed.

(** ** Freeing *)

Definition freed (p : proc) : proc :=
  MkProc UNUSED ChNull 0 0 0 None (kstack p) 0 0 0 (ctx_ra p) (ctx_sp p) (ofile p) (cwd p) (<[0%nat := 0]> (name p)).

(** What [freeproc] gives back: the trap frame and the page table, if there. *)
Definition parts (p : proc) (o : option ptree) (x : Z) : Prop :=
  trapframe p ≠ 0 ∧ x = trapframe p ∨ ∃ t, o = Some t ∧ upage t x.
Definition parts_ok (k : kmem) (l : list Z) (p : proc) (o : option ptree) : Prop :=
  (trapframe p ≠ 0 → frame k l (trapframe p)) ∧
  match o with
  | None => pagetable p = 0
  | Some t => pagetable p ≠ 0 ∧ p_root t = pagetable p ∧ ¬ upage t (trapframe p) ∧
              ∃ tf, pspace k l t tf (sz p)
  end.

Lemma pspace_moves k l A k' l' B t tf size :
  moves k l A k' l' B → pspace k l t tf size → (∀ p, upage t p → ¬ A p) → pspace k' l' t tf size.
Proof.
  intros Hmv [Hu Hhi [Hs1 Hs2]] Hd. destruct (uspace_moves kend k l A k' l' B t Hmv Hu Hd) as (Hu' & Has & _).
  split; [done|done|]. split; [done|]. intros v. by rewrite Has.
Qed.

Lemma freeproc_run i p o (s : ps) l :
  procs s !! i = Some p → kinv (mem s) l → parts_ok (mem s) l p o →
  ∃ k' l', freeproc kend i s = Ok tt (put_mem k' (put_proc i (freed p) s)) ∧ moves (mem s) l (parts p o) k' l' nothing.
Proof.
  intros Hp Hk [Htf Hpt].
  assert (H1 : ∃ k1 l1, (when (bool_decide (trapframe p ≠ 0)) (on_mem (kfree kend (trapframe p)))) s = Ok tt (put_mem k1 s) ∧
    moves (mem s) l (λ x, trapframe p ≠ 0 ∧ x = trapframe p) k1 l1 nothing).
  { case_bool_decide as H0; cbn [when].
    - destruct (Htf H0) as (Hok & Hl & x & Hx & _). destruct (UserFree.kfree_gives kend kend_pos (mem s) l (trapframe p) Hk Hok Hl ltac:(eauto)) as (k1 & Hrun & Hg).
      exists k1, (trapframe p :: l). split; [by apply on_mem_run|]. eapply moves_ext; [by apply gives_moves| |done].
      intros y. split; [by intros <-|by intros [_ ->]].
    - exists (mem s), l. split; [by destruct s|]. eapply moves_ext; [apply (moves_refl kend (mem s) l nothing); done| |done].
      intros y. unfold nothing. tauto. }
  destruct H1 as (k1 & l1 & Hrun1 & Hmv1).
  set (p1 := set_trapframe 0 p). set (s1 := put_proc i p1 (put_mem k1 s)).
  assert (H2 : ∃ k2 l2, (when (bool_decide (pagetable p ≠ 0)) (on_mem (proc_freepagetable kend (pagetable p) (sz p)))) s1 = Ok tt (put_mem k2 s1) ∧
    moves k1 l1 (λ x, ∃ t, o = Some t ∧ upage t x) k2 l2 nothing).
  { destruct o as [t|].
    - destruct Hpt as (Hp0 & Hroot & Hself & tf & Hsp). rewrite bool_decide_true by done. cbn [when].
      assert (Hsp1 : pspace k1 l1 t tf (sz p)).
      { eapply pspace_moves; [exact Hmv1|done|]. intros x Hx [_ ->]. done. }
      destruct (proc_freepagetable_spec kend trampoline kend_pos k1 l1 t tf (sz p) Hsp1) as (k2 & l2 & Hrun2 & Hmv2).
      exists k2, l2. split; [by apply on_mem_run; rewrite <-Hroot|]. eapply moves_ext; [exact Hmv2| |done].
      intros x. split; [eauto|]. intros (t' & [= <-] & Hx). done.
    - rewrite Hpt. exists k1, l1. split; [by destruct s|]. eapply moves_ext; [apply (moves_refl kend k1 l1 nothing); [apply Hmv1|done]| |done].
      intros x. split; [done|]. by intros (t & ? & _). }
  destruct H2 as (k2 & l2 & Hrun2 & Hmv2). exists k2, l2. split.
  - unfold freeproc. erewrite bind_ok by (by apply getp_run). cbv beta. erewrite bind_ok by exact Hrun1. cbv beta.
    erewrite bind_ok by (by apply setp_run). cbv beta. erewrite bind_ok by exact Hrun2. cbv beta.
    erewrite setp_run by (by eapply put_proc_lookup). f_equal. unfold put_mem, put_proc. cbn. by rewrite list_insert_insert_eq.
  - eapply moves_trans; [|exact Hmv2]. eapply moves_ext; [apply (moves_frame _ _ _ _ _ _ _ (λ x, ∃ t, o = Some t ∧ upage t x) Hmv1)| |].
    + intros x (t & -> & Hx). destruct Hpt as (_ & _ & Hself & tf & Hsp). split; [|by intros [_ ->]].
      by eapply upage_apart; [apply (sp_space _ _ _ _ _ _ _ Hsp)|].
    + done.
    + intros x. unfold nothing. tauto.
Qed.

(** ** Allocating *)

Lemma find_unused_run (s : ps) n : ∀ i,
  (i + n = length (procs s))%nat →
  ∃ r, find_unused n i s = Ok r s ∧ ∀ j, r = Some j → ∃ p, procs s !! j = Some p ∧ state p = UNUSED.
Proof.
  induction n as [|n IH]; intros i Hi; cbn [find_unused]; [by exists None|].
  destruct (lookup_lt_is_Some_2 (procs s) i) as [p Hp]; [lia|].
  erewrite bind_ok by (by apply getp_run). cbv beta. case_bool_decide as Hs.
  - exists (Some i). split; [done|]. intros j [= <-]. eauto.
  - apply IH. lia.
Qed.

Definition put_pid (n : Z) (s : ps) : ps := MkPs (procs s) n (initproc s) (mem s) (fs s).

(** A slot [allocproc] has filled. *)
Definition fresh (p : proc) (n tf pt : Z) : proc :=
  MkProc USED (chan p) (killed p) (xstate p) n (parent p) (kstack p) (sz p) pt tf forkret (kstack p + PGSIZE)
    (ofile p) (cwd p) (name p).

Lemma parts_full t p x : trapframe p ≠ 0 → parts p (Some t) x ↔ own t (trapframe p) x.
Proof.
  intros H0. unfold parts, own. split.
  - intros [[_ ->]|(t' & [= <-] & Hx)]; auto.
  - intros [?| ->]; eauto.
Qed.

Lemma owned_unused (s : ps) l T i p x : minv s l T → procs s !! i = Some p → state p = UNUSED → ¬ owned s T i x.
Proof. intros Hm Hp Hs (q & t & _ & Ht & _). destruct (mi_unused _ _ _ Hm i p Hp Hs). congruence. Qed.

(** Memory of the other slots is the same. *)
Definition others (s : ps) (T : gmap nat ptree) (i : nat) (k' : kmem) : Prop :=
  ∀ j q t, j ≠ i → procs s !! j = Some q → T !! j = Some t → intact (mem s) k' t q.

(** [allocproc] finds no free slot, or runs out of memory and leaves the slot
    unused, or fills it. *)
Definition alloc_post (s : ps) (l : list Z) (T : gmap nat ptree) (r : option nat) (s' : ps) : Prop :=
  r = None ∧ s' = s ∨
  ∃ i p k' l', procs s !! i = Some p ∧ state p = UNUSED ∧ others s T i k' ∧
    (r = None ∧ s' = put_mem k' (put_proc i (freed p) (put_pid (s32 (nextpid s + 1)) s)) ∧ minv s' l' T ∨
     ∃ tf pt t, r = Some i ∧ s' = put_mem k' (put_proc i (fresh p (nextpid s) tf pt) (put_pid (s32 (nextpid s + 1)) s)) ∧
       minv s' l' (<[i := t]> T) ∧ sized k' t 0).

Lemma minv_put_pid n (s : ps) l T : minv s l T → minv (put_pid n s) l T.
Proof. by intros [? ? ? ? ? ? ?]. Qed.

(** The rest of [allocproc] once slot [i] is found and marked. *)
Definition alloc_rest (i : nat) : M ps (option nat) :=
  tf ← on_mem kalloc;
  setp i (set_trapframe tf);;
  if bool_decide (tf = 0) then freeproc kend i;; mret None else
  pt ← proc_pagetable kend trampoline i;
  setp i (set_pagetable pt);;
  if bool_decide (pt = 0) then freeproc kend i;; mret None else
  setp i (λ p, set_context forkret (kstack p + PGSIZE) p);;
  mret (Some i).

Section found.
Context (s : ps) (l : list Z) (T : gmap nat ptree) (i : nat) (p : proc).
Hypothesis Hm : minv s l T.
Hypothesis Hp : procs s !! i = Some p.
Hypothesis Hs : state p = UNUSED.
(** The state with the slot marked, and with its memory and slot replaced. *)
Definition marked : proc := set_state USED (set_pid (nextpid s) p).
Definition outcome_at (k : kmem) (q : proc) : ps := put_mem k (put_proc i q (put_pid (s32 (nextpid s + 1)) s)).

Lemma outcome_lookup k q : procs (outcome_at k q) !! i = Some q.
Proof. cbn. apply list_lookup_insert_eq. by eapply lookup_lt_Some. Qed.
Lemma outcome_put k q q' : put_proc i q' (outcome_at k q) = outcome_at k q'.
Proof. unfold outcome_at, put_mem, put_proc. cbn. by rewrite list_insert_insert_eq. Qed.

Lemma alloc_fail k' l' :
  moves (mem s) l nothing k' l' nothing → alloc_post s l T None (outcome_at k' (freed p)).
Proof.
  intros Hmv. right. exists i, p, k', l'.
  destruct (minv_update (put_pid (s32 (nextpid s + 1)) s) l T i p (freed p) k' l' T nothing nothing (outcome_at k' (freed p)))
    as [H1 H2]; try done.
  - by apply minv_put_pid.
  - intros x. split; [intros Ho; by eapply (owned_unused s l T i p x)|done].
  - intros _. destruct (mi_unused _ _ _ Hm i p Hp Hs) as (? & _). done.
  - split; [done|]. split; [done|]. split; [done|]. by left.
Qed.

(** No page for the trap frame. *)
Lemma alloc_no_frame :
  l = [] → ∃ s', alloc_rest i (outcome_at (mem s) marked) = Ok None s' ∧ alloc_post s l T None s'.
Proof.
  intros Hl. pose proof (mi_kinv _ _ _ Hm) as Hk. destruct (mi_unused _ _ _ Hm i p Hp Hs) as (_ & _ & Hpt & _). unfold alloc_rest.
  erewrite bind_ok by (apply on_mem_run; apply (kalloc_empty kend); by rewrite Hl in Hk). cbv beta.
  change (put_mem (mem (outcome_at (mem s) marked)) (outcome_at (mem s) marked)) with (outcome_at (mem s) marked).
  erewrite bind_ok by (apply setp_run; apply outcome_lookup). cbv beta. rewrite outcome_put, bool_decide_true by done.
  destruct (freeproc_run i (set_trapframe 0 marked) None _ l (outcome_lookup _ _) Hk) as (k' & l' & Hrun & Hmv); [split; [done|exact Hpt]|].
  erewrite bind_ok by exact Hrun. rewrite outcome_put. eexists. split; [done|]. apply (alloc_fail k' l').
  eapply moves_ext; [exact Hmv| |done]. intros x. unfold parts, nothing. cbn. split; [|done]. intros [[? _]|(t & ? & _)]; done.
Qed.

(** A page for the trap frame. *)
Lemma take_frame tf l1 :
  l = tf :: l1 → ∃ k1, on_mem kalloc (outcome_at (mem s) marked) = Ok tf (outcome_at k1 marked) ∧
    kinv k1 l1 ∧ page_ok tf ∧ tf ≠ 0 ∧ frame k1 l1 tf ∧ moves (mem s) l nothing k1 l1 (eq tf).
Proof.
  intros ->. destruct (kalloc_page kend (mem s) tf l1 (mi_kinv _ _ _ Hm)) as (fl & x & Hrun & Hk1 & Hok & Htl & Hx).
  eexists. split; [by apply (on_mem_run _ (outcome_at (mem s) marked))|]. split; [done|]. split; [done|]. split; [by apply (page_ok_pa kend kend_pos)|]. split.
  - split; [done|]. split; [done|]. exists x. cbn [pmem]. by rewrite lookup_insert_eq.
  - split; [done|..].
    + intros y. rewrite elem_of_cons. unfold nothing. split; [intros [?| ->]; auto|intros [[->|?]|[]]; auto].
    + by intros y <-.
    + intros q Hq. cbn [pmem]. rewrite lookup_insert_ne; [done|]. intros ->. apply Hq. left. by left.
Qed.

Lemma alloc_with_frame tf l1 :
  l = tf :: l1 → ∃ r s', alloc_rest i (outcome_at (mem s) marked) = Ok r s' ∧ alloc_post s l T r s'.
Proof.
  intros Hl. destruct (take_frame tf l1 Hl) as (k1 & Hrun1 & Hk1 & Hok & Htf0 & Hfr & Hmv1).
  destruct (mi_unused _ _ _ Hm i p Hp Hs) as (HTi & _ & Hpt & Hsz). pose proof Hfr as (_ & Htl & _).
  unfold alloc_rest. erewrite bind_ok by exact Hrun1. cbv beta.
  erewrite bind_ok by (apply setp_run; apply outcome_lookup). cbv beta. rewrite outcome_put, bool_decide_false by done.
  destruct (make_pagetable_spec kend trampoline kend_pos tramp_ok tramp_kernel k1 l1 tf Hk1 Hok) as (pt & k2 & l2 & Hrun2 & Hres).
  assert (Hrun3 : proc_pagetable kend trampoline i (outcome_at k1 (set_trapframe tf marked)) = Ok pt (outcome_at k2 (set_trapframe tf marked))).
  { unfold proc_pagetable. erewrite bind_ok by (apply getp_run, outcome_lookup). by apply (on_mem_run _ (outcome_at k1 _)). }
  erewrite bind_ok by exact Hrun3. cbv beta. erewrite bind_ok by (apply setp_run, outcome_lookup). cbv beta. rewrite outcome_put.
  assert (Hframe : ∀ B, moves k1 l1 nothing k2 l2 B → moves (mem s) l nothing k2 l2 (λ x, B x ∨ tf = x) ∧ tf ∉ l2 ∧ ¬ B tf ∧ frame k2 l2 tf).
  { intros B Hmv2. destruct (moves_out kend _ _ _ _ _ _ tf Hmv2 Htl) as (Htl2 & HB & Hm2); [by intros []|].
    split; [|split; [done|split; [done|]]].
    - eapply moves_trans; [exact Hmv1|]. eapply moves_ext; [apply (moves_frame _ _ _ _ _ _ _ (eq tf) Hmv2)| |done].
      + intros y <-. split; [done|by intros []].
      + intros y. unfold nothing. tauto.
    - destruct Hfr as (_ & _ & x & Hx & Hpx). split; [done|]. split; [done|]. rewrite Hm2. eauto. }
  destruct Hres as [[-> Hmv2]|(Hpt0 & t & Hroot & Hsp & Hmv2)]; destruct (Hframe _ Hmv2) as (Hmv & Htl2 & Hself & Hfr2).
  - rewrite bool_decide_true by done.
    destruct (freeproc_run i (set_pagetable 0 (set_trapframe tf marked)) None _ l2 (outcome_lookup k2 _)) as (k' & l' & Hrun4 & Hmv4);
      [apply Hmv2|split; [by intros _|done]|].
    erewrite bind_ok by exact Hrun4. rewrite outcome_put. eexists None, _. split; [done|]. apply (alloc_fail k' l').
    eapply moves_trans; [exact Hmv|]. eapply moves_ext; [exact Hmv4| |done].
    intros x. unfold parts, nothing. cbn. split; [intros [[_ ->]|(t & ? & _)]; [by right|done]|intros [[]|<-]; by left].
  - rewrite bool_decide_false by done. erewrite bind_ok by (apply setp_run, outcome_lookup). rewrite outcome_put.
    eexists (Some i), _. split; [done|]. right. exists i, p, k2, l2.
    destruct (minv_update (put_pid (s32 (nextpid s + 1)) s) l T i p (fresh p (nextpid s) tf pt) k2 l2 (<[i := t]> T) nothing (λ x, upage t x ∨ tf = x)
      (outcome_at k2 (fresh p (nextpid s) tf pt))) as [H1 H2]; try done.
    + by apply minv_put_pid.
    + intros x. split; [intros Ho; by eapply (owned_unused s l T i p x)|done].
    + intros j Hj. by rewrite lookup_insert_ne.
    + intros _. exists t. split; [by rewrite lookup_insert_eq|]. split; [split; cbn; [done|by rewrite Hsz|done|done]|].
      intros x [?| ->]; auto.
    + split; [done|]. split; [done|]. split; [done|]. right. exists tf, pt, t. split; [done|]. split; [done|split; [done|apply Hsp]].
Qed.
End found.

Lemma allocproc_run (s : ps) l T :
  minv s l T → ∃ r s', allocproc kend trampoline forkret s = Ok r s' ∧ alloc_post s l T r s'.
Proof.
  intros Hm. unfold allocproc.
  destruct (find_unused_run s (Z.to_nat NPROC) 0 ltac:(by rewrite (mi_len _ _ _ Hm))) as (r & Hrun & Hfound).
  erewrite bind_ok by exact Hrun. cbv beta. destruct r as [i|]; [|exists None, s; split; [done|by left]].
  destruct (Hfound i eq_refl) as (p & Hp & Hs).
  erewrite bind_ok by reflexivity. cbv beta. erewrite bind_ok by (by apply setp_run). cbv beta.
  erewrite bind_ok by (apply setp_run; by eapply put_proc_lookup). cbv beta. rewrite put_put.
  change (put_proc i _ _) with (outcome_at s i (mem s) (marked s p)). fold (alloc_rest i).
  destruct l as [|tf l]; [|by eapply alloc_with_frame].
  destruct (alloc_no_frame s [] T i p Hm Hp Hs eq_refl) as (s' & Hr & Hpost). eauto.
Qed.

(** ** Writing a trap frame *)

Lemma frame_write k l t tf size y :
  pspace k l t tf size → frame k l tf → ¬ upage t tf → is_page y →
  let k' := MkKmem (freelist k) (<[tf := y]> (pmem k)) in
  moves k l (own t tf) k' l (own t tf) ∧ pspace k' l t tf size ∧ frame k' l tf ∧ asame k t k' t.
Proof.
  intros Hsp (Hok & Htl & x & Hx & _) Hself Hy k'. pose proof (sp_space _ _ _ _ _ _ _ Hsp) as Hu.
  assert (Hmv : moves k l (eq tf) k' l (eq tf)).
  { split; [|done|by intros p <-|].
    - apply kinv_write; [apply Hu|done].
    - intros q Hq. cbn. rewrite lookup_insert_ne; [done|]. intros ->. apply Hq. by right. }
  assert (Hd : ∀ p, upage t p → ¬ tf = p) by (intros p Hp ->; done).
  split; [|split; [by eapply pspace_moves|split]].
  - eapply moves_ext; [apply (moves_frame _ _ _ _ _ _ _ (upage t) Hmv)|..].
    + intros p Hp. split; [by eapply upage_apart|by apply Hd].
    + intros p. unfold own. split; (intros [?|?]; [by right|by left]).
    + intros p. unfold own. split; (intros [?|?]; [by right|by left]).
  - split; [done|]. split; [done|]. exists y. cbn. by rewrite lookup_insert_eq.
  - by apply (uspace_moves kend k l (eq tf) k' l (eq tf) t Hmv Hu Hd).
Qed.

Lemma tf_put_run k tf off v x : pmem k !! tf = Some x → tf_put tf off v k = Ok tt (MkKmem (freelist k) (<[tf := wr 8 off v x]> (pmem k))).
Proof. intros Hx. unfold tf_put, load_page, store_page, mbind, M_bind, get. rewrite Hx. cbn. by rewrite Hx. Qed.

Lemma copy_trapframe_run k src dst x y :
  pmem k !! src = Some x → pmem k !! dst = Some y →
  copy_trapframe src dst k =
  Ok tt (MkKmem (freelist k) (<[dst := wr 8 tf_a0 0 (splice 0 (take tf_size x) y)]> (pmem k))).
Proof.
  intros Hx Hy. unfold copy_trapframe.
  erewrite bind_ok by (unfold load_page, mbind, M_bind, get; rewrite Hx; reflexivity). cbv beta.
  erewrite bind_ok by (unfold load_page, mbind, M_bind, get; rewrite Hy; reflexivity). cbv beta.
  erewrite bind_ok by (unfold store_page, mbind, M_bind, get; rewrite Hy; reflexivity).
  erewrite tf_put_run by (cbn; apply lookup_insert_eq). cbn. by rewrite insert_insert_eq.
Qed.

Lemma trapframe_page x y : is_page x → is_page y → is_page (wr 8 tf_a0 0 (splice 0 (take tf_size x) y)) ∧
  take tf_size (wr 8 tf_a0 0 (splice 0 (take tf_size x) y)) = take tf_size (wr 8 tf_a0 0 x).
Proof.
  intros [Hlx Hbx] [Hly Hby].
  assert (Hlt : length (take tf_size x) = tf_size) by (rewrite length_take; unfold tf_size; lia).
  assert (Hls : length (splice 0 (take tf_size x) y) = length y) by (apply length_splice; rewrite Hlt; unfold tf_size; lia).
  split.
  - apply is_page_wr; [|unfold tf_a0; lia]. split; [by rewrite Hls|]. apply bytes_splice; [by apply bytes_take|done].
  - apply list_eq. intros i. destruct (decide (i < tf_size)%nat) as [Hi|Hi].
    + rewrite !lookup_take_lt by done. unfold wr.
      rewrite !lookup_splice by (rewrite ?length_le_to, ?Hls; unfold tf_a0, tf_size in *; lia).
      rewrite length_le_to, Hlt. destruct (decide (tf_a0 ≤ i < tf_a0 + 8)%nat); [done|].
      rewrite decide_True by lia. rewrite lookup_take_lt by lia. f_equal. lia.
    + rewrite !lookup_take_ge by lia. done.
Qed.

(** * Descriptors *)

(** References to file [x] and to inode [x] from a process, and from all. *)
Definition nfd (x : Z) (p : proc) : Z :=
  if decide (x = 0) then 0 else Z.of_nat (length (filter (λ y, y = x) (ofile p))).
Definition ncwd (x : Z) (p : proc) : Z := if decide (x ≠ 0 ∧ cwd p = x) then 1 else 0.

Lemma nfd_nonneg x p : 0 ≤ nfd x p.
Proof. unfold nfd. case_decide; lia. Qed.
Lemma ncwd_nonneg x p : 0 ≤ ncwd x p.
Proof. unfold ncwd. case_decide; lia. Qed.
Lemma nfd_in x p : x ≠ 0 → x ∈ ofile p → 0 < nfd x p.
Proof.
  intros Hx Hin. unfold nfd. rewrite decide_False by done.
  assert (Hf : x ∈ filter (λ y, y = x) (ofile p)) by (by apply list_elem_of_filter).
  destruct (filter _ _); [by apply elem_of_nil in Hf|cbn; lia].
Qed.
Lemma nfd_len x p : nfd x p ≤ Z.of_nat (length (ofile p)).
Proof. unfold nfd. case_decide; [lia|]. pose proof (length_filter (λ y, y = x) (ofile p)). lia. Qed.

(** A slot without descriptors. *)
Definition dead (p : proc) : Prop := state p = UNUSED ∨ state p = ZOMBIE.

(** The descriptors of all processes; process [ex] may be past giving up its
    current directory. *)
Record finv_but (ex : option nat) (s : ps) : Prop := {
  fi_ok : fok (fs s) (λ x, sum_over (nfd x) (procs s)) (λ x, sum_over (ncwd x) (procs s));
  fi_fd i p : procs s !! i = Some p → length (ofile p) = 16%nat ∧ length (name p) = 16%nat;
  fi_unused i p : procs s !! i = Some p → dead p → ofile p = replicate 16 0 ∧ cwd p = 0;
  fi_cwd i p : procs s !! i = Some p → state p ≠ UNUSED → state p ≠ ZOMBIE → ex ≠ Some i → cwd p ≠ 0;
}.
Definition finv : ps → Prop := finv_but None.

Definition put_fs (f : F) (s : ps) : ps := MkPs (procs s) (nextpid s) (initproc s) (mem s) f.
Lemma on_fs_run {A} (m : M F A) (s : ps) a f : m (fs s) = Ok a f → on_fs m s = Ok a (put_fs f s).
Proof. intros Hm. unfold on_fs, zoom. by rewrite Hm. Qed.

Definition same_pages (f f' : F) : Prop := ∀ x, fpages f' x ↔ fpages f x.

(** The reference counts of a state. *)
Definition counted (f : F) (l : list proc) : Prop := fok f (λ x, sum_over (nfd x) l) (λ x, sum_over (ncwd x) l).

(** One slot changes. *)
Lemma finv_slot ex ex' (s s' : ps) i p' :
  finv_but ex s → procs s' = <[i := p']> (procs s) → counted (fs s') (procs s') →
  length (ofile p') = 16%nat → length (name p') = 16%nat → (dead p' → ofile p' = replicate 16 0 ∧ cwd p' = 0) →
  (¬ dead p' → ex' ≠ Some i → cwd p' ≠ 0) → (∀ j, j ≠ i → ex' ≠ Some j → ex ≠ Some j) → finv_but ex' s'.
Proof.
  intros [_ Hfd Hun Hcw] Hps Hc Hl1 Hl2 Hd Hcw' Hex.
  assert (Hlook : ∀ j q, procs s' !! j = Some q → j = i ∧ q = p' ∨ j ≠ i ∧ procs s !! j = Some q).
  { intros j q. rewrite Hps. intros [(<- & <- & _)|[? ?]]%list_lookup_insert_Some; auto. }
  split; [done|..].
  - intros j q [[-> ->]|[_ Hq]]%Hlook; [done|by eapply Hfd].
  - intros j q [[-> ->]|[_ Hq]]%Hlook; [done|by eapply Hun].
  - intros j q [[-> ->]|[Hj Hq]]%Hlook Hst Hz He; [apply Hcw'; [by intros [?|?]|done]|]. apply (Hcw j q); auto.
Qed.

Lemma dup_files_run np fls : ∀ fd dups (s : ps) q,
  procs s !! np = Some q → ofile q = dups ++ replicate (length fls) 0 → length dups = fd →
  counted (fs s) (procs s) →
  (∀ i p, procs s !! i = Some p → length (ofile p) = 16%nat) → length (procs s) = 64%nat →
  (∀ f, f ∈ fls → f ≠ 0 → ∃ j p, j ≠ np ∧ procs s !! j = Some p ∧ f ∈ ofile p) →
  ∃ f', dup_files fls fd np s = Ok tt (put_fs f' (put_proc np (set_ofile (dups ++ fls) q) s)) ∧
    counted f' (<[np := set_ofile (dups ++ fls) q]> (procs s)) ∧ same_pages (fs s) f'.
Proof.
  induction fls as [|f fls IH]; intros fd dups s q Hq Hof Hfd Hc Hlen Hn Hsrc; cbn [dup_files].
  { assert (Hsame : set_ofile (dups ++ []) q = q) by (rewrite app_nil_r; cbn in Hof; rewrite app_nil_r in Hof; rewrite <-Hof; by destruct q).
    exists (fs s). rewrite Hsame. unfold put_fs, put_proc. cbn. rewrite list_insert_id by done. split; [by destruct s|]. by split. }
  cbn [length replicate] in Hof.
  destruct (decide (f = 0)) as [->|Hf0].
  { rewrite bool_decide_false by naive_solver. erewrite bind_ok by reflexivity. cbv beta.
    destruct (IH (S fd) (dups ++ [0]) s q) as (f' & Hrun & Hc' & Hpg'); [done|by rewrite <-app_assoc|rewrite length_app; cbn; lia|done|done|done| |].
    - intros h Hh. apply Hsrc. by right.
    - exists f'. rewrite <-app_assoc in Hrun, Hc'. done. }
  rewrite bool_decide_true by done.
  destruct (Hsrc f ltac:(by left) Hf0) as (j & p & Hj & Hp & Hin).
    assert (HR : 0 < sum_over (nfd f) (procs s) < 2 ^ 30).
    { pose proof (sum_over_ge (nfd f) (procs s) j p (nfd_nonneg f) Hp). pose proof (nfd_in f p Hf0 Hin).
      assert (sum_over (nfd f) (procs s) ≤ 16 * Z.of_nat (length (procs s))).
      { apply sum_over_le. intros r [i Hi]%list_elem_of_lookup. pose proof (nfd_len f r). rewrite (Hlen i r Hi) in *. lia. }
      rewrite Hn in *. lia. }
    destruct (proj1 (wp_ok _ _ _) (filedup_law _ _ _ f Hc HR)) as (g & f1 & Hrun & -> & Hc1 & Hpg1).
    erewrite bind_ok; [|erewrite bind_ok by (apply on_fs_run; exact Hrun); apply setp_run; exact Hq].
    cbv beta. set (q1 := set_ofile (<[fd := f]> (ofile q)) q). set (s1 := put_proc np q1 (put_fs f1 s)).
    assert (Hq1 : ofile q1 = (dups ++ [f]) ++ replicate (length fls) 0).
    { unfold q1. cbn [set_ofile ofile]. rewrite Hof, <-Hfd. rewrite insert_app_r_alt, Nat.sub_diag by lia. cbn. by rewrite <-app_assoc. }
    destruct (IH (S fd) (dups ++ [f]) s1 q1) as (f' & Hrun2 & Hc2 & Hpg2).
    + eapply put_proc_lookup. exact Hq.
    + done.
    + rewrite length_app. cbn. lia.
    + eapply fok_ext; [exact Hc1|..]; intros x; cbn [s1 put_proc put_fs procs]; rewrite (sum_over_insert _ _ _ q) by done; [|unfold ncwd; cbn; lia].
      destruct (decide (x = f)) as [->|Hx]; [rewrite fn_lookup_insert|rewrite fn_lookup_insert_ne by done]; unfold nfd; rewrite Hq1, Hof.
      * destruct (decide (f = 0)); [done|]. rewrite !filter_app, !length_app, (filter_cons_True (λ y, y = f) f) by done.
        rewrite (filter_cons_False (λ y, y = f) 0) by congruence. rewrite filter_nil. cbn [length]. lia.
      * destruct (decide (x = 0)); [lia|]. rewrite !filter_app, !length_app, (filter_cons_False (λ y, y = x) f) by congruence.
        rewrite (filter_cons_False (λ y, y = x) 0) by congruence. rewrite filter_nil. cbn [length]. lia.
    + intros i r. cbn. intros [[<- [-> _]]|[_ Hr]]%list_lookup_insert_Some; [|by eapply Hlen].
      rewrite Hq1, !length_app, length_replicate. pose proof (Hlen np q Hq). rewrite Hof in *. rewrite length_app in *. cbn in *. rewrite length_replicate in *. lia.
    + cbn. by rewrite length_insert.
    + intros h Hh Hh0. destruct (Hsrc h ltac:(by right) Hh0) as (j' & p' & Hj' & Hp' & Hin'). exists j', p'. split; [done|]. split; [|done].
      cbn. by rewrite list_lookup_insert_ne.
    + exists f'. rewrite Hrun2. rewrite <-app_assoc in Hc2 |- *. cbn [app] in Hc2 |- *. cbn [s1 put_proc put_fs procs] in Hc2. rewrite list_insert_insert_eq in Hc2.
      split; [|split; [done|intros x; by rewrite (Hpg2 x), <-(Hpg1 x)]]. unfold put_fs, put_proc. cbn. by rewrite list_insert_insert_eq.
Qed.

(** * Fork *)

(** The copy of the parent's memory into the child's empty address space. *)
Lemma fork_mem (s : ps) l T cur np p q tc t :
  minv s l T → cur ≠ np → procs s !! cur = Some p → T !! cur = Some tc → procs s !! np = Some q → T !! np = Some t →
  state p ≠ UNUSED → state q ≠ UNUSED → sz q = 0 →
  ∃ r k2 l2 t2, uvmcopy kend (pagetable p) (pagetable q) (sz p) (mem s) = Ok r k2 ∧
    moves (mem s) l (own t (trapframe q)) k2 l2 (own t2 (trapframe q)) ∧ p_root t2 = pagetable q ∧
    frame k2 l2 (trapframe q) ∧ ¬ upage t2 (trapframe q) ∧
    (r = 0 ∧ pspace k2 l2 t2 (trapframe q) (sz p) ∧ (∀ v, aspace k2 t2 v = aspace (mem s) tc v) ∨
     r = -1 ∧ pspace k2 l2 t2 (trapframe q) 0).
Proof.
  intros Hm Hne Hp Htc Hq Ht Hsp Hsq Hsz.
  destruct (mi_live _ _ _ Hm cur p Hp Hsp) as (tc' & Htc' & [Hrc [Huc _ [Hsc Hmc]] _ _]).
  destruct (mi_live _ _ _ Hm np q Hq Hsq) as (t' & Ht' & [Hrq [Huq Hhq [_ Hmq]] Hfq Hselfq]). simplify_eq.
  rewrite Hsz in Hmq. change (npages 0) with 0 in Hmq.
  assert (Hnone : ∀ v, aspace (mem s) t v = None).
  { intros v. destruct (aspace (mem s) t v) eqn:E; [|done]. destruct (proj1 (Hmq v)); [eauto|lia]. }
  assert (Hap : apart tc t).
  { intros x Hx Hx'. by apply (mi_sep _ _ _ Hm cur np p q tc t x Hp Hq Htc Ht Hne); [left|left]. }
  destruct (uvmcopy_run kend kend_pos (mem s) l t tc (sz p) Huq Huc Hap Hsc) as (r & k2 & l2 & t2 & Hrun & Hst & Hres & _).
  { intros v Hv. split; [by apply Hmc|done]. }
  pose proof Hfq as (Hok & Htl & x & Hx & Hpx).
  pose proof (ustep_moves kend _ _ _ _ _ _ Hst) as Hmv.
  destruct (moves_out kend _ _ _ _ _ _ (trapframe q) Hmv Htl Hselfq) as (Htl2 & Hself2 & Hm2).
  assert (Hsp2 : ∀ z, sized k2 t2 z → pspace k2 l2 t2 (trapframe q) z).
  { intros z Hz. split; [apply Hst| |done]. intros v Hv. rewrite (st_high _ _ _ _ _ _ _ Hst) by done. by apply Hhq. }
  exists r, k2, l2, t2. rewrite <-Hrc, <-Hrq. split; [done|]. split.
  { eapply moves_ext; [apply (moves_frame _ _ _ _ _ _ _ (λ x, x = trapframe q) Hmv)|done|done].
    intros y ->. done. }
  split; [by rewrite (st_root _ _ _ _ _ _ _ Hst)|]. split; [split; [done|]; split; [done|]; rewrite Hm2; eauto|]. split; [done|].
  destruct Hres as [[-> Hcp]|[-> Has]]; [left|right]; (split; [done|]).
  - assert (Hall : ∀ v, aspace k2 t2 v = aspace (mem s) tc v).
    { intros v. rewrite Hcp. case_decide as Hv; [done|]. rewrite Hnone. destruct (aspace (mem s) tc v) eqn:E; [|done].
      destruct (proj1 (Hmc v)); [eauto|lia]. }
    split; [|done]. apply Hsp2. split; [done|]. intros v. rewrite Hall. apply Hmc.
  - apply Hsp2, sized_empty. intros v. by rewrite Has.
Qed.

(** Live slots of [s] are as they were, with the same memory. *)
Definition keeps (s : ps) (T : gmap nat ptree) (s' : ps) (T' : gmap nat ptree) : Prop :=
  ∀ j q, procs s !! j = Some q → state q ≠ UNUSED → procs s' !! j = Some q ∧
    ∀ t, T !! j = Some t → T' !! j = Some t ∧ intact (mem s) (mem s') t q.

(** A slot that was unused and is so again. *)
Lemma unused_slot (s : ps) T i p p' k' n :
  finv s → procs s !! i = Some p → state p = UNUSED → others s T i k' →
  state p' = UNUSED → ofile p' = ofile p → cwd p' = cwd p → length (name p') = length (name p) →
  let s' := MkPs (<[i := p']> (procs s)) n (initproc s) k' (fs s) in
  finv s' ∧ keeps s T s' T ∧ ∀ j q, procs s' !! j = Some q → state q ≠ UNUSED → procs s !! j = Some q.
Proof.
  intros Hf Hp Hs Ho Hs' Hof Hcw Hnm s'. destruct (fi_fd _ _ Hf i p Hp) as [Hl1 Hl2].
  destruct (fi_unused _ _ Hf i p Hp ltac:(by left)) as [Ho1 Ho2]. split; [|split].
  - eapply (finv_slot None None s s' i p'); try done; [|congruence..|intros _; by rewrite Hof, Hcw|intros Hd; destruct Hd; by left].
    eapply fok_ext; [apply (fi_ok _ _ Hf)|..]; intros x; cbn [s' procs]; rewrite (sum_over_insert _ _ i p) by done; unfold nfd, ncwd; rewrite ?Hof, ?Hcw; lia.
  - intros j q Hq Hsq. assert (Hj : j ≠ i) by (intros ->; congruence). split; [cbn; by rewrite list_lookup_insert_ne|].
    intros t Ht. split; [done|]. by apply (Ho j q).
  - intros j q. cbn. by intros [(<- & <- & _)|[? ?]]%list_lookup_insert_Some Hsq.
Qed.

(** What [fork] returns: -1 with no new process, or a copy of the caller. *)
Definition copied (s : ps) (cur : nat) (p : proc) (tc : ptree) (r : Z) (s' : ps) (T' : gmap nat ptree) : Prop :=
  ∃ np q t p0, procs s !! np = Some p0 ∧ state p0 = UNUSED ∧ procs s' !! np = Some q ∧ T' !! np = Some t ∧
    r = pid q ∧ pid q = nextpid s ∧ state q = RUNNABLE ∧ parent q = Some cur ∧ sz q = sz p ∧
    ofile q = ofile p ∧ cwd q = cwd p ∧ (∀ v, aspace (mem s') t v = aspace (mem s) tc v) ∧
    ∃ x y, pmem (mem s) !! trapframe p = Some x ∧ pmem (mem s') !! trapframe q = Some y ∧
      take tf_size y = take tf_size (wr 8 tf_a0 0 x).

(** The rest of [fork] once it has a slot. *)
Definition fork_rest (cur np : nat) (p : proc) : M ps Z :=
  q ← getp np;
  r ← on_mem (uvmcopy kend (pagetable p) (pagetable q) (sz p));
  if bool_decide (r < 0) then freeproc kend np;; mret (-1) else
  setp np (set_sz (sz p));;
  on_mem (copy_trapframe (trapframe p) (trapframe q));;
  dup_files (ofile p) 0 np;;
  dir ← on_fs (idup (cwd p));
  setp np (set_cwd dir);;
  nm ← of_option (Str.safestrcpy (name q) (name p) 16);
  setp np (set_name nm);;
  setp np (set_parent (Some cur));;
  setp np (set_state RUNNABLE);;
  mret (pid q).

(** The child of [p] in the slot [q]. *)
Definition child_of (cur : nat) (p q : proc) (nm : list Z) : proc :=
  MkProc RUNNABLE (chan q) (killed q) (xstate q) (pid q) (Some cur) (kstack q) (sz p) (pagetable q) (trapframe q)
    (ctx_ra q) (ctx_sp q) (ofile p) (cwd p) nm.

(** The files and the current directory of the child. *)
Lemma child_files (s : ps) cur np p q :
  cur ≠ np → procs s !! cur = Some p → procs s !! np = Some q → length (procs s) = 64%nat →
  counted (fs s) (procs s) → (∀ i r, procs s !! i = Some r → length (ofile r) = 16%nat) →
  ofile q = replicate 16 0 → cwd q = 0 → cwd p ≠ 0 → 
  ∃ f1 f2, dup_files (ofile p) 0 np s = Ok tt (put_fs f1 (put_proc np (set_ofile (ofile p) q) s)) ∧
    idup (cwd p) f1 = Ok (cwd p) f2 ∧ same_pages (fs s) f2 ∧
    ∀ r, ofile r = ofile p → cwd r = cwd p → counted f2 (<[np := r]> (procs s)).
Proof.
  intros Hne Hp Hq Hn Hc Hlen Hof Hcq Hcp.
  assert (Hlp16 : length (ofile p) = 16%nat) by (by eapply Hlen).
  destruct (dup_files_run np (ofile p) 0 [] s q Hq) as (f1 & Hrun & Hc1 & Hpg1); [by rewrite Hlp16|done|done|done|done| |].
  { intros f Hf _. eauto. }
  cbn [app] in *. exists f1.
  assert (HI : 0 < sum_over (ncwd (cwd p)) (<[np := set_ofile (ofile p) q]> (procs s)) < 2 ^ 30).
  { assert (Hp' : <[np := set_ofile (ofile p) q]> (procs s) !! cur = Some p) by (by rewrite list_lookup_insert_ne).
    pose proof (sum_over_ge (ncwd (cwd p)) _ cur p (ncwd_nonneg _) Hp'). unfold ncwd at 1 in H. rewrite decide_True in H by done.
    assert (sum_over (ncwd (cwd p)) (<[np := set_ofile (ofile p) q]> (procs s)) ≤ 1 * Z.of_nat (length (<[np := set_ofile (ofile p) q]> (procs s)))).
    { apply sum_over_le. intros r _. unfold ncwd. case_decide; lia. }
    rewrite length_insert, Hn in *. lia. }
  destruct (proj1 (wp_ok _ _ _) (idup_law _ _ _ _ Hc1 HI)) as (g & f2 & Hrun2 & -> & Hc2 & Hpg2).
  exists f2. split; [done|]. split; [done|]. split; [intros x; by rewrite (Hpg2 x), (Hpg1 x)|]. intros r Hr1 Hr2.
  eapply fok_ext; [exact Hc2|..]; intros x.
  - rewrite !(sum_over_insert _ _ np q) by done. unfold nfd. cbn [ofile set_ofile]. by rewrite Hr1.
  - destruct (decide (x = cwd p)) as [->|Hx]; [rewrite fn_lookup_insert|rewrite fn_lookup_insert_ne by done];
      rewrite !(sum_over_insert _ _ np q) by done; unfold ncwd; cbn [cwd set_ofile]; rewrite Hr2, Hcq.
    + rewrite (decide_True (P := cwd p ≠ 0 ∧ cwd p = cwd p)) by done. destruct (decide (cwd p ≠ 0 ∧ 0 = cwd p)); [naive_solver|lia].
    + rewrite (decide_False (P := x ≠ 0 ∧ cwd p = x)) by naive_solver. destruct (decide (x ≠ 0 ∧ 0 = x)); [naive_solver|lia].
Qed.
Section child.
Context (s : ps) (l : list Z) (T : gmap nat ptree) (cur np : nat) (p q : proc) (tc t : ptree).
Hypothesis Hm : minv s l T.
Hypothesis Hne : cur ≠ np.
Hypothesis Hp : procs s !! cur = Some p.
Hypothesis Hq : procs s !! np = Some q.
Hypothesis Htc : T !! cur = Some tc.
Hypothesis Ht : T !! np = Some t.
Hypothesis Hlp : state p ≠ UNUSED.
Hypothesis Hlq : state q ≠ UNUSED.
Hypothesis Hsz : sz q = 0.

Lemma fork_rest_run :
  counted (fs s) (procs s) → (∀ i r, procs s !! i = Some r → length (ofile r) = 16%nat ∧ length (name r) = 16%nat) →
  ofile q = replicate 16 0 → cwd q = 0 → cwd p ≠ 0 →
  ∃ r s' l', fork_rest cur np p s = Ok r s' ∧
    ((∃ k', r = -1 ∧ s' = put_mem k' (put_proc np (freed q) s) ∧ moves (mem s) l (own t (trapframe q)) k' l' nothing) ∨
     (∃ k' f nm t2, r = pid q ∧ s' = put_fs f (put_mem k' (put_proc np (child_of cur p q nm) s)) ∧
        moves (mem s) l (own t (trapframe q)) k' l' (own t2 (trapframe q)) ∧ holds k' l' t2 (child_of cur p q nm) ∧
        (∀ v, aspace k' t2 v = aspace (mem s) tc v) ∧ length nm = 16%nat ∧ same_pages (fs s) f ∧
        counted f (<[np := child_of cur p q nm]> (procs s)) ∧
        ∃ x y, pmem (mem s) !! trapframe p = Some x ∧ pmem k' !! trapframe q = Some y ∧
          take tf_size y = take tf_size (wr 8 tf_a0 0 x))).
Proof.
  intros Hc Hlen Hof Hcq Hcp. unfold fork_rest. erewrite bind_ok by (by apply getp_run). cbv beta.
  destruct (fork_mem s l T cur np p q tc t Hm Hne Hp Htc Hq Ht Hlp Hlq Hsz) as (r & k2 & l2 & t2 & Hrun & Hmv & Hroot & Hfr & Hself & Hres).
  erewrite bind_ok by (by apply on_mem_run). cbv beta.
  assert (Htf0 : trapframe q ≠ 0) by (by apply (page_ok_pa kend kend_pos), Hfr).
  assert (Hpt0 : pagetable q ≠ 0).
  { destruct (mi_live _ _ _ Hm np q Hq Hlq) as (t' & _ & [<- [Hu _ _] _ _]).
    apply (page_ok_pa kend kend_pos). apply (pr_ok _ _ _ (vs_rep _ _ _ _ (us_st _ _ _ _ Hu))). by exists TRoot. }
  destruct Hres as [(-> & Hsp & Hcp2)|[-> Hsp]].
  2:{ rewrite bool_decide_true by lia.
      destruct (freeproc_run np q (Some t2) (put_mem k2 s) l2 Hq) as (k3 & l3 & Hrun3 & Hmv3); [apply Hmv| |].
      { split; [done|]. rewrite Hsz. eauto. }
      erewrite bind_ok by exact Hrun3. eexists (-1), _, l3. split; [done|]. left. exists k3. split; [done|]. split; [done|].
      eapply moves_trans; [exact Hmv|]. eapply moves_ext; [exact Hmv3| |done]. intros x. by apply parts_full. }
  rewrite bool_decide_false by lia. erewrite bind_ok by (apply setp_run; exact Hq). cbv beta.
  destruct (mi_live _ _ _ Hm cur p Hp Hlp) as (tc' & Htc' & [_ _ (_ & Htlp & xp & Hxp & Hpxp) _]). simplify_eq.
  destruct Hfr as (Hok & Htl & y & Hy & Hpy).
  assert (Hxp2 : pmem k2 !! trapframe p = Some xp).
  { rewrite (mv_mem _ _ _ _ _ _ _ Hmv); [done|]. intros [?|Ho]; [done|].
    by apply (mi_sep _ _ _ Hm cur np p q tc t (trapframe p) Hp Hq Htc Ht Hne); [right|]. }
  destruct (trapframe_page xp y Hpxp Hpy) as [Hpage Htake].
  set (s3 := put_proc np (set_sz (sz p) q) (put_mem k2 s)).
  erewrite bind_ok by (apply (on_mem_run _ s3); by apply copy_trapframe_run). cbv beta.
  set (y' := wr 8 tf_a0 0 _) in *. set (k3 := MkKmem (freelist k2) (<[trapframe q := y']> (pmem k2))).
  destruct (frame_write k2 l2 t2 (trapframe q) (sz p) y' Hsp ltac:(split; eauto) Hself Hpage) as (Hmv3 & Hsp3 & Hfr3 & Has3). fold k3 in Hmv3, Hsp3, Hfr3, Has3.
  set (s4 := put_mem k3 s3).
  assert (Hq4 : procs s4 !! np = Some (set_sz (sz p) q)) by (eapply put_proc_lookup; exact Hq).
  destruct (child_files s4 cur np p (set_sz (sz p) q) Hne) as (f1 & f2 & Hdup & Hidup & Hpg & Hcnt);
    [cbn; by rewrite list_lookup_insert_ne|done|cbn; rewrite length_insert; by rewrite (mi_len _ _ _ Hm)| | |done|done|done|].
  { eapply fok_ext; [exact Hc|..]; intros x; cbn [s4 s3 put_mem put_proc procs]; rewrite (sum_over_insert _ _ np q) by done; unfold nfd, ncwd; cbn; lia. }
  { intros i r. cbn. intros [(<- & <- & _)|[_ Hr]]%list_lookup_insert_Some; [by apply (Hlen np q)|by apply (Hlen i r)]. }
  erewrite bind_ok by exact Hdup. cbv beta. set (q5 := set_ofile (ofile p) (set_sz (sz p) q)). set (s5 := put_proc np q5 s4).
  assert (Hq5 : procs s5 !! np = Some q5) by (by eapply put_proc_lookup).
  erewrite bind_ok by (apply on_fs_run; exact Hidup). cbv beta. erewrite bind_ok by (apply setp_run; exact Hq5). cbv beta.
  destruct (Hlen np q Hq) as [_ Hnq]. destruct (Hlen cur p Hp) as [_ Hnp].
  destruct (Str.safestrcpy_loop_spec 15 (name q) (name p)) as (nm & Hnm & Hnml & _); [lia|left; lia|].
  erewrite bind_ok.
  2:{ unfold Str.safestrcpy. rewrite bool_decide_false by lia. change (Z.to_nat (16 - 1)) with 15%nat. rewrite Hnm. reflexivity. }
  cbv beta. erewrite bind_ok by (apply setp_run; by eapply put_proc_lookup). cbv beta. rewrite put_put.
  erewrite bind_ok by (apply setp_run; by eapply put_proc_lookup). cbv beta. rewrite put_put.
  erewrite bind_ok by (apply setp_run; by eapply put_proc_lookup). cbv beta. rewrite put_put.
  eexists _, _, l2. split; [done|]. right. exists k3, f2, nm, t2. split; [done|]. split.
  { unfold s5, s4, s3, put_fs, put_mem, put_proc. cbn. by rewrite !list_insert_insert_eq. }
  split; [by eapply moves_trans|]. split; [split; [done|exact Hsp3|exact Hfr3|done]|]. split; [intros v; by rewrite Has3|].
  split; [congruence|]. split; [exact Hpg|]. split.
  - specialize (Hcnt (child_of cur p q nm) eq_refl eq_refl). cbn [s4 s3 put_mem put_proc procs] in Hcnt. by rewrite list_insert_insert_eq in Hcnt.
  - exists xp, y'. split; [done|]. split; [cbn; apply lookup_insert_eq|done].
Qed.
End child.

Lemma fork_unfold cur (s : ps) p : procs s !! cur = Some p →
  fork kend trampoline forkret cur s =
  (found ← allocproc kend trampoline forkret; match found with None => mret (-1) | Some np => fork_rest cur np p end) s.
Proof. intros Hp. unfold fork. by erewrite bind_ok by (by apply getp_run). Qed.

Lemma own_owned (s : ps) T i p t x : procs s !! i = Some p → T !! i = Some t → owned s T i x ↔ own t (trapframe p) x.
Proof. intros Hp Ht. unfold owned. split; [intros (q & u & ? & ? & ?); by simplify_eq|eauto]. Qed.

(** The table that [fork] sees once it has a slot. *)
Section slot.
Context (s : ps) (T : gmap nat ptree) (np : nat) (p0 : proc) (tf pt : Z) (k1 : kmem).
Hypothesis Hf : finv s.
Hypothesis Hp0 : procs s !! np = Some p0.
Hypothesis Hu0 : state p0 = UNUSED.
Local Notation q := (fresh p0 (nextpid s) tf pt).
Local Notation s1 := (put_mem k1 (put_proc np q (put_pid (s32 (nextpid s + 1)) s))).

Lemma slot_counted : counted (fs s1) (procs s1).
Proof.
  eapply fok_ext; [apply (fi_ok _ _ Hf)|..]; intros x; cbn; rewrite (sum_over_insert _ _ np p0) by done; unfold nfd, ncwd; cbn; lia.
Qed.
Lemma slot_lengths i r : procs s1 !! i = Some r → length (ofile r) = 16%nat ∧ length (name r) = 16%nat.
Proof. cbn. intros [(<- & <- & _)|[_ Hr]]%list_lookup_insert_Some; [by apply (fi_fd _ _ Hf np p0)|by eapply fi_fd]. Qed.

(** A child in the slot. *)
Lemma slot_finv f cur p nm (s' : ps) :
  procs s' = <[np := child_of cur p q nm]> (procs s1) → counted f (procs s') → fs s' = f →
  length (ofile p) = 16%nat → length nm = 16%nat → cwd p ≠ 0 → finv s'.
Proof.
  intros Hps Hc <- Hlen Hnm Hcw. cbn in Hps. rewrite list_insert_insert_eq in Hps.
  eapply (finv_slot None None s s' np); try done. by intros [?|?].
Qed.
End slot.

(** What [fork] does to the table: at most one slot changes, which was unused. *)
Definition added (s s' : ps) : Prop := initproc s' = initproc s ∧
  (procs s' = procs s ∨ ∃ np p0 c, procs s !! np = Some p0 ∧ state p0 = UNUSED ∧ procs s' = <[np := c]> (procs s) ∧
     (state c = UNUSED ∨ state c = RUNNABLE)).

Lemma fork_run (s : ps) l T cur p tc :
  minv s l T → finv s → procs s !! cur = Some p → state p = RUNNING → T !! cur = Some tc →
  ∃ r s' l' T', fork kend trampoline forkret cur s = Ok r s' ∧ minv s' l' T' ∧ finv s' ∧ keeps s T s' T' ∧
    (r = -1 ∧ (∀ j q, procs s' !! j = Some q → state q ≠ UNUSED → procs s !! j = Some q) ∨
     copied s cur p tc r s' T') ∧ added s s'.
Proof.
  intros Hm Hf Hp Hrun Htc. rewrite (fork_unfold cur s p Hp).
  destruct (allocproc_run s l T Hm) as (r1 & s1 & Hal & Hpost). erewrite bind_ok by exact Hal. cbv beta.
  destruct Hpost as [[-> ->]|(np & p0 & k1 & l1 & Hp0 & Hu0 & Hoth & [(-> & -> & Hm1)|(tf & pt & t & -> & -> & Hm1 & Hsz1)])].
  { exists (-1), s, l, T. split; [done|]. split; [done|]. split; [done|]. split; [|split; [by left|by split; [|left]]]. done. }
  { destruct (unused_slot s T np p0 (freed p0) k1 (s32 (nextpid s + 1)) Hf Hp0 Hu0 Hoth) as (Hf1 & Hk1 & Hn1); [done..|apply length_insert|].
    eexists (-1), _, l1, T. split; [done|]. split; [exact Hm1|]. split; [exact Hf1|]. split; [exact Hk1|].
    split; [by left|]. split; [done|]. right. exists np, p0, (freed p0). repeat (split; [done|]). by left. }
  set (q := fresh p0 (nextpid s) tf pt) in *. set (s1 := put_mem k1 (put_proc np q (put_pid (s32 (nextpid s + 1)) s))) in *.
  assert (Hne : cur ≠ np) by (intros ->; congruence).
  assert (Hpc : procs s1 !! cur = Some p) by (cbn; by rewrite list_lookup_insert_ne).
  assert (Hpn : procs s1 !! np = Some q) by (eapply put_proc_lookup; exact Hp0).
  assert (Htn : <[np := t]> T !! np = Some t) by apply lookup_insert_eq.
  assert (Htc1 : <[np := t]> T !! cur = Some tc) by (by rewrite lookup_insert_ne).
  destruct (fi_unused _ _ Hf np p0 Hp0 ltac:(by left)) as [Hof0 Hcw0]. assert (Hcw : cwd p ≠ 0) by (apply (fi_cwd _ _ Hf cur p); congruence).
  assert (Hlive : state p ≠ UNUSED) by congruence. assert (Hsz0 : sz q = 0) by apply (mi_unused _ _ _ Hm np p0 Hp0 Hu0).
  destruct (fork_rest_run s1 l1 (<[np := t]> T) cur np p q tc t Hm1 Hne Hpc Hpn Htc1 Htn Hlive ltac:(done) Hsz0
    (slot_counted s np p0 tf pt k1 Hf Hp0) (slot_lengths s np p0 tf pt k1 Hf Hp0) Hof0 Hcw0 Hcw) as (r & s' & l' & Hrest & Hres).
  destruct Hres as [(k2 & -> & -> & Hmv)|(k2 & f & nm & t2 & -> & -> & Hmv & Hh & Has & Hnm & Hpg & Hcnt & Htf)].
  - destruct (minv_update s1 l1 (<[np := t]> T) np q (freed q) k2 l' T _ nothing (put_mem k2 (put_proc np (freed q) s1)) Hm1 Hpn Hmv) as [Hm2 Hk2]; try done.
    { intros x. by apply own_owned. }
    { intros j Hj. by rewrite lookup_insert_ne. }
    { intros _. by destruct (mi_unused _ _ _ Hm np p0 Hp0 Hu0). }
    assert (Hoth2 : others s T np k2).
    { intros j r t' Hj Hr Ht'. eapply intact_trans; [by apply (Hoth j r)|].
      apply (Hk2 j r t'); [done|cbn; by rewrite list_lookup_insert_ne|by rewrite lookup_insert_ne]. }
    assert (Heq : put_mem k2 (put_proc np (freed q) s1) = MkPs (<[np := freed q]> (procs s)) (s32 (nextpid s + 1)) (initproc s) k2 (fs s)).
    { unfold s1, put_mem, put_proc. cbn. by rewrite list_insert_insert_eq. }
    rewrite Heq in *.
    destruct (unused_slot s T np p0 (freed q) k2 (s32 (nextpid s + 1)) Hf Hp0 Hu0 Hoth2) as (Hf2 & Hkp & Hn2); [done..|apply length_insert|].
    eexists (-1), _, l', T. split; [exact Hrest|]. split; [exact Hm2|]. split; [exact Hf2|]. split; [exact Hkp|].
    split; [by left|]. split; [done|]. right. exists np, p0, (freed q). repeat (split; [done|]). by left.
  - set (c := child_of cur p q nm) in *. set (s2 := put_fs f (put_mem k2 (put_proc np c s1))) in *.
    destruct (minv_update s1 l1 (<[np := t]> T) np q c k2 l' (<[np := t2]> T) _ _ s2 Hm1 Hpn Hmv) as [Hm2 Hk2]; try done.
    { intros x. by apply own_owned. }
    { intros j Hj. by rewrite !lookup_insert_ne. }
    { intros _. exists t2. split; [apply lookup_insert_eq|]. split; [done|]. done. }
    assert (Hc2 : procs s2 !! np = Some c) by (cbn; rewrite list_insert_insert_eq; eapply (put_proc_lookup np c p0 s); done).
    exists (pid q), s2, l', (<[np := t2]> T). split; [exact Hrest|]. split; [exact Hm2|]. split; [|split; [|split]].
    + eapply (slot_finv s np p0 tf pt k1 Hf f cur p nm); try done. by apply (fi_fd _ _ Hf cur p).
    + intros j r Hr Hlr. assert (Hj : j ≠ np) by (intros ->; congruence).
      split; [cbn; by rewrite !list_lookup_insert_ne|]. intros u Hu. split; [by rewrite lookup_insert_ne|].
      eapply intact_trans; [by apply (Hoth j r)|].
      apply (Hk2 j r u); [done|cbn; by rewrite list_lookup_insert_ne|by rewrite lookup_insert_ne].
    + right. destruct Htf as (x & y & Hx & Hy & Hxy). exists np, c, t2, p0. split; [done|]. split; [done|]. split; [done|].
      split; [apply lookup_insert_eq|]. repeat (split; [done|]). split.
      * intros v. cbn [s2 mem put_fs put_mem]. rewrite Has. by apply (Hoth cur p).
      * exists x, y. split; [|done]. by destruct (Hoth cur p tc Hne Hp Htc) as [_ <-].
    + split; [done|]. right. exists np, p0, c. split; [done|]. split; [done|]. split; [cbn; by rewrite list_insert_insert_eq|by right].
Qed.

(** C7: [fork] by a running process always returns.  It returns -1 when the table
    is full or memory runs out, and then the table has no new process.  Otherwise
    it returns the new process's pid, and the child is an exact copy: every
    virtual page has the contents and permissions it has in the parent, in pages
    of its own; its registers are the parent's except that [a0] is 0; and it has
    the parent's size, open files and current directory.  In both cases every
    process that was there, the parent included, keeps its table entry and
    memory, no page is owned twice or lost to both the owners and the free list,
    and the reference counts of files and inodes are the number of references
    that processes hold. *)
Theorem fork_copies (s : ps) l T cur p tc :
  minv s l T → finv s → procs s !! cur = Some p → state p = RUNNING → T !! cur = Some tc →
  ∃ r s' l' T', fork kend trampoline forkret cur s = Ok r s' ∧ minv s' l' T' ∧ finv s' ∧ keeps s T s' T' ∧
    (r = -1 ∧ (∀ j q, procs s' !! j = Some q → state q ≠ UNUSED → procs s !! j = Some q) ∨
     copied s cur p tc r s' T').
Proof.
  intros Hm Hf Hp Hr Ht. destruct (fork_run s l T cur p tc Hm Hf Hp Hr Ht) as (r & s' & l' & T' & H1 & H2 & H3 & H4 & H5 & _).
  by exists r, s', l', T'.
Qed.
End spec.
End ProcSpec.
