(* ===== verification/ProcStep.v ===== *)
(** The other operations on processes - [growproc], [exit], [wait], [kill],
    [sleep], [wakeup], [yield], the scheduler - and what every sequence of them
    preserves. *)

From stdpp Require Import functions.
From S2P Require Import Prelude Riscv CString Kalloc Vm PageTable UserMem UserCopy UserFree Proc ProcMem ProcSpec.
Import Kalloc Vm PageTable UserMem UserCopy Proc ProcMem ProcSpec.

Local Open Scope Z_scope.

Module ProcStep.

Section steps.
Context {F : Type} {FO : FileOps F} {FL : FileLaws F}.
Context (kend trampoline forkret : Z) (kend_pos : 0 < kend).
Hypothesis tramp_ok : pa_ok trampoline.
Hypothesis tramp_kernel : trampoline + 4096 ≤ 2 ^ 54.
Notation ps := (@Proc.ps F).
Notation page_ok := (Kalloc.page_ok kend).
Notation pspace := (ProcMem.pspace kend trampoline).
Notation moves := (ProcMem.moves kend).
Notation holds := (ProcSpec.holds kend trampoline).
Notation minv := (ProcSpec.minv kend trampoline).
Notation ustep := (UserMem.ustep kend).

(** ** One process changes its own address space *)

Lemma holds_step k l t p k' l' t' p' :
  holds k l t p → ustep k l t k' l' t' → sized k' t' (sz p') →
  pagetable p' = pagetable p → trapframe p' = trapframe p →
  moves k l (own t (trapframe p)) k' l' (own t' (trapframe p')) ∧ holds k' l' t' p'.
Proof.
  intros [Hroot [Hu Hhi _] (Hok & Htl & x & Hx & Hpx) Hself] Hst Hsz Hpt Htf. rewrite Htf.
  pose proof (ustep_moves kend _ _ _ _ _ _ Hst) as Hmv.
  destruct (moves_out kend _ _ _ _ _ _ (trapframe p) Hmv Htl Hself) as (Htl' & Hself' & Hm').
  split.
  - eapply moves_ext; [apply (moves_frame _ _ _ _ _ _ _ (eq (trapframe p)) Hmv)|..].
    + by intros y <-.
    + intros y. unfold own. split; (intros [?|?]; [by left|by right]).
    + intros y. unfold own. split; (intros [?|?]; [by left|by right]).
  - split; rewrite ?Htf, ?Hpt; [by rewrite (st_root _ _ _ _ _ _ _ Hst)| |split; [done|]; split; [done|]; rewrite Hm'; eauto|done].
    split; [apply Hst| |done]. intros v Hv. rewrite (st_high _ _ _ _ _ _ _ Hst v Hv). by apply Hhi.
Qed.

Lemma minv_step (s : ps) l T i p t k' l' t' p' :
  minv s l T → procs s !! i = Some p → state p ≠ UNUSED → T !! i = Some t →
  ustep (mem s) l t k' l' t' → sized k' t' (sz p') →
  pagetable p' = pagetable p → trapframe p' = trapframe p → state p' ≠ UNUSED →
  minv (put_mem k' (put_proc i p' s)) l' (<[i := t']> T) ∧ others s T i k'.
Proof.
  intros Hm Hp Hl Ht Hst Hsz Hpt Htf Hl'. destruct (mi_live _ _ _ _ _ Hm i p Hp Hl) as (t0 & Ht0 & Hh). simplify_eq.
  destruct (holds_step _ _ _ _ _ _ _ p' Hh Hst Hsz Hpt Htf) as [Hmv Hh'].
  eapply (minv_update _ _ s l T i p p' k' l' (<[i := t']> T)); [done|done|exact Hmv|..]; try done.
  - intros x. by apply own_owned.
  - intros j Hj. by rewrite lookup_insert_ne.
  - intros _. exists t'. split; [apply lookup_insert_eq|]. done.
Qed.

Lemma sized_bound k l t size : UserMem.uspace kend k l t → sized k t size → size ≤ 0x88000000.
Proof.
  intros Hu [Hsz Hsome]. assert (npages size ≤ 0x88000); [|unfold npages in *; zlia].
  eapply (pages_bound kend kend_pos k l t); [done|]. intros v. apply Hsome.
Qed.

(** ** growproc *)

(** [sbrk] by [n] bytes: zeroed user pages are added at the end, or pages are
    taken away from the end; a request to shrink below zero changes nothing. *)
Definition resized (k : kmem) (t : ptree) (size n r size' : Z) (k' : kmem) (t' : ptree) : Prop :=
  if decide (0 < n) then
    r = 0 ∧ size' = size + n ∧ afill k t (npages size) (npages size' - npages size) 0x17 k' t' ∨
    r = -1 ∧ size' = size ∧ asame k t k' t'
  else r = 0 ∧ size' = (if decide (size + n < 0) then size else size + n) ∧
    aclear k t (npages size') (npages size - npages size') k' t'.

Lemma resized_sized k t size n r size' k' t' :
  sized k t size → size ≤ 0x88000000 → - 2 ^ 31 ≤ n < 2 ^ 31 → resized k t size n r size' k' t' → sized k' t' size'.
Proof.
  intros [Hsz Hv] Hb Hn Hr. change TRAPFRAME with (2 ^ 38 - 8192) in *.
  assert (Hmono : ∀ a b, a ≤ b → npages a ≤ npages b) by (intros; unfold npages; zlia). unfold resized in Hr.
  destruct (decide (0 < n)) as [H0|H0]; [destruct Hr as [(_ & -> & Hf)|(_ & -> & Hf)]|destruct Hr as (_ & -> & Hf)];
    (split; [change TRAPFRAME with (2 ^ 38 - 8192); repeat destruct (decide _); lia|]); intros v; rewrite Hf.
  - pose proof (Hmono size (size + n)). assert (0 ≤ npages size) by (unfold npages; zlia). specialize (Hv v).
    destruct (decide _); [split; [lia|eauto]|]. rewrite Hv. lia.
  - apply Hv.
  - specialize (Hv v). destruct (decide (size + n < 0)).
    + rewrite decide_False by lia. done.
    + pose proof (Hmono (size + n) size). assert (0 ≤ npages (size + n)) by (unfold npages; zlia).
      destruct (decide _); [split; [by intros []|lia]|]. rewrite Hv. lia.
Qed.

Lemma growproc_mem (s : ps) l t p n :
  holds (mem s) l t p → - 2 ^ 31 ≤ n < 2 ^ 31 → ∀ i, procs s !! i = Some p →
  ∃ r k' l' t' size', growproc kend i n s = Ok r (put_mem k' (put_proc i (set_sz size' p) s)) ∧
    ustep (mem s) l t k' l' t' ∧ resized (mem s) t (sz p) n r size' k' t' ∧ sized k' t' size'.
Proof.
  intros [Hroot [Hu Hhi Hsz] _ _] Hn i Hp. pose proof (sized_bound _ _ _ _ Hu Hsz) as Hb.
  pose proof Hsz as [Hr Hv]. change TRAPFRAME with (2 ^ 38 - 8192) in Hr.
  assert (Hgoal : ∃ r k' l' t' size', growproc kend i n s = Ok r (put_mem k' (put_proc i (set_sz size' p) s)) ∧
    ustep (mem s) l t k' l' t' ∧ resized (mem s) t (sz p) n r size' k' t').
  2:{ destruct Hgoal as (r & k' & l' & t' & size' & H1 & H2 & H3). exists r, k', l', t', size'. split; [done|]. split; [done|].
      split; [done|]. by eapply resized_sized. }
  unfold growproc. erewrite bind_ok by (by apply getp_run). cbv beta. rewrite <-Hroot.
  assert (Hnone : ∀ v, npages (sz p) ≤ v < npages (sz p + n) → aspace (mem s) t v = None).
  { intros v Hb'. apply eq_None_not_Some. rewrite Hv. lia. }
  assert (Hsame : put_proc i (set_sz (sz p) p) s = s).
  { unfold put_proc. rewrite list_insert_id; [by destruct s|]. rewrite Hp. by destruct p. }
  case_bool_decide as Hpos.
  - rewrite u64_id by lia.
    destruct (uvmalloc_run kend kend_pos (mem s) l t (sz p) (sz p + n) PTE_W Hu) as (r & k' & l' & t' & Hrun & Hst & Hres);
      [lia|change TRAPFRAME with (2 ^ 38 - 8192); lia|done|done|].
    erewrite bind_ok by (by apply on_mem_run). cbv beta. destruct Hres as [[-> Hf]|[-> Hf]].
    + rewrite bool_decide_false by lia. erewrite bind_ok by (by apply setp_run).
      exists 0, k', l', t', (sz p + n). split; [done|]. split; [done|]. unfold resized. rewrite decide_True by lia. by left.
    + rewrite bool_decide_true by done. exists (-1), k', l', t', (sz p). rewrite Hsame. split; [done|]. split; [done|].
      unfold resized. rewrite decide_True by lia. by right.
  - unfold resized. destruct (decide (0 < n)) as [?|_]; [lia|]. case_bool_decide as Hneg.
    + destruct (decide (sz p + n < 0)) as [Hlt|Hge].
      * assert (Hw : u64 (sz p + n) = 2 ^ 64 + (sz p + n)) by wrap_lia.
        erewrite bind_ok by (apply on_mem_run; unfold uvmdealloc; rewrite bool_decide_true by lia; reflexivity). cbv beta.
        erewrite bind_ok by (by apply setp_run). exists 0, (mem s), l, t, (sz p). split; [by destruct s|]. split; [by apply ustep_refl|].
        split; [done|]. split; [done|]. intros v. by rewrite decide_False by lia.
      * rewrite u64_id by lia.
        destruct (uvmdealloc_spec kend kend_pos (mem s) l t (sz p) (sz p + n) Hu) as (k' & l' & t' & Hrun & Hst & Hcl);
          [change TRAPFRAME with (2 ^ 38 - 8192); lia..| |].
        { intros v Hvb. apply Hv. assert (0 ≤ npages (sz p + n)) by (unfold npages; zlia). lia. }
        erewrite bind_ok by (by apply on_mem_run). cbv beta. rewrite Z.min_r by lia.
        erewrite bind_ok by (by apply setp_run). exists 0, k', l', t', (sz p + n). done.
    + assert (n = 0) as -> by lia. rewrite Z.add_0_r. erewrite bind_ok by (by apply setp_run).
      exists 0, (mem s), l, t, (sz p). split; [by destruct s|]. split; [by apply ustep_refl|]. split; [done|].
      rewrite decide_False by lia. split; [done|]. intros v. by rewrite decide_False by lia.
Qed.

(** ** Operations that leave memory and files alone *)

(** Only fields that have nothing to do with memory or files change. *)
Record sim (p q : proc) : Prop := {
  sim_pid : pid q = pid p;
  sim_kstack : kstack q = kstack p;
  sim_sz : sz q = sz p;
  sim_pagetable : pagetable q = pagetable p;
  sim_trapframe : trapframe q = trapframe p;
  sim_ofile : ofile q = ofile p;
  sim_cwd : cwd q = cwd p;
  sim_name : name q = name p;
  sim_unused : state q = UNUSED ↔ state p = UNUSED;
  sim_zombie : state p = ZOMBIE → state q = ZOMBIE;
}.
Lemma sim_refl p : sim p p.
Proof. by split. Qed.
Lemma sim_trans p q r : sim p q → sim q r → sim p r.
Proof. intros [] []. split; try congruence; [by etrans|auto]. Qed.

#[local] Instance sim_preorder : PreOrder sim.
Proof. split; [exact sim_refl|exact sim_trans]. Qed.

Record quiet (s s' : ps) : Prop := {
  qt_procs : Forall2 sim (procs s) (procs s');
  qt_mem : mem s' = mem s;
  qt_fs : fs s' = fs s;
  qt_init : initproc s' = initproc s;
  qt_pid : nextpid s' = nextpid s;
}.
Lemma quiet_refl s : quiet s s.
Proof. split; [|done..]. apply Forall2_same_length_lookup_2; [done|]. intros i p q Hp Hq. simplify_eq. apply sim_refl. Qed.
Lemma quiet_trans s1 s2 s3 : quiet s1 s2 → quiet s2 s3 → quiet s1 s3.
Proof. intros [] []. split; [|congruence..]. by etrans. Qed.

Lemma quiet_put (s : ps) i p p' : procs s !! i = Some p → sim p p' → quiet s (put_proc i p' s).
Proof.
  intros Hp Hs. split; [|done..]. cbn. rewrite <-(list_insert_id (procs s) i p Hp) at 1.
  apply Forall2_insert; [apply quiet_refl|done].
Qed.
Lemma quiet_lookup (s s' : ps) i q : quiet s s' → procs s' !! i = Some q → ∃ p, procs s !! i = Some p ∧ sim p q.
Proof. intros Hq Hi. by eapply Forall2_lookup_r; [apply Hq|]. Qed.
Lemma quiet_lookup_l (s s' : ps) i p : quiet s s' → procs s !! i = Some p → ∃ q, procs s' !! i = Some q ∧ sim p q.
Proof. intros Hq Hi. by eapply Forall2_lookup_l; [apply Hq|]. Qed.

Lemma minv_quiet (s s' : ps) l T : minv s l T → quiet s s' → minv s' l T.
Proof.
  intros [Hlen Hk Hu Hl Hsep Hfl Hfs] Hq. pose proof Hq as [Hp Hmem Hf _ _].
  split; rewrite ?Hmem, ?Hf.
  - by rewrite <-(Forall2_length _ _ _ Hp).
  - done.
  - intros i q (p & Hi & [])%(quiet_lookup _ _ _ _ Hq) Hs. destruct (Hu i p Hi) as (? & ? & ? & ?); [by apply sim_unused0|].
    split; [done|]. split; [congruence|]. split; congruence.
  - intros i q (p & Hi & Hs)%(quiet_lookup _ _ _ _ Hq) Hlive. destruct (Hl i p Hi) as (t & Ht & Hh).
    { by rewrite <-(sim_unused _ _ Hs). }
    exists t. split; [done|]. destruct Hs, Hh as [H1 H2 H3 H4]. split; congruence.
  - intros i j q1 q2 t u x (p1 & H1 & S1)%(quiet_lookup _ _ _ _ Hq) (p2 & H2 & S2)%(quiet_lookup _ _ _ _ Hq).
    rewrite (sim_trapframe _ _ S1), (sim_trapframe _ _ S2). by apply (Hsep i j).
  - done.
  - intros i q t x (p & H1 & S1)%(quiet_lookup _ _ _ _ Hq). rewrite (sim_trapframe _ _ S1). by apply (Hfs i).
Qed.

Lemma sum_over_sim g l l' : (∀ p q, sim p q → g q = g p) → Forall2 sim l l' → sum_over g l' = sum_over g l.
Proof. intros Hg H. induction H as [|p q l l' Hs _ IH]; [done|]. cbn [sum_over]. by rewrite IH, (Hg p q). Qed.
Lemma finv_quiet ex (s s' : ps) :
  finv_but ex s → quiet s s' →
  (∀ i p q, procs s !! i = Some p → procs s' !! i = Some q → state q = ZOMBIE → state p = ZOMBIE ∨ ofile p = replicate 16 0 ∧ cwd p = 0) →
  finv_but ex s'.
Proof.
  intros [Hok Hfd Hun Hcw] Hq Hzo. split.
  - rewrite (qt_fs _ _ Hq). eapply fok_ext; [exact Hok|..]; intros x; symmetry; (apply sum_over_sim; [|apply Hq]); intros p q [].
    + unfold nfd. by rewrite sim_ofile0.
    + unfold ncwd. by rewrite sim_cwd0.
  - intros i q (p & Hi & [])%(quiet_lookup _ _ _ _ Hq). rewrite sim_ofile0, sim_name0. by apply (Hfd i).
  - intros i q Hiq. destruct (quiet_lookup _ _ _ _ Hq Hiq) as (p & Hi & []). rewrite sim_ofile0, sim_cwd0.
    intros [Hu|Hz]; [apply (Hun i p Hi); left; by apply sim_unused0|].
    destruct (Hzo i p q Hi Hiq Hz) as [?|?]; [apply (Hun i p Hi); by right|done].
  - intros i q (p & Hi & [])%(quiet_lookup _ _ _ _ Hq) Hs Hz. rewrite sim_cwd0. apply (Hcw i p Hi); [by rewrite <-sim_unused0|].
    intros E. by apply Hz, sim_zombie0.
Qed.
Lemma quiet_intact (s s' : ps) t p : quiet s s' → intact (mem s) (mem s') t p.
Proof. intros Hq. rewrite (qt_mem _ _ Hq). apply intact_refl. Qed.

Lemma wake_sim ch cur i p : sim p (wake ch cur i p).
Proof. unfold wake. destruct (_ && _)%bool eqn:E; [|apply sim_refl]. apply andb_true_iff in E as [[_ E]%andb_true_iff _]. apply bool_decide_eq_true in E. split; cbn; try done; rewrite E; naive_solver. Qed.
Lemma wakeup_quiet ch cur (s : ps) : ∃ s', wakeup ch cur s = Ok tt s' ∧ quiet s s' ∧ procs s' = imap (wake ch cur) (procs s).
Proof.
  eexists. split; [done|]. split; [|done]. split; [|done..]. cbn. apply Forall2_same_length_lookup_2; [by rewrite length_imap|].
  intros i p q Hp Hq. rewrite list_lookup_imap, Hp in Hq. injection Hq as <-. apply wake_sim.
Qed.

(** ** Waiting parents *)

(** A process asleep in [wait] has no zombie child: no exit is missed. *)
Definition sinv (s : ps) : Prop := ∀ i p j, procs s !! i = Some p → state p = SLEEPING → chan p = ChProc j →
  j = i ∧ ∀ c q, procs s !! c = Some q → parent q = Some i → state q ≠ ZOMBIE.

(** Nobody starts to wait, exits, or changes parent. *)
Record calm (p q : proc) : Prop := {
  cm_sleep j : state q = SLEEPING → chan q = ChProc j → state p = SLEEPING ∧ chan p = ChProc j;
  cm_zombie : state q = ZOMBIE → state p = ZOMBIE;
  cm_parent : parent q = parent p;
}.
Lemma calm_refl p : calm p p.
Proof. by split. Qed.
Lemma calm_trans p q r : calm p q → calm q r → calm p r.
Proof.
  intros [A1 A2 A3] [B1 B2 B3]. split; [|auto|congruence]. intros j Hs Hc. destruct (B1 j Hs Hc) as [H1 H2]. by apply A1.
Qed.
#[local] Instance calm_preorder : PreOrder calm.
Proof. split; [exact calm_refl|exact calm_trans]. Qed.
Lemma sinv_calm (s s' : ps) : sinv s → Forall2 calm (procs s) (procs s') → sinv s'.
Proof.
  intros Hs Hc i q j Hi Hst Hch. destruct (Forall2_lookup_r _ _ _ _ _ Hc Hi) as (p & Hp & [Hsl _ _]).
  destruct (Hsl j Hst Hch) as [H1 H2]. destruct (Hs i p j Hp H1 H2) as [-> Hno]. split; [done|].
  intros c r Hr. destruct (Forall2_lookup_r _ _ _ _ _ Hc Hr) as (p2 & Hp2 & [_ Hz ->]). intros Hpar Hzr.
  by apply (Hno c p2 Hp2 Hpar), Hz.
Qed.
Lemma calm_put (s : ps) i p p' : procs s !! i = Some p → calm p p' → Forall2 calm (procs s) (<[i := p']> (procs s)).
Proof.
  intros Hp Hs. rewrite <-(list_insert_id (procs s) i p Hp) at 1. apply Forall2_insert; [|done].
  apply Forall2_same_length_lookup_2; [done|]. intros j q r Hq Hr. simplify_eq. apply calm_refl.
Qed.
Lemma wake_calm ch cur i p : calm p (wake ch cur i p).
Proof. unfold wake. destruct (_ && _)%bool; [|apply calm_refl]. by split. Qed.
Lemma wakeup_calm ch cur (l : list proc) : Forall2 calm l (imap (wake ch cur) l).
Proof.
  apply Forall2_same_length_lookup_2; [by rewrite length_imap|]. intros i p q Hp Hq.
  rewrite list_lookup_imap, Hp in Hq. injection Hq as <-. apply wake_calm.
Qed.

(** What a change of one slot does to the waiting parents: the slot's new parent
    must be awake if the slot is a zombie. *)
Lemma sinv_put (s : ps) i p p' :
  sinv s → procs s !! i = Some p →
  (∀ j, state p' = SLEEPING → chan p' = ChProc j → j = i ∧ state p = SLEEPING ∧ chan p = ChProc i) →
  (state p' = ZOMBIE → ∀ j q, parent p' = Some j → procs s !! j = Some q → state q = SLEEPING → chan q ≠ ChProc j) →
  sinv (put_proc i p' s).
Proof.
  intros Hs Hp Hsl Hz a r j. cbn.
  intros [(<- & <- & _)|[Ha Hr]]%list_lookup_insert_Some Hst Hch.
  - destruct (Hsl j Hst Hch) as (-> & H1 & H2). split; [done|]. destruct (Hs i p i Hp H1 H2) as [_ Hno].
    intros c q [(<- & <- & _)|[Hc Hq]]%list_lookup_insert_Some Hpar; [congruence|by eapply Hno].
  - destruct (Hs a r j Hr Hst Hch) as [-> Hno]. split; [done|].
    intros c q [(<- & <- & _)|[Hc Hq]]%list_lookup_insert_Some Hpar; [|by eapply Hno].
    intros Hzz. by apply (Hz Hzz a r).
Qed.

(** A change that is both quiet and calm. *)
Definition still (s s' : ps) : Prop := quiet s s' ∧ Forall2 calm (procs s) (procs s').
Lemma still_put (s : ps) i p p' : procs s !! i = Some p → sim p p' → calm p p' → still s (put_proc i p' s).
Proof. intros Hp Hs Hc. split; [by eapply quiet_put|by eapply calm_put]. Qed.
Lemma still_refl (s : ps) : still s s.
Proof. split; [apply quiet_refl|]. apply Forall2_same_length_lookup_2; [done|]. intros i p q Hp Hq. simplify_eq. apply calm_refl. Qed.
Lemma still_wakeup ch cur (s : ps) : ∃ s', wakeup ch cur s = Ok tt s' ∧ still s s' ∧ procs s' = imap (wake ch cur) (procs s).
Proof.
  destruct (wakeup_quiet ch cur s) as (s' & Hrun & Hq & Hp). exists s'. split; [done|]. split; [|done].
  split; [done|]. rewrite Hp. apply wakeup_calm.
Qed.
Lemma sinv_still (s s' : ps) : sinv s → still s s' → sinv s'.
Proof. intros Hs [_ Hc]. by eapply sinv_calm. Qed.

Lemma kill_from_run n : ∀ k i (s : ps), (i + k = length (procs s))%nat →
  ∃ r s', kill_from k i n s = Ok r s' ∧ still s s' ∧
    (r = 0 ∧ (∃ j p q, procs s !! j = Some p ∧ pid p = n ∧ procs s' !! j = Some q ∧ killed q = 1 ∧ state q ≠ SLEEPING ∧
       ∀ j', j' ≠ j → procs s' !! j' = procs s !! j') ∨
     r = -1 ∧ s' = s ∧ ∀ j p, (i ≤ j)%nat → procs s !! j = Some p → pid p ≠ n).
Proof.
  induction k as [|k IH]; intros i s Hlen; cbn [kill_from].
  { exists (-1), s. split; [done|]. split; [apply still_refl|]. right. split; [done|]. split; [done|].
    intros j p Hj Hp. apply lookup_lt_Some in Hp. lia. }
  destruct (lookup_lt_is_Some_2 (procs s) i ltac:(lia)) as [p Hp].
  erewrite bind_ok by (by apply getp_run). cbv beta. case_bool_decide as Hpid.
  - erewrite bind_ok by (by apply setp_run). cbv beta.
    set (q := set_killed 1 p). exists 0. destruct (decide (state p = SLEEPING)) as [Hsl|Hsl].
    + rewrite bool_decide_true by done. cbn [when].
      erewrite bind_ok by (apply setp_run; by eapply put_proc_lookup). rewrite put_put. eexists. split; [done|]. split.
      * eapply still_put; [done|split; cbn; try done; rewrite Hsl; naive_solver|by split].
      * left. split; [done|]. exists i, p, (set_state RUNNABLE q). split; [done|]. split; [done|].
        split; [by eapply put_proc_lookup|]. split; [done|]. split; [done|]. intros j' Hj. cbn. by apply list_lookup_insert_ne.
    + rewrite bool_decide_false by done. cbn [when]. erewrite bind_ok by reflexivity. eexists. split; [done|]. split.
      * eapply still_put; [done|by split|by split].
      * left. split; [done|]. exists i, p, q. split; [done|]. split; [done|]. split; [by eapply put_proc_lookup|].
        split; [done|]. split; [done|]. intros j' Hj. cbn. by apply list_lookup_insert_ne.
  - destruct (IH (S i) s ltac:(lia)) as (r & s' & Hrun & Hst & Hres). exists r, s'. split; [done|]. split; [done|].
    destruct Hres as [?|(-> & -> & Hno)]; [by left|]. right. split; [done|]. split; [done|]. intros j q Hj Hq.
    destruct (decide (j = i)) as [->|]; [congruence|]. apply (Hno j); [lia|done].
Qed.

Lemma sleep_run {A} (s : ps) i p ch : procs s !! i = Some p →
  Proc.sleep (A := A) i ch s = Sleep (put_proc i (set_state SLEEPING (set_chan ch p)) s).
Proof.
  intros Hp. unfold Proc.sleep. erewrite bind_ok by (by apply setp_run). cbv beta.
  erewrite bind_ok by (apply setp_run; by eapply put_proc_lookup). cbv beta. rewrite put_put.
  unfold sched. erewrite bind_ok by (apply getp_run; by eapply put_proc_lookup). done.
Qed.
Lemma yield_run {A} (s : ps) i p : procs s !! i = Some p →
  yield (A := A) i s = Sleep (put_proc i (set_state RUNNABLE p) s).
Proof.
  intros Hp. unfold yield. erewrite bind_ok by (by apply setp_run). cbv beta.
  unfold sched. erewrite bind_ok by (apply getp_run; by eapply put_proc_lookup). done.
Qed.
Lemma schedule_run (s : ps) i p : procs s !! i = Some p →
  schedule i s = if decide (state p = RUNNABLE) then Ok true (put_proc i (set_state RUNNING p) s) else Ok false s.
Proof.
  intros Hp. unfold schedule. erewrite bind_ok by (by apply getp_run). cbv beta. destruct (decide _) as [H|H].
  - rewrite bool_decide_true by done. by erewrite bind_ok by (by apply setp_run).
  - by rewrite bool_decide_false by done.
Qed.

(** *** reparent *)

Lemma wakeup_clears j cur (s : ps) i q :
  imap (wake (ChProc j) (Some cur)) (procs s) !! i = Some q → state q = SLEEPING → i ≠ cur → chan q ≠ ChProc j.
Proof.
  rewrite list_lookup_imap. intros (p & Hp & ->)%fmap_Some Hst Hi Hch. revert Hst Hch. unfold wake.
  rewrite (bool_decide_true (Some i ≠ Some cur)) by congruence.
  destruct (decide (state p = SLEEPING)) as [H1|H1]; [|rewrite (bool_decide_false (state p = SLEEPING)) by done; cbn; congruence].
  rewrite (bool_decide_true (state p = SLEEPING)) by done.
  destruct (decide (chan p = ChProc j)) as [H2|H2]; [rewrite (bool_decide_true (chan p = ChProc j)) by done; cbn; congruence|].
  rewrite (bool_decide_false (chan p = ChProc j)) by done. cbn. congruence.
Qed.
Lemma running_wake ch cur i p : state p = RUNNING → wake ch cur i p = p.
Proof. intros Hs. unfold wake. rewrite Hs. rewrite andb_false_r. done. Qed.

(** One child handed to [initproc]. *)
Lemma reparent_step (s : ps) cur p i q :
  sinv s → procs s !! cur = Some p → state p = RUNNING → procs s !! i = Some q → parent q = Some cur →
  ∃ s', (s0 ← get; setp i (set_parent (initproc s0));;
    wakeup (match initproc s0 with Some j => ChProc j | None => ChNull end) (Some cur)) s = Ok tt s' ∧
    quiet s s' ∧ sinv s' ∧ (∃ p', procs s' !! cur = Some p' ∧ state p' = RUNNING) ∧
    ∀ j r, procs s !! j = Some r → ∃ r', procs s' !! j = Some r' ∧
      (state r' = ZOMBIE → state r = ZOMBIE) ∧ parent r' = if decide (j = i) then initproc s else parent r.
Proof.
  intros Hs Hp Hrun Hq Hpar. set (q' := set_parent (initproc s) q). set (s1 := put_proc i q' s).
  assert (Hp1 : ∃ p', procs s1 !! cur = Some p' ∧ state p' = RUNNING).
  { destruct (decide (i = cur)) as [->|Hne]; [|exists p; cbn; by rewrite list_lookup_insert_ne].
    exists q'. split; [eapply put_proc_lookup; exact Hq|]. cbn. congruence. }
  set (ch := match initproc s with Some j => ChProc j | None => ChNull end).
  destruct (wakeup_quiet ch (Some cur) s1) as (s2 & Hw & Hq2 & Hp2). exists s2. split; [|split; [|split; [|split]]].
  - erewrite bind_ok by reflexivity. cbv beta. erewrite bind_ok by (apply setp_run; exact Hq). exact Hw.
  - eapply quiet_trans; [|exact Hq2]. eapply quiet_put; [exact Hq|by split].
  - intros a r j. rewrite Hp2. intros Ha Hst Hch. pose proof Ha as Ha'. rewrite list_lookup_imap in Ha. apply fmap_Some in Ha as (r1 & Hr1 & ->).
    destruct (wake_calm ch (Some cur) a r1) as [Hsl _ _]. destruct (Hsl j Hst Hch) as [Hst1 Hch1].
    assert (Hold : ∃ r0, procs s !! a = Some r0 ∧ state r0 = SLEEPING ∧ chan r0 = ChProc j).
    { cbn in Hr1. apply list_lookup_insert_Some in Hr1 as [(<- & <- & _)|[_ ?]]; [exists q|exists r1]; done. }
    destruct Hold as (r0 & Hr0 & Hst0 & Hch0). destruct (Hs a r0 j Hr0 Hst0 Hch0) as [-> Hno]. split; [done|].
    intros c x. rewrite list_lookup_imap. intros (x1 & Hx1 & ->)%fmap_Some. destruct (wake_calm ch (Some cur) c x1) as [_ Hz ->].
    intros Hpx Hzx. specialize (Hz Hzx). cbn in Hx1. apply list_lookup_insert_Some in Hx1 as [(<- & <- & _)|[_ Hx]]; [|by apply (Hno c x1)].
    cbn in Hpx. assert (Hac : a ≠ cur) by (intros ->; congruence).
    assert (Hcha : ch = ChProc a) by (unfold ch; by rewrite Hpx). clearbody ch. subst ch.
    by eapply (wakeup_clears a cur s1 a).
  - destruct Hp1 as (p' & Hp1 & Hr1). exists p'. rewrite Hp2, list_lookup_imap, Hp1. cbn. by rewrite running_wake.
  - intros j r Hr. rewrite Hp2. setoid_rewrite list_lookup_imap.
    destruct (decide (j = i)) as [->|Hj].
    + exists (wake ch (Some cur) i q'). unfold s1. rewrite (put_proc_lookup i q' q s Hq). split; [done|].
      simplify_eq. by destruct (wake_calm ch (Some cur) i q') as [_ ? ->].
    + exists (wake ch (Some cur) j r). cbn. rewrite list_lookup_insert_ne, Hr by done. split; [done|].
      by destruct (wake_calm ch (Some cur) j r) as [_ ? ->].
Qed.

Lemma reparent_run cur : ∀ k i (s : ps) p, (i + k = length (procs s))%nat →
  sinv s → procs s !! cur = Some p → state p = RUNNING →
  ∃ s', reparent_from k i cur s = Ok tt s' ∧ quiet s s' ∧ sinv s' ∧
    (∃ p', procs s' !! cur = Some p' ∧ state p' = RUNNING) ∧
    ∀ j r, procs s !! j = Some r → ∃ r', procs s' !! j = Some r' ∧ (state r' = ZOMBIE → state r = ZOMBIE) ∧
      parent r' = if decide ((i ≤ j)%nat ∧ parent r = Some cur) then initproc s else parent r.
Proof.
  induction k as [|k IH]; intros i s p Hlen Hs Hp Hrun; cbn [reparent_from].
  { exists s. split; [done|]. split; [apply quiet_refl|]. split; [done|]. split; [eauto|]. intros j r Hr. exists r. split; [done|]. split; [done|].
    apply lookup_lt_Some in Hr. by rewrite decide_False by lia. }
  destruct (lookup_lt_is_Some_2 (procs s) i ltac:(lia)) as [q Hq].
  erewrite bind_ok by (by apply getp_run). cbv beta. case_bool_decide as Hpar.
  - destruct (reparent_step s cur p i q Hs Hp Hrun Hq Hpar) as (s1 & Hrun1 & Hq1 & Hs1 & (p1 & Hp1 & Hr1) & Hpar1).
    erewrite bind_ok by exact Hrun1. cbv beta.
    destruct (IH (S i) s1 p1) as (s2 & Hrun2 & Hq2 & Hs2 & Hc2 & Hpar2);
      [rewrite <-(Forall2_length _ _ _ (qt_procs _ _ Hq1)); lia|done|done|done|].
    exists s2. split; [done|]. split; [by eapply quiet_trans|]. split; [done|]. split; [done|]. intros j r Hr.
    destruct (Hpar1 j r Hr) as (r1 & Hr1' & Hz1 & Hp1'). destruct (Hpar2 j r1 Hr1') as (r2 & Hr2 & Hz2 & Hp2'). exists r2. split; [done|].
    split; [auto|].
    rewrite Hp2', Hp1', (qt_init _ _ Hq1). destruct (decide (j = i)) as [->|Hj].
    + simplify_eq. rewrite (decide_True (P := (i ≤ i)%nat ∧ _)) by (split; [lia|done]). destruct (decide ((S i ≤ i)%nat ∧ initproc s = Some cur)); reflexivity.
    + destruct (decide ((S i ≤ j)%nat ∧ parent r = Some cur)) as [[? ?]|Hn]; [by rewrite decide_True by (split; [lia|done])|].
      rewrite decide_False; [done|]. intros [? ?]. apply Hn. split; [lia|done].
  - erewrite bind_ok by reflexivity. cbv beta. destruct (IH (S i) s p) as (s2 & Hrun2 & Hq2 & Hs2 & Hc2 & Hpar2); [lia|done..|].
    exists s2. split; [done|]. split; [done|]. split; [done|]. split; [done|]. intros j r Hr.
    destruct (Hpar2 j r Hr) as (r2 & Hr2 & Hz2 & Hp2'). exists r2. split; [done|]. split; [done|]. rewrite Hp2'.
    destruct (decide ((S i ≤ j)%nat ∧ parent r = Some cur)) as [[? ?]|Hn]; [by rewrite decide_True by (split; [lia|done])|].
    rewrite decide_False; [done|]. intros [? ?]. destruct (decide (j = i)) as [->|]; [congruence|]. apply Hn. split; [lia|done].
Qed.

(** The end of [exit]: the process is a zombie, its children are [initproc]'s,
    and nobody waits for a zombie. *)
Lemma exit_zombie_run {A} (s : ps) cur p status :
  length (procs s) = Z.to_nat NPROC → sinv s → procs s !! cur = Some p → state p = RUNNING →
  ∃ s' q, exit_zombie (A := A) cur status s = Sleep s' ∧ quiet s s' ∧ sinv s' ∧
    procs s' !! cur = Some q ∧ state q = ZOMBIE ∧ xstate q = status ∧
    ∀ j r, procs s !! j = Some r → ∃ r', procs s' !! j = Some r' ∧ (j ≠ cur → state r' = ZOMBIE → state r = ZOMBIE) ∧
      parent r' = if decide (parent r = Some cur) then initproc s else parent r.
Proof.
  intros Hlen Hs Hp Hrun. unfold exit_zombie, reparent.
  destruct (reparent_run cur (Z.to_nat NPROC) 0 s p ltac:(lia) Hs Hp Hrun) as (s1 & Hrun1 & Hq1 & Hs1 & (p1 & Hp1 & Hr1) & Hpar1).
  erewrite bind_ok by exact Hrun1. cbv beta. erewrite bind_ok by (apply getp_run; exact Hp1). cbv beta.
  set (ch := match parent p1 with Some j => ChProc j | None => ChNull end).
  destruct (wakeup_quiet ch (Some cur) s1) as (s2 & Hw & Hq2 & Hp2). erewrite bind_ok by exact Hw. cbv beta.
  assert (Hc2 : procs s2 !! cur = Some p1) by (rewrite Hp2, list_lookup_imap, Hp1; cbn; by rewrite running_wake).
  erewrite bind_ok by (by apply setp_run). cbv beta. erewrite bind_ok by (apply setp_run; by eapply put_proc_lookup). cbv beta. rewrite put_put.
  set (z := set_state ZOMBIE (set_xstate status p1)).
  unfold sched. erewrite bind_ok by (apply getp_run; by eapply put_proc_lookup). cbv beta. rewrite bool_decide_false by done.
  exists (put_proc cur z s2), z. split; [done|]. split; [|split; [|split; [by eapply put_proc_lookup|split; [done|split; [done|]]]]].
  - eapply quiet_trans; [exact Hq1|]. eapply quiet_trans; [exact Hq2|]. eapply quiet_put; [done|]. split; cbn; try done. rewrite Hr1. split; discriminate.
  - apply (sinv_put s2 cur p1 z); [|done|done|].
    + eapply sinv_calm; [exact Hs1|]. rewrite Hp2. apply wakeup_calm.
    + intros _ j q Hpj Hq Hst. assert (Hch : ch = ChProc j) by (unfold ch; cbn in Hpj; by rewrite Hpj). clearbody ch. subst ch.
      rewrite Hp2 in Hq. eapply (wakeup_clears j cur s1 j); [exact Hq|exact Hst|]. intros ->. rewrite <-Hp2 in Hq. congruence.
  - intros j r Hr. destruct (Hpar1 j r Hr) as (r1 & Hr1' & Hz1 & Hpr1).
    assert (Hpr : ∃ r2, procs s2 !! j = Some r2 ∧ (state r2 = ZOMBIE → state r = ZOMBIE) ∧ parent r2 = parent r1).
    { exists (wake ch (Some cur) j r1). rewrite Hp2, list_lookup_imap, Hr1'. split; [done|].
      destruct (wake_calm ch (Some cur) j r1) as [_ ? ->]. auto. }
    destruct Hpr as (r2 & Hr2 & Hz2 & Hp2').
    assert (Hif : parent r1 = if decide (parent r = Some cur) then initproc s else parent r).
    { rewrite Hpr1. destruct (decide (parent r = Some cur)); [by rewrite decide_True by (split; [lia|done])|by rewrite decide_False by (by intros [_ ?])]. }
    destruct (decide (j = cur)) as [->|Hj].
    + exists z. split; [by eapply put_proc_lookup|]. split; [done|]. rewrite <-Hif. cbn. congruence.
    + exists r2. cbn. rewrite list_lookup_insert_ne by done. split; [done|]. split; [done|]. congruence.
Qed.

(** *** wait's scan *)

Lemma wait_scan_run cur : ∀ k i b (s : ps), (i + k = length (procs s))%nat →
  ∃ r, wait_scan k i cur b s = Ok r s ∧
    match r with
    | inl j => ∃ p, procs s !! j = Some p ∧ parent p = Some cur ∧ state p = ZOMBIE
    | inr h => (∀ j p, (i ≤ j)%nat → procs s !! j = Some p → parent p = Some cur → state p ≠ ZOMBIE) ∧
        (h = true ↔ b = true ∨ ∃ j p, (i ≤ j)%nat ∧ procs s !! j = Some p ∧ parent p = Some cur)
    end.
Proof.
  induction k as [|k IH]; intros i b s Hlen; cbn [wait_scan].
  { exists (inr b). split; [done|]. split; [intros j p Hj Hp; apply lookup_lt_Some in Hp; lia|].
    split; [by left|]. intros [?|(j & p & Hj & Hp & _)]; [done|]. apply lookup_lt_Some in Hp. lia. }
  destruct (lookup_lt_is_Some_2 (procs s) i ltac:(lia)) as [q Hq].
  erewrite bind_ok by (by apply getp_run). cbv beta. case_bool_decide as Hpar; [case_bool_decide as Hz|].
  - exists (inl i). eauto.
  - destruct (IH (S i) true s ltac:(lia)) as (r & Hrun & Hres). exists r. split; [done|]. destruct r as [?|h]; [done|].
    destruct Hres as [Hno Hh]. split.
    + intros j p Hj Hp. destruct (decide (j = i)) as [->|]; [congruence|]. apply (Hno j); [lia|done].
    + split; [intros _; right; exists i, q; split; [lia|done]|]. intros _. apply Hh. by left.
  - destruct (IH (S i) b s ltac:(lia)) as (r & Hrun & Hres). exists r. split; [done|]. destruct r as [?|h]; [done|].
    destruct Hres as [Hno Hh]. split.
    + intros j p Hj Hp. destruct (decide (j = i)) as [->|]; [congruence|]. apply (Hno j); [lia|done].
    + rewrite Hh. split; (intros [?|(j & p & Hj & Hp & Hpp)]; [by left|right; exists j, p]); [split; [lia|done]|].
      destruct (decide (j = i)) as [->|]; [congruence|]. split; [lia|done].
Qed.

(** ** Closing files *)

(** Nobody's memory changes when the file table gives pages back. *)
Lemma minv_files (s : ps) l T k' l' f' :
  minv s l T → moves (mem s) l (fpages (fs s)) k' l' (fpages f') → (∀ x, fpages f' x → is_Some (pmem k' !! x)) →
  minv (put_fs f' (put_mem k' s)) l' T ∧ ∀ j q t, procs s !! j = Some q → T !! j = Some t → intact (mem s) k' t q.
Proof.
  intros [Hlen Hk Hu Hl Hsep Hfl Hfs] Hmv Hsome.
  assert (Hold : ∀ j q t, procs s !! j = Some q → T !! j = Some t →
    holds k' l' t q ∧ intact (mem s) k' t q ∧ (∀ x, own t (trapframe q) x → ¬ fpages f' x)).
  { intros j q t Hq Ht. destruct (decide (state q = UNUSED)) as [Hs|Hs]; [destruct (Hu j q Hq Hs); congruence|].
    destruct (Hl j q Hq Hs) as (t' & Ht' & Hh). simplify_eq. eapply holds_moves; [exact Hmv|done|]. intros x. by apply (Hfs j q t). }
  split; [|intros j q t Hq Ht; by apply (Hold j q t)]. split; cbn; try done.
  - apply Hmv.
  - intros i p Hp Hs. destruct (Hl i p Hp Hs) as (t & Ht & _). exists t. split; [done|]. by apply (Hold i p t).
  - intros x Hx. split; [by eapply mv_apart|]. split; [|by apply Hsome].
    destruct (proj1 (mv_pages _ _ _ _ _ _ _ Hmv x) ltac:(by right)) as [Hin|Hin]; [|by apply Hfl].
    destruct Hk as (_ & _ & Hall). rewrite Forall_forall in Hall. by apply Hall.
  - intros i p t x Hp Ht. by apply (Hold i p t).
Qed.

(** A slot changes in fields that do not describe memory. *)
Lemma minv_slot (s : ps) l T i p p' :
  minv s l T → procs s !! i = Some p → state p ≠ UNUSED → state p' ≠ UNUSED →
  pagetable p' = pagetable p → trapframe p' = trapframe p → sz p' = sz p → minv (put_proc i p' s) l T.
Proof.
  intros Hm Hp Hl Hl' Hpt Htf Hsz. destruct (mi_live _ _ _ _ _ Hm i p Hp Hl) as (t & Ht & Hh).
  eapply (minv_update _ _ s l T i p p' (mem s) l T (own t (trapframe p)) (own t (trapframe p))); try done.
  - apply moves_refl; [apply Hm|]. intros x Hx. by eapply own_apart.
  - intros x. by apply own_owned.
  - intros _. exists t. split; [done|]. rewrite Htf. split; [destruct Hh; split; congruence|done].
Qed.

Lemma nfd_clear x p fd f : ofile p !! fd = Some f → f ≠ 0 →
  nfd x (set_ofile (<[fd := 0]> (ofile p)) p) = nfd x p - (if decide (x = f) then 1 else 0).
Proof.
  intros Hfd Hf. unfold nfd. cbn [ofile set_ofile]. destruct (decide (x = 0)) as [->|Hx]; [rewrite decide_False; [lia|congruence]|].
  rewrite insert_take_drop by (by eapply lookup_lt_Some). rewrite <-(take_drop_middle (ofile p) fd f Hfd) at 3.
  rewrite !filter_app, !length_app, (filter_cons_False _ 0) by congruence.
  destruct (decide (x = f)) as [->|Hne]; [rewrite filter_cons_True by done; cbn; lia|rewrite filter_cons_False by congruence; lia].
Qed.

Lemma still_trans (s1 s2 s3 : ps) : still s1 s2 → still s2 s3 → still s1 s3.
Proof. intros [Q1 C1] [Q2 C2]. split; [by eapply quiet_trans|by etrans]. Qed.
Lemma wake_all_run cur chs : ∀ (s : ps) p, procs s !! cur = Some p → state p = RUNNING →
  ∃ s', wake_all chs cur s = Ok tt s' ∧ still s s' ∧ procs s' !! cur = Some p.
Proof.
  induction chs as [|a chs IH]; intros s p Hp Hr; cbn [wake_all].
  { exists s. split; [done|]. split; [apply still_refl|]. done. }
  destruct (still_wakeup (ChAddr a) (Some cur) s) as (s1 & Hw & Hst & Hp1). erewrite bind_ok by exact Hw. cbv beta.
  destruct (IH s1 p) as (s2 & Hrun & Hs & Hp2); [rewrite Hp1, list_lookup_imap, Hp; cbn; by rewrite running_wake|done|].
  exists s2. split; [done|]. split; [by eapply still_trans|done].
Qed.

(** The counts when one descriptor is closed. *)
Lemma counted_clear (s : ps) cur p fd f f' l' :
  procs s !! cur = Some p → ofile p !! fd = Some f → f ≠ 0 → Forall2 sim (procs s) l' → l' !! cur = Some p →
  fok f' (<[f := sum_over (nfd f) (procs s) - 1]> (λ x, sum_over (nfd x) (procs s))) (λ x, sum_over (ncwd x) (procs s)) →
  counted f' (<[cur := set_ofile (<[fd := 0]> (ofile p)) p]> l').
Proof.
  intros Hp Hfd Hf0 Hsim Hp' Hok. eapply fok_ext; [exact Hok|..]; intros x; rewrite (sum_over_insert _ _ cur p) by done.
  - rewrite (sum_over_sim (nfd x) (procs s) l') by (try done; intros ? ? []; unfold nfd; by rewrite sim_ofile0).
    rewrite (nfd_clear x p fd f Hfd Hf0).
    destruct (decide (x = f)) as [->|Hx]; [rewrite fn_lookup_insert; lia|rewrite fn_lookup_insert_ne by done; lia].
  - rewrite (sum_over_sim (ncwd x) (procs s) l') by (try done; intros ? ? []; unfold ncwd; by rewrite sim_cwd0).
    unfold ncwd. cbn. lia.
Qed.

(** What an operation of [cur] keeps of the others. *)
Record apart_from (cur : nat) (s : ps) (T : gmap nat ptree) (s' : ps) (T' : gmap nat ptree) : Prop := {
  af_procs j q : j ≠ cur → procs s !! j = Some q → ∃ q', procs s' !! j = Some q' ∧ sim q q';
  af_mem j q t : j ≠ cur → procs s !! j = Some q → T !! j = Some t → T' !! j = Some t ∧ intact (mem s) (mem s') t q;
  af_init : initproc s' = initproc s;
}.
Lemma apart_trans cur s T s1 T1 s2 T2 : apart_from cur s T s1 T1 → apart_from cur s1 T1 s2 T2 → apart_from cur s T s2 T2.
Proof.
  intros [H1 M1 I1] [H2 M2 I2]. split; [|..|congruence].
  - intros j q Hj Hq. destruct (H1 j q Hj Hq) as (q1 & Hq1 & S1). destruct (H2 j q1 Hj Hq1) as (q2 & Hq2 & S2).
    exists q2. split; [done|]. by eapply sim_trans.
  - intros j q t Hj Hq Ht. destruct (H1 j q Hj Hq) as (q1 & Hq1 & S1). destruct (M1 j q t Hj Hq Ht) as [Ht1 Hi1].
    destruct (M2 j q1 t Hj Hq1 Ht1) as [Ht2 Hi2]. split; [done|]. eapply intact_trans; [exact Hi1|].
    unfold intact in *. by rewrite (sim_trapframe _ _ S1) in Hi2.
Qed.
Lemma apart_quiet cur s s' T : quiet s s' → apart_from cur s T s' T.
Proof.
  intros Hq. split; [|..|apply Hq].
  - intros j q _ Hj. by eapply quiet_lookup_l.
  - intros j q t _ _ Ht. split; [done|]. by apply quiet_intact.
Qed.

Lemma close_fd_inv (s s' : ps) l T cur p fd f :
  minv s l T → finv s → sinv s → procs s !! cur = Some p → state p = RUNNING → ofile p !! fd = Some f → f ≠ 0 →
  close_fd kend cur fd f s = Ok tt s' →
  ∃ l', minv s' l' T ∧ finv s' ∧ sinv s' ∧ apart_from cur s T s' T ∧
    procs s' !! cur = Some (set_ofile (<[fd := 0]> (ofile p)) p).
Proof.
  intros Hm Hf Hs Hp Hr Hfd Hf0 Hrun. unfold close_fd in Hrun. apply bind_inv in Hrun as (chs & s1 & Hclose & Hrun).
  unfold on_file, zoom in Hclose. destruct (fileclose kend f (mem s, fs s)) as [chs' [k' f']| | | |] eqn:Hfc; try done.
  injection Hclose as -> <-.
  assert (HR : 0 < sum_over (nfd f) (procs s)).
  { eapply Z.lt_le_trans; [|apply (sum_over_ge _ _ cur p (nfd_nonneg f) Hp)]. apply nfd_in; [done|]. by eapply list_elem_of_lookup_2. }
  destruct (fileclose_law kend (fs s) _ _ f (mem s) l chs k' f' kend_pos (fi_ok _ _ Hf) HR (mi_kinv _ _ _ _ _ Hm) (mi_files _ _ _ _ _ Hm) Hfc)
    as (Hok & l' & Hmv & Hsome).
  destruct (minv_files s l T k' l' f' Hm Hmv Hsome) as [Hm1 Hint].
  set (s1 := put_fs f' (put_mem k' s)) in *. assert (Hp1 : procs s1 !! cur = Some p) by done.
  destruct (wake_all_run cur chs s1 p Hp1 Hr) as (s2 & Hw & [Hq Hcm] & Hp2). apply bind_inv in Hrun as ([] & s2' & Hw' & Hrun).
  change (wake_all chs cur s1 = Ok tt s2') in Hw'. rewrite Hw in Hw'. injection Hw' as <-. erewrite setp_run in Hrun by exact Hp2. injection Hrun as <-.
  set (p' := set_ofile (<[fd := 0]> (ofile p)) p) in *. exists l'.
  assert (Hm2 : minv s2 l' T) by (by eapply minv_quiet). assert (Hplain : quiet s1 s2) by done.
  split; [|split; [|split; [|split]]].
  - apply (minv_slot s2 l' T cur p p'); try done; cbn; congruence.
  - destruct (fi_fd _ _ Hf cur p Hp) as [Hl1 Hl2]. eapply (finv_slot None None (put_mem (mem s) (put_fs (fs s) s2)) (put_proc cur p' s2) cur p'); try done.
    + eapply (finv_quiet None s); [done| |].
      * split; cbn; try done; apply Hplain.
      * intros i r q Hi Hq' Hz. left. destruct (Forall2_lookup_lr _ _ _ _ _ _ Hcm Hi Hq') as [_ Hz' _]. auto.
    + cbn. rewrite (qt_fs _ _ Hplain). eapply (counted_clear s); try done; apply Hplain.
    + cbn. by rewrite length_insert.
    + intros [?|?]; cbn in *; congruence.
    + intros _ _. apply (fi_cwd _ _ Hf cur p); congruence.
  - apply (sinv_put s2 cur p p'); [by eapply (sinv_still s1)|done|cbn; congruence|cbn; congruence].
  - split; [| |by apply Hplain].
    + intros j q Hj Hq'. destruct (quiet_lookup_l s1 s2 j q Hplain Hq') as (q2 & Hq2 & Hsim). exists q2. cbn. by rewrite list_lookup_insert_ne.
    + intros j q t Hj Hq' Ht. split; [done|]. cbn. rewrite (qt_mem _ _ Hplain). by apply (Hint j q t).
  - by eapply put_proc_lookup.
Qed.

Lemma close_files_inv cur : ∀ fls fd (s s' : ps) l T p,
  minv s l T → finv s → sinv s → procs s !! cur = Some p → state p = RUNNING → ofile p = replicate fd 0 ++ fls →
  close_files kend fls fd cur s = Ok tt s' →
  ∃ l', minv s' l' T ∧ finv s' ∧ sinv s' ∧ apart_from cur s T s' T ∧
    procs s' !! cur = Some (set_ofile (replicate (fd + length fls) 0) p).
Proof.
  induction fls as [|f fls IH]; intros fd s s' l T p Hm Hf Hs Hp Hr Hof Hrun; cbn [close_files] in Hrun.
  { injection Hrun as <-. exists l. split; [done|]. split; [done|]. split; [done|]. split; [apply apart_quiet, quiet_refl|].
    rewrite Hp. rewrite app_nil_r in Hof. cbn. rewrite Nat.add_0_r, <-Hof. by destruct p. }
  apply bind_inv in Hrun as ([] & s1 & Hrun1 & Hrun).
  assert (Hfd : ofile p !! fd = Some f).
  { rewrite Hof, lookup_app_r by (by rewrite length_replicate). by rewrite length_replicate, Nat.sub_diag. }
  assert (Hne : set_ofile (<[fd := 0]> (ofile p)) p = set_ofile (replicate (S fd) 0 ++ fls) p).
  { f_equal. rewrite Hof, insert_app_r_alt by (by rewrite length_replicate). rewrite length_replicate, Nat.sub_diag, replicate_S_end, <-app_assoc. done. }
  case_bool_decide as Hf0.
  - destruct (close_fd_inv s s1 l T cur p fd f) as (l1 & Hm1 & Hf1 & Hs1 & Ha1 & Hp1); [done..|]. rewrite Hne in Hp1.
    destruct (IH (S fd) s1 s' l1 T _ Hm1 Hf1 Hs1 Hp1) as (l2 & Hm2 & Hf2 & Hs2 & Ha2 & Hp2); [done..|].
    exists l2. split; [done|]. split; [done|]. split; [done|]. split; [by eapply apart_trans|].
    cbn [length]. by rewrite Nat.add_succ_r.
  - assert (f = 0) as -> by (by destruct (decide (f = 0))). injection Hrun1 as <-.
    destruct (IH (S fd) s s' l T p) as (l2 & Hm2 & Hf2 & Hs2 & Ha2 & Hp2); [done..| |done|].
    { by rewrite Hof, replicate_S_end, <-app_assoc. }
    exists l2. split; [done|]. split; [done|]. split; [done|]. split; [done|]. cbn [length]. by rewrite Nat.add_succ_r.
Qed.

Lemma exit_cwd_inv cur (s s' : ps) l T p :
  minv s l T → finv s → sinv s → procs s !! cur = Some p → state p = RUNNING → exit_cwd cur s = Ok tt s' →
  minv s' l T ∧ finv_but (Some cur) s' ∧ sinv s' ∧ apart_from cur s T s' T ∧ procs s' !! cur = Some (set_cwd 0 p).
Proof.
  intros Hm Hf Hs Hp Hr Hrun. unfold exit_cwd in Hrun. erewrite bind_ok in Hrun by (by apply getp_run). cbv beta in Hrun.
  apply bind_inv in Hrun as ([] & s1 & Hput & Hrun). unfold on_fs, zoom in Hput.
  destruct (iput (cwd p) (fs s)) as [[] f'| | | |] eqn:Hi; try done. injection Hput as <-.
  assert (Hc0 : cwd p ≠ 0) by (apply (fi_cwd _ _ Hf cur p); congruence).
  assert (HI : 0 < sum_over (ncwd (cwd p)) (procs s)).
  { eapply Z.lt_le_trans; [|apply (sum_over_ge _ _ cur p (ncwd_nonneg _) Hp)]. unfold ncwd. rewrite decide_True by done. lia. }
  destruct (iput_law (fs s) _ _ (cwd p) f' (fi_ok _ _ Hf) HI Hi) as [Hok Hpg].
  change (setp cur (set_cwd 0) (put_fs f' s) = Ok tt s') in Hrun. erewrite setp_run in Hrun by exact Hp. injection Hrun as <-.
  set (p' := set_cwd 0 p).
  split; [|split; [|split; [|split]]].
  - eapply (minv_slot (put_fs f' s) l T cur p p'); try done; [|cbn; congruence..].
    destruct Hm as [? ? ? ? ? Hfl Hfs]. split; try done; cbn; [intros x Hx%Hpg; by apply Hfl|].
    intros i q t x Hq Ht Ho Hx%Hpg. by apply (Hfs i q t x).
  - destruct (fi_fd _ _ Hf cur p Hp) as [Hl1 Hl2].
    eapply (finv_slot None (Some cur) s (put_proc cur p' (put_fs f' s)) cur p'); try done; [|intros [?|?]; cbn in *; congruence].
    eapply fok_ext; [exact Hok|..]; intros x; cbn; rewrite (sum_over_insert _ _ cur p) by done; [unfold nfd; cbn; lia|].
    destruct (decide (x = cwd p)) as [->|Hx]; [rewrite fn_lookup_insert|rewrite fn_lookup_insert_ne by done]; unfold ncwd at 3 4; cbn [p' cwd set_cwd].
    + rewrite (decide_True (P := cwd p ≠ 0 ∧ cwd p = cwd p)) by done. destruct (decide (cwd p ≠ 0 ∧ 0 = cwd p)); [naive_solver|lia].
    + rewrite (decide_False (P := x ≠ 0 ∧ cwd p = x)) by naive_solver. destruct (decide (x ≠ 0 ∧ 0 = x)); [naive_solver|lia].
  - apply (sinv_put (put_fs f' s) cur p p'); [done|done|cbn; congruence|cbn; congruence].
  - split; [| |done].
    + intros j q Hj Hq. exists q. cbn. rewrite list_lookup_insert_ne by done. split; [done|apply sim_refl].
    + intros j q t Hj Hq Ht. split; [done|]. apply intact_refl.
  - by eapply (put_proc_lookup cur p' p (put_fs f' s)).
Qed.

(** ** exit *)

Lemma exit_run (s s1 s2 : ps) l T cur p status :
  minv s l T → finv s → sinv s → procs s !! cur = Some p → state p = RUNNING → initproc s ≠ Some cur →
  close_files kend (ofile p) 0 cur s = Ok tt s1 → exit_cwd cur s1 = Ok tt s2 →
  ∃ s' l' q, exit kend cur status s = Sleep s' ∧ minv s' l' T ∧ finv s' ∧ sinv s' ∧ apart_from cur s T s' T ∧
    procs s' !! cur = Some q ∧ state q = ZOMBIE ∧ xstate q = status ∧ pid q = pid p ∧
    (∀ j r, procs s' !! j = Some r → parent r ≠ Some cur) ∧
    (∀ t, T !! cur = Some t → holds (mem s') l' t q).
Proof.
  intros Hm Hf Hs Hp Hr Hin Hcl Hcw.
  destruct (close_files_inv cur (ofile p) 0 s s1 l T p Hm Hf Hs Hp Hr eq_refl Hcl) as (l1 & Hm1 & Hf1 & Hs1 & Ha1 & Hp1).
  destruct (exit_cwd_inv cur s1 s2 l1 T _ Hm1 Hf1 Hs1 Hp1 Hr Hcw) as (Hm2 & Hf2 & Hs2 & Ha2 & Hp2).
  destruct (exit_zombie_run (A := unit) s2 cur _ status (mi_len _ _ _ _ _ Hm2) Hs2 Hp2 Hr) as (s3 & q & Hrun & Hq & Hs3 & Hp3 & Hz & Hx & Hpar).
  destruct (fi_fd _ _ Hf cur p Hp) as [Hl16 _]. rewrite Hl16 in *. cbn [Nat.add] in *.
  assert (Hm3 : minv s3 l1 T) by (by eapply minv_quiet).
  exists s3, l1, q. split; [|split; [done|]].
  { unfold exit. erewrite bind_ok by (by apply getp_run). cbv beta. erewrite bind_ok by reflexivity. cbv beta.
    rewrite bool_decide_false by done. erewrite bind_ok by exact Hcl. cbv beta. erewrite bind_ok by exact Hcw. done. }
  destruct (quiet_lookup s2 s3 cur q Hq Hp3) as (p2 & Hp2' & Hsim). rewrite Hp2 in Hp2'. injection Hp2' as <-.
  split; [|split; [done|split]].
  - assert (Hb : finv_but (Some cur) s3).
    { eapply finv_quiet; [exact Hf2|done|]. intros i r r' Hi Hi' Hz'. destruct (decide (i = cur)) as [->|Hne].
      - right. rewrite Hp2 in Hi. by injection Hi as <-.
      - left. destruct (Hpar i r Hi) as (r0 & Hr0 & Hzz & _). simplify_eq. auto. }
    destruct Hb as [? ? ? Hcw']. split; try done. intros i r Hi Hst Hz' _. apply (Hcw' i r Hi Hst Hz'). intros [= ->]. congruence.
  - eapply apart_trans; [exact Ha1|]. eapply apart_trans; [exact Ha2|]. by apply apart_quiet.
  - split; [done|]. split; [done|]. split; [done|]. split; [apply Hsim|]. split.
    + intros j r Hj. destruct (quiet_lookup s2 s3 j r Hq Hj) as (r0 & Hr0 & _). destruct (Hpar j r0 Hr0) as (r' & Hr' & _ & Hpr). simplify_eq. rewrite Hpr.
      assert (Hi2 : initproc s2 = initproc s) by (rewrite (af_init _ _ _ _ _ Ha2); apply Ha1).
      destruct (decide (parent r0 = Some cur)); [by rewrite Hi2|done].
    + intros t Ht. destruct (mi_live _ _ _ _ _ Hm3 cur q Hp3) as (t' & Ht' & Hh); [congruence|]. congruence.
Qed.

(** ** wait *)

Lemma sized_tree k l k' l' t size :
  UserMem.uspace kend k l t → UserMem.uspace kend k' l' t → sized k t size → sized k' t size.
Proof.
  intros Hu Hu' [Hsz Hv]. split; [done|]. intros v. rewrite <-Hv. destruct (decide (v < TFPN)) as [Hlt|Hge].
  - rewrite <-!not_eq_None_Some, (aspace_None kend k l t v Hu Hlt), (aspace_None kend k' l' t v Hu' Hlt). reflexivity.
  - unfold aspace. rewrite !decide_False by done. reflexivity.
Qed.

(** A write to the process's own memory. *)
Lemma copyout_run (s : ps) l T cur p t va bs :
  minv s l T → procs s !! cur = Some p → state p ≠ UNUSED → T !! cur = Some t → 0 ≤ va < 2 ^ 64 → bytes bs →
  ∃ r k', on_mem (copyout (pagetable p) va bs) s = Ok r (put_mem k' s) ∧ wrote (mem s) t va bs r k' ∧
    minv (put_mem k' s) l T ∧ others s T cur k'.
Proof.
  intros Hm Hp Hl Ht Hva Hb. destruct (mi_live _ _ _ _ _ Hm cur p Hp Hl) as (t' & Ht' & Hh). simplify_eq.
  pose proof Hh as [Hroot [Hu Hhi Hsz] _ _].
  destruct (copyout_loop_spec kend kend_pos (length bs) (mem s) l t va bs Hu Hva Hb) as (r & k' & Hrun & Hst & Hw); [lia|].
  exists r, k'. split; [apply on_mem_run; by rewrite <-Hroot|]. split; [done|].
  destruct (minv_step s l T cur p t k' l t p Hm Hp Hl Ht Hst) as [Hm' Ho]; try done.
  { eapply sized_tree; [exact Hu|apply Hst|done]. }
  rewrite (insert_id T cur t Ht) in Hm'. unfold put_proc in Hm'. cbn in Hm'. rewrite list_insert_id in Hm' by done. by destruct s.
Qed.

(** A zombie's slot is freed. *)
Lemma reap_run (s : ps) l T i z :
  minv s l T → finv s → sinv s → procs s !! i = Some z → state z = ZOMBIE →
  ∃ k' l', freeproc kend i s = Ok tt (put_mem k' (put_proc i (freed z) s)) ∧
    minv (put_mem k' (put_proc i (freed z) s)) l' (delete i T) ∧ finv (put_mem k' (put_proc i (freed z) s)) ∧
    sinv (put_mem k' (put_proc i (freed z) s)) ∧ others s T i k'.
Proof.
  intros Hm Hf Hs Hz Hst. destruct (mi_live _ _ _ _ _ Hm i z Hz ltac:(congruence)) as (t & Ht & Hh).
  pose proof Hh as [Hroot Hsp Hfr Hself].
  assert (Htf0 : trapframe z ≠ 0) by (by apply (page_ok_pa kend kend_pos), Hfr).
  assert (Hpt0 : pagetable z ≠ 0).
  { rewrite <-Hroot. apply (page_ok_pa kend kend_pos). apply (pr_ok _ _ _ (vs_rep _ _ _ _ (us_st _ _ _ _ (sp_space _ _ _ _ _ _ _ Hsp)))). by exists TRoot. }
  destruct (freeproc_run kend trampoline kend_pos i z (Some t) s l Hz (mi_kinv _ _ _ _ _ Hm)) as (k' & l' & Hrun & Hmv).
  { split; [done|]. eauto. }
  exists k', l'. split; [done|].
  destruct (minv_update kend trampoline s l T i z (freed z) k' l' (delete i T) (parts z (Some t)) nothing (put_mem k' (put_proc i (freed z) s)) Hm Hz Hmv) as [Hm' Ho]; try done.
  { intros x. rewrite parts_full by done. by apply own_owned. }
  { intros j Hj. by rewrite lookup_delete_ne. }
  { intros _. by rewrite lookup_delete_eq. }
  split; [done|]. destruct (fi_fd _ _ Hf i z Hz) as [Hl1 Hl2]. destruct (fi_unused _ _ Hf i z Hz ltac:(by right)) as [Ho1 Ho2]. split; [|split].
  - eapply (finv_slot None None s _ i (freed z)); try done; [|cbn; by rewrite length_insert|intros Hd; destruct Hd; by left].
    eapply fok_ext; [apply (fi_ok _ _ Hf)|..]; intros x; cbn; rewrite (sum_over_insert _ _ i z) by done; unfold nfd, ncwd; cbn; lia.
  - by apply (sinv_put s i z (freed z)).
  - done.
Qed.

(** What a call of [wait] can do. *)
Definition reaped (s : ps) (T : gmap nat ptree) (cur : nat) (tc : ptree) (addr r : Z) (s' : ps) (T' : gmap nat ptree) : Prop :=
  ∃ i z k1, procs s !! i = Some z ∧ parent z = Some cur ∧ state z = ZOMBIE ∧
    (if decide (addr = 0) then k1 = mem s else wrote (mem s) tc addr (le_to 4 (u32 (xstate z))) 0 k1) ∧
    asame k1 tc (mem s') tc ∧ r = pid z ∧ procs s' = <[i := freed z]> (procs s) ∧ T' = delete i T ∧
    ∀ j q t, j ≠ i → j ≠ cur → procs s !! j = Some q → T !! j = Some t → intact (mem s) (mem s') t q.
Definition no_address (s : ps) (T : gmap nat ptree) (cur : nat) (tc : ptree) (addr r : Z) (s' : ps) (T' : gmap nat ptree) : Prop :=
  ∃ i z, procs s !! i = Some z ∧ parent z = Some cur ∧ state z = ZOMBIE ∧ addr ≠ 0 ∧ r = -1 ∧
    wrote (mem s) tc addr (le_to 4 (u32 (xstate z))) (-1) (mem s') ∧ procs s' = procs s ∧ T' = T ∧ others s T cur (mem s').

Lemma wait_zombie (s : ps) l T cur p tc addr i z :
  minv s l T → finv s → sinv s → procs s !! cur = Some p → state p = RUNNING → T !! cur = Some tc → 0 ≤ addr < 2 ^ 64 →
  wait_scan (Z.to_nat NPROC) 0 cur false s = Ok (inl i) s → procs s !! i = Some z → parent z = Some cur → state z = ZOMBIE →
  ∃ r s' l' T', wait kend cur addr s = Ok r s' ∧ minv s' l' T' ∧ finv s' ∧ sinv s' ∧ initproc s' = initproc s ∧
    (reaped s T cur tc addr r s' T' ∨ no_address s T cur tc addr r s' T').
Proof.
  intros Hm Hf Hs Hp Hr Htc Ha Hscan Hz Hpar Hst. unfold wait. erewrite bind_ok by exact Hscan. cbv beta.
  erewrite bind_ok by (by apply getp_run). cbv beta. erewrite bind_ok by (by apply getp_run). cbv beta.
  assert (Hne : i ≠ cur) by (intros ->; congruence).
  assert (Hbytes : bytes (le_to 4 (u32 (xstate z)))) by apply bytes_le_to.
  assert (Hcopy : ∃ c k1, (if bool_decide (addr ≠ 0) then on_mem (copyout (pagetable p) addr (le_to 4 (u32 (xstate z)))) else mret 0) s =
    Ok c (put_mem k1 s) ∧ minv (put_mem k1 s) l T ∧ others s T cur k1 ∧
    (if decide (addr = 0) then c = 0 ∧ k1 = mem s else wrote (mem s) tc addr (le_to 4 (u32 (xstate z))) c k1)).
  { destruct (decide (addr = 0)) as [H0|H0].
    - rewrite bool_decide_false by (by intros []). exists 0, (mem s). destruct s. split; [done|]. split; [done|]. split; [|done]. by intros j q t _ _ _.
    - rewrite bool_decide_true by done. destruct (copyout_run s l T cur p tc addr _ Hm Hp ltac:(congruence) Htc Ha Hbytes) as (c & k1 & Hrun & Hw & Hm1 & Ho).
      exists c, k1. done. }
  destruct Hcopy as (c & k1 & Hrun & Hm1 & Ho1 & Hc). erewrite bind_ok by exact Hrun. cbv beta.
  assert (Hf1 : finv (put_mem k1 s)) by (destruct Hf; by split).
  destruct (decide (c < 0)) as [Hneg|Hneg]; [rewrite (bool_decide_true (c < 0)) by done|rewrite (bool_decide_false (c < 0)) by done].
  - exists (-1), (put_mem k1 s), l, T. split; [done|]. split; [done|]. split; [done|]. split; [done|]. split; [done|]. right. exists i, z.
    destruct (decide (addr = 0)) as [H0|H0]; [lia|]. repeat (split; [done|]). split; [|done].
    pose proof Hc as (m & _ & [[-> _]|[-> _]]); [lia|done].
  - destruct (reap_run (put_mem k1 s) l T i z Hm1 Hf1 Hs Hz Hst) as (k2 & l2 & Hrun2 & Hm2 & Hf2 & Hs2 & Ho2).
    erewrite bind_ok by exact Hrun2. eexists (pid z), _, l2, (delete i T). split; [done|]. split; [exact Hm2|]. split; [exact Hf2|].
    split; [exact Hs2|]. split; [done|]. left. exists i, z, k1. split; [done|]. split; [done|]. split; [done|]. split; [|split; [|split; [done|split; [done|split; [done|]]]]].
    + destruct (decide (addr = 0)) as [H0|H0]; [apply Hc|]. pose proof Hc as (m & _ & [[-> _]|[-> _]]); [done|lia].
    + by apply (Ho2 cur p tc).
    + intros j q t Hj Hjc Hq Ht. eapply intact_trans; [by apply (Ho1 j q t)|]. by apply (Ho2 j q t).
Qed.

(** Otherwise it fails, or sleeps until a child exits. *)
Lemma wait_run (s : ps) l T cur p tc addr :
  minv s l T → finv s → sinv s → procs s !! cur = Some p → state p = RUNNING → T !! cur = Some tc → 0 ≤ addr < 2 ^ 64 →
  (∃ r s' l' T', wait kend cur addr s = Ok r s' ∧ minv s' l' T' ∧ finv s' ∧ sinv s' ∧ initproc s' = initproc s ∧
    (reaped s T cur tc addr r s' T' ∨ no_address s T cur tc addr r s' T')) ∨
  (∀ i z, procs s !! i = Some z → parent z = Some cur → state z ≠ ZOMBIE) ∧
  (wait kend cur addr s = Ok (-1) s ∧ (killed p ≠ 0 ∨ ∀ i z, procs s !! i = Some z → parent z ≠ Some cur) ∨
   let s' := put_proc cur (set_state SLEEPING (set_chan (ChProc cur) p)) s in
   wait kend cur addr s = Sleep s' ∧ killed p = 0 ∧ quiet s s' ∧ finv s' ∧ sinv s').
Proof.
  intros Hm Hf Hs Hp Hr Htc Ha.
  destruct (wait_scan_run cur (Z.to_nat NPROC) 0 false s) as (res & Hscan & Hres); [by rewrite (mi_len _ _ _ _ _ Hm)|].
  destruct res as [i|h]; [destruct Hres as (z & Hz & Hpar & Hst); left; by eapply wait_zombie|right].
  destruct Hres as [Hno Hh]. split; [intros i z Hz; apply (Hno i); [lia|done]|].
  unfold wait. erewrite bind_ok by exact Hscan. cbv beta. erewrite bind_ok by (by apply getp_run). cbv beta.
  destruct (negb h || bool_decide (killed p ≠ 0))%bool eqn:E.
  - left. split; [done|]. apply orb_true_iff in E as [Hk%negb_true_iff|Hk%bool_decide_eq_true]; [right|by left].
    intros i z Hz Hpar. enough (h = true) by congruence. apply Hh. right. exists i, z. split; [lia|done].
  - right. apply orb_false_iff in E as [_ Hk%bool_decide_eq_false]. split; [by apply sleep_run|].
    assert (Hq : quiet s (put_proc cur (set_state SLEEPING (set_chan (ChProc cur) p)) s)).
    { eapply quiet_put; [done|]. split; cbn; try done; [|congruence]. rewrite Hr. split; discriminate. }
    split; [by destruct (decide (killed p = 0))|]. split; [done|]. split.
    + eapply finv_quiet; [exact Hf|done|]. intros i a b Ha' Hb Hz. left. revert Hb. cbn.
      intros [(<- & <- & _)|[_ ?]]%list_lookup_insert_Some; [done|congruence].
    + intros i q j. cbn. intros [(<- & <- & _)|[Hi Hq']]%list_lookup_insert_Some Hst Hch.
      * injection Hch as <-. split; [done|]. intros c x [(<- & <- & _)|[_ Hx]]%list_lookup_insert_Some Hpar; [done|]. apply (Hno c); [lia|done|done].
      * destruct (Hs i q j Hq' Hst Hch) as [-> Hnz]. split; [done|]. intros c x [(<- & <- & _)|[_ Hx]]%list_lookup_insert_Some Hpar; [done|by apply (Hnz c)].
Qed.

(** ** Executions *)

Definition running (s : ps) (cur : nat) (p : proc) : Prop := procs s !! cur = Some p ∧ state p = RUNNING.

(** What process [cur] may do next; [wakeup] and [schedule] are also done by
    interrupts and by the scheduler.  An [exit] is one step when no file
    operation in it blocks. *)
Inductive pstep (cur : nat) (s : ps) : ps → Prop :=
  | st_fork p r s' : running s cur p → fork kend trampoline forkret cur s = Ok r s' → pstep cur s s'
  | st_sbrk p n r s' : running s cur p → - 2 ^ 31 ≤ n < 2 ^ 31 → growproc kend cur n s = Ok r s' → pstep cur s s'
  | st_write p va bs r s' : running s cur p → 0 ≤ va < 2 ^ 64 → bytes bs →
      on_mem (copyout (pagetable p) va bs) s = Ok r s' → pstep cur s s'
  | st_exit p status s1 s2 s' : running s cur p → close_files kend (ofile p) 0 cur s = Ok tt s1 → exit_cwd cur s1 = Ok tt s2 →
      exit kend cur status s = Sleep s' → pstep cur s s'
  | st_wait p addr r s' : running s cur p → 0 ≤ addr < 2 ^ 64 → wait kend cur addr s = Ok r s' → pstep cur s s'
  | st_wait_sleep p addr s' : running s cur p → 0 ≤ addr < 2 ^ 64 → wait kend cur addr s = Sleep s' → pstep cur s s'
  | st_kill p n r s' : running s cur p → kill n s = Ok r s' → pstep cur s s'
  | st_sleep p a s' : running s cur p → Proc.sleep (A := unit) cur (ChAddr a) s = Sleep s' → pstep cur s s'
  | st_resume p s' : running s cur p → sleep_resume cur s = Ok tt s' → pstep cur s s'
  | st_yield p s' : running s cur p → yield (A := unit) cur s = Sleep s' → pstep cur s s'
  | st_wakeup a who s' : wakeup (ChAddr a) who s = Ok tt s' → pstep cur s s'
  | st_schedule s' : schedule cur s = Ok true s' → pstep cur s s'.

(** Every process but [cur] still has its memory, its trap frame, its files and
    its pid, or was a zombie that [cur] waited for. *)
Definition spared (cur : nat) (s : ps) (T : gmap nat ptree) (s' : ps) (T' : gmap nat ptree) : Prop :=
  ∀ j q t, j ≠ cur → procs s !! j = Some q → state q ≠ UNUSED → T !! j = Some t →
    (∃ q', procs s' !! j = Some q' ∧ sim q q') ∧ T' !! j = Some t ∧ intact (mem s) (mem s') t q ∨
    state q = ZOMBIE ∧ parent q = Some cur ∧ ∃ q', procs s' !! j = Some q' ∧ state q' = UNUSED.

Definition good (cur : nat) (s : ps) (T : gmap nat ptree) (s' : ps) : Prop :=
  ∃ l' T', minv s' l' T' ∧ finv s' ∧ sinv s' ∧ spared cur s T s' T'.

Lemma spared_apart cur s T s' T' : apart_from cur s T s' T' → spared cur s T s' T'.
Proof. intros [Hp Hm _] j q t Hj Hq _ Ht. left. split; [by apply Hp|by apply (Hm j q t)]. Qed.

Lemma good_still cur (s s' : ps) l T : minv s l T → finv s → sinv s → still s s' → good cur s T s'.
Proof.
  intros Hm Hf Hs [Hq Hc]. exists l, T. split; [by eapply minv_quiet|]. split; [|split; [by eapply sinv_calm|]].
  - eapply finv_quiet; [done|done|]. intros i p q Hi Hi' Hz. left. destruct (Forall2_lookup_lr _ _ _ _ _ _ Hc Hi Hi') as [_ Hz' _]. auto.
  - by apply spared_apart, apart_quiet.
Qed.

Lemma good_sbrk cur (s s' : ps) l T p n r :
  minv s l T → finv s → sinv s → running s cur p → - 2 ^ 31 ≤ n < 2 ^ 31 → growproc kend cur n s = Ok r s' → good cur s T s'.
Proof.
  intros Hm Hf Hs [Hp Hr] Hn Hrun. destruct (mi_live _ _ _ _ _ Hm cur p Hp ltac:(congruence)) as (t & Ht & Hh).
  destruct (growproc_mem s l t p n Hh Hn cur Hp) as (r' & k' & l' & t' & size' & Hrun' & Hst & _ & Hsz).
  rewrite Hrun in Hrun'. injection Hrun' as <- ->.
  destruct (minv_step s l T cur p t k' l' t' (set_sz size' p) Hm Hp ltac:(congruence) Ht Hst Hsz) as [Hm' Ho]; [done|done|cbn; congruence|].
  destruct (fi_fd _ _ Hf cur p Hp) as [Hl1 Hl2]. exists l', (<[cur := t']> T). split; [done|]. split; [|split].
  - eapply (finv_slot None None s _ cur (set_sz size' p)); try done.
    + eapply fok_ext; [apply (fi_ok _ _ Hf)|..]; intros x; cbn; rewrite (sum_over_insert _ _ cur p) by done; unfold nfd, ncwd; cbn; lia.
    + intros [?|?]; cbn in *; congruence.
    + intros _ _. apply (fi_cwd _ _ Hf cur p); congruence.
  - by apply (sinv_put s cur p); [..|cbn; congruence|cbn; congruence].
  - intros j q u Hj Hq _ Hu. left. split; [exists q; cbn; rewrite list_lookup_insert_ne by done; split; [done|apply sim_refl]|].
    split; [by rewrite lookup_insert_ne|]. by apply (Ho j q u).
Qed.

Lemma sinv_added (s s' : ps) : sinv s → added s s' → sinv s'.
Proof.
  intros Hs (_ & [Heq|(np & p0 & c & Hp0 & Hu & Heq & Hst)]).
  { unfold sinv in *. by rewrite Heq. }
  assert (Hput : sinv (put_proc np c s)).
  { apply (sinv_put s np p0); [done|done|..]; destruct Hst as [E|E]; congruence. }
  unfold sinv in *. cbn in Hput. by rewrite Heq.
Qed.

Lemma good_fork cur (s s' : ps) l T p r :
  minv s l T → finv s → sinv s → running s cur p → fork kend trampoline forkret cur s = Ok r s' → good cur s T s'.
Proof.
  intros Hm Hf Hs [Hp Hr] Hrun. destruct (mi_live _ _ _ _ _ Hm cur p Hp ltac:(congruence)) as (t & Ht & _).
  destruct (fork_run kend trampoline forkret kend_pos tramp_ok tramp_kernel s l T cur p t Hm Hf Hp Hr Ht) as (r' & s2 & l' & T' & Hrun' & Hm' & Hf' & Hk & _ & Ha).
  rewrite Hrun in Hrun'. injection Hrun' as <- <-. exists l', T'. split; [done|]. split; [done|]. split; [by eapply sinv_added|].
  intros j q u Hj Hq Hl Hu. left. destruct (Hk j q Hq Hl) as [Hq' Hm2]. split; [exists q; split; [done|apply sim_refl]|]. by apply Hm2.
Qed.

Lemma good_wait cur (s s' : ps) l T p addr r :
  minv s l T → finv s → sinv s → running s cur p → 0 ≤ addr < 2 ^ 64 → wait kend cur addr s = Ok r s' → good cur s T s'.
Proof.
  intros Hm Hf Hs [Hp Hr] Ha Hrun. destruct (mi_live _ _ _ _ _ Hm cur p Hp ltac:(congruence)) as (t & Ht & _).
  destruct (wait_run s l T cur p t addr Hm Hf Hs Hp Hr Ht Ha) as [(r' & s2 & l' & T' & Hrun' & Hm' & Hf' & Hs' & _ & Hres)|(_ & [[Hrun' _]|[Hrun' _]])];
    rewrite Hrun in Hrun'; [|injection Hrun' as -> ->; by eapply good_still, still_refl|done].
  injection Hrun' as <- <-. exists l', T'. split; [done|]. split; [done|]. split; [done|].
  destruct Hres as [(i & z & k1 & Hz & Hpar & Hst & _ & _ & _ & Hps & -> & Hint)|(i & z & _ & _ & _ & _ & _ & _ & Hps & -> & Ho)]; intros j q u Hj Hq Hl Hu.
  - destruct (decide (j = i)) as [->|Hji].
    + simplify_eq. right. split; [done|]. split; [done|]. exists (freed z). rewrite Hps, list_lookup_insert_eq by (by eapply lookup_lt_Some). done.
    + left. split; [exists q; rewrite Hps, list_lookup_insert_ne by done; split; [done|apply sim_refl]|].
      split; [by rewrite lookup_delete_ne|]. by apply (Hint j q u).
  - left. split; [exists q; rewrite Hps; split; [done|apply sim_refl]|]. split; [done|]. by apply (Ho j q u).
Qed.

Lemma pstep_good cur (s s' : ps) l T : minv s l T → finv s → sinv s → pstep cur s s' → good cur s T s'.
Proof.
  intros Hm Hf Hs Hstep. destruct Hstep as
    [p r s' Hr Hrun|p n r s' Hr Hn Hrun|p va bs r s' [Hp Hr] Hva Hb Hrun|p status s1 s2 s' [Hp Hr] Hcl Hcw Hrun|p addr r s' Hr Ha Hrun
    |p addr s' [Hp Hr] Ha Hrun|p n r s' Hr Hrun|p a s' [Hp Hr] Hrun|p s' [Hp Hr] Hrun|p s' [Hp Hr] Hrun|a who s' Hrun|s' Hrun].
  - by eapply good_fork.
  - by eapply good_sbrk.
  - destruct (mi_live _ _ _ _ _ Hm cur p Hp ltac:(congruence)) as (t & Ht & _).
    destruct (copyout_run s l T cur p t va bs Hm Hp ltac:(congruence) Ht Hva Hb) as (r' & k' & Hrun' & _ & Hm' & Ho).
    rewrite Hrun in Hrun'. injection Hrun' as <- ->. exists l, T. split; [done|]. split; [destruct Hf; by split|]. split; [done|].
    intros j q u Hj Hq _ Hu. left. split; [exists q; split; [done|apply sim_refl]|]. split; [done|]. by apply (Ho j q u).
  - assert (Hin : initproc s ≠ Some cur).
    { intros Hin. unfold exit in Hrun. erewrite bind_ok in Hrun by (by apply getp_run). cbv beta in Hrun.
      erewrite bind_ok in Hrun by reflexivity. cbv beta in Hrun. by rewrite bool_decide_true in Hrun by done. }
    destruct (exit_run s s1 s2 l T cur p status Hm Hf Hs Hp Hr Hin Hcl Hcw) as (s3 & l' & q & Hrun' & Hm' & Hf' & Hs' & Ha & _).
    rewrite Hrun in Hrun'. injection Hrun' as <-. exists l', T. split; [done|]. split; [done|]. split; [done|]. by apply spared_apart.
  - by eapply good_wait.
  - destruct (mi_live _ _ _ _ _ Hm cur p Hp ltac:(congruence)) as (t & Ht & _).
    destruct (wait_run s l T cur p t addr Hm Hf Hs Hp Hr Ht Ha) as [(r' & s2 & l' & T' & Hrun' & _)|(_ & [[Hrun' _]|(Hrun' & _ & Hq & Hf' & Hs')])];
      rewrite Hrun in Hrun'; [done|done|]. injection Hrun' as ->. exists l, T. split; [by eapply minv_quiet|]. split; [done|]. split; [done|].
    by apply spared_apart, apart_quiet.
  - destruct (kill_from_run n (Z.to_nat NPROC) 0 s) as (r' & s2 & Hrun' & Hst & _); [by rewrite (mi_len _ _ _ _ _ Hm)|].
    unfold kill in Hrun. rewrite Hrun in Hrun'. injection Hrun' as <- <-. by eapply good_still.
  - erewrite sleep_run in Hrun by exact Hp. injection Hrun as <-. eapply good_still; [done..|].
    eapply still_put; [done| |by split]. split; cbn; try done; [|congruence]. rewrite Hr. split; discriminate.
  - unfold sleep_resume in Hrun. erewrite setp_run in Hrun by exact Hp. injection Hrun as <-. eapply good_still; [done..|].
    eapply still_put; [done|by split|by split].
  - erewrite yield_run in Hrun by exact Hp. injection Hrun as <-. eapply good_still; [done..|].
    eapply still_put; [done| |by split]. split; cbn; try done; [|congruence]. rewrite Hr. split; discriminate.
  - destruct (still_wakeup (ChAddr a) who s) as (s2 & Hrun' & Hst & _). rewrite Hrun in Hrun'. injection Hrun' as <-. by eapply good_still.
  - destruct (procs s !! cur) as [p|] eqn:Hp; [|unfold schedule, getp, mbind, M_bind, get in Hrun; by rewrite Hp in Hrun].
    rewrite (schedule_run s cur p Hp) in Hrun. destruct (decide (state p = RUNNABLE)) as [Hr|]; [|done]. injection Hrun as <-.
    eapply good_still; [done..|]. eapply still_put; [done| |by split]. split; cbn; try done; [|congruence]. rewrite Hr. split; discriminate.
Qed.

Lemma psteps_inv (s0 : ps) l0 T0 s :
  minv s0 l0 T0 → finv s0 → sinv s0 → rtc (λ a b, ∃ cur, pstep cur a b) s0 s → ∃ l T, minv s l T ∧ finv s ∧ sinv s.
Proof.
  intros Hm Hf Hs Hsteps. revert l0 T0 Hm Hf Hs. induction Hsteps as [s|s s1 s2 [cur Hst] _ IH]; intros l0 T0 Hm Hf Hs; [eauto|].
  destruct (pstep_good cur s s1 l0 T0 Hm Hf Hs Hst) as (l1 & T1 & Hm1 & Hf1 & Hs1 & _). by eapply IH.
Qed.

(** Processes are isolated.  In every execution - any sequence of [fork],
    [sbrk], writes to user memory, [exit], [wait], [kill], [sleep], [wakeup],
    [yield] and scheduling decisions, by any processes - no physical page is
    owned by two processes, by a process and a pipe, or by a process and the
    free list; and a step of one process changes no byte of another process's
    address space or trap frame, nor its pid, size, open files or current
    directory.  The only way another process disappears is as a zombie child
    that its parent waits for. *)
Theorem processes_isolated (s0 : ps) l0 T0 s :
  minv s0 l0 T0 → finv s0 → sinv s0 → rtc (λ a b, ∃ cur, pstep cur a b) s0 s →
  ∃ l T, minv s l T ∧ finv s ∧
    (∀ i p t x, procs s !! i = Some p → T !! i = Some t → state p ≠ UNUSED → own t (trapframe p) x →
       x ∉ l ∧ ¬ fpages (fs s) x ∧
       ∀ j q u, j ≠ i → procs s !! j = Some q → T !! j = Some u → ¬ own u (trapframe q) x) ∧
    ∀ cur s', pstep cur s s' → ∃ l' T', minv s' l' T' ∧ spared cur s T s' T'.
Proof.
  intros Hm Hf Hs Hsteps.
  destruct (psteps_inv s0 l0 T0 s Hm Hf Hs Hsteps) as (l & T & Hm' & Hf' & Hs'). exists l, T. split; [done|]. split; [done|]. split.
  - intros i p t x Hp Ht Hl Ho. destruct (mi_live _ _ _ _ _ Hm' i p Hp Hl) as (t' & Ht' & Hh). simplify_eq.
    split; [by eapply own_apart|]. split; [by eapply (mi_fsep _ _ _ _ _ Hm')|].
    intros j q u Hj Hq Hu. by eapply (mi_sep _ _ _ _ _ Hm' i j).
  - intros cur s' Hst. destruct (pstep_good cur s s' l T Hm' Hf' Hs' Hst) as (l' & T' & ? & _ & _ & ?). eauto.
Qed.

(** C15: A parent never misses a child's exit.  In every execution, a process that
    sleeps in [wait] has no zombie child, and it is its own [wait] that it sleeps
    in; so after an [exit] the parent of the exiting process is awake or was not
    waiting, and its next look at the table finds the zombie. *)
Theorem no_missed_exit (s0 : ps) l0 T0 s i p :
  minv s0 l0 T0 → finv s0 → sinv s0 → rtc (λ a b, ∃ cur, pstep cur a b) s0 s →
  procs s !! i = Some p →
  (∀ j, state p = SLEEPING → chan p = ChProc j → j = i ∧ ∀ c q, procs s !! c = Some q → parent q = Some i → state q ≠ ZOMBIE) ∧
  (state p = RUNNING → (∃ c q, procs s !! c = Some q ∧ parent q = Some i ∧ state q = ZOMBIE) →
   ∃ c q s', wait kend i 0 s = Ok (pid q) s' ∧ procs s !! c = Some q ∧ parent q = Some i ∧ state q = ZOMBIE).
Proof.
  intros Hm Hf Hs Hsteps Hp.
  destruct (psteps_inv s0 l0 T0 s Hm Hf Hs Hsteps) as (l & T & Hm' & Hf' & Hs'). split; [intros j Hst Hch; by apply (Hs' i p j)|].
  intros Hr (c & q & Hq & Hpar & Hz). destruct (mi_live _ _ _ _ _ Hm' i p Hp ltac:(congruence)) as (t & Ht & _).
  destruct (wait_run s l T i p t 0 Hm' Hf' Hs' Hp Hr Ht ltac:(lia)) as [(r & s' & l' & T' & Hrun & _ & _ & _ & _ & Hres)|(Hno & _)];
    [|by destruct (Hno c q Hq Hpar)].
  destruct Hres as [(d & z & k1 & Hd & Hpd & Hzd & _ & _ & -> & _)|(d & z & _ & _ & _ & H0 & _)]; [|done]. by exists d, z, s'.
Qed.

(** [growproc] by any [int] always returns.  Growing by [n] bytes appends
    zeroed, user-writable pages to the address space, or fails with -1 and
    changes nothing when memory runs out; shrinking removes exactly the pages past
    the new size and gives them back; shrinking by more than the size changes
    nothing and still returns 0.  The process's size, page table and owned pages
    stay consistent, and no other process's memory changes. *)
Theorem growproc_resizes (s : ps) l T i p t n :
  minv s l T → procs s !! i = Some p → state p ≠ UNUSED → T !! i = Some t → - 2 ^ 31 ≤ n < 2 ^ 31 →
  ∃ r k' l' t' size', growproc kend i n s = Ok r (put_mem k' (put_proc i (set_sz size' p) s)) ∧
    resized (mem s) t (sz p) n r size' k' t' ∧
    minv (put_mem k' (put_proc i (set_sz size' p) s)) l' (<[i := t']> T) ∧ others s T i k'.
Proof.
  intros Hm Hp Hl Ht Hn. destruct (mi_live _ _ _ _ _ Hm i p Hp Hl) as (t0 & Ht0 & Hh). simplify_eq.
  destruct (growproc_mem s l t p n Hh Hn i Hp) as (r & k' & l' & t' & size' & Hrun & Hst & Hres & Hsz).
  exists r, k', l', t', size'. split; [done|]. split; [done|]. by eapply minv_step.
Qed.

(** C23: [wait] by a running process reaps a zombie child if there is one: it
    returns the child's pid, the caller finds the exit status at [addr] (unless
    that is 0), the child's slot, page table, trap frame and memory are free
    again, and all other processes are as before; if the address cannot be
    written it returns -1 and the child is still there.  Without a zombie child
    it returns -1 when there is no child at all or the caller is killed, and
    sleeps otherwise. *)
Theorem wait_reaps (s : ps) l T cur p tc addr :
  minv s l T → finv s → sinv s → procs s !! cur = Some p → state p = RUNNING → T !! cur = Some tc → 0 ≤ addr < 2 ^ 64 →
  (∃ r s' l' T', wait kend cur addr s = Ok r s' ∧ minv s' l' T' ∧ finv s' ∧
    (reaped s T cur tc addr r s' T' ∨ no_address s T cur tc addr r s' T')) ∨
  (∀ i z, procs s !! i = Some z → parent z = Some cur → state z ≠ ZOMBIE) ∧
  (wait kend cur addr s = Ok (-1) s ∧ (killed p ≠ 0 ∨ ∀ i z, procs s !! i = Some z → parent z ≠ Some cur) ∨
   killed p = 0 ∧ wait kend cur addr s = Sleep (put_proc cur (set_state SLEEPING (set_chan (ChProc cur) p)) s)).
Proof.
  intros Hm Hf Hs Hp Hr Ht Ha.
  destruct (wait_run s l T cur p tc addr Hm Hf Hs Hp Hr Ht Ha) as [(r & s' & l' & T' & ? & ? & ? & _ & _ & ?)|(Hno & [?|(? & ? & _)])].
  - left. by exists r, s', l', T'.
  - right. auto.
  - right. auto.
Qed.

(** C22: [exit] leaves a zombie that owns its memory until it is waited for, with
    the status, no open file and no current directory; every reference the
    process held to files and inodes is dropped; no process has it as parent any
    more; and other processes keep their memory and files.  (For an exit whose
    file operations do not block.) *)
Theorem exit_leaves_zombie (s s1 s2 : ps) l T cur p status :
  minv s l T → finv s → sinv s → procs s !! cur = Some p → state p = RUNNING → initproc s ≠ Some cur →
  close_files kend (ofile p) 0 cur s = Ok tt s1 → exit_cwd cur s1 = Ok tt s2 →
  ∃ s' l' q, exit kend cur status s = Sleep s' ∧ minv s' l' T ∧ finv s' ∧
    procs s' !! cur = Some q ∧ state q = ZOMBIE ∧ xstate q = status ∧ pid q = pid p ∧
    ofile q = replicate 16 0 ∧ cwd q = 0 ∧
    (∀ j r, procs s' !! j = Some r → parent r ≠ Some cur) ∧ spared cur s T s' T.
Proof.
  intros Hm Hf Hs Hp Hr Hi Hc Hw.
  destruct (exit_run s s1 s2 l T cur p status Hm Hf Hs Hp Hr Hi Hc Hw) as (s' & l' & q & ? & ? & Hf' & _ & Ha & Hq & Hz & ? & ? & ? & _).
  exists s', l', q. destruct (fi_unused _ _ Hf' cur q Hq ltac:(by right)) as [? ?].
  repeat (split; [done|]). by apply spared_apart.
Qed.
End steps.
End ProcStep.
