(* ===== verification/Ring.v ===== *)
(** Ring buffers: the entries between two free-running counters. *)

From S2P Require Import Prelude.

Local Open Scope Z_scope.

Lemma bytes_lookup_total l i : bytes l → is_u8 (l !!! i).
Proof.
  intros Hl. rewrite list_lookup_total_alt. destruct (l !! i) as [x|] eqn:E; [|done]. cbn.
  by apply (proj1 (Forall_lookup _ _) Hl i).
Qed.

Section ring.
Context {A : Type} `{!Inhabited A} (N : Z) (HN : 0 < N).

(** The [n] entries from counter [r] on. *)
Definition ring (buf : list A) (r n : Z) : list A :=
  (λ j, buf !!! Z.to_nat ((r + j) mod N)) <$> seqZ 0 n.

Lemma length_ring buf r n : 0 ≤ n → Z.of_nat (length (ring buf r n)) = n.
Proof. intros. unfold ring. rewrite length_fmap, length_seqZ. lia. Qed.

Lemma ring_0 buf r : ring buf r 0 = [].
Proof. done. Qed.

Lemma ring_nil buf r n : 0 ≤ n → ring buf r n = [] ↔ n = 0.
Proof.
  intros Hn. pose proof (length_ring buf r n Hn). rewrite <-length_zero_iff_nil. lia.
Qed.

Lemma ring_app buf r n m : 0 ≤ n → 0 ≤ m → ring buf r (n + m) = ring buf r n ++ ring buf (r + n) m.
Proof.
  intros Hn Hm. unfold ring. rewrite seqZ_app by lia. rewrite fmap_app. f_equal.
  replace (0 + n) with (n + 0) by lia. rewrite <-(fmap_add_seqZ n 0 m), <-list_fmap_compose.
  apply list_fmap_ext. intros i x _. cbn. do 2 f_equal. f_equal. lia.
Qed.

Lemma ring_1 buf r : ring buf r 1 = [buf !!! Z.to_nat (r mod N)].
Proof. unfold ring. change (seqZ 0 1) with [0]. cbn [fmap list_fmap]. by rewrite Z.add_0_r. Qed.

Lemma ring_pop buf r n : 0 < n → ring buf r n = buf !!! Z.to_nat (r mod N) :: ring buf (r + 1) (n - 1).
Proof. intros Hn. replace n with (1 + (n - 1)) at 1 by lia. rewrite ring_app, ring_1 by lia. done. Qed.
Lemma ring_last buf r n : 0 < n → ring buf r n = ring buf r (n - 1) ++ [buf !!! Z.to_nat ((r + (n - 1)) mod N)].
Proof. intros Hn. replace n with (n - 1 + 1) at 1 by lia. by rewrite ring_app, ring_1 by lia. Qed.

Lemma ring_mod buf r r' n : r mod N = r' mod N → ring buf r n = ring buf r' n.
Proof.
  intros Hr. unfold ring. apply list_fmap_ext. intros i x _. cbn. do 2 f_equal.
  by rewrite <-Z.add_mod_idemp_l, Hr, Z.add_mod_idemp_l by lia.
Qed.

Lemma ring_insert_ne buf r n i c :
  (∀ j, 0 ≤ j < n → (r + j) mod N ≠ i) → 0 ≤ i → ring (<[Z.to_nat i := c]> buf) r n = ring buf r n.
Proof.
  intros Hne Hi. unfold ring. apply list_fmap_ext. intros k j Hj.
  apply lookup_seqZ in Hj as [-> Hk]. cbn. apply list_lookup_total_insert_ne.
  intros Heq. apply (Hne (0 + Z.of_nat k)); [lia|]. pose proof (Z.mod_pos_bound (r + (0 + Z.of_nat k)) N HN). lia.
Qed.

Lemma ring_slot r j n : 0 ≤ j < n → n < N → (r + j) mod N ≠ (r + n) mod N.
Proof.
  intros Hj Hn Heq. pose proof (Z.div_mod (r + j) N ltac:(lia)). pose proof (Z.div_mod (r + n) N ltac:(lia)).
  set (a := (r + j) / N) in *. set (b := (r + n) / N) in *. assert (n - j = N * (b - a)) by lia.
  destruct (Z.lt_trichotomy (b - a) 0) as [|[|]]; nia.
Qed.

Lemma ring_push buf r n c :
  Z.of_nat (length buf) = N → 0 ≤ n < N →
  ring (<[Z.to_nat ((r + n) mod N) := c]> buf) r (n + 1) = ring buf r n ++ [c].
Proof.
  intros Hl Hn. pose proof (Z.mod_pos_bound (r + n) N HN). rewrite ring_app, ring_1 by lia.
  rewrite ring_insert_ne; [|intros j Hj; apply ring_slot; lia|lia].
  f_equal. f_equal. apply list_lookup_total_insert_eq. lia.
Qed.
End ring.
