(* ===== verification/Console.v ===== *)
(** The serial line and the console: [kernel/uart.c] and [kernel/console.c].

    The 16550 is the environment: [idle n] is what the transmit bit of its line
    status register reads the [n]-th time it is polled.  Sections under a spin
    lock are atomic. *)

From S2P Require Import Prelude Ring.

Local Open Scope Z_scope.

Module Uart.

Definition UART_TX_BUF_SIZE : Z := 32.
Definition RHR : Z := 0.
Definition THR : Z := 0.
Definition IER : Z := 1.
Definition FCR : Z := 2.
Definition LCR : Z := 3.

(** The transmit buffer, the register writes so far (the bytes written to [THR]
    after initialisation are what goes out on the line) and the number of polls. *)
Record uart := MkUart {
  uart_tx_buf : list Z;
  uart_tx_w : Z;
  uart_tx_r : Z;
  panicked : bool;
  regs : list (Z * Z);
  line : list Z;
  polls : nat;
}.

Definition set_tx (b : list Z) (w r : Z) (u : uart) : uart :=
  MkUart b w r (panicked u) (regs u) (line u) (polls u).

Section uart.
Context (idle : nat → bool).

Definition WriteReg (reg v : Z) : M uart unit :=
  modify (λ u, MkUart (uart_tx_buf u) (uart_tx_w u) (uart_tx_r u) (panicked u) (regs u ++ [(reg, v)]) (line u) (polls u)).
(** [WriteReg(THR, c)] once the line is set up. *)
Definition send (c : Z) : M uart unit :=
  modify (λ u, MkUart (uart_tx_buf u) (uart_tx_w u) (uart_tx_r u) (panicked u) (regs u) (line u ++ [u8 c]) (polls u)).
(** [ReadReg(LSR) & LSR_TX_IDLE]. *)
Definition tx_idle : M uart bool :=
  u ← get;
  put (MkUart (uart_tx_buf u) (uart_tx_w u) (uart_tx_r u) (panicked u) (regs u) (line u) (S (polls u)));;
  mret (idle (polls u)).

Definition uartinit : M uart unit :=
  WriteReg IER 0;;
  WriteReg LCR (Z.shiftl 1 7);;
  WriteReg 0 3;;
  WriteReg 1 0;;
  WriteReg LCR (Z.shiftl 3 0);;
  WriteReg FCR (Z.lor (Z.shiftl 1 0) (Z.shiftl 3 1));;
  WriteReg IER (Z.lor (Z.shiftl 1 1) (Z.shiftl 1 0)).

(** [uartstart]'s loop; the result says whether it called [wakeup]. *)
Fixpoint uartstart_loop (fuel : nat) (woke : bool) : M uart bool :=
  match fuel with
  | O => nofuel
  | S fuel =>
      u ← get;
      if bool_decide (uart_tx_w u = uart_tx_r u) then mret woke else
      b ← tx_idle;
      if negb b then mret woke else
      let c := uart_tx_buf u !!! Z.to_nat (uart_tx_r u mod UART_TX_BUF_SIZE) in
      modify (λ u, set_tx (uart_tx_buf u) (uart_tx_w u) (u64 (uart_tx_r u + 1)) u);;
      send c;;
      uartstart_loop fuel true
  end.
Definition uartstart : M uart bool := uartstart_loop (S (Z.to_nat UART_TX_BUF_SIZE)) false.

(** [uartputc]: a full buffer puts the caller to sleep; after a panic it spins. *)
Definition uartputc (c : Z) : M uart bool :=
  u ← get;
  if panicked u then nofuel else
  if bool_decide (uart_tx_w u = u64 (uart_tx_r u + UART_TX_BUF_SIZE)) then block else
  put (set_tx (<[Z.to_nat (uart_tx_w u mod UART_TX_BUF_SIZE) := u8 c]> (uart_tx_buf u))
         (u64 (uart_tx_w u + 1)) (uart_tx_r u) u);;
  uartstart.

(** The spin of [uartputc_sync], at most [fuel] polls long. *)
Fixpoint wait_idle (fuel : nat) : M uart unit :=
  match fuel with
  | O => nofuel
  | S fuel => b ← tx_idle; if (b : bool) then mret tt else wait_idle fuel
  end.
Definition uartputc_sync (spin : nat) (c : Z) : M uart unit :=
  u ← get;
  if panicked u then nofuel else
  wait_idle spin;; send c.

(** * The transmit queue *)

Definition tx_count (u : uart) : Z := u64 (uart_tx_w u - uart_tx_r u).
Definition tx_queue (u : uart) : list Z := ring UART_TX_BUF_SIZE (uart_tx_buf u) (uart_tx_r u) (tx_count u).
Record uart_ok (u : uart) : Prop := {
  uo_len : Z.of_nat (length (uart_tx_buf u)) = UART_TX_BUF_SIZE;
  uo_w : 0 ≤ uart_tx_w u < 2 ^ 64;
  uo_r : 0 ≤ uart_tx_r u < 2 ^ 64;
  uo_count : tx_count u ≤ UART_TX_BUF_SIZE;
  uo_bytes : bytes (uart_tx_buf u);
}.

Lemma tx_count_range u : 0 ≤ tx_count u < 2 ^ 64.
Proof. unfold tx_count. wrap_lia. Qed.

Lemma tx_index u : uart_ok u → uart_tx_w u mod UART_TX_BUF_SIZE = (uart_tx_r u + tx_count u) mod UART_TX_BUF_SIZE.
Proof. intros [_ Hw Hr _ _]. unfold tx_count, UART_TX_BUF_SIZE in *. wrap_lia. Qed.

(** [uartstart] moves a prefix of the queue to the line, in order; it stops with
    characters left only when the device is busy, and wakes writers when it
    made room. *)
Lemma uartstart_loop_spec fuel : ∀ woke u,
  uart_ok u → tx_count u < Z.of_nat fuel →
  wp (uartstart_loop fuel woke) (λ w' u', uart_ok u' ∧ panicked u' = panicked u ∧ regs u' = regs u ∧ ∃ k,
    line u' = line u ++ take k (tx_queue u) ∧ tx_queue u' = drop k (tx_queue u) ∧
    w' = (woke || bool_decide (0 < k)%nat) ∧ (k ≤ length (tx_queue u))%nat ∧
    (tx_queue u' = [] ∨ idle (pred (polls u')) = false)) u.
Proof.
  induction fuel as [|fuel IH]; intros woke u Hok Hf; pose proof (tx_count_range u) as Hc; [lia|].
  cbn [uartstart_loop]. apply wp_bind, wp_get.
  assert (Hq : Z.of_nat (length (tx_queue u)) = tx_count u) by (apply length_ring; lia).
  case_bool_decide as Hwr.
  { apply wp_ret. split; [done|]. split; [done|]. split; [done|]. exists 0%nat. rewrite app_nil_r, drop_0, orb_false_r.
    split; [done|]. split; [done|]. split; [done|]. split; [lia|]. left. apply length_zero_iff_nil.
    assert (tx_count u = 0) by (unfold tx_count; rewrite Hwr, Z.sub_diag; done). lia. }
  assert (Hpos : 0 < tx_count u) by (pose proof Hok as [_ Hw Hr _ _]; unfold tx_count in *; wrap_lia).
  apply wp_bind. unfold tx_idle. apply wp_bind, wp_get, wp_bind, wp_put, wp_ret.
  destruct (idle (polls u)) eqn:Hidle; cbn [negb].
  - set (c := uart_tx_buf u !!! _). apply wp_bind, wp_modify, wp_bind, wp_modify. unfold set_tx. cbn.
    set (u2 := MkUart _ _ _ _ _ _ _).
    assert (Hcnt : tx_count u2 = tx_count u - 1) by (pose proof Hok as [_ Hw Hr _ _]; unfold tx_count in *; cbn; wrap_lia).
    assert (Hok2 : uart_ok u2).
    { pose proof Hok as [Hl Hw Hr Hcn Hb]. split; [done|done|cbn; wrap_lia| |done]. rewrite Hcnt. lia. }
    assert (Hqq : tx_queue u = c :: tx_queue u2).
    { unfold tx_queue. rewrite ring_pop by done. fold c. f_equal. rewrite Hcnt. cbn. apply ring_mod; [done|].
      unfold UART_TX_BUF_SIZE. pose proof Hok as [_ _ Hr _ _]. wrap_lia. }
    eapply wp_mono; [apply (IH true u2 Hok2); rewrite Hcnt; lia|]. cbn beta. intros w' u' (Hok' & Hp & Hg & k & Hl & Hq' & -> & Hk & Hend).
    split; [done|]. split; [done|]. split; [done|]. exists (S k). rewrite Hqq, Hl, Hq'. cbn [take drop u2 line length].
    split; [|split; [done|split; [|split; [lia|by rewrite Hq' in Hend]]]].
    + rewrite <-app_assoc. cbn [app]. do 2 f_equal. apply u8_id. apply bytes_lookup_total, Hok.
    + rewrite (bool_decide_true (0 < S k)%nat) by lia. by rewrite orb_true_r.
  - apply wp_ret. split; [by destruct Hok|]. split; [done|]. split; [done|]. exists 0%nat. cbn. rewrite app_nil_r, orb_false_r.
    split; [done|]. split; [done|]. split; [done|]. split; [lia|]. by right.
Qed.

(** ** Queued and sent characters *)

(** What happens at the serial line: a process writes a character, or the device
    interrupts and the handler restarts the transmitter. *)
Inductive uevent := UPut (c : Z) | UStart.
(** Characters of writers that found the buffer full are not accepted: the writer
    sleeps and tries again later. *)
Definition ustep (e : uevent) (u : uart) : option uart :=
  match e with
  | UPut c => match uartputc c u with Ok _ u' => Some u' | Sleep u' => Some u' | _ => None end
  | UStart => match uartstart u with Ok _ u' => Some u' | _ => None end
  end.
Definition accepted (e : uevent) (u : uart) : list Z :=
  match e with UPut c => if bool_decide (tx_count u = UART_TX_BUF_SIZE) then [] else [u8 c] | UStart => [] end.
Fixpoint uruns (es : list uevent) (u : uart) : option (uart * list Z) :=
  match es with
  | [] => Some (u, [])
  | e :: es =>
      u' ← ustep e u; r ← uruns es u'; Some (r.1, accepted e u ++ r.2)
  end.

Lemma uartstart_spec u :
  uart_ok u → ∃ w u' k, uartstart u = Ok w u' ∧ uart_ok u' ∧ panicked u' = panicked u ∧
    line u' = line u ++ take k (tx_queue u) ∧ tx_queue u' = drop k (tx_queue u) ∧
    w = bool_decide (0 < k)%nat ∧ (k ≤ length (tx_queue u))%nat ∧ (tx_queue u' = [] ∨ idle (pred (polls u')) = false).
Proof.
  intros Hok. pose proof (uo_count _ Hok) as Hc.
  destruct (proj1 (wp_ok _ _ _) (uartstart_loop_spec (S (Z.to_nat UART_TX_BUF_SIZE)) false u Hok ltac:(unfold UART_TX_BUF_SIZE in *; lia)))
    as (w & u' & Hrun & Hok' & Hp & _ & k & Hl & Hq & Hw & Hk & Hend).
  exists w, u', k. done.
Qed.

(** [uartputc] into a buffer with room. *)
Lemma uartputc_room u c :
  uart_ok u → panicked u = false → tx_count u ≠ UART_TX_BUF_SIZE →
  ∃ w u' k, uartputc c u = Ok w u' ∧ uart_ok u' ∧ panicked u' = false ∧
    line u' = line u ++ take k (tx_queue u ++ [u8 c]) ∧ tx_queue u' = drop k (tx_queue u ++ [u8 c]).
Proof.
  intros Hok Hp Hroom. unfold uartputc. erewrite bind_ok by reflexivity. cbv beta. rewrite Hp.
  pose proof Hok as [Hl Hw Hr Hc Hb]. pose proof (tx_count_range u) as Hcr.
  rewrite bool_decide_false.
  2:{ intros Heq. apply Hroom. unfold tx_count, UART_TX_BUF_SIZE in *. rewrite Heq. wrap_lia. }
  erewrite bind_ok by reflexivity. cbv beta. set (u1 := set_tx _ _ _ _).
  assert (Hc1 : tx_count u1 = tx_count u + 1) by (unfold tx_count, UART_TX_BUF_SIZE in *; cbn; wrap_lia).
  assert (Hok1 : uart_ok u1).
  { split; [cbn; by rewrite length_insert|cbn; wrap_lia|done|rewrite Hc1; lia|]. cbn. apply Forall_insert; [done|wrap_lia]. }
  assert (Hq1 : tx_queue u1 = tx_queue u ++ [u8 c]).
  { unfold tx_queue. rewrite Hc1. cbn [u1 set_tx uart_tx_buf uart_tx_r]. rewrite tx_index by done. apply ring_push; [done|done|lia]. }
  destruct (uartstart_spec u1 Hok1) as (w & u' & k & Hrun & Hok' & Hp' & Hl' & Hq' & _).
  exists w, u', k. split; [done|]. split; [done|]. split; [by rewrite Hp'|]. rewrite Hl', Hq', Hq1. done.
Qed.

Lemma uartputc_full u c :
  uart_ok u → panicked u = false → tx_count u = UART_TX_BUF_SIZE → uartputc c u = Sleep u.
Proof.
  intros Hok Hp Hfull. unfold uartputc. erewrite bind_ok by reflexivity. cbv beta. rewrite Hp.
  pose proof Hok as [Hl Hw Hr Hc Hb]. rewrite bool_decide_true; [done|].
  unfold tx_count, UART_TX_BUF_SIZE in *. wrap_lia.
Qed.

(** The transmit buffer is a FIFO: after any sequence of writes and interrupts,
    the characters on the line followed by those still queued are the accepted
    ones in order; the queue never exceeds its 32 slots. *)
Theorem uart_fifo es u :
  uart_ok u → panicked u = false →
  ∃ u' acc, uruns es u = Some (u', acc) ∧ uart_ok u' ∧
    line u' ++ tx_queue u' = line u ++ tx_queue u ++ acc ∧ (length (tx_queue u') ≤ 32)%nat.
Proof.
  revert u. induction es as [|e es IH]; intros u Hok Hp.
  { exists u, []. rewrite app_nil_r. split; [done|]. split; [done|]. split; [done|].
    pose proof (uo_count _ Hok). pose proof (tx_count_range u).
    pose proof (length_ring UART_TX_BUF_SIZE (uart_tx_buf u) (uart_tx_r u) (tx_count u)). unfold tx_queue, UART_TX_BUF_SIZE in *. lia. }
  assert (Hstep : ∃ u1, ustep e u = Some u1 ∧ uart_ok u1 ∧ panicked u1 = false ∧
    line u1 ++ tx_queue u1 = line u ++ tx_queue u ++ accepted e u).
  { destruct e as [c|]; cbn [ustep accepted].
    - case_bool_decide as Hfull.
      + rewrite uartputc_full by done. exists u. by rewrite app_nil_r.
      + destruct (uartputc_room u c Hok Hp Hfull) as (w & u1 & k & -> & Hok1 & Hp1 & Hl & Hq). exists u1.
        split; [done|]. split; [done|]. split; [done|]. by rewrite Hl, Hq, <-app_assoc, take_drop.
    - destruct (uartstart_spec u Hok) as (w & u1 & k & -> & Hok1 & Hp1 & Hl & Hq & _). exists u1.
      split; [done|]. split; [done|]. split; [congruence|]. by rewrite Hl, Hq, app_nil_r, <-app_assoc, take_drop. }
  destruct Hstep as (u1 & Hs & Hok1 & Hp1 & Happ). destruct (IH u1 Hok1 Hp1) as (u' & acc & Hr & Hok' & Happ' & Hlen).
  exists u', (accepted e u ++ acc). cbn [uruns]. rewrite Hs. cbn. rewrite Hr. split; [done|]. split; [done|]. split; [|done].
  rewrite Happ', (app_assoc (line u1)), Happ. by rewrite <-!app_assoc.
Qed.
End uart.

Definition uart0 : uart := MkUart (replicate 32 0) 0 0 false [] [] 0.
Lemma uart_fifo_witness :
  ∃ u' acc, uruns (λ n, Nat.even n) [UPut 104; UPut 105; UStart] uart0 = Some (u', acc) ∧ uart_ok u' ∧
    line u' ++ tx_queue u' = [] ++ [] ++ acc ∧ (length (tx_queue u') ≤ 32)%nat.
Proof.
  apply (uart_fifo (λ n, Nat.even n) [UPut 104; UPut 105; UStart] uart0); [|done].
  split; [done|cbn; lia|cbn; lia|done|]. by apply bytes_replicate.
Defined.
End Uart.

Module Console.
Import Uart.

Definition BACKSPACE : Z := 0x100.
(** [C(x)]: control-x. *)
Definition Ctl (x : Z) : Z := x - 64.
Definition INPUT_BUF_SIZE : Z := 128.
Definition NL : Z := 10.
Definition CR : Z := 13.
Definition DEL : Z := 0x7f.
Definition CtrlP : Z := Ctl 80.
Definition CtrlU : Z := Ctl 85.
Definition CtrlH : Z := Ctl 72.
Definition CtrlD : Z := Ctl 68.

(** [struct cons]. *)
Record cons_t := MkCons { c_buf : list Z; c_r : Z; c_w : Z; c_e : Z }.
Record console := MkConsole { cons : cons_t; tx : uart }.

Definition on_uart {A} (m : M uart A) : M console A := zoom tx (λ u s, MkConsole (cons s) u) m.
Definition set_cons (c : cons_t) : M console unit := modify (λ s, MkConsole c (tx s)).

(** How a run of [consoleread] ends: it returns, or sleeps with [n] bytes to go. *)
Inductive rd_end := Return (r : Z) | Blocked (n : Z).

(** [cons.buf[i % INPUT_BUF_SIZE]]. *)
Definition at_ (s : cons_t) (i : Z) : Z := c_buf s !!! Z.to_nat (i mod INPUT_BUF_SIZE).

(** The loop of [consoleread] with [k] bytes to go of [target]; [cout i c] says
    whether [either_copyout] of [c] to [dst + i] succeeds.  The list is what is
    copied out. *)
Fixpoint consoleread_loop (killed : bool) (cout : Z → Z → bool) (target : Z) (k : nat) (s : cons_t) :
    rd_end * list Z * cons_t :=
  match k with
  | O => (Return target, [], s)
  | S k' =>
      let n := Z.of_nat k in
      if bool_decide (c_r s = c_w s) then
        (if killed then Return (-1) else Blocked n, [], s)
      else
        let c := at_ s (c_r s) in
        let s1 := MkCons (c_buf s) (u32 (c_r s + 1)) (c_w s) (c_e s) in
        if bool_decide (c = CtrlD) then
          (Return (target - n), [],
           if bool_decide (n < target) then MkCons (c_buf s1) (u32 (c_r s1 - 1)) (c_w s1) (c_e s1) else s1)
        else if negb (cout (target - n) c) then (Return (target - n), [], s1)
        else if bool_decide (c = NL) then (Return (target - n + 1), [c], s1)
        else let '(r, out, s2) := consoleread_loop killed cout target k' s1 in (r, c :: out, s2)
  end.
(** A run of [consoleread] with [n] of [target] bytes to go ([n = target] when it
    is called). *)
Definition consoleread (killed : bool) (cout : Z → Z → bool) (target n : Z) : M console (rd_end * list Z) :=
  s ← get;
  let '(r, out, c) := consoleread_loop killed cout target (Z.to_nat n) (cons s) in
  set_cons c;; mret (r, out).

Section console.
Context (idle : nat → bool) (spin : nat).
(** What [procdump] prints. *)
Context (procdump : list Z).

Definition consputc (c : Z) : M uart unit :=
  if bool_decide (c = BACKSPACE) then
    uartputc_sync idle spin 8;; uartputc_sync idle spin 32;; uartputc_sync idle spin 8
  else uartputc_sync idle spin c.
Fixpoint consputs (cs : list Z) : M uart unit :=
  match cs with [] => mret tt | c :: cs => consputc c;; consputs cs end.

(** [consolewrite] from byte [i]; [cin j] is the byte at [src + j], if it can be read. *)
Fixpoint consolewrite_loop (cin : Z → option Z) (k : nat) (i : Z) : M uart Z :=
  match k with
  | O => mret i
  | S k => match cin i with
           | None => mret i
           | Some c => uartputc idle c;; consolewrite_loop cin k (i + 1)
           end
  end.
Definition consolewrite (cin : Z → option Z) (n : Z) : M uart Z := consolewrite_loop cin (Z.to_nat n) 0.

(** The loop that erases a line. *)
Fixpoint kill_loop (fuel : nat) : M console unit :=
  s ← get;
  let c := cons s in
  if (negb (bool_decide (c_e c = c_w c)) && negb (bool_decide (at_ c (u32 (c_e c - 1)) = NL)))%bool then
    match fuel with
    | O => nofuel
    | S fuel =>
        set_cons (MkCons (c_buf c) (c_r c) (c_w c) (u32 (c_e c - 1)));;
        on_uart (consputc BACKSPACE);;
        kill_loop fuel
    end
  else mret tt.

(** The result says whether readers are woken. *)
Definition consoleintr (c : Z) : M console bool :=
  if bool_decide (c = CtrlP) then on_uart (consputs procdump);; mret false
  else if bool_decide (c = CtrlU) then kill_loop (Z.to_nat INPUT_BUF_SIZE);; mret false
  else if (bool_decide (c = CtrlH) || bool_decide (c = DEL))%bool then
    s ← get;
    (if negb (bool_decide (c_e (cons s) = c_w (cons s))) then
       set_cons (MkCons (c_buf (cons s)) (c_r (cons s)) (c_w (cons s)) (u32 (c_e (cons s) - 1)));;
       on_uart (consputc BACKSPACE)
     else mret tt);;
    mret false
  else
    s ← get;
    if (negb (bool_decide (c = 0)) && bool_decide (u32 (c_e (cons s) - c_r (cons s)) < INPUT_BUF_SIZE))%bool then
      let c := if bool_decide (c = CR) then NL else c in
      on_uart (consputc c);;
      let k := cons s in
      let k := MkCons (<[Z.to_nat (c_e k mod INPUT_BUF_SIZE) := c]> (c_buf k)) (c_r k) (c_w k) (u32 (c_e k + 1)) in
      let done := (bool_decide (c = NL) || bool_decide (c = CtrlD) ||
                   bool_decide (u32 (c_e k - c_r k) = INPUT_BUF_SIZE))%bool in
      set_cons (if done then MkCons (c_buf k) (c_r k) (c_e k) (c_e k) else k);;
      mret done
    else mret false.

(** The receive loop of [uartintr] over the characters the device has. *)
Fixpoint uartintr_loop (rx : list Z) (woke : bool) : M console bool :=
  match rx with
  | [] => mret woke
  | c :: rx => b ← consoleintr c; uartintr_loop rx (woke || b)
  end.
Definition uartintr (rx : list Z) : M console bool :=
  woke ← uartintr_loop rx false;
  on_uart (uartstart idle);;
  mret woke.

(** * The line discipline

    The console keeps finished lines and the line being edited. *)

Record acons := MkAcons { committed : list Z; editing : list Z }.

Fixpoint a_read (killed : bool) (cout : Z → Z → bool) (target : Z) (k : nat) (com : list Z) :
    rd_end * list Z * list Z :=
  match k with
  | O => (Return target, [], com)
  | S k' =>
      let n := Z.of_nat k in
      match com with
      | [] => (if killed then Return (-1) else Blocked n, [], [])
      | c :: com' =>
          if bool_decide (c = CtrlD) then (Return (target - n), [], if bool_decide (n < target) then com else com')
          else if negb (cout (target - n) c) then (Return (target - n), [], com')
          else if bool_decide (c = NL) then (Return (target - n + 1), [c], com')
          else let '(r, out, com2) := a_read killed cout target k' com' in (r, c :: out, com2)
      end
  end.

Definition rubout : list Z := [8; 32; 8].
(** A character typed: the new state, what is echoed, and whether a line is ready. *)
Definition a_intr (c : Z) (a : acons) : acons * list Z * bool :=
  if bool_decide (c = CtrlP) then (a, procdump, false)
  else if bool_decide (c = CtrlU) then (MkAcons (committed a) [], concat (replicate (length (editing a)) rubout), false)
  else if (bool_decide (c = CtrlH) || bool_decide (c = DEL))%bool then
    match editing a with
    | [] => (a, [], false)
    | _ => (MkAcons (committed a) (take (pred (length (editing a))) (editing a)), rubout, false)
    end
  else if (negb (bool_decide (c = 0)) &&
           bool_decide (Z.of_nat (length (committed a) + length (editing a)) < INPUT_BUF_SIZE))%bool then
    let c := if bool_decide (c = CR) then NL else c in
    let l := editing a ++ [c] in
    if (bool_decide (c = NL) || bool_decide (c = CtrlD) ||
        bool_decide (Z.of_nat (length (committed a) + length l) = INPUT_BUF_SIZE))%bool
    then (MkAcons (committed a ++ l) [], [c], true)
    else (MkAcons (committed a) l, [c], false)
  else (a, [], false).

(** ** Echoing *)

Hypothesis idle_soon : ∀ n, ∃ i, (i < spin)%nat ∧ idle (n + i)%nat = true.

(** The serial line after the characters [cs], nothing else changed. *)
Definition sent (u : uart) (cs : list Z) (u' : uart) : Prop :=
  uart_tx_buf u' = uart_tx_buf u ∧ uart_tx_w u' = uart_tx_w u ∧ uart_tx_r u' = uart_tx_r u ∧
  panicked u' = panicked u ∧ regs u' = regs u ∧ line u' = line u ++ cs.
Lemma sent_nil u : sent u [] u.
Proof. repeat split; try done. by rewrite app_nil_r. Qed.
Lemma sent_app u cs u1 cs' u2 : sent u cs u1 → sent u1 cs' u2 → sent u (cs ++ cs') u2.
Proof.
  intros (H1 & H2 & H3 & H4 & H5 & H6) (K1 & K2 & K3 & K4 & K5 & K6). repeat split; try congruence.
  by rewrite K6, H6, app_assoc.
Qed.

Lemma wait_idle_run fuel : ∀ u i,
  (i < fuel)%nat → idle (polls u + i)%nat = true → ∃ u', wait_idle idle fuel u = Ok tt u' ∧ sent u [] u'.
Proof.
  induction fuel as [|fuel IH]; intros u i Hi Hidle; [lia|]. cbn [wait_idle].
  unfold tx_idle, mbind, M_bind, get, put, mret, M_ret. destruct (idle (polls u)) eqn:E.
  - eexists. split; [done|]. apply (sent_nil u).
  - destruct i as [|i]; [rewrite Nat.add_0_r in Hidle; congruence|].
    destruct (IH (MkUart (uart_tx_buf u) (uart_tx_w u) (uart_tx_r u) (panicked u) (regs u) (line u) (S (polls u))) i)
      as (u' & Hrun & Hs); [lia|cbn; by replace (S (polls u + i)) with (polls u + S i)%nat by lia|]. by exists u'.
Qed.

Lemma sync_run u c : panicked u = false → is_u8 c → ∃ u', uartputc_sync idle spin c u = Ok tt u' ∧ sent u [c] u'.
Proof.
  intros Hp Hc. unfold uartputc_sync. erewrite bind_ok by reflexivity. cbv beta. rewrite Hp.
  destruct (idle_soon (polls u)) as (i & Hi & Hidle).
  destruct (wait_idle_run spin u i Hi Hidle) as (u1 & Hrun & (H1 & H2 & H3 & H4 & H5 & H6)).
  erewrite bind_ok by exact Hrun. eexists. split; [done|]. repeat split; cbn; try done. rewrite H6, app_nil_r, u8_id by done. done.
Qed.

Definition echo_of (c : Z) : list Z := if bool_decide (c = BACKSPACE) then rubout else [c].
Lemma consputc_run u c :
  panicked u = false → is_u8 c ∨ c = BACKSPACE → ∃ u', consputc c u = Ok tt u' ∧ sent u (echo_of c) u'.
Proof.
  intros Hp Hc. unfold consputc, echo_of. case_bool_decide as Hb.
  - destruct (sync_run u 8 Hp ltac:(done)) as (u1 & R1 & S1).
    destruct (sync_run u1 32) as (u2 & R2 & S2); [by destruct S1 as (_ & _ & _ & -> & _)|done|].
    destruct (sync_run u2 8) as (u3 & R3 & S3); [destruct S1 as (_ & _ & _ & E1 & _), S2 as (_ & _ & _ & E2 & _); congruence|done|].
    exists u3. erewrite bind_ok by exact R1. erewrite bind_ok by exact R2. split; [exact R3|].
    apply (sent_app u [8] u1 [32; 8]); [done|]. by apply (sent_app u1 [32] u2 [8]).
  - apply sync_run; [done|]. by destruct Hc.
Qed.
Lemma sent_panicked u cs u' : sent u cs u' → panicked u' = panicked u.
Proof. by intros (_ & _ & _ & -> & _). Qed.
Lemma consputs_run cs : ∀ u, panicked u = false → bytes cs → ∃ u', consputs cs u = Ok tt u' ∧ sent u cs u'.
Proof.
  induction cs as [|c cs IH]; intros u Hp Hb; [exists u; split; [done|apply sent_nil]|].
  apply Forall_cons in Hb as [Hc Hb]. destruct (consputc_run u c Hp (or_introl Hc)) as (u1 & R1 & S1).
  destruct (IH u1) as (u2 & R2 & S2); [by rewrite (sent_panicked _ _ _ S1)|done|].
  exists u2. cbn [consputs]. erewrite bind_ok by exact R1. split; [done|]. eapply (sent_app u [c]); [|done].
  unfold echo_of in S1. by rewrite bool_decide_false in S1 by (unfold BACKSPACE; wrap_lia).
Qed.

(** ** The input buffer *)

Definition nw (k : cons_t) : Z := u32 (c_w k - c_r k).
Definition ne (k : cons_t) : Z := u32 (c_e k - c_r k).
Definition abs (k : cons_t) : acons :=
  MkAcons (ring INPUT_BUF_SIZE (c_buf k) (c_r k) (nw k))
          (ring INPUT_BUF_SIZE (c_buf k) (c_r k + nw k) (ne k - nw k)).
Record cons_ok (k : cons_t) : Prop := {
  co_len : Z.of_nat (length (c_buf k)) = INPUT_BUF_SIZE;
  co_r : is_u32 (c_r k);
  co_w : is_u32 (c_w k);
  co_e : is_u32 (c_e k);
  co_order : nw k ≤ ne k ≤ INPUT_BUF_SIZE;
  co_line : NL ∉ editing (abs k);
}.

Lemma nw_range k : 0 ≤ nw k.
Proof. unfold nw. wrap_lia. Qed.
Lemma len_abs k : cons_ok k → Z.of_nat (length (committed (abs k))) = nw k ∧ Z.of_nat (length (editing (abs k))) = ne k - nw k.
Proof. intros Hk. pose proof (co_order _ Hk). pose proof (nw_range k). split; apply length_ring; lia. Qed.

(** Typing a character into a buffer with room. *)
Lemma type_char k c :
  cons_ok k → ne k < INPUT_BUF_SIZE →
  let k' := MkCons (<[Z.to_nat (c_e k mod INPUT_BUF_SIZE) := c]> (c_buf k)) (c_r k) (c_w k) (u32 (c_e k + 1)) in
  nw k' = nw k ∧ ne k' = ne k + 1 ∧ abs k' = MkAcons (committed (abs k)) (editing (abs k) ++ [c]).
Proof.
  intros Hk Hroom k'. pose proof Hk as [Hl Hr Hw He Ho _]. pose proof (nw_range k) as Hn.
  assert (Hne : ne k' = ne k + 1) by (unfold ne, INPUT_BUF_SIZE in *; cbn; wrap_lia).
  split; [done|]. split; [done|]. unfold abs. rewrite Hne. change (nw k') with (nw k). cbn [k' c_buf c_r committed editing].
  assert (Hix : c_e k mod INPUT_BUF_SIZE = (c_r k + ne k) mod INPUT_BUF_SIZE) by (unfold ne, INPUT_BUF_SIZE in *; wrap_lia).
  f_equal.
  - rewrite Hix. apply ring_insert_ne; [done| |unfold INPUT_BUF_SIZE; zlia]. intros j Hj. apply ring_slot; [done|lia|lia].
  - rewrite Hix. replace (c_r k + ne k) with (c_r k + nw k + (ne k - nw k)) by lia.
    replace (ne k + 1 - nw k) with (ne k - nw k + 1) by lia. apply ring_push; [done|done|lia].
Qed.

(** The line is finished. *)
Lemma commit_line k :
  nw k ≤ ne k → abs (MkCons (c_buf k) (c_r k) (c_e k) (c_e k)) = MkAcons (committed (abs k) ++ editing (abs k)) [].
Proof.
  intros Ho. pose proof (nw_range k) as Hn. unfold abs. cbn [committed editing].
  change (nw (MkCons _ _ (c_e k) _)) with (ne k). change (ne (MkCons _ _ (c_e k) _)) with (ne k). cbn [c_buf c_r].
  rewrite Z.sub_diag, ring_0. f_equal. rewrite <-ring_app by lia. f_equal. lia.
Qed.

(** One character of the unfinished line is erased. *)
Lemma erase_char k :
  cons_ok k → c_e k ≠ c_w k →
  let k' := MkCons (c_buf k) (c_r k) (c_w k) (u32 (c_e k - 1)) in
  cons_ok k' ∧ abs k' = MkAcons (committed (abs k)) (take (pred (length (editing (abs k)))) (editing (abs k))) ∧
  at_ k (u32 (c_e k - 1)) ≠ NL.
Proof.
  intros Hk Hew k'. pose proof Hk as [Hl Hr Hw He Ho Hnl]. pose proof (nw_range k) as Hn.
  assert (Hpos : nw k < ne k) by (unfold nw, ne in *; wrap_lia).
  assert (Hne : ne k' = ne k - 1) by (unfold ne in *; cbn; wrap_lia).
  destruct (len_abs k Hk) as [_ Hlen]. unfold abs in Hlen, Hnl. cbn [editing] in Hlen, Hnl.
  pose proof (ring_last INPUT_BUF_SIZE (c_buf k) (c_r k + nw k) (ne k - nw k) ltac:(lia)) as Hlast.
  assert (Hab : abs k' = MkAcons (committed (abs k)) (take (pred (length (editing (abs k)))) (editing (abs k)))).
  { unfold abs. rewrite Hne. change (nw k') with (nw k). cbn [k' c_buf c_r committed editing]. f_equal.
    rewrite Hlast. rewrite length_app, Nat.add_1_r. cbn [pred]. rewrite take_app_length. f_equal. lia. }
  split; [|split; [done|]].
  - split; [done|done|done|cbn; wrap_lia|rewrite Hne; change (nw k') with (nw k); lia|].
    rewrite Hab. cbn [editing]. unfold abs. cbn [editing]. intros Hin. apply Hnl.
    erewrite <-(take_drop _ (ring _ _ _ _)). apply elem_of_app. left. exact Hin.
  - intros Heq. apply Hnl. rewrite Hlast. apply elem_of_app. right. apply list_elem_of_singleton. rewrite <-Heq. unfold at_.
    do 2 f_equal. unfold nw, ne, INPUT_BUF_SIZE in *. wrap_lia.
Qed.

(** ** Interrupts and reads *)

Definition ok (s : console) : Prop := cons_ok (cons s) ∧ panicked (tx s) = false.

Lemma on_uart_run {A} (m : M uart A) s a u' : m (tx s) = Ok a u' → on_uart m s = Ok a (MkConsole (cons s) u').
Proof. intros H. unfold on_uart, zoom. by rewrite H. Qed.

Lemma rubout_run s : panicked (tx s) = false →
  ∃ u', on_uart (consputc BACKSPACE) s = Ok tt (MkConsole (cons s) u') ∧ sent (tx s) rubout u'.
Proof.
  intros Hp. destruct (consputc_run (tx s) BACKSPACE Hp (or_intror eq_refl)) as (u' & Hrun & Hs).
  exists u'. split; [by apply on_uart_run|exact Hs].
Qed.

Lemma kill_loop_run fuel : ∀ s,
  ok s → (length (editing (abs (cons s))) ≤ fuel)%nat →
  ∃ s', kill_loop fuel s = Ok tt s' ∧ ok s' ∧ abs (cons s') = MkAcons (committed (abs (cons s))) [] ∧
    sent (tx s) (concat (replicate (length (editing (abs (cons s)))) rubout)) (tx s').
Proof.
  induction fuel as [|fuel IH]; intros s [Hk Hp] Hf; pose proof (len_abs _ Hk) as [_ Hlen];
    pose proof Hk as [_ Hr Hw He Ho _]; cbn [kill_loop]; (erewrite bind_ok by reflexivity); cbv beta.
  all: case_bool_decide as Hew; cbn [negb andb].
  1,3: assert (Hz : length (editing (abs (cons s))) = 0%nat) by (unfold nw, ne in *; rewrite Hew in Hlen; lia);
    apply length_zero_iff_nil in Hz; exists s; split; [done|]; split; [done|]; rewrite Hz;
    split; [destruct (abs (cons s)); cbn in *; by rewrite Hz|apply sent_nil].
  - exfalso. assert (nw (cons s) < ne (cons s)) by (unfold nw, ne in *; wrap_lia). lia.
  - destruct (erase_char (cons s) Hk Hew) as (Hk1 & Hab1 & Hnl). rewrite bool_decide_false by done. cbn [negb].
    set (k1 := MkCons _ _ _ _) in *. erewrite bind_ok by reflexivity. cbv beta.
    destruct (rubout_run (MkConsole k1 (tx s)) Hp) as (u1 & Hrun & Hs1). erewrite bind_ok by exact Hrun. cbv beta.
    assert (Hlt : (0 < length (editing (abs (cons s))))%nat).
    { assert (nw (cons s) < ne (cons s)) by (unfold nw, ne in *; wrap_lia). lia. }
    destruct (IH (MkConsole k1 u1)) as (s' & Hrun2 & Hok' & Hab' & Hs').
    { split; [done|]. cbn. by rewrite (sent_panicked _ _ _ Hs1). }
    { cbn [cons]. rewrite Hab1. cbn [editing]. rewrite length_take. lia. }
    exists s'. split; [done|]. split; [done|]. cbn [cons tx] in *. rewrite Hab1 in Hab', Hs'. cbn [committed editing] in *.
    split; [done|]. rewrite length_take, Nat.min_l in Hs' by lia. eapply sent_app in Hs'; [|exact Hs1].
    destruct (length (editing (abs (cons s)))) as [|m]; [lia|]. exact Hs'.
Qed.

Lemma consoleintr_spec c s :
  ok s → is_u8 c → bytes procdump →
  ∃ s' woke, consoleintr c s = Ok woke s' ∧ ok s' ∧
    ∃ echo, a_intr c (abs (cons s)) = (abs (cons s'), echo, woke) ∧ sent (tx s) echo (tx s').
Proof.
  intros Hok Hc Hdump. pose proof Hok as [Hk Hp]. pose proof Hk as [Hl Hr Hw He Ho Hnl]. destruct (len_abs _ Hk) as [Hl1 Hl2].
  unfold consoleintr, a_intr. case_bool_decide as HP.
  { destruct (consputs_run procdump (tx s) Hp Hdump) as (u1 & Hrun & Hs).
    eexists _, false. erewrite bind_ok by (by apply on_uart_run). split; [done|].
    split; [split; [done|cbn; by rewrite (sent_panicked _ _ _ Hs)]|]. by exists procdump. }
  case_bool_decide as HU.
  { destruct (kill_loop_run (Z.to_nat INPUT_BUF_SIZE) s Hok) as (s' & Hrun & Hok' & Hab & Hs).
    { unfold INPUT_BUF_SIZE in *. pose proof (nw_range (cons s)). lia. }
    exists s', false. erewrite bind_ok by exact Hrun. split; [done|]. split; [done|]. rewrite Hab. eauto. }
  destruct (bool_decide (c = CtrlH) || bool_decide (c = DEL))%bool.
  { erewrite bind_ok by reflexivity. cbv beta. case_bool_decide as Hew; cbn [negb].
    - exists s, false. split; [done|]. split; [done|]. exists [].
      assert (Hz : length (editing (abs (cons s))) = 0%nat) by (unfold nw, ne in *; rewrite Hew in Hl2; lia).
      apply length_zero_iff_nil in Hz. rewrite Hz. split; [done|apply sent_nil].
    - destruct (erase_char (cons s) Hk Hew) as (Hk1 & Hab1 & _). set (k1 := MkCons _ _ _ _) in *.
      destruct (rubout_run (MkConsole k1 (tx s)) Hp) as (u1 & Hrun & Hs1).
      eexists _, false. erewrite bind_ok by (erewrite bind_ok by reflexivity; exact Hrun). split; [done|].
      split; [split; [done|cbn; by rewrite (sent_panicked _ _ _ Hs1)]|]. exists rubout. cbn [cons tx]. split; [|done]. rewrite Hab1.
      destruct (editing (abs (cons s))) eqn:E; [|done].
      assert (nw (cons s) < ne (cons s)) by (unfold nw, ne in *; wrap_lia). cbn in Hl2. lia. }
  erewrite bind_ok by reflexivity. cbv beta.
  assert (Hcond : bool_decide (u32 (c_e (cons s) - c_r (cons s)) < INPUT_BUF_SIZE) =
    bool_decide (Z.of_nat (length (committed (abs (cons s))) + length (editing (abs (cons s)))) < INPUT_BUF_SIZE)).
  { apply bool_decide_ext. fold (ne (cons s)). lia. }
  rewrite Hcond. destruct (bool_decide (c = 0)); cbn [negb andb]; [exists s, false; split; [done|]; split; [done|]; exists []; split; [done|apply sent_nil]|].
  destruct (bool_decide (Z.of_nat (_ + _) < _)) eqn:Hroom; [apply bool_decide_eq_true in Hroom|exists s, false; split; [done|]; split; [done|]; exists []; split; [done|apply sent_nil]].
  set (d := if bool_decide (c = CR) then NL else c). assert (Hd : is_u8 d) by (unfold d; by destruct (bool_decide (c = CR))).
  destruct (consputc_run (tx s) d Hp (or_introl Hd)) as (u1 & Hrun & Hs1).
  unfold echo_of in Hs1. rewrite bool_decide_false in Hs1 by (unfold BACKSPACE; wrap_lia).
  erewrite bind_ok by (by apply on_uart_run). cbv beta zeta.
  destruct (type_char (cons s) d Hk ltac:(lia)) as (Hnw & Hne & Hab). set (k1 := MkCons (<[_ := d]> _) _ _ _) in *.
  assert (Hfull : bool_decide (u32 (c_e k1 - c_r k1) = INPUT_BUF_SIZE) =
    bool_decide (Z.of_nat (length (committed (abs (cons s))) + length (editing (abs (cons s)) ++ [d])) = INPUT_BUF_SIZE)).
  { apply bool_decide_ext. fold (ne k1). rewrite Hne, length_app. cbn [length]. lia. }
  rewrite Hfull. set (fin := (_ || _)%bool).
  erewrite bind_ok by reflexivity. eexists _, fin. split; [done|]. cbn [cons tx].
  assert (Hp1 : panicked u1 = false) by (by rewrite (sent_panicked _ _ _ Hs1)).
  assert (Hlen1 : Z.of_nat (length (c_buf k1)) = INPUT_BUF_SIZE) by (cbn; by rewrite length_insert).
  assert (He1 : is_u32 (c_e k1)) by (cbn; wrap_lia).
  destruct fin eqn:Hfin.
  - assert (Hcm : abs (MkCons (c_buf k1) (c_r k1) (c_e k1) (c_e k1)) = MkAcons (committed (abs (cons s)) ++ editing (abs (cons s)) ++ [d]) []).
    { rewrite commit_line by (rewrite Hnw, Hne; lia). by rewrite Hab. }
    cbv iota. split; [split; [|done]|exists [d]; by rewrite Hcm].
    cbn [cons]. split; [done|done|done|done| |rewrite Hcm; apply not_elem_of_nil].
    change (nw (MkCons _ _ (c_e k1) _)) with (ne k1). change (ne (MkCons _ _ _ (c_e k1))) with (ne k1). rewrite Hne. lia.
  - cbv iota. split; [split; [|done]|exists [d]; by rewrite Hab].
    cbn [cons]. split; [done|done|done|done|rewrite Hnw, Hne; lia|]. rewrite Hab. cbn [editing].
    apply orb_false_iff in Hfin as [[Hfin _]%orb_false_iff _]. apply bool_decide_eq_false in Hfin.
    rewrite not_elem_of_app, list_elem_of_singleton. split; [done|congruence].
Qed.

Lemma consoleread_loop_spec killed cout target k : ∀ c,
  cons_ok c →
  ∃ r out c', consoleread_loop killed cout target k c = (r, out, c') ∧ cons_ok c' ∧
    editing (abs c') = editing (abs c) ∧ a_read killed cout target k (committed (abs c)) = (r, out, committed (abs c')).
Proof.
  induction k as [|k IH]; intros c Hk; cbn [consoleread_loop a_read]; [by eexists _, _, c|].
  pose proof Hk as [Hl Hr Hw He Ho Hnl]. pose proof (nw_range c) as Hn. case_bool_decide as Hrw.
  { assert (Hz : nw c = 0) by (unfold nw; rewrite Hrw, Z.sub_diag; done).
    eexists _, _, c. split; [done|]. split; [done|]. split; [done|]. unfold abs. rewrite Hz, ring_0. done. }
  assert (Hpos : 0 < nw c) by (unfold nw in *; wrap_lia).
  set (c1 := MkCons (c_buf c) (u32 (c_r c + 1)) (c_w c) (c_e c)).
  assert (Hnw : nw c1 = nw c - 1) by (unfold nw in *; cbn; wrap_lia).
  assert (Hne : ne c1 = ne c - 1) by (unfold nw, ne in *; cbn; wrap_lia).
  assert (Hmod : ∀ i, (u32 (c_r c + 1) + i) mod INPUT_BUF_SIZE = (c_r c + 1 + i) mod INPUT_BUF_SIZE) by (unfold INPUT_BUF_SIZE; intros; wrap_lia).
  assert (Hcom : committed (abs c) = at_ c (c_r c) :: committed (abs c1)).
  { unfold abs. cbn [committed]. rewrite ring_pop, Hnw by lia. f_equal. cbn. apply ring_mod; [done|].
    rewrite <-(Z.add_0_r (u32 _)), Hmod. f_equal. lia. }
  assert (Hed : editing (abs c1) = editing (abs c)).
  { unfold abs. cbn [editing]. rewrite Hnw, Hne. replace (ne c - 1 - (nw c - 1)) with (ne c - nw c) by lia. cbn. apply ring_mod; [done|].
    rewrite Hmod. f_equal. lia. }
  assert (Hk1 : cons_ok c1).
  { split; [done|cbn; wrap_lia|done|done|rewrite Hnw, Hne; lia|by rewrite Hed]. }
  rewrite Hcom. fold c1. case_bool_decide as HD.
  { case_bool_decide as Hlt; [|by eexists _, _, c1].
    assert (Hback : MkCons (c_buf c1) (u32 (c_r c1 - 1)) (c_w c1) (c_e c1) = c).
    { destruct c as [b r w e]. cbn in *. f_equal. wrap_lia. }
    rewrite Hback. eexists _, _, c. split; [done|]. split; [done|]. split; [done|]. by rewrite Hcom. }
  destruct (cout (target - Z.of_nat (S k)) (at_ c (c_r c))); cbn [negb]; [|by eexists _, _, c1].
  case_bool_decide; [by eexists _, _, c1|].
  destruct (IH c1 Hk1) as (r & out & c2 & Hrun & Hk2 & Hed2 & Ha). rewrite Hrun, Ha. eexists _, _, c2.
  split; [done|]. split; [done|]. split; [congruence|done].
Qed.

(** ** Sessions *)

(** What happens at the console: a character is typed, or a process reads. *)
Inductive cevent :=
  | CType (c : Z)
  | CRead (killed : bool) (cout : Z → Z → bool) (target n : Z).
Inductive cresult := RType (woke : bool) | RRead (r : rd_end) (out : list Z).

Definition cstep (e : cevent) (s : console) : option (cresult * console) :=
  match e with
  | CType c => match consoleintr c s with Ok w s' => Some (RType w, s') | _ => None end
  | CRead killed cout target n =>
      match consoleread killed cout target n s with Ok (r, out) s' => Some (RRead r out, s') | _ => None end
  end.
Definition astep (e : cevent) (a : acons) : cresult * list Z * acons :=
  match e with
  | CType c => let '(a', echo, w) := a_intr c a in (RType w, echo, a')
  | CRead killed cout target n =>
      let '(r, out, com) := a_read killed cout target (Z.to_nat n) (committed a) in
      (RRead r out, [], MkAcons com (editing a))
  end.
Fixpoint csession (es : list cevent) (s : console) : option (list cresult * console) :=
  match es with
  | [] => Some ([], s)
  | e :: es => rs ← cstep e s; rest ← csession es rs.2; Some (rs.1 :: rest.1, rest.2)
  end.
Fixpoint asession (es : list cevent) (a : acons) : list cresult * list Z * acons :=
  match es with
  | [] => ([], [], a)
  | e :: es =>
      let '(r, echo, a) := astep e a in
      let '(rs, echo', a) := asession es a in (r :: rs, echo ++ echo', a)
  end.
Definition event_ok (e : cevent) : Prop := match e with CType c => is_u8 c | _ => True end.

Lemma cstep_spec e s :
  ok s → event_ok e → bytes procdump →
  ∃ r s' echo, cstep e s = Some (r, s') ∧ ok s' ∧ astep e (abs (cons s)) = (r, echo, abs (cons s')) ∧ sent (tx s) echo (tx s').
Proof.
  intros Hok He Hd. destruct e as [c|killed cout target n]; cbn [cstep astep].
  - destruct (consoleintr_spec c s Hok He Hd) as (s' & w & -> & Hok' & echo & -> & Hs). eauto 10.
  - pose proof Hok as [Hk Hp]. destruct (consoleread_loop_spec killed cout target (Z.to_nat n) (cons s) Hk) as (r & out & c' & Hrun & Hk' & Hed & ->).
    unfold consoleread. erewrite bind_ok by reflexivity. cbv beta. rewrite Hrun. erewrite bind_ok by reflexivity.
    eexists _, _, []. split; [done|]. split; [done|]. split; [|apply sent_nil]. cbn [cons]. rewrite <-Hed. by destruct (abs c').
Qed.

(** C30: The console is a line editor over a queue of finished lines: for every
    sequence of typed characters and reads, each read gets what the line
    discipline says, readers are woken exactly when a line is finished, and the
    echo on the serial line is the one the discipline prescribes. *)
Theorem console_refines es s :
  ok s → Forall event_ok es → bytes procdump →
  ∃ rs s' echo, csession es s = Some (rs, s') ∧ asession es (abs (cons s)) = (rs, echo, abs (cons s')) ∧
    sent (tx s) echo (tx s') ∧ ok s'.
Proof.
  revert s. induction es as [|e es IH]; intros s Hok Hes Hd.
  { exists [], s, []. split; [done|]. split; [done|]. split; [apply sent_nil|done]. }
  apply Forall_cons in Hes as [He Hes]. destruct (cstep_spec e s Hok He Hd) as (r & s1 & echo & Hc & Hok1 & Ha & Hs).
  destruct (IH s1 Hok1 Hes Hd) as (rs & s' & echo' & Hc' & Ha' & Hs' & Hok').
  exists (r :: rs), s', (echo ++ echo'). cbn [csession asession]. rewrite Hc, Ha. cbn. rewrite Hc', Ha'. cbn.
  split; [done|]. split; [done|]. split; [by eapply sent_app|done].
Qed.
End console.

(** A session: "ab", rub out, "c", return; then a read of up to 10 bytes. *)
Definition console0 : console := MkConsole (MkCons (replicate 128 0) 0 0 0) uart0.
Lemma console_refines_witness :
  ∃ rs s' echo, csession (λ n, Nat.odd n) 2 [] [CType 97; CType 98; CType DEL; CType 99; CType CR; CRead false (λ _ _, true) 10 10] console0 =
      Some (rs, s') ∧
    asession [] [CType 97; CType 98; CType DEL; CType 99; CType CR; CRead false (λ _ _, true) 10 10] (MkAcons [] []) = (rs, echo, abs (cons s')) ∧
    sent uart0 echo (tx s') ∧ ok s'.
Proof.
  apply (console_refines (λ n, Nat.odd n) 2 []
    ltac:(intros n; destruct (Nat.odd n) eqn:E; [exists 0%nat|exists 1%nat]; split; [lia|rewrite Nat.add_0_r; done|lia|rewrite Nat.add_1_r, Nat.odd_succ, <-Nat.negb_odd, E; done])
    [CType 97; CType 98; CType DEL; CType 99; CType CR; CRead false (λ _ _, true) 10 10] console0).
  - split; [|done]. split; [done|done|done|done|by vm_compute|apply not_elem_of_nil].
  - repeat (apply Forall_cons; split; [done|]). by apply Forall_nil.
  - by apply Forall_nil.
Defined.
End Console.
