(* ===== verification/Printf.v ===== *)
(** Formatted output: [kernel/printf.c] and [user/printf.c].

    A format is the list of its characters before the terminator.  The variable
    arguments are a list of 64-bit words and strings. *)

From stdpp Require Import strings.
From S2P Require Import Prelude CString Ring Console.
Import Str Uart Console.

Local Open Scope Z_scope.

Module Printf.

(** The value of a 64-bit word as a [long long]. *)
Definition s64 (z : Z) : Z := (z + 2 ^ 63) mod 2 ^ 64 - 2 ^ 63.

Definition digits : list Z := chars "0123456789abcdef".
Definition udigits : list Z := chars "0123456789ABCDEF".
Definition MINUS : Z := 45.
Definition PERCENT : Z := 37.
Definition BUFLEN : nat := 16.

(** The conversion loop [do { buf[i++] = digits[x % base]; } while((x /= base) != 0);]
    on [char buf[16]]. *)
Fixpoint digits_loop {S} (tab : list Z) (base : Z) (fuel : nat) (x : Z) (buf : list Z) : M S (list Z) :=
  match fuel with
  | O => nofuel
  | Datatypes.S fuel =>
      if bool_decide (BUFLEN ≤ length buf)%nat then undef else
      let buf := buf ++ [tab !!! Z.to_nat (x mod base)] in
      let x := x / base in
      if bool_decide (x = 0) then mret buf else digits_loop tab base fuel x buf
  end.
(** [buf[i++] = '-']. *)
Definition put_minus {S} (neg : bool) (buf : list Z) : M S (list Z) :=
  if neg then if bool_decide (BUFLEN ≤ length buf)%nat then undef else mret (buf ++ [MINUS]) else mret buf.

(** A variable argument. *)
Inductive va := VWord (z : Z) | VStr (s : option (list Z)).
Definition va_arg {S} (ap : list va) : M S Z :=
  match ap with VWord z :: _ => mret z | _ => undef end.
Definition va_str {S} (ap : list va) : M S (option (list Z)) :=
  match ap with VStr s :: _ => mret s | _ => undef end.

Definition skip1 (l : list Z) : list Z := match l with [] => l | _ :: l' => l' end.
(** [fmt[i]], 0 at the end. *)
Definition first0 (l : list Z) : Z := default 0 (head l).

Definition is_l (a b : Z) (c0 c1 : Z) : bool := (bool_decide (c0 = a) && bool_decide (c1 = b))%bool.
Definition is_ll (a : Z) (c0 c1 c2 : Z) : bool :=
  (bool_decide (c0 = 108) && bool_decide (c1 = 108) && bool_decide (c2 = a))%bool.

(** ** The kernel's printf *)
Section kernel.
Context (idle : nat → bool) (spin : nat).
Notation consputc := (Console.consputc idle spin).
Notation consputs := (Console.consputs idle spin).

(** [printint] of a [long long]; negating the least one overflows. *)
Definition printint (xx base : Z) (sign : bool) : M uart unit :=
  let neg := (sign && bool_decide (xx < 0))%bool in
  if (neg && bool_decide (xx = - 2 ^ 63))%bool then undef else
  let x := if neg then - xx else u64 xx in
  buf ← digits_loop digits base 64 x [];
  buf ← put_minus neg buf;
  consputs (rev buf).

Fixpoint printptr_loop (n : nat) (x : Z) : M uart unit :=
  match n with
  | O => mret tt
  | S n => consputc (digits !!! Z.to_nat (Z.shiftr x 60));; printptr_loop n (u64 (Z.shiftl x 4))
  end.
Definition printptr (x : Z) : M uart unit :=
  consputc 48;; consputc 120;; printptr_loop 16 x.

Fixpoint printf_loop (fmt : list Z) (ap : list va) : M uart unit :=
  match fmt with
  | [] => mret tt
  | cx :: f1 =>
      if negb (bool_decide (cx = PERCENT)) then consputc cx;; printf_loop f1 ap else
      match f1 with
      | [] => mret tt
      | c0 :: f2 =>
          let c1 := first0 f2 in
          let c2 := if bool_decide (c1 = 0) then 0 else first0 (skip1 f2) in
          if bool_decide (c0 = 100) then z ← va_arg ap; printint (s32 z) 10 true;; printf_loop f2 (tail ap)
          else if is_l 108 100 c0 c1 then z ← va_arg ap; printint (s64 z) 10 true;; printf_loop (skip1 f2) (tail ap)
          else if is_ll 100 c0 c1 c2 then z ← va_arg ap; printint (s64 z) 10 true;; printf_loop (skip1 (skip1 f2)) (tail ap)
          else if bool_decide (c0 = 117) then z ← va_arg ap; printint (s32 z) 10 false;; printf_loop f2 (tail ap)
          else if is_l 108 117 c0 c1 then z ← va_arg ap; printint (s64 z) 10 false;; printf_loop (skip1 f2) (tail ap)
          else if is_ll 117 c0 c1 c2 then z ← va_arg ap; printint (s64 z) 10 false;; printf_loop (skip1 (skip1 f2)) (tail ap)
          else if bool_decide (c0 = 120) then z ← va_arg ap; printint (s32 z) 16 false;; printf_loop f2 (tail ap)
          else if is_l 108 120 c0 c1 then z ← va_arg ap; printint (s64 z) 16 false;; printf_loop (skip1 f2) (tail ap)
          else if is_ll 120 c0 c1 c2 then z ← va_arg ap; printint (s64 z) 16 false;; printf_loop (skip1 (skip1 f2)) (tail ap)
          else if bool_decide (c0 = 112) then z ← va_arg ap; printptr (u64 z);; printf_loop f2 (tail ap)
          else if bool_decide (c0 = 115) then
            s ← va_str ap; consputs (default (chars "(null)") s);; printf_loop f2 (tail ap)
          else if bool_decide (c0 = PERCENT) then consputc PERCENT;; printf_loop f2 ap
          else consputc PERCENT;; consputc c0;; printf_loop f2 ap
      end
  end.
(** [printf]; the console lock makes the call atomic. *)
Definition printf (fmt : list Z) (ap : list va) : M uart Z := printf_loop fmt ap;; mret 0.

(** [panic]: the message, then nothing more from any processor. *)
Definition panic_ (s : list Z) : M uart unit :=
  printf (chars "panic: ") [];;
  printf (chars "%s" ++ [10]) [VStr (Some s)];;
  modify (λ u, MkUart (uart_tx_buf u) (uart_tx_w u) (uart_tx_r u) true (regs u) (line u) (polls u));;
  nofuel.
End kernel.

(** ** The user library's printf *)

(** [putc(fd, c)] writes one byte to the file; the state is what was written. *)
Definition putc (c : Z) : M (list Z) unit := modify (λ o, o ++ [u8 c]).
Fixpoint putcs (cs : list Z) : M (list Z) unit :=
  match cs with [] => mret tt | c :: cs => putc c;; putcs cs end.

(** [printint] of an [int]. *)
Definition uprintint (xx base : Z) (sgn : bool) : M (list Z) unit :=
  let neg := (sgn && bool_decide (xx < 0))%bool in
  if (neg && bool_decide (xx = - 2 ^ 31))%bool then undef else
  let x := if neg then - xx else u32 xx in
  buf ← digits_loop udigits base 32 x [];
  buf ← put_minus neg buf;
  putcs (rev buf).
Fixpoint uprintptr_loop (n : nat) (x : Z) : M (list Z) unit :=
  match n with
  | O => mret tt
  | S n => putc (udigits !!! Z.to_nat (Z.shiftr x 60));; uprintptr_loop n (u64 (Z.shiftl x 4))
  end.
Definition uprintptr (x : Z) : M (list Z) unit := putc 48;; putc 120;; uprintptr_loop 16 x.

(** [vprintf]; [state] says whether the last character was a percent sign.  The
    64-bit arguments are converted to [printint]'s [int]. *)
Fixpoint vprintf (fmt : list Z) (ap : list va) : M (list Z) unit :=
  match fmt with
  | [] => mret tt
  | cx :: f1 =>
      if negb (bool_decide (cx = PERCENT)) then putc cx;; vprintf f1 ap else
      match f1 with
      | [] => mret tt
      | c0 :: f2 =>
          let c1 := first0 f2 in
          let c2 := if bool_decide (c1 = 0) then 0 else first0 (skip1 f2) in
          if bool_decide (c0 = 100) then z ← va_arg ap; uprintint (s32 z) 10 true;; vprintf f2 (tail ap)
          else if is_l 108 100 c0 c1 then z ← va_arg ap; uprintint (s32 z) 10 true;; vprintf (skip1 f2) (tail ap)
          else if is_ll 100 c0 c1 c2 then z ← va_arg ap; uprintint (s32 z) 10 true;; vprintf (skip1 (skip1 f2)) (tail ap)
          else if bool_decide (c0 = 117) then z ← va_arg ap; uprintint (s32 z) 10 false;; vprintf f2 (tail ap)
          else if is_l 108 117 c0 c1 then z ← va_arg ap; uprintint (s32 z) 10 false;; vprintf (skip1 f2) (tail ap)
          else if is_ll 117 c0 c1 c2 then z ← va_arg ap; uprintint (s32 z) 10 false;; vprintf (skip1 (skip1 f2)) (tail ap)
          else if bool_decide (c0 = 120) then z ← va_arg ap; uprintint (s32 z) 16 false;; vprintf f2 (tail ap)
          else if is_l 108 120 c0 c1 then z ← va_arg ap; uprintint (s32 z) 16 false;; vprintf (skip1 f2) (tail ap)
          else if is_ll 120 c0 c1 c2 then z ← va_arg ap; uprintint (s32 z) 16 false;; vprintf (skip1 (skip1 f2)) (tail ap)
          else if bool_decide (c0 = 112) then z ← va_arg ap; uprintptr (u64 z);; vprintf f2 (tail ap)
          else if bool_decide (c0 = 115) then
            s ← va_str ap; putcs (default (chars "(null)") s);; vprintf f2 (tail ap)
          else if bool_decide (c0 = PERCENT) then putc PERCENT;; vprintf f2 ap
          else putc PERCENT;; putc c0;; vprintf f2 ap
      end
  end.

(** * Positional notation *)

(** The digits of [x], least significant first. *)
Fixpoint dlist (base : Z) (fuel : nat) (x : Z) : list Z :=
  match fuel with
  | O => []
  | S fuel => x mod base :: if bool_decide (x / base = 0) then [] else dlist base fuel (x / base)
  end.
(** The number that digits stand for. *)
Fixpoint value (base : Z) (ds : list Z) : Z :=
  match ds with [] => 0 | d :: ds => d + base * value base ds end.
(** Digits without a leading zero, but for the number 0 itself. *)
Definition canonical (ds : list Z) : Prop := ds = [0] ∨ ∃ d, last ds = Some d ∧ d ≠ 0.

Section dlist.
Context (base : Z) (Hbase : 1 < base).

Lemma dlist_spec fuel x :
  0 ≤ x < base ^ Z.of_nat fuel → (0 < fuel)%nat →
  value base (dlist base fuel x) = x ∧ canonical (dlist base fuel x) ∧ Forall (λ d, 0 ≤ d < base) (dlist base fuel x).
Proof.
  revert x. induction fuel as [|fuel IH]; intros x Hx Hf; [lia|]. cbn [dlist].
  pose proof (Z.mod_pos_bound x base ltac:(lia)) as Hm. pose proof (Z.div_mod x base ltac:(lia)) as Hdm.
  case_bool_decide as Hz.
  - cbn. split; [lia|]. split; [|by apply Forall_singleton]. destruct (decide (x = 0)) as [->|Hne]; [left; by rewrite Z.mod_0_l by lia|].
    right. exists (x mod base). split; [done|lia].
  - assert (Hq : 0 < x / base) by (pose proof (Z.div_pos x base); lia).
    assert (Hlt : x / base < base ^ Z.of_nat fuel).
    { apply Z.div_lt_upper_bound; [lia|]. rewrite Nat2Z.inj_succ, Z.pow_succ_r in Hx by lia. lia. }
    assert (Hf' : (0 < fuel)%nat) by (destruct fuel; [cbn in Hlt; lia|lia]).
    destruct (IH (x / base)) as (Hv & Hc & Hd); [lia|done|]. cbn [value]. rewrite Hv. split; [lia|]. split; [|by apply Forall_cons].
    right. destruct Hc as [Hc|(d & Hc & Hd0)].
    + rewrite Hc in Hv. cbn in Hv. lia.
    + exists d. split; [|done]. rewrite last_cons, Hc. done.
Qed.

(** The number of digits. *)
Lemma dlist_length fuel x m :
  0 ≤ x < base ^ Z.of_nat fuel → (0 < fuel)%nat → (0 < m)%nat →
  (length (dlist base fuel x) ≤ m)%nat ↔ x < base ^ Z.of_nat m.
Proof.
  revert x m. induction fuel as [|fuel IH]; intros x m Hx Hf Hm; [lia|]. cbn [dlist].
  pose proof (Z.mod_pos_bound x base ltac:(lia)) as Hmod. pose proof (Z.div_mod x base ltac:(lia)) as Hdm.
  destruct m as [|m]; [lia|]. rewrite (Nat2Z.inj_succ m), Z.pow_succ_r by lia. pose proof (Z.pow_pos_nonneg base (Z.of_nat m) ltac:(lia) ltac:(lia)) as Hpow.
  case_bool_decide as Hz.
  - cbn. split; [intros _; nia|intros _; lia].
  - assert (Hq : 0 < x / base) by (pose proof (Z.div_pos x base); lia).
    assert (Hlt : x / base < base ^ Z.of_nat fuel).
    { apply Z.div_lt_upper_bound; [lia|]. rewrite Nat2Z.inj_succ, Z.pow_succ_r in Hx by lia. lia. }
    assert (Hf' : (0 < fuel)%nat) by (destruct fuel; [cbn in Hlt; lia|lia]).
    destruct (decide (m = 0%nat)) as [->|Hm0].
    + cbn. split; [|nia]. intros Hle. destruct fuel as [|f]; [lia|]. cbn in Hle. lia.
    + cbn [length]. rewrite <-Nat.succ_le_mono, IH by lia. split; intros H; [nia|].
      apply Z.div_lt_upper_bound; lia.
Qed.

Lemma digits_loop_run {S} tab fuel : ∀ x buf (s : S),
  0 ≤ x < base ^ Z.of_nat fuel → (0 < fuel)%nat →
  digits_loop tab base fuel x buf s =
  if bool_decide (length buf + length (dlist base fuel x) ≤ BUFLEN)%nat
  then Ok (buf ++ ((λ d, tab !!! Z.to_nat d) <$> dlist base fuel x)) s else Undef.
Proof.
  induction fuel as [|fuel IH]; intros x buf s Hx Hf; [lia|]. cbn [digits_loop dlist].
  case_bool_decide as Hfull.
  { cbn [length]. by rewrite bool_decide_false by lia. }
  pose proof (Z.div_mod x base ltac:(lia)) as Hdm. case_bool_decide as Hz.
  { cbn [length]. rewrite bool_decide_true by lia. done. }
  assert (Hq : 0 < x / base) by (pose proof (Z.div_pos x base); lia).
  assert (Hlt : x / base < base ^ Z.of_nat fuel).
  { apply Z.div_lt_upper_bound; [lia|]. rewrite Nat2Z.inj_succ, Z.pow_succ_r in Hx by lia. lia. }
  assert (Hf' : (0 < fuel)%nat) by (destruct fuel; [cbn in Hlt; lia|lia]).
  rewrite IH by lia. rewrite length_app. cbn [length]. rewrite <-app_assoc. cbn [app fmap list_fmap].
  rewrite (bool_decide_ext _ (length buf + Datatypes.S (length (dlist base fuel (x / base))) ≤ BUFLEN)%nat) by lia. done.
Qed.
End dlist.

(** * What is printed *)

(** The characters of the number with digits [ds], after its sign. *)
Definition shown (tab : list Z) (neg : bool) (ds : list Z) : list Z :=
  (if neg then [MINUS] else []) ++ rev ((λ d, tab !!! Z.to_nat d) <$> ds).

(** Both conversions of [x], with its sign, into the 16-byte buffer. *)
Lemma convert_run {S} tab base fuel x neg (s : S) :
  1 < base → 0 ≤ x < base ^ Z.of_nat fuel → (0 < fuel)%nat →
  (buf ← digits_loop tab base fuel x []; put_minus neg buf) s =
  if bool_decide (x < base ^ (if neg then 15 else 16))
  then Ok (rev (shown tab neg (dlist base fuel x))) s else Undef.
Proof.
  intros Hb Hx Hf. unfold mbind, M_bind. rewrite digits_loop_run by done. cbn [length app Nat.add].
  assert (Hlen : ∀ m, (0 < m)%nat → bool_decide (length (dlist base fuel x) ≤ m)%nat = bool_decide (x < base ^ Z.of_nat m)).
  { intros m Hm. apply bool_decide_ext. by apply dlist_length. }
  unfold shown. rewrite rev_app_distr, rev_involutive. rewrite (Hlen BUFLEN) by (unfold BUFLEN; lia).
  change (Z.of_nat BUFLEN) with 16. destruct neg; cbn [rev app put_minus].
  - assert (Hpow : base ^ 16 = base * base ^ 15) by (rewrite <-Z.pow_succ_r by lia; done).
    pose proof (Z.pow_pos_nonneg base 15 ltac:(lia) ltac:(lia)).
    case_bool_decide as H16.
    + unfold put_minus. rewrite length_fmap.
      replace (bool_decide (BUFLEN ≤ length (dlist base fuel x))%nat) with (negb (bool_decide (length (dlist base fuel x) ≤ 15)%nat)).
      2:{ rewrite <-bool_decide_not. apply bool_decide_ext. unfold BUFLEN. lia. }
      rewrite Hlen by lia. change (Z.of_nat 15) with 15. by case_bool_decide.
    + rewrite bool_decide_false by nia. done.
  - rewrite app_nil_r. by case_bool_decide.
Qed.

Lemma shown_bytes tab neg ds : bytes tab → bytes (shown tab neg ds).
Proof.
  intros Ht. unfold shown, bytes. apply Forall_app. split; [destruct neg; [by apply Forall_singleton|by apply Forall_nil]|].
  apply Forall_rev, Forall_fmap, Forall_forall. intros d _. cbn. by apply bytes_lookup_total.
Qed.
Lemma digits_bytes : bytes digits.
Proof. by apply (bool_decide_unpack _). Qed.
Lemma udigits_bytes : bytes udigits.
Proof. by apply (bool_decide_unpack _). Qed.

Lemma bind_bind {S A B C} (m : M S A) (g : A → M S B) (f : B → M S C) s :
  (a ← m; b ← g a; f b) s = (b ← (a ← m; g a); f b) s.
Proof. unfold mbind, M_bind. by destruct (m s). Qed.

Section kernel_spec.
Context (idle : nat → bool) (spin : nat).
Hypothesis idle_soon : ∀ n, ∃ i, (i < spin)%nat ∧ idle (n + i)%nat = true.

(** The number [printint] converts. *)
Definition magnitude (xx : Z) (sign : bool) : Z := if (sign && bool_decide (xx < 0))%bool then - xx else u64 xx.
Definition negative (xx : Z) (sign : bool) : bool := (sign && bool_decide (xx < 0))%bool.

Lemma printint_run xx base sign u :
  panicked u = false → - 2 ^ 63 < xx < 2 ^ 63 → 2 ≤ base →
  if bool_decide (magnitude xx sign < base ^ (if negative xx sign then 15 else 16))
  then ∃ u', printint idle spin xx base sign u = Ok tt u' ∧
         sent u (shown digits (negative xx sign) (dlist base 64 (magnitude xx sign))) u'
  else printint idle spin xx base sign u = Undef.
Proof.
  intros Hp Hxx Hb. unfold printint. fold (negative xx sign). fold (magnitude xx sign).
  rewrite (bool_decide_false (xx = _)) by lia. rewrite andb_false_r.
  assert (Hm : 0 ≤ magnitude xx sign < base ^ Z.of_nat 64).
  { assert (2 ^ 64 ≤ base ^ Z.of_nat 64) by (apply Z.pow_le_mono_l; lia).
    unfold magnitude. destruct sign; cbn [andb]; [case_bool_decide|]; try wrap_lia; try lia. }
  rewrite bind_bind.
  pose proof (convert_run digits base 64 (magnitude xx sign) (negative xx sign) u ltac:(lia) Hm ltac:(lia)) as Hc.
  case_bool_decide.
  - erewrite bind_ok by exact Hc. rewrite rev_involutive. apply consputs_run; [done|done|]. apply shown_bytes, digits_bytes.
  - set (m := (_ ≫= _)) in *. unfold mbind, M_bind at 1. unfold M_bind. by rewrite Hc.
Qed.

(** The kernel's [printint] prints the canonical numeral of its argument exactly
    when it fits in 16 characters, sign included; for a larger number it writes past
    the end of its buffer. *)
Theorem printint_bounds xx base sign u :
  panicked u = false → - 2 ^ 63 < xx < 2 ^ 63 → base = 10 ∨ base = 16 →
  let neg := negative xx sign in
  let x := magnitude xx sign in
  let room := if neg then 15 else 16 in
  (x < base ^ room → ∃ ds u', printint idle spin xx base sign u = Ok tt u' ∧ sent u (shown digits neg ds) u' ∧
     value base ds = x ∧ canonical ds ∧ Forall (λ d, 0 ≤ d < base) ds) ∧
  (base ^ room ≤ x → printint idle spin xx base sign u = Undef).
Proof.
  intros Hp Hxx Hb neg x room. pose proof (printint_run xx base sign u Hp Hxx ltac:(lia)) as Hrun. fold neg x room in Hrun.
  split; intros Hx; [rewrite bool_decide_true in Hrun by done|by rewrite bool_decide_false in Hrun by lia].
  destruct Hrun as (u' & Hrun & Hs). exists (dlist base 64 x), u'. split; [done|]. split; [done|]. apply dlist_spec; [lia| |lia].
  assert (0 ≤ x) by (unfold x, magnitude; destruct sign; cbn [andb]; [case_bool_decide|]; wrap_lia).
  assert (base ^ room ≤ base ^ Z.of_nat 64) by (apply Z.pow_le_mono_r; [lia|unfold room; destruct neg; lia]). lia.
Qed.

(** [printf("%u", n)] of an argument with the sign bit set corrupts the stack: the
    argument is fetched as an [int], widened to a 20-digit number, and converted
    into 16 characters. *)
Theorem printf_u_overflow n rest ap u :
  panicked u = false → 2 ^ 31 ≤ n < 2 ^ 32 →
  printf idle spin (chars "%u" ++ rest) (VWord n :: ap) u = Undef.
Proof.
  intros Hp Hn. change (chars "%u" ++ rest) with (PERCENT :: 117 :: rest). unfold printf. cbn [printf_loop].
  change (negb (bool_decide (PERCENT = PERCENT))) with false. cbv iota.
  change (bool_decide (117 = 100)) with false. change (is_l 108 100 117 _) with false.
  change (is_ll 100 117 _ _) with false. change (bool_decide (117 = 117)) with true. cbv iota. cbn [va_arg tail].
  assert (Hs : s32 n = n - 2 ^ 32) by wrap_lia.
  pose proof (printint_run (s32 n) 10 false u Hp ltac:(lia) ltac:(lia)) as Hrun.
  rewrite bool_decide_false in Hrun by (unfold magnitude, negative; cbn [andb]; rewrite Hs; wrap_lia).
  unfold mbind, M_bind, mret, M_ret. by rewrite Hrun.
Qed.
End kernel_spec.

(** ** The user library *)

Lemma putcs_run cs : ∀ o, bytes cs → putcs cs o = Ok tt (o ++ cs).
Proof.
  induction cs as [|c cs IH]; intros o Hb; [by rewrite app_nil_r|]. apply Forall_cons in Hb as [Hc Hb]. cbn [putcs].
  erewrite bind_ok by reflexivity. rewrite IH by done. by rewrite u8_id, <-app_assoc.
Qed.

Lemma uprintint_run n o :
  - 2 ^ 31 < n < 2 ^ 31 → uprintint n 10 true o = Ok tt (o ++ shown udigits (bool_decide (n < 0)) (dlist 10 32 (Z.abs n))).
Proof.
  intros Hn. unfold uprintint. cbn [andb].
  assert (Hx : (if bool_decide (n < 0) then - n else u32 n) = Z.abs n).
  { case_bool_decide; [lia|]. rewrite u32_id by wrap_lia. lia. }
  rewrite Hx, (bool_decide_false (n = - 2 ^ 31)), andb_false_r by lia. rewrite bind_bind.
  erewrite bind_ok.
  2:{ rewrite convert_run by (lia || (split; [lia|]; cbn; lia)).
      rewrite (bool_decide_true (Z.abs n < _)) by (case_bool_decide; cbn; lia). reflexivity. }
  rewrite rev_involutive. apply putcs_run, shown_bytes, udigits_bytes.
Qed.

(** [atoi] of a numeral, most significant digit first. *)
Lemma atoi_loop_digits ds : ∀ a rest,
  Forall (λ d, 0 ≤ d < 10) ds → 0 ≤ a → a * 10 ^ Z.of_nat (length ds) + value 10 ds < 2 ^ 31 - 48 →
  atoi_loop a (rev ((λ d, udigits !!! Z.to_nat d) <$> ds) ++ rest) =
  atoi_loop (a * 10 ^ Z.of_nat (length ds) + value 10 ds) rest.
Proof.
  induction ds as [|d ds IH]; intros a rest Hd Ha Hlt.
  { cbn. f_equal. lia. }
  apply Forall_cons in Hd as [Hd Hds]. cbn [fmap list_fmap rev length value] in *. rewrite <-app_assoc. cbn [app].
  assert (Hv : 0 ≤ value 10 ds).
  { clear -Hds. induction Hds; cbn; [lia|]. lia. }
  assert (Hp : 10 ^ Z.of_nat (S (length ds)) = 10 * 10 ^ Z.of_nat (length ds)) by (rewrite Nat2Z.inj_succ, Z.pow_succ_r; lia).
  rewrite Hp in *. pose proof (Z.pow_pos_nonneg 10 (Z.of_nat (length ds)) ltac:(lia) ltac:(lia)).
  rewrite IH by (done || nia). cbn [atoi_loop].
  assert (Hc : udigits !!! Z.to_nat d = 48 + d).
  { assert (d = 0 ∨ d = 1 ∨ d = 2 ∨ d = 3 ∨ d = 4 ∨ d = 5 ∨ d = 6 ∨ d = 7 ∨ d = 8 ∨ d = 9) as Hcs by lia.
    destruct_or! Hcs; by subst. }
  rewrite Hc, bool_decide_true, bool_decide_true by lia. f_equal. lia.
Qed.

(** [atoi] reads back the numbers from 0 to 2^31-49 that the user
    library's [printf("%d", n)] prints.  It knows no sign: of a negative number,
    which is printed with one, it reads 0.  (The last 48 numbers are left out
    because [n*10 + *s] overflows in [atoi] before the code of '0' is taken off,
    and -2^31 because [printint] negates it.) *)
Theorem printf_atoi n ap o :
  - 2 ^ 31 < n < 2 ^ 31 - 48 →
  ∃ s, vprintf (chars "%d") (VWord n :: ap) o = Ok tt (o ++ s) ∧ atoi (s ++ [0]) = Some (Z.max 0 n).
Proof.
  intros Hn. exists (shown udigits (bool_decide (n < 0)) (dlist 10 32 (Z.abs n))). split.
  - change (chars "%d") with [PERCENT; 100]. cbn [vprintf]. change (negb (bool_decide (PERCENT = PERCENT))) with false.
    change (bool_decide (100 = 100)) with true. cbv iota. cbn [va_arg tail].
    erewrite bind_ok by reflexivity. cbv beta. rewrite s32_id by lia.
    erewrite bind_ok by (apply uprintint_run; lia). done.
  - unfold atoi, shown. case_bool_decide as Hneg; [cbn; f_equal; lia|]. replace (Z.abs n) with n by lia.
    destruct (dlist_spec 10 ltac:(lia) 32 n) as (Hv & _ & Hd); [split; [lia|]; cbn; lia|lia|].
    cbn [app]. rewrite atoi_loop_digits by (done || lia). rewrite Hv. cbn. f_equal. lia.
Qed.

Lemma soon2 : ∀ n, ∃ i, (i < 1)%nat ∧ (λ _ : nat, true) (n + i)%nat = true.
Proof. intros n. exists 0%nat. split; [lia|done]. Qed.

Lemma printint_bounds_witness :
  (10 ^ 15 < 10 ^ 15 → ∃ ds u', printint (λ _, true) 1 (- 10 ^ 15) 10 true uart0 = Ok tt u' ∧ sent uart0 (shown digits true ds) u' ∧
     value 10 ds = 10 ^ 15 ∧ canonical ds ∧ Forall (λ d, 0 ≤ d < 10) ds) ∧
  (10 ^ 15 ≤ 10 ^ 15 → printint (λ _, true) 1 (- 10 ^ 15) 10 true uart0 = Undef).
Proof. apply (printint_bounds (λ _, true) 1 soon2 (- 10 ^ 15) 10 true uart0); [done|lia|by left]. Defined.
Lemma printf_u_overflow_witness : printf (λ _, true) 1 (chars "%u") [VWord (2 ^ 32 - 1)] uart0 = Undef.
Proof. apply (printf_u_overflow (λ _, true) 1 soon2 (2 ^ 32 - 1) [] [] uart0); [done|lia]. Defined.
Lemma printf_atoi_witness :
  (∃ s, vprintf (chars "%d") [VWord 2048] [] = Ok tt ([] ++ s) ∧ atoi (s ++ [0]) = Some 2048) ∧
  (∃ s, vprintf (chars "%d") [VWord (-5)] [] = Ok tt ([] ++ s) ∧ atoi (s ++ [0]) = Some 0).
Proof. split; [apply (printf_atoi 2048 [] [])|apply (printf_atoi (-5) [] [])]; lia. Defined.
End Printf.
