(* ===== verification/Grep.v ===== *)
(** The regular-expression matcher and line filter of [user/grep.c]. *)

From S2P Require Import Prelude CString.
Import Str.

Local Open Scope Z_scope.

Module Grep.

Definition HAT : Z := 94.
Definition DOT : Z := 46.
Definition STAR : Z := 42.
Definition DOLLAR : Z := 36.
Definition NL : Z := 10.

(** ** The matcher

    A C string is the list of its characters before the terminator; reading the
    terminator is the case of the empty list. *)

(** [matchstar]'s loop, given the matcher of the rest of the expression. *)
Fixpoint matchstar (c : Z) (here : list Z → bool) (text : list Z) : bool :=
  here text ||
  match text with
  | [] => false
  | x :: text => (bool_decide (x = c) || bool_decide (c = DOT)) && matchstar c here text
  end.
Fixpoint matchhere (re text : list Z) : bool :=
  match re with
  | [] => true
  | c :: re1 =>
      match re1 with
      | s :: re2 =>
          if bool_decide (s = STAR) then matchstar c (matchhere re2) text
          else match text with
               | x :: text => (bool_decide (c = DOT) || bool_decide (c = x)) && matchhere re1 text
               | [] => false
               end
      | [] =>
          if bool_decide (c = DOLLAR) then bool_decide (text = [])
          else match text with
               | x :: text => (bool_decide (c = DOT) || bool_decide (c = x)) && matchhere re1 text
               | [] => false
               end
      end
  end.
(** [match]'s loop over the starting points. *)
Fixpoint match_loop (re text : list Z) : bool :=
  matchhere re text || match text with [] => false | _ :: text => match_loop re text end.
Definition match_ (re text : list Z) : bool :=
  match re with
  | c :: re' => if bool_decide (c = HAT) then matchhere re' text else match_loop re text
  | [] => match_loop re text
  end.

(** ** The filter *)

Definition bufsize : nat := 1024.

(** Standard output and the rest of the file; [reads] counts the calls of [read]. *)
Record io := MkIo { data : list Z; reads : nat; out : list Z }.

Section grep.
(** How many bytes the file has ready at each call of [read]: a pipe or the
    console may give fewer than asked for. *)
Context (ready : nat → nat).

Definition read (n : nat) : M io (list Z) :=
  s ← get;
  let k := (n `min` (1 `max` ready (reads s)) `min` length (data s))%nat in
  put (MkIo (drop k (data s)) (S (reads s)) (out s));; mret (take k (data s)).
Definition write (bs : list Z) : M io unit :=
  modify (λ s, MkIo (data s) (reads s) (out s ++ bs)).

(** The inner loop: the complete lines of the buffer, from offset [p]. *)
Fixpoint lines_loop (fuel : nat) (pattern buf : list Z) (p : nat) : M io (list Z * nat) :=
  match fuel with
  | O => nofuel
  | S fuel =>
      q ← of_option (strchr (drop p buf) NL);
      match q with
      | None => mret (buf, p)
      | Some d =>
          let q := (p + d)%nat in
          let buf := <[q := 0]> buf in
          if match_ pattern (cstr (drop p buf)) then
            let buf := <[q := NL]> buf in
            write (slice p (q + 1 - p) buf);; lines_loop fuel pattern buf (q + 1)
          else lines_loop fuel pattern buf (q + 1)
      end
  end.
(** The outer loop; [m] bytes of an unfinished line are kept at the front. *)
Fixpoint grep_loop (fuel : nat) (pattern buf : list Z) (m : nat) : M io unit :=
  match fuel with
  | O => nofuel
  | S fuel =>
      x ← read (bufsize - m - 1);
      if bool_decide (x = []) then mret tt else
      let buf := splice m x buf in
      let m := (m + length x)%nat in
      let buf := <[m := 0]> buf in
      bp ← lines_loop (S (length buf)) pattern buf 0;
      let '(buf, p) := bp in
      let m := (m - p)%nat in
      grep_loop fuel pattern (splice 0 (slice p m buf) buf) m
  end.
Definition grep (pattern : list Z) : M io unit :=
  s ← get; grep_loop (S (length (data s))) pattern (replicate bufsize 0) 0.
End grep.

(** * What a pattern means *)

(** An expression is a sequence of atoms, each a character or [.], possibly
    starred; [$] at the very end anchors it. *)
Inductive atom := AChar (c : Z) | AAny.
Record pat := MkPat { items : list (atom * bool); eol : bool }.

Definition mk_atom (c : Z) : atom := if bool_decide (c = DOT) then AAny else AChar c.
Definition cons_item (i : atom * bool) (p : pat) : pat := MkPat (i :: items p) (eol p).
Fixpoint parse (re : list Z) : pat :=
  match re with
  | [] => MkPat [] false
  | c :: re1 =>
      match re1 with
      | s :: re2 =>
          if bool_decide (s = STAR) then cons_item (mk_atom c, true) (parse re2)
          else cons_item (mk_atom c, false) (parse re1)
      | [] => if bool_decide (c = DOLLAR) then MkPat [] true else MkPat [(mk_atom c, false)] false
      end
  end.

Definition in_atom (a : atom) (x : Z) : Prop := match a with AChar c => x = c | AAny => True end.
(** The strings an item and a sequence of items stand for. *)
Definition item_lang (i : atom * bool) (v : list Z) : Prop :=
  if i.2 then Forall (in_atom i.1) v else ∃ x, v = [x] ∧ in_atom i.1 x.
Inductive lang : list (atom * bool) → list Z → Prop :=
  | lang_nil : lang [] []
  | lang_cons i its v w : item_lang i v → lang its w → lang (i :: its) (v ++ w).

(** [p] matches at the start of [text]. *)
Definition at_start (p : pat) (text : list Z) : Prop :=
  ∃ v w, text = v ++ w ∧ lang (items p) v ∧ (eol p = true → w = []).

Lemma at_start_cons i p text :
  at_start (cons_item i p) text ↔ ∃ v w, text = v ++ w ∧ item_lang i v ∧ at_start p w.
Proof.
  split.
  - intros (v & w & -> & Hl & He). cbn in Hl. inversion Hl as [|i' its v1 v2 H1 H2 Heq]; subst.
    exists v1, (v2 ++ w). split; [by rewrite app_assoc|]. split; [done|]. by exists v2, w.
  - intros (v & w & -> & Hi & (v2 & w2 & -> & Hl & He)). exists (v ++ v2), w2. rewrite app_assoc.
    split; [done|]. split; [by constructor|done].
Qed.

Lemma in_mk_atom c x : in_atom (mk_atom c) x ↔ c = DOT ∨ x = c.
Proof. unfold mk_atom. case_bool_decide; cbn; naive_solver. Qed.

Lemma matchstar_spec c here P text :
  (∀ t, here t = true ↔ P t) →
  matchstar c here text = true ↔ ∃ v w, text = v ++ w ∧ Forall (in_atom (mk_atom c)) v ∧ P w.
Proof.
  intros Hh. induction text as [|x text IH]; cbn [matchstar]; rewrite orb_true_iff, Hh.
  - split; [intros [?|?]; [by exists [], []|done]|]. intros (v & w & Heq & _ & Hw).
    symmetry in Heq. apply app_nil in Heq as [-> ->]. by left.
  - rewrite andb_true_iff, orb_true_iff, !bool_decide_eq_true, IH. split.
    + intros [?|(Hx & v & w & -> & Hv & Hw)]; [by exists [], (x :: text)|]. exists (x :: v), w. split; [done|].
      split; [|done]. constructor; [|done]. apply in_mk_atom. tauto.
    + intros ([|y v] & w & Heq & Hv & Hw); cbn in Heq; [subst; by left|]. simplify_eq. right.
      apply Forall_cons in Hv as [Hy%in_mk_atom Hv]. split; [tauto|]. eauto.
Qed.

Lemma char_spec c re text :
  match text with
  | x :: text => (bool_decide (c = DOT) || bool_decide (c = x)) && matchhere re text
  | [] => false
  end = true ↔ ∃ v w, text = v ++ w ∧ (∃ x, v = [x] ∧ in_atom (mk_atom c) x) ∧ matchhere re w = true.
Proof.
  destruct text as [|x text].
  - split; [done|]. intros (v & w & Heq & (x & -> & _) & _). done.
  - rewrite andb_true_iff, orb_true_iff, !bool_decide_eq_true. split.
    + intros [Hc Hm]. exists [x], text. split; [done|]. split; [|done]. exists x. rewrite in_mk_atom. intuition congruence.
    + intros (v & w & Heq & (y & -> & Hy%in_mk_atom) & Hm). cbn in Heq. simplify_eq. split; [intuition congruence|done].
Qed.

Lemma matchhere_spec n re text : (length re ≤ n)%nat → matchhere re text = true ↔ at_start (parse re) text.
Proof.
  revert re text. induction n as [|n IH]; intros [|c re] text Hn; cbn in Hn; try lia.
  1,2: cbn; split; [intros _; exists [], text; repeat constructor; done|done].
  destruct re as [|s re].
  - cbn. case_bool_decide as Hd.
    + rewrite bool_decide_eq_true. split; [intros ->; exists [], []; repeat constructor; done|].
      intros (v & w & -> & Hl & He). inversion Hl; subst. by rewrite He.
    + rewrite (char_spec c []). change (MkPat [(mk_atom c, false)] false) with (cons_item (mk_atom c, false) (parse [])).
      rewrite at_start_cons. f_equiv. intros v. f_equiv. intros w. rewrite <-IH by (cbn; lia). done.
  - cbn [matchhere parse]. case_bool_decide as Hs.
    + rewrite at_start_cons. rewrite (matchstar_spec _ _ (at_start (parse re))); [done|]. intros t. apply IH. cbn in Hn. lia.
    + rewrite at_start_cons, (char_spec c (s :: re)). f_equiv. intros v. f_equiv. intros w.
      rewrite IH by (cbn in *; lia). done.
Qed.

Lemma match_loop_spec re text :
  match_loop re text = true ↔ ∃ u w, text = u ++ w ∧ at_start (parse re) w.
Proof.
  induction text as [|x text IH]; cbn [match_loop]; rewrite orb_true_iff, (matchhere_spec (length re)) by done.
  - split; [intros [?|?]; [by exists [], []|done]|]. intros (u & w & Heq & Hw).
    symmetry in Heq. apply app_nil in Heq as [-> ->]. by left.
  - rewrite IH. split.
    + intros [?|(u & w & -> & Hw)]; [by exists [], (x :: text)|by exists (x :: u), w].
    + intros ([|y u] & w & Heq & Hw); cbn in Heq; simplify_eq; eauto.
Qed.

(** The pattern without its leading [^], and whether there was one. *)
Definition anchored (re : list Z) : bool := bool_decide (head re = Some HAT).
Definition body (re : list Z) : list Z := if anchored re then tail re else re.

(** C31: The matcher decides the language of the expression: the text has a part the
    items of the pattern stand for, at its start under [^] and at its end under a
    final [$]. *)
Theorem match_decides re text :
  match_ re text = true ↔
  ∃ u v w, text = u ++ v ++ w ∧ lang (items (parse (body re))) v ∧
    (anchored re = true → u = []) ∧ (eol (parse (body re)) = true → w = []).
Proof.
  assert (Hun : anchored re = false → match_loop re text = true ↔
    ∃ u v w, text = u ++ v ++ w ∧ lang (items (parse (body re))) v ∧
      (anchored re = true → u = []) ∧ (eol (parse (body re)) = true → w = [])).
  { intros Ha. rewrite match_loop_spec. unfold at_start, body. rewrite Ha. split.
    - intros (u & _ & -> & v & w & -> & Hl & He). exists u, v, w. done.
    - intros (u & v & w & -> & Hl & _ & He). exists u, (v ++ w). split; [done|]. by exists v, w. }
  destruct re as [|c re]; [by apply Hun|]. cbn [match_]. case_bool_decide as Hc.
  - assert (Ha : anchored (c :: re) = true) by (unfold anchored; cbn; rewrite Hc; done).
    rewrite (matchhere_spec (length re)) by done. unfold body. rewrite Ha. cbn [tail]. split.
    + intros (v & w & -> & Hl & He). exists [], v, w. done.
    + intros (u & v & w & -> & Hl & Hu & He). rewrite Hu by done. by exists v, w.
  - apply Hun. unfold anchored. cbn. apply bool_decide_eq_false. congruence.
Qed.

(** * Lines *)

(** The complete lines of a text, and what follows its last newline. *)
Fixpoint split_lines (t : list Z) : list (list Z) * list Z :=
  match t with
  | [] => ([], [])
  | c :: t =>
      let '(ls, r) := split_lines t in
      if decide (c = NL) then ([] :: ls, r)
      else match ls with [] => ([], c :: r) | l :: ls => ((c :: l) :: ls, r) end
  end.
(** What [grep] should print: the complete lines that match. *)
Definition grep_spec (pattern t : list Z) : list Z :=
  concat ((λ l, l ++ [NL]) <$> filter (λ l, match_ pattern l = true) (split_lines t).1).

Lemma split_unfinished l : NL ∉ l → split_lines l = ([], l).
Proof.
  induction l as [|c l IH]; [done|]. intros [Hc Hl]%not_elem_of_cons. cbn. rewrite IH by done.
  by rewrite decide_False by congruence.
Qed.
Lemma split_line l t : NL ∉ l → split_lines (l ++ NL :: t) = (l :: (split_lines t).1, (split_lines t).2).
Proof.
  induction l as [|c l IH]; cbn [app].
  - intros _. cbn. destruct (split_lines t). done.
  - intros [Hc Hl]%not_elem_of_cons. cbn [split_lines]. rewrite IH by done. by rewrite decide_False by congruence.
Qed.

(** A text has no newline, or a first line. *)
Lemma line_cases t : NL ∉ t ∨ ∃ l t', t = l ++ NL :: t' ∧ NL ∉ l.
Proof.
  destruct (decide (NL ∈ t)) as [Hin|]; [|by left]. right. apply list_elem_of_split in Hin as (l & t' & ->).
  revert t'. induction l as [|c l IH]; intros t'; [exists [], t'; split; [done|apply not_elem_of_nil]|].
  destruct (decide (c = NL)) as [->|Hc]; [exists [], (l ++ NL :: t'); split; [done|apply not_elem_of_nil]|].
  destruct (IH t') as (l1 & t1 & Heq & Hl1). exists (c :: l1), t1. cbn. rewrite Heq. split; [done|]. by apply not_elem_of_cons.
Qed.
Lemma line_ind (P : list Z → Prop) :
  (∀ l, NL ∉ l → P l) → (∀ l t, NL ∉ l → P t → P (l ++ NL :: t)) → ∀ t, P t.
Proof.
  intros H0 H1 t.
  remember (length t) as n eqn:Hn. revert t Hn. induction (lt_wf n) as [n _ IH]; intros t ->.
  destruct (line_cases t) as [Hn|(l & t' & -> & Hl)]; [by apply H0|]. apply H1; [done|].
  eapply IH; [|done]. rewrite length_app. cbn. lia.
Qed.

Lemma split_app s t :
  split_lines (s ++ t) =
  ((split_lines s).1 ++ (split_lines ((split_lines s).2 ++ t)).1, (split_lines ((split_lines s).2 ++ t)).2).
Proof.
  induction s as [l Hl|l s Hl IH] using line_ind.
  - rewrite (split_unfinished l) by done. cbn. by destruct (split_lines (l ++ t)).
  - rewrite <-app_assoc. cbn [app]. rewrite !split_line by done. cbn [fst snd]. by rewrite IH.
Qed.
Lemma grep_spec_app pattern s t :
  grep_spec pattern (s ++ t) = grep_spec pattern s ++ grep_spec pattern ((split_lines s).2 ++ t).
Proof. unfold grep_spec. rewrite split_app. cbn [fst]. by rewrite filter_app, fmap_app, concat_app. Qed.
Lemma split_rest_nl s : NL ∉ (split_lines s).2.
Proof.
  induction s as [l Hl|l s Hl IH] using line_ind; [by rewrite split_unfinished|by rewrite split_line].
Qed.
Lemma split_rest_sub s c : c ∈ (split_lines s).2 → c ∈ s.
Proof.
  induction s as [l Hl|l s Hl IH] using line_ind; [by rewrite split_unfinished|]. rewrite split_line by done. cbn. set_solver.
Qed.
Lemma split_rest_len s : (length (split_lines s).2 ≤ length s)%nat.
Proof.
  induction s as [l Hl|l s Hl IH] using line_ind; [by rewrite split_unfinished|].
  rewrite split_line, length_app by done. cbn. lia.
Qed.

(** No line is longer than the buffer holds. *)
Definition fits (t : list Z) : Prop :=
  Forall (λ l, length l ≤ bufsize - 2)%nat (split_lines t).1 ∧ (length (split_lines t).2 ≤ bufsize - 2)%nat.
Lemma fits_app s t : fits (s ++ t) → fits ((split_lines s).2 ++ t).
Proof. unfold fits. rewrite split_app. cbn [fst snd]. rewrite Forall_app. tauto. Qed.
Lemma fits_pending r t : NL ∉ r → fits (r ++ t) → (length r ≤ bufsize - 2)%nat.
Proof.
  intros Hr [Hf Hl]. destruct (line_cases t) as [Ht|(l & t' & -> & Hl')].
  - rewrite split_unfinished in Hl by set_solver. cbn [snd] in Hl. rewrite length_app in Hl. lia.
  - rewrite app_assoc, split_line in Hf by set_solver. cbn [fst] in Hf. apply Forall_cons in Hf as [Hf _].
    rewrite length_app in Hf. lia.
Qed.

(** * The buffer *)

Lemma strchr_none s j : 0 ∉ s → NL ∉ s → strchr (s ++ 0 :: j) NL = Some None.
Proof.
  induction s as [|c s IH]; [done|]. intros [Hc Hs]%not_elem_of_cons [Hn Hs']%not_elem_of_cons. cbn.
  do 2 rewrite bool_decide_false by congruence. by rewrite IH.
Qed.
Lemma strchr_some l s : 0 ∉ l → NL ∉ l → strchr (l ++ NL :: s) NL = Some (Some (length l)).
Proof.
  induction l as [|c l IH]; [done|]. intros [Hc Hs]%not_elem_of_cons [Hn Hs']%not_elem_of_cons. cbn.
  do 2 rewrite bool_decide_false by congruence. by rewrite IH.
Qed.
Lemma cstr_app l s : 0 ∉ l → cstr (l ++ 0 :: s) = l.
Proof.
  induction l as [|c l IH]; [done|]. intros [Hc Hl]%not_elem_of_cons. cbn. rewrite ?bool_decide_false, ?decide_False by congruence.
  by rewrite IH.
Qed.

Section filter.
Context (ready : nat → nat) (pattern : list Z).

Definition emit (st : io) (bs : list Z) : io := MkIo (data st) (reads st) (out st ++ bs).

(** The inner loop prints the matching lines of [s] and stops at the unfinished one. *)
Lemma lines_loop_spec s : ∀ fuel pre j st,
  0 ∉ s → (length s < fuel)%nat →
  ∃ pre', lines_loop fuel pattern (pre ++ s ++ 0 :: j) (length pre) st =
    Ok (pre' ++ (split_lines s).2 ++ 0 :: j, length pre') (emit st (grep_spec pattern s)) ∧
    (length pre' + length (split_lines s).2 = length pre + length s)%nat.
Proof.
  induction s as [l Hl|l s Hl IH] using line_ind; intros [|fuel] pre j st Hz Hf; try lia; cbn [lines_loop].
  - rewrite drop_app_length, strchr_none by done. cbn. rewrite split_unfinished by done. exists pre. split; [|done].
    unfold emit, grep_spec. rewrite split_unfinished by done. cbn. rewrite app_nil_r. by destruct st.
  - rewrite length_app in Hf. cbn [length] in Hf. rewrite <-app_assoc. cbn [app].
    assert (Hz1 : 0 ∉ l) by set_solver. assert (Hz2 : 0 ∉ s) by set_solver.
    rewrite drop_app_length, strchr_some by done. erewrite bind_ok by reflexivity. cbv beta iota zeta.
    assert (Hins : ∀ c d, <[(length pre + length l)%nat := c]> (pre ++ l ++ d :: s ++ 0 :: j) = (pre ++ l ++ [c]) ++ s ++ 0 :: j).
    { intros c d. rewrite <-length_app, app_assoc, insert_app_r_alt, Nat.sub_diag by lia. cbn. by rewrite <-!app_assoc. }
    rewrite Hins, <-!app_assoc, drop_app_length. cbn [app]. rewrite cstr_app by done.
    assert (Hlen : ∀ c : Z, (length pre + length l + 1)%nat = length (pre ++ l ++ [c])) by (intros; rewrite !length_app; cbn; lia).
    assert (Hsp : grep_spec pattern (l ++ NL :: s) = (if match_ pattern l then l ++ [NL] else []) ++ grep_spec pattern s).
    { unfold grep_spec. rewrite split_line by done. cbn [fst]. rewrite filter_cons.
      destruct (match_ pattern l); [by rewrite decide_True|by rewrite decide_False]. }
    rewrite split_line by done. cbn [snd]. destruct (match_ pattern l) eqn:Hm.
    + rewrite Hins. erewrite bind_ok by reflexivity. cbv beta.
      rewrite (Hlen NL). destruct (IH fuel (pre ++ l ++ [NL]) j (emit st (l ++ [NL]))) as (pre' & Hrun & Hpl); [done|lia|].
      exists pre'. split.
      * assert (Hsl : slice (length pre) (length pre + length l + 1 - length pre) ((pre ++ l ++ [NL]) ++ s ++ 0 :: j) = l ++ [NL]).
        { unfold slice. rewrite <-app_assoc, drop_app_length, take_app_length'; [done|]. rewrite length_app. cbn. lia. }
        rewrite <-(Hlen NL), Hsl, (Hlen NL). unfold emit in Hrun at 1. rewrite Hrun. unfold emit. cbn. by rewrite Hsp, <-!app_assoc.
      * rewrite Hpl, !length_app. cbn. lia.
    + rewrite (Hlen 0). destruct (IH fuel (pre ++ l ++ [0]) j st) as (pre' & Hrun & Hpl); [done|lia|].
      exists pre'. split.
      * rewrite <-!app_assoc in Hrun. cbn [app] in Hrun. rewrite Hrun. by rewrite Hsp.
      * rewrite Hpl, !length_app. cbn. lia.
Qed.

Lemma read_split n st :
  let k := (n `min` (1 `max` ready (reads st)) `min` length (data st))%nat in
  read ready n st = Ok (take k (data st)) (MkIo (drop k (data st)) (S (reads st)) (out st)).
Proof. done. Qed.

Lemma grep_loop_spec fuel : ∀ buf r st,
  length buf = bufsize → take (length r) buf = r → NL ∉ r → 0 ∉ r ++ data st → fits (r ++ data st) →
  (length (data st) < fuel)%nat →
  ∃ n, grep_loop ready fuel pattern buf (length r) st =
    Ok tt (MkIo [] n (out st ++ grep_spec pattern (r ++ data st))).
Proof.
  induction fuel as [|fuel IH]; intros buf r st Hbuf Hr Hnl Hz Hfit Hf; [lia|]. cbn [grep_loop].
  pose proof (fits_pending _ _ Hnl Hfit) as Hpend.
  set (k := ((bufsize - length r - 1) `min` (1 `max` ready (reads st)) `min` length (data st))%nat).
  assert (Hk : (k ≤ length (data st) ∧ k ≤ bufsize - length r - 1 ∧ (length (data st) = 0 ∨ 0 < k))%nat).
  { unfold k. split; [apply Nat.le_min_r|]. unfold bufsize in *. lia. }
  erewrite bind_ok by apply read_split. fold k. cbv beta. destruct st as [d nr o]. cbn [data reads out] in *. clearbody k.
  destruct (decide (d = [])) as [->|Hd].
  { rewrite take_nil, bool_decide_true by done. rewrite drop_nil. eexists. rewrite app_nil_r. unfold grep_spec.
    rewrite split_unfinished by done. cbn. by rewrite app_nil_r. }
  assert (Hd0 : length d ≠ 0%nat) by (by rewrite length_zero_iff_nil).
  set (x := take k d). assert (Hx : length x = k) by (unfold x; rewrite length_take; lia).
  rewrite bool_decide_false by (intros Heq; rewrite Heq in Hx; cbn in Hx; lia).
  set (buf2 := <[_ := 0]> _).
  assert (Hb2 : buf2 = [] ++ (r ++ x) ++ 0 :: drop (length r + k + 1) buf).
  { unfold buf2, splice. rewrite Hr, Hx. change ([] ++ ?l) with l. rewrite app_assoc.
    rewrite insert_app_r_alt by (rewrite length_app; lia). rewrite length_app, Hx, Nat.sub_diag.
    destruct (drop (length r + k) buf) as [|c j] eqn:Hj.
    { apply (f_equal length) in Hj. rewrite length_drop in Hj. cbn in Hj. unfold bufsize in *. lia. }
    cbn. rewrite <-drop_drop, Hj. done. }
  assert (Hlb2 : length buf2 = bufsize).
  { rewrite Hb2. cbn [app]. rewrite !length_app, Hx. cbn [length]. rewrite length_drop. unfold bufsize in *. lia. }
  assert (Hsub : data (MkIo (drop k d) (S nr) o) = drop k d) by done.
  assert (Hd2 : d = x ++ drop k d) by (unfold x; by rewrite take_drop).
  assert (Hz2 : 0 ∉ (r ++ x) ++ drop k d) by (by rewrite <-app_assoc, <-Hd2).
  destruct (lines_loop_spec (r ++ x) (S (length buf2)) [] (drop (length r + k + 1) buf) (MkIo (drop k d) (S nr) o))
    as (pre & Hrun & Hpre); [rewrite not_elem_of_app in Hz2; apply Hz2|rewrite Hlb2, length_app; unfold bufsize in *; lia|].
  rewrite Hlb2 in Hrun |- *. rewrite Hb2. cbn [length] in Hrun, Hpre. erewrite bind_ok by exact Hrun. cbv beta iota.
  set (r2 := (split_lines (r ++ x)).2) in *. rewrite length_app, Hx in Hpre.
  replace (length r + length x - length pre)%nat with (length r2) by lia.
  assert (Hsl : slice (length pre) (length r2) (pre ++ r2 ++ 0 :: drop (length r + k + 1) buf) = r2).
  { unfold slice. by rewrite drop_app_length, take_app_length. }
  rewrite Hsl.
  destruct (IH (splice 0 r2 (pre ++ r2 ++ 0 :: drop (length r + k + 1) buf)) r2
    (emit (MkIo (drop k d) (S nr) o) (grep_spec pattern (r ++ x)))) as (n & Hrun2).
  - rewrite length_splice; rewrite !length_app; cbn; rewrite ?length_drop; unfold bufsize in *; lia.
  - unfold splice. rewrite take_0. cbn [app]. by rewrite take_app_length.
  - apply split_rest_nl.
  - cbn. intros [Hc|Hc]%elem_of_app; [apply split_rest_sub in Hc|]; apply Hz2, elem_of_app; auto.
  - cbn. apply fits_app. by rewrite <-app_assoc, <-Hd2.
  - cbn. rewrite length_drop. lia.
  - exists n. rewrite Hrun2. cbn. f_equal. f_equal. rewrite <-app_assoc. f_equal.
    transitivity (grep_spec pattern ((r ++ x) ++ drop k d)); [by rewrite (grep_spec_app pattern (r ++ x) (drop k d))|by rewrite <-app_assoc, <-Hd2].
Qed.

(** C32: However the file's bytes arrive, [grep] prints exactly the complete lines
    that match, in order, provided that no line is longer than its buffer. *)
Theorem grep_filters_lines t n o :
  0 ∉ t → fits t →
  ∃ n', grep ready pattern (MkIo t n o) = Ok tt (MkIo [] n' (o ++ grep_spec pattern t)).
Proof.
  intros Hz Hf. unfold grep. erewrite bind_ok by reflexivity. cbv beta.
  destruct (grep_loop_spec (S (length t)) (replicate bufsize 0) [] (MkIo t n o)) as (n' & Hrun);
    [apply length_replicate|done|apply not_elem_of_nil|done|done|cbn; lia|].
  exists n'. exact Hrun.
Qed.
End filter.

(** "ab\nxb\nbc" with the pattern "^a.*b" and single-byte reads. *)
Lemma grep_filters_lines_witness :
  ∃ n', grep (λ _, 1%nat) [HAT; 97; DOT; STAR; 98] (MkIo [97; 99; 98; 10; 120; 98; 10; 97; 98] 0 []) =
    Ok tt (MkIo [] n' [97; 99; 98; 10]).
Proof.
  apply (grep_filters_lines (λ _, 1%nat) [HAT; 97; DOT; STAR; 98] [97; 99; 98; 10; 120; 98; 10; 97; 98] 0 []).
  - set_solver.
  - split; [repeat (apply Forall_cons; split; [by apply Nat.leb_le|])|by apply Nat.leb_le]. by apply Forall_nil.
Defined.
End Grep.
