(* ===== verification/Umalloc.v ===== *)
(** The user-level allocator: [user/umalloc.c].

    The heap is a map from addresses to headers; the header at an address is
    what its 16 bytes hold.  An access to anything but [base] and the memory
    obtained from [sbrk] has no meaning.  [sbrk] is the kernel's: it grows the
    process up to some limit. *)

From S2P Require Import Prelude.

Local Open Scope Z_scope.

Module Umalloc.

(** [union header]: [ptr] and [size]. *)
Record header := MkHeader { ptr : Z; hsize : Z }.
#[export] Instance header_inhabited : Inhabited header := populate (MkHeader 0 0).

(** The headers in memory, [freep], and the end of the process' memory. *)
Record ust := MkUst { mem : gmap Z header; freep : Z; brk : Z }.

Definition HSIZE : Z := 16.

Section umalloc.
(** [&base], where the heap starts, and how far [sbrk] may go. *)
Context (base heap0 limit : Z).

Definition valid (s : ust) (a : Z) : Prop := a = base ∨ (heap0 ≤ a ∧ a + HSIZE ≤ brk s).
#[export] Instance valid_dec s a : Decision (valid s a).
Proof. unfold valid. apply _. Defined.

Definition load (a : Z) : M ust header :=
  s ← get; if bool_decide (valid s a) then mret (mem s !!! a) else undef.
Definition store (a : Z) (h : header) : M ust unit :=
  s ← get;
  if bool_decide (valid s a) then put (MkUst (<[a := h]> (mem s)) (freep s) (brk s)) else undef.
Definition set_ptr (a v : Z) : M ust unit := h ← load a; store a (MkHeader v (hsize h)).
Definition set_size (a v : Z) : M ust unit := h ← load a; store a (MkHeader (ptr h) (u32 v)).
Definition set_freep (p : Z) : M ust unit := modify (λ s, MkUst (mem s) p (brk s)).

(** The rounds of a loop that passes each block at most once. *)
Definition blocks : M ust nat := gets (λ s, S (S (Z.to_nat ((brk s - heap0) / HSIZE)))).

(** The loop of [free] that looks for the place of [bp]. *)
Fixpoint free_loop (n : nat) (bp p : Z) : M ust Z :=
  match n with
  | O => nofuel
  | S n =>
      h ← load p;
      if bool_decide (p < bp ∧ bp < ptr h) then mret p
      else if bool_decide (ptr h ≤ p ∧ (p < bp ∨ bp < ptr h)) then mret p
      else free_loop n bp (ptr h)
  end.

Definition free (ap : Z) : M ust unit :=
  let bp := ap - HSIZE in
  n ← blocks; p0 ← gets freep;
  p ← free_loop n bp p0;
  b ← load bp; h ← load p;
  (if bool_decide (bp + HSIZE * hsize b = ptr h)
   then q ← load (ptr h);
        set_size bp (hsize b + hsize q);;
        set_ptr bp (ptr q)
   else set_ptr bp (ptr h));;
  h ← load p;
  (if bool_decide (p + HSIZE * hsize h = bp)
   then b ← load bp;
        set_size p (hsize h + hsize b);;
        set_ptr p (ptr b)
   else set_ptr p bp);;
  set_freep p.

(** [char *sbrk(int n)]: [growproc] adds [n] to the size, and leaves it alone
    when the sum is negative. *)
Definition sbrk (n : Z) : M ust Z :=
  s ← get;
  if bool_decide (0 < n)
  then if bool_decide (limit < brk s + n) then mret (-1)
       else put (MkUst (mem s) (freep s) (brk s + n));; mret (brk s)
  else (if bool_decide (0 ≤ brk s + n) then put (MkUst (mem s) (freep s) (brk s + n)) else mret tt);;
       mret (brk s).

Definition morecore (nu : Z) : M ust Z :=
  let nu := if bool_decide (nu < 4096) then 4096 else nu in
  p ← sbrk (s32 (nu * HSIZE));
  if bool_decide (p = -1) then mret 0 else
  set_size p nu;;
  free (p + HSIZE);;
  gets freep.

Definition units (nbytes : Z) : Z := u32 ((nbytes + HSIZE - 1) / HSIZE + 1).

(** The loop of [malloc]. *)
Fixpoint malloc_loop (n : nat) (nunits prevp p : Z) : M ust Z :=
  match n with
  | O => nofuel
  | S n =>
      h ← load p;
      if bool_decide (nunits ≤ hsize h) then
        p ← (if bool_decide (hsize h = nunits) then set_ptr prevp (ptr h);; mret p
             else set_size p (hsize h - nunits);;
                  h ← load p;
                  let p := p + HSIZE * hsize h in
                  set_size p nunits;; mret p);
        set_freep prevp;;
        mret (p + HSIZE)
      else
        fp ← gets freep;
        p ← (if bool_decide (p = fp) then r ← morecore nunits; mret (if bool_decide (r = 0) then None else Some r)
             else mret (Some p));
        match p with
        | None => mret 0
        | Some p => h ← load p; malloc_loop n nunits p (ptr h)
        end
  end.

Definition malloc (nbytes : Z) : M ust Z :=
  let nunits := units nbytes in
  fp ← gets freep;
  (if bool_decide (fp = 0)
   then set_freep base;; set_ptr base base;; set_size base 0 else mret tt);;
  prevp ← gets freep;
  h ← load prevp;
  s ← get;
  (** One round over the blocks, and one more after [morecore]. *)
  malloc_loop (2 * (S (S (Z.to_nat ((Z.max (brk s) limit - heap0) / HSIZE))))) nunits prevp (ptr h).
End umalloc.
End Umalloc.
