(* ===== verification/UmallocSpec.v ===== *)
(** The allocator hands out disjoint blocks: the free list and the blocks in use
    partition the heap, whatever sequence of calls a program makes. *)

From stdpp Require Import sorting.
From S2P Require Import Prelude Umalloc.

Local Open Scope Z_scope.

Module UmallocSpec.

Import Umalloc.

(** ** Blocks *)

(** A block is its address and its size in units of a header. *)
Abbreviation block := (Z * Z)%type.

(** The addresses of the units of a block. *)
Definition cells (a n : Z) : list Z := (λ k, a + HSIZE * k) <$> seqZ 0 n.
Definition cover (B : list block) : list Z := B ≫= λ b, cells b.1 b.2.

Lemma elem_of_cells x a n : x ∈ cells a n ↔ ∃ k, 0 ≤ k < n ∧ x = a + HSIZE * k.
Proof.
  unfold cells. rewrite list_elem_of_fmap. split.
  - intros (k & -> & Hk%elem_of_seqZ). exists k. split; [lia|done].
  - intros (k & Hk & ->). exists k. split; [done|]. apply elem_of_seqZ. lia.
Qed.
Lemma NoDup_cells a n : NoDup (cells a n).
Proof. apply NoDup_fmap_2; [|apply NoDup_seqZ]. unfold HSIZE. intros x y H. lia. Qed.
Lemma cells_app a n m : 0 ≤ n → 0 ≤ m → cells a (n + m) = cells a n ++ cells (a + HSIZE * n) m.
Proof.
  intros. unfold cells. rewrite seqZ_app, fmap_app by lia. f_equal. replace (0 + n) with (n + 0) by lia.
  rewrite <-(fmap_add_seqZ n 0 m), <-list_fmap_compose. apply list_fmap_ext. intros i x _. cbn. unfold HSIZE. lia.
Qed.
Lemma length_cells a n : length (cells a n) = Z.to_nat n.
Proof. unfold cells. by rewrite length_fmap, length_seqZ. Qed.

Lemma cover_cons b B : cover (b :: B) = cells b.1 b.2 ++ cover B.
Proof. done. Qed.
Lemma cover_app B B' : cover (B ++ B') = cover B ++ cover B'.
Proof. apply bind_app. Qed.
#[export] Instance cover_proper : Proper ((≡ₚ) ==> (≡ₚ)) cover.
Proof. intros B B' H. unfold cover. by rewrite H. Qed.
Lemma elem_of_cover x B : x ∈ cover B ↔ ∃ b, b ∈ B ∧ x ∈ cells b.1 b.2.
Proof. unfold cover. rewrite list_elem_of_bind. naive_solver. Qed.
Lemma cover_length B : Forall (λ b, 0 < b.2) B → (length B ≤ length (cover B))%nat.
Proof.
  induction 1 as [|b B Hb _ IH]; [done|]. rewrite cover_cons, length_app, length_cells. cbn. lia.
Qed.

(** [B] are blocks of at least one unit that partition [H] units from [lo]. *)
Definition partition (lo H : Z) (B : list block) : Prop :=
  Forall (λ b, 0 < b.2) B ∧ cover B ≡ₚ cells lo H.

Lemma partition_perm lo H B B' : B ≡ₚ B' → partition lo H B → partition lo H B'.
Proof. intros HB [Hp Hc]. split; [by rewrite <-HB|by rewrite <-HB]. Qed.

Lemma partition_in lo H B a n :
  partition lo H B → (a, n) ∈ B → ∃ k, 0 ≤ k ∧ a = lo + HSIZE * k ∧ k + n ≤ H ∧ 0 < n.
Proof.
  intros [Hp Hc] Hin. pose proof (proj1 (Forall_forall _ _) Hp _ Hin) as Hn. cbn in Hn.
  assert (Hsub : ∀ x, x ∈ cells a n → x ∈ cells lo H).
  { intros x Hx. rewrite <-Hc. apply elem_of_cover. eauto. }
  destruct (proj1 (elem_of_cells a lo H)) as (k & Hk & ->); [apply Hsub, elem_of_cells; exists 0; lia|].
  destruct (proj1 (elem_of_cells (lo + HSIZE * k + HSIZE * (n - 1)) lo H)) as (j & Hj & Hj').
  { apply Hsub, elem_of_cells. exists (n - 1). lia. }
  exists k. unfold HSIZE in *. lia.
Qed.

(** Two blocks of a partition do not overlap. *)
Lemma partition_apart lo H a n b m B :
  partition lo H ((a, n) :: (b, m) :: B) → a < b → a + HSIZE * n ≤ b.
Proof.
  intros Hpt Hlt. destruct (partition_in lo H _ a n Hpt) as (k & ? & -> & ? & ?); [set_solver|].
  destruct (partition_in lo H _ b m Hpt) as (j & ? & -> & ? & ?); [set_solver|].
  destruct (decide (j < k + n)); [|unfold HSIZE in *; lia]. exfalso.
  destruct Hpt as [_ Hc]. pose proof (NoDup_cells lo H) as Hnd. rewrite <-Hc, !cover_cons, NoDup_app in Hnd.
  destruct Hnd as (_ & Hd & _). apply (Hd (lo + HSIZE * j)).
  - apply elem_of_cells. exists (j - k). cbn. unfold HSIZE in *. lia.
  - apply elem_of_app. left. apply elem_of_cells. exists 0. cbn. unfold HSIZE in *. lia.
Qed.
Lemma partition_ne lo H a n b m B : partition lo H ((a, n) :: (b, m) :: B) → a ≠ b.
Proof.
  intros Hpt ->. destruct (partition_in lo H _ b n Hpt) as (k & ? & -> & ? & ?); [set_solver|].
  destruct (partition_in lo H _ (lo + HSIZE * k) m Hpt) as (j & ? & ? & ? & ?); [set_solver|].
  destruct Hpt as [_ Hc]. pose proof (NoDup_cells lo H) as Hnd. rewrite <-Hc, !cover_cons, NoDup_app in Hnd.
  destruct Hnd as (_ & Hd & _). apply (Hd (lo + HSIZE * k)).
  - apply elem_of_cells. exists 0. cbn. lia.
  - apply elem_of_app. left. apply elem_of_cells. exists 0. cbn. lia.
Qed.

(** Joining and splitting. *)
Lemma partition_join lo H a n m B :
  0 < n → 0 < m → partition lo H ((a, n) :: (a + HSIZE * n, m) :: B) ↔ partition lo H ((a, n + m) :: B).
Proof.
  intros Hn Hm. unfold partition. rewrite !Forall_cons, !cover_cons. cbn.
  rewrite cells_app by lia. rewrite <-app_assoc. intuition lia.
Qed.

(** ** The free list *)

Definition first (B : list block) (e : Z) : Z := match B with (a, _) :: _ => a | [] => e end.
(** The headers in [m] link the blocks [B] in order, and the last to [e]. *)
Fixpoint links (m : gmap Z header) (B : list block) (e : Z) : Prop :=
  match B with
  | [] => True
  | (a, n) :: B => m !!! a = MkHeader (first B e) n ∧ links m B e
  end.

Lemma first_app B B' e : first (B ++ B') e = first B (first B' e).
Proof. by destruct B as [|[]]. Qed.
Lemma links_app m B B' e : links m (B ++ B') e ↔ links m B (first B' e) ∧ links m B' e.
Proof.
  induction B as [|[a n] B IH]; cbn [app links]; [tauto|]. rewrite IH, first_app. tauto.
Qed.
Lemma links_insert m B e a h : a ∉ B.*1 → links (<[a := h]> m) B e ↔ links m B e.
Proof.
  induction B as [|[b n] B IH]; cbn [links fmap list_fmap]; [done|]. intros Hn.
  rewrite lookup_total_insert_ne by set_solver. rewrite IH by set_solver. done.
Qed.
Lemma links_agree m m' B e : links m B e → (∀ a n, (a, n) ∈ B → m' !!! a = m !!! a) → links m' B e.
Proof.
  induction B as [|[a n] B IH]; cbn [links]; [done|]. intros [Ha Hl] Hm. rewrite (Hm a n) by left.
  split; [done|]. apply IH; [done|]. intros x y Hx. apply (Hm x y). by right.
Qed.
Lemma links_lookup m B e a n : links m B e → (a, n) ∈ B → hsize (m !!! a) = n.
Proof.
  induction B as [|[b k] B IH]; [by intros _ ?%elem_of_nil|]. intros [Hb Hl] [[= -> ->]|Hin]%elem_of_cons; [by rewrite Hb|auto].
Qed.

Section heap.
Context (base heap0 limit : Z).
Context (Hbase : 0 < base ∧ base + HSIZE ≤ heap0).

(** How many units the process got from [sbrk]. *)
Definition got (s : ust) : Z := (brk s - heap0) / HSIZE.

(** A gap between one block and the next: sorted, and with something in use in
    between. *)
Definition gap (x y : block) : Prop := x.1 + HSIZE * x.2 < y.1.

(** The heap with free blocks [L] and blocks in use [A].  [base] is the first
    block of the list, of size 0. *)
Record heap (s : ust) (L A : list block) : Prop := {
  h_brk : 0 ≤ got s < 2 ^ 32 ∧ brk s = heap0 + HSIZE * got s;
  h_part : partition heap0 (got s) (L ++ A);
  h_sorted : StronglySorted gap ((base, 0) :: L);
  h_links : links (mem s) ((base, 0) :: L) base;
  h_freep : freep s ∈ base :: L.*1;
  h_live : Forall (λ b, hsize (mem s !!! b.1) = b.2) A;
}.

Lemma wp_header a (Q : header → ust → Prop) s : valid base heap0 s a → Q (mem s !!! a) s → wp (load base heap0 a) Q s.
Proof. intros Hv HQ. unfold load. apply wp_bind, wp_get. by rewrite bool_decide_true by done. Qed.
Lemma wp_set_header a h (Q : unit → ust → Prop) s :
  valid base heap0 s a → Q tt (MkUst (<[a := h]> (mem s)) (freep s) (brk s)) → wp (store base heap0 a h) Q s.
Proof. intros Hv HQ. unfold store. apply wp_bind, wp_get. by rewrite bool_decide_true by done. Qed.
Lemma wp_set_ptr a v (Q : unit → ust → Prop) s :
  valid base heap0 s a → Q tt (MkUst (<[a := MkHeader v (hsize (mem s !!! a))]> (mem s)) (freep s) (brk s)) →
  wp (set_ptr base heap0 a v) Q s.
Proof. intros Hv HQ. unfold set_ptr. apply wp_bind, wp_header; [done|]. by apply wp_set_header. Qed.
Lemma wp_set_size a v (Q : unit → ust → Prop) s :
  valid base heap0 s a → Q tt (MkUst (<[a := MkHeader (ptr (mem s !!! a)) (u32 v)]> (mem s)) (freep s) (brk s)) →
  wp (set_size base heap0 a v) Q s.
Proof. intros Hv HQ. unfold set_size. apply wp_bind, wp_header; [done|]. by apply wp_set_header. Qed.

Lemma heap_in s L A a n : heap s L A → (a, n) ∈ L ++ A →
  heap0 ≤ a ∧ a + HSIZE * n ≤ brk s ∧ 0 < n ∧ n < 2 ^ 32.
Proof.
  intros Hh Hin. destruct (h_brk _ _ _ Hh) as [Hg Hb].
  destruct (partition_in _ _ _ _ _ (h_part _ _ _ Hh) Hin) as (k & ? & -> & ? & ?). unfold HSIZE in *. lia.
Qed.
Lemma heap_valid s L A a n : heap s L A → (a, n) ∈ (base, 0) :: L ++ A → valid base heap0 s a.
Proof.
  intros Hh [[= -> ->]|Hin]%elem_of_cons; [by left|]. right.
  destruct (heap_in s L A a n Hh Hin) as (? & ? & ? & _). unfold HSIZE in *. lia.
Qed.

(** ** Finding the place of a block *)

Definition stops (bp a nx : Z) : Prop := (a < bp ∧ bp < nx) ∨ (nx ≤ a ∧ (a < bp ∨ bp < nx)).

#[export] Instance stops_dec bp a nx : Decision (stops bp a nx).
Proof. unfold stops. apply _. Defined.

Lemma free_loop_run bp s : ∀ R e n p,
  links (mem s) R e → (∀ a m, (a, m) ∈ R → valid base heap0 s a) → (length R ≤ n)%nat → first R e = p → R ≠ [] →
  (∃ a m, (a, m) ∈ R ∧ stops bp a (ptr (mem s !!! a))) →
  ∃ a m, free_loop base heap0 n bp p s = Ok a s ∧ (a, m) ∈ R ∧ stops bp a (ptr (mem s !!! a)).
Proof.
  induction R as [|[a m] R IH]; intros e n p Hl Hv Hn Hp Hne Hex; [done|]. cbn in Hn. destruct n as [|n]; [lia|].
  cbn in Hp. subst p. destruct Hl as [Ha Hl]. cbn [free_loop]. unfold mbind, M_bind, load at 1, mbind at 1, M_bind at 1, get at 1.
  rewrite bool_decide_true by (apply (Hv a m); set_solver). unfold mret, M_ret.
  destruct (decide (stops bp a (ptr (mem s !!! a)))) as [Hs|Hs].
  - exists a, m. split; [|split; [set_solver|done]]. destruct Hs as [Hs|Hs].
    + by rewrite bool_decide_true.
    + case_bool_decide; [done|]. by rewrite bool_decide_true.
  - rewrite bool_decide_false by (intros ?; apply Hs; by left). rewrite bool_decide_false by (intros ?; apply Hs; by right).
    destruct Hex as (c & k & [[= -> ->]|Hc]%elem_of_cons & Hsc); [done|].
    destruct (IH e n (first R e)) as (x & y & Hrun & Hin & Hsx); try done.
    + intros x y Hin. apply (Hv x y). set_solver.
    + lia.
    + intros ->. by apply elem_of_nil in Hc.
    + eauto.
    + exists x, y. rewrite Ha. cbn [ptr]. split; [done|]. split; [set_solver|done].
Qed.

Lemma sorted_lt x N y : StronglySorted gap (x :: N) → 0 ≤ x.2 → y ∈ N → x.1 < y.1.
Proof.
  intros Hs Hx Hy. apply StronglySorted_inv in Hs as [_ Hs]. apply (proj1 (Forall_forall _ _) Hs) in Hy.
  unfold gap, HSIZE in *. lia.
Qed.

(** The last block before [bp]. *)
Lemma place bp : ∀ N b,
  StronglySorted gap (b :: N) → b.1 < bp → (∀ x, x ∈ N → x.1 ≠ bp) → (∀ x, x ∈ b :: N → 0 ≤ x.2) →
  ∃ N1 a m N2, b :: N = N1 ++ (a, m) :: N2 ∧ a < bp ∧ ∀ x, x ∈ N2 → bp < x.1.
Proof.
  induction N as [|c N IH]; intros [a m] Hs Hb Hne Hpos.
  - exists [], a, m, []. split; [done|]. split; [done|]. by intros x ?%elem_of_nil.
  - apply StronglySorted_inv in Hs as Hs'. destruct Hs' as [Hs' _]. destruct (decide (c.1 < bp)).
    + destruct (IH c) as (N1 & a' & m' & N2 & -> & ? & ?); try done; [set_solver..|].
      exists ((a, m) :: N1), a', m', N2. done.
    + exists [], a, m, (c :: N). split; [done|]. split; [done|]. intros x [->|Hx]%elem_of_cons.
      * specialize (Hne c ltac:(set_solver)). lia.
      * pose proof (sorted_lt _ _ _ Hs' (Hpos c ltac:(set_solver)) Hx). specialize (Hne c ltac:(set_solver)). lia.
Qed.

Lemma sorted_nodup N : StronglySorted gap N → (∀ x, x ∈ N → 0 ≤ x.2) → NoDup N.*1.
Proof.
  induction N as [|b N IH]; intros Hs Hpos; cbn; [constructor|]. constructor.
  - intros (y & Hy & Hin)%list_elem_of_fmap. pose proof (sorted_lt _ _ _ Hs (Hpos b ltac:(set_solver)) Hin). lia.
  - apply IH; [by apply StronglySorted_inv in Hs as [? _]|]. intros x Hx. apply Hpos. set_solver.
Qed.

(** Where the loop of [free] stops. *)
Lemma stops_place bp N1 a m N2 :
  StronglySorted gap (N1 ++ (a, m) :: N2) → (∀ x, x ∈ N1 ++ (a, m) :: N2 → 0 ≤ x.2 ∧ base ≤ x.1) → base < bp →
  stops bp a (first N2 base) ↔ a < bp ∧ ∀ x, x ∈ N2 → bp < x.1.
Proof.
  intros Hs Hpos Hb. apply StronglySorted_app_1_r in Hs. destruct (Hpos (a, m)) as [Hm Ha]; [set_solver|]. cbn in Hm, Ha.
  destruct N2 as [|[c k] N2]; cbn [first]; unfold stops.
  - split; [|intros []; lia]. intros H. split; [lia|]. by intros x ?%elem_of_nil.
  - pose proof (sorted_lt _ _ (c, k) Hs Hm ltac:(set_solver)) as Hac. cbn in Hac. split.
    + intros H. split; [lia|]. intros x [->|Hx]%elem_of_cons; [cbn; lia|].
      apply StronglySorted_inv in Hs as [Hs _]. destruct (Hpos (c, k)) as [Hk _]; [set_solver|].
      pose proof (sorted_lt _ _ _ Hs Hk Hx). cbn in *. lia.
    + intros [? H]. specialize (H (c, k) ltac:(set_solver)). cbn in H. lia.
Qed.

Lemma links_ptr N1 a m N2 e mm : links mm (N1 ++ (a, m) :: N2) e → mm !!! a = MkHeader (first N2 e) m.
Proof. rewrite links_app. by intros [_ [Ha _]]. Qed.

(** The list, read from any of its blocks on. *)
Lemma links_rotate X a m Y mm :
  links mm (X ++ (a, m) :: Y) base → first (X ++ (a, m) :: Y) 0 = base → links mm ((a, m) :: Y ++ X) a.
Proof.
  intros [Hx Hy]%links_app Hf. change ((a, m) :: Y ++ X) with (((a, m) :: Y) ++ X). apply links_app. split; [|done].
  destruct X as [|[b k] X]; cbn in Hf |- *; subst; done.
Qed.

Lemma heap_pos s L A x : heap s L A → x ∈ (base, 0) :: L → 0 ≤ x.2 ∧ base ≤ x.1.
Proof.
  intros Hh [->|Hx]%elem_of_cons; [done|]. destruct x as [a n].
  destruct (heap_in s L A a n Hh) as (? & _ & ? & _); [set_solver|]. cbn. unfold HSIZE in *. lia.
Qed.

Lemma heap_length s L A : heap s L A → (length L ≤ Z.to_nat (got s))%nat.
Proof.
  intros Hh. destruct (h_part _ _ _ Hh) as [Hp Hc]. apply cover_length in Hp. rewrite Hc, length_cells, length_app in Hp. lia.
Qed.

Lemma free_place s L bp n A :
  heap s L ((bp, n) :: A) →
  ∃ N1 p m N2, (base, 0) :: L = N1 ++ (p, m) :: N2 ∧ p < bp ∧ (∀ x, x ∈ N2 → bp < x.1) ∧
    free_loop base heap0 (S (S (Z.to_nat (got s)))) bp (freep s) s = Ok p s.
Proof.
  intros Hh. pose proof (heap_pos s L) as Hpos. destruct (heap_in s L _ bp n Hh) as (Hb0 & Hb1 & Hn & _); [set_solver|].
  assert (Hbb : base < bp) by (unfold HSIZE in *; lia).
  assert (Hne : ∀ x, x ∈ L → x.1 ≠ bp).
  { intros [a m] Ha. apply list_elem_of_split in Ha as (L1 & L2 & ->). apply (partition_ne heap0 (got s) a m bp n (L1 ++ L2 ++ A)).
    eapply partition_perm; [|apply Hh]. cbn. solve_Permutation. }
  destruct (place bp L (base, 0) (h_sorted _ _ _ Hh) Hbb Hne) as (N1 & p & m & N2 & HN & Hp & HN2).
  { intros x Hx. by apply (Hpos ((bp, n) :: A) x Hh). }
  pose proof (h_sorted _ _ _ Hh) as Hs. assert (Hl : links (mem s) ((base, 0) :: L) base) by apply Hh.
  assert (Hfp : freep s ∈ ((base, 0) :: L).*1) by apply Hh.
  apply list_elem_of_fmap in Hfp as ([fp k] & -> & Hfp). apply list_elem_of_split in Hfp as (X & Y & HXY).
  assert (Hrot : links (mem s) ((fp, k) :: Y ++ X) fp).
  { apply links_rotate; rewrite <-HXY; done. }
  assert (Hmem : ∀ x, x ∈ (fp, k) :: Y ++ X ↔ x ∈ (base, 0) :: L) by (intros x; rewrite HXY; set_solver).
  destruct (free_loop_run bp s ((fp, k) :: Y ++ X) fp (S (S (Z.to_nat (got s)))) fp) as (a & j & Hrun & Hin & Hst); try done.
  - intros x y Hx%Hmem. apply (heap_valid s L ((bp, n) :: A) x y); [done|]. set_solver.
  - pose proof (heap_length s L _ Hh) as Hlen. apply (f_equal length) in HXY. cbn in *. rewrite length_app in *. cbn in *. lia.
  - exists p, m. split; [apply Hmem; rewrite HN; set_solver|]. rewrite HN in Hl, Hs. rewrite (links_ptr _ _ _ _ _ _ Hl).
    apply (stops_place bp N1 p m N2); [done| |done|done]. intros x Hx. rewrite <-HN in Hx. by apply (Hpos ((bp, n) :: A)).
  - apply Hmem in Hin. apply list_elem_of_split in Hin as (M1 & M2 & HM). exists M1, a, j, M2.
    rewrite HM in Hl, Hs. rewrite (links_ptr _ _ _ _ _ _ Hl) in Hst.
    apply (stops_place bp M1 a j M2) in Hst as [? ?]; [done|done| |done]. intros x Hx. rewrite <-HM in Hx. by apply (Hpos ((bp, n) :: A)).
Qed.

Lemma split_at L N1 p m N2 :
  (base, 0) :: L = N1 ++ (p, m) :: N2 → ∃ Lp, L = Lp ++ N2 ∧ (base, 0) :: Lp = N1 ++ [(p, m)].
Proof.
  destruct N1 as [|b N1]; cbn; intros H; simplify_eq.
  - by exists [].
  - exists (N1 ++ [(p, m)]). by rewrite <-app_assoc.
Qed.

(** Joining the block with the one after it. *)
Lemma free_right s Lp p m N1 N2 bp n A (Q : unit → ust → Prop) :
  heap s (Lp ++ N2) ((bp, n) :: A) → (base, 0) :: Lp = N1 ++ [(p, m)] → (∀ x, x ∈ N2 → bp < x.1) →
  (∀ n' N2', n ≤ n' < 2 ^ 32 → partition heap0 (got s) ((Lp ++ (bp, n') :: N2') ++ A) →
     StronglySorted gap ((bp, n') :: N2') → links (mem s) N2' base → (∀ x, x ∈ N2' → x ∈ N2) →
     Q tt (MkUst (<[bp := MkHeader (first N2' base) n']> (mem s)) (freep s) (brk s))) →
  wp (if bool_decide (bp + HSIZE * n = first N2 base)
      then q ← load base heap0 (first N2 base);
           set_size base heap0 bp (n + hsize q);; set_ptr base heap0 bp (ptr q)
      else set_ptr base heap0 bp (first N2 base)) Q s.
Proof.
  intros Hh HLp HN2 HQ. destruct (heap_in s _ _ bp n Hh) as (Hb0 & Hb1 & Hn & Hn32); [set_solver|].
  assert (Hlive : hsize (mem s !!! bp) = n) by (by destruct (proj1 (Forall_cons _ _ _) (h_live _ _ _ Hh))).
  assert (Hvb : valid base heap0 s bp) by (right; unfold HSIZE in *; lia).
  assert (Hl : links (mem s) ((base, 0) :: Lp ++ N2) base) by apply Hh.
  change ((base, 0) :: Lp ++ N2) with (((base, 0) :: Lp) ++ N2) in Hl. apply links_app in Hl as [_ Hl].
  pose proof (h_sorted _ _ _ Hh) as Hs. change ((base, 0) :: Lp ++ N2) with (((base, 0) :: Lp) ++ N2) in Hs.
  apply StronglySorted_app_1_r in Hs. pose proof (h_part _ _ _ Hh) as Hpt.
  case_bool_decide as Hc.
  - destruct N2 as [|[c k] N2]; cbn [first] in Hc |- *; [unfold HSIZE in *; lia|]. subst c. destruct Hl as [Hck Hl].
    destruct (heap_in s _ _ (bp + HSIZE * n) k Hh) as (? & ? & ? & ?); [set_solver|].
    assert (Hpt' : partition heap0 (got s) ((bp, n + k) :: Lp ++ N2 ++ A)).
    { apply partition_join; [done..|]. eapply partition_perm; [|exact Hpt]. solve_Permutation. }
    destruct (partition_in _ _ _ bp (n + k) Hpt') as (j & ? & ? & ? & _); [set_solver|].
    destruct (h_brk _ _ _ Hh) as [Hg _].
    apply wp_bind, wp_header; [right; unfold HSIZE in *; lia|]. apply wp_bind, wp_set_size; [done|].
    apply wp_set_ptr; [done|]. cbn. rewrite Hck, lookup_total_insert_eq, insert_insert_eq, u32_id by (cbn; unfold is_u32; lia). cbn.
    apply HQ; [lia|..|done|set_solver].
    + eapply partition_perm; [|exact Hpt']. solve_Permutation.
    + apply StronglySorted_inv in Hs as [Hs Hf]. constructor; [done|]. eapply Forall_impl; [exact Hf|].
      intros x. unfold gap, HSIZE. cbn. lia.
  - apply wp_set_ptr; [done|]. rewrite Hlive. apply HQ; [lia|..|done|done].
    + eapply partition_perm; [|exact Hpt]. solve_Permutation.
    + constructor; [done|]. apply Forall_forall. intros [c k] Hx. unfold gap. cbn.
      assert (Hap : bp + HSIZE * n ≤ c).
      { pose proof (HN2 _ Hx) as Hlt. cbn in Hlt. apply list_elem_of_split in Hx as (M1 & M2 & ->).
        eapply (partition_apart heap0 (got s) bp n c k (Lp ++ M1 ++ M2 ++ A)); [|done].
        eapply partition_perm; [|exact Hpt]. solve_Permutation. }
      destruct N2 as [|[c' k'] N2]; [by apply elem_of_nil in Hx|]. cbn [first] in Hc.
      apply elem_of_cons in Hx as [[= -> ->]|Hx]; [lia|].
      pose proof (sorted_lt (c', k') N2 (c, k) Hs) as Hlt. destruct (heap_in s _ _ c' k' Hh) as (? & ? & ? & ?); [set_solver|].
      specialize (Hlt ltac:(cbn; lia) Hx). cbn in Hlt. pose proof (HN2 (c', k') ltac:(set_solver)). cbn in *.
      assert (bp + HSIZE * n ≤ c').
      { eapply (partition_apart heap0 (got s) bp n c' k' (Lp ++ N2 ++ A)); [|done].
        eapply partition_perm; [|exact Hpt]. solve_Permutation. }
      lia.
Qed.

(** ** [free] *)

Section left.
Context (s : ust) (Lp N1 N2 N2' A : list block) (p m bp n n' : Z).
Context (Hh : heap s (Lp ++ N2) ((bp, n) :: A)) (HLp : (base, 0) :: Lp = N1 ++ [(p, m)]).
Context (Hp : p < bp) (HN2 : ∀ x, x ∈ N2 → bp < x.1) (Hn' : n ≤ n' < 2 ^ 32).
Context (Hpt : partition heap0 (got s) ((Lp ++ (bp, n') :: N2') ++ A)).
Context (Hs2 : StronglySorted gap ((bp, n') :: N2')) (Hl2 : links (mem s) N2' base).
Context (Hsub : ∀ x, x ∈ N2' → x ∈ N2).

Lemma left_sorted : StronglySorted gap (N1 ++ [(p, m)]) ∧ ∀ x y, x ∈ N1 ++ [(p, m)] → y ∈ N2 → gap x y.
Proof.
  pose proof (h_sorted _ _ _ Hh) as Hs. change ((base, 0) :: Lp ++ N2) with (((base, 0) :: Lp) ++ N2) in Hs.
  rewrite HLp in Hs. apply StronglySorted_app in Hs as (Hx & Hs & _). split; [done|]. intros x y. apply Hx.
Qed.
Lemma left_links : links (mem s) (N1 ++ [(p, m)]) (first N2 base).
Proof.
  assert (Hl : links (mem s) ((base, 0) :: Lp ++ N2) base) by apply Hh.
  change ((base, 0) :: Lp ++ N2) with (((base, 0) :: Lp) ++ N2) in Hl. rewrite HLp in Hl. by apply links_app in Hl as [? _].
Qed.
Lemma left_pos x : x ∈ N1 ++ [(p, m)] → 0 ≤ x.2 ∧ base ≤ x.1.
Proof. intros Hx. apply (heap_pos s (Lp ++ N2) ((bp, n) :: A) x Hh). rewrite <-HLp in Hx. set_solver. Qed.
Lemma left_before x : x ∈ N1 → gap x (p, m).
Proof. intros Hx. destruct left_sorted as [Hs _]. apply StronglySorted_app in Hs as (H & _). apply H; [done|set_solver]. Qed.
Lemma left_addr : bp ∉ N1.*1 ∧ p ∉ N1.*1 ∧ bp ∉ N2'.*1 ∧ p ∉ N2'.*1.
Proof.
  assert (Hlt : ∀ x, x ∈ N1 → x.1 < p).
  { intros x Hx. pose proof (left_before x Hx) as Hg. destruct (left_pos x) as [? _]; [set_solver|]. unfold gap, HSIZE in *. cbn in *. lia. }
  split_and!; intros (x & -> & Hx)%list_elem_of_fmap.
  - apply Hlt in Hx. lia.
  - apply Hlt in Hx. lia.
  - apply Hsub, HN2 in Hx. lia.
  - apply Hsub, HN2 in Hx. lia.
Qed.
Lemma left_gap : p + HSIZE * m ≤ bp.
Proof.
  destruct (decide ((p, m) ∈ Lp)) as [Hin|Hin].
  - apply list_elem_of_split in Hin as (M1 & M2 & HM).
    eapply (partition_apart heap0 (got s) p m bp n' (M1 ++ M2 ++ N2' ++ A)); [|done].
    eapply partition_perm; [|exact Hpt]. rewrite HM. solve_Permutation.
  - assert ((p, m) ∈ (base, 0) :: Lp) as [[= -> ->]|?]%elem_of_cons by (rewrite HLp; set_solver); [unfold HSIZE; lia|done].
Qed.

(** The headers of blocks in use are not touched. *)
Lemma left_live h h' : Forall (λ b, hsize (<[p := h]> (<[bp := h']> (mem s)) !!! b.1) = b.2) A.
Proof.
  apply Forall_forall. intros [a k] Hin. cbn.
  assert (Ha : hsize (mem s !!! a) = k).
  { pose proof (h_live _ _ _ Hh) as Hlv. apply Forall_cons in Hlv as [_ Hlv]. by apply (proj1 (Forall_forall _ _) Hlv (a, k)). }
  destruct (heap_in s _ _ a k Hh) as (? & _); [set_solver|].
  assert (bp ≠ a).
  { pose proof Hin as Hin'. apply list_elem_of_split in Hin' as (M1 & M2 & HM).
    apply (partition_ne heap0 (got s) bp n' a k (Lp ++ N2' ++ M1 ++ M2)). eapply partition_perm; [|exact Hpt]. rewrite HM. solve_Permutation. }
  assert (p ≠ a).
  { assert ((p, m) ∈ (base, 0) :: Lp) as [[= -> ->]|Hp']%elem_of_cons by (rewrite HLp; set_solver); [unfold HSIZE in *; lia|].
    apply list_elem_of_split in Hp' as (K1 & K2 & HK). apply list_elem_of_split in Hin as (M1 & M2 & HM).
    apply (partition_ne heap0 (got s) p m a k ((bp, n') :: K1 ++ K2 ++ N2' ++ M1 ++ M2)).
    eapply partition_perm; [|exact Hpt]. rewrite HK, HM. solve_Permutation. }
  by rewrite !lookup_total_insert_ne by done.
Qed.

Lemma left_apart :
  p + HSIZE * m ≠ bp →
  heap (MkUst (<[p := MkHeader bp m]> (<[bp := MkHeader (first N2' base) n']> (mem s))) p (brk s))
    (Lp ++ (bp, n') :: N2') A.
Proof.
  intros Hap. destruct left_addr as (Hb1 & Hp1 & Hb2 & Hp2). destruct left_sorted as [Hs Hx]. pose proof left_gap as Hg.
  split.
  - apply Hh.
  - done.
  - change ((base, 0) :: Lp ++ (bp, n') :: N2') with (((base, 0) :: Lp) ++ (bp, n') :: N2'). rewrite HLp.
    apply StronglySorted_app. split; [|done]. intros x y Hin [->|Hy]%elem_of_cons.
    + apply elem_of_app in Hin as [Hin| ->%list_elem_of_singleton]; [|unfold gap; cbn; lia].
      pose proof (left_before x Hin). unfold gap in *. cbn in *. lia.
    + apply Hx; [done|by apply Hsub].
  - change ((base, 0) :: Lp ++ (bp, n') :: N2') with (((base, 0) :: Lp) ++ (bp, n') :: N2'). cbn [mem].
    apply links_app. rewrite HLp. split.
    + pose proof left_links as Hl. apply links_app in Hl as [Hl _]. apply links_app. cbn [first links] in *.
      rewrite !links_insert by done. by rewrite lookup_total_insert_eq.
    + cbn [links]. rewrite !links_insert by done. rewrite lookup_total_insert_ne, lookup_total_insert_eq by lia. done.
  - cbn [freep]. assert (Hin : p ∈ (N1 ++ [(p, m)]).*1) by (apply list_elem_of_fmap; exists (p, m); set_solver).
    rewrite <-HLp in Hin. rewrite fmap_app. cbn in Hin. set_solver.
  - apply left_live.
Qed.

Lemma left_join :
  p + HSIZE * m = bp →
  ∃ L', heap (MkUst (<[p := MkHeader (first N2' base) (m + n')]> (<[bp := MkHeader (first N2' base) n']> (mem s))) p (brk s)) L' A ∧
        (p, m + n') ∈ L' ∧ m + n' < 2 ^ 32.
Proof.
  intros Heq. destruct left_addr as (Hb1 & Hp1 & Hb2 & Hp2). destruct left_sorted as [Hs Hx].
  assert (∃ L1, N1 = (base, 0) :: L1 ∧ Lp = L1 ++ [(p, m)]) as (L1 & HN1 & HL1).
  { destruct N1 as [|b L1]; cbn in HLp; simplify_eq; [unfold HSIZE in *; lia|]. eauto. }
  assert (Hm : 0 < m) by (destruct (heap_in s _ _ p m Hh) as (_ & _ & ? & _); [rewrite HL1; set_solver|done]).
  assert (Hpt' : partition heap0 (got s) ((p, m + n') :: L1 ++ N2' ++ A)).
  { apply partition_join; [done| |]; [destruct (heap_in s _ _ bp n Hh) as (_ & _ & ? & _); [set_solver|lia]|].
    rewrite Heq. eapply partition_perm; [|exact Hpt]. rewrite HL1. solve_Permutation. }
  exists (L1 ++ (p, m + n') :: N2'). split; [split|split].
  - apply Hh.
  - eapply partition_perm; [|exact Hpt']. solve_Permutation.
  - change ((base, 0) :: L1 ++ (p, m + n') :: N2') with (((base, 0) :: L1) ++ (p, m + n') :: N2'). rewrite <-HN1.
    apply StronglySorted_app. split; [|split].
    + intros x y Hin [->|Hy]%elem_of_cons; [exact (left_before x Hin)|]. apply Hx; [set_solver|by apply Hsub].
    + by apply StronglySorted_app in Hs as (_ & ? & _).
    + apply StronglySorted_inv in Hs2 as [? Hf]. constructor; [done|]. eapply Forall_impl; [exact Hf|].
      intros x. unfold gap. cbn. unfold HSIZE in *. lia.
  - change ((base, 0) :: L1 ++ (p, m + n') :: N2') with (((base, 0) :: L1) ++ (p, m + n') :: N2'). rewrite <-HN1.
    pose proof left_links as Hl. apply links_app in Hl as [Hl _]. cbn [mem].
    apply links_app. cbn [first links] in *. rewrite !links_insert by done. by rewrite lookup_total_insert_eq.
  - cbn [freep]. rewrite fmap_app. cbn. set_solver.
  - apply left_live.
  - set_solver.
  - destruct (partition_in _ _ _ p (m + n') Hpt') as (j & ? & ? & ? & _); [set_solver|]. destruct (h_brk _ _ _ Hh). lia.
Qed.
End left.

Lemma free_wp s L bp n A :
  heap s L ((bp, n) :: A) →
  wp (free base heap0 (bp + HSIZE))
     (λ _ s', brk s' = brk s ∧ ∃ L', heap s' L' A ∧ ∃ a k, (a, k) ∈ L' ∧ n ≤ k) s.
Proof.
  intros Hh. destruct (free_place s L bp n A Hh) as (N1 & p & m & N2 & HN & Hp & HN2 & Hloop).
  destruct (split_at L N1 p m N2 HN) as (Lp & -> & HLp).
  assert (Hlive : hsize (mem s !!! bp) = n) by (by destruct (proj1 (Forall_cons _ _ _) (h_live _ _ _ Hh))).
  assert (Hl : links (mem s) ((base, 0) :: Lp ++ N2) base) by apply Hh.
  assert (Hpm : mem s !!! p = MkHeader (first N2 base) m) by (rewrite HN in Hl; by apply links_ptr in Hl).
  assert (Hvb : valid base heap0 s bp) by (apply (heap_valid s _ _ bp n Hh); set_solver).
  assert (Hpn : (p, m) ∈ (base, 0) :: Lp ++ N2) by (rewrite HN; set_solver).
  assert (Hvp : valid base heap0 s p) by (apply (heap_valid s _ _ p m Hh); set_solver).
  unfold free. replace (bp + HSIZE - HSIZE) with bp by lia.
  apply wp_bind, wp_gets, wp_bind, wp_gets, wp_bind. unfold wp at 1. fold (got s). rewrite Hloop.
  apply wp_bind, wp_header; [done|]. apply wp_bind, wp_header; [done|]. rewrite Hlive, Hpm. cbn [ptr hsize].
  apply wp_bind. eapply free_right; [done..|]. intros n' N2' Hn' Hpt Hs2 Hl2 Hsub.
  assert (Hne : bp ≠ p) by lia. apply wp_bind, wp_header; [done|]. cbn [mem].
  rewrite lookup_total_insert_ne, Hpm by done. cbn [hsize]. apply wp_bind. case_bool_decide as Hj.
  - destruct (left_join s Lp N1 N2 N2' A p m bp n n') as (L' & HL' & Hin & Hlt); try done.
    apply wp_bind, wp_header; [done|]. cbn [mem]. rewrite lookup_total_insert_eq. cbn [hsize ptr].
    apply wp_bind, wp_set_size; [done|]. apply wp_set_ptr; [done|]. cbn [mem freep brk].
    rewrite lookup_total_insert_eq, insert_insert_eq. cbn [hsize]. rewrite u32_id.
    + apply wp_modify. split; [done|]. exists L'. split; [done|]. exists p, (m + n'). split; [done|].
      destruct (heap_pos s _ _ (p, m) Hh Hpn). cbn in *. lia.
    + destruct (heap_pos s _ _ (p, m) Hh Hpn). destruct (heap_in s _ _ bp n Hh) as (_ & _ & ? & _); [set_solver|].
      cbn in *. unfold is_u32. lia.
  - apply wp_set_ptr; [done|]. cbn [mem freep brk]. rewrite lookup_total_insert_ne, Hpm by done. cbn [hsize].
    apply wp_modify. split; [done|]. eexists. split; [by eapply (left_apart s Lp N1 N2 N2' A p m bp n n')|].
    exists bp, n'. split; [set_solver|lia].
Qed.

(** ** [malloc] *)

(** A block of the list that is not [base], and the one before it. *)
Lemma after_block s L A prev p :
  heap s L A → prev ∈ base :: L.*1 → p = ptr (mem s !!! prev) → 0 < hsize (mem s !!! p) →
  ∃ N1 k Lp sz Z, L = Lp ++ (p, sz) :: Z ∧ (base, 0) :: Lp = N1 ++ [(prev, k)] ∧ mem s !!! p = MkHeader (first Z base) sz.
Proof.
  intros Hh Hin Hp Hsz. assert (Hl : links (mem s) ((base, 0) :: L) base) by apply Hh.
  change (base :: L.*1) with (((base, 0) :: L).*1) in Hin.
  apply list_elem_of_fmap in Hin as ([a k] & -> & Hin). cbn [fst] in *. apply list_elem_of_split in Hin as (N1 & N2 & HN).
  rewrite HN in Hl. destruct (split_at L N1 a k N2 HN) as (Lp & -> & HLp). pose proof (links_ptr _ _ _ _ _ _ Hl) as Ha.
  rewrite Ha in Hp. cbn in Hp. destruct N2 as [|[c sz] Z]; cbn in Hp; subst p.
  - assert (Hb : links (mem s) ((base, 0) :: Lp ++ []) base) by apply Hh. destruct Hb as [Hb _]. rewrite Hb in Hsz. cbn in Hsz. lia.
  - exists N1, k, Lp, sz, Z. split; [done|]. split; [done|]. apply links_app in Hl as [_ [_ [Hc _]]]. done.
Qed.

Section take.
Context (s : ust) (N1 Lp Z A : list block) (prev k p sz nu : BinNums.Z).
Context (Hh : heap s (Lp ++ (p, sz) :: Z) A) (HLp : (base, 0) :: Lp = N1 ++ [(prev, k)]).
Context (Hp : mem s !!! p = MkHeader (first Z base) sz) (Hnu : 0 < nu).

Lemma take_sorted :
  StronglySorted gap (N1 ++ [(prev, k)]) ∧ StronglySorted gap Z ∧
  (∀ x y, x ∈ N1 ++ [(prev, k)] → y ∈ (p, sz) :: Z → gap x y) ∧ (∀ y, y ∈ Z → gap (p, sz) y).
Proof.
  pose proof (h_sorted _ _ _ Hh) as Hs. change ((base, 0) :: Lp ++ (p, sz) :: Z) with (((base, 0) :: Lp) ++ (p, sz) :: Z) in Hs.
  rewrite HLp in Hs. apply StronglySorted_app in Hs as (Hx & Hs1 & Hs2). apply StronglySorted_inv in Hs2 as [Hs2 Hf].
  split_and!; try done. by apply Forall_forall.
Qed.
Lemma take_links : links (mem s) (N1 ++ [(prev, k)]) p ∧ links (mem s) Z base.
Proof.
  assert (Hl : links (mem s) ((base, 0) :: Lp ++ (p, sz) :: Z) base) by apply Hh.
  change ((base, 0) :: Lp ++ (p, sz) :: Z) with (((base, 0) :: Lp) ++ (p, sz) :: Z) in Hl. rewrite HLp in Hl.
  apply links_app in Hl as [H1 [_ H2]]. done.
Qed.
Lemma take_nodup : NoDup ((N1 ++ [(prev, k)]) ++ (p, sz) :: Z).*1.
Proof.
  rewrite <-HLp. apply sorted_nodup; [apply Hh|]. intros x Hx. by apply (heap_pos s _ _ x Hh).
Qed.
(** Addresses of the list and of blocks in use differ. *)
Lemma take_live a h : a ∈ ((base, 0) :: Lp ++ (p, sz) :: Z).*1 →
  Forall (λ b, hsize (<[a := h]> (mem s) !!! b.1) = b.2) A.
Proof.
  intros (x & -> & Hx)%list_elem_of_fmap. apply Forall_forall. intros [c j] Hc. cbn.
  pose proof (proj1 (Forall_forall _ _) (h_live _ _ _ Hh) _ Hc) as Hlv. cbn in Hlv.
  destruct (heap_in s _ _ c j Hh) as (? & _); [set_solver|]. rewrite lookup_total_insert_ne; [done|].
  apply elem_of_cons in Hx as [->|Hx]; [cbn; unfold HSIZE in *; lia|]. destruct x as [x y].
  apply list_elem_of_split in Hx as (K1 & K2 & HK). apply list_elem_of_split in Hc as (M1 & M2 & HM).
  apply (partition_ne heap0 (got s) x y c j (K1 ++ K2 ++ M1 ++ M2)). eapply partition_perm; [|apply Hh].
  rewrite HK, HM. solve_Permutation.
Qed.
Lemma prev_in : prev ∈ base :: Lp.*1.
Proof.
  change (base :: Lp.*1) with (((base, 0) :: Lp).*1). rewrite HLp. apply list_elem_of_fmap. exists (prev, k). set_solver.
Qed.

Lemma take_all : heap (MkUst (<[prev := MkHeader (first Z base) k]> (mem s)) prev (brk s)) (Lp ++ Z) ((p, sz) :: A).
Proof.
  destruct take_sorted as (Hs1 & Hs2 & Hx & _). destruct take_links as [Hl1 Hl2].
  pose proof take_nodup as Hnd. rewrite !fmap_app in Hnd. cbn in Hnd.
  assert (Hpin : prev ∈ ((base, 0) :: Lp ++ (p, sz) :: Z).*1).
  { pose proof prev_in. cbn. rewrite fmap_app. set_solver. }
  split.
  - apply Hh.
  - eapply partition_perm; [|apply Hh]. solve_Permutation.
  - change ((base, 0) :: Lp ++ Z) with (((base, 0) :: Lp) ++ Z). rewrite HLp. apply StronglySorted_app.
    split; [|done]. intros x y Hxx Hy. apply Hx; [done|set_solver].
  - change ((base, 0) :: Lp ++ Z) with (((base, 0) :: Lp) ++ Z). rewrite HLp. cbn [mem].
    apply links_app in Hl1 as [Hl1 _]. apply links_app. rewrite links_app. cbn [links first] in *.
    rewrite NoDup_app, NoDup_app in Hnd. destruct Hnd as ((Hn1 & Hn2 & _) & Hn3 & Hn4).
    rewrite !links_insert; [by rewrite lookup_total_insert_eq|..].
    + intros Hz. apply (Hn3 prev); [set_solver|]. set_solver.
    + intros Hz. apply (Hn2 prev); [done|set_solver].
  - cbn [freep]. pose proof prev_in. rewrite fmap_app. set_solver.
  - constructor; [|by apply take_live]. cbn. rewrite lookup_total_insert_ne, Hp; [done|].
    intros ->. rewrite NoDup_app in Hnd. destruct Hnd as (_ & Hn & _). apply (Hn p); set_solver.
Qed.

Lemma take_part :
  nu < sz →
  heap (MkUst (<[p + HSIZE * (sz - nu) :=
                   MkHeader (ptr (<[p := MkHeader (first Z base) (sz - nu)]> (mem s) !!! (p + HSIZE * (sz - nu)))) nu]>
                (<[p := MkHeader (first Z base) (sz - nu)]> (mem s))) prev (brk s))
    (Lp ++ (p, sz - nu) :: Z) ((p + HSIZE * (sz - nu), nu) :: A).
Proof.
  intros Hlt. destruct take_sorted as (Hs1 & Hs2 & Hx & Hg). destruct take_links as [Hl1 Hl2].
  pose proof take_nodup as Hnd. rewrite !fmap_app in Hnd. cbn in Hnd. set (p' := p + HSIZE * (sz - nu)).
  assert (Hpt : partition heap0 (got s) ((p, sz - nu) :: (p', nu) :: Lp ++ Z ++ A)).
  { apply partition_join; [lia..|]. replace (sz - nu + nu) with sz by lia. eapply partition_perm; [|apply Hh]. solve_Permutation. }
  destruct (heap_in s _ _ p sz Hh) as (Hp0 & _); [set_solver|].
  assert (Hp' : p < p') by (unfold p', HSIZE; lia).
  assert (Hne : ∀ x, x ∈ Lp ++ Z ++ A → x.1 ≠ p').
  { intros [x y] Hxy. apply list_elem_of_split in Hxy as (K1 & K2 & HK). cbn.
    apply (partition_ne heap0 (got s) x y p' nu ((p, sz - nu) :: K1 ++ K2)). eapply partition_perm; [|exact Hpt].
    rewrite HK. solve_Permutation. }
  assert (Hfst : ∀ B : list block, (∀ x, x ∈ B → x ∈ Lp ++ Z ++ A ∨ x = (base, 0)) → p' ∉ B.*1).
  { intros B HB (x & Hxe & Hin)%list_elem_of_fmap. destruct (HB x Hin) as [Hin'| ->]; [by destruct (Hne x Hin')|].
    cbn in Hxe. unfold HSIZE in *. lia. }
  split.
  - apply Hh.
  - eapply partition_perm; [|exact Hpt]. solve_Permutation.
  - change ((base, 0) :: Lp ++ (p, sz - nu) :: Z) with (((base, 0) :: Lp) ++ (p, sz - nu) :: Z). rewrite HLp.
    apply StronglySorted_app. split; [|split; [done|]].
    + intros x y Hxx [->|Hy]%elem_of_cons; [apply (Hx x (p, sz)); [done|set_solver]|apply Hx; [done|set_solver]].
    + constructor; [done|]. apply Forall_forall. intros y Hy. pose proof (Hg y Hy). unfold gap, HSIZE in *. cbn in *. lia.
  - change ((base, 0) :: Lp ++ (p, sz - nu) :: Z) with (((base, 0) :: Lp) ++ (p, sz - nu) :: Z). cbn [mem].
    rewrite NoDup_app in Hnd. destruct Hnd as (_ & Hn3 & Hn4). apply NoDup_cons in Hn4 as [Hn4 _].
    rewrite <-HLp in Hl1. assert (Hpl : p ∉ ((base, 0) :: Lp).*1).
    { rewrite HLp, fmap_app. intros Hin. apply (Hn3 p); [done|set_solver]. }
    apply links_app. split; [rewrite !links_insert; [done|done|apply Hfst; set_solver]|]. cbn [links].
    rewrite !links_insert; [|done|apply Hfst; set_solver]. split; [|done].
    rewrite lookup_total_insert_ne, lookup_total_insert_eq by lia. done.
  - cbn [freep]. pose proof prev_in. rewrite fmap_app. set_solver.
  - constructor; [by cbn; rewrite lookup_total_insert_eq|].
    pose proof (take_live p (MkHeader (first Z base) (sz - nu))) as Hlv. rewrite Forall_forall in Hlv |- *.
    intros x Hin. cbn [mem]. rewrite lookup_total_insert_ne; [|intros E; apply (Hne x); set_solver].
    apply Hlv; [cbn; rewrite fmap_app; cbn; set_solver|done].
Qed.
End take.

(** The block at [p] is taken whole, or its tail is. *)
Lemma take_wp s L A nu prev p (Q : Z → ust → Prop) :
  heap s L A → 0 < nu → prev ∈ base :: L.*1 → p = ptr (mem s !!! prev) → nu ≤ hsize (mem s !!! p) →
  (∀ r s' L', heap s' L' ((r - HSIZE, nu) :: A) → brk s' = brk s → Q r s') →
  wp (q ← (if bool_decide (hsize (mem s !!! p) = nu) then set_ptr base heap0 prev (ptr (mem s !!! p));; mret p
           else set_size base heap0 p (hsize (mem s !!! p) - nu);;
                h ← load base heap0 p;
                let p := p + HSIZE * hsize h in
                set_size base heap0 p nu;; mret p);
      set_freep prev;; mret (q + HSIZE)) Q s.
Proof.
  intros Hh Hnu Hprev Hp Hfit HQ.
  destruct (after_block s L A prev p Hh Hprev Hp) as (N1 & k & Lp & sz & Y & -> & HLp & Hmp); [lia|].
  rewrite Hmp in Hfit |- *. cbn [hsize ptr] in *.
  destruct (heap_in s _ _ p sz Hh) as (Hp0 & Hp1 & _ & Hsz); [set_solver|].
  assert (Hpk : (prev, k) ∈ (base, 0) :: Lp) by (rewrite HLp; set_solver).
  assert (Hk : hsize (mem s !!! prev) = k).
  { apply (links_lookup _ _ _ prev k (h_links _ _ _ Hh)). set_solver. }
  assert (Hvp : valid base heap0 s prev).
  { apply (heap_valid s _ _ prev k Hh). clear - Hpk. set_solver. }
  assert (Hvq : valid base heap0 s p) by (right; unfold HSIZE in *; lia).
  apply wp_bind. case_bool_decide as He.
  - subst sz. apply wp_bind, wp_set_ptr; [done|]. apply wp_ret. cbn [mem freep brk]. apply wp_bind, wp_modify, wp_ret.
    eapply HQ; [|done]. rewrite Z.add_simpl_r, Hk. cbn [mem freep brk]. by eapply (take_all s N1 Lp Y A prev k p).
  - apply wp_bind, wp_set_size; [done|]. rewrite Hmp. cbn [ptr]. rewrite u32_id by (unfold is_u32; lia).
    apply wp_bind, wp_header; [done|]. cbn [mem]. rewrite lookup_total_insert_eq. cbn [hsize].
    apply wp_bind, wp_set_size; [right; cbn; unfold HSIZE in *; lia|]. rewrite u32_id by (unfold is_u32; lia).
    apply wp_ret. cbn [mem freep brk]. apply wp_bind, wp_modify, wp_ret.
    eapply HQ; [|done]. rewrite Z.add_simpl_r. cbn [mem freep brk]. apply (take_part s N1 Lp Y A prev k p sz nu); [done..|lia].
Qed.

Section search.
Context (s : ust) (L A : list block) (nu : Z) (Q : Z → ust → Prop).
Context (Hh : heap s L A) (Hnu : 0 < nu).
Context (HQ : ∀ r s' L', heap s' L' ((r - HSIZE, nu) :: A) → brk s' = brk s → (∃ x, x ∈ L ∧ nu ≤ x.2) → Q r s').

(** From [prev] on, up to [freep]: a block that fits is taken, and otherwise
    the loop gets to [freep] having seen that none fits. *)
Lemma malloc_loop_round : ∀ R fp k e n prev,
  links (mem s) (R ++ [(fp, k)]) e → (∀ x, x ∈ R ++ [(fp, k)] → x ∈ (base, 0) :: L) → fp = freep s → fp ∉ R.*1 →
  prev ∈ base :: L.*1 → ptr (mem s !!! prev) = first (R ++ [(fp, k)]) e → (length R < n)%nat →
  ((∀ x, x ∈ R ++ [(fp, k)] → x.2 < nu) → ∀ n' prev', (n ≤ n' + length R)%nat →
     wp (malloc_loop base heap0 limit n' nu prev' fp) Q s) →
  wp (malloc_loop base heap0 limit n nu prev (first (R ++ [(fp, k)]) e)) Q s.
Proof.
  assert (Hv : ∀ x, x ∈ (base, 0) :: L → valid base heap0 s x.1).
  { intros [a m] Hx. apply (heap_valid s L A a m Hh). set_solver. }
  assert (Hfits : ∀ a m, (a, m) ∈ (base, 0) :: L → nu ≤ m → ∃ x, x ∈ L ∧ nu ≤ x.2).
  { intros a m [[= -> ->]|Hx]%elem_of_cons ?; [lia|]. by exists (a, m). }
  assert (Htake : ∀ n prev a m, (a, m) ∈ (base, 0) :: L → hsize (mem s !!! a) = m → nu ≤ m →
    prev ∈ base :: L.*1 → ptr (mem s !!! prev) = a → wp (malloc_loop base heap0 limit (S n) nu prev a) Q s).
  { intros n prev a m Hin Hm Hle Hprev Hptr. cbn [malloc_loop]. apply wp_bind, wp_header; [by apply (Hv (a, m))|].
    rewrite bool_decide_true by lia. eapply take_wp; [done..|lia|]. intros. eapply HQ; eauto. }
  induction R as [|[a m] R IH]; intros fp k e n prev Hl HN Hfp Hni Hprev Hptr Hn Hk; destruct n as [|n]; try (cbn in Hn; lia).
  - cbn [app first fst] in *. destruct Hl as [Ha _]. destruct (decide (nu ≤ k)) as [Hle|Hgt].
    + eapply (Htake n prev fp k); try done; [apply HN, list_elem_of_here|by rewrite Ha].
    + apply Hk; [|cbn; lia]. intros x ->%list_elem_of_singleton. cbn. lia.
  - change (((a, m) :: R) ++ [(fp, k)]) with ((a, m) :: (R ++ [(fp, k)])) in *. cbn [first fst] in *. destruct Hl as [Ha Hl].
    assert (Hin : (a, m) ∈ (base, 0) :: L) by apply HN, list_elem_of_here.
    destruct (decide (nu ≤ m)) as [Hle|Hgt]; [eapply (Htake n prev a m); try done; by rewrite Ha|].
    cbn [malloc_loop]. apply wp_bind, wp_header; [by apply (Hv (a, m))|]. rewrite Ha. cbn [hsize].
    rewrite bool_decide_false by lia. apply wp_bind, wp_gets. cbn [fmap list_fmap fst] in Hni.
    apply not_elem_of_cons in Hni as [Hne Hni]. rewrite bool_decide_false by congruence.
    apply wp_bind, wp_ret, wp_bind, wp_header; [by apply (Hv (a, m))|]. rewrite Ha. cbn [ptr].
    eapply IH; try done; [| | |cbn in Hn; lia|].
    + intros x Hx. by apply HN, list_elem_of_further.
    + change (base :: L.*1) with (((base, 0) :: L).*1). apply list_elem_of_fmap. by exists (a, m).
    + by rewrite Ha.
    + intros Hall n' prev' Hn'. apply Hk; [|cbn; lia]. intros x [->|Hx]%elem_of_cons; [cbn; lia|by apply Hall].
Qed.

(** One whole round, which starts after [freep]. *)
Lemma malloc_round n :
  (length L < n)%nat →
  ((∀ x, x ∈ L → x.2 < nu) → ∀ n' prev', (n ≤ n' + length L)%nat →
     wp (malloc_loop base heap0 limit n' nu prev' (freep s)) Q s) →
  wp (malloc_loop base heap0 limit n nu (freep s) (ptr (mem s !!! freep s))) Q s.
Proof.
  intros Hn Hk. assert (Hfp : freep s ∈ ((base, 0) :: L).*1) by apply Hh. pose proof Hfp as Hin.
  apply list_elem_of_fmap in Hfp as ([fp k] & Hfp & Hfk). cbn [fst] in Hfp. apply list_elem_of_split in Hfk as (X & Y & HXY).
  assert (Hl : links (mem s) ((base, 0) :: L) base) by apply Hh.
  assert (Hrot : links (mem s) ((fp, k) :: Y ++ X) fp) by (apply links_rotate; rewrite <-HXY; done).
  destruct Hrot as [Hf Hrot].
  assert (Hlen : length (Y ++ X) = length L) by (apply (f_equal length) in HXY; rewrite !length_app in *; cbn in *; lia).
  assert (Hnd : NoDup ((base, 0) :: L).*1).
  { apply sorted_nodup; [apply Hh|]. intros x Hx. by apply (heap_pos s _ _ x Hh). }
  rewrite HXY, fmap_app in Hnd. cbn in Hnd.
  assert (Hptr : ptr (mem s !!! freep s) = first ((Y ++ X) ++ [(fp, k)]) (first (Y ++ X) fp)).
  { rewrite Hfp, Hf, (first_app (Y ++ X)). done. }
  rewrite Hptr. apply malloc_loop_round; try done.
  - apply links_app. split; [done|]. split; [exact Hf|done].
  - intros x Hx. rewrite HXY. set_solver.
  - rewrite fmap_app. apply NoDup_app in Hnd as (_ & Hx & Hy). apply NoDup_cons in Hy as [? _]. set_solver.
  - lia.
  - intros Hall n' prev' Hn'. rewrite <-Hfp. apply Hk; [|lia]. intros x Hx. apply Hall.
    assert (Hx' : x ∈ X ++ (fp, k) :: Y) by (rewrite <-HXY; set_solver). set_solver.
Qed.
End search.
End heap.
End UmallocSpec.
