(* ===== verification/UmallocSafe.v ===== *)
(** What the user-level allocator gives a program: [malloc], and programs that
    call [malloc] and [free] and write to what they got. *)

From stdpp Require Import sorting.
From S2P Require Import Prelude.
From S2P Require Import Umalloc.
From S2P Require Import UmallocSpec.

Local Open Scope Z_scope.

Module UmallocSafe.
Import Umalloc UmallocSpec.

Section safe.
Context (base heap0 limit : Z).
Context (Hbase : 0 < base ∧ base + HSIZE ≤ heap0).
(** A size, counted in units, has 32 bits. *)
Context (Hlimit : limit < heap0 + HSIZE * 2 ^ 32).

Notation heap := (heap base heap0).
Notation got := (got heap0).

(** What [morecore] asks the kernel for. *)
Definition more (nu : Z) : Z := Z.max nu 4096.

(** ** [morecore] *)

Lemma grow_heap s L A n :
  heap s L A → 0 < n → brk s + HSIZE * n ≤ limit →
  heap (MkUst (<[brk s := MkHeader (ptr (mem s !!! brk s)) n]> (mem s)) (freep s) (brk s + HSIZE * n)) L ((brk s, n) :: A).
Proof.
  intros Hh Hn Hle. destruct (h_brk _ _ _ _ _ Hh) as [Hg Hb].
  assert (Hgot : (brk s + HSIZE * n - heap0) / HSIZE = got s + n).
  { replace (brk s + HSIZE * n - heap0) with ((got s + n) * HSIZE) by lia. by apply Z.div_mul. }
  assert (Hne : ∀ x, x ∈ (base, 0) :: L ++ A → x.1 ≠ brk s).
  { intros [a m] [[= -> ->]|Hx]%elem_of_cons; cbn; [unfold HSIZE in *; lia|].
    destruct (heap_in base heap0 s L A a m Hh Hx) as (? & ? & ? & _). unfold HSIZE in *. lia. }
  split.
  - unfold UmallocSpec.got. cbn [brk]. rewrite Hgot. unfold HSIZE in *. lia.
  - unfold UmallocSpec.got. cbn [brk]. rewrite Hgot. eapply partition_perm; [apply Permutation_middle|].
    destruct (h_part _ _ _ _ _ Hh) as [Hp Hc]. split; [by constructor|].
    rewrite cover_cons, Hc, cells_app by lia. rewrite <-Hb. apply Permutation_app_comm.
  - apply Hh.
  - cbn [mem]. apply links_insert; [|apply Hh]. intros (x & Hx & Hin)%list_elem_of_fmap. apply (Hne x); [|done].
    clear - Hin. set_solver.
  - apply Hh.
  - constructor; [by cbn; rewrite lookup_total_insert_eq|]. apply Forall_forall. intros x Hx. cbn [mem].
    rewrite lookup_total_insert_ne by (intros E; apply (Hne x); [clear - Hx; set_solver|done]).
    by apply (proj1 (Forall_forall _ _) (h_live _ _ _ _ _ Hh)).
Qed.

Lemma morecore_wp s L A nu :
  heap s L A → 0 < nu < 2 ^ 27 →
  wp (morecore base heap0 limit nu) (λ r s',
    (r = 0 ∧ s' = s ∧ limit < brk s + HSIZE * more nu) ∨
    (r = freep s' ∧ r ≠ 0 ∧ brk s' = brk s + HSIZE * more nu ∧ brk s' ≤ limit ∧
     ∃ L', heap s' L' A ∧ ∃ x, x ∈ L' ∧ nu ≤ x.2)) s.
Proof.
  intros Hh Hnu. unfold morecore, more.
  assert (Hmore : (if bool_decide (nu < 4096) then 4096 else nu) = Z.max nu 4096) by (case_bool_decide; lia). rewrite Hmore.
  set (n := Z.max nu 4096) in *. assert (Hn : nu ≤ n ∧ 4096 ≤ n < 2 ^ 27) by lia. clearbody n. clear Hmore.
  destruct (h_brk _ _ _ _ _ Hh) as [Hg Hb].
  rewrite s32_id by (unfold HSIZE; lia). replace (n * HSIZE) with (HSIZE * n) by lia.
  apply wp_bind. unfold sbrk. apply wp_bind, wp_get. rewrite bool_decide_true by (unfold HSIZE; lia).
  case_bool_decide as Hlim; [apply wp_ret; rewrite bool_decide_true by done; apply wp_ret; auto|].
  apply wp_bind, wp_put, wp_ret. rewrite bool_decide_false by (unfold HSIZE in *; lia).
  apply wp_bind, wp_set_size; [right; cbn; unfold HSIZE in *; lia|]. rewrite u32_id by (unfold is_u32; lia). cbn [mem freep brk].
  eapply wp_bind, wp_mono; [apply (free_wp base heap0 Hbase _ L (brk s) n A)|].
  - apply grow_heap; [done|lia..].
  - intros _ s' (Hbrk & L' & Hh' & a & k & Hin & Hk). apply wp_gets. right. cbn in Hbrk. rewrite Hbrk.
    split; [done|]. split; [|split; [done|split; [lia|]]].
    + assert (Hf : freep s' ∈ ((base, 0) :: L').*1) by apply Hh'. apply list_elem_of_fmap in Hf as (x & -> & Hx).
      pose proof (heap_pos base heap0 Hbase s' L' A x Hh' Hx). lia.
    + exists L'. split; [done|]. exists (a, k). split; [done|]. cbn. lia.
Qed.

(** ** [malloc] *)

(** A block of [nu] units more is in use, and the process grew only when none
    of the free blocks had that many; or the blocks are the same, none had, and
    the kernel refused. *)
Definition served (s : ust) (L A : list block) (nu r : Z) (s' : ust) : Prop :=
  (∃ L', heap s' L' ((r - HSIZE, nu) :: A) ∧
     (brk s' = brk s ∨ (∀ x, x ∈ L → x.2 < nu) ∧ brk s' = brk s + HSIZE * more nu)) ∨
  (r = 0 ∧ heap s' L A ∧ brk s' = brk s ∧ (∀ x, x ∈ L → x.2 < nu) ∧ limit < brk s + HSIZE * more nu).

Lemma malloc_loop_served s L A nu n :
  heap s L A → 0 < nu < 2 ^ 27 → (2 * S (S (Z.to_nat ((Z.max (brk s) limit - heap0) / HSIZE))) ≤ n)%nat →
  wp (malloc_loop base heap0 limit n nu (freep s) (ptr (mem s !!! freep s))) (served s L A nu) s.
Proof.
  intros Hh Hnu Hn. pose proof (heap_length base heap0 s L A Hh) as HL.
  assert (HgK : ∀ t, brk t ≤ Z.max (brk s) limit → (Z.to_nat (got t) ≤ Z.to_nat ((Z.max (brk s) limit - heap0) / HSIZE))%nat).
  { intros t Ht. assert (got t ≤ (Z.max (brk s) limit - heap0) / HSIZE) by (apply Z.div_le_mono; [done|lia]). lia. }
  pose proof (HgK s ltac:(lia)) as HK.
  eapply malloc_round; [done..|lia| | |].
  { intros r s' L' ? ? _. left. eauto. }
  { lia. }
  intros Hall n' prev' Hn'. destruct n' as [|n']; [lia|]. cbn [malloc_loop].
  assert (Hf : freep s ∈ ((base, 0) :: L).*1) by apply Hh. apply list_elem_of_fmap in Hf as ([fp k] & Hfp & Hin). cbn [fst] in Hfp.
  apply wp_bind, wp_header. { rewrite Hfp. apply (heap_valid base heap0 s L A fp k); [done|]. clear - Hin. set_solver. }
  rewrite bool_decide_false.
  2: { rewrite Hfp, (links_lookup _ _ _ fp k (h_links _ _ _ _ _ Hh) Hin). apply elem_of_cons in Hin as [[= _ ->]|Hin]; [lia|].
       pose proof (Hall _ Hin). cbn in *. lia. }
  apply wp_bind, wp_gets. rewrite bool_decide_true by done. apply wp_bind, wp_bind.
  eapply wp_mono; [by apply (morecore_wp s L A nu)|]. intros r s' [(-> & -> & Hlim)|(Hr & Hr0 & Hbrk & Hle & L' & Hh' & x & Hx & Hfit)].
  - apply wp_ret. rewrite bool_decide_true by done. apply wp_ret. right. split_and!; done.
  - apply wp_ret. rewrite bool_decide_false by done.
    assert (Hf : freep s' ∈ ((base, 0) :: L').*1) by apply Hh'. apply list_elem_of_fmap in Hf as ([fp' k'] & Hfp' & Hin'). cbn [fst] in Hfp'.
    apply wp_bind, wp_header. { rewrite Hr, Hfp'. apply (heap_valid base heap0 s' L' A fp' k'); [done|]. clear - Hin'. set_solver. }
    rewrite Hr. pose proof (heap_length base heap0 s' L' A Hh') as HL'. pose proof (HgK s' ltac:(lia)).
    eapply malloc_round; [done..|lia| | |].
    + intros r' s'' L'' ? ? _. left. exists L''. split; [done|]. right. split; [done|congruence].
    + lia.
    + intros Hall'. pose proof (Hall' x Hx). lia.
Qed.

(** The largest request whose size in bytes is still an [int]. *)
Definition max_request : Z := 2 ^ 31 - 32.

Lemma units_bounds n : 0 ≤ n ≤ max_request → 0 < units n < 2 ^ 27 ∧ HSIZE + n ≤ HSIZE * units n.
Proof.
  unfold max_request. intros Hn. unfold units, HSIZE. assert (0 ≤ (n + 16 - 1) / 16 < 2 ^ 27 - 1) by zlia.
  rewrite u32_id by wrap_lia. pose proof (Z.div_mod (n + 16 - 1) 16). pose proof (Z.mod_pos_bound (n + 16 - 1) 16). lia.
Qed.

(** Before the first call, [freep] is null. *)
Definition ready (s : ust) (L A : list block) : Prop :=
  heap s L A ∨ (freep s = 0 ∧ brk s = heap0 ∧ L = [] ∧ A = []).

Lemma fresh_heap m : heap (MkUst (<[base := MkHeader base 0]> m) base heap0) [] [].
Proof.
  assert (Hg : UmallocSpec.got heap0 (MkUst (<[base := MkHeader base 0]> m) base heap0) = 0).
  { unfold UmallocSpec.got. cbn [brk]. by rewrite Z.sub_diag. }
  split; rewrite ?Hg; cbn [brk mem freep].
  - lia.
  - done.
  - repeat constructor.
  - cbn. by rewrite lookup_total_insert_eq.
  - left.
  - constructor.
Qed.

Lemma malloc_wp s L A n :
  ready s L A → 0 ≤ n ≤ max_request → wp (malloc base heap0 limit n) (served s L A (units n)) s.
Proof.
  intros Hr Hn. destruct (units_bounds n Hn) as [Hu _]. unfold malloc. apply wp_bind, wp_gets.
  assert (Hgo : ∀ t, heap t L A → brk t = brk s →
    wp (prevp ← gets freep; h ← load base heap0 prevp; s ← get;
        malloc_loop base heap0 limit (2 * (S (S (Z.to_nat ((Z.max (brk s) limit - heap0) / HSIZE))))) (units n) prevp (ptr h))
       (served s L A (units n)) t).
  { intros t Ht Hb. apply wp_bind, wp_gets.
    assert (Hf : freep t ∈ ((base, 0) :: L).*1) by apply Ht. apply list_elem_of_fmap in Hf as ([fp k] & Hfp & Hin). cbn [fst] in Hfp.
    apply wp_bind, wp_header. { rewrite Hfp. apply (heap_valid base heap0 t L A fp k); [done|]. clear - Hin. set_solver. }
    apply wp_bind, wp_get. eapply wp_mono; [by apply (malloc_loop_served t L A)|]. unfold served. by rewrite Hb. }
  destruct Hr as [Hh|(Hfp & Hb & -> & ->)].
  - assert (Hf : freep s ∈ ((base, 0) :: L).*1) by apply Hh. apply list_elem_of_fmap in Hf as (x & Hfp & Hin).
    pose proof (heap_pos base heap0 Hbase s L A x Hh Hin). rewrite bool_decide_false by lia. apply wp_bind, wp_ret. by apply Hgo.
  - rewrite bool_decide_true by done. apply wp_bind, wp_bind, wp_modify, wp_bind, wp_set_ptr; [by left|].
    apply wp_set_size; [by left|]. cbn [mem freep brk]. rewrite lookup_total_insert_eq, insert_insert_eq. cbn [ptr].
    apply Hgo; [|done]. rewrite Hb. apply fresh_heap.
Qed.

(** ** Programs *)

(** A program's writes stay in the [n] bytes at [r] that it asked for; the
    header at [a] is 16 bytes. *)
Definition writes (B : list (Z * Z)) (m m' : gmap Z header) : Prop :=
  ∀ a, (∀ r n, (r, n) ∈ B → a + HSIZE ≤ r ∨ r + n ≤ a) → m' !!! a = m !!! a.

(** What a program can do with the allocator: [B] is what it has, as pointers
    with the sizes it asked for. *)
Inductive session : ust → list (Z * Z) → Prop :=
  | session_start m : session (MkUst m 0 heap0) []
  | session_malloc s B n r s' :
      session s B → 0 ≤ n ≤ max_request → malloc base heap0 limit n s = Ok r s' →
      session s' (if bool_decide (r = 0) then B else (r, n) :: B)
  | session_free s B1 r n B2 s' :
      session s (B1 ++ (r, n) :: B2) → free base heap0 r s = Ok tt s' → session s' (B1 ++ B2)
  | session_write s B m :
      session s B → writes B (mem s) m → session (MkUst m (freep s) (brk s)) B.

Definition block_of (x : Z * Z) : block := (x.1 - HSIZE, units x.2).

Lemma writes_heap s L B m :
  heap s L (block_of <$> B) → Forall (λ x, 0 ≤ x.2 ≤ max_request) B → writes B (mem s) m →
  heap (MkUst m (freep s) (brk s)) L (block_of <$> B).
Proof.
  intros Hh HB Hw.
  assert (Hk : ∀ a k K, a = base ∨ L ++ (block_of <$> B) ≡ₚ (a, k) :: K → m !!! a = mem s !!! a).
  { intros a k K Ha. apply Hw. intros r n Hin. pose proof (proj1 (Forall_forall _ _) HB _ Hin) as Hn. cbn in Hn.
    destruct (units_bounds n Hn) as [Hu Hs]. assert (Hin' : (r - HSIZE, units n) ∈ L ++ (block_of <$> B)).
    { apply elem_of_app. right. apply list_elem_of_fmap. by exists (r, n). }
    destruct (heap_in base heap0 s L _ _ _ Hh Hin') as (? & _). destruct Ha as [->|Hperm]; [unfold HSIZE in *; lia|].
    assert (Ha : (a, k) ∈ L ++ (block_of <$> B)) by (rewrite Hperm; left).
    destruct (heap_in base heap0 s L _ _ _ Hh Ha) as (_ & _ & ? & _).
    rewrite Hperm in Hin'. apply elem_of_cons in Hin' as [[= <- <-]|(K1 & K2 & ->)%list_elem_of_split]; [lia|].
    pose proof (partition_perm _ _ _ _ Hperm (h_part _ _ _ _ _ Hh)) as Hpt.
    pose proof (partition_ne heap0 (got s) a k (r - HSIZE) (units n) (K1 ++ K2)) as Hne.
    pose proof (partition_apart heap0 (got s) a k (r - HSIZE) (units n) (K1 ++ K2)) as H1.
    pose proof (partition_apart heap0 (got s) (r - HSIZE) (units n) a k (K1 ++ K2)) as H2.
    assert (Hp1 : partition heap0 (got s) ((a, k) :: (r - HSIZE, units n) :: K1 ++ K2)) by (eapply partition_perm; [|exact Hpt]; solve_Permutation).
    assert (Hp2 : partition heap0 (got s) ((r - HSIZE, units n) :: (a, k) :: K1 ++ K2)) by (eapply partition_perm; [|exact Hpt]; solve_Permutation).
    specialize (Hne Hp1). specialize (H1 Hp1). specialize (H2 Hp2). unfold HSIZE in *. lia. }
  destruct Hh as [Hb Hp Hs Hl Hf Hv]. split; try done; cbn [mem].
  - assert (Hk' : ∀ a k, (a, k) ∈ (base, 0) :: L → m !!! a = mem s !!! a).
    { intros a k [[= -> ->]|(K1 & K2 & ->)%list_elem_of_split]%elem_of_cons; [by apply (Hk base 0 []); left|].
      apply (Hk a k (K1 ++ K2 ++ (block_of <$> B))). right. solve_Permutation. }
    by apply (links_agree (mem s)).
  - apply Forall_forall. intros [a k] Hx. cbn. pose proof (proj1 (Forall_forall _ _) Hv _ Hx) as Hsz. cbn in Hsz.
    apply list_elem_of_split in Hx as (K1 & K2 & HK). rewrite (Hk a k (L ++ K1 ++ K2)); [done|]. right. rewrite HK. solve_Permutation.
Qed.

Lemma heap_pick s L B1 r n B2 :
  heap s L (block_of <$> B1 ++ (r, n) :: B2) → heap s L ((r - HSIZE, units n) :: (block_of <$> B1 ++ B2)).
Proof.
  intros [Hb Hp Hs Hl Hfp Hv]. rewrite fmap_app in Hp, Hv. split; try done.
  - eapply partition_perm; [|exact Hp]. rewrite fmap_app. cbn. solve_Permutation.
  - rewrite fmap_app. rewrite Forall_app in Hv. cbn in Hv. rewrite Forall_cons in Hv. rewrite Forall_cons, Forall_app. tauto.
Qed.

Lemma session_ready s B :
  session s B → (∃ L, ready s L (block_of <$> B)) ∧ Forall (λ x, 0 ≤ x.2 ≤ max_request) B.
Proof.
  induction 1 as [m|s B n r s' _ [[L Hr] HB] Hn Hm|s B1 r n B2 s' _ [[L Hr] HB] Hf|s B m _ [[L Hr] HB] Hw].
  - split; [|constructor]. exists []. right. done.
  - pose proof (malloc_wp s L _ n Hr Hn) as Hwp. unfold wp in Hwp. rewrite Hm in Hwp.
    destruct Hwp as [(L' & Hh' & _)|(-> & Hh' & _)].
    + destruct (heap_in base heap0 s' L' _ (r - HSIZE) (units n) Hh') as (? & _).
      { apply elem_of_app. right. left. }
      rewrite bool_decide_false by (unfold HSIZE in *; lia). split; [|by constructor]. exists L'. by left.
    + rewrite bool_decide_true by done. split; [|done]. exists L. by left.
  - rewrite Forall_app, Forall_cons in HB. split; [|rewrite Forall_app; tauto].
    destruct Hr as [Hh|(_ & _ & _ & HA)]; [|by destruct B1].
    pose proof (heap_pick s L B1 r n B2 Hh) as Hh'.
    pose proof (free_wp base heap0 Hbase s L (r - HSIZE) (units n) _ Hh') as Hwp.
    rewrite Z.sub_add in Hwp. unfold wp in Hwp. rewrite Hf in Hwp. destruct Hwp as (_ & L' & Hh'' & _). exists L'. by left.
  - split; [|done]. exists L. destruct Hr as [Hh|Hfresh]; [left; by apply writes_heap|by right].
Qed.

(** Free blocks that fill the heap with no gap of used units are one block. *)
Lemma sorted_one H L :
  partition heap0 H L → StronglySorted gap L → 0 < H → L = [(heap0, H)].
Proof.
  intros Hpt Hs HH. destruct L as [|[a n] L].
  { destruct Hpt as [_ Hc]. apply Permutation_length in Hc. rewrite length_cells in Hc. cbn in Hc. lia. }
  destruct (partition_in _ _ _ a n Hpt) as (k & Hk & Ha & Hkn & Hn); [left|].
  apply StronglySorted_inv in Hs as [_ Hf]. rewrite Forall_forall in Hf. destruct L as [|[b m] L].
  - destruct Hpt as [_ Hc]. apply Permutation_length in Hc. rewrite cover_cons, length_app, !length_cells in Hc. cbn in Hc.
    assert (n = H) by lia. subst n. assert (k = 0) by lia. subst. by rewrite Z.mul_0_r, Z.add_0_r.
  - exfalso. destruct (partition_in _ _ _ b m Hpt) as (j & Hj & Hb & Hjm & Hm); [right; left|].
    pose proof (Hf (b, m) ltac:(left)) as Hg. unfold gap in Hg. cbn in Hg.
    assert (Hc : a + HSIZE * n ∈ cells heap0 H).
    { apply elem_of_cells. exists (k + n). unfold HSIZE in *. lia. }
    destruct Hpt as [_ Hcov]. rewrite <-Hcov in Hc. apply elem_of_cover in Hc as (x & [->|Hx]%elem_of_cons & Hc);
      apply elem_of_cells in Hc as (i & Hi & Hc); cbn in *; [unfold HSIZE in *; lia|].
    pose proof (Hf x Hx) as Hgx. unfold gap in Hgx. cbn in Hgx. unfold HSIZE in *. lia.
Qed.

(** What a program has is in its memory and aligned; one piece does not
    overlap another. *)
Lemma session_apart s B :
  session s B →
  (∀ r n, (r, n) ∈ B → heap0 + HSIZE ≤ r ∧ r + n ≤ brk s ∧ (r - heap0) mod HSIZE = 0) ∧
  (∀ i j r n r' n', i ≠ j → B !! i = Some (r, n) → B !! j = Some (r', n') → r + n ≤ r' ∨ r' + n' ≤ r).
Proof.
  intros Hs. destruct (session_ready s B Hs) as [[L [Hh|(_ & _ & _ & HA)]] HB].
  2: { destruct B; [|done]. split; [by intros r n ?%elem_of_nil|done]. }
  assert (Hin : ∀ r n, (r, n) ∈ B → (r - HSIZE, units n) ∈ L ++ (block_of <$> B) ∧ 0 ≤ n ∧ HSIZE + n ≤ HSIZE * units n).
  { intros r n Hx. pose proof (proj1 (Forall_forall _ _) HB _ Hx) as Hn. cbn in Hn. split.
    - apply elem_of_app. right. apply list_elem_of_fmap. by exists (r, n).
    - destruct (units_bounds n Hn). lia. }
  split.
  - intros r n Hx. destruct (Hin r n Hx) as (Hx' & ? & ?). destruct (heap_in base heap0 s _ _ _ _ Hh Hx') as (? & ? & ? & _).
    destruct (partition_in _ _ _ _ _ (h_part _ _ _ _ _ Hh) Hx') as (k & _ & Hk & _).
    split; [lia|]. split; [lia|]. replace (r - heap0) with ((k + 1) * HSIZE) by lia. by apply Z.mod_mul.
  - intros i j r n r' n' Hne Hi Hj. destruct (Hin r n) as (_ & ? & ?); [by apply list_elem_of_lookup_2 in Hi|].
    destruct (Hin r' n') as (_ & ? & ?); [by apply list_elem_of_lookup_2 in Hj|].
    assert (Hd : (r', n') ∈ delete i B).
    { apply list_elem_of_lookup. destruct (decide (j < i)%nat); [exists j; by rewrite list_lookup_delete_lt|].
      exists (pred j). rewrite list_lookup_delete_ge by lia. by replace (S (pred j)) with j by lia. }
    apply list_elem_of_split in Hd as (K1 & K2 & HK). pose proof (delete_Permutation B i _ Hi) as HP. rewrite HK in HP.
    assert (Hpt : partition heap0 (got s) ((r - HSIZE, units n) :: (r' - HSIZE, units n') :: L ++ (block_of <$> K1 ++ K2))).
    { eapply partition_perm; [|apply Hh]. rewrite HP, fmap_cons, !fmap_app, fmap_cons. cbn. solve_Permutation. }
    pose proof (partition_ne _ _ _ _ _ _ _ Hpt). pose proof (partition_apart _ _ _ _ _ _ _ Hpt) as Ha1.
    assert (Hpt' : partition heap0 (got s) ((r' - HSIZE, units n') :: (r - HSIZE, units n) :: L ++ (block_of <$> K1 ++ K2))).
    { eapply partition_perm; [apply Permutation_swap|done]. }
    pose proof (partition_apart _ _ _ _ _ _ _ Hpt') as Ha2. unfold HSIZE in *. lia.
Qed.

Lemma session_malloc_returns s B n :
  session s B → 0 ≤ n ≤ max_request →
  ∃ r s', malloc base heap0 limit n s = Ok r s' ∧ (r = 0 → limit < brk s + HSIZE * more (units n)) ∧
    (B = [] → HSIZE * units n ≤ brk s - heap0 → r ≠ 0 ∧ brk s' = brk s).
Proof.
  intros Hs Hn. destruct (session_ready s B Hs) as [[L Hr] _]. destruct (units_bounds n Hn) as [Hu _].
  pose proof (malloc_wp s L _ n Hr Hn) as Hwp. apply wp_ok in Hwp as (r & s' & Hm & Hsv). exists r, s'. split; [done|].
  assert (Hone : B = [] → HSIZE * units n ≤ brk s - heap0 → ∃ x, x ∈ L ∧ units n ≤ x.2).
  { intros -> Hle. destruct Hr as [Hh|(_ & Hb & _)]; [|unfold HSIZE in *; lia]. destruct (h_brk _ _ _ _ _ Hh) as [Hg Hb].
    exists (heap0, got s). split; [|cbn; unfold HSIZE in *; lia]. rewrite (sorted_one (got s) L).
    - left.
    - pose proof (h_part _ _ _ _ _ Hh) as Hp. cbn in Hp. by rewrite app_nil_r in Hp.
    - pose proof (h_sorted _ _ _ _ _ Hh) as Hso. by apply StronglySorted_inv in Hso as [? _].
    - unfold HSIZE in *. lia. }
  destruct Hsv as [(L' & Hh' & Hb)|(-> & _ & _ & Hall & Hlim)].
  - assert (r ≠ 0).
    { destruct (heap_in base heap0 s' L' _ (r - HSIZE) (units n) Hh') as (? & _); [apply elem_of_app; right; left|].
      unfold HSIZE in *. lia. }
    split; [done|]. intros HB Hle. split; [done|]. destruct Hb as [Hb|[Hall Hb]]; [done|].
    destruct (Hone HB Hle) as (x & Hx & Hxn). pose proof (Hall x Hx). lia.
  - split; [done|]. intros HB Hle. destruct (Hone HB Hle) as (x & Hx & Hxn). pose proof (Hall x Hx). lia.
Qed.

Lemma session_free_returns s B r n : session s B → (r, n) ∈ B → ∃ s', free base heap0 r s = Ok tt s' ∧ brk s' = brk s.
Proof.
  intros Hs Hin. destruct (session_ready s B Hs) as [[L Hr] _]. apply list_elem_of_split in Hin as (B1 & B2 & ->).
  destruct Hr as [Hh|(_ & _ & _ & HA)]; [|by destruct B1].
  pose proof (heap_pick s L B1 r n B2 Hh) as Hh'.
  pose proof (free_wp base heap0 Hbase s L _ _ _ Hh') as Hwp. rewrite Z.sub_add in Hwp.
  apply wp_ok in Hwp as ([] & s' & Hf & Hb & _). eauto.
Qed.
End safe.

(** C17: a program calls [malloc] for less than 2 GB at a time, frees what it
    got, once, and writes only to the bytes it asked for.  Then, at any point,
    what it has lies in the memory of the process, is aligned, and no two
    pieces overlap; [malloc] returns, and returns 0 only when the kernel has no
    more memory; and [free] of a piece it has returns. *)
Theorem umalloc_safe base heap0 limit s B :
  0 < base ∧ base + HSIZE ≤ heap0 → limit < heap0 + HSIZE * 2 ^ 32 → session base heap0 limit s B →
  (∀ r n, (r, n) ∈ B → heap0 + HSIZE ≤ r ∧ r + n ≤ brk s ∧ (r - heap0) mod HSIZE = 0) ∧
  (∀ i j r n r' n', i ≠ j → B !! i = Some (r, n) → B !! j = Some (r', n') → r + n ≤ r' ∨ r' + n' ≤ r) ∧
  (∀ n, 0 ≤ n ≤ max_request → ∃ r s', malloc base heap0 limit n s = Ok r s' ∧ (r = 0 → limit < brk s + HSIZE * more (units n))) ∧
  (∀ r n, (r, n) ∈ B → ∃ s', free base heap0 r s = Ok tt s').
Proof.
  intros Hb Hl Hs. destruct (session_apart base heap0 limit Hb Hl s B Hs) as [H1 H2]. split; [done|]. split; [done|]. split.
  - intros n Hn. destruct (session_malloc_returns base heap0 limit Hb Hl s B n Hs Hn) as (r & s' & Hm & Hf & _). eauto.
  - intros r n Hin. destruct (session_free_returns base heap0 limit Hb Hl s B r n Hs Hin) as (s' & Hf & _). eauto.
Qed.

(** Two pieces are allocated, the first is freed and its memory used again. *)
Definition demo (k : nat) : ust * list (Z * Z) :=
  let run {A} (m : M ust A) s := match m s with Ok _ s' => s' | _ => s end in
  let s0 := MkUst ∅ 0 4096 in
  let s1 := run (malloc 64 4096 200000 100) s0 in
  let s2 := run (malloc 64 4096 200000 5000) s1 in
  let s3 := run (free 64 4096 69520) s2 in
  let s4 := run (malloc 64 4096 200000 50) s3 in
  let s5 := run (free 64 4096 64496) s4 in
  let s6 := run (free 64 4096 69568) s5 in
  match k with
  | 0%nat => (s0, [])
  | 1%nat => (s1, [(69520, 100)])
  | 2%nat => (s2, [(64496, 5000); (69520, 100)])
  | 3%nat => (s3, [(64496, 5000)])
  | 4%nat => (s4, [(69568, 50); (64496, 5000)])
  | 5%nat => (s5, [(69568, 50)])
  | _ => (s6, [])
  end.

Lemma demo_session (k : nat) : session 64 4096 200000 (demo k).1 (demo k).2.
Proof.
  assert (Hmax : 5000 ≤ max_request) by (unfold max_request; lia).
  assert (H0 : session 64 4096 200000 (demo 0).1 (demo 0).2) by constructor.
  assert (H1 : session 64 4096 200000 (demo 1).1 (demo 1).2).
  { refine (session_malloc _ _ _ (demo 0).1 [] 100 69520 _ H0 _ _); [lia|vm_compute; reflexivity]. }
  assert (H2 : session 64 4096 200000 (demo 2).1 (demo 2).2).
  { refine (session_malloc _ _ _ (demo 1).1 _ 5000 64496 _ H1 _ _); [lia|vm_compute; reflexivity]. }
  assert (H3 : session 64 4096 200000 (demo 3).1 (demo 3).2).
  { refine (session_free _ _ _ (demo 2).1 [(64496, 5000)] 69520 100 [] _ H2 _). vm_compute. reflexivity. }
  assert (H4 : session 64 4096 200000 (demo 4).1 (demo 4).2).
  { refine (session_malloc _ _ _ (demo 3).1 _ 50 69568 _ H3 _ _); [lia|vm_compute; reflexivity]. }
  assert (H5 : session 64 4096 200000 (demo 5).1 (demo 5).2).
  { refine (session_free _ _ _ (demo 4).1 [(69568, 50)] 64496 5000 [] _ H4 _). vm_compute. reflexivity. }
  assert (H6 : session 64 4096 200000 (demo 6).1 (demo 6).2).
  { refine (session_free _ _ _ (demo 5).1 [] 69568 50 [] _ H5 _). vm_compute. reflexivity. }
  do 6 (destruct k as [|k]; [assumption|]). exact H6.
Qed.

Lemma umalloc_safe_witness :
  (demo 4).2 = [(69568, 50); (64496, 5000)] ∧ brk (demo 4).1 = 69632 ∧
  (∃ s', free 64 4096 64496 (demo 4).1 = Ok tt s') ∧ 64496 + 5000 ≤ 69568.
Proof.
  destruct (umalloc_safe 64 4096 200000 (demo 4).1 (demo 4).2) as (_ & Hd & _ & Hf).
  - unfold HSIZE. lia.
  - unfold HSIZE. lia.
  - apply demo_session.
  - split; [reflexivity|]. split; [vm_compute; reflexivity|]. split.
    + apply (Hf 64496 5000). right. left.
    + destruct (Hd 0%nat 1%nat 69568 50 64496 5000); [lia|reflexivity|reflexivity|lia|lia].
Defined.

(** freed blocks are joined with their neighbours.  When a program has
    freed all it got, in any order, a request for as much as the process ever
    obtained succeeds without asking the kernel for more. *)
Theorem umalloc_coalesces base heap0 limit s n :
  0 < base ∧ base + HSIZE ≤ heap0 → limit < heap0 + HSIZE * 2 ^ 32 → session base heap0 limit s [] →
  0 ≤ n ≤ max_request → HSIZE * units n ≤ brk s - heap0 →
  ∃ r s', malloc base heap0 limit n s = Ok r s' ∧ r ≠ 0 ∧ brk s' = brk s.
Proof.
  intros Hb Hl Hs Hn Hle. destruct (session_malloc_returns base heap0 limit Hb Hl s [] n Hs Hn) as (r & s' & Hm & _ & Hone).
  destruct (Hone eq_refl Hle). eauto.
Qed.

Lemma umalloc_coalesces_witness :
  ∃ r s', malloc 64 4096 200000 65520 (demo 6).1 = Ok r s' ∧ r ≠ 0 ∧ brk s' = 69632.
Proof.
  destruct (umalloc_coalesces 64 4096 200000 (demo 6).1 65520) as (r & s' & Hm & Hr & Hb).
  - unfold HSIZE. lia.
  - unfold HSIZE. lia.
  - apply (demo_session 6).
  - unfold max_request. lia.
  - refine (bool_decide_eq_true_1 _ _). vm_compute. reflexivity.
  - exists r, s'. split; [exact Hm|]. split; [exact Hr|]. rewrite Hb. vm_compute. reflexivity.
Defined.

(** [morecore] of 2^28+1 units gets 16 bytes. *)
Lemma morecore_truncated base heap0 limit m :
  0 < base ∧ base + HSIZE ≤ heap0 → heap0 + HSIZE ≤ limit →
  wp (morecore base heap0 limit (2 ^ 28 + 1))
    (λ r s', r = base ∧ freep s' = base ∧ brk s' = heap0 + HSIZE ∧ mem s' !!! base = MkHeader heap0 0 ∧ mem s' !!! heap0 = MkHeader base (2 ^ 28 + 1))
    (MkUst (<[base := MkHeader base 0]> m) base heap0).
Proof.
  intros Hbase Hlim. assert (H16 : HSIZE = 16) by done. assert (Hne : base ≠ heap0) by lia. unfold morecore.
  change (if bool_decide (2 ^ 28 + 1 < 4096) then 4096 else 2 ^ 28 + 1) with (2 ^ 28 + 1).
  change (s32 ((2 ^ 28 + 1) * HSIZE)) with HSIZE. apply wp_bind. unfold sbrk. apply wp_bind, wp_get. cbn [brk mem freep].
  rewrite (bool_decide_true (0 < HSIZE)) by done. rewrite bool_decide_false by lia. apply wp_bind, wp_put, wp_ret.
  rewrite bool_decide_false by lia. apply wp_bind, wp_set_size; [right; cbn; lia|]. cbn [mem freep brk].
  rewrite lookup_total_insert_ne by done. change (u32 (2 ^ 28 + 1)) with (2 ^ 28 + 1). set (K := 2 ^ 28 + 1).
  assert (HK : 0 < K) by done. clearbody K. set (h := MkHeader (ptr (m !!! heap0)) K).
  apply wp_bind. unfold free. rewrite Z.add_simpl_r. apply wp_bind, wp_gets, wp_bind, wp_gets, wp_bind. cbn [freep brk free_loop].
  apply wp_bind, wp_header; [by left|]. cbn [mem]. rewrite lookup_total_insert_ne, lookup_total_insert_eq by done. cbn [ptr].
  rewrite bool_decide_false by lia. rewrite bool_decide_true by (unfold HSIZE in *; lia). apply wp_ret.
  assert (Hv : ∀ mm, valid base heap0 (MkUst mm base (heap0 + HSIZE)) heap0) by (intros; right; cbn; lia).
  apply wp_bind, wp_header; [apply Hv|]. apply wp_bind, wp_header; [by left|]. cbn [mem].
  rewrite lookup_total_insert_eq, lookup_total_insert_ne, lookup_total_insert_eq by done. cbn [ptr hsize h].
  rewrite bool_decide_false by (unfold HSIZE in *; lia). apply wp_bind, wp_set_ptr; [apply Hv|]. cbn [mem freep brk].
  rewrite lookup_total_insert_eq, insert_insert_eq. cbn [hsize]. apply wp_bind, wp_header; [by left|]. cbn [mem].
  rewrite lookup_total_insert_ne, lookup_total_insert_eq by done. cbn [hsize]. apply wp_bind. rewrite bool_decide_false by (unfold HSIZE in *; lia).
  apply wp_set_ptr; [by left|]. cbn [mem freep brk]. rewrite lookup_total_insert_ne, lookup_total_insert_eq by done. cbn [hsize].
  apply wp_modify, wp_gets. cbn [mem freep brk]. rewrite lookup_total_insert_eq, lookup_total_insert_ne, lookup_total_insert_eq by done. done.
Qed.

(** C39: [nu * sizeof(Header)] is passed to [sbrk] as an [int].  For a first
    request of 2^32-15 to 2^32-1 bytes the product is 2^32+16, and the [int] 16:
    [malloc] returns a pointer to the end of a heap of 16 bytes, all of them
    the header, which says that the block has four gigabytes. *)
Theorem malloc_huge_unbacked base heap0 limit n m :
  0 < base ∧ base + HSIZE ≤ heap0 → heap0 + HSIZE ≤ limit → 2 ^ 32 - 16 < n < 2 ^ 32 →
  ∃ s', malloc base heap0 limit n (MkUst m 0 heap0) = Ok (heap0 + HSIZE) s' ∧ brk s' = heap0 + HSIZE ∧
    HSIZE * hsize (mem s' !!! heap0) = 2 ^ 32 + 16.
Proof.
  intros Hbase Hlim Hn. assert (Hne : base ≠ heap0) by (unfold HSIZE in *; lia). assert (Hu : units n = 2 ^ 28 + 1).
  { unfold units, HSIZE. assert ((n + 16 - 1) / 16 = 2 ^ 28) as -> by zlia. rewrite u32_id by wrap_lia. done. }
  assert (Hgo : wp (malloc base heap0 limit n) (λ r s', r = heap0 + HSIZE ∧ brk s' = heap0 + HSIZE ∧ HSIZE * hsize (mem s' !!! heap0) = 2 ^ 32 + 16) (MkUst m 0 heap0)).
  2: { apply wp_ok in Hgo as (r & s' & Hrun & -> & H). eauto. }
  unfold malloc. rewrite Hu. apply wp_bind, wp_gets. apply wp_bind. apply wp_bind, wp_modify, wp_bind, wp_set_ptr; [by left|].
  apply wp_set_size; [by left|]. cbn [mem freep brk]. rewrite lookup_total_insert_eq, insert_insert_eq. cbn [ptr].
  apply wp_bind, wp_gets. apply wp_bind, wp_header; [by left|]. cbn [mem freep brk]. rewrite lookup_total_insert_eq. cbn [ptr].
  apply wp_bind, wp_get. cbn [brk]. generalize (Z.to_nat ((Z.max heap0 limit - heap0) / HSIZE)). intros k.
  replace (2 * S (S k))%nat with (S (S (k + k + 2)))%nat by lia. generalize (k + k + 2)%nat. intros j. change (u32 0) with 0.
  remember (S j) as j1. cbn [malloc_loop].
  apply wp_bind, wp_header; [by left|]. cbn [mem]. rewrite lookup_total_insert_eq. cbn [hsize]. rewrite bool_decide_false by lia.
  apply wp_bind, wp_gets. cbn [freep]. rewrite bool_decide_true by done. apply wp_bind, wp_bind.
  eapply wp_mono; [by apply morecore_truncated|]. cbv beta. intros r s (-> & Hf & Hb & Hm1 & Hm2). apply wp_ret. rewrite bool_decide_false by lia.
  apply wp_bind, wp_header; [by left|]. rewrite Hm1. cbn [ptr]. subst j1. cbn [malloc_loop].
  apply wp_bind, wp_header; [right; lia|]. rewrite Hm2. cbn [hsize ptr]. rewrite bool_decide_true by done. apply wp_bind.
  rewrite bool_decide_true by done. apply wp_bind, wp_set_ptr; [by left|]. apply wp_ret, wp_bind, wp_modify, wp_ret. cbn [mem brk].
  rewrite lookup_total_insert_ne, Hm2 by done. done.
Qed.

Lemma malloc_huge_unbacked_witness :
  ∃ s', malloc 64 4096 200000 (2 ^ 32 - 1) (MkUst ∅ 0 4096) = Ok 4112 s' ∧ brk s' = 4112 ∧ HSIZE * hsize (mem s' !!! 4096) = 2 ^ 32 + 16.
Proof. apply (malloc_huge_unbacked 64 4096 200000 (2 ^ 32 - 1) ∅); unfold HSIZE; lia. Defined.
End UmallocSafe.
