(* ===== verification/Sh.v ===== *)
(** The shell: [user/sh.c].

    The parser works on the line in [buf]: a [char *] into it is an offset, and
    [*ps] is the state of the parsing functions.  Nodes are values of [cmd];
    [malloc] is taken to succeed.  [runcmd], which never returns, is the tree of
    system calls a process makes, so that it can be run against descriptor
    tables; [main] is too, given the bytes that its [read] calls return.  The
    line that a syntax error prints before the shell panics is left out. *)

From S2P Require Import Prelude CString.
Import Str.

Local Open Scope Z_scope.

Module Sh.

Definition MAXARGS : nat := 10.
Definition O_RDONLY : Z := 0x000.
Definition O_WRONLY : Z := 0x001.
Definition O_RDWR : Z := 0x002.
Definition O_CREATE : Z := 0x200.
Definition O_TRUNC : Z := 0x400.

(** A string in the line: where it starts and ends. *)
Inductive cmd :=
  | EXEC (argv : list (nat * nat))
  | REDIR (c : cmd) (file efile : nat) (mode fd : Z)
  | PIPE (left right : cmd)
  | LIST (left right : cmd)
  | BACK (c : cmd).

(** ** Tokens *)

Definition whitespace : list Z := chars " " ++ [9; 13; 10; 11].
Definition symbols : list Z := chars "<|>&;()".

(** [strchr(l, c)] finds [c]. *)
Definition has (l : list Z) (c : Z) : bool :=
  match strchr (l ++ [0]) c with Some (Some _) => true | _ => false end.
Definition word_char (c : Z) : bool := negb (has whitespace c) && negb (has symbols c).

Definition ch (s : string) : Z := hd 0 (chars s).
Arguments ch s%_string_scope.

Section parser.
(** The line and the position of its terminator. *)
Context (buf : list Z) (es : nat).

Definition at_ (s : nat) : M nat Z := of_option (buf !! s).

(** [while(s < es && P( *s)) s++], with [n] characters left. *)
Fixpoint scan (P : Z → bool) (n s : nat) : M nat nat :=
  match n with
  | O => mret s
  | S n => c ← at_ s; if P c then scan P n (S s) else mret s
  end.
Definition skip (P : Z → bool) (s : nat) : M nat nat := scan P (es - s) s.

(** The token and its bounds [q] and [eq]. *)
Definition gettoken : M nat (Z * nat * nat) :=
  s ← get;
  q ← skip (has whitespace) s;
  c ← at_ q;
  r ← (if bool_decide (c = 0) then mret (c, q)
       else if has (chars "|();&<") c then mret (c, S q)
       else if bool_decide (c = ch ">")
       then c' ← at_ (S q);
            if bool_decide (c' = ch ">") then mret (ch "+", S (S q)) else mret (c, S q)
       else s ← skip word_char q; mret (ch "a", s));
  let '(ret, eq) := r in
  s ← skip (has whitespace) eq;
  put s;;
  mret (ret, q, eq).

Definition peek (toks : list Z) : M nat bool :=
  s ← get;
  s ← skip (has whitespace) s;
  put s;;
  c ← at_ s;
  mret (negb (bool_decide (c = 0)) && has toks c).

(** ** The parser *)

(** The rounds a loop that takes at least one character each time can make. *)
Definition rounds : M nat nat := gets (λ s, S (es - s)).

(** The arguments of [redircmd] beside the command. *)
Record redir := MkRedir { r_file : nat; r_efile : nat; r_mode : Z; r_fd : Z }.
Definition redircmd (c : cmd) (r : redir) : cmd := REDIR c (r_file r) (r_efile r) (r_mode r) (r_fd r).

(** The loop of [parseredirs].  [parseexec] goes on filling in the [EXEC] node
    after redirections have been put around it, so the redirections are listed,
    innermost first, and applied to the node when it is complete. *)
Fixpoint parseredirs_loop (n : nat) (rs : list redir) : M nat (list redir) :=
  match n with
  | O => nofuel
  | S n =>
      p ← peek (chars "<>");
      if negb p then mret rs else
      t ← gettoken; let '(tok, _, _) := t in
      t ← gettoken; let '(a, q, eq) := t in
      if bool_decide (a ≠ ch "a") then panic "missing file for redirection" else
      parseredirs_loop n
        (if bool_decide (tok = ch "<") then rs ++ [MkRedir q eq O_RDONLY 0]
         else if bool_decide (tok = ch ">")
         then rs ++ [MkRedir q eq (Z.lor O_WRONLY (Z.lor O_CREATE O_TRUNC)) 1]
         else if bool_decide (tok = ch "+") then rs ++ [MkRedir q eq (Z.lor O_WRONLY O_CREATE) 1]
         else rs)
  end.
Definition parseredirs (rs : list redir) : M nat (list redir) := n ← rounds; parseredirs_loop n rs.

(** The loop of [parseexec] over the arguments. *)
Fixpoint parseexec_loop (n : nat) (argv : list (nat * nat)) (rs : list redir) : M nat (list (nat * nat) * list redir) :=
  match n with
  | O => nofuel
  | S n =>
      p ← peek (chars "|)&;");
      if (p : bool) then mret (argv, rs) else
      t ← gettoken; let '(tok, q, eq) := t in
      if bool_decide (tok = 0) then mret (argv, rs) else
      if bool_decide (tok ≠ ch "a") then panic "syntax" else
      let argv := argv ++ [(q, eq)] in
      if bool_decide (MAXARGS ≤ length argv)%nat then panic "too many args" else
      rs ← parseredirs rs;
      parseexec_loop n argv rs
  end.

(** The loop of [parseline] over [&]. *)
Fixpoint parseline_loop (n : nat) (c : cmd) : M nat cmd :=
  match n with
  | O => nofuel
  | S n => p ← peek (chars "&"); if (p : bool) then gettoken;; parseline_loop n (BACK c) else mret c
  end.

Fixpoint parseline (fuel : nat) : M nat cmd :=
  match fuel with
  | O => nofuel
  | S fuel =>
      c ← parsepipe fuel;
      n ← rounds; c ← parseline_loop n c;
      p ← peek (chars ";");
      if (p : bool) then gettoken;; c' ← parseline fuel; mret (LIST c c') else mret c
  end
with parsepipe (fuel : nat) : M nat cmd :=
  match fuel with
  | O => nofuel
  | S fuel =>
      c ← parseexec fuel;
      p ← peek (chars "|");
      if (p : bool) then gettoken;; c' ← parsepipe fuel; mret (PIPE c c') else mret c
  end
with parseexec (fuel : nat) : M nat cmd :=
  match fuel with
  | O => nofuel
  | S fuel =>
      p ← peek (chars "(");
      if (p : bool) then parseblock fuel else
      rs ← parseredirs [];
      n ← rounds; r ← parseexec_loop n [] rs;
      mret (foldl redircmd (EXEC r.1) r.2)
  end
with parseblock (fuel : nat) : M nat cmd :=
  match fuel with
  | O => nofuel
  | S fuel =>
      p ← peek (chars "(");
      if negb p then panic "parseblock" else
      gettoken;;
      c ← parseline fuel;
      p ← peek (chars ")");
      if negb p then panic "syntax - missing )" else
      gettoken;;
      rs ← parseredirs [];
      mret (foldl redircmd c rs)
  end.
End parser.

(** [*p = 0] in the line. *)
Definition put_nul (p : nat) : M (list Z) unit :=
  b ← get; match b !! p with Some _ => put (<[p := 0]> b) | None => undef end.
Fixpoint put_nuls (l : list (nat * nat)) : M (list Z) unit :=
  match l with [] => mret tt | (_, eq) :: l => put_nul eq;; put_nuls l end.
Fixpoint nulterminate (c : cmd) : M (list Z) unit :=
  match c with
  | EXEC argv => put_nuls argv
  | REDIR c _ efile _ _ => nulterminate c;; put_nul efile
  | PIPE l r => nulterminate l;; nulterminate r
  | LIST l r => nulterminate l;; nulterminate r
  | BACK c => nulterminate c
  end.

(** Parsing goes through four functions for each parenthesis it enters. *)
Definition parse_fuel (es : nat) : nat := 4 * S es.
Definition parsecmd : M (list Z) cmd :=
  b ← get;
  n ← of_option (strlen b); let es := Z.to_nat n in
  r ← zoom (λ _, O) (λ _ b, b)
        (c ← parseline b es (parse_fuel es); peek b es [];; s ← get; mret (c, s));
  if bool_decide (r.2 ≠ es) then panic "syntax" else
  nulterminate r.1;;
  mret r.1.

(** ** Running commands *)

(** The system calls of a process, each with what it does next. *)
Inductive prog :=
  | Exit (status : Z)
  | Exec (path : list Z) (argv : list (list Z)) (failed : prog)
  | Open (path : list Z) (mode : Z) (next : option Z → prog)
  | Close (fd : Z) (next : prog)
  | Dup (fd : Z) (next : prog)
  | Pipe (next : option (Z * Z) → prog)
  | Fork (child parent failed : prog)
  | Wait (next : prog)
  | Write (fd : Z) (bs : list Z) (next : prog)
  | Fprintf (fd : Z) (fmt : list Z) (args : list (list Z)) (next : prog)
  | Chdir (path : list Z) (next failed : prog)
  | NoMoreFuel.

Definition panic_ (s : string) : prog := Fprintf 2 (chars "%s" ++ [10]) [chars s] (Exit 1).
Arguments panic_ s%_string_scope.
Definition fork1 (child parent : prog) : prog := Fork child parent (panic_ "fork").

Section run.
Context (buf : list Z).

(** The C string at an offset of the line. *)
Definition str (p : nat) : list Z := cstr (drop p buf).

Fixpoint runcmd (c : cmd) : prog :=
  match c with
  | EXEC argv =>
      match argv with
      | [] => Exit 1
      | (q, _) :: _ =>
          Exec (str q) ((λ a, str a.1) <$> argv)
            (Fprintf 2 (chars "exec %s failed" ++ [10]) [str q] (Exit 0))
      end
  | REDIR c file _ mode fd =>
      Close fd
        (Open (str file) mode (λ r,
           match r with
           | None => Fprintf 2 (chars "open %s failed" ++ [10]) [str file] (Exit 1)
           | Some _ => runcmd c
           end))
  | LIST l r => fork1 (runcmd l) (Wait (runcmd r))
  | PIPE l r =>
      Pipe (λ p,
        match p with
        | None => panic_ "pipe"
        | Some (p0, p1) =>
            fork1 (Close 1 (Dup p1 (Close p0 (Close p1 (runcmd l)))))
              (fork1 (Close 0 (Dup p0 (Close p0 (Close p1 (runcmd r)))))
                 (Close p0 (Close p1 (Wait (Wait (Exit 0))))))
        end)
  | BACK c => fork1 (runcmd c) (Exit 0)
  end.
End run.

(** ** Reading commands *)

(** [gets] of [user/ulib.c], with [n] bytes of room left; the state is the input
    to come, and at its end [read] returns 0. *)
Fixpoint gets_loop (n : nat) : M (list Z) (list Z) :=
  match n with
  | O => mret []
  | S n =>
      input ← get;
      match input with
      | [] => mret []
      | c :: input =>
          put input;;
          if bool_decide (c = 10 ∨ c = 13) then mret [c]
          else l ← gets_loop n; mret (c :: l)
      end
  end.
(** The bytes it puts into a buffer of [max] bytes, before the NUL. *)
Definition gets_line (max : nat) : M (list Z) (list Z) := gets_loop (pred max).

(** The buffer, or [None] when there is no more input. *)
Definition getcmd (nbuf : nat) : M (list Z) (option (list Z)) :=
  l ← gets_line nbuf;
  let buf := l ++ replicate (nbuf - length l) 0 in
  mret (if bool_decide (hd 0 buf = 0) then None else Some buf).

Definition is_cd (buf : list Z) : bool := bool_decide (take 3 buf = chars "cd ").

(** [runcmd(parsecmd(buf))], in the child. *)
Definition run_line (buf : list Z) : prog :=
  match parsecmd buf with
  | Ok c buf => runcmd buf c
  | Panic e => panic_ e
  | _ => NoMoreFuel
  end.

(** The loop of [main], for at most [n] lines. *)
Fixpoint main_loop (n : nat) (input : list Z) : prog :=
  match n with
  | O => NoMoreFuel
  | S n =>
      Write 2 (chars "$ ")
        (match getcmd 100 input with
         | Ok (Some buf) input =>
             if is_cd buf then
               match strlen buf with
               | Some len =>
                   let buf := <[Z.to_nat (len - 1) := 0]> buf in
                   Chdir (str buf 3) (main_loop n input)
                     (Fprintf 2 (chars "cannot cd %s" ++ [10]) [str buf 3] (main_loop n input))
               | None => NoMoreFuel
               end
             else fork1 (run_line buf) (Wait (main_loop n input))
         | _ => Exit 0
         end)
  end.
(** At most three descriptors are below 3. *)
Fixpoint open_console (n : nat) (next : prog) : prog :=
  match n with
  | O => NoMoreFuel
  | S n =>
      Open (chars "console") O_RDWR (λ r,
        match r with
        | Some fd => if bool_decide (3 ≤ fd) then Close fd next else open_console n next
        | None => next
        end)
  end.
Definition main (input : list Z) : prog := open_console 4 (main_loop (S (length input)) input).
End Sh.
