(* ===== verification/ShSpec.v ===== *)
(** The shell's parser against a grammar, and what the shell runs against the
    meaning of a command line. *)

From S2P Require Import Prelude CString Sh.
Import Str.

Local Open Scope Z_scope.

Module ShSpec.

Import Sh.

(** * The grammar *)

Inductive token := TWord (w : list Z) | TSym (c : Z) | TAppend.

Fixpoint take_while (P : Z → bool) (l : list Z) : list Z :=
  match l with [] => [] | c :: l => if P c then c :: take_while P l else [] end.
Fixpoint drop_while (P : Z → bool) (l : list Z) : list Z :=
  match l with [] => [] | c :: r => if P c then drop_while P r else l end.

(** Blanks separate words, a symbol is a token, and [>>] is one. *)
Fixpoint lex (n : nat) (s : list Z) : list token :=
  match n with
  | O => []
  | S n =>
      match drop_while (has whitespace) s with
      | [] => []
      | c :: r =>
          if bool_decide (c = ch ">") then
            match r with
            | c' :: r' => if bool_decide (c' = ch ">") then TAppend :: lex n r' else TSym c :: lex n r
            | [] => [TSym c]
            end
          else if has symbols c then TSym c :: lex n r
          else TWord (take_while word_char (c :: r)) :: lex n (drop_while word_char (c :: r))
      end
  end.
Definition tokens (s : list Z) : list token := lex (S (length s)) s.

(** Command lines. *)
Inductive ast :=
  | AExec (argv : list (list Z))
  | ARedir (c : ast) (file : list Z) (mode fd : Z)
  | APipe (l r : ast)
  | AList (l r : ast)
  | ABack (c : ast).

Abbreviation LP := (TSym (ch "(")).
Abbreviation RP := (TSym (ch ")")).
Abbreviation BAR := (TSym (ch "|")).
Abbreviation AMP := (TSym (ch "&")).
Abbreviation SEMI := (TSym (ch ";")).

(** What a redirection symbol opens: the mode and the descriptor. *)
Definition redir_tok (t : token) : option (Z * Z) :=
  match t with
  | TAppend => Some (Z.lor O_WRONLY O_CREATE, 1)
  | TSym c =>
      if bool_decide (c = ch "<") then Some (O_RDONLY, 0)
      else if bool_decide (c = ch ">") then Some (Z.lor O_WRONLY (Z.lor O_CREATE O_TRUNC), 1) else None
  | TWord _ => None
  end.
Definition wrap (c : ast) (rs : list (list Z * Z * Z)) : ast := foldl (λ c r, ARedir c r.1.1 r.1.2 r.2) c rs.

Inductive g_redirs : list token → list (list Z * Z * Z) → Prop :=
  | g_redirs_nil : g_redirs [] []
  | g_redirs_cons t w m fd ts rs :
      redir_tok t = Some (m, fd) → g_redirs ts rs → g_redirs (t :: TWord w :: ts) ((w, m, fd) :: rs).

(** Words and redirections in any order. *)
Inductive g_simple : list token → list (list Z) → list (list Z * Z * Z) → Prop :=
  | g_simple_nil : g_simple [] [] []
  | g_simple_word w ts ws rs : g_simple ts ws rs → g_simple (TWord w :: ts) (w :: ws) rs
  | g_simple_redir t w m fd ts ws rs :
      redir_tok t = Some (m, fd) → g_simple ts ws rs → g_simple (t :: TWord w :: ts) ws ((w, m, fd) :: rs).

(** [line = pipe '&'* (';' line)?], [pipe = exec ('|' pipe)?],
    [exec = (word | redir)* | '(' line ')' redir*]. *)
Inductive g_exec : list token → ast → Prop :=
  | g_exec_simple ts ws rs :
      g_simple ts ws rs → (length ws < MAXARGS)%nat → g_exec ts (wrap (AExec ws) rs)
  | g_exec_block ts c ts' rs :
      g_line ts c → g_redirs ts' rs → g_exec (LP :: ts ++ RP :: ts') (wrap c rs)
with g_pipe : list token → ast → Prop :=
  | g_pipe_one ts c : g_exec ts c → g_pipe ts c
  | g_pipe_bar ts c ts' c' : g_exec ts c → g_pipe ts' c' → g_pipe (ts ++ BAR :: ts') (APipe c c')
with g_line : list token → ast → Prop :=
  | g_line_one ts c k : g_pipe ts c → g_line (ts ++ replicate k AMP) (Nat.iter k ABack c)
  | g_line_semi ts c k ts' c' :
      g_pipe ts c → g_line ts' c' →
      g_line (ts ++ replicate k AMP ++ SEMI :: ts') (AList (Nat.iter k ABack c) c').

Scheme g_exec_mut := Induction for g_exec Sort Prop
with g_pipe_mut := Induction for g_pipe Sort Prop
with g_line_mut := Induction for g_line Sort Prop.

(** * Tokens *)

Lemma drop_while_length P l : (length (drop_while P l) ≤ length l)%nat.
Proof. induction l as [|c l IH]; cbn; [done|]. destruct (P c); cbn; lia. Qed.

Lemma drop_while_head P l c r : drop_while P l = c :: r → P c = false.
Proof. induction l as [|x l IH]; cbn; [done|]. destruct (P x) eqn:Hx; [done|]. by intros [= <- <-]. Qed.
Lemma drop_while_idem P l : drop_while P (drop_while P l) = drop_while P l.
Proof. induction l as [|x l IH]; cbn; [done|]. destruct (P x) eqn:Hx; [done|]. cbn. by rewrite Hx. Qed.
Lemma take_drop_while P l : take_while P l ++ drop_while P l = l.
Proof. induction l as [|x l IH]; cbn; [done|]. destruct (P x); [|done]. cbn. by rewrite IH. Qed.
Lemma take_while_all P l : Forall (λ c, P c = true) (take_while P l).
Proof. induction l as [|x l IH]; cbn; [constructor|]. destruct (P x) eqn:Hx; constructor; auto. Qed.

Lemma word_start c : has whitespace c = false → has symbols c = false → word_char c = true.
Proof. unfold word_char. by intros -> ->. Qed.

Lemma lex_enough n : ∀ m s, (length s < n)%nat → (length s < m)%nat → lex n s = lex m s.
Proof.
  induction n as [|n IH]; intros [|m] s Hn Hm; try lia. cbn [lex].
  pose proof (drop_while_length (has whitespace) s) as Hl.
  destruct (drop_while (has whitespace) s) as [|c r] eqn:Hd; [done|]. cbn in Hl. case_bool_decide.
  - destruct r as [|c' r']; [done|]. cbn in Hl. case_bool_decide; f_equal; apply IH; cbn; lia.
  - destruct (has symbols c) eqn:Hs; f_equal; [apply IH; lia|].
    cbn [drop_while]. rewrite (word_start c (drop_while_head _ _ _ _ Hd) Hs).
    pose proof (drop_while_length word_char r). apply IH; lia.
Qed.

(** The first token, by the first character that is not blank. *)
Lemma tokens_eq s :
  tokens s =
    match drop_while (has whitespace) s with
    | [] => []
    | c :: r =>
        if bool_decide (c = ch ">") then
          match r with
          | c' :: r' => if bool_decide (c' = ch ">") then TAppend :: tokens r' else TSym c :: tokens r
          | [] => [TSym c]
          end
        else if has symbols c then TSym c :: tokens r
        else TWord (take_while word_char (c :: r)) :: tokens (drop_while word_char (c :: r))
    end.
Proof.
  unfold tokens at 1. cbn [lex]. pose proof (drop_while_length (has whitespace) s) as Hl.
  destruct (drop_while (has whitespace) s) as [|c r] eqn:Hd; [done|]. cbn in Hl. case_bool_decide.
  - destruct r as [|c' r']; [done|]. cbn in Hl. case_bool_decide; f_equal; apply lex_enough; cbn; lia.
  - destruct (has symbols c) eqn:Hs; f_equal; [apply lex_enough; lia|].
    cbn [drop_while]. rewrite (word_start c (drop_while_head _ _ _ _ Hd) Hs).
    pose proof (drop_while_length word_char r). apply lex_enough; lia.
Qed.
Lemma tokens_blank s : tokens (drop_while (has whitespace) s) = tokens s.
Proof. by rewrite tokens_eq, drop_while_idem, <-tokens_eq. Qed.

Lemma strchr_0 l c : (∀ x, x ∈ l → x ≠ 0) → strchr (l ++ [0]) c = Some (fst <$> list_find (λ x, x = c) l).
Proof.
  induction l as [|x l IH]; intros Hl; [done|]. cbn [strchr app]. rewrite bool_decide_false by (apply Hl; set_solver).
  cbn [list_find]. case_bool_decide as Hx; [by rewrite decide_True|]. rewrite decide_False by done.
  rewrite IH by (intros y Hy; apply Hl; set_solver). cbn. by destruct (list_find _ l) as [[]|].
Qed.
Lemma has_spec l c : Forall (λ x, x ≠ 0) l → has l c = bool_decide (c ∈ l).
Proof.
  intros Hl. unfold has. rewrite strchr_0 by (by apply Forall_forall).
  destruct (list_find (λ x, x = c) l) as [[i y]|] eqn:Hf; cbn.
  - apply list_find_Some in Hf as (Hi & -> & _). rewrite bool_decide_true; [done|]. by eapply list_elem_of_lookup_2.
  - rewrite bool_decide_false; [done|]. intros Hc. apply list_find_None in Hf.
    by apply (proj1 (Forall_forall _ _) Hf c).
Qed.

(** Symbols that come out of the lexer are symbols. *)
Definition token_ok (t : token) : Prop := match t with TSym c => has symbols c = true | _ => True end.
Lemma lex_ok n : ∀ s, Forall token_ok (lex n s).
Proof.
  induction n as [|n IH]; intros s; cbn [lex]; [constructor|].
  destruct (drop_while (has whitespace) s) as [|c r]; [constructor|]. case_bool_decide as Hc.
  - subst c. destruct r as [|c' r']; [by repeat constructor|]. case_bool_decide; by constructor.
  - destruct (has symbols c) eqn:Hs; by constructor.
Qed.

Lemma symbols_spec c : has symbols c = true ↔ c ∈ [60; 124; 62; 38; 59; 40; 41].
Proof. rewrite has_spec by (by repeat constructor). by rewrite bool_decide_eq_true. Qed.

Definition code (t : token) : Z := match t with TWord _ => ch "a" | TSym c => c | TAppend => ch "+" end.
Definition peeks (l : list Z) (ts : list token) : bool :=
  match ts with TSym c :: _ => has l c | TAppend :: _ => has l (ch ">") | _ => false end.

Lemma code_word t : token_ok t → code t = ch "a" ↔ ∃ w, t = TWord w.
Proof.
  intros Hok. destruct t as [w|c|]; cbn.
  - split; eauto.
  - apply symbols_spec in Hok. split; [|by intros []]. change (ch "a") with 97. set_solver.
  - split; [done|by intros []].
Qed.
Lemma code_0 t : token_ok t → code t ≠ 0.
Proof. destruct t as [w|c|]; cbn; [done| |done]. intros Hok%symbols_spec. set_solver. Qed.

(** Looking for one symbol, and for a redirection. *)
Lemma has_one c d : c ≠ 0 → has [c] d = bool_decide (d = c).
Proof. intros Hc. rewrite has_spec by (by repeat constructor). apply bool_decide_ext. set_solver. Qed.
Lemma peeks_one c ts :
  c ≠ 0 → c ≠ ch ">" → peeks [c] ts = true ↔ ∃ ts', ts = TSym c :: ts'.
Proof.
  intros H0 Hgt. destruct ts as [|[w|d|] ts]; cbn [peeks]; rewrite ?has_one, ?bool_decide_eq_true by done; naive_solver.
Qed.
Lemma peeks_redir ts :
  peeks (chars "<>") ts = true ↔ ∃ t ts' m fd, ts = t :: ts' ∧ redir_tok t = Some (m, fd).
Proof.
  change (chars "<>") with [60; 62]. destruct ts as [|[w|d|] ts]; cbn [peeks]; try naive_solver.
  rewrite has_spec, bool_decide_eq_true by (by repeat constructor). split.
  - intros Hd. exists (TSym d), ts. cbn [redir_tok]. change (ch "<") with 60. change (ch ">") with 62.
    repeat case_bool_decide; eauto. set_solver.
  - intros (t & ts' & m & fd & [= <- <-] & Hr). cbn [redir_tok] in Hr. change (ch "<") with 60 in Hr.
    change (ch ">") with 62 in Hr. repeat case_bool_decide; set_solver.
Qed.

(** * The parser on tokens

    The same recursive descent, on the list of tokens that is left. *)

Inductive tres := TOk (a : ast) (rest : list token) | TFail | TOut.

Fixpoint tp_redirs (ts : list token) : option (list (list Z * Z * Z) * list token) :=
  match ts with
  | t :: ts' =>
      match redir_tok t with
      | None => Some ([], ts)
      | Some (m, fd) =>
          match ts' with
          | TWord w :: ts'' => '(rs, r) ← tp_redirs ts''; Some ((w, m, fd) :: rs, r)
          | _ => None
          end
      end
  | [] => Some ([], ts)
  end.

(** Words and redirections, after [argc] words. *)
Fixpoint tp_simple (ts : list token) (argc : nat) : option (list (list Z) * list (list Z * Z * Z) * list token) :=
  match ts with
  | [] => Some ([], [], ts)
  | t :: ts' =>
      match redir_tok t with
      | Some (m, fd) =>
          match ts' with
          | TWord w :: ts'' => '(ws, rs, r) ← tp_simple ts'' argc; Some (ws, (w, m, fd) :: rs, r)
          | _ => None
          end
      | None =>
          match t with
          | TWord w =>
              if bool_decide (MAXARGS ≤ S argc)%nat then None
              else '(ws, rs, r) ← tp_simple ts' (S argc); Some (w :: ws, rs, r)
          | _ => if peeks (chars "|)&;") ts then Some ([], [], ts) else None
          end
      end
  end.

Fixpoint amps (ts : list token) : nat :=
  match ts with
  | TSym c :: ts => if bool_decide (c = ch "&") then S (amps ts) else O
  | _ => O
  end.

Definition tbind (r : tres) (f : ast → list token → tres) : tres :=
  match r with TOk a ts => f a ts | TFail => TFail | TOut => TOut end.

Fixpoint tp_line (n : nat) (ts : list token) : tres :=
  match n with
  | O => TOut
  | S n =>
      tbind (tp_pipe n ts) (λ a ts1,
        let a := Nat.iter (amps ts1) ABack a in
        let ts2 := drop (amps ts1) ts1 in
        if peeks (chars ";") ts2
        then tbind (tp_line n (tail ts2)) (λ a' r, TOk (AList a a') r)
        else TOk a ts2)
  end
with tp_pipe (n : nat) (ts : list token) : tres :=
  match n with
  | O => TOut
  | S n =>
      tbind (tp_exec n ts) (λ a ts1,
        if peeks (chars "|") ts1
        then tbind (tp_pipe n (tail ts1)) (λ a' r, TOk (APipe a a') r)
        else TOk a ts1)
  end
with tp_exec (n : nat) (ts : list token) : tres :=
  match n with
  | O => TOut
  | S n =>
      if peeks (chars "(") ts then tp_block n ts
      else match tp_simple ts 0 with
           | Some (ws, rs, r) => TOk (wrap (AExec ws) rs) r
           | None => TFail
           end
  end
with tp_block (n : nat) (ts : list token) : tres :=
  match n with
  | O => TOut
  | S n =>
      if negb (peeks (chars "(") ts) then TFail else
      tbind (tp_line n (tail ts)) (λ a ts1,
        if negb (peeks (chars ")") ts1) then TFail else
        match tp_redirs (tail ts1) with
        | Some (rs, r) => TOk (wrap a rs) r
        | None => TFail
        end)
  end.

(** * The line *)

Section line.
(** The text of the line, and the terminator after it. *)
Context (buf : list Z) (es : nat).
Context (Hes : buf !! es = Some 0) (Htext : ∀ i c, (i < es)%nat → buf !! i = Some c → c ≠ 0).

Definition text (s : nat) : list Z := drop s (take es buf).
Definition toks (s : nat) : list token := tokens (text s).

Lemma es_lt : (es < length buf)%nat.
Proof. by eapply lookup_lt_Some. Qed.
Lemma text_cons s : (s < es)%nat → ∃ c, buf !! s = Some c ∧ c ≠ 0 ∧ text s = c :: text (S s).
Proof.
  intros Hs. pose proof es_lt. destruct (lookup_lt_is_Some_2 buf s ltac:(lia)) as [c Hc]. exists c.
  split; [done|]. split; [by eapply Htext|]. unfold text. apply drop_S. by rewrite lookup_take_lt.
Qed.
Lemma text_end : text es = [].
Proof. unfold text. rewrite drop_ge; [done|]. rewrite length_take. lia. Qed.
Lemma length_text s : length (text s) = (es - s)%nat.
Proof. unfold text. rewrite length_drop, length_take. pose proof es_lt. lia. Qed.

Lemma scan_run P n : ∀ s st,
  (s + n = es)%nat →
  ∃ s', scan buf P n s st = Ok s' st ∧ (s ≤ s' ≤ es)%nat ∧ text s' = drop_while P (text s) ∧
        take (s' - s) (text s) = take_while P (text s).
Proof.
  induction n as [|n IH]; intros s st Hn; cbn [scan].
  - assert (s = es) as -> by lia. exists es. rewrite text_end, Nat.sub_diag. repeat split; auto.
  - destruct (text_cons s ltac:(lia)) as (c & Hc & _ & Ht). unfold at_, mbind, M_bind, of_option. rewrite Hc. cbn.
    destruct (P c) eqn:HP.
    + destruct (IH (S s) st ltac:(lia)) as (s' & Hrun & Hle & Hd & Htk). exists s'. rewrite Hrun, Ht.
      cbn. rewrite HP. split; [done|]. split; [lia|]. split; [done|].
      replace (s' - s)%nat with (S (s' - S s)) by lia. cbn. by rewrite Htk.
    + exists s. rewrite Ht, Nat.sub_diag. cbn. rewrite HP. repeat split; try done; lia.
Qed.
Lemma skip_run P s st :
  (s ≤ es)%nat →
  ∃ s', skip buf es P s st = Ok s' st ∧ (s ≤ s' ≤ es)%nat ∧ text s' = drop_while P (text s) ∧
        take (s' - s) (text s) = take_while P (text s).
Proof. intros Hs. apply scan_run. lia. Qed.

(** The character at a position, which is 0 at the end only. *)
Lemma at_run s st : (s ≤ es)%nat → at_ buf s st = Ok (hd 0 (text s)) st ∧ (text s = [] ↔ hd 0 (text s) = 0).
Proof.
  intros Hs. unfold at_, of_option. destruct (decide (s = es)) as [->|].
  - rewrite Hes, text_end. done.
  - destruct (text_cons s ltac:(lia)) as (c & -> & Hc & ->). done.
Qed.

Lemma skip_wp P s (Q : nat → nat → Prop) st :
  (s ≤ es)%nat →
  (∀ s', (s ≤ s' ≤ es)%nat → text s' = drop_while P (text s) → take (s' - s) (text s) = take_while P (text s) → Q s' st) →
  wp (skip buf es P s) Q st.
Proof. intros Hs HQ. destruct (skip_run P s st Hs) as (s' & Hr & ? & ? & ?). unfold wp. rewrite Hr. auto. Qed.
Lemma at_wp s (Q : Z → nat → Prop) st :
  (s ≤ es)%nat → ((text s = [] ↔ hd 0 (text s) = 0) → Q (hd 0 (text s)) st) → wp (at_ buf s) Q st.
Proof. intros Hs HQ. destruct (at_run s st Hs) as [Hr ?]. unfold wp. rewrite Hr. auto. Qed.

Lemma peek_wp l s (Q : bool → nat → Prop) :
  (s ≤ es)%nat → (∀ c, has l c = true → has symbols c = true) →
  (∀ s', (s ≤ s' ≤ es)%nat → toks s' = toks s → Q (peeks l (toks s)) s') → wp (peek buf es l) Q s.
Proof.
  intros Hs Hl HQ. unfold peek. apply wp_bind, wp_get, wp_bind, skip_wp; [done|]. intros s' Hle Ht _.
  apply wp_bind, wp_put, wp_bind, at_wp; [lia|]. intros He. apply wp_ret.
  assert (Htk : toks s' = toks s) by (unfold toks; by rewrite Ht, tokens_blank).
  assert (Hp : peeks l (toks s) = (negb (bool_decide (hd 0%Z (text s') = 0%Z)) && has l (hd 0 (text s')))%bool).
  { unfold toks. rewrite tokens_eq, <-Ht. destruct (text s') as [|c r]; [done|]. cbn [hd].
    rewrite (bool_decide_false (c = 0)) by (by intros E%He). cbn [negb andb]. case_bool_decide as Hg.
    - subst c. destruct r as [|c' r']; [done|]. by case_bool_decide.
    - destruct (has symbols c) eqn:Hsym; [done|]. cbn [peeks]. destruct (has l c) eqn:Hc; [|done]. apply Hl in Hc. congruence. }
  rewrite <-Hp. by apply HQ.
Qed.

(** A word of the line: its text, and something that ends it. *)
Record word_at (q e : nat) (w : list Z) : Prop := {
  wa_le : (q < e ≤ es)%nat;
  wa_text : take (e - q) (text q) = w;
  wa_chars : Forall (λ c, word_char c = true) w;
  wa_end : ∀ c, text e !! 0%nat = Some c → word_char c = false;
}.

Lemma sym_split c : has symbols c = (has (chars "|();&<") c || bool_decide (c = ch ">"))%bool.
Proof.
  rewrite !has_spec by (repeat constructor; done). apply eq_true_iff_eq.
  rewrite orb_true_iff, !bool_decide_eq_true. change symbols with [60; 124; 62; 38; 59; 40; 41].
  change (chars "|();&<") with [124; 40; 41; 59; 38; 60]. change (ch ">") with 62. set_solver.
Qed.

Lemma gettoken_wp s (Q : Z * nat * nat → nat → Prop) :
  (s ≤ es)%nat →
  (∀ ret q e s', (s ≤ s' ≤ es)%nat →
    match toks s with
    | [] => ret = 0 ∧ toks s' = []
    | t :: ts => ret = code t ∧ toks s' = ts ∧ (s < s')%nat ∧ ∀ w, t = TWord w → word_at q e w
    end → Q (ret, q, e) s') →
  wp (gettoken buf es) Q s.
Proof.
  intros Hs HQ. unfold gettoken. apply wp_bind, wp_get, wp_bind, skip_wp; [done|]. intros q Hle Ht _.
  apply wp_bind, at_wp; [lia|]. intros He.
  assert (Hfin : ∀ ret e, (q ≤ e ≤ es)%nat →
    (∀ s', (e ≤ s' ≤ es)%nat → toks s' = toks e → Q (ret, q, e) s') →
    wp (let '(ret, eq) := (ret, e) in s ← skip buf es (has whitespace) eq; put s;; mret (ret, q, eq)) Q s).
  { intros ret e Hqe HQ'. apply wp_bind, skip_wp; [lia|]. intros s' Hle' Ht' _. apply wp_bind, wp_put, wp_ret.
    apply HQ'; [done|]. unfold toks. by rewrite Ht', tokens_blank. }
  unfold toks at 1 in HQ. rewrite tokens_eq, <-Ht in HQ.
  destruct (decide (q = es)) as [->|Hq].
  { rewrite text_end in *. cbn [hd]. rewrite bool_decide_true by done. apply wp_bind, wp_ret.
    apply Hfin; [lia|]. intros s' Hs' Htk. apply HQ; [lia|]. split; [done|]. rewrite Htk. unfold toks. by rewrite text_end. }
  destruct (text_cons q ltac:(lia)) as (c & Hc & Hc0 & Htq). rewrite Htq in *. cbn [hd].
  rewrite (bool_decide_false (c = 0)) by done. rewrite sym_split in HQ.
  destruct (has (chars "|();&<") c) eqn:Hsym.
  { assert (c ≠ ch ">") by (intros ->; by vm_compute in Hsym).
    rewrite bool_decide_false in HQ by done. cbn [orb] in HQ.
    apply wp_bind, wp_ret, Hfin; [lia|]. intros s' Hs' Htk. apply HQ; [lia|]. split_and!; try done; lia. }
  cbn [orb] in HQ. case_bool_decide as Hgt.
  { subst c. apply wp_bind, wp_bind, at_wp; [lia|]. intros He'. destruct (text (S q)) as [|c' r'] eqn:Hq1; cbn [hd] in *.
    - rewrite bool_decide_false by done. apply wp_ret, Hfin; [lia|]. intros s' Hs' Htk. apply HQ; [lia|].
      split_and!; try done; [|lia]. rewrite Htk. unfold toks. by rewrite Hq1.
    - assert (S q ≠ es) by (intros E; by rewrite E, text_end in Hq1).
      destruct (text_cons (S q) ltac:(lia)) as (c2 & _ & _ & Hq2). rewrite Hq2 in Hq1. injection Hq1 as -> <-.
      case_bool_decide as Hgt2.
      + subst c'. apply wp_ret, Hfin; [lia|]. intros s' Hs' Htk. apply HQ; [lia|]. split_and!; try done; lia.
      + apply wp_ret, Hfin; [lia|]. intros s' Hs' Htk. apply HQ; [lia|]. split_and!; try done; [|lia].
        rewrite Htk. unfold toks. by rewrite Hq2. }
  assert (Hws : has whitespace c = false) by (symmetry in Ht; by apply drop_while_head in Ht).
  assert (Hwc : word_char c = true).
  { apply word_start; [done|]. rewrite sym_split, Hsym. by rewrite bool_decide_false. }
  apply wp_bind, wp_bind, skip_wp; [lia|]. intros e Hqe Hte Htw. rewrite Htq in Hte, Htw. apply wp_ret, Hfin; [lia|]. intros s' Hs' Htk.
  assert ((q < e)%nat).
  { destruct (decide (q = e)) as [<-|]; [|lia]. rewrite Nat.sub_diag in Htw. cbn in Htw. by rewrite Hwc in Htw. }
  apply HQ; [lia|]. split_and!; [done| |lia|].
  - rewrite Htk. unfold toks. by rewrite Hte.
  - intros w [= <-]. split; [lia|by rewrite Htq|apply (take_while_all word_char (c :: text (S q)))|].
    intros d Hd. rewrite Hte in Hd. destruct (drop_while _ _) as [|x r] eqn:Hdw; [done|]. cbn in Hd. simplify_eq.
    by eapply drop_while_head.
Qed.

(** * The parser of the shell is the parser on tokens *)

(** The command [c], whose strings are in the line, stands for [a]. *)
Definition means_word (p : nat * nat) (w : list Z) : Prop := word_at p.1 p.2 w.
Definition means_redir (r : redir) (x : list Z * Z * Z) : Prop :=
  word_at (r_file r) (r_efile r) x.1.1 ∧ r_mode r = x.1.2 ∧ r_fd r = x.2.
Fixpoint means (c : cmd) (a : ast) : Prop :=
  match c, a with
  | EXEC argv, AExec ws => Forall2 means_word argv ws
  | REDIR c q e m fd, ARedir a w m' fd' => means c a ∧ word_at q e w ∧ m = m' ∧ fd = fd'
  | PIPE l r, APipe l' r' => means l l' ∧ means r r'
  | LIST l r, AList l' r' => means l l' ∧ means r r'
  | BACK c, ABack a => means c a
  | _, _ => False
  end.

Lemma means_wrap rs xs : ∀ c a, Forall2 means_redir rs xs → means c a → means (foldl redircmd c rs) (wrap a xs).
Proof.
  revert xs. induction rs as [|r rs IH]; intros xs c a Hf Hm; inversion Hf as [|? [[w m] fd] ? xs' [Hw [Hm' Hfd]] Hf']; subst; [done|].
  cbn. apply IH; [done|]. cbn. auto.
Qed.

(** What a call does, against the result [r] of the parser on tokens: [Ok] when
    that succeeds, [panic] when it fails. *)
Definition agrees {A B} (rel : A → B → Prop) (s : nat) (o : outcome nat A) (r : option (B * list token)) : Prop :=
  match o, r with
  | Ok x s', Some (y, rest) => (s ≤ s' ≤ es)%nat ∧ toks s' = rest ∧ rel x y
  | Panic _, None => True
  | _, _ => False
  end.

Lemma sub_redir c : has (chars "<>") c = true → has symbols c = true.
Proof.
  rewrite symbols_spec, has_spec, bool_decide_eq_true by (by repeat constructor).
  change (chars "<>") with [60; 62]. set_solver.
Qed.
Lemma sub_one d c : has symbols d = true → has [d] c = true → has symbols c = true.
Proof.
  intros Hd. destruct (decide (d = 0)) as [->|]; [by vm_compute in Hd|]. rewrite has_one, bool_decide_eq_true by done. by intros ->.
Qed.
Lemma sub_stop c : has (chars "|)&;") c = true → has symbols c = true.
Proof.
  rewrite symbols_spec, has_spec, bool_decide_eq_true by (by repeat constructor).
  change (chars "|)&;") with [124; 41; 38; 59]. set_solver.
Qed.

Lemma toks_ok s : Forall token_ok (toks s).
Proof. apply lex_ok. Qed.

Lemma post_wp {A B} (m : M nat A) (f : A → M nat B) (P : outcome nat B → Prop) s :
  wp m (λ a s', P (f a s')) s → P (mbind f m s).
Proof. unfold wp, mbind, M_bind. by destruct (m s). Qed.

(** Another view of the same results. *)
Lemma agrees_mono {A B B'} (rel : A → B → Prop) (rel' : A → B' → Prop) (g : B → B') s s0 o r :
  (s0 ≤ s)%nat → agrees rel s o r → (∀ x y, rel x y → rel' x (g y)) →
  agrees rel' s0 o (prod_map g id <$> r).
Proof. intros Hs H Hg. destruct o, r as [[y rest]|]; cbn in *; try done. destruct H as (? & ? & ?). split_and!; [lia..|done|auto]. Qed.

Lemma tp_redirs_none ts : peeks (chars "<>") ts = false → tp_redirs ts = Some ([], ts).
Proof.
  intros Hp. destruct ts as [|t ts]; [done|]. cbn [tp_redirs]. destruct (redir_tok t) as [[m fd]|] eqn:Hr; [|done].
  assert (peeks (chars "<>") (t :: ts) = true) by (apply peeks_redir; eauto 10). congruence.
Qed.

Lemma redir_switch t m fd q e rs :
  token_ok t → redir_tok t = Some (m, fd) →
  (if bool_decide (code t = ch "<") then rs ++ [MkRedir q e O_RDONLY 0]
   else if bool_decide (code t = ch ">") then rs ++ [MkRedir q e (Z.lor O_WRONLY (Z.lor O_CREATE O_TRUNC)) 1]
   else if bool_decide (code t = ch "+") then rs ++ [MkRedir q e (Z.lor O_WRONLY O_CREATE) 1] else rs)
  = rs ++ [MkRedir q e m fd].
Proof.
  intros _ Hr. destruct t as [w|c|]; cbn [redir_tok code] in *; [done| |by simplify_eq].
  repeat case_bool_decide; by simplify_eq.
Qed.

Lemma parseredirs_loop_agrees n : ∀ s rs,
  (s ≤ es)%nat → (es - s < n)%nat →
  agrees (λ rs' xs, ∃ rs1, rs' = rs ++ rs1 ∧ Forall2 means_redir rs1 xs) s
    (parseredirs_loop buf es n rs s) (tp_redirs (toks s)).
Proof.
  induction n as [|n IH]; intros s rs Hs Hn; [lia|]. cbn [parseredirs_loop].
  apply post_wp, peek_wp; [done|apply sub_redir|]. intros s1 Hs1 Ht1.
  destruct (peeks (chars "<>") (toks s)) eqn:Hp; cbn [negb].
  2:{ rewrite tp_redirs_none by done. split; [lia|]. split; [done|]. exists []. by rewrite app_nil_r. }
  apply peeks_redir in Hp as (t & ts' & m & fd & Hts & Hr). pose proof (toks_ok s) as Hok. rewrite Hts in Hok.
  apply Forall_cons in Hok as [Hokt Hok]. rewrite Hts in *. cbn [tp_redirs]. rewrite Hr.
  apply post_wp, gettoken_wp; [lia|]. intros ret q0 e0 s2 Hs2. rewrite Ht1. intros (-> & Ht2 & Hlt & _).
  apply post_wp, gettoken_wp; [lia|]. intros a q e s3 Hs3. rewrite Ht2.
  destruct ts' as [|t2 ts2]; [by intros [-> _]|]. intros (-> & Ht3 & Hlt2 & Hw).
  apply Forall_cons in Hok as [Hokt2 _]. case_bool_decide as Hc.
  { destruct t2 as [w|c|]; [by cbn in Hc|done..]. }
  apply code_word in Hc as [w ->]; [|done].
  rewrite (redir_switch t m fd) by done. specialize (IH s3 (rs ++ [MkRedir q e m fd]) ltac:(lia) ltac:(lia)).
  rewrite Ht3 in IH. eapply (agrees_mono _ _ (cons (w, m, fd)) s3 s) in IH; [|lia|].
  - destruct (tp_redirs ts2) as [[xs r]|]; exact IH.
  - intros rs' xs (rs1 & -> & Hf). exists (MkRedir q e m fd :: rs1). rewrite <-app_assoc. split; [done|].
    constructor; [|done]. split; [by apply Hw|done].
Qed.
Lemma parseredirs_agrees s rs :
  (s ≤ es)%nat →
  agrees (λ rs' xs, ∃ rs1, rs' = rs ++ rs1 ∧ Forall2 means_redir rs1 xs) s (parseredirs buf es rs s) (tp_redirs (toks s)).
Proof. intros Hs. apply parseredirs_loop_agrees; [done|lia]. Qed.

Lemma tp_redirs_rest k : ∀ ts xs r, (length ts ≤ k)%nat → tp_redirs ts = Some (xs, r) → peeks (chars "<>") r = false.
Proof.
  induction k as [|k IH]; intros ts xs r Hk Hr.
  - destruct ts; [|cbn in Hk; lia]. cbn in Hr. by simplify_eq.
  - destruct (peeks (chars "<>") ts) eqn:Hp; [|rewrite tp_redirs_none in Hr by done; by simplify_eq].
    apply peeks_redir in Hp as (t & ts' & m & fd & -> & Ht). cbn [tp_redirs] in Hr. rewrite Ht in Hr.
    destruct ts' as [|[w| |] ts2]; try done. apply bind_Some in Hr as ([ys r'] & Hr & [= _ <-]). cbn in Hk.
    eapply (IH ts2); [lia|done].
Qed.

Lemma tp_simple_redirs k : ∀ ts n, (length ts ≤ k)%nat →
  tp_simple ts n =
    '(xs, r) ← tp_redirs ts; '(ws, ys, r') ← tp_simple r n; Some (ws, xs ++ ys, r').
Proof.
  assert (Hid : ∀ (o : option (list (list Z) * list (list Z * Z * Z) * list token)),
    ('(ws, ys, r') ← o; Some (ws, [] ++ ys, r')) = o) by (by intros [[[]]|]).
  induction k as [|k IH]; intros ts n Hk.
  - destruct ts; [done|cbn in Hk; lia].
  - destruct (peeks (chars "<>") ts) eqn:Hp; [|rewrite tp_redirs_none by done; cbn [mbind option_bind]; by rewrite Hid].
    apply peeks_redir in Hp as (t & ts' & m & fd & -> & Ht). cbn [tp_simple tp_redirs]. rewrite Ht.
    destruct ts' as [|[w| |] ts2]; try done. cbn in Hk. rewrite (IH ts2) by lia.
    destruct (tp_redirs ts2) as [[xs r]|]; [|done]. cbn [mbind option_bind]. by destruct (tp_simple r n) as [[[]]|].
Qed.

Lemma parseexec_loop_agrees n : ∀ s argv rs,
  (s ≤ es)%nat → (es - s < n)%nat → peeks (chars "<>") (toks s) = false →
  agrees (λ x y, ∃ argv1 rs1, x = (argv ++ argv1, rs ++ rs1) ∧ Forall2 means_word argv1 y.1 ∧ Forall2 means_redir rs1 y.2) s
    (parseexec_loop buf es n argv rs s) (tp_simple (toks s) (length argv)).
Proof.
  induction n as [|n IH]; intros s argv rs Hs Hn Hnr; [lia|]. cbn [parseexec_loop].
  apply post_wp, peek_wp; [done|apply sub_stop|]. intros s1 Hs1 Ht1. pose proof (toks_ok s) as Hok.
  assert (Hnone : ∀ t ts, toks s = t :: ts → redir_tok t = None).
  { intros t ts Hts. destruct (redir_tok t) as [[m fd]|] eqn:Hr; [|done].
    assert (peeks (chars "<>") (toks s) = true) by (apply peeks_redir; eauto 10). congruence. }
  destruct (peeks (chars "|)&;") (toks s)) eqn:Hp.
  { destruct (toks s) as [|[w|c|] ts] eqn:Hts; try done; cbn [tp_simple]; rewrite (Hnone _ _ eq_refl), Hp;
      (split; [lia|]; split; [congruence|]; exists [], []; by rewrite !app_nil_r). }
  apply post_wp, gettoken_wp; [lia|]. intros a q e s2 Hs2. rewrite Ht1.
  destruct (toks s) as [|t ts] eqn:Hts.
  { intros [-> Ht2]. rewrite bool_decide_true by done. split; [lia|]. split; [done|].
    exists [], []. by rewrite !app_nil_r. }
  intros (-> & Ht2 & Hlt & Hw). apply Forall_cons in Hok as [Hokt _].
  rewrite bool_decide_false by (by apply code_0). cbn [tp_simple]. rewrite (Hnone _ _ eq_refl).
  case_bool_decide as Hc.
  { destruct t as [w|c|]; [done|..]; by rewrite Hp. }
  apply code_word in Hc as [w ->]; [|done]. rewrite length_app, Nat.add_1_r.
  case_bool_decide; [done|]. pose proof (parseredirs_agrees s2 rs ltac:(lia)) as Hrd. rewrite Ht2 in Hrd.
  rewrite (tp_simple_redirs (length ts)) by done. unfold mbind at 1, M_bind at 1.
  destruct (parseredirs buf es rs s2) as [rs2 s3|msg|x| |], (tp_redirs ts) as [[xs r]|] eqn:Hxs; try done.
  destruct Hrd as (Hs3 & Ht3 & rs1 & -> & Hf1). cbn [mbind option_bind].
  specialize (IH s3 (argv ++ [(q, e)]) (rs ++ rs1) ltac:(lia) ltac:(lia)).
  rewrite Ht3, length_app, Nat.add_1_r in IH. specialize (IH (tp_redirs_rest _ _ _ _ (Nat.le_refl _) Hxs)).
  eapply (agrees_mono _ _ (λ y, (w :: y.1, xs ++ y.2)) s3 s) in IH; [|lia|].
  - destruct (tp_simple r (S (length argv))) as [[[ws ys] r']|]; exact IH.
  - intros x [ws ys] (argv1 & rs3 & -> & Hf2 & Hf3). exists ((q, e) :: argv1), (rs1 ++ rs3). rewrite <-!app_assoc.
    split; [done|]. split; [constructor; [by apply Hw|done]|by apply Forall2_app].
Qed.

Lemma parseline_loop_wp n : ∀ s c (Q : cmd → nat → Prop),
  (s ≤ es)%nat → (es - s < n)%nat →
  (∀ s', (s ≤ s' ≤ es)%nat → toks s' = drop (amps (toks s)) (toks s) → Q (Nat.iter (amps (toks s)) BACK c) s') →
  wp (parseline_loop buf es n c) Q s.
Proof.
  induction n as [|n IH]; intros s c Q Hs Hn HQ; [lia|]. cbn [parseline_loop].
  apply wp_bind, peek_wp; [done|by intros d; apply sub_one|]. intros s1 Hs1 Ht1.
  destruct (peeks (chars "&") (toks s)) eqn:Hp.
  - apply peeks_one in Hp as [ts' Hts]; [|done..]. rewrite Hts in HQ. cbn [amps] in HQ.
    rewrite bool_decide_true in HQ by done. apply wp_bind, gettoken_wp; [lia|].
    intros a q e s2 Hs2. rewrite Ht1, Hts. intros (_ & Ht2 & Hlt & _). apply IH; [lia..|].
    intros s' Hs' Ht'. rewrite Ht2 in *. rewrite <-Nat.iter_succ_r. apply HQ; [lia|done].
  - apply wp_ret. assert (Ha : amps (toks s) = O).
    { destruct (toks s) as [|[w|d|] ts]; try done. cbn [amps]. case_bool_decide; [|done]. subst. by vm_compute in Hp. }
    rewrite Ha in HQ. apply HQ; [lia|done].
Qed.

Definition agreesT (s : nat) (o : outcome nat cmd) (r : tres) : Prop :=
  match o, r with
  | Ok c s', TOk a rest => (s ≤ s' ≤ es)%nat ∧ toks s' = rest ∧ means c a
  | Panic _, TFail => True
  | NoFuel, TOut => True
  | _, _ => False
  end.

Lemma agreesT_bind s m r (f : cmd → M nat cmd) g :
  agreesT s (m s) r →
  (∀ c s' a, (s ≤ s' ≤ es)%nat → means c a → agreesT s (f c s') (g a (toks s'))) →
  agreesT s ((c ← m; f c) s) (tbind r g).
Proof.
  intros Hm Hf. unfold mbind, M_bind. destruct (m s), r; cbn in *; try done. destruct Hm as (? & <- & ?). auto.
Qed.
Lemma agreesT_le s s0 o r : (s0 ≤ s)%nat → agreesT s o r → agreesT s0 o r.
Proof. intros Hs H. destruct o, r; cbn in *; try done. destruct H as (? & ? & ?). split; [lia|done]. Qed.

(** Taking the symbol that was seen. *)
Lemma take_symbol {B} s c ts (f : M nat B) (P : outcome nat B → Prop) :
  (s ≤ es)%nat → toks s = c :: ts → (∀ s', (s < s' ≤ es)%nat → toks s' = ts → P (f s')) →
  P ((gettoken buf es;; f) s).
Proof.
  intros Hs Ht Hf. apply post_wp, gettoken_wp; [done|]. intros a q e s' Hs'. rewrite Ht. intros (_ & Ht' & Hlt & _).
  apply Hf; [lia|done].
Qed.

Lemma peeks_tail l ts : peeks l ts = true → ∃ t, ts = t :: tail ts.
Proof. destruct ts; [done|]. by eexists. Qed.

Lemma iter_means k c a : means c a → means (Nat.iter k BACK c) (Nat.iter k ABack a).
Proof. intros Hm. induction k; cbn; auto. Qed.

Lemma line_agrees n :
  (∀ s, (s ≤ es)%nat → agreesT s (parsepipe buf es n s) (tp_pipe n (toks s))) →
  (∀ s, (s ≤ es)%nat → agreesT s (parseline buf es n s) (tp_line n (toks s))) →
  ∀ s, (s ≤ es)%nat → agreesT s (parseline buf es (S n) s) (tp_line (S n) (toks s)).
Proof.
  intros Hpipe Hline s Hs. cbn [parseline tp_line]. apply agreesT_bind; [by apply Hpipe|]. intros c s1 a Hs1 Hm.
  apply post_wp, wp_gets. apply post_wp, parseline_loop_wp; [lia..|]. intros s2 Hs2 Ht2. rewrite <-Ht2.
  apply post_wp, peek_wp; [lia|by intros d; apply sub_one|]. intros s3 Hs3 Ht3. rewrite <-Ht3.
  pose proof (iter_means (amps (toks s1)) _ _ Hm) as Hm2. set (c2 := Nat.iter _ BACK c) in *. set (a2 := Nat.iter _ ABack a) in *.
  destruct (peeks (chars ";") (toks s3)) eqn:Hp; [|split; [lia|done]].
  destruct (peeks_tail _ _ Hp) as [t Ht]. eapply take_symbol; [lia|done|]. intros s4 Hs4 Ht4. rewrite <-Ht4.
  apply (agreesT_le s4); [lia|]. apply (agreesT_bind s4); [apply Hline; lia|]. intros c' s5 a' Hs5 Hm'. split; [lia|done].
Qed.

Lemma pipe_agrees n :
  (∀ s, (s ≤ es)%nat → agreesT s (parseexec buf es n s) (tp_exec n (toks s))) →
  (∀ s, (s ≤ es)%nat → agreesT s (parsepipe buf es n s) (tp_pipe n (toks s))) →
  ∀ s, (s ≤ es)%nat → agreesT s (parsepipe buf es (S n) s) (tp_pipe (S n) (toks s)).
Proof.
  intros Hexec Hpipe s Hs. cbn [parsepipe tp_pipe]. apply agreesT_bind; [by apply Hexec|]. intros c s1 a Hs1 Hm.
  apply post_wp, peek_wp; [lia|by intros d; apply sub_one|]. intros s3 Hs3 Ht3. rewrite <-Ht3.
  destruct (peeks (chars "|") (toks s3)) eqn:Hp; [|split; [lia|done]].
  destruct (peeks_tail _ _ Hp) as [t Ht]. eapply take_symbol; [lia|done|]. intros s4 Hs4 Ht4. rewrite <-Ht4.
  apply (agreesT_le s4); [lia|]. apply (agreesT_bind s4); [apply Hpipe; lia|]. intros c' s5 a' Hs5 Hm'. split; [lia|done].
Qed.

Lemma exec_agrees n :
  (∀ s, (s ≤ es)%nat → agreesT s (parseblock buf es n s) (tp_block n (toks s))) →
  ∀ s, (s ≤ es)%nat → agreesT s (parseexec buf es (S n) s) (tp_exec (S n) (toks s)).
Proof.
  intros Hblock s Hs. cbn [parseexec tp_exec].
  apply post_wp, peek_wp; [lia|by intros d; apply sub_one|]. intros s1 Hs1 Ht1. rewrite <-Ht1.
  destruct (peeks (chars "(") (toks s1)) eqn:Hp; [apply (agreesT_le s1); [lia|]; apply Hblock; lia|].
  pose proof (parseredirs_agrees s1 [] ltac:(lia)) as Hrd. rewrite (tp_simple_redirs (length (toks s1))) by done.
  unfold mbind at 1, M_bind at 1.
  destruct (parseredirs buf es [] s1) as [rs s2|msg|x| |], (tp_redirs (toks s1)) as [[xs r]|] eqn:Hxs; try done.
  destruct Hrd as (Hs2 & Ht2 & rs1 & -> & Hf1). cbn [mbind option_bind app].
  apply post_wp, wp_gets. unfold mbind at 1, M_bind at 1.
  pose proof (parseexec_loop_agrees (S (es - s2)) s2 [] rs1 ltac:(lia) ltac:(lia)) as Hl. rewrite Ht2 in Hl.
  specialize (Hl (tp_redirs_rest _ _ _ _ (Nat.le_refl _) Hxs)). cbn [length] in Hl.
  destruct (parseexec_loop buf es _ [] rs1 s2) as [[argv rs2] s3|msg|x| |], (tp_simple r 0) as [[[ws ys] r']|]; try done.
  destruct Hl as (Hs3 & Ht3 & argv1 & rs3 & [= -> ->] & Hf2 & Hf3). cbn. split; [lia|]. split; [done|].
  apply means_wrap; [by apply Forall2_app|done].
Qed.

Lemma block_agrees n :
  (∀ s, (s ≤ es)%nat → agreesT s (parseline buf es n s) (tp_line n (toks s))) →
  ∀ s, (s ≤ es)%nat → agreesT s (parseblock buf es (S n) s) (tp_block (S n) (toks s)).
Proof.
  intros Hline s Hs. cbn [parseblock tp_block].
  apply post_wp, peek_wp; [lia|by intros d; apply sub_one|]. intros s1 Hs1 Ht1. rewrite <-Ht1.
  destruct (peeks (chars "(") (toks s1)) eqn:Hp; [cbn [negb]|done].
  destruct (peeks_tail _ _ Hp) as [t Ht]. eapply take_symbol; [lia|done|]. intros s2 Hs2 Ht2. rewrite <-Ht2.
  apply (agreesT_le s2); [lia|]. apply (agreesT_bind s2); [apply Hline; lia|]. intros c s3 a Hs3 Hm.
  apply post_wp, peek_wp; [lia|by intros d; apply sub_one|]. intros s4 Hs4 Ht4. rewrite <-Ht4.
  destruct (peeks (chars ")") (toks s4)) eqn:Hp4; [cbn [negb]|done].
  destruct (peeks_tail _ _ Hp4) as [t' Ht']. eapply take_symbol; [lia|done|]. intros s5 Hs5 Ht5. rewrite <-Ht5.
  pose proof (parseredirs_agrees s5 [] ltac:(lia)) as Hrd. unfold mbind, M_bind.
  destruct (parseredirs buf es [] s5) as [rs s6|msg|x| |], (tp_redirs (toks s5)) as [[xs r]|] eqn:Hxs; try done.
  destruct Hrd as (Hs6 & Ht6 & rs1 & -> & Hf1). split; [lia|]. split; [done|]. by apply means_wrap.
Qed.

Lemma parse_agrees n s : (s ≤ es)%nat → agreesT s (parseline buf es n s) (tp_line n (toks s)).
Proof.
  revert s. assert (H : (∀ s, (s ≤ es)%nat → agreesT s (parseline buf es n s) (tp_line n (toks s))) ∧
    (∀ s, (s ≤ es)%nat → agreesT s (parsepipe buf es n s) (tp_pipe n (toks s))) ∧
    (∀ s, (s ≤ es)%nat → agreesT s (parseexec buf es n s) (tp_exec n (toks s))) ∧
    (∀ s, (s ≤ es)%nat → agreesT s (parseblock buf es n s) (tp_block n (toks s)))); [|apply H].
  induction n as [|n (IH1 & IH2 & IH3 & IH4)]; [done|]. split_and!.
  - by apply line_agrees.
  - by apply pipe_agrees.
  - by apply exec_agrees.
  - by apply block_agrees.
Qed.
End line.
End ShSpec.
