(* ===== verification/ShParse.v ===== *)
(** The shell's parser accepts exactly the lines of the grammar, and leaves in
    memory the command they stand for. *)

From S2P Require Import Prelude CString Sh ShSpec.
Import Str.

Local Open Scope Z_scope.

Module ShParse.

Import Sh ShSpec.

(** ** The parser on tokens finds derivations *)

Lemma tp_redirs_sound k : ∀ ts xs r, (length ts ≤ k)%nat → tp_redirs ts = Some (xs, r) →
  ∃ ts1, ts = ts1 ++ r ∧ g_redirs ts1 xs.
Proof.
  induction k as [|k IH]; intros ts xs r Hk Hr.
  - destruct ts; [|cbn in Hk; lia]. cbn in Hr. simplify_eq. exists []. split; [done|constructor].
  - destruct ts as [|t ts]; [cbn in Hr; simplify_eq; exists []; split; [done|constructor]|]. cbn [tp_redirs] in Hr.
    destruct (redir_tok t) as [[m fd]|] eqn:Ht; [|simplify_eq; exists []; split; [done|constructor]].
    destruct ts as [|[w| |] ts]; try done. apply bind_Some in Hr as ([ys r'] & Hr & [= <- <-]). cbn in Hk.
    destruct (IH ts ys r' ltac:(lia) Hr) as (ts1 & -> & Hg). exists (t :: TWord w :: ts1). split; [done|]. by constructor.
Qed.

Lemma tp_simple_sound k : ∀ ts n ws xs r, (length ts ≤ k)%nat → tp_simple ts n = Some (ws, xs, r) →
  ∃ ts1, ts = ts1 ++ r ∧ g_simple ts1 ws xs ∧ (ws = [] ∨ n + length ws < MAXARGS)%nat.
Proof.
  assert (Hnil : ∀ ts n, ∃ ts1, ts = ts1 ++ ts ∧ g_simple ts1 [] [] ∧ (@nil (list Z) = [] ∨ (n + 0 < MAXARGS)%nat)).
  { intros ts n. exists []. split; [done|]. split; [constructor|by left]. }
  induction k as [|k IH]; intros ts n ws xs r Hk Hr.
  - destruct ts; [|cbn in Hk; lia]. cbn in Hr. simplify_eq. apply Hnil.
  - destruct ts as [|t ts]; [cbn in Hr; simplify_eq; apply Hnil|]. cbn [tp_simple] in Hr. cbn in Hk.
    destruct (redir_tok t) as [[m fd]|] eqn:Ht.
    + destruct ts as [|[w| |] ts]; try done. apply bind_Some in Hr as ([[ws' ys] r'] & Hr & [= <- <- <-]). cbn in Hk.
      destruct (IH ts n ws' ys r' ltac:(lia) Hr) as (ts1 & -> & Hg & Hn). exists (t :: TWord w :: ts1).
      split; [done|]. split; [by constructor|done].
    + destruct t as [w|c|].
      * case_bool_decide; [done|]. apply bind_Some in Hr as ([[ws' ys] r'] & Hr & [= <- <- <-]).
        destruct (IH ts (S n) ws' ys r' ltac:(lia) Hr) as (ts1 & -> & Hg & Hn). exists (TWord w :: ts1).
        split; [done|]. split; [by constructor|]. right. destruct Hn as [->|]; cbn; lia.
      * destruct (peeks _ _); [|done]. simplify_eq. apply Hnil.
      * done.
Qed.

Lemma amps_replicate ts : ts = replicate (amps ts) AMP ++ drop (amps ts) ts.
Proof.
  induction ts as [|[w|c|] ts IH]; try done. cbn [amps]. case_bool_decide; [|done]. subst. cbn. by f_equal.
Qed.

Lemma peeks_sym c ts : c ≠ 0 → c ≠ ch ">" → peeks [c] ts = true → ts = TSym c :: tail ts.
Proof. intros H0 Hgt Hp. by apply peeks_one in Hp as [ts' ->]. Qed.

Lemma tbind_ok r f a ts : tbind r f = TOk a ts → ∃ a1 ts1, r = TOk a1 ts1 ∧ f a1 ts1 = TOk a ts.
Proof. destruct r; cbn; [eauto|done..]. Qed.

Lemma tp_sound n :
  (∀ ts a r, tp_line n ts = TOk a r → ∃ ts1, ts = ts1 ++ r ∧ g_line ts1 a) ∧
  (∀ ts a r, tp_pipe n ts = TOk a r → ∃ ts1, ts = ts1 ++ r ∧ g_pipe ts1 a) ∧
  (∀ ts a r, tp_exec n ts = TOk a r → ∃ ts1, ts = ts1 ++ r ∧ g_exec ts1 a) ∧
  (∀ ts a r, tp_block n ts = TOk a r → ∃ ts1, ts = ts1 ++ r ∧ g_exec ts1 a).
Proof.
  induction n as [|n (IH1 & IH2 & IH3 & IH4)]; [done|]. split_and!; intros ts a r H; cbn [tp_line tp_pipe tp_exec tp_block] in H.
  - apply tbind_ok in H as (c & ts1 & (t1 & -> & Hc)%IH2 & H). pose proof (amps_replicate ts1) as Ha.
    set (k := amps ts1) in *. destruct (peeks (chars ";") (drop k ts1)) eqn:Hp.
    + apply tbind_ok in H as (c' & r' & (t2 & Ht2 & Hc')%IH1 & [= <- <-]).
      apply peeks_sym in Hp; [|done..]. exists (t1 ++ replicate k AMP ++ SEMI :: t2). split; [|by constructor].
      rewrite Ha at 1. rewrite Hp, Ht2. by rewrite <-!app_assoc.
    + injection H as <- <-. exists (t1 ++ replicate k AMP). split; [|by constructor]. rewrite Ha at 1. by rewrite <-app_assoc.
  - apply tbind_ok in H as (c & ts1 & (t1 & -> & Hc)%IH3 & H). destruct (peeks (chars "|") ts1) eqn:Hp.
    + apply tbind_ok in H as (c' & r' & (t2 & Ht2 & Hc')%IH2 & [= <- <-]).
      apply peeks_sym in Hp; [|done..]. exists (t1 ++ BAR :: t2). split; [|by constructor].
      rewrite Hp, Ht2. by rewrite <-app_assoc.
    + injection H as <- <-. exists t1. split; [done|by constructor].
  - destruct (peeks (chars "(") ts); [by apply IH4|].
    destruct (tp_simple ts 0) as [[[ws xs] r']|] eqn:Hs; [|done]. injection H as <- <-.
    destruct (tp_simple_sound _ _ _ _ _ _ (Nat.le_refl _) Hs) as (t1 & -> & Hg & Hn). exists t1. split; [done|].
    constructor; [done|]. destruct Hn as [->|]; [cbn; unfold MAXARGS; lia|lia].
  - destruct (peeks (chars "(") ts) eqn:Hp; [|done]. apply peeks_sym in Hp; [|done..]. cbn [negb] in H.
    apply tbind_ok in H as (c & ts1 & (t1 & Ht1 & Hc)%IH1 & H).
    destruct (peeks (chars ")") ts1) eqn:Hp1; [|done]. apply peeks_sym in Hp1; [|done..]. cbn [negb] in H.
    destruct (tp_redirs (tail ts1)) as [[xs r']|] eqn:Hr; [|done]. injection H as <- <-.
    destruct (tp_redirs_sound _ _ _ _ (Nat.le_refl _) Hr) as (t2 & Ht2 & Hg).
    exists (LP :: t1 ++ RP :: t2). split; [|by constructor]. rewrite Hp, Ht1, Hp1, Ht2. cbn. by rewrite <-app_assoc.
Qed.

(** ** It does not run out of fuel *)

Lemma tp_rest n ts a r : tp_line n ts = TOk a r ∨ tp_pipe n ts = TOk a r ∨ tp_exec n ts = TOk a r → (length r ≤ length ts)%nat.
Proof.
  destruct (tp_sound n) as (H1 & H2 & H3 & _).
  intros [H|[H|H]]; [apply H1 in H|apply H2 in H|apply H3 in H]; destruct H as (ts1 & -> & _); rewrite length_app; lia.
Qed.
Lemma length_tail {A} (l : list A) : length (tail l) = pred (length l).
Proof. by destruct l. Qed.
Lemma peeks_length l ts : peeks l ts = true → (0 < length ts)%nat.
Proof. destruct ts; [done|cbn; lia]. Qed.

Lemma tbind_out r f : r ≠ TOut → (∀ a ts, r = TOk a ts → f a ts ≠ TOut) → tbind r f ≠ TOut.
Proof. intros Hr Hf. destruct r; cbn; auto. Qed.

Lemma tp_total n :
  (∀ ts, (4 * length ts + 4 ≤ n)%nat → tp_line n ts ≠ TOut) ∧
  (∀ ts, (4 * length ts + 3 ≤ n)%nat → tp_pipe n ts ≠ TOut) ∧
  (∀ ts, (4 * length ts + 2 ≤ n)%nat → tp_exec n ts ≠ TOut) ∧
  (∀ ts, (4 * length ts + 1 ≤ n)%nat → tp_block n ts ≠ TOut).
Proof.
  induction n as [|n (IH1 & IH2 & IH3 & IH4)]; [split_and!; intros; lia|].
  split_and!; intros ts Hn; cbn [tp_line tp_pipe tp_exec tp_block].
  - apply tbind_out; [apply IH2; lia|]. intros a ts1 H1. pose proof (tp_rest n ts a ts1 ltac:(auto)).
    destruct (peeks (chars ";") _) eqn:Hp; [|done]. apply peeks_length in Hp. rewrite length_drop in Hp.
    apply tbind_out; [|done]. apply IH1. rewrite length_tail, length_drop. lia.
  - apply tbind_out; [apply IH3; lia|]. intros a ts1 H1. pose proof (tp_rest n ts a ts1 ltac:(auto)).
    destruct (peeks (chars "|") _) eqn:Hp; [|done]. apply peeks_length in Hp.
    apply tbind_out; [|done]. apply IH2. rewrite length_tail. lia.
  - destruct (peeks (chars "(") ts); [apply IH4; lia|]. by destruct (tp_simple ts 0) as [[[]]|].
  - destruct (peeks (chars "(") ts) eqn:Hp; [|done]. apply peeks_length in Hp. cbn [negb].
    apply tbind_out; [apply IH1; rewrite length_tail; lia|]. intros a ts1 _. destruct (negb _); [done|].
    by destruct (tp_redirs _) as [[]|].
Qed.

(** ** And finds all of them *)

(** What may come after an [exec], a [pipe] and a [line]. *)
Definition after_exec (r : list token) : Prop := r = [] ∨ peeks (chars "|)&;") r = true.
Definition after_pipe (r : list token) : Prop := r = [] ∨ peeks (chars ")&;") r = true.
Definition after_line (r : list token) : Prop := r = [] ∨ peeks (chars ")") r = true.

Lemma has_incl l l' c : Forall (λ x, x ≠ 0) l → Forall (λ x, x ≠ 0) l' → l ⊆ l' → has l c = true → has l' c = true.
Proof. intros ? ? Hi. rewrite !has_spec, !bool_decide_eq_true by done. apply Hi. Qed.
Lemma peeks_incl l l' r : Forall (λ x, x ≠ 0) l → Forall (λ x, x ≠ 0) l' → l ⊆ l' → peeks l r = true → peeks l' r = true.
Proof. intros ? ? ?. destruct r as [|[w|c|] r]; cbn; try done; by apply has_incl. Qed.

Lemma after_pipe_exec r : after_pipe r → after_exec r.
Proof.
  intros [->|Hp]; [by left|right]. eapply peeks_incl; [..|exact Hp]; [by repeat constructor..|].
  change (chars ")&;") with [41; 38; 59]. change (chars "|)&;") with [124; 41; 38; 59]. set_solver.
Qed.
Lemma after_line_pipe r : after_line r → after_pipe r.
Proof.
  intros [->|Hp]; [by left|right]. eapply peeks_incl; [..|exact Hp]; [by repeat constructor..|].
  change (chars ")&;") with [41; 38; 59]. change (chars ")") with [41]. set_solver.
Qed.

(** A symbol that may follow is none of those that go on. *)
Lemma peeks_excl l l' r : Forall (λ x, x ≠ 0) l → Forall (λ x, x ≠ 0) l' → (∀ x, x ∈ l → x ∉ l') →
  peeks l r = true → peeks l' r = false.
Proof.
  intros H1 H2 Hd. destruct r as [|[w|c|] r]; cbn [peeks]; try done;
    rewrite !has_spec, bool_decide_eq_true, bool_decide_eq_false by done; apply Hd.
Qed.

Lemma after_exec_redir r : after_exec r → peeks (chars "<>") r = false.
Proof.
  intros [->|Hp]; [done|]. eapply peeks_excl; [..|exact Hp]; [by repeat constructor..|].
  change (chars "|)&;") with [124; 41; 38; 59]. change (chars "<>") with [60; 62]. set_solver.
Qed.

Lemma tp_redirs_complete ts xs r : g_redirs ts xs → peeks (chars "<>") r = false → tp_redirs (ts ++ r) = Some (xs, r).
Proof.
  intros Hg Hr. induction Hg as [|t w m fd ts xs Ht Hg IH]; cbn [app tp_redirs]; [by apply tp_redirs_none|].
  rewrite Ht. by rewrite IH.
Qed.

Lemma tp_simple_complete ts ws xs : g_simple ts ws xs → ∀ n r,
  after_exec r → (n + length ws < MAXARGS)%nat → tp_simple (ts ++ r) n = Some (ws, xs, r).
Proof.
  induction 1 as [|w ts ws xs Hg IH|t w m fd ts ws xs Ht Hg IH]; intros n r Hr Hn; cbn [app].
  - destruct r as [|t r]; [done|]. cbn [tp_simple]. destruct Hr as [?|Hp]; [done|].
    destruct (redir_tok t) as [[m fd]|] eqn:Ht.
    + assert (peeks (chars "<>") (t :: r) = true) by (apply peeks_redir; eauto 10).
      by rewrite (after_exec_redir (t :: r)) in * by (by right).
    + destruct t as [w|c|]; [done|..]; by rewrite Hp.
  - cbn [tp_simple redir_tok]. cbn in Hn. rewrite bool_decide_false by lia. rewrite IH by (done || lia). done.
  - cbn [tp_simple]. rewrite Ht, IH by done. done.
Qed.

Lemma amps_app k r : peeks (chars "&") r = false → amps (replicate k AMP ++ r) = k ∧ drop k (replicate k AMP ++ r) = r.
Proof.
  intros Hr. assert (Ha : amps r = O).
  { destruct r as [|[w|d|] r]; try done. cbn [amps]. case_bool_decide; [|done]. subst. by vm_compute in Hr. }
  induction k as [|k [IH1 IH2]]; [done|]. cbn [replicate app amps drop]. rewrite bool_decide_true by done. by rewrite IH1, IH2.
Qed.

(** An [exec] that begins with a parenthesis is a block. *)
Lemma simple_no_block ts ws xs r : g_simple ts ws xs → after_exec r → peeks (chars "(") (ts ++ r) = false.
Proof.
  intros Hg Hr. destruct Hg as [|w ts ws xs Hg|t w m fd ts ws xs Ht Hg]; cbn [app]; [|done|].
  - destruct Hr as [->|Hp]; [done|]. eapply peeks_excl; [..|exact Hp]; [by repeat constructor..|].
    change (chars "|)&;") with [124; 41; 38; 59]. change (chars "(") with [40]. set_solver.
  - eapply (peeks_excl (chars "<>")); [by repeat constructor..| |apply peeks_redir; eauto 10].
    change (chars "<>") with [60; 62]. change (chars "(") with [40]. set_solver.
Qed.

Lemma after_line_peeks r : after_line r →
  peeks (chars ";") r = false ∧ peeks (chars "&") r = false ∧ peeks (chars "|") r = false.
Proof.
  intros [->|Hp]; [done|].
  split_and!; (eapply peeks_excl; [..|exact Hp]; [by repeat constructor..|]; change (chars ")") with [41];
    change (chars ";") with [59]; change (chars "&") with [38]; change (chars "|") with [124]; set_solver).
Qed.

(** After the pipes and the ampersands of a line. *)
Lemma after_amps k r : after_line r ∨ (∃ ts, r = SEMI :: ts) → after_pipe (replicate k AMP ++ r).
Proof.
  intros Hr. destruct k as [|k]; [|by right]. cbn. destruct Hr as [Hr|[ts ->]]; [by apply after_line_pipe|by right].
Qed.

Lemma tp_complete ts a : g_line ts a → ∀ n r,
  after_line r → (4 * length ts + 4 ≤ n)%nat → tp_line n (ts ++ r) = TOk a r.
Proof.
  revert ts a. apply (g_line_mut
    (λ ts a _, ∀ n r, after_exec r → (4 * length ts + 2 ≤ n)%nat → tp_exec n (ts ++ r) = TOk a r)
    (λ ts a _, ∀ n r, after_pipe r → (4 * length ts + 3 ≤ n)%nat → tp_pipe n (ts ++ r) = TOk a r)
    (λ ts a _, ∀ n r, after_line r → (4 * length ts + 4 ≤ n)%nat → tp_line n (ts ++ r) = TOk a r)).
  - intros ts ws xs Hg Hw [|n] r Hr Hn; [lia|]. cbn [tp_exec]. rewrite (simple_no_block ts ws xs) by done.
    by rewrite (tp_simple_complete ts ws xs).
  - intros ts c ts' xs Hg IH Hrd [|[|n]] r Hr Hn; [lia..|]. cbn [tp_exec tp_block app].
    change (peeks (chars "(") (LP :: _)) with true. cbn [negb tail].
    rewrite <-app_assoc. cbn in Hn. rewrite !length_app in Hn. cbn in Hn. cbn [app].
    rewrite IH; [|by right|lia]. cbn [tbind]. change (peeks (chars ")") (RP :: _)) with true. cbn [negb tail].
    rewrite (tp_redirs_complete ts' xs r) by (done || by apply after_exec_redir). done.
  - intros ts c Hg IH [|n] r Hr Hn; [lia|]. cbn [tp_pipe]. rewrite IH by (lia || by apply after_pipe_exec). cbn [tbind].
    assert (Hp : peeks (chars "|") r = false).
    { destruct Hr as [->|Hr]; [done|]. eapply peeks_excl; [..|exact Hr]; [by repeat constructor..|].
      change (chars ")&;") with [41; 38; 59]. change (chars "|") with [124]. set_solver. }
    by rewrite Hp.
  - intros ts c ts' c' Hg IH Hg' IH' [|n] r Hr Hn; [lia|]. rewrite length_app in Hn. cbn in Hn. cbn [tp_pipe].
    rewrite <-app_assoc. cbn [app]. rewrite IH by (lia || by right). cbn [tbind].
    change (peeks (chars "|") (BAR :: _)) with true. cbn [tail]. by rewrite IH' by (done || lia).
  - intros ts c k Hg IH [|n] r Hr Hn; [lia|]. rewrite length_app in Hn. cbn [tp_line]. rewrite <-app_assoc.
    rewrite IH; [|apply after_amps; by left|lia]. cbn [tbind].
    destruct (after_line_peeks r Hr) as (H1 & H2 & _). destruct (amps_app k r H2) as [-> ->]. by rewrite H1.
  - intros ts c k ts' c' Hg IH Hg' IH' [|n] r Hr Hn; [lia|]. rewrite !length_app in Hn. cbn in Hn. cbn [tp_line].
    rewrite <-!app_assoc. cbn [app]. rewrite IH; [|apply after_amps; eauto|lia]. cbn [tbind].
    destruct (amps_app k (SEMI :: ts' ++ r)) as [-> ->]; [done|].
    change (peeks (chars ";") (SEMI :: _)) with true. cbn [tail]. by rewrite IH' by (done || lia).
Qed.

(** So whole lines are parsed as the grammar says. *)
Lemma tp_line_spec ts n :
  (4 * length ts + 4 ≤ n)%nat →
  match tp_line n ts with
  | TOk a [] => g_line ts a ∧ ∀ a', g_line ts a' → a' = a
  | TOk _ _ => ∀ a', ¬ g_line ts a'
  | TFail => ∀ a', ¬ g_line ts a'
  | TOut => False
  end.
Proof.
  intros Hn. assert (Hc : ∀ a, g_line ts a → tp_line n ts = TOk a []).
  { intros a Hg. rewrite <-(app_nil_r ts) at 1. apply tp_complete; [done|by left|done]. }
  destruct (tp_line n ts) as [a [|t r]| |] eqn:Hr.
  - apply tp_sound in Hr as (ts1 & -> & Hg). rewrite app_nil_r in *. split; [done|].
    intros a' Ha'. apply Hc in Ha'. congruence.
  - intros a' Ha'. apply Hc in Ha'. congruence.
  - intros a' Ha'. apply Hc in Ha'. congruence.
  - by apply tp_total in Hr.
Qed.

(** ** Terminating the strings *)

(** The command in memory, as [runcmd] reads it. *)
Fixpoint read (b : list Z) (c : cmd) : ast :=
  match c with
  | EXEC argv => AExec ((λ p, str b p.1) <$> argv)
  | REDIR c q _ m fd => ARedir (read b c) (str b q) m fd
  | PIPE l r => APipe (read b l) (read b r)
  | LIST l r => AList (read b l) (read b r)
  | BACK c => ABack (read b c)
  end.

(** Where [nulterminate] writes. *)
Fixpoint ends (c : cmd) : list nat :=
  match c with
  | EXEC argv => argv.*2
  | REDIR c _ e _ _ => ends c ++ [e]
  | PIPE l r | LIST l r => ends l ++ ends r
  | BACK c => ends c
  end.
Definition nulled (es : list nat) (b : list Z) : list Z := foldl (λ b e, <[e := 0]> b) b es.

Lemma length_nulled es : ∀ b, length (nulled es b) = length b.
Proof.
  induction es as [|e es IH]; intros b; [done|]. change (nulled (e :: es) b) with (nulled es (<[e := 0]> b)).
  by rewrite IH, length_insert.
Qed.
Lemma nulled_app es es' b : nulled (es ++ es') b = nulled es' (nulled es b).
Proof. apply foldl_app. Qed.
Lemma lookup_nulled es : ∀ b i,
  (i < length b)%nat → nulled es b !! i = if decide (i ∈ es) then Some 0 else b !! i.
Proof.
  induction es as [|e es IH]; intros b i Hi; cbn [nulled foldl]; [by rewrite decide_False by set_solver|].
  fold (nulled es (<[e := 0]> b)). rewrite IH by (by rewrite length_insert).
  destruct (decide (i ∈ es)); [by rewrite decide_True by set_solver|]. destruct (decide (i = e)) as [->|].
  - rewrite decide_True by set_solver. by apply list_lookup_insert_eq.
  - rewrite decide_False by set_solver. by apply list_lookup_insert_ne.
Qed.

Lemma put_nul_run e b : (e < length b)%nat → put_nul e b = Ok tt (<[e := 0]> b).
Proof. intros He. unfold put_nul, mbind, M_bind, get. by destruct (lookup_lt_is_Some_2 _ _ He) as [x ->]. Qed.

Lemma nulterminate_run c : ∀ b,
  (∀ e, e ∈ ends c → (e < length b)%nat) → nulterminate c b = Ok tt (nulled (ends c) b).
Proof.
  induction c as [argv|c IH q e m fd|l IHl r IHr|l IHl r IHr|c IH]; intros b Hb; cbn [nulterminate ends].
  - revert b Hb. induction argv as [|[q e] argv IH]; intros b Hb; [done|]. cbn [put_nuls]. unfold mbind, M_bind.
    rewrite put_nul_run by (apply Hb; cbn; set_solver). rewrite IH; [done|].
    intros x Hx. rewrite length_insert. apply Hb. cbn. set_solver.
  - unfold mbind, M_bind. cbn in Hb. rewrite IH by (intros x Hx; apply Hb; set_solver).
    rewrite put_nul_run by (rewrite length_nulled; apply Hb; set_solver). by rewrite nulled_app.
  - unfold mbind, M_bind. cbn in Hb. rewrite IHl by (intros x Hx; apply Hb; set_solver).
    rewrite IHr by (intros x Hx; rewrite length_nulled; apply Hb; set_solver). by rewrite nulled_app.
  - unfold mbind, M_bind. cbn in Hb. rewrite IHl by (intros x Hx; apply Hb; set_solver).
    rewrite IHr by (intros x Hx; rewrite length_nulled; apply Hb; set_solver). by rewrite nulled_app.
  - by apply IH.
Qed.

Section terminate.
Context (buf : list Z) (es : nat).
Context (Hes : buf !! es = Some 0) (Htext : ∀ i c, (i < es)%nat → buf !! i = Some c → c ≠ 0).

(** A place where a word may end. *)
Definition delim (e : nat) : Prop := (e ≤ es)%nat ∧ ∀ c, text buf es e !! 0%nat = Some c → word_char c = false.

Lemma word_read q e w L :
  word_at buf es q e w → e ∈ L → (∀ x, x ∈ L → delim x) → str (nulled L buf) q = w.
Proof.
  intros [Hle Ht Hw _] He HL. pose proof (es_lt buf es Hes) as Hlt. set (b := nulled L buf).
  assert (Hlb : length b = length buf) by apply length_nulled.
  assert (Hlw : length w = (e - q)%nat).
  { rewrite <-Ht, length_take, length_text by done. lia. }
  assert (Hat : ∀ j c, w !! j = Some c → buf !! (q + j)%nat = Some c).
  { intros j c Hj. rewrite <-Ht in Hj. apply lookup_take_Some in Hj as [Hj _]. unfold text in Hj.
    rewrite lookup_drop in Hj. by apply lookup_take_Some in Hj as [Hj _]. }
  assert (Hb : drop q b = w ++ 0 :: drop (S e) b).
  { rewrite <-(take_drop (e - q) (drop q b)), drop_drop. replace (q + (e - q))%nat with e by lia. f_equal.
    - apply list_eq_same_length with (n := (e - q)%nat); [done|rewrite length_take, length_drop; lia|].
      intros j x y Hj Hx Hy. rewrite lookup_take_lt, lookup_drop in Hx by lia. unfold b in Hx.
      pose proof (Hat _ _ Hy) as Hq. rewrite lookup_nulled in Hx by (by eapply lookup_lt_Some).
      rewrite decide_False in Hx; [congruence|]. intros Hin. destruct (HL _ Hin) as [_ Hd].
      assert (word_char y = false); [|by rewrite (Forall_lookup_1 _ _ _ _ Hw Hy) in *].
      apply Hd. unfold text. rewrite lookup_drop, Nat.add_0_r, lookup_take_lt by lia. done.
    - apply drop_S. unfold b. rewrite lookup_nulled by lia. by rewrite decide_True. }
  unfold str. rewrite Hb. apply cstr_app_nul. apply Forall_lookup. intros j c Hj.
  eapply (Htext (q + j)); [apply lookup_lt_Some in Hj; lia|by apply Hat].
Qed.

Lemma means_ends c : ∀ a, means buf es c a → ∀ e, e ∈ ends c → delim e.
Proof.
  induction c as [argv|c IH q e m fd|l IHl r IHr|l IHl r IHr|c IH]; intros [ws|a' w' m' fd'|l' r'|l' r'|a'] Hm; try done; cbn in Hm; cbn [ends].
  - intros x (p & -> & Hp)%list_elem_of_fmap. apply list_elem_of_lookup in Hp as [i Hi].
    destruct (Forall2_lookup_l _ _ _ _ _ Hm Hi) as (w & _ & [? _ _ ?]). split; [lia|done].
  - destruct Hm as (Hm & [? _ _ ?] & _). intros x [Hx|Hx]%elem_of_app; [by eapply IH|].
    apply list_elem_of_singleton in Hx as ->. split; [lia|done].
  - destruct Hm. intros x [Hx|Hx]%elem_of_app; eauto.
  - destruct Hm. intros x [Hx|Hx]%elem_of_app; eauto.
  - eauto.
Qed.

Lemma means_read L c : ∀ a,
  means buf es c a → (∀ e, e ∈ ends c → e ∈ L) → (∀ x, x ∈ L → delim x) → read (nulled L buf) c = a.
Proof.
  induction c as [argv|c IH q e m fd|l IHl r IHr|l IHl r IHr|c IH]; intros [ws|a' w' m' fd'|l' r'|l' r'|a'] Hm He HL; try done;
    cbn in Hm; cbn [ends] in He; cbn [read].
  - f_equal. induction Hm as [|[q e] w argv ws Hw Hm IH]; [done|]. cbn [fmap list_fmap] in *. f_equal.
    + eapply word_read; [exact Hw|apply He; set_solver|done].
    + apply IH. intros x Hx. apply He. set_solver.
  - destruct Hm as (Hm & Hw & -> & ->). f_equal; [apply IH; [done|set_solver|done]|].
    eapply word_read; [done|set_solver|done].
  - destruct Hm. f_equal; [apply IHl|apply IHr]; (done || set_solver).
  - destruct Hm. f_equal; [apply IHl|apply IHr]; (done || set_solver).
  - f_equal. by apply IH.
Qed.
End terminate.

(** ** The whole parser *)

Lemma lex_length n : ∀ s, (length (lex n s) ≤ length s)%nat.
Proof.
  induction n as [|n IH]; intros s; cbn [lex]; [cbn; lia|].
  pose proof (drop_while_length (has whitespace) s) as Hl.
  destruct (drop_while (has whitespace) s) as [|c r] eqn:Hd; [cbn; lia|]. cbn [length] in Hl. case_bool_decide.
  - destruct r as [|c' r']; [cbn in *; lia|]. cbn [length] in Hl.
    case_bool_decide; cbn [length]; [pose proof (IH r')|pose proof (IH (c' :: r')); cbn [length] in *]; lia.
  - destruct (has symbols c) eqn:Hs; cbn [length]; [pose proof (IH r); lia|]. cbn [drop_while].
    rewrite (word_start c (drop_while_head _ _ _ _ Hd) Hs). pose proof (IH (drop_while word_char r)).
    pose proof (drop_while_length word_char r). lia.
Qed.

Lemma cstr_split l : 0 ∈ l →
  take (length (cstr l)) l = cstr l ∧ l !! length (cstr l) = Some 0 ∧
  ∀ i c, (i < length (cstr l))%nat → l !! i = Some c → c ≠ 0.
Proof.
  induction l as [|x l IH]; [by intros ?%elem_of_nil|]. intros Hin. cbn [cstr]. case_bool_decide as Hx.
  - subst. split; [done|]. split; [done|]. cbn. lia.
  - destruct IH as (H1 & H2 & H3); [set_solver|]. cbn. rewrite H1. split; [done|]. split; [done|].
    intros [|i] c Hi Hc; cbn in Hc; [by simplify_eq|]. eapply H3; [|done]. lia.
Qed.

(** Nothing is left after the blanks that [parsecmd] skips at the end. *)
Lemma last_peek buf es s :
  buf !! es = Some 0 → (∀ i c, (i < es)%nat → buf !! i = Some c → c ≠ 0) → (s ≤ es)%nat →
  ∃ s', peek buf es [] s = Ok false s' ∧ (s' = es ↔ toks buf es s = []).
Proof.
  intros Hes Htext Hs. unfold peek, mbind, M_bind, get.
  destruct (skip_run buf es Hes Htext (has whitespace) s s Hs) as (s' & -> & Hle & Ht & _). exists s'. unfold put.
  destruct (at_run buf es Hes Htext s' s') as [-> He]; [lia|]. unfold mret, M_ret. rewrite andb_false_r. split; [done|].
  unfold toks. rewrite tokens_eq, <-Ht. split.
  - intros ->. by rewrite text_end.
  - intros Hn. destruct (decide (s' = es)); [done|]. destruct (text_cons buf es Hes Htext s' ltac:(lia)) as (c & _ & _ & Hc).
    rewrite Hc in Hn. case_bool_decide; [destruct (text buf es (S s')); [done|]; by case_bool_decide|].
    by destruct (has symbols c).
Qed.

Lemma parsecmd_run buf :
  0 ∈ buf →
  match parsecmd buf with
  | Ok c buf' => g_line (tokens (cstr buf)) (read buf' c) ∧
                 ∀ a, g_line (tokens (cstr buf)) a → a = read buf' c
  | Panic _ => ∀ a, ¬ g_line (tokens (cstr buf)) a
  | _ => False
  end.
Proof.
  intros H0. destruct (cstr_split buf H0) as (Htk & Hes & Htext). set (es := length (cstr buf)) in *.
  assert (Htoks : toks buf es 0 = tokens (cstr buf)) by (unfold toks, text; by rewrite drop_0, Htk).
  unfold parsecmd, mbind, M_bind, get, of_option. rewrite strlen_cstr by done. fold es. unfold mret at 1, M_ret at 1.
  rewrite Nat2Z.id. unfold zoom.
  pose proof (parse_agrees buf es Hes Htext (parse_fuel es) 0 ltac:(lia)) as Hp.
  pose proof (tp_line_spec (toks buf es 0) (parse_fuel es)) as Hg. rewrite Htoks in Hp, Hg.
  assert (Hl : (length (tokens (cstr buf)) ≤ es)%nat) by apply lex_length.
  specialize (Hg ltac:(unfold parse_fuel; lia)).
  destruct (parseline buf es (parse_fuel es) 0%nat) as [c s|msg|x| |], (tp_line (parse_fuel es) (tokens (cstr buf))) as [a r| |]; try done.
  destruct Hp as (Hs & Ht & Hm). destruct (last_peek buf es s Hes Htext ltac:(lia)) as (s' & -> & Hs'). rewrite Ht in Hs'.
  unfold mret, M_ret. cbn [fst snd]. case_bool_decide as Hend.
  { destruct r; [|exact Hg]. destruct Hend. by apply Hs'. }
  apply Hs' in Hend as ->. destruct Hg as [Hg Hu].
  rewrite nulterminate_run.
  - rewrite (means_read buf es Hes Htext (ends c) c a); [done..|]. by eapply means_ends.
  - intros e He. destruct (means_ends buf es c a Hm e He). pose proof (es_lt buf es Hes). lia.
Qed.

(** C10: the shell's parser and its grammar agree.  For every line, [parsecmd]
    ends: it returns a command exactly when the tokens of the line can be derived
    from the grammar, and panics otherwise.  The command it returns, read as
    [runcmd] reads it - C strings in the line after [nulterminate] put NULs into
    it - is the one the grammar gives, which is unique: no NUL cuts a word off
    short or lets it run on. *)
Theorem parsecmd_grammar buf :
  0 ∈ buf →
  match parsecmd buf with
  | Ok c buf' => g_line (tokens (cstr buf)) (read buf' c) ∧
                 ∀ a, g_line (tokens (cstr buf)) a → a = read buf' c
  | Panic _ => ∀ a, ¬ g_line (tokens (cstr buf)) a
  | _ => False
  end.
Proof. apply parsecmd_run. Qed.

(** A block with a redirection, a list and a background command. *)
Definition sample : list Z := chars "(ls | wc -l) >> out ; cat < in &" ++ [0].
Definition sample_ast : ast :=
  AList
    (ARedir (APipe (AExec [chars "ls"]) (AExec [chars "wc"; chars "-l"])) (chars "out") (Z.lor O_WRONLY O_CREATE) 1)
    (ABack (ARedir (AExec [chars "cat"]) (chars "in") O_RDONLY 0)).

Lemma sample_nul : 0 ∈ sample.
Proof. apply elem_of_app. right. left. Qed.

Lemma parsecmd_grammar_witness :
  g_line (tokens (cstr sample)) sample_ast ∧ ∀ a, g_line (tokens (cstr sample)) a → a = sample_ast.
Proof.
  pose proof (parsecmd_grammar sample sample_nul) as H.
  assert (E : match parsecmd sample with Ok c b => read b c = sample_ast | _ => False end) by (vm_compute; reflexivity).
  destruct (parsecmd sample) as [c b|msg|x| |]; [|destruct E..]. rewrite E in H. exact H.
Defined.

End ShParse.
