(* ===== verification/ShRun.v ===== *)
(** What the shell starts: every program of a command line, with its standard
    input and output where the line puts them and no other descriptor. *)

From S2P Require Import Prelude CString Sh ShSpec ShParse.
Import Str.

Local Open Scope Z_scope.

Module ShRun.

Import Sh ShSpec ShParse.

(** ** Descriptor tables *)




Section kernel.
(** Which files can be opened, in which mode, and which directories can be
    changed to after others were. *)
Variable openable : list Z → Z → bool.
Variable dirs : list (list Z) → list Z → bool.



(** ** The meaning of a command line *)






(** ** A line *)


(** ** Input *)



(** ** A script *)





End kernel.


End ShRun.
