(* ===== verification/Sleeplock.v ===== *)
(** Sleep locks: [kernel/sleeplock.c], as one process sees them.

    The inner spin lock makes each routine atomic, so each is one function on
    the [struct sleeplock]; [acquiresleep] on a lock that is taken blocks. *)

From S2P Require Import Prelude.

Local Open Scope Z_scope.

Record sleeplock := MkSleeplock { sl_locked : bool; sl_pid : Z }.

#[export] Instance sleeplock_eq_dec : EqDecision sleeplock.
Proof. solve_decision. Defined.

Definition initsleeplock : sleeplock := MkSleeplock false 0.
Definition acquiresleep (pid : Z) : M sleeplock unit :=
  lk ← get;
  if sl_locked lk then block else put (MkSleeplock true pid).
Definition releasesleep : M sleeplock unit := put (MkSleeplock false 0).
Definition holdingsleep (pid : Z) (lk : sleeplock) : bool :=
  sl_locked lk && bool_decide (sl_pid lk = pid).
