(* ===== verification/Spinlock.v ===== *)
(** Spin locks and interrupt nesting: [kernel/spinlock.c].

    The routines are functions on the CPUs' [struct cpu] fields, their
    interrupt-enable bits and the locks.  Because CPUs run them concurrently,
    [acquire] and [release] are also split at the accesses to the shared lock,
    as a step relation. *)

From stdpp Require Import relations functions.
From S2P Require Import Prelude.

Local Open Scope Z_scope.

Module Spinlock.

(** [struct cpu]'s [noff] and [intena], and [sstatus.SIE]. *)
Record cpu := MkCpu { noff : Z; intena : bool; intr : bool }.
(** [struct spinlock]; [lk_cpu] is [None] for a null pointer. *)
Record spinlock := MkSpin { locked : bool; lk_cpu : option nat }.

Record spin := MkSt { cpus : nat → cpu; locks : nat → spinlock }.

Definition upd_cpu (c : nat) (f : cpu → cpu) : M spin unit :=
  modify (λ s, MkSt (<[c := f (cpus s c)]> (cpus s)) (locks s)).
Definition upd_lock (lk : nat) (f : spinlock → spinlock) : M spin unit :=
  modify (λ s, MkSt (cpus s) (<[lk := f (locks s lk)]> (locks s))).

Definition initlock (lk : nat) : M spin unit := upd_lock lk (λ _, MkSpin false None).

Definition push_off (c : nat) : M spin unit :=
  old ← gets (λ s, intr (cpus s c));
  upd_cpu c (λ x, MkCpu (noff x) (intena x) false);;
  x ← gets (λ s, cpus s c);
  when (bool_decide (noff x = 0)) (upd_cpu c (λ x, MkCpu (noff x) old (intr x)));;
  upd_cpu c (λ x, MkCpu (noff x + 1) (intena x) (intr x)).

Definition pop_off (c : nat) : M spin unit :=
  x ← gets (λ s, cpus s c);
  if intr x then panic "pop_off - interruptible" else
  if bool_decide (noff x < 1) then panic "pop_off" else
  upd_cpu c (λ x, MkCpu (noff x - 1) (intena x) (intr x));;
  x ← gets (λ s, cpus s c);
  when (bool_decide (noff x = 0) && intena x) (upd_cpu c (λ x, MkCpu (noff x) (intena x) true)).

Definition holding (c lk : nat) : M spin bool :=
  l ← gets (λ s, locks s lk);
  mret (locked l && bool_decide (lk_cpu l = Some c))%bool.

(** [__sync_lock_test_and_set(&lk->locked, 1)]: the old value. *)
Definition test_and_set (lk : nat) : M spin bool :=
  l ← gets (λ s, locks s lk); upd_lock lk (λ l, MkSpin true (lk_cpu l));; mret (locked l).

(** ** The pieces of [acquire] and [release] between shared accesses *)
Definition acquire_enter (c lk : nat) : M spin unit :=
  push_off c;;
  h ← holding c lk;
  when h (panic "acquire").
Definition acquire_own (c lk : nat) : M spin unit := upd_lock lk (λ l, MkSpin (locked l) (Some c)).
Definition release_disown (c lk : nat) : M spin unit :=
  h ← holding c lk;
  if negb h then panic "release" else upd_lock lk (λ l, MkSpin (locked l) None).
Definition release_unlock (lk : nat) : M spin unit := upd_lock lk (λ l, MkSpin false (lk_cpu l)).

(** The whole routines, on a CPU that runs alone; a lock that is taken is
    waited for. *)
Definition acquire (c lk : nat) : M spin unit :=
  acquire_enter c lk;;
  old ← test_and_set lk;
  if (old : bool) then block else acquire_own c lk.
Definition release (c lk : nat) : M spin unit :=
  release_disown c lk;;
  release_unlock lk;;
  pop_off c.

(** * Concurrent CPUs *)

(** Where a CPU is: outside these routines, spinning in [acquire], about to
    record itself as the owner, or in [release] about to free the lock or to
    call [pop_off]. *)
Inductive pc := Run | Spin (lk : nat) | Own (lk : nat) | Unlock (lk : nat) | Pop.

(** [held c]: the locks whose [acquire] by [c] has returned and whose [release]
    has not been called; [want c]: whether [c] last turned interrupts on or off
    while it held no lock. *)
Record sys := MkSys {
  st : spin;
  pcs : nat → pc;
  held : nat → list nat;
  want : nat → bool;
}.

Inductive event (s : sys) : outcome spin unit → sys → Prop :=
  | e_enter c lk o st' :
      pcs s c = Run → lk ∉ held s c → acquire_enter c lk (st s) = o →
      match o with Ok _ x => st' = x | _ => st' = st s end →
      event s o (MkSys st' (<[c := Spin lk]> (pcs s)) (held s) (want s))
  | e_swap c lk old st' :
      pcs s c = Spin lk → test_and_set lk (st s) = Ok old st' →
      event s (Ok tt st') (MkSys st' (<[c := if old then Spin lk else Own lk]> (pcs s)) (held s) (want s))
  | e_own c lk st' :
      pcs s c = Own lk → acquire_own c lk (st s) = Ok tt st' →
      event s (Ok tt st') (MkSys st' (<[c := Run]> (pcs s)) (<[c := lk :: held s c]> (held s)) (want s))
  | e_disown c lk o st' :
      pcs s c = Run → lk ∈ held s c → release_disown c lk (st s) = o →
      match o with Ok _ x => st' = x | _ => st' = st s end →
      event s o (MkSys st' (<[c := Unlock lk]> (pcs s))
                   (<[c := filter (λ k, k ≠ lk) (held s c)]> (held s)) (want s))
  | e_unlock c lk st' :
      pcs s c = Unlock lk → release_unlock lk (st s) = Ok tt st' →
      event s (Ok tt st') (MkSys st' (<[c := Pop]> (pcs s)) (held s) (want s))
  | e_pop c o st' :
      pcs s c = Pop → pop_off c (st s) = o →
      match o with Ok _ x => st' = x | _ => st' = st s end →
      event s o (MkSys st' (<[c := Run]> (pcs s)) (held s) (want s))
  | e_intr c b st' :
      pcs s c = Run → held s c = [] →
      upd_cpu c (λ x, MkCpu (noff x) (intena x) b) (st s) = Ok tt st' →
      event s (Ok tt st') (MkSys st' (pcs s) (held s) (<[c := b]> (want s))).

(** Events that went through; [event s o s'] with [o] a panic is a crash. *)
Definition sstep (s s' : sys) : Prop := ∃ x, event s (Ok tt x) s'.

(** At boot: every lock initialised, no CPU holds one. *)
Definition spin_boot (ie : nat → bool) : sys :=
  MkSys (MkSt (λ c, MkCpu 0 false (ie c)) (λ _, MkSpin false None)) (λ _, Run) (λ _, []) ie.

(** ** Invariant *)

(** CPU [c] is between the successful swap and the freeing of [lk]. *)
Definition uses (s : sys) (c lk : nat) : Prop :=
  pcs s c = Own lk ∨ lk ∈ held s c ∨ pcs s c = Unlock lk.
Definition busy (p : pc) : Z := match p with Run => 0 | _ => 1 end.

Record spin_inv (s : sys) : Prop := {
  si_excl c1 c2 lk : uses s c1 lk → uses s c2 lk → c1 = c2;
  si_locked lk : locked (locks (st s) lk) = true → ∃ c, uses s c lk;
  si_used c lk : uses s c lk → locked (locks (st s) lk) = true;
  si_owner c lk : lk_cpu (locks (st s) lk) = Some c ↔ lk ∈ held s c;
  si_nodup c : NoDup (held s c);
  si_apart c lk : (pcs s c = Own lk ∨ pcs s c = Spin lk ∨ pcs s c = Unlock lk) → lk ∉ held s c;
  si_noff c : noff (cpus (st s) c) = Z.of_nat (length (held s c)) + busy (pcs s c);
  si_intr c : 0 < noff (cpus (st s) c) → intr (cpus (st s) c) = false ∧ intena (cpus (st s) c) = want s c;
  si_idle c : noff (cpus (st s) c) = 0 → intr (cpus (st s) c) = want s c;
}.

(** What the pieces compute. *)
Definition set_cpu (c : nat) (x : cpu) (s s' : spin) : Prop :=
  cpus s' c = x ∧ (∀ d, d ≠ c → cpus s' d = cpus s d) ∧ locks s' = locks s.

Lemma push_off_spec c s :
  wp (push_off c) (λ _, set_cpu c (MkCpu (noff (cpus s c) + 1)
    (if bool_decide (noff (cpus s c) = 0) then intr (cpus s c) else intena (cpus s c)) false) s) s.
Proof.
  unfold push_off, upd_cpu. wp_pures. cbn. rewrite fn_lookup_insert. cbn.
  case_bool_decide; unfold when; wp_pures; cbn; (split; [|split; [|done]]); cbn;
    rewrite ?fn_lookup_insert; try done; intros d Hd; by rewrite !fn_lookup_insert_ne.
Qed.

Lemma pop_off_spec c s :
  intr (cpus s c) = false → 1 ≤ noff (cpus s c) →
  wp (pop_off c) (λ _, set_cpu c (let x := cpus s c in
    MkCpu (noff x - 1) (intena x) (bool_decide (noff x = 1) && intena x)) s) s.
Proof.
  intros Hi Hn. unfold pop_off, upd_cpu. wp_pures. rewrite Hi, bool_decide_false by lia. wp_pures. cbn.
  rewrite fn_lookup_insert. cbn. rewrite (bool_decide_ext (noff (cpus s c) - 1 = 0) (noff (cpus s c) = 1)) by lia.
  case_bool_decide; cbn; [destruct (intena (cpus s c)) eqn:He|]; unfold when; wp_pures; cbn;
    (split; [|split; [|done]]); cbn; rewrite ?fn_lookup_insert; cbn; rewrite ?Hi, ?He; try done;
    intros d Hd; by rewrite !fn_lookup_insert_ne.
Qed.

(** [f'] is [f] with the value [x] at [c]. *)
Definition at_only {A} (c : nat) (x : A) (f f' : nat → A) : Prop := f' c = x ∧ ∀ d, d ≠ c → f' d = f d.
Lemma at_only_insert {A} c (x : A) (f : nat → A) : at_only c x f (<[c := x]> f).
Proof. split; [apply fn_lookup_insert|]. intros. by apply fn_lookup_insert_ne. Qed.
Lemma at_only_same {A} c (f : nat → A) : at_only c (f c) f f.
Proof. done. Qed.

(** Steps of CPU [c] that change neither a lock nor who uses which lock. *)
Lemma inv_local s c p x w st' pcs' want' :
  spin_inv s → at_only c p (pcs s) pcs' → at_only c w (want s) want' → set_cpu c x (st s) st' →
  (∀ lk, p = Own lk ∨ p = Unlock lk → False) → (∀ lk, pcs s c = Own lk ∨ pcs s c = Unlock lk → False) →
  (∀ lk, p = Spin lk → lk ∉ held s c) →
  noff x = Z.of_nat (length (held s c)) + busy p →
  (0 < noff x → intr x = false ∧ intena x = w) → (noff x = 0 → intr x = w) →
  spin_inv (MkSys st' pcs' (held s) want').
Proof.
  intros [He Hl Hu Ho Hnd Hap Hn Hi Hid] [Hpc Hpd] [Hwc Hwd] (Hx & Hother & Hlk) Hp Hp0 Hsp Hnx Hix Hidx.
  assert (Huses : ∀ d lk, uses (MkSys st' pcs' (held s) want') d lk ↔ uses s d lk).
  { intros d lk. unfold uses. cbn. destruct (decide (d = c)) as [->|Hd].
    - rewrite Hpc. specialize (Hp lk). specialize (Hp0 lk). tauto.
    - by rewrite Hpd. }
  split; cbn.
  - intros c1 c2 lk. rewrite !Huses. apply He.
  - intros lk. rewrite Hlk. intros [d Hd]%Hl. exists d. by apply Huses.
  - intros d lk. rewrite Huses, Hlk. apply Hu.
  - intros d lk. rewrite Hlk. apply Ho.
  - done.
  - intros d lk. destruct (decide (d = c)) as [->|Hd].
    + rewrite Hpc. specialize (Hp lk). specialize (Hsp lk). tauto.
    + rewrite Hpd by done. apply Hap.
  - intros d. destruct (decide (d = c)) as [->|Hd]; [by rewrite Hpc, Hx|rewrite Hpd, Hother by done; apply Hn].
  - intros d. destruct (decide (d = c)) as [->|Hd]; [by rewrite Hwc, Hx|rewrite Hwd, Hother by done; apply Hi].
  - intros d. destruct (decide (d = c)) as [->|Hd]; [by rewrite Hwc, Hx|rewrite Hwd, Hother by done; apply Hid].
Qed.

Definition set_lk (lk : nat) (l : spinlock) (s s' : spin) : Prop :=
  at_only lk l (locks s) (locks s') ∧ cpus s' = cpus s.

(** Steps of CPU [c] on lock [lk]. *)
Lemma inv_lock s c lk p h l st' pcs' held' :
  spin_inv s → at_only c p (pcs s) pcs' → at_only c h (held s) held' → set_lk lk l (st s) st' → NoDup h →
  (∀ k, k ≠ lk → (p = Own k ∨ k ∈ h ∨ p = Unlock k) ↔ uses s c k) →
  (∀ k, k ≠ lk → k ∈ h ↔ k ∈ held s c) →
  (∀ k, p = Own k ∨ p = Spin k ∨ p = Unlock k → k ∉ h) →
  Z.of_nat (length h) + busy p = Z.of_nat (length (held s c)) + busy (pcs s c) →
  (∀ d, d ≠ c → uses s d lk → False) →
  (locked l = true ↔ p = Own lk ∨ lk ∈ h ∨ p = Unlock lk) →
  (∀ d, lk_cpu l = Some d ↔ d = c ∧ lk ∈ h) →
  spin_inv (MkSys st' pcs' held' (want s)).
Proof.
  intros [He Hl Hu Ho Hnd Hap Hn Hi Hid] [Hpc Hpd] [Hhc Hhd] ((Hx & Hother) & Hcpu) Hndh Hk Hkh Hsep Hlen Hno Hlkd Hown.
  assert (Huses : ∀ d k, uses (MkSys st' pcs' held' (want s)) d k ↔
    if decide (d = c) then p = Own k ∨ k ∈ h ∨ p = Unlock k else uses s d k).
  { intros d k. unfold uses. cbn. case_decide as Hd; [by rewrite Hd, Hpc, Hhc|by rewrite Hpd, Hhd]. }
  split; cbn.
  - intros c1 c2 k. rewrite !Huses. destruct (decide (k = lk)) as [->|Hne].
    + repeat case_decide; subst; try done; intros H1 H2; exfalso; eauto.
    + repeat case_decide; subst; rewrite ?Hk by done; eauto.
  - intros k Hlocked. destruct (decide (k = lk)) as [->|Hne].
    + rewrite Hx in Hlocked. exists c. rewrite Huses, decide_True by done. by apply Hlkd.
    + rewrite Hother in Hlocked by done. destruct (Hl k Hlocked) as [d Hd]. exists d. rewrite Huses.
      case_decide; subst; [by apply Hk|done].
  - intros d k. rewrite Huses. destruct (decide (k = lk)) as [->|Hne].
    + rewrite Hx. case_decide; [by apply Hlkd|]. intros Hd. exfalso. eauto.
    + rewrite Hother by done. case_decide; [|apply Hu]. rewrite Hk by done. apply Hu.
  - intros d k. destruct (decide (k = lk)) as [->|Hne]; destruct (decide (d = c)) as [->|Hd].
    + rewrite Hx, Hown, Hhc. tauto.
    + rewrite Hx, Hown, Hhd by done. split; [tauto|]. intros Hin. exfalso. apply (Hno d Hd). by right; left.
    + rewrite Hother, Ho, Hhc by done. symmetry. by apply Hkh.
    + by rewrite Hother, Ho, Hhd.
  - intros d. destruct (decide (d = c)) as [->|Hd]; [by rewrite Hhc|by rewrite Hhd].
  - intros d k. destruct (decide (d = c)) as [->|Hd]; [rewrite Hpc, Hhc|rewrite Hpd, Hhd by done]; auto.
  - intros d. rewrite Hcpu, Hn. destruct (decide (d = c)) as [->|Hd]; [by rewrite Hpc, Hhc|by rewrite Hpd, Hhd].
  - intros d. rewrite Hcpu. apply Hi.
  - intros d. rewrite Hcpu. apply Hid.
Qed.

Lemma set_lk_insert lk l s : set_lk lk l s (MkSt (cpus s) (<[lk := l]> (locks s))).
Proof. split; [apply at_only_insert|done]. Qed.

Lemma holding_run c lk s : holding c lk s = Ok (locked (locks s lk) && bool_decide (lk_cpu (locks s lk) = Some c))%bool s.
Proof. done. Qed.

Lemma busy_pc p : busy p = match p with Run => 0 | _ => 1 end.
Proof. done. Qed.

Lemma enter_step s c lk o st' :
  spin_inv s → pcs s c = Run → lk ∉ held s c → acquire_enter c lk (st s) = o →
  match o with Ok _ x => st' = x | _ => st' = st s end →
  o = Ok tt st' ∧ spin_inv (MkSys st' (<[c := Spin lk]> (pcs s)) (held s) (want s)).
Proof.
  intros HI Hpc Hlk Hrun Ho. pose proof HI as [He Hl Hu Hown Hnd Hap Hn Hi Hid].
  destruct (proj1 (wp_ok _ _ _) (push_off_spec c (st s))) as ([] & s1 & Hpush & Hset).
  pose proof Hset as (_ & _ & Hlocks).
  assert (Hc : acquire_enter c lk (st s) = Ok tt s1).
  { unfold acquire_enter. run. erewrite bind_ok by apply holding_run. cbv beta. rewrite Hlocks.
    rewrite (bool_decide_false (_ = Some c)) by (by rewrite Hown). by rewrite andb_false_r. }
  rewrite Hc in Hrun. subst o. cbn in Ho. subst st'. split; [done|].
  eapply (inv_local s c (Spin lk) _ (want s c)); [done|apply at_only_insert|apply at_only_same|exact Hset|..].
  - by intros k [?|?].
  - rewrite Hpc. by intros k [?|?].
  - by intros k [= <-].
  - cbn. rewrite Hn, Hpc. cbn. lia.
  - cbn. intros _. split; [done|]. specialize (Hn c). case_bool_decide as H0; [by apply Hid|].
    apply Hi. rewrite Hpc in Hn. cbn in Hn. lia.
  - cbn. specialize (Hn c). rewrite Hpc in Hn. cbn in Hn. lia.
Qed.

Lemma pop_step s c o st' :
  spin_inv s → pcs s c = Pop → pop_off c (st s) = o →
  match o with Ok _ x => st' = x | _ => st' = st s end →
  o = Ok tt st' ∧ spin_inv (MkSys st' (<[c := Run]> (pcs s)) (held s) (want s)).
Proof.
  intros HI Hpc Hrun Ho. pose proof HI as [He Hl Hu Hown Hnd Hap Hn Hi Hid].
  pose proof (Hn c) as Hnc. rewrite Hpc in Hnc. cbn in Hnc.
  destruct (Hi c) as [Hintr Hena]; [lia|].
  destruct (proj1 (wp_ok _ _ _) (pop_off_spec c (st s) Hintr ltac:(lia))) as ([] & s1 & Hpop & Hset).
  rewrite Hpop in Hrun. subst o. cbn in Ho. subst st'. split; [done|].
  eapply (inv_local s c Run _ (want s c)); [done|apply at_only_insert|apply at_only_same|exact Hset|..].
  - by intros k [?|?].
  - rewrite Hpc. by intros k [?|?].
  - done.
  - cbn. lia.
  - cbn. intros H0. rewrite bool_decide_false by lia. done.
  - cbn. intros H0. rewrite bool_decide_true by lia. done.
Qed.

Lemma swap_step s c lk old st' :
  spin_inv s → pcs s c = Spin lk → test_and_set lk (st s) = Ok old st' →
  spin_inv (MkSys st' (<[c := if old then Spin lk else Own lk]> (pcs s)) (held s) (want s)).
Proof.
  intros HI Hpc Hrun. pose proof HI as [He Hl Hu Hown Hnd Hap Hn Hi Hid].
  cbv [test_and_set upd_lock gets modify mbind M_bind mret M_ret] in Hrun. injection Hrun as <- <-.
  assert (Hnl : lk ∉ held s c) by (apply Hap; auto).
  assert (Huc : ∀ k, uses s c k ↔ k ∈ held s c) by (intros k; unfold uses; rewrite Hpc; naive_solver).
  destruct (locked (locks (st s) lk)) eqn:Hlk.
  - destruct (Hl lk Hlk) as [d Hd]. destruct (locks (st s) lk) as [b o] eqn:El. cbn in *. subst b.
    assert (Hsame : ∀ k, <[lk := MkSpin true o]> (locks (st s)) k = locks (st s) k).
    { intros k. destruct (decide (k = lk)) as [->|]; [by rewrite fn_lookup_insert|by rewrite fn_lookup_insert_ne]. }
    assert (Hpcs : ∀ d, <[c := Spin lk]> (pcs s) d = pcs s d).
    { intros k. destruct (decide (k = c)) as [->|]; [by rewrite fn_lookup_insert|by rewrite fn_lookup_insert_ne]. }
    split; unfold uses; cbn; intros *; rewrite ?Hsame, ?Hpcs; eauto.
    intros Hlk'. destruct (Hl _ Hlk') as [e Hu']. exists e. by rewrite Hpcs.
  - eapply (inv_lock s c lk (Own lk) (held s c));
      [done|apply at_only_insert|apply at_only_same|apply set_lk_insert|apply Hnd|..]; cbn.
    + intros k Hk. rewrite Huc. naive_solver.
    + done.
    + intros k [[= <-]|[?|?]]; done.
    + rewrite Hpc. cbn. lia.
    + intros d _ Hd%Hu. congruence.
    + naive_solver.
    + intros d. rewrite Hown. split; [|by intros [-> ?]].
      intros Hd. exfalso. assert (locked (locks (st s) lk) = true); [|congruence]. apply (Hu d). by right; left.
Qed.

Lemma own_step s c lk st' :
  spin_inv s → pcs s c = Own lk → acquire_own c lk (st s) = Ok tt st' →
  spin_inv (MkSys st' (<[c := Run]> (pcs s)) (<[c := lk :: held s c]> (held s)) (want s)).
Proof.
  intros HI Hpc Hrun. pose proof HI as [He Hl Hu Hown Hnd Hap Hn Hi Hid].
  cbv [acquire_own upd_lock modify] in Hrun. injection Hrun as <-.
  assert (Hnl : lk ∉ held s c) by (apply Hap; auto).
  assert (Huse : uses s c lk) by (by left).
  eapply (inv_lock s c lk Run (lk :: held s c));
    [done|apply at_only_insert|apply at_only_insert|apply set_lk_insert|by constructor|..]; cbn.
  - intros k Hk. unfold uses. rewrite Hpc, elem_of_cons. naive_solver.
  - intros k Hk. rewrite elem_of_cons. naive_solver.
  - by intros k [?|[?|?]].
  - rewrite Hpc. cbn. lia.
  - intros d Hd Hud. apply Hd. by eapply He.
  - rewrite (Hu _ _ Huse), elem_of_cons. naive_solver.
  - intros d. rewrite elem_of_cons. naive_solver.
Qed.

Lemma NoDup_filter_length (lk : nat) h :
  NoDup h → lk ∈ h → length h = S (length (filter (λ k, k ≠ lk) h)).
Proof.
  induction 1 as [|x h Hx Hnd IH]; [by intros ?%elem_of_nil|].
  intros [->|Hin]%elem_of_cons.
  - rewrite filter_cons_False by (intros Hne; by apply Hne). cbn. f_equal. f_equal. clear -Hx.
    induction h as [|y h IH]; [done|]. rewrite not_elem_of_cons in Hx.
    rewrite filter_cons_True by naive_solver. f_equal. apply IH. naive_solver.
  - rewrite filter_cons_True by (by intros ->). cbn. by rewrite <-IH.
Qed.

Lemma disown_step s c lk o st' :
  spin_inv s → pcs s c = Run → lk ∈ held s c → release_disown c lk (st s) = o →
  match o with Ok _ x => st' = x | _ => st' = st s end →
  o = Ok tt st' ∧
  spin_inv (MkSys st' (<[c := Unlock lk]> (pcs s))
              (<[c := filter (λ k, k ≠ lk) (held s c)]> (held s)) (want s)).
Proof.
  intros HI Hpc Hin Hrun Ho. pose proof HI as [He Hl Hu Hown Hnd Hap Hn Hi Hid].
  assert (Huse : uses s c lk) by (by right; left).
  assert (Hr : release_disown c lk (st s) =
    Ok tt (MkSt (cpus (st s)) (<[lk := MkSpin (locked (locks (st s) lk)) None]> (locks (st s))))).
  { unfold release_disown. erewrite bind_ok by apply holding_run. cbv beta.
    assert (locked (locks (st s) lk) && bool_decide (lk_cpu (locks (st s) lk) = Some c) = true)%bool as ->; [|done].
    rewrite (Hu _ _ Huse), bool_decide_true by (by apply Hown). done. }
  rewrite Hr in Hrun. subst o. cbn in Ho. subst st'. split; [done|].
  assert (Hf : ∀ k, k ∈ filter (λ k, k ≠ lk) (held s c) ↔ k ≠ lk ∧ k ∈ held s c) by (intros k; by rewrite list_elem_of_filter).
  eapply (inv_lock s c lk (Unlock lk));
    [done|apply at_only_insert|apply at_only_insert|apply set_lk_insert|by apply NoDup_filter|..]; cbn.
  - intros k Hk. rewrite Hf. unfold uses. rewrite Hpc. naive_solver.
  - intros k Hk. rewrite Hf. naive_solver.
  - intros k [?|[?|[= <-]]]; [done..|]. rewrite Hf. naive_solver.
  - rewrite Hpc, (NoDup_filter_length lk (held s c)) by done. cbn. lia.
  - intros d Hd Hud. apply Hd. by eapply He.
  - rewrite (Hu _ _ Huse). naive_solver.
  - intros d. rewrite Hf. naive_solver.
Qed.

Lemma unlock_step s c lk st' :
  spin_inv s → pcs s c = Unlock lk → release_unlock lk (st s) = Ok tt st' →
  spin_inv (MkSys st' (<[c := Pop]> (pcs s)) (held s) (want s)).
Proof.
  intros HI Hpc Hrun. pose proof HI as [He Hl Hu Hown Hnd Hap Hn Hi Hid].
  cbv [release_unlock upd_lock modify] in Hrun. injection Hrun as <-.
  assert (Hnl : lk ∉ held s c) by (apply Hap; auto).
  assert (Huse : uses s c lk) by (by right; right).
  eapply (inv_lock s c lk Pop (held s c));
    [done|apply at_only_insert|apply at_only_same|apply set_lk_insert|apply Hnd|..]; cbn.
  - intros k Hk. unfold uses. rewrite Hpc. naive_solver.
  - done.
  - by intros k [?|[?|?]].
  - rewrite Hpc. cbn. lia.
  - intros d Hd Hud. apply Hd. by eapply He.
  - naive_solver.
  - intros d. rewrite Hown. split; [|by intros [-> ?]]. intros Hd. exfalso.
    assert (d = c) as -> by (eapply He; [by right; left|done]). done.
Qed.

Lemma intr_step s c b st' :
  spin_inv s → pcs s c = Run → held s c = [] →
  upd_cpu c (λ x, MkCpu (noff x) (intena x) b) (st s) = Ok tt st' →
  spin_inv (MkSys st' (pcs s) (held s) (<[c := b]> (want s))).
Proof.
  intros HI Hpc Hh Hrun. pose proof HI as [He Hl Hu Hown Hnd Hap Hn Hi Hid].
  cbv [upd_cpu modify] in Hrun. injection Hrun as <-. pose proof (Hn c) as Hnc. rewrite Hpc, Hh in Hnc. cbn in Hnc.
  eapply (inv_local s c (pcs s c) _ b); [done|apply at_only_same|apply at_only_insert| |..].
  - split; [apply fn_lookup_insert|]. split; [|done]. intros d Hd. by apply fn_lookup_insert_ne.
  - rewrite Hpc. by intros k [?|?].
  - rewrite Hpc. by intros k [?|?].
  - by rewrite Hpc.
  - cbn. by rewrite Hn.
  - cbn. lia.
  - done.
Qed.

Lemma event_ok s o s' : spin_inv s → event s o s' → o = Ok tt (st s') ∧ spin_inv s'.
Proof.
  intros HI He. destruct He; cbn.
  - by eapply enter_step.
  - split; [done|]. by eapply swap_step.
  - split; [done|]. by eapply own_step.
  - by eapply disown_step.
  - split; [done|]. by eapply unlock_step.
  - by eapply pop_step.
  - split; [done|]. by eapply intr_step.
Qed.

Lemma boot_inv ie : spin_inv (spin_boot ie).
Proof.
  assert (Hno : ∀ c lk, ¬ uses (spin_boot ie) c lk).
  { intros c lk [?|[Hin|?]]; [done| |done]. by apply elem_of_nil in Hin. }
  split; cbn; try done.
  - intros c1 c2 lk Hu. by destruct (Hno c1 lk).
  - intros c lk Hu. by destruct (Hno c lk).
  - intros c lk. split; [done|]. by intros Hin%elem_of_nil.
  - intros c. constructor.
  - intros c lk _. apply not_elem_of_nil.
Qed.

Lemma reach_inv ie s : rtc sstep (spin_boot ie) s → spin_inv s.
Proof.
  intros Hr. cut (spin_inv (spin_boot ie)); [|apply boot_inv]. revert Hr. generalize (spin_boot ie).
  intros s0 Hr. induction Hr as [|a b c' [x Hx] _ IH]; [done|]. intros HI. apply IH. by eapply event_ok.
Qed.

(** C28: spin locks exclude each other and keep interrupts off.  Whatever the
    interleaving of CPUs that acquire locks they do not hold and release locks
    they hold: no two CPUs hold a lock; no check in [acquire], [release] or
    [pop_off] panics at the next step; a CPU that holds a lock runs with
    interrupts disabled; [noff] counts its locks; and when it holds none, its
    interrupts are as it last set them. *)
Theorem spinlock_safe ie s :
  rtc sstep (spin_boot ie) s →
  (∀ c1 c2 lk, lk ∈ held s c1 → lk ∈ held s c2 → c1 = c2) ∧
  (∀ o s', event s o s' → o = Ok tt (st s')) ∧
  (∀ c lk, lk ∈ held s c → intr (cpus (st s) c) = false) ∧
  (∀ c, pcs s c = Run → noff (cpus (st s) c) = Z.of_nat (length (held s c))) ∧
  (∀ c, pcs s c = Run → held s c = [] → intr (cpus (st s) c) = want s c).
Proof.
  intros HI%reach_inv. pose proof HI as [He _ _ _ _ _ Hn Hi Hid]. split_and!.
  - intros c1 c2 lk H1 H2. eapply He; by right; left.
  - intros o s' Hev. by apply (event_ok s o s').
  - intros c lk Hin. apply Hi. rewrite Hn. apply list_elem_of_lookup in Hin as [i Hi'%lookup_lt_Some].
    destruct (pcs s c); cbn; lia.
  - intros c Hpc. rewrite Hn, Hpc. cbn. lia.
  - intros c Hpc Hh. apply Hid. by rewrite Hn, Hpc, Hh.
Qed.

(** CPU 0 takes lock 0 while CPU 1 is in user code with interrupts on. *)
Lemma spinlock_safe_witness :
  ∃ s, rtc sstep (spin_boot (λ _, true)) s ∧ held s 0%nat = [0%nat] ∧
    intr (cpus (st s) 0%nat) = false.
Proof.
  eassert (Hrun : rtc sstep (spin_boot (λ _, true)) _).
  { eapply rtc_l; [eexists; apply (e_enter _ 0 0); [reflexivity|apply not_elem_of_nil|reflexivity|reflexivity]|].
    eapply rtc_l; [eexists; apply (e_swap _ 0 0); reflexivity|].
    eapply rtc_l; [eexists; apply (e_own _ 0 0); reflexivity|]. apply rtc_refl. }
  eexists. split; [exact Hrun|]. split; [reflexivity|].
  apply (proj1 (proj2 (proj2 (spinlock_safe _ _ Hrun))) 0%nat 0%nat). vm_compute. left.
Defined.

End Spinlock.
