(* ===== verification/Pipe.v ===== *)
(** Pipes: [kernel/pipe.c].

    A call of [pipewrite] or [piperead] runs, with [pi->lock] held, until it
    returns or blocks in [sleep]; one such run is a function on the
    [struct pipe] that also lists the channels it calls [wakeup] on. *)

From stdpp Require Import relations.
From S2P Require Import Prelude.

Local Open Scope Z_scope.

Module Pipe.

Definition PIPESIZE : Z := 512.

Record pipe := MkPipe {
  p_data : list Z;
  nread : Z;
  nwrite : Z;
  readopen : bool;
  writeopen : bool;
}.

(** The channels processes sleep on: [&pi->nread] and [&pi->nwrite]. *)
Inductive chan := ChNread | ChNwrite.
#[export] Instance chan_eq_dec : EqDecision chan.
Proof. solve_decision. Defined.

(** How a run ends: the call returns, or it sleeps, to resume at byte [i]. *)
Inductive seg := Return (r : Z) | Blocked (i : Z).

(** [pi->data[pi->nwrite++ % PIPESIZE] = ch]. *)
Definition push (ch : Z) (pi : pipe) : pipe :=
  MkPipe (<[Z.to_nat (nwrite pi mod PIPESIZE) := ch]> (p_data pi))
    (nread pi) (u32 (nwrite pi + 1)) (readopen pi) (writeopen pi).
(** [pi->data[pi->nread % PIPESIZE]], and [pi->nread++]. *)
Definition first (pi : pipe) : Z := p_data pi !!! Z.to_nat (nread pi mod PIPESIZE).
Definition pop (pi : pipe) : pipe :=
  MkPipe (p_data pi) (u32 (nread pi + 1)) (nwrite pi) (readopen pi) (writeopen pi).

(** The loop of [pipewrite] with [k] iterations to go.  [killed i] is the
    value of [killed(pr)] in the iteration of byte [i]; [cin i] is the byte
    [copyin] reads at [addr + i], if it can. *)
Fixpoint pipewrite_loop (killed : Z → bool) (cin : Z → option Z) (k : nat) (i : Z) (pi : pipe) :
    seg * list chan * pipe :=
  match k with
  | O => (Return i, [ChNread], pi)
  | S k =>
      if (negb (readopen pi) || killed i)%bool then (Return (-1), [], pi)
      else if bool_decide (nwrite pi = u32 (nread pi + PIPESIZE))
      then (Blocked i, [ChNread], pi)
      else match cin i with
           | None => (Return i, [ChNread], pi)
           | Some ch => pipewrite_loop killed cin k (i + 1) (push ch pi)
           end
  end.
(** A run of [pipewrite(pi, addr, n)] from byte [i] (0 when it is called). *)
Definition pipewrite (killed : Z → bool) (cin : Z → option Z) (n i : Z) (pi : pipe) :
    seg * list chan * pipe :=
  pipewrite_loop killed cin (Z.to_nat (n - i)) i pi.

(** The copy loop of [piperead]; [cout i ch] says whether [copyout] of [ch] to
    [addr + i] succeeds.  The list is what is copied out. *)
Fixpoint piperead_loop (cout : Z → Z → bool) (k : nat) (i : Z) (pi : pipe) : Z * list Z * pipe :=
  match k with
  | O => (i, [], pi)
  | S k =>
      if bool_decide (nread pi = nwrite pi) then (i, [], pi) else
      let ch := first pi in
      let pi := pop pi in
      if cout i ch
      then let '(r, out, pi) := piperead_loop cout k (i + 1) pi in (r, ch :: out, pi)
      else (i, [], pi)
  end.
Definition piperead (killed : bool) (cout : Z → Z → bool) (n : Z) (pi : pipe) :
    seg * list Z * list chan * pipe :=
  if (bool_decide (nread pi = nwrite pi) && writeopen pi)%bool then
    if killed then (Return (-1), [], [], pi) else (Blocked 0, [], [], pi)
  else
    let '(r, out, pi) := piperead_loop cout (Z.to_nat n) 0 pi in
    (Return r, out, [ChNwrite], pi).

(** [pipeclose]; the boolean result says that the pipe is freed. *)
Definition pipeclose (writable : bool) (pi : pipe) : list chan * bool * pipe :=
  let '(wk, pi) :=
    if writable
    then ([ChNread], MkPipe (p_data pi) (nread pi) (nwrite pi) (readopen pi) false)
    else ([ChNwrite], MkPipe (p_data pi) (nread pi) (nwrite pi) false (writeopen pi)) in
  (wk, negb (readopen pi) && negb (writeopen pi), pi)%bool.

(** The pipe [pipealloc] sets up in a page from [kalloc], whose bytes [junk]
    are left as they are in [data]. *)
Definition pipe_init (junk : list Z) : pipe := MkPipe junk 0 0 true true.

(** * The byte queue a pipe holds *)

Definition pipe_count (pi : pipe) : Z := u32 (nwrite pi - nread pi).
Definition contents (pi : pipe) : list Z :=
  (λ j, p_data pi !!! Z.to_nat ((nread pi + j) mod PIPESIZE)) <$> seqZ 0 (pipe_count pi).

Record pipe_ok (pi : pipe) : Prop := {
  po_data : length (p_data pi) = Z.to_nat PIPESIZE;
  po_read : is_u32 (nread pi);
  po_write : is_u32 (nwrite pi);
  po_count : pipe_count pi ≤ PIPESIZE;
}.

Lemma pipe_count_nonneg pi : 0 ≤ pipe_count pi.
Proof. unfold pipe_count. wrap_lia. Qed.
Lemma length_contents pi : Z.of_nat (length (contents pi)) = pipe_count pi.
Proof.
  pose proof (pipe_count_nonneg pi). unfold contents. rewrite length_fmap, length_seqZ. lia.
Qed.

(** The two tests of the code. *)
Lemma pipe_empty pi : pipe_ok pi → nread pi = nwrite pi ↔ contents pi = [].
Proof.
  intros [_ Hr Hw _]. rewrite <-length_zero_iff_nil. pose proof (length_contents pi) as Hl.
  unfold pipe_count in Hl. split; intros H; [rewrite H in Hl; revert Hl; wrap_lia|].
  rewrite H in Hl. revert Hl. wrap_lia.
Qed.
Lemma pipe_full pi :
  pipe_ok pi → nwrite pi = u32 (nread pi + PIPESIZE) ↔ length (contents pi) = Z.to_nat PIPESIZE.
Proof.
  intros [_ Hr Hw _]. pose proof (length_contents pi) as Hl. unfold pipe_count, PIPESIZE in *.
  split; intros H; [rewrite H in Hl; revert Hl; wrap_lia|]. rewrite H in Hl. revert Hl. wrap_lia.
Qed.

Lemma write_index pi : pipe_ok pi → nwrite pi mod PIPESIZE = (nread pi + pipe_count pi) mod PIPESIZE.
Proof.
  intros [_ Hr Hw _]. unfold pipe_count, PIPESIZE.
  assert (nread pi + u32 (nwrite pi - nread pi) = nwrite pi ∨
          nread pi + u32 (nwrite pi - nread pi) = nwrite pi + 8388608 * 512) as [-> | ->] by wrap_lia.
  - done.
  - by rewrite Z.mod_add.
Qed.

Lemma slot_ne r j k : 0 ≤ j < k → k < PIPESIZE → (r + j) mod PIPESIZE ≠ (r + k) mod PIPESIZE.
Proof. unfold PIPESIZE. intros. zlia. Qed.

Lemma push_ok ch pi :
  pipe_ok pi → (length (contents pi) < Z.to_nat PIPESIZE)%nat →
  pipe_ok (push ch pi) ∧ contents (push ch pi) = contents pi ++ [ch].
Proof.
  intros [Hd Hr Hw Hc] Hlt. pose proof (length_contents pi) as Hl.
  assert (Hcnt : pipe_count (push ch pi) = pipe_count pi + 1).
  { unfold pipe_count in *. cbn. unfold PIPESIZE in *. revert Hl Hlt. wrap_lia. }
  split.
  { split; [by cbn; rewrite length_insert|done|cbn; apply u32_range|]. unfold PIPESIZE in *. lia. }
  pose proof (pipe_count_nonneg pi) as Hnn.
  unfold contents at 1. rewrite Hcnt, seqZ_app, fmap_app by lia. f_equal.
  - unfold contents. apply list_fmap_ext. intros k j Hk. apply lookup_seqZ in Hk as [-> Hk]. cbn.
    rewrite list_lookup_total_insert_ne; [done|]. rewrite write_index by done.
    pose proof (slot_ne (nread pi) (0 + Z.of_nat k) (pipe_count pi)) as Hne.
    pose proof (Z.mod_pos_bound (nread pi + (0 + Z.of_nat k)) PIPESIZE eq_refl).
    pose proof (Z.mod_pos_bound (nread pi + pipe_count pi) PIPESIZE eq_refl). unfold PIPESIZE in *. lia.
  - rewrite seqZ_cons, seqZ_nil by lia. cbn. rewrite Z.add_0_l, <-write_index by done. pose proof (Z.mod_pos_bound (nwrite pi) PIPESIZE eq_refl).
    rewrite list_lookup_total_insert_eq by (rewrite Hd; lia). done.
Qed.

Lemma u32_mod a : u32 a mod PIPESIZE = a mod PIPESIZE.
Proof.
  unfold u32, PIPESIZE. change (2 ^ 32) with (512 * 8388608). rewrite Z.rem_mul_r by lia.
  by rewrite Z.mul_comm, Z.mod_add, Z.mod_mod by lia.
Qed.

Lemma pop_ok pi :
  pipe_ok pi → contents pi ≠ [] → pipe_ok (pop pi) ∧ contents pi = first pi :: contents (pop pi).
Proof.
  intros Hok Hne. pose proof Hok as [Hd Hr Hw Hc]. rewrite <-pipe_empty in Hne by done.
  pose proof (pipe_count_nonneg pi).
  assert (Hcnt : pipe_count pi = pipe_count (pop pi) + 1) by (unfold pipe_count; cbn; wrap_lia).
  pose proof (pipe_count_nonneg (pop pi)).
  split; [split; [done|cbn; apply u32_range|done|lia]|].
  unfold contents at 1. rewrite seqZ_cons by lia. rewrite Hcnt. cbn [fmap list_fmap].
  change (Z.succ 0) with 1. replace (Z.pred (pipe_count (pop pi) + 1)) with (pipe_count (pop pi)) by lia.
  f_equal; [by unfold first; rewrite Z.add_0_r|]. unfold contents. apply list_eq. intros k.
  rewrite !list_lookup_fmap. destruct (decide (Z.of_nat k < pipe_count (pop pi))).
  - rewrite !lookup_seqZ_lt by lia. cbn. do 3 f_equal.
    replace (nread pi + (1 + Z.of_nat k)) with ((nread pi + 1) + Z.of_nat k) by lia.
    by rewrite <-(Zplus_mod_idemp_l (u32 _)), u32_mod, Zplus_mod_idemp_l.
  - by rewrite !lookup_seqZ_ge by lia.
Qed.

(** How a run of [pipewrite] ends: the reader is gone or the writer killed
    (then nobody is woken), everything was written or a byte cannot be read
    from user memory, or the pipe is full. *)
Definition write_end (pi : pipe) (killed : Z → bool) (cin : Z → option Z) (n j : Z)
    (len : nat) (r : seg) (wk : list chan) : Prop :=
  match r with
  | Return r =>
      r = -1 ∧ wk = [] ∧ j < n ∧ (readopen pi = false ∨ killed j = true) ∨
      r = j ∧ wk = [ChNread] ∧ (n ≤ j ∨ cin j = None)
  | Blocked r => r = j ∧ wk = [ChNread] ∧ j < n ∧ len = Z.to_nat PIPESIZE ∧
                 readopen pi = true ∧ killed j = false
  end.

Lemma pipewrite_loop_spec killed cin k : ∀ i pi,
  pipe_ok pi → 0 ≤ i →
  ∃ bs r wk pi', pipewrite_loop killed cin k i pi = (r, wk, pi') ∧ pipe_ok pi' ∧
    contents pi' = contents pi ++ bs ∧ readopen pi' = readopen pi ∧ writeopen pi' = writeopen pi ∧
    nread pi' = nread pi ∧
    (∀ j b, bs !! j = Some b → cin (i + Z.of_nat j) = Some b) ∧ (length bs ≤ k)%nat ∧
    write_end pi killed cin (i + Z.of_nat k) (i + Z.of_nat (length bs)) (length (contents pi')) r wk.
Proof.
  induction k as [|k IH]; intros i pi Hok Hi; cbn [pipewrite_loop].
  { exists [], (Return i), [ChNread], pi. rewrite app_nil_r. do 8 (split; [done|]).
    cbn. right. split; [lia|]. split; [done|]. left. lia. }
  destruct (negb (readopen pi) || killed i)%bool eqn:Hstop.
  { exists [], (Return (-1)), [], pi. rewrite app_nil_r. do 7 (split; [done|]). split; [cbn; lia|].
    cbn. left. split; [done|]. split; [done|]. split; [lia|]. rewrite Z.add_0_r.
    apply orb_true_iff in Hstop as [?%negb_true_iff|]; auto. }
  apply orb_false_iff in Hstop as [Hro%negb_false_iff Hk].
  case_bool_decide as Hfull.
  { exists [], (Blocked i), [ChNread], pi. rewrite app_nil_r. do 7 (split; [done|]). split; [cbn; lia|].
    cbn. rewrite Z.add_0_r. apply pipe_full in Hfull; [|done]. split_and!; (done || lia). }
  destruct (cin i) as [ch|] eqn:Hcin.
  2:{ exists [], (Return i), [ChNread], pi. rewrite app_nil_r. do 7 (split; [done|]). split; [cbn; lia|].
    cbn. rewrite Z.add_0_r. auto. }
  assert (Hlt : (length (contents pi) < Z.to_nat PIPESIZE)%nat).
  { pose proof (length_contents pi). pose proof (po_count _ Hok).
    assert (length (contents pi) ≠ Z.to_nat PIPESIZE) by (by rewrite <-pipe_full). lia. }
  destruct (push_ok ch pi Hok Hlt) as [Hok' Hcont].
  destruct (IH (i + 1) (push ch pi) Hok') as (bs & r & wk & pi' & Hrun & Hp' & Hc' & Hr' & Hw' & Hnr & Hbs & Hl & He); [lia|].
  exists (ch :: bs), r, wk, pi'. split; [done|]. split; [done|].
  split; [by rewrite Hc', Hcont, <-app_assoc|]. split; [done|]. split; [done|]. split; [done|]. split.
  { intros [|j] b Hb; [by simplify_eq/=; rewrite Z.add_0_r|].
    replace (i + Z.of_nat (S j)) with (i + 1 + Z.of_nat j) by lia. by apply Hbs. }
  split; [cbn; lia|]. cbn [length].
  replace (i + Z.of_nat (S k)) with (i + 1 + Z.of_nat k) by lia.
  replace (i + Z.of_nat (S (length bs))) with (i + 1 + Z.of_nat (length bs)) by lia. exact He.
Qed.

Lemma piperead_loop_spec cout k : ∀ i pi,
  pipe_ok pi →
  ∃ out lost pi', piperead_loop cout k i pi = (i + Z.of_nat (length out), out, pi') ∧ pipe_ok pi' ∧
    contents pi = out ++ lost ++ contents pi' ∧ nwrite pi' = nwrite pi ∧
    readopen pi' = readopen pi ∧ writeopen pi' = writeopen pi ∧ (length out ≤ k)%nat ∧
    (lost = [] ∧ (length out = k ∨ contents pi' = []) ∨
     ∃ ch, lost = [ch] ∧ cout (i + Z.of_nat (length out)) ch = false).
Proof.
  induction k as [|k IH]; intros i pi Hok; cbn [piperead_loop].
  { exists [], [], pi. cbn. rewrite Z.add_0_r. split_and!; auto. }
  case_bool_decide as Hemp.
  { apply pipe_empty in Hemp; [|done]. exists [], [], pi. cbn. rewrite Z.add_0_r.
    split_and!; try done; [lia|]. left. split; [done|]. by right. }
  rewrite pipe_empty in Hemp by done. destruct (pop_ok pi Hok Hemp) as [Hok' Hcont].
  destruct (cout i (first pi)) eqn:Hout.
  - destruct (IH (i + 1) (pop pi) Hok') as (out & lost & pi' & -> & Hp' & Hc' & Hnw & Hr' & Hw' & Hl & He).
    exists (first pi :: out), lost, pi'. cbn [length].
    replace (i + Z.of_nat (S (length out))) with (i + 1 + Z.of_nat (length out)) by lia.
    split; [done|]. split; [done|]. split; [by rewrite Hcont, Hc'|]. do 3 (split; [done|]).
    split; [lia|]. destruct He as [[? [?|?]]|?]; [left|left|right]; auto.
  - exists [], [first pi], (pop pi). cbn [length]. rewrite Z.add_0_r. split_and!; try done; [lia|].
    right. by exists (first pi).
Qed.

(** * Processes on a pipe *)

(** The calls in progress: a write of [n] bytes from user memory [src] (reading
    past its end faults) that has done [i] of them, or a read of [n] bytes. *)
Inductive call :=
  | Writing (src : list Z) (n i : Z)
  | Reading (n : Z).
Record thread := MkThread { t_call : call; t_asleep : bool }.

(** The channel a blocked call sleeps on. *)
Definition sleeps_on (c : call) : chan :=
  match c with Writing _ _ _ => ChNwrite | Reading _ => ChNread end.
Definition wake_one (wk : list chan) (t : thread) : thread :=
  if bool_decide (sleeps_on (t_call t) ∈ wk) then MkThread (t_call t) false else t.

(** The pipe, the calls in progress, the bytes taken from writers so far, and
    those taken out by readers: each with whether it got to the reader. *)
Record psys := MkSys {
  ps_pipe : pipe;
  ps_threads : gmap nat thread;
  ps_sent : list Z;
  ps_recv : list (Z * bool);
}.
(** What a run of [piperead] that copied [out] took: as many bytes as [nread]
    went up, the first of them [out]. *)
Definition read_out (pi pi' : pipe) (out : list Z) : list (Z * bool) :=
  ((λ b, (b, true)) <$> out) ++
  ((λ b, (b, false)) <$> drop (length out) (take (Z.to_nat (u32 (nread pi' - nread pi))) (contents pi))).

(** After a run: the call that returned is gone, the one that blocked sleeps,
    and the sleepers on the woken channels are runnable. *)
Definition reschedule (t : nat) (blocked : Z → call) (r : seg) (wk : list chan)
    (th : gmap nat thread) : gmap nat thread :=
  wake_one wk <$> match r with
                  | Return _ => delete t th
                  | Blocked j => <[t := MkThread (blocked j) true]> th
                  end.

Definition user_byte (src : list Z) (j : Z) : option Z := src !! Z.to_nat j.

(** One step of some process.  [K] restricts what [killed(pr)] may return in
    the iterations of one run of [pipewrite], and [C] which bytes [copyout] can
    give to a reader.  An end is closed when its last
    file is, so no call is using it; [kill] makes a sleeper runnable. *)
Inductive pstep (K : (Z → bool) → Prop) (C : (Z → Z → bool) → Prop) : psys → psys → Prop :=
  | ps_call pi th sent recv t c :
      th !! t = None → match c with Writing _ _ i => i = 0 | Reading _ => True end →
      pstep K C (MkSys pi th sent recv) (MkSys pi (<[t := MkThread c false]> th) sent recv)
  | ps_write pi th sent recv t src n i killed r wk pi' :
      th !! t = Some (MkThread (Writing src n i) false) → K killed →
      pipewrite killed (user_byte src) n i pi = (r, wk, pi') →
      pstep K C (MkSys pi th sent recv)
        (MkSys pi' (reschedule t (Writing src n) r wk th)
           (sent ++ take (Z.to_nat (u32 (nwrite pi' - nwrite pi))) (drop (Z.to_nat i) src)) recv)
  | ps_read pi th sent recv t n killed cout r out wk pi' :
      th !! t = Some (MkThread (Reading n) false) → C cout →
      piperead killed cout n pi = (r, out, wk, pi') →
      pstep K C (MkSys pi th sent recv)
        (MkSys pi' (reschedule t (λ _, Reading n) r wk th) sent (recv ++ read_out pi pi' out))
  | ps_close pi th sent recv writable wk freed pi' :
      (∀ t c a, th !! t = Some (MkThread c a) →
         match c with Writing _ _ _ => writable = false | Reading _ => writable = true end) →
      pipeclose writable pi = (wk, freed, pi') →
      pstep K C (MkSys pi th sent recv) (MkSys pi' (wake_one wk <$> th) sent recv)
  | ps_kill pi th sent recv t c :
      th !! t = Some (MkThread c true) →
      pstep K C (MkSys pi th sent recv) (MkSys pi (<[t := MkThread c false]> th) sent recv).

Definition pipe_start (junk : list Z) : psys := MkSys (pipe_init junk) ∅ [] [].

(** ** The queue *)

Definition calls_ok (th : gmap nat thread) : Prop :=
  ∀ t src n i a, th !! t = Some (MkThread (Writing src n i) a) → 0 ≤ i.
Definition queue_inv (s : psys) : Prop :=
  pipe_ok (ps_pipe s) ∧ ps_sent s = (ps_recv s).*1 ++ contents (ps_pipe s) ∧ calls_ok (ps_threads s).

Lemma pipe_ok_init junk : length junk = Z.to_nat PIPESIZE → pipe_ok (pipe_init junk) ∧ contents (pipe_init junk) = [].
Proof.
  intros Hl. split; [split|]; unfold is_u32, pipe_count, PIPESIZE; cbn; (done || lia).
Qed.

Lemma wake_lookup wk (th : gmap nat thread) t c a :
  (wake_one wk <$> th) !! t = Some (MkThread c a) → ∃ a', th !! t = Some (MkThread c a') ∧
    (a = true → a' = true ∧ sleeps_on c ∉ wk).
Proof.
  rewrite lookup_fmap. destruct (th !! t) as [[c' a']|]; [|done]. cbn. intros [= Heq].
  unfold wake_one in Heq. cbn in Heq. case_bool_decide; simplify_eq; eauto.
  exists a'. by split.
Qed.

Lemma reschedule_lookup t blocked r wk th u c a :
  reschedule t blocked r wk th !! u = Some (MkThread c a) →
  (u ≠ t ∧ ∃ a', th !! u = Some (MkThread c a') ∧ (a = true → a' = true ∧ sleeps_on c ∉ wk)) ∨
  (u = t ∧ ∃ j, r = Blocked j ∧ c = blocked j).
Proof.
  intros (a' & Hu & Ha)%wake_lookup. destruct r as [r|j].
  - apply lookup_delete_Some in Hu as [Hne Hu]. left. split; [done|]. eauto.
  - destruct (decide (u = t)) as [->|Hne].
    + rewrite lookup_insert_eq in Hu. right. split; [done|]. exists j. by simplify_eq.
    + rewrite lookup_insert_ne in Hu by done. left. split; [done|]. eauto.
Qed.

(** The counter tells how many bytes a run moved. *)
Lemma moved_bytes pi pi' bs :
  pipe_ok pi → pipe_ok pi' → nread pi' = nread pi → contents pi' = contents pi ++ bs →
  Z.to_nat (u32 (nwrite pi' - nwrite pi)) = length bs.
Proof.
  intros Hok Hok' Hr Hc. pose proof (length_contents pi) as H1. pose proof (length_contents pi') as H2.
  rewrite Hc, length_app in H2. pose proof (po_count _ Hok'). pose proof (po_count _ Hok).
  unfold pipe_count, PIPESIZE in *. rewrite Hr in *. destruct Hok as [_ ? ? _], Hok' as [_ _ ? _]. wrap_lia.
Qed.

Lemma user_bytes src i bs :
  0 ≤ i → (∀ j b, bs !! j = Some b → user_byte src (i + Z.of_nat j) = Some b) →
  take (length bs) (drop (Z.to_nat i) src) = bs.
Proof.
  intros Hi Hbs. apply list_eq. intros j. destruct (decide (j < length bs)%nat) as [Hj|Hj].
  - destruct (lookup_lt_is_Some_2 bs j Hj) as [b Hb]. rewrite Hb, lookup_take_lt, lookup_drop by done.
    rewrite <-(Hbs j b Hb). unfold user_byte. f_equal. lia.
  - rewrite lookup_take_ge by lia. symmetry. apply lookup_ge_None. lia.
Qed.

(** What one run of each kind does to the queue. *)
Lemma write_run killed src n i pi r wk pi' :
  pipe_ok pi → 0 ≤ i → pipewrite killed (user_byte src) n i pi = (r, wk, pi') →
  ∃ bs, pipe_ok pi' ∧ contents pi' = contents pi ++ bs ∧
    readopen pi' = readopen pi ∧ writeopen pi' = writeopen pi ∧
    take (Z.to_nat (u32 (nwrite pi' - nwrite pi))) (drop (Z.to_nat i) src) = bs ∧
    write_end pi killed (user_byte src) (i + Z.of_nat (Z.to_nat (n - i)))
      (i + Z.of_nat (length bs)) (length (contents pi')) r wk.
Proof.
  intros Hok Hi Hrun. unfold pipewrite in Hrun.
  destruct (pipewrite_loop_spec killed (user_byte src) (Z.to_nat (n - i)) i pi Hok Hi)
    as (bs & r' & wk' & pi'' & Hrun' & Hp' & Hc' & Hr' & Hw' & Hnr & Hbs & Hl & He).
  rewrite Hrun in Hrun'. simplify_eq. exists bs. do 4 (split; [done|]). split; [|done].
  rewrite (moved_bytes pi pi'' bs) by done. by apply user_bytes.
Qed.

(** The counter tells how many bytes a run took out. *)
Lemma taken_bytes pi pi' bs :
  pipe_ok pi → pipe_ok pi' → nwrite pi' = nwrite pi → contents pi = bs ++ contents pi' →
  Z.to_nat (u32 (nread pi' - nread pi)) = length bs.
Proof.
  intros Hok Hok' Hr Hc. pose proof (length_contents pi) as H1. pose proof (length_contents pi') as H2.
  rewrite Hc, length_app in H1. pose proof (po_count _ Hok'). pose proof (po_count _ Hok).
  unfold pipe_count, PIPESIZE in *. rewrite Hr in *. destruct Hok as [_ ? ? _], Hok' as [_ ? _ _]. wrap_lia.
Qed.
Lemma read_out_eq pi pi' out lost :
  pipe_ok pi → pipe_ok pi' → nwrite pi' = nwrite pi → contents pi = out ++ lost ++ contents pi' →
  read_out pi pi' out = ((λ b, (b, true)) <$> out) ++ ((λ b, (b, false)) <$> lost).
Proof.
  intros Hok Hok' Hw Hc. unfold read_out. rewrite (taken_bytes pi pi' (out ++ lost)) by (done || by rewrite <-app_assoc).
  by rewrite Hc, app_assoc, take_app_length, drop_app_length.
Qed.

(** A run of [piperead]: what it took, of which only a byte that [copyout]
    refused did not get to the reader. *)
Lemma read_run killed cout n pi r out wk pi' :
  pipe_ok pi → piperead killed cout n pi = (r, out, wk, pi') →
  pipe_ok pi' ∧ contents pi = (read_out pi pi' out).*1 ++ contents pi' ∧
  readopen pi' = readopen pi ∧ writeopen pi' = writeopen pi ∧
  ((∀ i b, cout i b = true) → Forall (λ x, x.2 = true) (read_out pi pi' out)) ∧
  (contents pi = [] → writeopen pi = true → pi' = pi) ∧
  match r with
  | Return r => wk = [] ∧ pi' = pi ∨ wk = [ChNwrite]
  | Blocked _ => pi' = pi ∧ contents pi = [] ∧ writeopen pi = true
  end.
Proof.
  intros Hok. unfold piperead. pose proof (pipe_empty pi Hok) as Hemp.
  destruct (bool_decide (nread pi = nwrite pi) && writeopen pi)%bool eqn:Hb.
  - apply andb_true_iff in Hb as [He%bool_decide_eq_true Hwo]. apply Hemp in He as He'.
    assert (Hno : read_out pi pi [] = []) by (unfold read_out; by rewrite He', take_nil).
    destruct killed; intros [= <- <- <- <-]; rewrite Hno, He'; (do 5 (split; [done|])); auto.
  - destruct (piperead_loop_spec cout (Z.to_nat n) 0 pi Hok) as (o & lost & pi2 & -> & Hp & Hc & Hnw & Hr & Hw & Hl & He).
    intros [= <- <- <- <-]. rewrite (read_out_eq pi pi2 o lost) by done.
    split; [done|]. split; [|do 2 (split; [done|]); split; [|split; [|by right]]].
    + rewrite fmap_app, <-!list_fmap_compose. cbn. by rewrite !list_fmap_id, <-app_assoc.
    + intros Hall. destruct He as [[-> _]|(ch & _ & Hno)]; [|by rewrite Hall in Hno].
      rewrite app_nil_r. apply Forall_fmap, Forall_true. done.
    + intros Hc0 Hwo. rewrite Hwo, andb_true_r in Hb. apply bool_decide_eq_false in Hb. by apply Hemp in Hc0.
Qed.

Lemma close_run writable pi wk freed pi' :
  pipe_ok pi → pipeclose writable pi = (wk, freed, pi') →
  pipe_ok pi' ∧ contents pi' = contents pi ∧ wk = [if writable then ChNread else ChNwrite] ∧
  readopen pi' = (readopen pi && writable)%bool ∧ writeopen pi' = (writeopen pi && negb writable)%bool.
Proof.
  intros [? ? ? ?] Hrun. unfold pipeclose in Hrun. destruct writable; injection Hrun as <- <- <-;
    (split; [split; done|]); cbn; destruct (readopen pi), (writeopen pi); done.
Qed.

Lemma calls_ok_wake wk th : calls_ok th → calls_ok (wake_one wk <$> th).
Proof. intros Hc t src n i a (a' & Ht & _)%wake_lookup. by eapply Hc. Qed.

Lemma queue_step K C s s' : queue_inv s → pstep K C s s' → queue_inv s'.
Proof.
  intros (Hok & Hq & Hcalls) Hst.
  destruct Hst as [pi th sent recv t c Ht Hc|pi th sent recv t src n i killed r wk pi' Ht HK Hrun|
    pi th sent recv t n killed cout r out wk pi' Ht HC Hrun|pi th sent recv w wk freed pi' _ Hrun|pi th sent recv t c Ht];
    cbn in *.
  - split; [done|]. split; [done|]. intros u src n i a Hu. cbn in Hu.
    apply lookup_insert_Some in Hu as [[<- Hu]|[_ Hu]]; [by simplify_eq|by eapply Hcalls].
  - pose proof (Hcalls _ _ _ _ _ Ht) as Hi.
    destruct (write_run _ _ _ _ _ _ _ _ Hok Hi Hrun) as (bs & Hok' & Hc & _ & _ & -> & He).
    split; [done|]. split; [by cbn; rewrite Hq, Hc, app_assoc|]. intros u src' n' i' a Hu. cbn in Hu.
    apply reschedule_lookup in Hu as [(_ & a' & Hu & _)|(-> & j & -> & [= -> -> ->])]; [by eapply Hcalls|].
    cbn in He. lia.
  - destruct (read_run _ _ _ _ _ _ _ _ Hok Hrun) as (Hok' & Hc & _ & _ & _).
    split; [done|]. split; [by cbn; rewrite Hq, Hc, fmap_app, app_assoc|]. intros u src' n' i' a Hu. cbn in Hu.
    apply reschedule_lookup in Hu as [(_ & a' & Hu & _)|(_ & j & _ & Hbad)]; [by eapply Hcalls|done].
  - destruct (close_run _ _ _ _ _ Hok Hrun) as (Hok' & Hc & _). split; [done|].
    split; [by cbn; rewrite Hc|]. by apply calls_ok_wake.
  - split; [done|]. split; [done|]. intros u src n i a Hu. cbn in Hu.
    apply lookup_insert_Some in Hu as [[<- Hu]|[_ Hu]]; [|by eapply Hcalls].
    simplify_eq. by eapply (Hcalls t).
Qed.

Lemma queue_steps K C s s' : queue_inv s → rtc (pstep K C) s s' → queue_inv s'.
Proof. intros Hq. induction 1; [done|]. eauto using queue_step. Qed.

Lemma queue_start junk : length junk = Z.to_nat PIPESIZE → queue_inv (pipe_start junk).
Proof. intros [? Hc]%pipe_ok_init. split; [done|]. split; [by cbn; rewrite Hc|]. by intros t src n i a. Qed.

(** No byte is lost unless [copyout] refuses one. *)
Lemma delivered_steps K C s s' :
  (∀ cout, C cout → ∀ i b, cout i b = true) → queue_inv s → Forall (λ x, x.2 = true) (ps_recv s) → rtc (pstep K C) s s' →
  Forall (λ x, x.2 = true) (ps_recv s').
Proof.
  intros HC Hq Hd Hst. revert Hq Hd. induction Hst as [|s1 s2 s3 H12 _ IH]; [done|]. intros Hq Hd.
  apply IH; [by eapply queue_step|]. destruct Hq as (Hok & _). destruct H12 as [| |pi th sent recv t n killed cout r out wk pi' Ht Hcout Hrun| |]; try done.
  cbn in *. apply Forall_app. split; [done|].
  destruct (read_run _ _ _ _ _ _ _ _ Hok Hrun) as (_ & _ & _ & _ & Hall & _). by apply Hall, HC.
Qed.

(** C25: a pipe is a bounded first-in first-out queue.  However writers and
    readers interleave, block, are killed, pass bad addresses or close their
    ends, the bytes taken from the writers are the bytes taken out by the
    readers followed by what is in the pipe, which is never more than
    [PIPESIZE] bytes; the 32-bit counters may wrap.  Unless [copyout] refuses a
    byte, all that was taken out got to the readers. *)
Theorem pipe_fifo C junk s :
  length junk = Z.to_nat PIPESIZE → rtc (pstep (λ _, True) C) (pipe_start junk) s →
  ps_sent s = (ps_recv s).*1 ++ contents (ps_pipe s) ∧
  (length (contents (ps_pipe s)) ≤ Z.to_nat PIPESIZE)%nat ∧
  ((∀ cout, C cout → ∀ i b, cout i b = true) → Forall (λ x, x.2 = true) (ps_recv s)).
Proof.
  intros Hj Hs. destruct (queue_steps _ _ _ _ (queue_start junk Hj) Hs) as (Hok & Hq & _).
  split; [done|]. pose proof (length_contents (ps_pipe s)). pose proof (po_count _ Hok). split; [lia|].
  intros HC. eapply delivered_steps; [exact HC|by apply queue_start|constructor|exact Hs].
Qed.

(** ** Sleepers *)

(** Who sleeps has a reason to: a writer sees a full pipe and an open reading
    end, a reader an empty pipe and an open writing end. *)
Definition sleepers_ok (s : psys) : Prop :=
  ∀ t c, ps_threads s !! t = Some (MkThread c true) →
    match c with
    | Writing _ _ _ => length (contents (ps_pipe s)) = Z.to_nat PIPESIZE ∧ readopen (ps_pipe s) = true
    | Reading _ => contents (ps_pipe s) = [] ∧ writeopen (ps_pipe s) = true
    end.

(** [killed(pr)] does not change while one run of [pipewrite] holds the lock. *)
Definition steady (killed : Z → bool) : Prop := ∀ i j, killed i = killed j.

(** A run that wakes nobody has then not moved anything. *)
Lemma write_refused killed cin n i pi r pi' :
  steady killed → pipe_ok pi → 0 ≤ i → pipewrite killed cin n i pi = (r, [], pi') → pi' = pi.
Proof.
  intros Hk Hok Hi Hrun. unfold pipewrite in Hrun.
  destruct (pipewrite_loop_spec killed cin (Z.to_nat (n - i)) i pi Hok Hi)
    as (bs & r' & wk' & pi'' & Hrun' & _ & _ & _ & _ & _ & _ & _ & He).
  rewrite Hrun in Hrun'. simplify_eq. destruct r' as [r|j]; [|by destruct He as (_ & ? & _)].
  destruct He as [(_ & _ & _ & Hwhy)|(_ & ? & _)]; [|done].
  destruct (Z.to_nat (n - i)) as [|k]; cbn [pipewrite_loop] in Hrun; [by simplify_eq|].
  destruct Hwhy as [Hro|Hki]; [by rewrite Hro in Hrun; cbn [negb orb] in Hrun; simplify_eq|].
  rewrite (Hk i (i + Z.of_nat (length bs))), Hki, orb_true_r in Hrun. by simplify_eq.
Qed.

Lemma sleepers_step C s s' : queue_inv s → sleepers_ok s → pstep steady C s s' → sleepers_ok s'.
Proof.
  intros (Hok & _ & Hcalls) Hsl Hst.
  destruct Hst as [pi th sent recv t c Ht Hc|pi th sent recv t src n i killed r wk pi' Ht HK Hrun|
    pi th sent recv t n killed cout r out wk pi' Ht HC Hrun|pi th sent recv w wk freed pi' _ Hrun|pi th sent recv t c Ht];
    intros u cu Hu; cbn in *; unfold sleepers_ok in Hsl; cbn in Hsl.
  - apply lookup_insert_Some in Hu as [[_ Hu]|[_ Hu]]; [done|by apply (Hsl u cu)].
  - pose proof (Hcalls _ _ _ _ _ Ht) as Hi.
    destruct (write_run _ _ _ _ _ _ _ _ Hok Hi Hrun) as (bs & Hok' & Hc & Hro & Hwo & _ & He).
    pose proof (length_contents pi') as Hlen. pose proof (po_count _ Hok') as Hmax.
    apply reschedule_lookup in Hu as [(_ & a & Hu & Ha)|(-> & j & -> & ->)].
    2:{ destruct He as (_ & _ & _ & ? & ? & _). by rewrite Hro. }
    destruct Ha as [-> Hwk]; [done|]. specialize (Hsl u cu Hu). destruct cu as [src' n' i'|n'].
    + destruct Hsl as [Hfull ?]. rewrite Hro. split; [|done].
      rewrite Hc, length_app in *. unfold PIPESIZE in *. lia.
    + assert (wk = []) as ->.
      { destruct r as [r|j]; [destruct He as [(_ & ? & _)|(_ & -> & _)]; [done|]|destruct He as (_ & -> & _)];
          exfalso; apply Hwk; by left. }
      by rewrite (write_refused _ _ _ _ _ _ _ HK Hok Hi Hrun).
  - destruct (read_run _ _ _ _ _ _ _ _ Hok Hrun) as (Hok' & Hc & Hro & Hwo & _ & Hstay & He).
    apply reschedule_lookup in Hu as [(_ & a & Hu & Ha)|(-> & j & -> & ->)].
    2:{ by destruct He as (-> & ? & ?). }
    destruct Ha as [-> Hwk]; [done|]. specialize (Hsl u cu Hu). destruct cu as [src' n' i'|n'].
    + destruct r as [r|j]; [|by destruct He as (-> & _)]. destruct He as [[_ ->]|Heq]; [done|].
      exfalso. apply Hwk. rewrite Heq. by left.
    + destruct Hsl as [? ?]. by rewrite Hstay.
  - destruct (close_run _ _ _ _ _ Hok Hrun) as (Hok' & Hc & Hwk & Hro & Hwo).
    apply wake_lookup in Hu as (a & Hu & Ha). destruct Ha as [-> Hnin]; [done|].
    specialize (Hsl u cu Hu). rewrite Hc, Hro, Hwo. rewrite Hwk in Hnin.
    destruct cu as [src' n' i'|n'], w; cbn in Hnin; try (exfalso; apply Hnin; by left).
    + destruct Hsl as [? ->]. done.
    + destruct Hsl as [? ->]. done.
  - apply lookup_insert_Some in Hu as [[_ Hu]|[_ Hu]]; [done|by apply (Hsl u cu)].
Qed.

(** C26: no wakeup is lost.  As long as [killed(pr)] does not change in the
    middle of a run, a process asleep in [pipewrite] finds the pipe full and
    its reading end open, and one asleep in [piperead] finds it empty and its
    writing end open; so a reader and a writer never both sleep. *)
Theorem pipe_no_lost_wakeup C junk s :
  length junk = Z.to_nat PIPESIZE → rtc (pstep steady C) (pipe_start junk) s →
  (∀ t src n i, ps_threads s !! t = Some (MkThread (Writing src n i) true) →
     length (contents (ps_pipe s)) = Z.to_nat PIPESIZE ∧ readopen (ps_pipe s) = true) ∧
  (∀ t n, ps_threads s !! t = Some (MkThread (Reading n) true) →
     contents (ps_pipe s) = [] ∧ writeopen (ps_pipe s) = true) ∧
  (∀ t src n i u m, ps_threads s !! t = Some (MkThread (Writing src n i) true) →
     ps_threads s !! u = Some (MkThread (Reading m) true) → False).
Proof.
  intros Hj Hs. assert (Hinv : queue_inv s ∧ sleepers_ok s).
  { revert Hs. assert (H0 : queue_inv (pipe_start junk) ∧ sleepers_ok (pipe_start junk)).
    { split; [by apply queue_start|]. by intros t c. }
    revert H0. generalize (pipe_start junk). intros s0 H0 Hs. revert H0.
    induction Hs as [|s1 s2 s3 H12 _ IH]; [done|]. intros [Hq Hsl]. apply IH.
    split; [by eapply queue_step|by eapply sleepers_step]. }
  destruct Hinv as [_ Hsl]. split; [|split].
  - intros t src n i Ht. by apply (Hsl t _ Ht).
  - intros t n Ht. by apply (Hsl t _ Ht).
  - intros t src n i u m Ht Hu. pose proof (Hsl _ _ Ht) as [Hf _]. pose proof (Hsl _ _ Hu) as [He _].
    by rewrite He in Hf.
Qed.

(** ** Runs *)

Definition junk0 : list Z := replicate 512 0.
(** A reader (process 2) finds the pipe empty and sleeps. *)
Definition reader_asleep : psys := MkSys (pipe_init junk0) {[ 2%nat := MkThread (Reading 5) true ]} [] [].

(** Any [copyout]. *)
Definition any_copy (cout : Z → Z → bool) : Prop := True.

Lemma reader_falls_asleep K : rtc (pstep K any_copy) (pipe_start junk0) reader_asleep.
Proof.
  eapply rtc_l; [apply (ps_call K _ _ _ _ _ 2 (Reading 5)); done|].
  eapply rtc_l; [eapply (ps_read K _ _ _ _ _ 2 5 false (λ _ _, true)); [reflexivity|exact I|vm_compute; reflexivity]|].
  apply rtc_refl.
Qed.

(** A writer sends three bytes; the reader takes two of them, and its second
    [copyout] fails. *)
Lemma pipe_fifo_witness :
  ∃ s, rtc (pstep (λ _, True) any_copy) (pipe_start junk0) s ∧ ps_sent s = [7; 8; 9] ∧ ps_recv s = [(7, true); (8, false)] ∧
    ps_sent s = (ps_recv s).*1 ++ contents (ps_pipe s).
Proof.
  assert (Hrun : ∃ s, rtc (pstep (λ _, True) any_copy) (pipe_start junk0) s ∧
    ps_sent s = [7; 8; 9] ∧ ps_recv s = [(7, true); (8, false)]).
  { eexists. split; [|split].
    - eapply rtc_l; [apply (ps_call _ _ _ _ _ _ 1 (Writing [7; 8; 9] 3 0)); reflexivity|].
      eapply rtc_l; [eapply (ps_write _ _ _ _ _ _ 1 [7; 8; 9] 3 0 (λ _, false));
        [reflexivity|exact I|vm_compute; reflexivity]|].
      eapply rtc_l; [apply (ps_call _ _ _ _ _ _ 2 (Reading 2)); [reflexivity|exact I]|].
      eapply rtc_l; [eapply (ps_read _ _ _ _ _ _ 2 2 false (λ i _, bool_decide (i = 0))); [reflexivity|exact I|vm_compute; reflexivity]|].
      apply rtc_refl.
    - vm_compute. reflexivity.
    - vm_compute. reflexivity. }
  destruct Hrun as (s & Hs & H1 & H2). exists s. split; [exact Hs|]. split; [exact H1|]. split; [exact H2|].
  apply (pipe_fifo any_copy junk0 s); [reflexivity|exact Hs].
Defined.

Lemma pipe_no_lost_wakeup_witness :
  ps_threads reader_asleep !! 2%nat = Some (MkThread (Reading 5) true) ∧
  contents (ps_pipe reader_asleep) = [] ∧ writeopen (ps_pipe reader_asleep) = true.
Proof.
  split; [reflexivity|].
  apply (proj1 (proj2 (pipe_no_lost_wakeup any_copy junk0 reader_asleep eq_refl (reader_falls_asleep steady))) 2%nat 5).
  reflexivity.
Defined.

(** [pipewrite] returns -1 without waking anyone when the writer is killed
    between two bytes.  From a reachable state with a reader asleep, a writer
    that is killed after its first byte leaves that byte in the pipe and the
    reader asleep, with both ends open. *)
Theorem killed_writer_strands_reader :
  ∃ s, rtc (pstep (λ _, True) any_copy) (pipe_start junk0) s ∧
    ps_threads s = {[ 2%nat := MkThread (Reading 5) true ]} ∧ contents (ps_pipe s) = [7] ∧
    writeopen (ps_pipe s) = true ∧ readopen (ps_pipe s) = true.
Proof.
  eexists. split; [|split; [|split; [|split]]].
  - etransitivity; [apply reader_falls_asleep|].
    eapply rtc_l; [apply (ps_call _ _ _ _ _ _ 1 (Writing [7; 8] 2 0)); reflexivity|].
    eapply rtc_l; [eapply (ps_write _ _ _ _ _ _ 1 [7; 8] 2 0 (λ i, bool_decide (i = 1)));
      [reflexivity|exact I|vm_compute; reflexivity]|].
    apply rtc_refl.
  - vm_compute. reflexivity.
  - vm_compute. reflexivity.
  - reflexivity.
  - reflexivity.
Qed.

(** [piperead] takes a byte out of the pipe before it knows that it can be
    copied to the reader: when [copyout] fails on the first byte the call
    returns 0 and that byte is gone. *)
Theorem piperead_drops_byte pi ch rest n cout killed :
  pipe_ok pi → contents pi = ch :: rest → 0 < n → cout 0 ch = false →
  ∃ pi', piperead killed cout n pi = (Return 0, [], [ChNwrite], pi') ∧ contents pi' = rest.
Proof.
  intros Hok Hc Hn Hout. unfold piperead.
  assert (nread pi ≠ nwrite pi) by (rewrite pipe_empty, Hc by done; done).
  rewrite bool_decide_false by done. cbn [andb].
  destruct (pop_ok pi Hok) as [_ Hpop]; [by rewrite Hc|]. rewrite Hc in Hpop. injection Hpop as Hf Hr.
  destruct (Z.to_nat n) as [|k] eqn:Hk; [lia|]. cbn [piperead_loop].
  rewrite bool_decide_false by done. rewrite <-Hf, Hout. eauto.
Qed.

Lemma piperead_drops_byte_witness :
  ∃ pi', piperead false (λ _ _, false) 4 (push 9 (push 7 (pipe_init junk0))) =
           (Return 0, [], [ChNwrite], pi') ∧ contents pi' = [9].
Proof.
  apply (piperead_drops_byte (push 9 (push 7 (pipe_init junk0))) 7 [9] 4 (λ _ _, false) false).
  - destruct (pipe_ok_init junk0 eq_refl) as [H0 _].
    destruct (push_ok 7 _ H0) as [H1 _]; [vm_compute; lia|].
    apply (push_ok 9 _ H1). vm_compute. lia.
  - vm_compute. reflexivity.
  - lia.
  - reflexivity.
Defined.

End Pipe.
