(* ===== verification/BlockIO.v ===== *)
(** The interface between the buffer cache and its clients.

    [BlockIO] lists the operations of [kernel/bio.c] that the file system and
    the log call, with the two accesses C code makes to a buffer it holds
    ([bp->data] read and written).  [BlockIOLaws] is what the cache promises
    to a client that writes every block it changed before releasing it: the
    client can think of a durable disk [d], of the buffers [H] it holds (each
    with its block number and current contents) and of the sequence [tr] of
    disk writes so far.  The buffer cache discharges these laws in [Bio]. *)

From S2P Require Import Prelude.

Local Open Scope Z_scope.

Definition BSIZE : nat := 1024.
Definition NBUF : nat := 30.

(** A disk block: [BSIZE] bytes. *)
Definition is_block (l : list Z) : Prop := length l = BSIZE ∧ bytes l.
Definition zero_block : list Z := replicate BSIZE 0.

(** Block numbers whose byte offset does not wrap in the driver's arithmetic. *)
Definition blockno_ok (b : Z) : Prop := 0 ≤ b < 2 ^ 31.

Class BlockIO (D : Type) := {
  bread : Z → Z → M D nat;
  buf_data : nat → M D (list Z);
  buf_store : nat → list Z → M D unit;
  bwrite : nat → M D unit;
  brelse : nat → M D unit;
}.

Abbreviation disk_map := (gmap Z (list Z)).
Abbreviation held_map := (gmap nat (Z * list Z)).
Abbreviation write_trace := (list (Z * list Z)).

(** [b] is not among the blocks held in [H]. *)
Definition not_held (H : held_map) (b : Z) : Prop :=
  ∀ h b' x, H !! h = Some (b', x) → b' ≠ b.

Class BlockIOLaws (D : Type) {BIO : BlockIO D} := {
  rep : Z → D → disk_map → held_map → write_trace → Prop;
  rep_block dev s d H tr b blk :
    rep dev s d H tr → d !! b = Some blk → is_block blk;
  bread_law dev s d H tr b blk :
    rep dev s d H tr → blockno_ok b → d !! b = Some blk → not_held H b →
    (size H < NBUF)%nat →
    wp (bread dev b) (λ h s', H !! h = None ∧ rep dev s' d (<[h := (b, blk)]> H) tr) s;
  bread_self_law dev s d H tr h b x :
    rep dev s d H tr → H !! h = Some (b, x) → ∃ s', bread dev b s = Sleep s';
  buf_data_law dev s d H tr h b x :
    rep dev s d H tr → H !! h = Some (b, x) → buf_data h s = Ok x s;
  buf_store_law dev s d H tr h b x y :
    rep dev s d H tr → H !! h = Some (b, x) → is_block y →
    wp (buf_store h y) (λ _ s', rep dev s' d (<[h := (b, y)]> H) tr) s;
  bwrite_law dev s d H tr h b x :
    rep dev s d H tr → H !! h = Some (b, x) →
    wp (bwrite h) (λ _ s', rep dev s' (<[b := x]> d) H (tr ++ [(b, x)])) s;
  brelse_law dev s d H tr h b x :
    rep dev s d H tr → H !! h = Some (b, x) → d !! b = Some x →
    wp (brelse h) (λ _ s', rep dev s' d (delete h H) tr) s;
}.

(** The log also pins buffers: a pinned block stays in the cache after it is
    released, with contents that need not be on the disk yet.  [P] maps the
    pinned blocks to the contents they had when last released. *)
Class PinIO (D : Type) := {
  buf_blockno : nat → M D Z;
  bpin : nat → M D unit;
  bunpin : nat → M D unit;
}.

Class PinIOLaws (D : Type) {BIO : BlockIO D} {PIO : PinIO D} := {
  prep : Z → D → disk_map → disk_map → held_map → write_trace → Prop;
  prep_block dev s d P H tr b blk :
    prep dev s d P H tr → (P ∪ d) !! b = Some blk → is_block blk;
  pbread_law dev s d P H tr b blk :
    prep dev s d P H tr → blockno_ok b → is_Some (d !! b) → (P ∪ d) !! b = Some blk →
    not_held H b → is_Some (P !! b) ∨ (size H + size P < NBUF)%nat →
    wp (bread dev b) (λ h s', H !! h = None ∧ prep dev s' d P (<[h := (b, blk)]> H) tr) s;
  pbread_full_law dev s d P H tr b :
    prep dev s d P H tr → P !! b = None → not_held H b →
    (∀ h b' x, H !! h = Some (b', x) → P !! b' = None) → (size H + size P)%nat = NBUF →
    bread dev b s = Panic "bget: no buffers";
  pbuf_data_law dev s d P H tr h b x :
    prep dev s d P H tr → H !! h = Some (b, x) → buf_data h s = Ok x s;
  pbuf_store_law dev s d P H tr h b x y :
    prep dev s d P H tr → H !! h = Some (b, x) → is_block y →
    wp (buf_store h y) (λ _ s', prep dev s' d P (<[h := (b, y)]> H) tr) s;
  pbwrite_law dev s d P H tr h b x :
    prep dev s d P H tr → H !! h = Some (b, x) →
    wp (bwrite h) (λ _ s', prep dev s' (<[b := x]> d) P H (tr ++ [(b, x)])) s;
  buf_blockno_law dev s d P H tr h b x :
    prep dev s d P H tr → H !! h = Some (b, x) → buf_blockno h s = Ok b s;
  bpin_law dev s d P H tr h b x :
    prep dev s d P H tr → H !! h = Some (b, x) → P !! b = None →
    wp (bpin h) (λ _ s', prep dev s' d (<[b := x]> P) H tr) s;
  bunpin_law dev s d P H tr h b x :
    prep dev s d P H tr → H !! h = Some (b, x) → is_Some (P !! b) →
    wp (bunpin h) (λ _ s', prep dev s' d (delete b P) H tr) s;
  pbrelse_law dev s d P H tr h b x :
    prep dev s d P H tr → H !! h = Some (b, x) → is_Some (P !! b) ∨ d !! b = Some x →
    wp (brelse h) (λ _ s', prep dev s' d (alter (λ _, x) b P) (delete h H) tr) s;
}.

Lemma is_block_length l : is_block l → length l = BSIZE.
Proof. by intros []. Qed.
Lemma is_block_bytes l : is_block l → bytes l.
Proof. by intros []. Qed.
Lemma is_block_splice off bs l :
  is_block l → bytes bs → (off + length bs ≤ BSIZE)%nat → is_block (splice off bs l).
Proof.
  intros [Hl Hb] ? ?. split; [|by apply bytes_splice].
  by rewrite length_splice by lia.
Qed.
Lemma is_block_wr n off z l : is_block l → (off + n ≤ BSIZE)%nat → is_block (wr n off z l).
Proof. intros. apply is_block_splice; [done|apply bytes_le_to|by rewrite length_le_to]. Qed.
Lemma is_block_zero : is_block zero_block.
Proof. split; [apply length_replicate|apply bytes_replicate; wrap_lia]. Qed.

#[export] Hint Resolve is_block_length is_block_bytes is_block_splice is_block_wr is_block_zero : blk.

Lemma not_held_empty b : not_held ∅ b.
Proof. intros h b' x Hx. by rewrite lookup_empty in Hx. Qed.

Lemma not_held_insert (H : held_map) h b x b' :
  not_held H b' → b ≠ b' → not_held (<[h := (b, x)]> H) b'.
Proof. intros Hn Hne h' c y. rewrite lookup_insert. case_decide; [congruence|by apply Hn]. Qed.

#[export] Hint Resolve not_held_empty not_held_insert : blk.

(** * Whole-block idioms

    Most of the file system uses a buffer in one of two ways: read a block and
    let go of it, or change a block, write it and let go of it. *)

Section idioms.
Context {D : Type} {BIO : BlockIO D} {LAWS : BlockIOLaws D}.

(** [bp = bread(dev, b); x = *bp->data; brelse(bp);] *)
Definition read_block (dev b : Z) : M D (list Z) :=
  bp ← bread dev b; x ← buf_data bp; brelse bp;; mret x.

(** [bp = bread(dev, b); *bp->data = f( *bp->data); bwrite(bp); brelse(bp);] *)
Definition update_block (dev b : Z) (f : list Z → list Z) : M D unit :=
  bp ← bread dev b; x ← buf_data bp; buf_store bp (f x);; bwrite bp;; brelse bp.

Lemma wp_buf_data dev s d H0 tr h b x (Q : list Z → D → Prop) :
  rep dev s d H0 tr → H0 !! h = Some (b, x) → Q x s → wp (buf_data h) Q s.
Proof. intros Hr Hh HQ. unfold wp. by rewrite (buf_data_law _ _ _ _ _ _ _ _ Hr Hh). Qed.

(** The laws in the form that steps through a body. *)
Lemma wp_bread dev s d H0 tr b blk (Q : nat → D → Prop) :
  rep dev s d H0 tr → blockno_ok b → d !! b = Some blk → not_held H0 b → (size H0 < NBUF)%nat →
  (∀ h s', H0 !! h = None → rep dev s' d (<[h := (b, blk)]> H0) tr → Q h s') →
  wp (bread dev b) Q s.
Proof. intros. eapply wp_mono; [by eapply bread_law|]. intros h s' []; auto. Qed.

Lemma wp_buf_store dev s d H0 tr h b x y (Q : unit → D → Prop) :
  rep dev s d H0 tr → H0 !! h = Some (b, x) → is_block y →
  (∀ s', rep dev s' d (<[h := (b, y)]> H0) tr → Q tt s') → wp (buf_store h y) Q s.
Proof. intros. eapply wp_mono; [by eapply buf_store_law|]. intros [] s'; auto. Qed.

Lemma wp_bwrite dev s d H0 tr h b x (Q : unit → D → Prop) :
  rep dev s d H0 tr → H0 !! h = Some (b, x) →
  (∀ s', rep dev s' (<[b := x]> d) H0 (tr ++ [(b, x)]) → Q tt s') → wp (bwrite h) Q s.
Proof. intros. eapply wp_mono; [by eapply bwrite_law|]. intros [] s'; auto. Qed.

Lemma wp_brelse dev s d H0 tr h b x (Q : unit → D → Prop) :
  rep dev s d H0 tr → H0 !! h = Some (b, x) → d !! b = Some x →
  (∀ s', rep dev s' d (delete h H0) tr → Q tt s') → wp (brelse h) Q s.
Proof. intros. eapply wp_mono; [by eapply brelse_law|]. intros [] s'; auto. Qed.

Lemma read_block_spec dev s d H0 tr b blk :
  rep dev s d H0 tr → blockno_ok b → d !! b = Some blk → not_held H0 b →
  (size H0 < NBUF)%nat →
  wp (read_block dev b) (λ x s', x = blk ∧ rep dev s' d H0 tr) s.
Proof.
  intros Hr Hb Hd Hn Hs. unfold read_block.
  apply wp_bind. eapply wp_bread; [done..|]. intros h s1 Hh Hr1.
  apply wp_bind. eapply wp_buf_data; [done|by rewrite lookup_insert_eq|].
  apply wp_bind. eapply wp_brelse; [done|by rewrite lookup_insert_eq|done|].
  intros s2 Hr2. apply wp_ret. split; [done|]. by rewrite delete_insert_id in Hr2.
Qed.

Lemma update_block_spec dev s d H0 tr b blk f :
  rep dev s d H0 tr → blockno_ok b → d !! b = Some blk → not_held H0 b →
  (size H0 < NBUF)%nat → is_block (f blk) →
  wp (update_block dev b f)
     (λ _ s', rep dev s' (<[b := f blk]> d) H0 (tr ++ [(b, f blk)])) s.
Proof.
  intros Hr Hb Hd Hn Hs Hf. unfold update_block.
  apply wp_bind. eapply wp_bread; [done..|]. intros h s1 Hh Hr1.
  apply wp_bind. eapply wp_buf_data; [done|by rewrite lookup_insert_eq|].
  apply wp_bind. eapply wp_buf_store; [done|by rewrite lookup_insert_eq|done|].
  intros s2 Hr2. rewrite insert_insert_eq in Hr2.
  apply wp_bind. eapply wp_bwrite; [done|by rewrite lookup_insert_eq|]. intros s3 Hr3.
  eapply wp_brelse; [done|by rewrite lookup_insert_eq|by rewrite lookup_insert_eq|].
  intros s4 Hr4. by rewrite delete_insert_id in Hr4.
Qed.
End idioms.
