(* ===== verification/Bio.v ===== *)
(** The buffer cache: [kernel/bio.c], over a block device.

    [bcache.buf] is an array of buffers; the LRU list through [prev]/[next]
    is kept as two pointer maps indexed by buffer, where the index [head]
    stands for [&bcache.head].  [virtio_disk_rw] is the completed transfer of
    one block, which [Virtio] implements with the device. *)

From S2P Require Import Prelude Sleeplock BlockIO.

Local Open Scope Z_scope.

Module Bio.

Record buf := MkBuf {
  b_valid : bool;
  b_disk : bool;
  b_dev : Z;
  b_blockno : Z;
  b_lock : sleeplock;
  b_refcnt : Z;
  b_data : list Z;
}.

Definition set_valid (v : bool) (b : buf) : buf :=
  MkBuf v (b_disk b) (b_dev b) (b_blockno b) (b_lock b) (b_refcnt b) (b_data b).
Definition set_id (dev blockno : Z) (b : buf) : buf :=
  MkBuf (b_valid b) (b_disk b) dev blockno (b_lock b) (b_refcnt b) (b_data b).
Definition set_lock (lk : sleeplock) (b : buf) : buf :=
  MkBuf (b_valid b) (b_disk b) (b_dev b) (b_blockno b) lk (b_refcnt b) (b_data b).
Definition set_refcnt (r : Z) (b : buf) : buf :=
  MkBuf (b_valid b) (b_disk b) (b_dev b) (b_blockno b) (b_lock b) r (b_data b).
Definition set_data (x : list Z) (b : buf) : buf :=
  MkBuf (b_valid b) (b_disk b) (b_dev b) (b_blockno b) (b_lock b) (b_refcnt b) x.

(** The cache, the disk behind it, the history of disk writes and the pid of
    the running process. *)
Record bio := MkBio {
  bufs : list buf;
  nxt : gmap nat nat;
  prv : gmap nat nat;
  disk : gmap Z (list Z);
  trace : list (Z * list Z);
  mypid : Z;
}.

Definition with_bufs (l : list buf) (s : bio) : bio :=
  MkBio l (nxt s) (prv s) (disk s) (trace s) (mypid s).
Definition with_nxt (m : gmap nat nat) (s : bio) : bio :=
  MkBio (bufs s) m (prv s) (disk s) (trace s) (mypid s).
Definition with_prv (m : gmap nat nat) (s : bio) : bio :=
  MkBio (bufs s) (nxt s) m (disk s) (trace s) (mypid s).
Definition with_disk (d : gmap Z (list Z)) (s : bio) : bio :=
  MkBio (bufs s) (nxt s) (prv s) d (trace s) (mypid s).
Definition with_trace (t : list (Z * list Z)) (s : bio) : bio :=
  MkBio (bufs s) (nxt s) (prv s) (disk s) t (mypid s).

Definition head : nat := NBUF.

Definition rdbuf (i : nat) : M bio buf := s ← get; of_option (bufs s !! i).
Definition upd (i : nat) (f : buf → buf) : M bio unit :=
  b ← rdbuf i; modify (λ s, with_bufs (<[i := f b]> (bufs s)) s).
(** [p->next], [p->prev] and assignments to them. *)
Definition next (i : nat) : M bio nat := gets (λ s, nxt s !!! i).
Definition prev (i : nat) : M bio nat := gets (λ s, prv s !!! i).
Definition set_next (i j : nat) : M bio unit := modify (λ s, with_nxt (<[i := j]> (nxt s)) s).
Definition set_prev (i j : nat) : M bio unit := modify (λ s, with_prv (<[i := j]> (prv s)) s).

(** An operation on the sleep lock of buffer [i]. *)
Definition on_lock (i : nat) (m : M sleeplock unit) : M bio unit :=
  b ← rdbuf i;
  zoom (λ _, b_lock b) (λ lk s, with_bufs (<[i := set_lock lk b]> (bufs s)) s) m.

(** ** Initialisation *)

(** The body of [binit]'s loop on buffer [b]. *)
Definition binit_one (b : nat) : M bio unit :=
  n ← next head; set_next b n;;
  set_prev b head;;
  upd b (set_lock initsleeplock);;
  n ← next head; set_prev n b;;
  set_next head b.
Fixpoint binit_loop (bs : list nat) : M bio unit :=
  match bs with
  | [] => mret tt
  | b :: bs => binit_one b;; binit_loop bs
  end.
Definition binit : M bio unit :=
  set_prev head head;; set_next head head;; binit_loop (seq 0 NBUF).

(** ** The disk *)

(** The block the request is for: [sector = b->blockno * (BSIZE / 512)] is
    computed in 32 bits, and a block is two sectors. *)
Definition disk_block (blockno : Z) : Z := u32 (blockno * 2) / 2.

(** A transfer outside the disk makes the device report an error status, on
    which [virtio_disk_intr] panics. *)
Definition virtio_disk_rw (i : nat) (write : bool) : M bio unit :=
  b ← rdbuf i;
  d ← gets disk;
  let blk := disk_block (b_blockno b) in
  match d !! blk with
  | None => panic "virtio_disk_intr status"
  | Some x =>
      if write
      then modify (λ s, with_trace (trace s ++ [(blk, b_data b)])
                          (with_disk (<[blk := b_data b]> d) s))
      else upd i (set_data x)
  end.

(** ** Lookup and replacement *)

(** The list traversals of [bget]: from buffer [b], following [step], to the
    first buffer that satisfies [hit], or to the list head. *)
Fixpoint scan (step : nat → M bio nat) (hit : buf → bool) (fuel : nat) (b : nat) :
    M bio (option nat) :=
  if bool_decide (b = head) then mret None else
  match fuel with
  | O => nofuel
  | S fuel =>
      x ← rdbuf b;
      if hit x then mret (Some b) else b' ← step b; scan step hit fuel b'
  end.

Definition bget (dev blockno : Z) : M bio nat :=
  pid ← gets mypid;
  b ← next head;
  r ← scan next (λ b, bool_decide (b_dev b = dev) && bool_decide (b_blockno b = blockno)) NBUF b;
  match r with
  | Some b =>
      upd b (λ x, set_refcnt (u32 (b_refcnt x + 1)) x);;
      on_lock b (acquiresleep pid);;
      mret b
  | None =>
      b ← prev head;
      r ← scan prev (λ b, bool_decide (b_refcnt b = 0)) NBUF b;
      match r with
      | Some b =>
          upd b (λ x, set_refcnt 1 (set_valid false (set_id dev blockno x)));;
          on_lock b (acquiresleep pid);;
          mret b
      | None => panic "bget: no buffers"
      end
  end.

Definition bread (dev blockno : Z) : M bio nat :=
  b ← bget dev blockno;
  x ← rdbuf b;
  when (negb (b_valid x)) (virtio_disk_rw b false;; upd b (set_valid true));;
  mret b.

Definition bwrite (b : nat) : M bio unit :=
  pid ← gets mypid; x ← rdbuf b;
  if negb (holdingsleep pid (b_lock x)) then panic "bwrite" else
  virtio_disk_rw b true.

Definition brelse (b : nat) : M bio unit :=
  pid ← gets mypid; x ← rdbuf b;
  if negb (holdingsleep pid (b_lock x)) then panic "brelse" else
  on_lock b releasesleep;;
  upd b (λ x, set_refcnt (u32 (b_refcnt x - 1)) x);;
  x ← rdbuf b;
  when (bool_decide (b_refcnt x = 0))
    (n ← next b; p ← prev b; set_prev n p;;
     p ← prev b; n ← next b; set_next p n;;
     n ← next head; set_next b n;;
     set_prev b head;;
     n ← next head; set_prev n b;;
     set_next head b).

Definition bpin (b : nat) : M bio unit := upd b (λ x, set_refcnt (u32 (b_refcnt x + 1)) x).
Definition bunpin (b : nat) : M bio unit := upd b (λ x, set_refcnt (u32 (b_refcnt x - 1)) x).

(** [b->data], read and assigned by the holder of the buffer, and [b->blockno]. *)
Definition buf_data (b : nat) : M bio (list Z) := x ← rdbuf b; mret (b_data x).
Definition buf_blockno (b : nat) : M bio Z := x ← rdbuf b; mret (b_blockno x).
Definition buf_store (b : nat) (y : list Z) : M bio unit := upd b (set_data y).

#[export] Instance bio_blockio : BlockIO bio := {|
  BlockIO.bread := bread;
  BlockIO.buf_data := buf_data;
  BlockIO.buf_store := buf_store;
  BlockIO.bwrite := bwrite;
  BlockIO.brelse := brelse;
|}.

(** The cache at boot: zeroed static memory, linked by [binit]. *)
Definition buf0 : buf := MkBuf false false 0 0 initsleeplock 0 zero_block.
Definition bio_bss (d : gmap Z (list Z)) (pid : Z) : bio :=
  MkBio (replicate NBUF buf0) ∅ ∅ d [] pid.
Definition run_state {S A} (o : outcome S A) (dflt : S) : S :=
  match o with Ok _ s => s | _ => dflt end.
Definition bio_boot (d : gmap Z (list Z)) (pid : Z) : bio :=
  run_state (binit (bio_bss d pid)) (bio_bss d pid).

(** * The LRU ring *)

(** [seg nx pv a l b]: going forward from [a] visits [l] and then [b], and the
    back pointers agree. *)
Fixpoint seg (nx pv : nat → nat) (a : nat) (l : list nat) (b : nat) : Prop :=
  match l with
  | [] => nx a = b ∧ pv b = a
  | x :: l => nx a = x ∧ pv x = a ∧ seg nx pv x l b
  end.

Lemma seg_ext nx pv nx' pv' a l b :
  (∀ i, i = a ∨ i ∈ l → nx' i = nx i) → (∀ i, i ∈ l ∨ i = b → pv' i = pv i) →
  seg nx pv a l b → seg nx' pv' a l b.
Proof.
  revert a. induction l as [|x l IH]; intros a Hn Hp; simpl.
  - intros [? ?]. rewrite Hn, Hp by auto. done.
  - intros (? & ? & ?). rewrite Hn, Hp by (auto; left; by left). split_and!; [done..|].
    apply IH; [| |done]; intros i Hi; [apply Hn|apply Hp]; rewrite elem_of_cons; tauto.
Qed.

Lemma seg_app nx pv a l1 x l2 b :
  seg nx pv a (l1 ++ x :: l2) b ↔ seg nx pv a l1 x ∧ seg nx pv x l2 b.
Proof.
  revert a. induction l1 as [|y l1 IH]; intros a; simpl; [tauto|]. rewrite IH. tauto.
Qed.

Lemma seg_rev nx pv a l b : seg nx pv a l b → seg pv nx b (rev l) a.
Proof.
  revert a. induction l as [|x l IH]; intros a; simpl; [tauto|].
  intros (? & ? & ?). apply seg_app. simpl. auto.
Qed.

Lemma seg_prev_in nx pv a l b : seg nx pv a l b → pv b = a ∨ pv b ∈ l.
Proof.
  revert a. induction l as [|x l IH]; intros a; simpl; [tauto|].
  intros (_ & _ & H). rewrite elem_of_cons. destruct (IH _ H); auto.
Qed.

Lemma seg_next_in nx pv a l b : seg nx pv a l b → nx a = b ∨ nx a ∈ l.
Proof. destruct l; simpl; [tauto|]. rewrite elem_of_cons. tauto. Qed.

Implicit Types nx pv : gmap nat nat.

(** Taking [x] out of the ring. *)
Lemma seg_unlink nx pv a l1 x l2 b :
  NoDup (l1 ++ x :: l2) → a ∉ l1 ++ x :: l2 → b ∉ l1 ++ x :: l2 →
  seg (λ i, nx !!! i) (λ i, pv !!! i) a (l1 ++ x :: l2) b →
  seg (λ i, <[pv !!! x := nx !!! x]> nx !!! i) (λ i, <[nx !!! x := pv !!! x]> pv !!! i)
      a (l1 ++ l2) b.
Proof.
  revert a. induction l1 as [|c l1 IH]; intros a Hnd Ha Hb; cbn [seg app].
  - intros (Hax & Hxa & Hseg). rewrite Hxa.
    apply NoDup_cons in Hnd as [Hx Hnd]. cbn [app] in Ha, Hb.
    destruct l2 as [|y l2]; cbn [seg app] in *.
    + destruct Hseg as [-> _]. by rewrite !lookup_total_insert_eq.
    + destruct Hseg as (-> & Hyx & Hseg). rewrite !lookup_total_insert_eq.
      split_and!; [done..|]. eapply seg_ext; [..|exact Hseg]; cbv beta; intros i Hi.
      * rewrite lookup_total_insert_ne; [done|]. intros ->. apply Ha.
        rewrite !elem_of_cons. tauto.
      * rewrite lookup_total_insert_ne; [done|]. intros <-. apply NoDup_cons in Hnd as [Hy _].
        destruct Hi as [?|<-]; [done|]. apply Hb. rewrite !elem_of_cons. tauto.
  - intros (Hac & Hca & Hseg). apply NoDup_cons in Hnd as [Hc Hnd].
    pose proof Hseg as [Hs1 Hs2]%seg_app.
    apply seg_prev_in in Hs1. apply seg_next_in in Hs2. cbn [app] in Ha, Hb.
    rewrite not_elem_of_cons, not_elem_of_app, not_elem_of_cons in Ha, Hb.
    rewrite not_elem_of_app, not_elem_of_cons in Hc.
    split_and!.
    + rewrite lookup_total_insert_ne; [done|]. intros Heq. rewrite Heq in Hs1.
      destruct Hs1 as [<-|?]; tauto.
    + rewrite lookup_total_insert_ne; [done|]. intros Heq. rewrite Heq in Hs2.
      destruct Hs2 as [->|?]; tauto.
    + apply IH; [done| | |done]; rewrite not_elem_of_app, not_elem_of_cons; tauto.
Qed.

(** Putting [x] at the front of the ring. *)
Lemma seg_push nx pv h l x :
  NoDup l → h ∉ l → x ∉ l → x ≠ h →
  seg (λ i, nx !!! i) (λ i, pv !!! i) h l h →
  seg (λ i, <[h := x]> (<[x := nx !!! h]> nx) !!! i)
      (λ i, <[nx !!! h := x]> (<[x := h]> pv) !!! i) h (x :: l) h.
Proof.
  intros Hnd Hh Hx Hxh Hseg. cbn [seg]. rewrite lookup_total_insert_eq.
  assert (Hnx : nx !!! h ≠ x).
  { apply seg_next_in in Hseg. intros Heq. rewrite Heq in Hseg. destruct Hseg as [?|?]; auto. }
  split_and!; [done|by rewrite lookup_total_insert_ne, lookup_total_insert_eq|].
  destruct l as [|y l]; cbn [seg] in *.
  - destruct Hseg as [Hn Hp]. rewrite Hn in *.
    rewrite lookup_total_insert_ne, !lookup_total_insert_eq by done. done.
  - destruct Hseg as (-> & Hyh & Hseg).
    rewrite lookup_total_insert_ne, !lookup_total_insert_eq by done.
    apply NoDup_cons in Hnd as [Hy _]. rewrite not_elem_of_cons in Hh, Hx.
    split_and!; [done..|]. eapply seg_ext; [..|exact Hseg]; cbv beta; intros i Hi.
    + rewrite !lookup_total_insert_ne; [done|..]; intros <-; destruct Hi; intuition congruence.
    + rewrite !lookup_total_insert_ne; [done|..]; intros <-; destruct Hi; intuition congruence.
Qed.

(** The LRU list: [order s l] says the ring lists the buffers [l], most
    recently released first, each of the [NBUF] buffers once. *)
Definition order (s : bio) (l : list nat) : Prop :=
  length (bufs s) = NBUF ∧ NoDup l ∧ (∀ i, i ∈ l ↔ (i < NBUF)%nat) ∧
  seg (λ i, nxt s !!! i) (λ i, prv s !!! i) head l head.

Lemma order_lookup s l i : order s l → i ∈ l → is_Some (bufs s !! i).
Proof. intros (Hlen & _ & Hin & _) Hi. apply lookup_lt_is_Some. rewrite Hlen. by apply Hin. Qed.

Lemma order_head s l : order s l → head ∉ l.
Proof. intros (_ & _ & Hin & _) Hh. apply Hin in Hh. unfold head in Hh. lia. Qed.

(** * Operations on the arrays *)

Lemma wp_rdbuf i x (Q : buf → bio → Prop) s : bufs s !! i = Some x → Q x s → wp (rdbuf i) Q s.
Proof. intros Hi HQ. unfold wp, rdbuf, mbind, M_bind, get. by rewrite Hi. Qed.

Lemma wp_upd i f x (Q : unit → bio → Prop) s :
  bufs s !! i = Some x → Q tt (with_bufs (<[i := f x]> (bufs s)) s) → wp (upd i f) Q s.
Proof. intros Hi HQ. unfold upd. apply wp_bind. eapply wp_rdbuf; [done|]. by apply wp_modify. Qed.

Lemma upd_ok i f x s :
  bufs s !! i = Some x → upd i f s = Ok tt (with_bufs (<[i := f x]> (bufs s)) s).
Proof. intros Hi. unfold upd, rdbuf, mbind, M_bind, get. by rewrite Hi. Qed.

(** Taking the lock of a buffer that was just given the contents [x]. *)
Lemma acquire_run i x pid s :
  (i < length (bufs s))%nat →
  on_lock i (acquiresleep pid) (with_bufs (<[i := x]> (bufs s)) s) =
    if sl_locked (b_lock x)
    then Sleep (with_bufs (<[i := set_lock (b_lock x) x]> (bufs s)) s)
    else Ok tt (with_bufs (<[i := set_lock (MkSleeplock true pid) x]> (bufs s)) s).
Proof.
  intros Hi. unfold on_lock, rdbuf, mbind, M_bind, get. cbn [bufs with_bufs].
  rewrite list_lookup_insert_eq by done. unfold zoom, acquiresleep, mbind, M_bind, get. simpl.
  destruct (sl_locked (b_lock x)); simpl; by rewrite list_insert_insert_eq.
Qed.

Lemma order_with_bufs s l bs :
  length bs = length (bufs s) → order s l → order (with_bufs bs s) l.
Proof. intros Hl (H1 & H2 & H3 & H4). split_and!; [by rewrite <-H1|done..]. Qed.

Lemma order_upd s l i x : order s l → order (with_bufs (<[i := x]> (bufs s)) s) l.
Proof. apply order_with_bufs, length_insert. Qed.

(** What a list traversal returns: the first hit, if any. *)
Definition first_hit (s : bio) (hit : buf → bool) (l : list nat) (r : option nat) : Prop :=
  match r with
  | Some i => ∃ l1 l2 x, l = l1 ++ i :: l2 ∧ bufs s !! i = Some x ∧ hit x = true ∧
                (∀ j y, j ∈ l1 → bufs s !! j = Some y → hit y = false)
  | None => ∀ j y, j ∈ l → bufs s !! j = Some y → hit y = false
  end.

Lemma scan_spec (step : nat → M bio nat) (nx pv : nat → nat) hit fuel a l s :
  (∀ i, step i s = Ok (nx i) s) → seg nx pv a l head → head ∉ l →
  (∀ i, i ∈ l → is_Some (bufs s !! i)) → (length l ≤ fuel)%nat →
  wp (scan step hit fuel (nx a)) (λ r s', s' = s ∧ first_hit s hit l r) s.
Proof.
  intros Hstep. revert a l. induction fuel as [|fuel IH]; intros a l Hseg Hh Hl Hf.
  - destruct l; simpl in Hf; [|lia]. destruct Hseg as [-> _]. cbn [scan].
    rewrite bool_decide_true by done. apply wp_ret. split; [done|].
    intros j y Hj. by apply elem_of_nil in Hj.
  - destruct l as [|b l]; cbn [seg] in Hseg; cbn [scan].
    { destruct Hseg as [-> _]. rewrite bool_decide_true by done. apply wp_ret.
      split; [done|]. intros j y Hj. by apply elem_of_nil in Hj. }
    destruct Hseg as (-> & _ & Hseg). apply not_elem_of_cons in Hh as [Hbh Hh].
    rewrite bool_decide_false by done.
    destruct (Hl b) as [x Hx]; [by left|]. apply wp_bind. eapply wp_rdbuf; [done|].
    destruct (hit x) eqn:Hhit.
    { apply wp_ret. split; [done|]. exists [], l, x. split_and!; [done..|].
      intros j y Hj. by apply elem_of_nil in Hj. }
    apply wp_bind. unfold wp at 1. rewrite Hstep. eapply wp_mono.
    { apply (IH b l); [done|done|by intros; apply Hl; right|simpl in Hf; lia]. }
    intros r s' [-> Hr]. split; [done|]. destruct r as [i|]; simpl in *.
    + destruct Hr as (l1 & l2 & y & -> & Hy & Hhy & Hall). exists (b :: l1), l2, y.
      split_and!; [done..|]. intros j z [->|Hj]%elem_of_cons Hz; [congruence|eauto].
    + intros j z [->|Hj]%elem_of_cons Hz; [congruence|eauto].
Qed.

Lemma elem_of_rev_iff {A} (x : A) l : x ∈ rev l ↔ x ∈ l.
Proof. by rewrite !list_elem_of_In, <-in_rev. Qed.

Lemma order_length s l : order s l → length l = NBUF.
Proof.
  intros (_ & Hnd & Hin & _). apply Permutation_length with (l' := seq 0 NBUF).
  apply NoDup_Permutation; [done|apply NoDup_seq|].
  intros i. rewrite Hin, elem_of_seq. lia.
Qed.

Lemma scan_next_spec s l hit :
  order s l → wp (scan next hit NBUF (nxt s !!! head))
                 (λ r s', s' = s ∧ first_hit s hit l r) s.
Proof.
  intros Ho. pose proof Ho as (_ & _ & _ & Hseg).
  apply (scan_spec next (λ i, nxt s !!! i) (λ i, prv s !!! i) hit NBUF head l s);
    [done|done|by eapply order_head|intros; by eapply order_lookup|].
  by rewrite (order_length _ _ Ho).
Qed.

Lemma scan_prev_spec s l hit :
  order s l → wp (scan prev hit NBUF (prv s !!! head))
                 (λ r s', s' = s ∧ first_hit s hit (rev l) r) s.
Proof.
  intros Ho. pose proof Ho as (_ & _ & _ & Hseg%seg_rev).
  apply (scan_spec prev (λ i, prv s !!! i) (λ i, nxt s !!! i) hit NBUF head (rev l) s);
    [done|done| |intros i Hi|].
  - rewrite elem_of_rev_iff. by eapply order_head.
  - eapply order_lookup; [done|]. by apply elem_of_rev_iff.
  - by rewrite length_rev, (order_length _ _ Ho).
Qed.

(** * The cache operations *)

Definition is_block_of (dev blockno : Z) (x : buf) : Prop :=
  b_dev x = dev ∧ b_blockno x = blockno.

Lemma wp_acquire i x pid (Q : unit → bio → Prop) s :
  bufs s !! i = Some x → sl_locked (b_lock x) = false →
  Q tt (with_bufs (<[i := set_lock (MkSleeplock true pid) x]> (bufs s)) s) →
  wp (on_lock i (acquiresleep pid)) Q s.
Proof.
  intros Hi Hl HQ. unfold on_lock. apply wp_bind. eapply wp_rdbuf; [done|].
  apply wp_zoom. unfold acquiresleep. apply wp_bind, wp_get. by rewrite Hl.
Qed.

(** First lookup of [bget], when some buffer already holds the block. *)
Lemma bget_lookup_hit s l dev blockno i x :
  order s l → bufs s !! i = Some x → is_block_of dev blockno x →
  (∀ j y, bufs s !! j = Some y → is_block_of dev blockno y → j = i) →
  wp (scan next (λ b, bool_decide (b_dev b = dev) && bool_decide (b_blockno b = blockno))
        NBUF (nxt s !!! head)) (λ r s', r = Some i ∧ s' = s) s.
Proof.
  intros Ho Hi [Hd Hb] Huniq. eapply wp_mono; [by apply scan_next_spec|].
  intros r s' [-> Hr]. split; [|done]. destruct r as [j|]; simpl in Hr.
  - destruct Hr as (l1 & l2 & y & _ & Hy & [?%bool_decide_eq_true ?%bool_decide_eq_true]%andb_prop & _).
    f_equal. by eapply Huniq.
  - pose proof Ho as (Hlen & _ & Hin & _).
    assert (Hil : i ∈ l) by (apply Hin; rewrite <-Hlen; by eapply lookup_lt_Some).
    specialize (Hr i x Hil Hi). rewrite !bool_decide_true in Hr by done. done.
Qed.

Lemma bget_lookup_miss s l dev blockno :
  order s l → (∀ j y, bufs s !! j = Some y → ¬ is_block_of dev blockno y) →
  wp (scan next (λ b, bool_decide (b_dev b = dev) && bool_decide (b_blockno b = blockno))
        NBUF (nxt s !!! head)) (λ r s', r = None ∧ s' = s) s.
Proof.
  intros Ho Hmiss. eapply wp_mono; [by apply scan_next_spec|].
  intros r s' [-> Hr]. split; [|done]. destruct r as [j|]; [|done]. simpl in Hr.
  destruct Hr as (l1 & l2 & y & _ & Hy & [?%bool_decide_eq_true ?%bool_decide_eq_true]%andb_prop & _).
  exfalso. by eapply Hmiss.
Qed.

Lemma bget_hit s l dev blockno i x :
  order s l → bufs s !! i = Some x → is_block_of dev blockno x →
  (∀ j y, bufs s !! j = Some y → is_block_of dev blockno y → j = i) →
  bget dev blockno s =
    let x1 := set_refcnt (u32 (b_refcnt x + 1)) x in
    let s1 := with_bufs (<[i := x1]> (bufs s)) s in
    if sl_locked (b_lock x) then Sleep (with_bufs (<[i := set_lock (b_lock x) x1]> (bufs s)) s)
    else Ok i (with_bufs (<[i := set_lock (MkSleeplock true (mypid s)) x1]> (bufs s)) s).
Proof.
  intros Ho Hi Hid Huniq.
  pose proof (bget_lookup_hit s l dev blockno i x Ho Hi Hid Huniq) as Hw.
  apply wp_ok in Hw as (r & s' & Hscan & -> & ->).
  assert (i < length (bufs s))%nat by (by eapply lookup_lt_Some).
  unfold bget. do 3 run. erewrite bind_ok by (by apply upd_ok).
  unfold mbind, M_bind. rewrite acquire_run by done. cbn [b_lock set_refcnt].
  by destruct (sl_locked (b_lock x)).
Qed.

(** The recycled buffer is the unused one nearest the tail of the list. *)
Definition lru_victim (s : bio) (l : list nat) (i : nat) : Prop :=
  ∃ l1 l2 x, l = l1 ++ i :: l2 ∧ bufs s !! i = Some x ∧ b_refcnt x = 0 ∧
    ∀ j y, j ∈ l2 → bufs s !! j = Some y → b_refcnt y ≠ 0.

Lemma bget_miss s l dev blockno :
  order s l → (∀ j y, bufs s !! j = Some y → ¬ is_block_of dev blockno y) →
  (∃ j y, bufs s !! j = Some y ∧ b_refcnt y = 0) →
  (∀ j y, bufs s !! j = Some y → b_refcnt y = 0 → sl_locked (b_lock y) = false) →
  ∃ i x, lru_victim s l i ∧ bufs s !! i = Some x ∧ b_refcnt x = 0 ∧
    bget dev blockno s = Ok i (with_bufs
      (<[i := set_lock (MkSleeplock true (mypid s))
                (set_refcnt 1 (set_valid false (set_id dev blockno x)))]> (bufs s)) s).
Proof.
  intros Ho Hmiss (j & y & Hj & Hy0) Hunl.
  pose proof (bget_lookup_miss s l dev blockno Ho Hmiss) as Hw.
  apply wp_ok in Hw as (r & s' & Hscan & -> & ->).
  pose proof (scan_prev_spec s l (λ b, bool_decide (b_refcnt b = 0)) Ho) as Hw.
  apply wp_ok in Hw as (r & s' & Hscan' & -> & Hr).
  pose proof Ho as (Hlen & _ & Hin & _).
  destruct r as [i|]; simpl in Hr.
  - destruct Hr as (l1 & l2 & x & Hl & Hx & Hx0%bool_decide_eq_true & Hall).
    assert (i < length (bufs s))%nat by (by eapply lookup_lt_Some).
    exists i, x. split_and!; [|done|done|].
    + exists (rev l2), (rev l1), x. split_and!; [|done|done|].
      * rewrite <-(rev_involutive l), Hl, rev_app_distr. simpl. by rewrite <-app_assoc.
      * intros k z Hk Hz. rewrite elem_of_rev_iff in Hk. specialize (Hall k z Hk Hz).
        by apply bool_decide_eq_false in Hall.
    + unfold bget. do 5 run. erewrite bind_ok by (by apply upd_ok).
      unfold mbind, M_bind. rewrite acquire_run by done. simpl. by rewrite (Hunl _ _ Hx Hx0).
  - assert (Hjl : j ∈ rev l).
    { apply elem_of_rev_iff, Hin. rewrite <-Hlen. by eapply lookup_lt_Some. }
    specialize (Hr j y Hjl Hj). by rewrite bool_decide_true in Hr.
Qed.

Lemma NoDup_middle {A} (l1 l2 : list A) b :
  NoDup (l1 ++ b :: l2) → NoDup (b :: l1 ++ l2).
Proof. by rewrite <-Permutation_middle. Qed.

(** [brelse] of the last reference moves the buffer to the front of the list. *)
Lemma brelse_last s l1 l2 b x :
  order s (l1 ++ b :: l2) → bufs s !! b = Some x →
  b_lock x = MkSleeplock true (mypid s) → b_refcnt x = 1 →
  wp (brelse b) (λ _ s', order s' (b :: l1 ++ l2) ∧
    bufs s' = <[b := set_refcnt 0 (set_lock (MkSleeplock false 0) x)]> (bufs s) ∧
    disk s' = disk s ∧ trace s' = trace s ∧ mypid s' = mypid s) s.
Proof.
  intros Ho Hb Hl Hr. pose proof (order_head _ _ Ho) as Hhd.
  pose proof Ho as (Hlen & Hnd & Hin & Hseg).
  assert (b < length (bufs s))%nat by (by eapply lookup_lt_Some).
  pose proof (NoDup_middle _ _ _ Hnd) as [Hbl Hnd']%NoDup_cons.
  assert (Hbh : b ≠ head) by (intros ->; apply Hhd, elem_of_app; right; by left).
  assert (Hnb : nxt s !!! b ≠ b).
  { pose proof Hseg as [_ Hs2%seg_next_in]%seg_app. intros Heq. rewrite Heq in Hs2.
    destruct Hs2; [congruence|]. apply Hbl, elem_of_app. by right. }
  unfold brelse. wp_pures. eapply wp_rdbuf; [done|].
  unfold holdingsleep. rewrite Hl. simpl. rewrite bool_decide_true by done. simpl.
  apply wp_bind. unfold on_lock. apply wp_bind. eapply wp_rdbuf; [done|].
  apply wp_zoom, wp_put. apply wp_bind. eapply wp_upd.
  { simpl. by apply list_lookup_insert_eq. }
  apply wp_bind. eapply wp_rdbuf.
  { simpl. apply list_lookup_insert_eq. by rewrite length_insert. }
  simpl. rewrite Hr. change (u32 (1 - 1)) with 0. rewrite bool_decide_true by done.
  unfold when, next, prev, set_next, set_prev. wp_pures. simpl.
  rewrite (lookup_total_insert_ne (prv s)) by done.
  rewrite (lookup_total_insert_ne _ b head) by done.
  split_and!; simpl; [|by rewrite list_insert_insert_eq|done..].
  split_and!; simpl.
  - by rewrite !length_insert.
  - by apply NoDup_middle.
  - intros i. rewrite <-Hin, elem_of_cons, !elem_of_app, elem_of_cons. tauto.
  - apply seg_push; [done| |done|done|by apply seg_unlink].
    intros [?|?]%elem_of_app; apply Hhd, elem_of_app; [by left|by right; right].
Qed.

Lemma bget_full s l dev blockno :
  order s l → (∀ j y, bufs s !! j = Some y → ¬ is_block_of dev blockno y) →
  (∀ j y, bufs s !! j = Some y → b_refcnt y ≠ 0) →
  bget dev blockno s = Panic "bget: no buffers".
Proof.
  intros Ho Hmiss Hfull.
  destruct (proj1 (wp_ok _ _ _) (bget_lookup_miss s l dev blockno Ho Hmiss)) as (r & s' & Hscan & -> & ->).
  destruct (proj1 (wp_ok _ _ _) (scan_prev_spec s l (λ b, bool_decide (b_refcnt b = 0)) Ho))
    as (r & s' & Hscan' & -> & Hr).
  unfold bget. do 5 run. destruct r as [i|]; [|done]. simpl in Hr.
  destruct Hr as (l1 & l2 & x & _ & Hx & Hx0%bool_decide_eq_true & _). by destruct (Hfull i x).
Qed.

(** * The cache implements the block interface *)

(** Buffer [x], held with block [b] and contents [y] when [o = Some (b, y)].
    Otherwise it is either pinned, caching what [P] records, or free, and then
    a valid buffer of the device caches the disk. *)
Definition pins (P : disk_map) (b : Z) : Z :=
  match P !! b with Some _ => 1 | None => 0 end.
Definition pin_of (dev : Z) (P : disk_map) (x : buf) : option (list Z) :=
  if decide (b_dev x = dev) then P !! b_blockno x else None.
Definition buf_rep (dev : Z) (d P : disk_map) (pid : Z) (o : option (Z * list Z)) (x : buf) : Prop :=
  blockno_ok (b_blockno x) ∧
  match o, pin_of dev P x with
  | Some (b, y), _ =>
      b_dev x = dev ∧ b_blockno x = b ∧ b_valid x = true ∧ b_data x = y ∧
      b_lock x = MkSleeplock true pid ∧ b_refcnt x = 1 + pins P b ∧ is_block y ∧ is_Some (d !! b)
  | None, Some y =>
      b_refcnt x = 1 ∧ sl_locked (b_lock x) = false ∧
      b_valid x = true ∧ b_data x = y ∧ is_Some (d !! b_blockno x)
  | None, None =>
      b_refcnt x = 0 ∧ sl_locked (b_lock x) = false ∧
      (b_valid x = true → b_dev x = dev → d !! b_blockno x = Some (b_data x))
  end.

(** No two buffers cache the same block of a device (device 0 is unused: it
    marks buffers that never held a block). *)
Definition no_alias (bs : list buf) : Prop :=
  ∀ i j x y, bs !! i = Some x → bs !! j = Some y → b_dev x ≠ 0 →
    is_block_of (b_dev x) (b_blockno x) y → i = j.

Record bio_prep (dev : Z) (s : bio) (d P : disk_map) (H : held_map) (tr : write_trace) : Prop := {
  br_dev : dev ≠ 0;
  br_order : ∃ l, order s l;
  br_disk : disk s = d;
  br_trace : trace s = tr;
  br_blocks b x : d !! b = Some x → is_block x;
  br_bufs i x : bufs s !! i = Some x → buf_rep dev d P (mypid s) (H !! i) x;
  br_held i p : H !! i = Some p → (i < NBUF)%nat;
  br_alias : no_alias (bufs s);
  br_pins b y : P !! b = Some y →
    is_block y ∧ ∃ i x, bufs s !! i = Some x ∧ is_block_of dev b x;
}.
Definition bio_rep (dev : Z) (s : bio) (d : disk_map) (H : held_map) (tr : write_trace) : Prop :=
  bio_prep dev s d ∅ H tr.

#[export] Instance is_block_of_dec dev b x : Decision (is_block_of dev b x).
Proof. unfold is_block_of. apply _. Defined.

Lemma pin_of_block dev P b x : is_block_of dev b x → pin_of dev P x = P !! b.
Proof. intros [Hd <-]. unfold pin_of. by rewrite decide_True. Qed.

Lemma no_alias_insert bs i x' :
  no_alias bs →
  (b_dev x' ≠ 0 → ∀ j y, j ≠ i → bs !! j = Some y → ¬ is_block_of (b_dev x') (b_blockno x') y) →
  no_alias (<[i := x']> bs).
Proof.
  intros Hna Hx' j k x y Hj Hk Hd Hid.
  apply list_lookup_insert_Some in Hj as [(-> & -> & _)|[Hij Hj]];
    apply list_lookup_insert_Some in Hk as [(-> & -> & _)|[Hik Hk]]; try done.
  - exfalso. eapply Hx'; eauto.
  - exfalso. destruct Hid as [Hdx Hbx]. eapply Hx'; [by rewrite Hdx|..|exact Hj|]; eauto.
    by split.
  - eauto.
Qed.

(** Replacing one buffer, and the pinned contents of its block. *)
Lemma bio_prep_insert dev s d P P' H H' tr i x x' :
  bio_prep dev s d P H tr → bufs s !! i = Some x →
  buf_rep dev d P' (mypid s) (H' !! i) x' →
  (∀ j, j ≠ i → H' !! j = H !! j) → (i < NBUF)%nat →
  (b_dev x' ≠ 0 → ∀ j y, j ≠ i → bufs s !! j = Some y →
     ¬ is_block_of (b_dev x') (b_blockno x') y) →
  (∀ b, ¬ is_block_of dev b x' → P' !! b = P !! b) →
  (∀ b, is_block_of dev b x → is_Some (P !! b) → is_block_of dev b x') →
  (∀ b y, is_block_of dev b x' → P' !! b = Some y → is_block y) →
  bio_prep dev (with_bufs (<[i := x']> (bufs s)) s) d P' H' tr.
Proof.
  intros [Hdev [l Ho] Hdisk Htr Hblk Hbufs Hheld Hna Hp] Hi0 Hx' Hne Hi Hal HP Hkeep Hpb.
  assert (Hlen : (i < length (bufs s))%nat) by (by eapply lookup_lt_Some).
  constructor; try done.
  - exists l. by apply order_upd.
  - intros j y Hj. cbn [bufs with_bufs] in Hj.
    apply list_lookup_insert_Some in Hj as [(-> & -> & _)|[Hij Hj]]; [done|].
    rewrite Hne by done. destruct (Hbufs j y Hj) as [Hby Hrep]. split; [done|].
    assert (Hpin : is_block_of dev (b_blockno y) y → P' !! b_blockno y = P !! b_blockno y).
    { intros Hid. apply HP. intros [Hdx Hbx]. apply (Hal ltac:(congruence) j y); [done..|].
      rewrite Hdx, Hbx. done. }
    unfold pin_of, pins in *. destruct (H !! j) as [[b z]|]; [|case_decide].
    + destruct Hrep as (Hyd & Hyb & Hrest). rewrite <-Hyb in *. by rewrite Hpin.
    + by rewrite Hpin.
    + done.
  - intros j p Hj. destruct (decide (j = i)) as [->|Hji]; [done|].
    rewrite Hne in Hj by done. eauto.
  - by apply no_alias_insert.
  - intros b y Hb. destruct (decide (is_block_of dev b x')) as [Hid|Hid].
    + split; [by eapply Hpb|]. exists i, x'. split; [by apply list_lookup_insert_eq|done].
    + rewrite HP in Hb by done. destruct (Hp b y Hb) as (Hyb & j & z & Hj & Hz). split; [done|].
      destruct (decide (j = i)) as [->|Hji].
      * simplify_eq. destruct Hid. eauto.
      * exists j, z. split; [|done]. cbn [bufs with_bufs]. by rewrite list_lookup_insert_ne.
Qed.

Lemma no_alias_other bs i x j y :
  no_alias bs → bs !! i = Some x → b_dev x ≠ 0 → j ≠ i → bs !! j = Some y →
  ¬ is_block_of (b_dev x) (b_blockno x) y.
Proof. intros Hna Hi Hd Hne Hj Hid. apply Hne. symmetry. by eapply Hna. Qed.

Lemma disk_block_id b : blockno_ok b → disk_block b = b.
Proof. unfold blockno_ok, disk_block, u32. zlia. Qed.

(** Buffers in use are held or pinned, each pinned block in a buffer of its own. *)
Lemma busy_count dev s d P H tr (busy : nat → bool) :
  bio_prep dev s d P H tr →
  (∀ i x, bufs s !! i = Some x → busy i = true → H !! i = None → is_Some (pin_of dev P x)) →
  (length (filter (λ i, busy i = true) (seq 0 NBUF)) ≤ size H + size P)%nat.
Proof.
  intros [Hdev [l (Hlen & _)] Hdisk Htr Hblk Hbufs Hheld Hna Hp] Hbusy.
  set (B := filter (λ i, busy i = true) (seq 0 NBUF)).
  set (I := filter (λ i, H !! i = None) B).
  set (blk i := from_option b_blockno 0 (bufs s !! i)).
  assert (HI : ∀ i, i ∈ I → ∃ x, bufs s !! i = Some x ∧ b_dev x = dev ∧
                 is_Some (P !! b_blockno x) ∧ blk i = b_blockno x).
  { intros i [Hi1 [Hi2 Hi3%elem_of_seq]%list_elem_of_filter]%list_elem_of_filter.
    destruct (lookup_lt_is_Some_2 (bufs s) i) as [x Hx]; [lia|].
    pose proof (Hbusy i x Hx Hi2 Hi1) as Hs. unfold pin_of in Hs. unfold blk.
    case_decide; [|by destruct Hs]. rewrite Hx. eauto. }
  assert (HndB : NoDup B) by apply NoDup_filter, NoDup_seq.
  assert (Hnd : NoDup (blk <$> I)).
  { apply NoDup_fmap_2_strong; [|by apply NoDup_filter].
    intros i j (x & Hx & Hdx & _ & ->)%HI (y & Hy & Hdy & _ & ->)%HI Heq.
    eapply Hna; [done..|congruence|]. split; congruence. }
  assert (HIP : (length I ≤ size P)%nat).
  { rewrite <-(length_fmap blk), <-(size_list_to_set (C := gset Z)), <-size_dom by done.
    apply subseteq_size. intros b (i & -> & (x & _ & _ & Hs & ->)%HI)%elem_of_list_to_set%list_elem_of_fmap.
    by apply elem_of_dom. }
  rewrite <-(size_list_to_set (C := gset nat)) by done.
  transitivity (size (dom H ∪ list_to_set I)).
  - apply subseteq_size. intros i Hi%elem_of_list_to_set.
    rewrite elem_of_union, elem_of_dom, elem_of_list_to_set. unfold I.
    rewrite list_elem_of_filter. destruct (H !! i); eauto.
  - rewrite size_union_alt, size_dom.
    assert (size (list_to_set I ∖ dom H : gset nat) ≤ length I)%nat; [|lia].
    rewrite <-(size_list_to_set (C := gset nat) I) by (by apply NoDup_filter).
    apply subseteq_size. set_solver.
Qed.

Lemma free_slot dev s d P H tr :
  bio_prep dev s d P H tr → (size H + size P < NBUF)%nat →
  ∃ i x, bufs s !! i = Some x ∧ H !! i = None ∧ pin_of dev P x = None.
Proof.
  intros Hr Hsz. pose proof Hr as [_ [l (Hlen & _)] _ _ _ _ _ _ _].
  set (busy := λ i, (bool_decide (is_Some (H !! i)) ||
    match bufs s !! i with Some x => bool_decide (is_Some (pin_of dev P x)) | None => false end)%bool).
  assert (Hc : (length (filter (λ i, busy i = true) (seq 0 NBUF)) ≤ size H + size P)%nat).
  { eapply busy_count; [done|]. intros i x Hx Hb HHi. unfold busy in Hb. rewrite Hx, HHi in Hb.
    rewrite bool_decide_false in Hb by (by intros []). by apply bool_decide_eq_true in Hb. }
  destruct (list_find (λ i, busy i = false) (seq 0 NBUF)) as [[k i]|] eqn:Hfind.
  - apply list_find_Some in Hfind as (Hi%list_elem_of_lookup_2%elem_of_seq & Hb & _).
    destruct (lookup_lt_is_Some_2 (bufs s) i) as [x Hx]; [lia|].
    exists i, x. unfold busy in Hb. rewrite Hx in Hb.
    apply orb_false_iff in Hb as [Hb1%bool_decide_eq_false Hb2%bool_decide_eq_false].
    apply eq_None_not_Some in Hb1, Hb2. done.
  - exfalso. apply list_find_None in Hfind.
    assert (Hall : filter (λ i, busy i = true) (seq 0 NBUF) = seq 0 NBUF).
    { clear Hc. induction Hfind as [|i l' Hi _ IH]; [done|]. rewrite filter_cons_True; [by rewrite IH|].
      by destruct (busy i). }
    rewrite Hall, length_seq in Hc. lia.
Qed.

(** When held and pinned buffers fill the cache, every buffer is one of them. *)
Lemma no_slot dev s d P H tr :
  bio_prep dev s d P H tr → (size H + size P)%nat = NBUF →
  (∀ h b x, H !! h = Some (b, x) → P !! b = None) →
  ∀ i x, bufs s !! i = Some x → is_Some (H !! i) ∨ is_Some (pin_of dev P x).
Proof.
  intros Hr Hsz Hdisj i x Hx. destruct Hr as [Hdev [l (Hlen & _)] Hdisk Htr Hblk Hbufs Hheld Hna Hp].
  destruct (H !! i) eqn:HHi; [by left; eexists|right].
  destruct (pin_of dev P x) as [y|] eqn:Hpx; [by eexists|exfalso].
  (* each pinned block in its buffer *)
  assert (Hix : ∃ f : Z → nat, ∀ b, is_Some (P !! b) → ∃ z, bufs s !! f b = Some z ∧ is_block_of dev b z).
  { exists (λ b, from_option fst 0%nat (list_find (is_block_of dev b) (bufs s))).
    intros b [y Hy]. destruct (Hp b y Hy) as (_ & j & z & Hj & Hz).
    destruct (list_find_elem_of (is_block_of dev b) (bufs s) z) as [[k w] Hk];
      [by eapply list_elem_of_lookup_2|done|].
    rewrite Hk. apply list_find_Some in Hk as (Hk & Hw & _). simpl. eauto. }
  destruct Hix as [f Hf].
  set (I := elements (dom H) ++ (f <$> elements (dom P))).
  assert (HI : ∀ j, j ∈ i :: I → j ∈ seq 0 NBUF).
  { intros j [->|[[p Hj]%elem_of_elements%elem_of_dom|
      (b & -> & Hb%elem_of_elements%elem_of_dom)%list_elem_of_fmap]%elem_of_app]%elem_of_cons;
      apply elem_of_seq.
    - apply lookup_lt_Some in Hx. lia.
    - apply Hheld in Hj. lia.
    - destruct (Hf b Hb) as (z & Hz%lookup_lt_Some & _). lia. }
  assert (Hnd : NoDup (i :: I)).
  { apply NoDup_cons. split; [|apply NoDup_app; split_and!; [apply NoDup_elements| |]].
    - intros [[p Hj]%elem_of_elements%elem_of_dom|
        (b & -> & Hb%elem_of_elements%elem_of_dom)%list_elem_of_fmap]%elem_of_app; [congruence|].
      destruct (Hf b Hb) as (z & Hz & Hbz). simplify_eq.
      rewrite (pin_of_block _ _ b) in Hpx by done. destruct Hb; congruence.
    - intros j [[b y] Hj]%elem_of_elements%elem_of_dom (c & -> & Hc%elem_of_elements%elem_of_dom)%list_elem_of_fmap.
      destruct (Hf c Hc) as (z & Hz & [Hzd Hzc]). destruct (Hbufs _ _ Hz) as [_ Hrep].
      rewrite Hj in Hrep. destruct Hrep as (_ & Hzb & _). pose proof (Hdisj _ _ _ Hj).
      destruct Hc. congruence.
    - apply NoDup_fmap_2_strong; [|apply NoDup_elements].
      intros b c Hb%elem_of_elements%elem_of_dom Hc%elem_of_elements%elem_of_dom Heq.
      destruct (Hf b Hb) as (z & Hz & [_ <-]), (Hf c Hc) as (w & Hw & [_ <-]). congruence. }
  apply NoDup_submseteq, submseteq_length in HI; [|done].
  cbn [length] in HI. unfold I in HI. rewrite length_seq, length_app, length_fmap in HI.
  change (length (elements (dom H))) with (size (dom H)) in HI.
  change (length (elements (dom P))) with (size (dom P)) in HI.
  rewrite !size_dom in HI. lia.
Qed.

(** What [bget] gives a client. *)
Lemma bget_rep dev s d P H tr b :
  bio_prep dev s d P H tr → blockno_ok b → not_held H b →
  is_Some (P !! b) ∨ (size H + size P < NBUF)%nat →
  ∃ i x0 x, bget dev b s = Ok i (with_bufs (<[i := x]> (bufs s)) s) ∧ (i < NBUF)%nat ∧
    H !! i = None ∧ is_block_of dev b x ∧ b_lock x = MkSleeplock true (mypid s) ∧
    b_refcnt x = 1 + pins P b ∧ (b_valid x = true → (P ∪ d) !! b = Some (b_data x)) ∧
    (is_Some (P !! b) → b_valid x = true) ∧
    (∀ j y, j ≠ i → bufs s !! j = Some y → ¬ is_block_of dev b y) ∧
    bufs s !! i = Some x0 ∧ (is_block_of dev b x0 ∨ pin_of dev P x0 = None).
Proof.
  intros Hrep Hb Hnh Hsz. pose proof Hrep as [Hdev [l Ho] Hdisk Htr Hblk Hbufs Hheld Hna Hp].
  pose proof Ho as (Hlen & _ & Hin & _).
  destruct (list_find (is_block_of dev b) (bufs s)) as [[i x]|] eqn:Hfind.
  - apply list_find_Some in Hfind as (Hi & Hid & _). pose proof Hid as [Hxd Hxb].
    assert (Hother : ∀ j y, j ≠ i → bufs s !! j = Some y → ¬ is_block_of dev b y).
    { intros j y Hj Hy. rewrite <-Hxd, <-Hxb. eapply no_alias_other; eauto. congruence. }
    pose proof (Hbufs i x Hi) as [_ Hrp].
    destruct (H !! i) as [[b' y]|] eqn:HHi.
    { exfalso. destruct Hrp as (_ & Hb' & _). eapply Hnh; eauto. congruence. }
    rewrite (pin_of_block _ _ _ _ Hid) in Hrp.
    assert (Hl : sl_locked (b_lock x) = false) by (destruct (P !! b); apply Hrp).
    eexists i, x, _. split.
    { erewrite (bget_hit s l dev b i x); [by rewrite Hl|done..|].
      intros j y Hj Hy. destruct (decide (j = i)) as [|Hji]; [done|].
      by destruct (Hother j y Hji Hj). }
    split_and!; try done; [| | | |by left].
    + rewrite <-Hlen. by eapply lookup_lt_Some.
    + unfold pins. cbn. destruct (P !! b); destruct Hrp as (-> & _); reflexivity.
    + cbn. intros Hval. rewrite lookup_union. rewrite Hxb in Hrp.
      destruct (P !! b), (d !! b) eqn:Hdb; destruct Hrp as (_ & _ & Hrp); simpl; try naive_solver.
    + cbn. intros [y Hy]. rewrite Hy in Hrp. apply Hrp.
  - apply list_find_None in Hfind. rewrite Forall_forall in Hfind.
    assert (Hmiss : ∀ j y, bufs s !! j = Some y → ¬ is_block_of dev b y).
    { intros j y Hj. apply Hfind. by eapply list_elem_of_lookup_2. }
    assert (HPb : P !! b = None).
    { destruct (P !! b) as [y|] eqn:HPb; [|done]. destruct (Hp b y HPb) as (_ & j & z & Hj & Hz).
      by destruct (Hmiss j z). }
    destruct Hsz as [[? ?]|Hsz]; [congruence|].
    destruct (free_slot _ _ _ _ _ _ Hrep Hsz) as (k & z & Hz & HHk & Hpk).
    assert (Hfree : ∀ j y, bufs s !! j = Some y → b_refcnt y = 0 →
      H !! j = None ∧ pin_of dev P y = None ∧ sl_locked (b_lock y) = false).
    { intros j y Hj Hy0. pose proof (Hbufs j y Hj) as [_ Hrp]. unfold pins in Hrp.
      destruct (H !! j) as [[c ?]|]; [exfalso|destruct (pin_of dev P y); [exfalso|]].
      - destruct Hrp as (_ & _ & _ & _ & _ & Hr & _). destruct (P !! c); lia.
      - destruct Hrp. lia.
      - naive_solver. }
    destruct (bget_miss s l dev b) as (i & x & _ & Hi & Hx0 & Hrun); [done|done| | |].
    { exists k, z. split; [done|]. pose proof (Hbufs k z Hz) as [_ Hrp].
      rewrite HHk, Hpk in Hrp. by destruct Hrp. }
    { intros j y Hj Hy0. by apply (Hfree j y). }
    destruct (Hfree i x Hi Hx0) as (HHi & Hpi & _).
    eexists i, x, _. split; [exact Hrun|]. unfold pins. rewrite HPb.
    split_and!; try done; [|by eauto|by right].
    rewrite <-Hlen. by eapply lookup_lt_Some.
Qed.

Lemma prep_block_of dev s d P H tr b blk :
  bio_prep dev s d P H tr → (P ∪ d) !! b = Some blk → is_block blk.
Proof.
  intros [_ _ _ _ Hblk _ _ _ Hp] [Hb|[_ Hb]]%lookup_union_Some_raw; [by apply (Hp b)|eauto].
Qed.

Lemma bread_prep dev s d P H tr b blk :
  bio_prep dev s d P H tr → blockno_ok b → is_Some (d !! b) → (P ∪ d) !! b = Some blk →
  not_held H b → is_Some (P !! b) ∨ (size H + size P < NBUF)%nat →
  wp (bread dev b) (λ h s', H !! h = None ∧ bio_prep dev s' d P (<[h := (b, blk)]> H) tr) s.
Proof.
  intros Hr Hb [blk0 Hd] HPd Hn Hs.
  destruct (bget_rep dev s d P H tr b) as
    (i & x0 & x & Hget & Hi & HHi & [Hxd Hxb] & Hlk & Href & Hval & Hpin & Hoth & Hx0 & Hx0b); [done..|].
  pose proof Hr as [Hdev [l (Hlen & _)] Hdisk _ Hblk _ _ _ _].
  unfold bread, wp. run. set (s1 := with_bufs _ s) in *.
  assert (Hi1 : bufs s1 !! i = Some x) by (apply list_lookup_insert_eq; lia).
  assert (Hfin : ∀ x', is_block_of dev b x' → b_lock x' = MkSleeplock true (mypid s) →
    b_refcnt x' = 1 + pins P b → b_valid x' = true → b_data x' = blk →
    bio_prep dev (with_bufs (<[i := x']> (bufs s)) s) d P (<[i := (b, blk)]> H) tr).
  { intros x' Hid ????. apply (bio_prep_insert _ _ _ P _ H _ _ _ x0); [done|done| |..|done| |done| |].
    - rewrite lookup_insert_eq. destruct Hid as [Hd' Hb']. split; [by rewrite Hb'|].
      split_and!; eauto. by eapply prep_block_of.
    - intros. by apply lookup_insert_ne.
    - destruct Hid as [-> ->]. eauto.
    - intros c Hc [y Hy]. destruct Hx0b as [Hx0b|Hx0b].
      + replace c with b; [done|]. destruct Hx0b, Hc. congruence.
      + rewrite (pin_of_block _ _ _ _ Hc) in Hx0b. congruence.
    - intros c y Hc Hy. eapply (br_pins _ _ _ _ _ _ Hr); eauto. }
  fold (wp (x0 ← rdbuf i; when (negb (b_valid x0)) (virtio_disk_rw i false;; upd i (set_valid true));; mret i)
     (λ h s', H !! h = None ∧ bio_prep dev s' d P (<[h := (b, blk)]> H) tr) s1).
  apply wp_bind. eapply wp_rdbuf; [done|]. apply wp_bind.
  destruct (b_valid x) eqn:Hv; cbn [negb when].
  - apply wp_ret, wp_ret. split; [done|]. apply Hfin; try done.
    specialize (Hval eq_refl). congruence.
  - assert (HPb : P !! b = None) by (destruct (P !! b) eqn:E; [by specialize (Hpin ltac:(eauto))|done]).
    rewrite lookup_union_r in HPd by done.
    apply wp_bind. unfold virtio_disk_rw. apply wp_bind. eapply wp_rdbuf; [done|].
    apply wp_bind, wp_gets. cbn [disk with_bufs s1].
    rewrite Hxb, disk_block_id, Hdisk, HPd by done.
    eapply wp_upd; [done|]. eapply wp_upd; [apply list_lookup_insert_eq; simpl; rewrite length_insert; lia|].
    apply wp_ret. split; [done|]. simpl. rewrite !list_insert_insert_eq.
    apply Hfin; try done.
Qed.

Lemma bread_full_prep dev s d P H tr b :
  bio_prep dev s d P H tr → P !! b = None → not_held H b →
  (∀ h b' x, H !! h = Some (b', x) → P !! b' = None) → (size H + size P)%nat = NBUF →
  bread dev b s = Panic "bget: no buffers".
Proof.
  intros Hr HPb Hn Hdisj Hsz. pose proof (no_slot _ _ _ _ _ _ Hr Hsz Hdisj) as Hall.
  destruct Hr as [Hdev [l Ho] Hdisk Htr Hblk Hbufs Hheld Hna Hp].
  unfold bread, mbind, M_bind. rewrite (bget_full s l); [done|done|..].
  - intros j y Hj Hid. pose proof (Hbufs j y Hj) as [_ Hrp].
    rewrite (pin_of_block _ _ _ _ Hid), HPb in Hrp. destruct (Hall j y Hj) as [[[c z] Hc]|[z Hz]].
    + rewrite Hc in Hrp. destruct Hrp as (_ & Hyc & _). destruct Hid. by eapply (Hn j c z); [|congruence].
    + rewrite (pin_of_block _ _ _ _ Hid) in Hz. congruence.
  - intros j y Hj. pose proof (Hbufs j y Hj) as [_ Hrp]. unfold pins in Hrp.
    destruct (H !! j) as [[c z]|] eqn:HHj.
    + destruct Hrp as (_ & _ & _ & _ & _ & -> & _). destruct (P !! c); lia.
    + destruct (Hall j y Hj) as [[? ?]|[z Hz]]; [congruence|]. rewrite Hz in Hrp.
      destruct Hrp as [-> _]. lia.
Qed.

Lemma bread_self_prep dev s d P H tr h b x :
  bio_prep dev s d P H tr → H !! h = Some (b, x) → ∃ s', bread dev b s = Sleep s'.
Proof.
  intros [Hdev [l Ho] Hdisk Htr Hblk Hbufs Hheld Hna _] Hh. pose proof Ho as (Hlen & _).
  destruct (lookup_lt_is_Some_2 (bufs s) h) as [y Hy]; [rewrite Hlen; eauto|].
  pose proof (Hbufs h y Hy) as [_ Hrep]. rewrite Hh in Hrep.
  destruct Hrep as (Hd & Hb & _ & _ & Hlk & _).
  unfold bread, mbind, M_bind. erewrite bget_hit; [|done..|].
  { rewrite Hlk. eauto. }
  intros j z Hj [Hzd Hzb]. eapply Hna; [done..|congruence|]. split; congruence.
Qed.

Lemma rep_lookup dev s d P H tr h b x :
  bio_prep dev s d P H tr → H !! h = Some (b, x) →
  ∃ y, bufs s !! h = Some y ∧ (h < NBUF)%nat ∧ buf_rep dev d P (mypid s) (Some (b, x)) y ∧
    is_block_of dev b y ∧
    (b_dev y ≠ 0 → ∀ j w, j ≠ h → bufs s !! j = Some w → ¬ is_block_of (b_dev y) (b_blockno y) w).
Proof.
  intros [Hdev [l (Hlen & _)] Hdisk Htr Hblk Hbufs Hheld Hna _] Hh.
  destruct (lookup_lt_is_Some_2 (bufs s) h) as [y Hy]; [rewrite Hlen; eauto|].
  pose proof (Hbufs h y Hy) as Hrp. rewrite Hh in Hrp. exists y.
  split; [done|]. split; [eauto|]. split; [done|]. split; [by destruct Hrp as (_ & ? & ? & _)|].
  intros Hne j w Hj Hw. by eapply no_alias_other.
Qed.

Lemma buf_store_prep dev s d P H tr h b x y :
  bio_prep dev s d P H tr → H !! h = Some (b, x) → is_block y →
  wp (buf_store h y) (λ _ s', bio_prep dev s' d P (<[h := (b, y)]> H) tr) s.
Proof.
  intros Hr Hh Hy.
  destruct (rep_lookup _ _ _ _ _ _ _ _ _ Hr Hh) as (z & Hz & Hlt & [Hbz Hrz] & Hid & Hal).
  eapply wp_upd; [done|]. apply (bio_prep_insert _ _ _ P _ H _ _ _ z); [done|done| |..|done| |done| |].
  - rewrite lookup_insert_eq. split; [done|]. simpl in *. naive_solver.
  - intros. by apply lookup_insert_ne.
  - done.
  - done.
  - intros. by eapply (br_pins _ _ _ _ _ _ Hr).
Qed.

Lemma bwrite_prep dev s d P H tr h b x :
  bio_prep dev s d P H tr → H !! h = Some (b, x) →
  wp (bwrite h) (λ _ s', bio_prep dev s' (<[b := x]> d) P H (tr ++ [(b, x)])) s.
Proof.
  intros Hr Hh. destruct (rep_lookup _ _ _ _ _ _ _ _ _ Hr Hh)
    as (z & Hz & _ & (Hbz & Hd & <- & Hv & <- & Hlk & Hrf & Hblk & [w Hw]) & _ & _).
  pose proof Hr as [Hdev [l Ho] Hdisk Htr Hblks Hbufs Hheld Hna Hp].
  unfold bwrite. wp_pures. eapply wp_rdbuf; [done|]. unfold holdingsleep. rewrite Hlk.
  cbn [sl_locked sl_pid andb]. rewrite bool_decide_true by done. cbn [negb].
  unfold virtio_disk_rw. apply wp_bind. eapply wp_rdbuf; [done|]. apply wp_bind, wp_gets.
  rewrite disk_block_id, Hdisk, Hw by done. apply wp_modify.
  constructor; try done; simpl.
  - exists l. done.
  - by rewrite Htr.
  - intros c y. rewrite lookup_insert. case_decide; [intros [= <-]; done|eauto].
  - assert (Hsome : ∀ c, is_Some (d !! c) → is_Some (<[b_blockno z := b_data z]> d !! c)).
    { intros c. rewrite lookup_insert. case_decide; eauto. }
    intros i y Hi. destruct (Hbufs i y Hi) as [Hby Hrep]. split; [done|].
    destruct (H !! i) as [[c u]|] eqn:HHi; [|destruct (pin_of dev P y)].
    + destruct Hrep as (? & ? & ? & ? & ? & ? & ? & ?). split_and!; auto.
    + destruct Hrep as (? & ? & ? & ? & ?). split_and!; auto.
    + destruct Hrep as (? & ? & Hc). split_and!; [done..|]. intros Hvy Hdy.
      rewrite lookup_insert_ne; [auto|]. intros Heq.
      assert (h = i); [|congruence]. eapply Hna; [done..|congruence|]. split; congruence.
Qed.

(** A released buffer that is still referenced keeps its place in the list. *)
Lemma brelse_more s b x r :
  bufs s !! b = Some x → b_lock x = MkSleeplock true (mypid s) → b_refcnt x = r + 1 →
  0 < r < 2 ^ 32 →
  brelse b s = Ok tt (with_bufs (<[b := set_refcnt r (set_lock (MkSleeplock false 0) x)]> (bufs s)) s).
Proof.
  intros Hb Hl Hrc Hr. assert (b < length (bufs s))%nat by (by eapply lookup_lt_Some).
  unfold brelse. run. erewrite bind_ok by (unfold rdbuf, mbind, M_bind, get; by rewrite Hb).
  unfold holdingsleep. rewrite Hl. cbn [sl_locked sl_pid andb]. rewrite bool_decide_true by done. cbn [negb].
  erewrite bind_ok by (unfold on_lock, rdbuf, mbind, M_bind, get; rewrite Hb; reflexivity).
  cbv beta. erewrite bind_ok by (apply upd_ok; cbn [bufs with_bufs]; by apply list_lookup_insert_eq).
  cbn [bufs with_bufs]. rewrite list_insert_insert_eq. cbv beta.
  erewrite bind_ok by (unfold rdbuf, mbind, M_bind, get; cbn [bufs with_bufs];
    rewrite list_lookup_insert_eq by done; reflexivity). cbv beta.
  cbn [b_refcnt set_refcnt set_lock]. rewrite Hrc.
  replace (u32 (r + 1 - 1)) with r by wrap_lia. rewrite bool_decide_false by lia. done.
Qed.

Lemma brelse_prep dev s d P H tr h b x :
  bio_prep dev s d P H tr → H !! h = Some (b, x) → is_Some (P !! b) ∨ d !! b = Some x →
  wp (brelse h) (λ _ s', bio_prep dev s' d (alter (λ _, x) b P) (delete h H) tr) s.
Proof.
  intros Hr Hh Hx. destruct (rep_lookup _ _ _ _ _ _ _ _ _ Hr Hh)
    as (z & Hz & Hlt & (Hbz & Hd & Hb & Hv & Hdat & Hlk & Hrf & Hblk & Hdb) & Hid & Hal).
  pose proof Hr as [Hdev [l Ho] Hdisk Htr Hblks Hbufs Hheld Hna Hp].
  assert (Hins : ∀ z', z' = set_refcnt (pins P b) (set_lock (MkSleeplock false 0) z) →
    bio_prep dev (with_bufs (<[h := z']> (bufs s)) s) d (alter (λ _, x) b P) (delete h H) tr).
  { intros z' ->. apply (bio_prep_insert _ _ _ P _ H _ _ _ z); [done|done| |..|done|done| |done|].
    - rewrite lookup_delete_eq. split; [done|]. rewrite (pin_of_block _ _ b) by done.
      rewrite lookup_alter_eq. unfold pins. cbn. destruct (P !! b) eqn:HPb; cbn.
      + rewrite Hb. done.
      + rewrite Hb, Hdat. destruct Hx as [[]|]; done.
    - intros. by apply lookup_delete_ne.
    - intros c Hc. apply lookup_alter_ne. intros <-. by destruct Hc.
    - intros c y [_ <-]. cbn. rewrite Hb, lookup_alter_eq. destruct (P !! b); [|done].
      by intros [= <-]. }
  destruct (P !! b) as [y|] eqn:HPb.
  - unfold wp. unfold pins in *. rewrite HPb in *.
    rewrite (brelse_more s h z 1) by (done || lia). by apply Hins.
  - assert (Hhl : h ∈ l) by (apply Ho; eauto).
    apply list_elem_of_split in Hhl as (l1 & l2 & ->). unfold pins in *. rewrite HPb in *.
    eapply wp_mono; [by apply brelse_last|]. intros [] s' (Ho' & Hb' & Hd' & Ht' & Hp').
    specialize (Hins _ eq_refl). rewrite <-Hb' in Hins.
    destruct Hins as [? _ ? ? ? Hbufs' ? ? ?]. constructor; try done; [by eexists|congruence..|].
    intros i w Hi. rewrite Hp'. by apply Hbufs'.
Qed.

Lemma buf_data_prep dev s d P H tr h b x :
  bio_prep dev s d P H tr → H !! h = Some (b, x) → buf_data h s = Ok x s.
Proof.
  intros Hr Hh.
  destruct (rep_lookup _ _ _ _ _ _ _ _ _ Hr Hh) as (y & Hy & _ & (_ & _ & _ & _ & <- & _) & _).
  unfold buf_data, rdbuf, mbind, M_bind, get. by rewrite Hy.
Qed.

Lemma buf_blockno_prep dev s d P H tr h b x :
  bio_prep dev s d P H tr → H !! h = Some (b, x) → buf_blockno h s = Ok b s.
Proof.
  intros Hr Hh.
  destruct (rep_lookup _ _ _ _ _ _ _ _ _ Hr Hh) as (y & Hy & _ & (_ & _ & <- & _) & _).
  unfold buf_blockno, rdbuf, mbind, M_bind, get. by rewrite Hy.
Qed.

(** [bpin] and [bunpin] by the holder of the buffer. *)
Lemma pin_prep dev s d P P' H tr h b x f :
  bio_prep dev s d P H tr → H !! h = Some (b, x) → (∀ c, c ≠ b → P' !! c = P !! c) →
  (P' !! b = None ∨ P' !! b = Some x) → f (1 + pins P b) = 1 + pins P' b →
  wp (upd h (λ y, set_refcnt (f (b_refcnt y)) y)) (λ _ s', bio_prep dev s' d P' H tr) s.
Proof.
  intros Hr Hh HP' HPb Hf. destruct (rep_lookup _ _ _ _ _ _ _ _ _ Hr Hh)
    as (z & Hz & Hlt & (Hbz & Hd & Hb & Hv & Hdat & Hlk & Hrf & Hblk & Hdb) & Hid & Hal).
  eapply wp_upd; [done|].
  apply (bio_prep_insert _ _ _ P _ H _ _ _ z); [done|done| |done|done|done| |done|].
  - rewrite Hh. split; [done|]. split_and!; try done. cbn. by rewrite Hrf.
  - intros c Hc. apply HP'. intros ->. by destruct Hc.
  - intros c y [_ <-]. cbn. rewrite Hb. destruct HPb as [-> | ->]; [done|]. by intros [= <-].
Qed.

#[export] Instance bio_pinio : PinIO bio := {|
  BlockIO.buf_blockno := buf_blockno; BlockIO.bpin := bpin; BlockIO.bunpin := bunpin |}.

#[export] Instance bio_plaws : PinIOLaws bio.
Proof.
  refine {| prep := bio_prep; prep_block := prep_block_of; pbread_law := bread_prep;
    pbread_full_law := bread_full_prep; pbuf_data_law := buf_data_prep;
    pbuf_store_law := buf_store_prep; buf_blockno_law := buf_blockno_prep; pbwrite_law := bwrite_prep; pbrelse_law := brelse_prep |}.
  - intros dev s d P H tr h b x Hr Hh HPb.
    apply (pin_prep dev s d P _ H tr h b x (λ r, u32 (r + 1))); [done|done|..]; unfold pins.
    + intros. by apply lookup_insert_ne.
    + right. apply lookup_insert_eq.
    + by rewrite lookup_insert_eq, HPb.
  - intros dev s d P H tr h b x Hr Hh [y HPb].
    apply (pin_prep dev s d P _ H tr h b x (λ r, u32 (r - 1))); [done|done|..]; unfold pins.
    + intros. by apply lookup_delete_ne.
    + left. apply lookup_delete_eq.
    + by rewrite lookup_delete_eq, HPb.
Defined.

#[export] Instance bio_laws : BlockIOLaws bio.
Proof.
  refine {| rep := bio_rep |}; unfold bio_rep.
  - intros dev s d H tr b blk Hr. by eapply br_blocks.
  - intros dev s d H tr b blk Hr Hb Hd Hn Hs. apply bread_prep; [done|done|eauto| |done|].
    + by rewrite map_empty_union.
    + right. rewrite map_size_empty. lia.
  - intros dev s d H tr h b x Hr Hh. by eapply bread_self_prep.
  - intros dev s d H tr h b x Hr Hh. by eapply buf_data_prep.
  - intros dev s d H tr h b x y Hr Hh Hy. by eapply buf_store_prep.
  - intros dev s d H tr h b x Hr Hh. by eapply bwrite_prep.
  - intros dev s d H tr h b x Hr Hh Hx. eapply wp_mono.
    { eapply brelse_prep; [done|done|by right]. }
    intros [] s' Hs'. replace (∅ : disk_map) with (alter (λ _, x) b ∅ : disk_map); [done|].
    apply map_eq. intros c. rewrite lookup_alter, lookup_empty. by case_decide.
Defined.

(** * Boot *)

Lemma binit_one_spec s l b x :
  (b < NBUF)%nat → bufs s !! b = Some x → NoDup l → (∀ i, i ∈ l → (i < NBUF)%nat) → b ∉ l →
  seg (λ i, nxt s !!! i) (λ i, prv s !!! i) head l head →
  wp (binit_one b) (λ _ s',
    seg (λ i, nxt s' !!! i) (λ i, prv s' !!! i) head (b :: l) head ∧
    bufs s' = <[b := set_lock initsleeplock x]> (bufs s) ∧
    disk s' = disk s ∧ trace s' = trace s ∧ mypid s' = mypid s) s.
Proof.
  intros Hb Hx Hnd Hl Hbl Hseg. unfold head in *.
  unfold binit_one, next, set_next, set_prev. wp_pures.
  eapply wp_upd; [done|]. wp_pures. simpl.
  assert (NBUF ≠ b) by lia. unfold head. rewrite (lookup_total_insert_ne (nxt s)) by lia.
  split; [|by split_and!]. apply seg_push; [done| |done|lia|done].
  intros Hin. apply Hl in Hin. lia.
Qed.

Lemma binit_loop_spec n : ∀ s k l,
  (k + n ≤ NBUF)%nat → length (bufs s) = NBUF → NoDup l → (∀ i, i ∈ l ↔ (i < k)%nat) →
  seg (λ i, nxt s !!! i) (λ i, prv s !!! i) head l head →
  (∀ i x, (i < k)%nat → bufs s !! i = Some x → sl_locked (b_lock x) = false) →
  wp (binit_loop (seq k n)) (λ _ s',
    (∃ l', l' = rev (seq k n) ++ l ∧ NoDup l' ∧ (∀ i, i ∈ l' ↔ (i < k + n)%nat) ∧
       seg (λ i, nxt s' !!! i) (λ i, prv s' !!! i) head l' head) ∧
    bufs s' = take k (bufs s) ++ (set_lock initsleeplock <$> take n (drop k (bufs s)))
                ++ drop (k + n) (bufs s) ∧
    disk s' = disk s ∧ trace s' = trace s ∧ mypid s' = mypid s) s.
Proof.
  induction n as [|n IH]; intros s k l Hk Hlen Hnd Hl Hseg Hun.
  { cbn [seq binit_loop]. apply wp_ret. rewrite Nat.add_0_r.
    split; [exists l; rewrite ?Nat.add_0_r; auto|]. simpl. by rewrite take_drop. }
  cbn [seq binit_loop]. destruct (lookup_lt_is_Some_2 (bufs s) k) as [x Hx]; [lia|].
  apply wp_bind. eapply wp_mono.
  { apply (binit_one_spec s l k x); [lia|done|done| | |done].
    - intros i Hi%Hl. lia.
    - rewrite Hl. lia. }
  intros [] s1 (Hseg1 & Hb1 & Hd1 & Ht1 & Hp1). eapply wp_mono.
  { apply (IH s1 (S k) (k :: l)); [lia| | | |done|].
    - by rewrite Hb1, length_insert.
    - constructor; [rewrite Hl; lia|done].
    - intros i. rewrite elem_of_cons, Hl. lia.
    - intros i y Hi Hy. rewrite Hb1 in Hy.
      apply list_lookup_insert_Some in Hy as [(-> & <- & _)|[Hne Hy]]; [done|].
      eapply Hun; [|done]. lia. }
  intros [] s2 ((l' & -> & Hnd' & Hl' & Hseg') & Hb2 & Hd2 & Ht2 & Hp2).
  split.
  { eexists. split; [reflexivity|]. cbn [rev seq]. rewrite <-app_assoc. split_and!; [done| |done].
    intros i. cbn [app]. rewrite Hl'. lia. }
  rewrite Hb2, Hb1. split_and!; [|congruence..].
  rewrite (drop_S _ _ _ Hx). cbn [take fmap list_fmap].
  rewrite !drop_insert_lt by lia. rewrite (take_S_r _ _ (set_lock initsleeplock x))
    by (apply list_lookup_insert_eq; lia).
  rewrite take_insert_ge, <-app_assoc by lia. simpl. by rewrite Nat.add_succ_r.
Qed.

Lemma binit_order s :
  length (bufs s) = NBUF →
  wp binit (λ _ s', order s' (rev (seq 0 NBUF)) ∧
    bufs s' = set_lock initsleeplock <$> bufs s ∧
    disk s' = disk s ∧ trace s' = trace s ∧ mypid s' = mypid s) s.
Proof.
  intros Hlen. unfold binit, set_prev, set_next. do 4 wp_pure.
  match goal with |- wp _ _ ?t => set (s1 := t) end.
  eapply wp_mono.
  { apply (binit_loop_spec NBUF s1 0 []); [done|done|constructor| | |lia].
    - intros i. rewrite elem_of_nil. lia.
    - simpl. by rewrite !lookup_total_insert_eq. }
  intros [] s' ((l' & -> & Hnd & Hin & Hseg) & Hb & Hd & Ht & Hp).
  rewrite app_nil_r in *. rewrite take_0, drop_0 in Hb. cbn [app Nat.add] in Hb.
  change (bufs s1) with (bufs s) in Hb.
  rewrite take_ge, drop_ge, app_nil_r in Hb by lia.
  split; [|done]. split; [by rewrite Hb, length_fmap|done].
Qed.

Lemma bio_boot_state d pid :
  order (bio_boot d pid) (rev (seq 0 NBUF)) ∧
  (∀ i x, bufs (bio_boot d pid) !! i = Some x → x = buf0) ∧
  disk (bio_boot d pid) = d ∧ trace (bio_boot d pid) = [] ∧ mypid (bio_boot d pid) = pid.
Proof.
  destruct (proj1 (wp_ok _ _ _) (binit_order (bio_bss d pid) (length_replicate _ _)))
    as ([] & s' & Hrun & Ho & Hb & Hdk & Ht & Hp).
  unfold bio_boot. rewrite Hrun. cbn [run_state]. clear Hrun.
  cbn [bufs disk trace mypid bio_bss] in *.
  assert (Hall : ∀ i x, bufs s' !! i = Some x → x = buf0).
  { intros i x. rewrite Hb, fmap_replicate. by intros [-> _]%lookup_replicate. }
  done.
Qed.

Lemma bio_boot_rep dev d pid :
  dev ≠ 0 → (∀ b x, d !! b = Some x → is_block x) → bio_rep dev (bio_boot d pid) d ∅ [].
Proof.
  intros Hdev Hd. destruct (bio_boot_state d pid) as (Ho & Hall & Hdk & Ht & Hp).
  constructor; [done|by eexists|done|done|done| |by intros i p| |by intros b y].
  - intros i x ->%Hall. rewrite lookup_empty. split; [split; simpl; lia|]. unfold pin_of.
    rewrite decide_False by (simpl; congruence). by split_and!.
  - intros i j x y ->%Hall _ Hne. by destruct Hne.
Qed.

(** * What a client of the cache sees *)

(** A client's requests: read a block, or overwrite bytes of one. *)
Inductive request :=
  | Rd (b : Z)
  | Wr (b : Z) (off : nat) (bs : list Z).

(** Served through the cache: each request does [bread], ..., [brelse]. *)
Definition serve (dev : Z) (r : request) : M bio (list Z) :=
  match r with
  | Rd b => read_block dev b
  | Wr b off bs => update_block dev b (splice off bs);; mret []
  end.
Fixpoint serve_all (dev : Z) (rs : list request) : M bio (list (list Z)) :=
  match rs with
  | [] => mret []
  | r :: rs => x ← serve dev r; xs ← serve_all dev rs; mret (x :: xs)
  end.

(** Served by a disk with no cache in front of it. *)
Definition disk_serve (r : request) (d : disk_map) : option (list Z * disk_map * write_trace) :=
  match r with
  | Rd b => x ← d !! b; mret (x, d, [])
  | Wr b off bs => x ← d !! b; mret ([], <[b := splice off bs x]> d, [(b, splice off bs x)])
  end.
Fixpoint disk_serve_all (rs : list request) (d : disk_map) :
    option (list (list Z) * disk_map * write_trace) :=
  match rs with
  | [] => mret ([], d, [])
  | r :: rs =>
      '(x, d1, t1) ← disk_serve r d;
      '(xs, d2, t2) ← disk_serve_all rs d1;
      mret (x :: xs, d2, t1 ++ t2)
  end.

(** Requests a C client can make: in range for the driver, bytes of a block. *)
Definition request_ok (r : request) : bool :=
  match r with
  | Rd b => bool_decide (0 ≤ b < 2 ^ 31)
  | Wr b off bs => bool_decide (0 ≤ b < 2 ^ 31) && (off + length bs <=? BSIZE)%nat
                     && forallb (λ z, (0 <=? z) && (z <? 256)) bs
  end.

Lemma request_ok_bytes bs : forallb (λ z, (0 <=? z) && (z <? 256)) bs = true → bytes bs.
Proof.
  induction bs as [|z bs IH]; simpl; [constructor|]. intros [Hz Hbs]%andb_prop.
  constructor; [wrap_lia|by apply IH].
Qed.

Lemma serve_rep dev s d tr r x d1 t1 :
  bio_rep dev s d ∅ tr → request_ok r = true → disk_serve r d = Some (x, d1, t1) →
  wp (serve dev r) (λ y s', y = x ∧ bio_rep dev s' d1 ∅ (tr ++ t1)) s.
Proof.
  intros Hr Hok. destruct r as [b|b off bs]; simpl in *.
  - apply bool_decide_eq_true in Hok. destruct (d !! b) as [y|] eqn:Hb; [|done].
    intros [= -> -> <-]. rewrite app_nil_r.
    apply (read_block_spec (LAWS := bio_laws) dev s _ ∅ tr b x); auto with blk.
    rewrite map_size_empty. unfold NBUF. lia.
  - apply andb_prop in Hok as [[Hb2%bool_decide_eq_true Hl]%andb_prop Hbs%request_ok_bytes].
    destruct (d !! b) as [y|] eqn:Hb; [|done]. intros [= <- <- <-].
    apply wp_bind. eapply wp_mono.
    { apply (update_block_spec (LAWS := bio_laws) dev s d ∅ tr b y); auto with blk.
      + rewrite map_size_empty. unfold NBUF. lia.
      + apply Nat.leb_le in Hl. apply is_block_splice; [|done|done]. by eapply br_blocks. }
    intros [] s' Hs'. by apply wp_ret.
Qed.

Lemma serve_all_rep dev rs : ∀ s d tr xs d' t',
  bio_rep dev s d ∅ tr → forallb request_ok rs = true →
  disk_serve_all rs d = Some (xs, d', t') →
  wp (serve_all dev rs) (λ ys s', ys = xs ∧ bio_rep dev s' d' ∅ (tr ++ t')) s.
Proof.
  induction rs as [|r rs IH]; intros s d tr xs d' t' Hr; cbn [forallb serve_all disk_serve_all].
  { intros _ [= <- <- <-]. apply wp_ret. by rewrite app_nil_r. }
  intros [Hok Hoks]%andb_prop Hd.
  destruct (disk_serve r d) as [[[x d1] t1]|] eqn:Hd1; [|done]. simpl in Hd.
  destruct (disk_serve_all rs d1) as [[[ys d2] t2]|] eqn:Hd2; [|done].
  simpl in Hd. injection Hd as <- <- <-.
  apply wp_bind. eapply wp_mono; [by eapply serve_rep|]. intros y s1 [-> Hr1].
  apply wp_bind. eapply wp_mono; [by eapply IH|]. intros zs s2 [-> Hr2].
  apply wp_ret. by rewrite app_assoc.
Qed.

(** C5: from boot, any sequence of reads and partial writes of existing blocks
    served through the thirty-buffer cache returns (no panic, no blocking),
    returns exactly the bytes an uncached disk would return, leaves the same
    disk, and writes the same blocks to it in the same order. *)
Theorem cache_refines_disk dev (d : disk_map) pid rs xs d' t' :
  dev ≠ 0 → (∀ b x, d !! b = Some x → is_block x) →
  forallb request_ok rs = true → disk_serve_all rs d = Some (xs, d', t') →
  ∃ s', serve_all dev rs (bio_boot d pid) = Ok xs s' ∧ disk s' = d' ∧ trace s' = t'.
Proof.
  intros Hdev Hd Hok Hrs.
  destruct (proj1 (wp_ok _ _ _) (serve_all_rep dev rs _ d [] xs d' t'
    (bio_boot_rep dev d pid Hdev Hd) Hok Hrs)) as (ys & s' & Hrun & -> & Hr).
  exists s'. split; [done|]. split; [by eapply br_disk|by eapply br_trace].
Qed.

Lemma cache_refines_disk_witness :
  ∃ s', serve_all 2 [Rd 5; Wr 5 3 [7; 8]; Rd 5]
          (bio_boot {[ 5 := zero_block ]} 1)
        = Ok [zero_block; []; splice 3 [7; 8] zero_block] s' ∧
        disk s' = {[ 5 := splice 3 [7; 8] zero_block ]} ∧
        trace s' = [(5, splice 3 [7; 8] zero_block)].
Proof.
  apply (cache_refines_disk 2 {[ 5 := zero_block ]} 1).
  - lia.
  - intros b x [<- <-]%lookup_singleton_Some. apply is_block_zero.
  - reflexivity.
  - vm_compute. reflexivity.
Defined.

(** [bget] on a cache in LRU order: the unique buffer of a cached block is
    returned (or waited for, if somebody holds it); on a miss the unused buffer
    released longest ago is recycled, locked, marked invalid and given the
    block's identity while every other buffer keeps its own; when every buffer
    is in use [bget] panics. *)
Theorem bget_cases s l dev blockno :
  dev ≠ 0 → order s l → no_alias (bufs s) →
  (∀ j y, bufs s !! j = Some y → b_refcnt y = 0 → sl_locked (b_lock y) = false) →
  (∃ i x, bufs s !! i = Some x ∧ is_block_of dev blockno x ∧
     let x1 := set_refcnt (u32 (b_refcnt x + 1)) x in
     bget dev blockno s =
       if sl_locked (b_lock x) then Sleep (with_bufs (<[i := x1]> (bufs s)) s)
       else Ok i (with_bufs (<[i := set_lock (MkSleeplock true (mypid s)) x1]> (bufs s)) s)) ∨
  (∃ i x, lru_victim s l i ∧ bufs s !! i = Some x ∧
     bget dev blockno s = Ok i (with_bufs
       (<[i := set_lock (MkSleeplock true (mypid s))
                 (set_refcnt 1 (set_valid false (set_id dev blockno x)))]> (bufs s)) s)) ∨
  ((∀ j y, bufs s !! j = Some y → b_refcnt y ≠ 0) ∧
     bget dev blockno s = Panic "bget: no buffers").
Proof.
  intros Hdev Ho Hna Hunl.
  destruct (list_find (is_block_of dev blockno) (bufs s)) as [[i x]|] eqn:Hfind.
  - left. apply list_find_Some in Hfind as (Hi & Hid & _). exists i, x. split_and!; [done|apply Hid..|].
    cbv zeta. rewrite (bget_hit s l dev blockno i x); [|done..|].
    + destruct x, b_lock0. done.
    + intros j y Hj [Hyd Hyb]. destruct Hid as [Hxd Hxb].
      eapply Hna; [done..|congruence|]. split; congruence.
  - right. apply list_find_None in Hfind. rewrite Forall_forall in Hfind.
    assert (Hmiss : ∀ j y, bufs s !! j = Some y → ¬ is_block_of dev blockno y).
    { intros j y Hj. apply Hfind. by eapply list_elem_of_lookup_2. }
    destruct (list_find (λ y, b_refcnt y = 0) (bufs s)) as [[k z]|] eqn:Hfree.
    + left. apply list_find_Some in Hfree as (Hk & Hz & _).
      destruct (bget_miss s l dev blockno) as (i & x & Hvic & Hi & _ & Hrun); [done..|by eexists k, z|done|].
      exists i, x. auto.
    + right. apply list_find_None in Hfree. rewrite Forall_forall in Hfree.
      assert (Hfull : ∀ j y, bufs s !! j = Some y → b_refcnt y ≠ 0).
      { intros j y Hj. apply Hfree. by eapply list_elem_of_lookup_2. }
      split; [done|]. by eapply bget_full.
Qed.

Lemma bget_cases_witness :
  ∃ i, lru_victim (bio_boot ∅ 1) (rev (seq 0 NBUF)) i ∧ ∃ s', bget 2 5 (bio_boot ∅ 1) = Ok i s'.
Proof.
  destruct (bio_boot_state ∅ 1) as (Ho & Hall & _).
  destruct (bget_cases (bio_boot ∅ 1) (rev (seq 0 NBUF)) 2 5)
    as [(i & x & Hx & Hid & _)|[(i & x & Hv & _ & Hrun)|(Hfull & _)]].
  - lia.
  - exact Ho.
  - intros i j x y Hi%Hall _ Hne. by subst.
  - intros j y ->%Hall. reflexivity.
  - apply Hall in Hx as ->. by destruct Hid.
  - eauto.
  - exfalso. apply (Hfull 0%nat buf0); reflexivity.
Defined.

End Bio.
