(* ===== verification/Virtio.v ===== *)
(** The disk driver, [kernel/virtio_disk.c] and [kernel/virtio.h], with the
    device it drives.

    [struct disk], the buffers and the processes that are inside
    [virtio_disk_rw] make up the state.  The pages of descriptors and rings are
    records; the addresses that go into descriptors are names of the objects
    they point to ([&disk.ops[i]], [b->data], [&disk.info[i].status]).  A call
    runs, with [vdisk_lock] held, until it sleeps or returns.  The device is the
    one section 2.6 and 5.2 of the virtio specification describe: it takes chains
    from the available ring, serves them in any order, and puts them on the used
    ring; it does so between any two runs of the driver and between any two
    iterations of the interrupt handler. *)

From S2P Require Import Prelude BlockIO Bio Ring.

Local Open Scope Z_scope.

Module Virtio.

Import Bio (buf, MkBuf, b_valid, b_disk, b_dev, b_blockno, b_lock, b_refcnt, b_data, set_data).

(** ** [virtio.h] *)

Definition NUM : nat := 8.
Definition VRING_DESC_F_NEXT : Z := 1.
Definition VRING_DESC_F_WRITE : Z := 2.
Definition VIRTIO_BLK_T_IN : Z := 0.
Definition VIRTIO_BLK_T_OUT : Z := 1.

(** What an address in a descriptor points to. *)
Inductive ptr := Null | POps (i : nat) | PData (b : nat) | PStatus (i : nat).

Record virtq_desc := MkDesc { addr : ptr; len : Z; flags : Z; next : nat }.
Record virtq_avail := MkAvail { a_idx : Z; a_ring : list nat }.
(** An entry of the used ring is the pair of [id] and [len]. *)
Record virtq_used := MkUsed { u_idx : Z; u_ring : list (nat * Z) }.
Record virtio_blk_req := MkReq { type : Z; reserved : Z; sector : Z }.

(** ** [struct disk] *)

Record info := MkInfo { i_b : option nat; i_status : Z }.

Record disk := MkDisk {
  desc : list virtq_desc;
  avail : virtq_avail;
  used : virtq_used;
  free : list bool;
  used_idx : Z;
  infos : list info;
  ops : list virtio_blk_req;
}.

Definition with_desc (x : list virtq_desc) (d : disk) : disk :=
  MkDisk x (avail d) (used d) (free d) (used_idx d) (infos d) (ops d).
Definition with_avail (x : virtq_avail) (d : disk) : disk :=
  MkDisk (desc d) x (used d) (free d) (used_idx d) (infos d) (ops d).
Definition with_used (x : virtq_used) (d : disk) : disk :=
  MkDisk (desc d) (avail d) x (free d) (used_idx d) (infos d) (ops d).
Definition with_free (x : list bool) (d : disk) : disk :=
  MkDisk (desc d) (avail d) (used d) x (used_idx d) (infos d) (ops d).
Definition with_used_idx (x : Z) (d : disk) : disk :=
  MkDisk (desc d) (avail d) (used d) (free d) x (infos d) (ops d).
Definition with_infos (x : list info) (d : disk) : disk :=
  MkDisk (desc d) (avail d) (used d) (free d) (used_idx d) x (ops d).
Definition with_ops (x : list virtio_blk_req) (d : disk) : disk :=
  MkDisk (desc d) (avail d) (used d) (free d) (used_idx d) (infos d) x.

(** ** The state *)

(** Where a call of [virtio_disk_rw] is: it needs descriptors, or it waits for
    the request it put into the chain [idx]. *)
Inductive pc := Alloc | Wait (i0 i1 i2 : nat).
#[export] Instance pc_eq_dec : EqDecision pc.
Proof. solve_decision. Defined.

(** The channels: [&disk.free[0]] and the buffer. *)
Inductive chan := ChFree | ChBuf (b : nat).
#[export] Instance chan_eq_dec : EqDecision chan.
Proof. solve_decision. Defined.

Record thread := MkThread { t_b : nat; t_write : bool; t_pc : pc; t_asleep : bool }.
Definition t_chan (th : thread) : chan :=
  match t_pc th with Alloc => ChFree | Wait _ _ _ => ChBuf (t_b th) end.

(** The device: how far it has read the available ring, the chains it has taken
    and not served, those served and not yet returned, and its sectors. *)
Record device := MkDev {
  last_avail : Z;
  pending : list nat;
  served : list nat;
  sectors : gmap Z (list Z);
}.

Record vsys := MkSys {
  dsk : disk;
  bufs : list buf;
  threads : gmap nat thread;
  dev : device;
  in_intr : bool;
}.

Definition with_dsk (f : disk → disk) (s : vsys) : vsys :=
  MkSys (f (dsk s)) (bufs s) (threads s) (dev s) (in_intr s).
Definition with_bufs (x : list buf) (s : vsys) : vsys :=
  MkSys (dsk s) x (threads s) (dev s) (in_intr s).
Definition with_threads (f : gmap nat thread → gmap nat thread) (s : vsys) : vsys :=
  MkSys (dsk s) (bufs s) (f (threads s)) (dev s) (in_intr s).
Definition with_dev (x : device) (s : vsys) : vsys :=
  MkSys (dsk s) (bufs s) (threads s) x (in_intr s).
Definition with_intr (x : bool) (s : vsys) : vsys :=
  MkSys (dsk s) (bufs s) (threads s) (dev s) x.

Definition setd (f : disk → disk) : M vsys unit := modify (with_dsk f).
Definition rdbuf (b : nat) : M vsys buf := s ← get; of_option (bufs s !! b).
Definition set_disk (v : bool) (b : buf) : buf :=
  MkBuf (b_valid b) v (b_dev b) (b_blockno b) (b_lock b) (b_refcnt b) (b_data b).
Definition upd (b : nat) (f : buf → buf) : M vsys unit :=
  x ← rdbuf b; modify (λ s, with_bufs (<[b := f x]> (bufs s)) s).

Definition wake_one (ch : chan) (th : thread) : thread :=
  if bool_decide (t_chan th = ch) then MkThread (t_b th) (t_write th) (t_pc th) false else th.
Definition wakeup (ch : chan) : M vsys unit := modify (with_threads (fmap (wake_one ch))).

(** ** Descriptors *)

Fixpoint alloc_desc_loop (k i : nat) : M vsys (option nat) :=
  match k with
  | O => mret None
  | S k =>
      d ← gets dsk; f ← of_option (free d !! i);
      if (f : bool) then setd (with_free (<[i := false]> (free d)));; mret (Some i)
      else alloc_desc_loop k (S i)
  end.
Definition alloc_desc : M vsys (option nat) := alloc_desc_loop NUM 0.

Definition free_desc (i : nat) : M vsys unit :=
  if bool_decide (NUM ≤ i)%nat then panic "free_desc 1" else
  d ← gets dsk; f ← of_option (free d !! i);
  if (f : bool) then panic "free_desc 2" else
  setd (with_desc (<[i := MkDesc Null 0 0 0]> (desc d)));;
  setd (with_free (<[i := true]> (free d)));;
  wakeup ChFree.

(** [while(1)]: a chain that loops would come back to a descriptor already
    freed, on which [free_desc] panics, so one round per descriptor is enough. *)
Fixpoint free_chain_loop (fuel i : nat) : M vsys unit :=
  match fuel with
  | O => nofuel
  | S fuel =>
      d ← gets dsk; x ← of_option (desc d !! i);
      free_desc i;;
      if bool_decide (Z.land (flags x) VRING_DESC_F_NEXT ≠ 0) then free_chain_loop fuel (next x)
      else mret tt
  end.
Definition free_chain (i : nat) : M vsys unit := free_chain_loop (S NUM) i.

Fixpoint free_descs (idx : list nat) : M vsys unit :=
  match idx with [] => mret tt | i :: idx => free_desc i;; free_descs idx end.
(** The loop of [alloc3_desc], with [idx] filled so far. *)
Fixpoint alloc3_loop (k : nat) (idx : list nat) : M vsys (option (list nat)) :=
  match k with
  | O => mret (Some idx)
  | S k =>
      i ← alloc_desc;
      match i with
      | Some i => alloc3_loop k (idx ++ [i])
      | None => free_descs idx;; mret None
      end
  end.
Definition alloc3_desc : M vsys (option (list nat)) := alloc3_loop 3 [].

(** ** [virtio_disk_rw] *)

(** [sector = b->blockno * (BSIZE / 512)], in 32 bits. *)
Definition sector_of (x : buf) : Z := u32 (b_blockno x * (Z.of_nat BSIZE / 512)).

(** Formatting the chain and handing it to the device. *)
Definition rw_submit (b : nat) (write : bool) (i0 i1 i2 : nat) : M vsys unit :=
  x ← rdbuf b;
  setd (λ d, with_ops (<[i0 := MkReq (if write then VIRTIO_BLK_T_OUT else VIRTIO_BLK_T_IN) 0 (sector_of x)]> (ops d)) d);;
  setd (λ d, with_desc (<[i0 := MkDesc (POps i0) 16 VRING_DESC_F_NEXT i1]> (desc d)) d);;
  setd (λ d, with_desc (<[i1 := MkDesc (PData b) (Z.of_nat BSIZE)
                                 (Z.lor (if write then 0 else VRING_DESC_F_WRITE) VRING_DESC_F_NEXT) i2]> (desc d)) d);;
  setd (λ d, with_infos (alter (λ x, MkInfo (i_b x) 255) i0 (infos d)) d);;
  setd (λ d, with_desc (<[i2 := MkDesc (PStatus i0) 1 VRING_DESC_F_WRITE 0]> (desc d)) d);;
  upd b (set_disk true);;
  setd (λ d, with_infos (alter (λ x, MkInfo (Some b) (i_status x)) i0 (infos d)) d);;
  setd (λ d, with_avail (MkAvail (a_idx (avail d))
                          (<[Z.to_nat (a_idx (avail d) mod Z.of_nat NUM) := i0]> (a_ring (avail d)))) d);;
  setd (λ d, with_avail (MkAvail (u16 (a_idx (avail d) + 1)) (a_ring (avail d))) d).

(** [while(b->disk == 1) sleep(b, ...)], and what follows.  The result is
    [None] when the call returns, and otherwise where it sleeps. *)
Definition rw_wait (b : nat) (i0 i1 i2 : nat) : M vsys (option pc) :=
  x ← rdbuf b;
  if b_disk x then mret (Some (Wait i0 i1 i2)) else
  setd (λ d, with_infos (alter (λ x, MkInfo None (i_status x)) i0 (infos d)) d);;
  free_chain i0;;
  mret None.

(** A run of [virtio_disk_rw(b, write)], from the call ([Alloc]) or from where
    it slept. *)
Definition virtio_disk_rw (b : nat) (write : bool) (p : pc) : M vsys (option pc) :=
  match p with
  | Alloc =>
      r ← alloc3_desc;
      match r with
      | Some [i0; i1; i2] => rw_submit b write i0 i1 i2;; rw_wait b i0 i1 i2
      | Some _ => undef
      | None => mret (Some Alloc)
      end
  | Wait i0 i1 i2 => rw_wait b i0 i1 i2
  end.

(** ** [virtio_disk_intr] *)

Definition intr_pending (s : vsys) : bool := bool_decide (used_idx (dsk s) ≠ u_idx (used (dsk s))).
(** The body of the loop. *)
Definition intr_body : M vsys unit :=
  d ← gets dsk;
  e ← of_option (u_ring (used d) !! Z.to_nat (used_idx d mod Z.of_nat NUM));
  i ← of_option (infos d !! e.1);
  if bool_decide (i_status i ≠ 0) then panic "virtio_disk_intr status" else
  b ← of_option (i_b i);
  upd b (set_disk false);;
  wakeup (ChBuf b);;
  setd (λ d, with_used_idx (u16 (used_idx d + 1)) d).

(** The handler, when the device adds nothing while it runs.  There are never
    more than [NUM] entries to look at. *)
Fixpoint intr_loop (fuel : nat) : M vsys unit :=
  match fuel with
  | O => nofuel
  | S fuel => more ← gets intr_pending; if (more : bool) then intr_body;; intr_loop fuel else mret tt
  end.
Definition virtio_disk_intr : M vsys unit := intr_loop (S NUM).

(** ** [virtio_disk_init] *)

Definition VIRTIO_MMIO_MAGIC_VALUE : Z := 0x000.
Definition VIRTIO_MMIO_VERSION : Z := 0x004.
Definition VIRTIO_MMIO_DEVICE_ID : Z := 0x008.
Definition VIRTIO_MMIO_VENDOR_ID : Z := 0x00c.
Definition VIRTIO_MMIO_DEVICE_FEATURES : Z := 0x010.
Definition VIRTIO_MMIO_DRIVER_FEATURES : Z := 0x020.
Definition VIRTIO_MMIO_QUEUE_SEL : Z := 0x030.
Definition VIRTIO_MMIO_QUEUE_NUM_MAX : Z := 0x034.
Definition VIRTIO_MMIO_QUEUE_NUM : Z := 0x038.
Definition VIRTIO_MMIO_QUEUE_READY : Z := 0x044.
Definition VIRTIO_MMIO_STATUS : Z := 0x070.
Definition VIRTIO_MMIO_QUEUE_DESC_LOW : Z := 0x080.
Definition VIRTIO_MMIO_QUEUE_DESC_HIGH : Z := 0x084.
Definition VIRTIO_MMIO_DRIVER_DESC_LOW : Z := 0x090.
Definition VIRTIO_MMIO_DRIVER_DESC_HIGH : Z := 0x094.
Definition VIRTIO_MMIO_DEVICE_DESC_LOW : Z := 0x0a0.
Definition VIRTIO_MMIO_DEVICE_DESC_HIGH : Z := 0x0a4.

Definition VIRTIO_CONFIG_S_ACKNOWLEDGE : Z := 1.
Definition VIRTIO_CONFIG_S_DRIVER : Z := 2.
Definition VIRTIO_CONFIG_S_DRIVER_OK : Z := 4.
Definition VIRTIO_CONFIG_S_FEATURES_OK : Z := 8.

Definition VIRTIO_BLK_F_RO : Z := 5.
Definition VIRTIO_BLK_F_SCSI : Z := 7.
Definition VIRTIO_BLK_F_CONFIG_WCE : Z := 11.
Definition VIRTIO_BLK_F_MQ : Z := 12.
Definition VIRTIO_F_ANY_LAYOUT : Z := 27.
Definition VIRTIO_RING_F_INDIRECT_DESC : Z := 28.
Definition VIRTIO_RING_F_EVENT_IDX : Z := 29.

(** The writes to device registers so far, and [disk]. *)
Record boot := MkBoot { regs : list (Z * Z); b_dsk : disk }.

Section init.
(** What register [r] reads as after some writes. *)
Variable mmio : list (Z * Z) → Z → Z.

Definition R_read (r : Z) : M boot Z := gets (λ s, u32 (mmio (regs s) r)).
Definition R_write (r v : Z) : M boot unit := modify (λ s, MkBoot (regs s ++ [(r, u32 v)]) (b_dsk s)).
Definition bootd (f : disk → disk) : M boot unit := modify (λ s, MkBoot (regs s) (f (b_dsk s))).
(** [features &= ~(1 << bit)]. *)
Definition drop_feature (bit features : Z) : Z := Z.ldiff features (Z.shiftl 1 bit).

(** [pd], [pa] and [pu] are what the three calls of [kalloc] return. *)
Definition virtio_disk_init (pd pa pu : Z) : M boot unit :=
  magic ← R_read VIRTIO_MMIO_MAGIC_VALUE;
  version ← R_read VIRTIO_MMIO_VERSION;
  device_id ← R_read VIRTIO_MMIO_DEVICE_ID;
  vendor ← R_read VIRTIO_MMIO_VENDOR_ID;
  if bool_decide (magic ≠ 0x74726976 ∨ version ≠ 2 ∨ device_id ≠ 2 ∨ vendor ≠ 0x554d4551)
  then panic "could not find virtio disk" else
  let status := 0 in
  R_write VIRTIO_MMIO_STATUS status;;
  let status := Z.lor status VIRTIO_CONFIG_S_ACKNOWLEDGE in
  R_write VIRTIO_MMIO_STATUS status;;
  let status := Z.lor status VIRTIO_CONFIG_S_DRIVER in
  R_write VIRTIO_MMIO_STATUS status;;
  features ← R_read VIRTIO_MMIO_DEVICE_FEATURES;
  let features := drop_feature VIRTIO_BLK_F_RO features in
  let features := drop_feature VIRTIO_BLK_F_SCSI features in
  let features := drop_feature VIRTIO_BLK_F_CONFIG_WCE features in
  let features := drop_feature VIRTIO_BLK_F_MQ features in
  let features := drop_feature VIRTIO_F_ANY_LAYOUT features in
  let features := drop_feature VIRTIO_RING_F_EVENT_IDX features in
  let features := drop_feature VIRTIO_RING_F_INDIRECT_DESC features in
  R_write VIRTIO_MMIO_DRIVER_FEATURES features;;
  let status := Z.lor status VIRTIO_CONFIG_S_FEATURES_OK in
  R_write VIRTIO_MMIO_STATUS status;;
  status ← R_read VIRTIO_MMIO_STATUS;
  if bool_decide (Z.land status VIRTIO_CONFIG_S_FEATURES_OK = 0)
  then panic "virtio disk FEATURES_OK unset" else
  R_write VIRTIO_MMIO_QUEUE_SEL 0;;
  ready ← R_read VIRTIO_MMIO_QUEUE_READY;
  if bool_decide (ready ≠ 0) then panic "virtio disk should not be ready" else
  max ← R_read VIRTIO_MMIO_QUEUE_NUM_MAX;
  if bool_decide (max = 0) then panic "virtio disk has no queue 0" else
  if bool_decide (max < Z.of_nat NUM) then panic "virtio disk max queue too short" else
  if bool_decide (pd = 0 ∨ pa = 0 ∨ pu = 0) then panic "virtio disk kalloc" else
  bootd (with_desc (replicate NUM (MkDesc Null 0 0 0)));;
  bootd (with_avail (MkAvail 0 (replicate NUM 0%nat)));;
  bootd (with_used (MkUsed 0 (replicate NUM (0%nat, 0))));;
  R_write VIRTIO_MMIO_QUEUE_NUM (Z.of_nat NUM);;
  R_write VIRTIO_MMIO_QUEUE_DESC_LOW pd;;
  R_write VIRTIO_MMIO_QUEUE_DESC_HIGH (Z.shiftr pd 32);;
  R_write VIRTIO_MMIO_DRIVER_DESC_LOW pa;;
  R_write VIRTIO_MMIO_DRIVER_DESC_HIGH (Z.shiftr pa 32);;
  R_write VIRTIO_MMIO_DEVICE_DESC_LOW pu;;
  R_write VIRTIO_MMIO_DEVICE_DESC_HIGH (Z.shiftr pu 32);;
  R_write VIRTIO_MMIO_QUEUE_READY 0x1;;
  bootd (with_free (replicate NUM true));;
  let status := Z.lor status VIRTIO_CONFIG_S_DRIVER_OK in
  R_write VIRTIO_MMIO_STATUS status.
End init.

(** [disk] as the kernel is loaded: zero, with no pages yet. *)
Definition zero_disk : disk :=
  MkDisk [] (MkAvail 0 []) (MkUsed 0 []) (replicate NUM false) 0
    (replicate NUM (MkInfo None 0)) (replicate NUM (MkReq 0 0 0)).

(** ** The device *)

Definition has (f : Z) (x : virtq_desc) : bool := bool_decide (Z.land (flags x) f ≠ 0).

(** A request: its type, the first sector, the buffer and how many bytes of it,
    and which status byte to write. *)
Record request := MkRequest { r_type : Z; r_sector : Z; r_buf : nat; r_len : Z; r_status : nat }.

(** The request a chain stands for: a header the device reads, a data buffer
    that it writes when it reads the disk and reads when it writes the disk, and
    a byte for the status.  [None]: the chain is malformed. *)
Definition chain_of (d : disk) (head : nat) : option request :=
  d0 ← desc d !! head; d1 ← desc d !! next d0; d2 ← desc d !! next d1;
  match addr d0, addr d1, addr d2 with
  | POps o, PData b, PStatus i =>
      r ← ops d !! o;
      if bool_decide (len d0 = 16 ∧ len d2 = 1 ∧ len d1 mod 512 = 0 ∧
                      has VRING_DESC_F_NEXT d0 ∧ has VRING_DESC_F_NEXT d1 ∧ ¬ has VRING_DESC_F_NEXT d2 ∧
                      ¬ has VRING_DESC_F_WRITE d0 ∧ has VRING_DESC_F_WRITE d2 ∧
                      (type r = VIRTIO_BLK_T_IN ∧ has VRING_DESC_F_WRITE d1 ∨
                       type r = VIRTIO_BLK_T_OUT ∧ ¬ has VRING_DESC_F_WRITE d1))
      then Some (MkRequest (type r) (sector r) b (len d1) i)
      else None
  | _, _, _ => None
  end.

Fixpoint read_sectors (m : gmap Z (list Z)) (sec : Z) (n : nat) : option (list Z) :=
  match n with
  | O => Some []
  | S n => x ← m !! sec; l ← read_sectors m (sec + 1) n; Some (x ++ l)
  end.
Fixpoint write_sectors (m : gmap Z (list Z)) (sec : Z) (n : nat) (data : list Z) : option (gmap Z (list Z)) :=
  match n with
  | O => Some m
  | S n => _ ← m !! sec; write_sectors (<[sec := take 512 data]> m) (sec + 1) n (drop 512 data)
  end.

Definition set_status (i : nat) (z : Z) (s : vsys) : vsys :=
  with_dsk (λ d, with_infos (alter (λ x, MkInfo (i_b x) z) i (infos d)) d) s.

(** The transfer a request asks for; [None]: it is outside the disk. *)
Definition transfer (r : request) (s : vsys) : option vsys :=
  x ← bufs s !! r_buf r;
  let n := Z.to_nat (r_len r / 512) in
  let v := dev s in
  if bool_decide (r_type r = VIRTIO_BLK_T_IN) then
    data ← read_sectors (sectors v) (r_sector r) n;
    Some (with_bufs (<[r_buf r := set_data (splice 0 data (b_data x)) x]> (bufs s)) s)
  else
    m ← write_sectors (sectors v) (r_sector r) n (take (Z.to_nat (r_len r)) (b_data x));
    Some (with_dev (MkDev (last_avail v) (pending v) (served v) m) s).

(** Moving a chain that has been served. *)
Definition move_served (l1 l2 : list nat) (head : nat) (s : vsys) : vsys :=
  let v := dev s in with_dev (MkDev (last_avail v) (l1 ++ l2) (served v ++ [head]) (sectors v)) s.

(** Putting a chain that has been served on the used ring. *)
Definition completed (l1 l2 : list nat) (head : nat) (n : Z) (s : vsys) : vsys :=
  let v := dev s in
  with_dev (MkDev (last_avail v) (pending v) (l1 ++ l2) (sectors v))
    (with_dsk (λ d, with_used (MkUsed (u16 (u_idx (used d) + 1))
       (<[Z.to_nat (u_idx (used d) mod Z.of_nat NUM) := (head, n)]> (u_ring (used d)))) d) s).

(** ** Executions *)

(** What clients see: calls, returns, and their own changes to buffers they
    hold, which they make only when no call is at work on them. *)
Inductive event := ECall (t b : nat) (write : bool) | ERet (t : nat) | EStore (b : nat) (x : buf).

Definition no_call (s : vsys) (b : nat) : Prop := ∀ u th, threads s !! u = Some th → t_b th ≠ b.

Inductive vstep : vsys → option event → vsys → Prop :=
  | vs_call s t b w :
      threads s !! t = None → no_call s b → (b < length (bufs s))%nat →
      vstep s (Some (ECall t b w)) (with_threads (<[t := MkThread b w Alloc false]>) s)
  | vs_store s b x y :
      bufs s !! b = Some x → no_call s b → length (b_data y) = BSIZE → b_disk y = b_disk x →
      vstep s (Some (EStore b y)) (with_bufs (<[b := y]> (bufs s)) s)
  | vs_run s t b w p p' s' :
      in_intr s = false → threads s !! t = Some (MkThread b w p false) →
      virtio_disk_rw b w p s = Ok (Some p') s' →
      vstep s None (with_threads (<[t := MkThread b w p' true]>) s')
  | vs_return s t b w p s' :
      in_intr s = false → threads s !! t = Some (MkThread b w p false) →
      virtio_disk_rw b w p s = Ok None s' →
      vstep s (Some (ERet t)) (with_threads (delete t) s')
  | vs_intr s : in_intr s = false → vstep s None (with_intr true s)
  | vs_intr_body s s' :
      in_intr s = true → intr_pending s = true → intr_body s = Ok tt s' → vstep s None s'
  | vs_intr_end s : in_intr s = true → intr_pending s = false → vstep s None (with_intr false s)
  | vs_take s head :
      last_avail (dev s) ≠ a_idx (avail (dsk s)) →
      a_ring (avail (dsk s)) !! Z.to_nat (last_avail (dev s) mod Z.of_nat NUM) = Some head →
      vstep s None (with_dev (MkDev (u16 (last_avail (dev s) + 1)) (pending (dev s) ++ [head])
                                (served (dev s)) (sectors (dev s))) s)
  | vs_serve s l1 head l2 r s' :
      pending (dev s) = l1 ++ head :: l2 → chain_of (dsk s) head = Some r → transfer r s = Some s' →
      vstep s None (move_served l1 l2 head (set_status (r_status r) 0 s'))
  | vs_error s l1 head l2 r e :
      pending (dev s) = l1 ++ head :: l2 → chain_of (dsk s) head = Some r → 0 < e < 256 →
      vstep s None (move_served l1 l2 head (set_status (r_status r) e s))
  | vs_complete s l1 head l2 n :
      served (dev s) = l1 ++ head :: l2 → vstep s None (completed l1 l2 head n s).

(** A run and the events in it. *)
Inductive runs {S} (step : S → option event → S → Prop) : S → list event → S → Prop :=
  | runs_nil s : runs step s [] s
  | runs_tau s s' l s'' : step s None s' → runs step s' l s'' → runs step s l s''
  | runs_event s e s' l s'' : step s (Some e) s' → runs step s' l s'' → runs step s (e :: l) s''.

(** A disk [d] as [virtio_disk_init] leaves it, with buffers and sectors. *)
Definition start (d : disk) (bs : list buf) (m : gmap Z (list Z)) : vsys :=
  MkSys d bs ∅ (MkDev 0 [] [] m) false.

(** ** The specification

    [virtio_disk_rw] of the buffer cache's model happens at one moment between
    call and return. *)

Record spec := MkSpec { a_bio : Bio.bio; a_calls : gmap nat (nat * bool * bool) }.

Inductive spec_step : spec → option event → spec → Prop :=
  | sp_call bio c t b w :
      c !! t = None →
      spec_step (MkSpec bio c) (Some (ECall t b w)) (MkSpec bio (<[t := (b, w, false)]> c))
  | sp_transfer bio c t b w bio' :
      c !! t = Some (b, w, false) → Bio.virtio_disk_rw b w bio = Ok tt bio' →
      spec_step (MkSpec bio c) None (MkSpec bio' (<[t := (b, w, true)]> c))
  | sp_return bio c t b w :
      c !! t = Some (b, w, true) →
      spec_step (MkSpec bio c) (Some (ERet t)) (MkSpec bio (delete t c))
  | sp_store bio c b x :
      spec_step (MkSpec bio c) (Some (EStore b x))
        (MkSpec (Bio.with_bufs (<[b := x]> (Bio.bufs bio)) bio) c).
End Virtio.
