(* ===== verification/VirtioSpec.v ===== *)
(** The disk driver and its device together implement [virtio_disk_rw] of the
    buffer cache's model: each call transfers its block once, at one moment
    between call and return, whatever the interleaving; the driver never panics
    unless the device reports an error, and no call sleeps for ever. *)

From S2P Require Import Prelude BlockIO Bio Ring Virtio.

Local Open Scope Z_scope.

Module VirtioSpec.

Import Virtio.
Import Bio (buf, MkBuf, b_valid, b_disk, b_dev, b_blockno, b_lock, b_refcnt, b_data, set_data).

(** ** Rings with 16-bit counters *)

Section rings.
Context {A : Type} `{!Inhabited A}.
Implicit Types l : list A.

Abbreviation N := (Z.of_nat NUM).

(** The entries between counters [r] and [w]. *)
Definition queue l (r w : Z) : list A := ring N l r (u16 (w - r)).

Lemma queue_nil l r w : is_u16 r → is_u16 w → queue l r w = [] ↔ r = w.
Proof. intros. unfold queue. rewrite ring_nil by (cbn; wrap_lia). wrap_lia. Qed.

Lemma queue_push l r w c :
  length l = NUM → is_u16 r → is_u16 w → (length (queue l r w) < NUM)%nat →
  queue (<[Z.to_nat (w mod N) := c]> l) r (u16 (w + 1)) = queue l r w ++ [c].
Proof.
  intros Hl Hr Hw Hn. unfold queue in *. change N with 8 in *.
  assert (Hc : u16 (w - r) < 8).
  { pose proof (length_ring 8 l r (u16 (w - r)) ltac:(wrap_lia)). unfold NUM in *. lia. }
  clear Hn. replace (u16 (u16 (w + 1) - r)) with (u16 (w - r) + 1) by wrap_lia.
  rewrite <-(ring_push 8 ltac:(lia) l r (u16 (w - r)) c) by (unfold NUM in *; wrap_lia). do 3 f_equal. wrap_lia.
Qed.

Lemma queue_pop l r w :
  is_u16 r → is_u16 w → r ≠ w →
  queue l r w = l !!! Z.to_nat (r mod N) :: queue l (u16 (r + 1)) w.
Proof.
  intros Hr Hw Hne. unfold queue. change N with 8. rewrite (ring_pop 8) by wrap_lia. f_equal.
  rewrite (ring_mod 8 ltac:(lia) l (r + 1) (u16 (r + 1))) by wrap_lia. f_equal. wrap_lia.
Qed.
End rings.

(** ** What the driver's functions do *)

(** Not three free descriptors. *)
Definition few (F : list bool) : Prop :=
  ∀ i j k, NoDup [i; j; k] → F !! i = Some true → F !! j = Some true → F !! k = Some true → False.

Lemma alloc_desc_loop_run k : ∀ i s,
  length (free (dsk s)) = (i + k)%nat →
  (∃ j, free (dsk s) !! j = Some true ∧
        alloc_desc_loop k i s = Ok (Some j) (with_dsk (with_free (<[j := false]> (free (dsk s)))) s)) ∨
  (∀ j, (i ≤ j)%nat → free (dsk s) !! j ≠ Some true) ∧ alloc_desc_loop k i s = Ok None s.
Proof.
  induction k as [|k IH]; intros i s Hl; cbn [alloc_desc_loop].
  - right. split; [|done]. intros j Hj. rewrite lookup_ge_None_2 by lia. done.
  - destruct (lookup_lt_is_Some_2 (free (dsk s)) i ltac:(lia)) as [f Hf].
    unfold mbind, M_bind, gets, of_option. rewrite Hf. destruct f; [left; eauto|].
    destruct (IH (S i) s ltac:(lia)) as [?|[Hn ?]]; [by left|]. right. split; [|done].
    intros j Hj. destruct (decide (j = i)) as [->|]; [congruence|]. apply Hn. lia.
Qed.
Lemma alloc_desc_run s :
  length (free (dsk s)) = NUM →
  (∃ j, free (dsk s) !! j = Some true ∧
        alloc_desc s = Ok (Some j) (with_dsk (with_free (<[j := false]> (free (dsk s)))) s)) ∨
  (∀ j, free (dsk s) !! j ≠ Some true) ∧ alloc_desc s = Ok None s.
Proof.
  intros Hl. destruct (alloc_desc_loop_run NUM 0 s Hl) as [?|[Hn ?]]; [by left|right].
  split; [|done]. intros j. apply Hn. lia.
Qed.

Definition freed (i : nat) (s : vsys) : vsys :=
  with_threads (fmap (wake_one ChFree))
    (with_dsk (λ d, with_free (<[i := true]> (free d)) (with_desc (<[i := MkDesc Null 0 0 0]> (desc d)) d)) s).

Lemma free_desc_run i s :
  (i < NUM)%nat → free (dsk s) !! i = Some false → free_desc i s = Ok tt (freed i s).
Proof.
  intros Hi Hf. unfold free_desc. rewrite bool_decide_false by lia.
  unfold mbind, M_bind, gets, of_option. by rewrite Hf.
Qed.

Lemma wake_wake ch (th : gmap nat thread) : wake_one ch <$> (wake_one ch <$> th) = wake_one ch <$> th.
Proof.
  rewrite <-map_fmap_compose. apply map_fmap_ext. intros i x _. cbn. unfold wake_one.
  repeat case_bool_decide; done.
Qed.

(** A failed [alloc3_desc] gives back what it took: it clears some free
    descriptors and may wake the others that wait for some. *)
Definition retreat (s s' : vsys) : Prop :=
  ∃ ds f, s' = with_threads f (with_dsk (with_desc ds) s) ∧ length ds = length (desc (dsk s)) ∧
    (∀ i, free (dsk s) !! i = Some false → ds !! i = desc (dsk s) !! i) ∧
    (f = id ∨ f = fmap (wake_one ChFree)).

(** [F] is [F0] with the descriptors [idx], free before, taken. *)
Definition took (F0 : list bool) (idx : list nat) (F : list bool) : Prop :=
  NoDup idx ∧ (∀ i, i ∈ idx → F0 !! i = Some true) ∧
  ∀ j, F !! j = if decide (j ∈ idx) then Some false else F0 !! j.

Lemma took_nil F : took F [] F.
Proof. split; [constructor|]. split; [by intros i ?%elem_of_nil|]. intros j. by rewrite decide_False by apply not_elem_of_nil. Qed.
Lemma took_eq F0 F : took F0 [] F → F = F0.
Proof. intros (_ & _ & H). apply list_eq. intros j. rewrite H. by rewrite decide_False by apply not_elem_of_nil. Qed.
Lemma took_lookup F0 idx F i : took F0 idx F → i ∈ idx → F !! i = Some false.
Proof. intros (_ & _ & H) Hi. by rewrite H, decide_True. Qed.
Lemma took_one F0 idx F i : took F0 idx F → F !! i = Some true → took F0 (idx ++ [i]) (<[i := false]> F).
Proof.
  intros (Hnd & Hin & H) Hi. assert (i ∉ idx) by (intros ?; rewrite H, decide_True in Hi; done).
  assert (F0 !! i = Some true) by (by rewrite H, decide_False in Hi). split_and!.
  - apply NoDup_app. split; [done|]. split; [set_solver|apply NoDup_singleton].
  - set_solver.
  - intros j. destruct (decide (j = i)) as [->|Hne].
    + rewrite list_lookup_insert_eq by (by eapply lookup_lt_Some). rewrite decide_True by set_solver. done.
    + rewrite list_lookup_insert_ne, H by done. repeat case_decide; set_solver.
Qed.
Lemma took_back F0 i idx F : took F0 (i :: idx) F → took F0 idx (<[i := true]> F).
Proof.
  intros (Hnd & Hin & H). apply NoDup_cons in Hnd as [Hni Hnd]. split_and!; [done|set_solver|].
  intros j. destruct (decide (j = i)) as [->|Hne].
  - rewrite decide_False by done. rewrite list_lookup_insert_eq, Hin; [done|set_solver|].
    eapply lookup_lt_Some. rewrite H, decide_True by set_solver. done.
  - rewrite list_lookup_insert_ne, H by done. repeat case_decide; set_solver.
Qed.
Lemma took_length F0 idx F : took F0 idx F → length F = length F0.
Proof.
  intros (_ & Hin & H). apply Nat.le_antisymm; apply Nat.nlt_ge; intros Hlt;
    apply lookup_lt_is_Some_2 in Hlt as [x Hx].
  - rewrite H in Hx. case_decide as Hd; [apply Hin in Hd|]; apply lookup_lt_Some in Hx || apply lookup_lt_Some in Hd; lia.
  - specialize (H (length F)). rewrite lookup_ge_None_2 in H by done. case_decide; [done|]. congruence.
Qed.
Lemma took_few F0 idx F : took F0 idx F → (length idx < 3)%nat → (∀ j, F !! j ≠ Some true) → few F0.
Proof.
  intros (_ & _ & H) Hl Hn i j k Hd Hi Hj Hk.
  assert (Hin : ∀ x, F0 !! x = Some true → x ∈ idx).
  { intros x Hx. destruct (decide (x ∈ idx)); [done|]. destruct (Hn x). by rewrite H, decide_False. }
  assert (Hsub : [i; j; k] ⊆+ idx) by (apply NoDup_submseteq; [done|]; intros x; set_solver).
  apply submseteq_length in Hsub. cbn in Hsub. lia.
Qed.

Lemma free_descs_run s0 idx : ∀ F s,
  length (free (dsk s0)) = NUM → took (free (dsk s0)) idx F → retreat s0 s →
  ∃ s', free_descs idx (with_dsk (with_free F) s) = Ok tt s' ∧ retreat s0 s'.
Proof.
  induction idx as [|i idx IH]; intros F s Hl Ht Hr; cbn [free_descs].
  - apply took_eq in Ht as ->. eexists. split; [done|]. destruct Hr as (ds & f & -> & ?).
    exists ds, f. split; [|done]. by destruct s0 as [[]].
  - unfold mbind, M_bind. rewrite free_desc_run.
    + apply took_back in Ht as Ht'. destruct Hr as (ds & f & -> & Hlen & Hds & Hf).
      destruct (IH _ (with_threads (fmap (wake_one ChFree)) (with_dsk (with_desc (<[i := MkDesc Null 0 0 0]> ds)) s0)) Hl Ht') as (s' & Hrun & Hr').
      { eexists _, _. split; [done|]. rewrite length_insert. split; [done|]. split; [|by right].
        intros j Hj. destruct Ht as (_ & Hin & _). rewrite list_lookup_insert_ne; [by apply Hds|].
        intros ->. rewrite Hin in Hj by set_solver. done. }
      exists s'. split; [|done]. rewrite <-Hrun. f_equal. destruct s0 as [[] ? ? ? ?]. unfold freed. cbn.
      unfold with_threads. cbn. f_equal. destruct Hf as [-> | ->]; [done|]. by rewrite wake_wake.
    + destruct Ht as (_ & Hin & _). rewrite <-Hl. eapply lookup_lt_Some, Hin. set_solver.
    + cbn. eapply took_lookup; [done|set_solver].
Qed.

Lemma alloc3_loop_run s k : ∀ idx F,
  length (free (dsk s)) = NUM → took (free (dsk s)) idx F → (length idx + k = 3)%nat →
  (∃ js F', took (free (dsk s)) js F' ∧ length js = 3%nat ∧
     alloc3_loop k idx (with_dsk (with_free F) s) = Ok (Some js) (with_dsk (with_free F') s)) ∨
  (∃ s', few (free (dsk s)) ∧ retreat s s' ∧ alloc3_loop k idx (with_dsk (with_free F) s) = Ok None s').
Proof.
  induction k as [|k IH]; intros idx F Hl Ht Hk; cbn [alloc3_loop].
  - left. exists idx, F. split; [done|]. split; [lia|done].
  - assert (HlF : length F = NUM) by (rewrite <-Hl; by eapply took_length).
    unfold mbind, M_bind. destruct (alloc_desc_run (with_dsk (with_free F) s) HlF) as [(j & Hj & R)|[Hn R]]; rewrite R; cbn in *.
    + apply (IH (idx ++ [j])); [done|by apply took_one|rewrite length_app; cbn; lia].
    + right. destruct (free_descs_run s idx F s Hl Ht) as (s' & Hrun & Hr).
      { exists (desc (dsk s)), id. split; [by destruct s as [[]]|]. auto. }
      exists s'. split; [eapply took_few; [done|lia|done]|]. split; [done|]. unfold mbind, M_bind. by rewrite Hrun.
Qed.

Lemma alloc3_run s :
  length (free (dsk s)) = NUM →
  (∃ i0 i1 i2 F, took (free (dsk s)) [i0; i1; i2] F ∧
     alloc3_desc s = Ok (Some [i0; i1; i2]) (with_dsk (with_free F) s)) ∨
  (∃ s', few (free (dsk s)) ∧ retreat s s' ∧ alloc3_desc s = Ok None s').
Proof.
  intros Hl. assert (Hs : with_dsk (with_free (free (dsk s))) s = s) by (by destruct s as [[]]).
  destruct (alloc3_loop_run s 3 [] (free (dsk s)) Hl (took_nil _) eq_refl) as [(js & F & Ht & Hj & R)|(s' & ? & ? & R)];
    rewrite Hs in R; [left|right; by exists s'].
  destruct js as [|i0 [|i1 [|i2 [|]]]]; try done. by exists i0, i1, i2, F.
Qed.

(** The three descriptors of a request, in [desc]. *)
Definition data_flags (w : bool) : Z := Z.lor (if w then 0 else VRING_DESC_F_WRITE) VRING_DESC_F_NEXT.
Record chained (ds : list virtq_desc) (b : nat) (w : bool) (i0 i1 i2 : nat) : Prop := {
  ch_0 : ds !! i0 = Some (MkDesc (POps i0) 16 VRING_DESC_F_NEXT i1);
  ch_1 : ds !! i1 = Some (MkDesc (PData b) (Z.of_nat BSIZE) (data_flags w) i2);
  ch_2 : ds !! i2 = Some (MkDesc (PStatus i0) 1 VRING_DESC_F_WRITE 0);
}.

Definition header (w : bool) (x : buf) : virtio_blk_req :=
  MkReq (if w then VIRTIO_BLK_T_OUT else VIRTIO_BLK_T_IN) 0 (sector_of x).

(** After a request is handed to the device, with the free descriptors [F]. *)
Definition submitted (b : nat) (w : bool) (i0 i1 i2 : nat) (F : list bool) (x : buf) (s : vsys) : vsys :=
  let d := dsk s in
  MkSys
    (MkDisk
      (<[i2 := MkDesc (PStatus i0) 1 VRING_DESC_F_WRITE 0]>
        (<[i1 := MkDesc (PData b) (Z.of_nat BSIZE) (data_flags w) i2]>
          (<[i0 := MkDesc (POps i0) 16 VRING_DESC_F_NEXT i1]> (desc d))))
      (MkAvail (u16 (a_idx (avail d) + 1))
        (<[Z.to_nat (a_idx (avail d) mod Z.of_nat NUM) := i0]> (a_ring (avail d))))
      (used d) F (used_idx d)
      (alter (λ _, MkInfo (Some b) 255) i0 (infos d))
      (<[i0 := header w x]> (ops d)))
    (<[b := set_disk true x]> (bufs s)) (threads s) (dev s) (in_intr s).

(** After it has been waited for. *)
Definition finished (i0 i1 i2 : nat) (s : vsys) : vsys :=
  let d := dsk s in
  MkSys
    (MkDisk
      (<[i2 := MkDesc Null 0 0 0]> (<[i1 := MkDesc Null 0 0 0]> (<[i0 := MkDesc Null 0 0 0]> (desc d))))
      (avail d) (used d)
      (<[i2 := true]> (<[i1 := true]> (<[i0 := true]> (free d)))) (used_idx d)
      (alter (λ x, MkInfo None (i_status x)) i0 (infos d)) (ops d))
    (bufs s) (wake_one ChFree <$> threads s) (dev s) (in_intr s).

Lemma alter_alter {A} (f g : A → A) i (l : list A) : alter f i (alter g i l) = alter (λ x, f (g x)) i l.
Proof. revert i. induction l as [|x l IH]; intros [|i]; cbn; try done. f_equal. apply IH. Qed.

Lemma rw_submit_run b w i0 i1 i2 F x s :
  bufs s !! b = Some x →
  rw_submit b w i0 i1 i2 (with_dsk (with_free F) s) = Ok tt (submitted b w i0 i1 i2 F x s).
Proof.
  intros Hb. unfold rw_submit, rdbuf, upd, rdbuf, submitted, setd, modify, gets, get, of_option, mbind, M_bind.
  cbn. rewrite Hb. cbn. rewrite Hb. unfold with_dsk, with_bufs. cbn. do 3 f_equal.
  by rewrite alter_alter.
Qed.

Lemma free_chain_step n i s x :
  desc (dsk s) !! i = Some x → (i < NUM)%nat → free (dsk s) !! i = Some false →
  free_chain_loop (S n) i s =
    if bool_decide (Z.land (flags x) VRING_DESC_F_NEXT ≠ 0) then free_chain_loop n (next x) (freed i s)
    else Ok tt (freed i s).
Proof.
  intros Hx Hi Hf. cbn [free_chain_loop]. unfold mbind, M_bind, gets, of_option.
  rewrite Hx. unfold mret, M_ret. rewrite free_desc_run by done. by case_bool_decide.
Qed.

Lemma free_chain_run b w i0 i1 i2 s :
  chained (desc (dsk s)) b w i0 i1 i2 → NoDup [i0; i1; i2] →
  length (free (dsk s)) = NUM → (∀ i, i ∈ [i0; i1; i2] → free (dsk s) !! i = Some false) →
  free_chain i0 s = Ok tt (freed i2 (freed i1 (freed i0 s))).
Proof.
  intros [H0 H1 H2] Hnd Hl Hf. apply NoDup_cons in Hnd as [Hn0 Hnd]. apply NoDup_cons in Hnd as [Hn1 _].
  assert (Hi : ∀ i, i ∈ [i0; i1; i2] → (i < NUM)%nat).
  { intros i Hi. rewrite <-Hl. by eapply lookup_lt_Some, Hf. }
  unfold free_chain, NUM.
  rewrite (free_chain_step _ _ _ _ H0) by (try apply Hi; try apply Hf; set_solver). rewrite bool_decide_true by done. cbn [next].
  erewrite (free_chain_step _ i1); [|cbn; by rewrite list_lookup_insert_ne by set_solver|apply Hi; set_solver|
    cbn; rewrite list_lookup_insert_ne by set_solver; apply Hf; set_solver].
  rewrite bool_decide_true by (by destruct w). cbn [next].
  erewrite (free_chain_step _ i2); [|cbn; by rewrite !list_lookup_insert_ne by set_solver|apply Hi; set_solver|
    cbn; rewrite !list_lookup_insert_ne by set_solver; apply Hf; set_solver]. done.
Qed.

Lemma rw_wait_run b w i0 i1 i2 x s :
  bufs s !! b = Some x → chained (desc (dsk s)) b w i0 i1 i2 → NoDup [i0; i1; i2] →
  length (free (dsk s)) = NUM → (∀ i, i ∈ [i0; i1; i2] → free (dsk s) !! i = Some false) →
  rw_wait b i0 i1 i2 s = if b_disk x then Ok (Some (Wait i0 i1 i2)) s else Ok None (finished i0 i1 i2 s).
Proof.
  intros Hb Hc Hnd Hl Hf. unfold rw_wait, rdbuf, mbind, M_bind, get, of_option. rewrite Hb.
  unfold mret, M_ret. destruct (b_disk x); [done|]. unfold setd, modify. erewrite free_chain_run by done.
  unfold finished, freed, with_threads, with_dsk. cbn. by rewrite !wake_wake.
Qed.

(** A run of [virtio_disk_rw] from its start. *)
Lemma rw_start_run b w x s :
  bufs s !! b = Some x → length (free (dsk s)) = NUM →
  (∃ i0 i1 i2 F, took (free (dsk s)) [i0; i1; i2] F ∧
     virtio_disk_rw b w Alloc s = Ok (Some (Wait i0 i1 i2)) (submitted b w i0 i1 i2 F x s)) ∨
  (∃ s', few (free (dsk s)) ∧ retreat s s' ∧ virtio_disk_rw b w Alloc s = Ok (Some Alloc) s').
Proof.
  intros Hb Hl. unfold virtio_disk_rw, mbind, M_bind.
  destruct (alloc3_run s Hl) as [(i0 & i1 & i2 & F & Ht & R)|(s' & ? & ? & R)]; rewrite R; [left|right; by exists s'].
  exists i0, i1, i2, F. split; [done|]. erewrite rw_submit_run by done.
  unfold rw_wait, rdbuf, mbind, M_bind, get, of_option. cbn.
  rewrite list_lookup_insert_eq by (by eapply lookup_lt_Some). done.
Qed.

(** ** The invariant *)

(** Which calls there are and where they are, asleep or not. *)
Definition calls_of (th : gmap nat thread) : gmap nat (nat * bool * pc) :=
  (λ x, (t_b x, t_write x, t_pc x)) <$> th.
Abbreviation calls s := (calls_of (threads s)).
Definition chain (p : pc) : list nat := match p with Alloc => [] | Wait i0 i1 i2 => [i0; i1; i2] end.

(** The requests in flight: in the available ring or taken by the device
    ([todo]), served, in the used ring. *)
Definition avq (s : vsys) : list nat :=
  queue (a_ring (avail (dsk s))) (last_avail (dev s)) (a_idx (avail (dsk s))).
Definition usq (s : vsys) : list nat :=
  fst <$> queue (u_ring (used (dsk s))) (used_idx (dsk s)) (u_idx (used (dsk s))).
Definition todo (s : vsys) : list nat := avq s ++ pending (dev s).
Definition flight (s : vsys) : list nat := todo s ++ served (dev s) ++ usq s.

Definition flag (s : vsys) (b : nat) : bool := from_option b_disk false (bufs s !! b).
Definition status (s : vsys) (i : nat) : Z := from_option i_status 0 (infos (dsk s) !! i).

Record shape (s : vsys) : Prop := {
  sh_desc : length (desc (dsk s)) = NUM;
  sh_free : length (free (dsk s)) = NUM;
  sh_infos : length (infos (dsk s)) = NUM;
  sh_ops : length (ops (dsk s)) = NUM;
  sh_avail : length (a_ring (avail (dsk s))) = NUM;
  sh_used : length (u_ring (used (dsk s))) = NUM;
  sh_idx : is_u16 (a_idx (avail (dsk s))) ∧ is_u16 (last_avail (dev s)) ∧
           is_u16 (u_idx (used (dsk s))) ∧ is_u16 (used_idx (dsk s));
  sh_bufs : ∀ b x, bufs s !! b = Some x → length (b_data x) = BSIZE;
  sh_sectors : ∀ k x, sectors (dev s) !! k = Some x → length x = 512%nat;
}.

(** Every call works on a buffer of its own and, once it has descriptors, on
    descriptors of its own, formatted for its request. *)
Record owned (s : vsys) : Prop := {
  ow_buf t b w p : calls s !! t = Some (b, w, p) → (b < length (bufs s))%nat;
  ow_inj t t' b w w' p p' : calls s !! t = Some (b, w, p) → calls s !! t' = Some (b, w', p') → t = t';
  ow_chain t b w i0 i1 i2 :
    calls s !! t = Some (b, w, Wait i0 i1 i2) →
    chained (desc (dsk s)) b w i0 i1 i2 ∧ NoDup [i0; i1; i2] ∧
    header w <$> bufs s !! b = ops (dsk s) !! i0 ∧ i_b <$> infos (dsk s) !! i0 = Some (Some b);
  ow_free i :
    free (dsk s) !! i = Some false ↔ ∃ t b w p, calls s !! t = Some (b, w, p) ∧ i ∈ chain p;
  ow_disj t t' b b' w w' p p' i :
    calls s !! t = Some (b, w, p) → calls s !! t' = Some (b', w', p') → i ∈ chain p → i ∈ chain p' → t = t';
}.

(** [b->disk] is set exactly while the request is in flight; a status of 0
    means that the device has made the transfer. *)
Record moving (s : vsys) : Prop := {
  mv_nodup : NoDup (flight s);
  mv_flight i : i ∈ flight s ↔ ∃ t b w i1 i2, calls s !! t = Some (b, w, Wait i i1 i2) ∧ flag s b = true;
  mv_flag b : flag s b = true → ∃ t w i0 i1 i2, calls s !! t = Some (b, w, Wait i0 i1 i2);
  mv_todo i : i ∈ todo s → status s i ≠ 0;
  mv_done t b w i0 i1 i2 : calls s !! t = Some (b, w, Wait i0 i1 i2) → flag s b = false → status s i0 = 0;
}.

(** Whoever sleeps has a reason to. *)
Definition rested (s : vsys) : Prop :=
  ∀ t b w p, threads s !! t = Some (MkThread b w p true) →
    match p with Alloc => few (free (dsk s)) | Wait _ _ _ => flag s b = true end.

Record inv (s : vsys) : Prop := {
  v_shape : shape s;
  v_owned : owned s;
  v_moving : moving s;
  v_rested : rested s;
}.

Lemma calls_wake ch th : calls_of (wake_one ch <$> th) = calls_of th.
Proof.
  unfold calls_of. rewrite <-map_fmap_compose. apply map_fmap_ext. intros t [] _. cbn. unfold wake_one. by case_bool_decide.
Qed.
Lemma calls_insert t x th : calls_of (<[t := x]> th) = <[t := (t_b x, t_write x, t_pc x)]> (calls_of th).
Proof. unfold calls_of. by rewrite fmap_insert. Qed.
Lemma calls_delete t th : calls_of (delete t th) = delete t (calls_of th).
Proof. unfold calls_of. by rewrite fmap_delete. Qed.
Lemma calls_lookup s t b w p : calls s !! t = Some (b, w, p) ↔ ∃ a, threads s !! t = Some (MkThread b w p a).
Proof.
  unfold calls_of. rewrite lookup_fmap. split.
  - destruct (threads s !! t) as [[]|]; cbn; [|done]. intros [= -> -> ->]. eauto.
  - by intros [a ->].
Qed.
Lemma no_call_spec s b : no_call s b ↔ ∀ t w p, calls s !! t ≠ Some (b, w, p).
Proof.
  split.
  - intros H t w p (a & Ht)%calls_lookup. by apply (H _ _ Ht).
  - intros H t [b' w p a] Ht ?. cbn in *. subst. apply (H t w p), calls_lookup. eauto.
Qed.

Lemma vwake_lookup ch (th : gmap nat thread) t b w p :
  (wake_one ch <$> th) !! t = Some (MkThread b w p true) →
  th !! t = Some (MkThread b w p true) ∧ t_chan (MkThread b w p true) ≠ ch.
Proof.
  rewrite lookup_fmap. destruct (th !! t) as [x|]; [|done]. cbn. intros [= E].
  unfold wake_one in E. case_bool_decide; simplify_eq; auto.
Qed.

Lemma flight_lt s i : shape s → owned s → moving s → i ∈ flight s → (i < NUM)%nat.
Proof.
  intros Hs Ho Hm (t & b & w & i1 & i2 & Ht & _)%(mv_flight _ Hm).
  destruct (ow_chain _ Ho _ _ _ _ _ _ Ht) as ([H0 _ _] & _). rewrite <-(sh_desc _ Hs). by eapply lookup_lt_Some.
Qed.
Lemma below_length (l : list nat) n : NoDup l → (∀ i, i ∈ l → (i < n)%nat) → (length l ≤ n)%nat.
Proof.
  intros Hnd Hl. rewrite <-(length_seq n 0). apply submseteq_length, NoDup_submseteq; [done|].
  intros i Hi. apply elem_of_seq. apply Hl in Hi. lia.
Qed.
Lemma flight_length s : inv s → (length (flight s) ≤ NUM)%nat.
Proof. intros [Hs Ho Hm _]. apply below_length; [apply Hm|]. intros i. by apply flight_lt. Qed.

(** ** What leaves the invariant alone *)

Lemma owned_frame s s' :
  calls s' = calls s → desc (dsk s') = desc (dsk s) → free (dsk s') = free (dsk s) → ops (dsk s') = ops (dsk s) →
  (∀ i, i_b <$> infos (dsk s') !! i = i_b <$> infos (dsk s) !! i) →
  (∀ b, sector_of <$> bufs s' !! b = sector_of <$> bufs s !! b) → length (bufs s') = length (bufs s) →
  owned s → owned s'.
Proof.
  intros Hc Hd Hf Ho Hi Hb Hl [H1 H2 H3 H4 H5]. split; rewrite ?Hc, ?Hd, ?Hf, ?Ho, ?Hl; try done.
  intros t b w i0 i1 i2 Ht. destruct (H3 t b w i0 i1 i2 Ht) as (? & ? & Hh & ?). split_and!; try done.
  - rewrite <-Hh. specialize (Hb b). destruct (bufs s' !! b), (bufs s !! b); try done. cbn in *.
    unfold header. congruence.
  - by rewrite Hi.
Qed.

Lemma moving_frame s s' :
  calls s' = calls s → (∀ b, flag s' b = flag s b) → flight s' ≡ₚ flight s →
  (∀ i, i ∈ todo s' → status s' i ≠ 0) → (∀ i, status s i = 0 → status s' i = 0) → moving s → moving s'.
Proof.
  intros Hc Hf Hp Ht Hs [H1 H2 H3 H4 H5]. split.
  - by rewrite Hp.
  - intros i. rewrite Hp, H2, Hc. by setoid_rewrite Hf.
  - intros b. rewrite Hf, Hc. apply H3.
  - done.
  - intros t b w i0 i1 i2. rewrite Hf, Hc. eauto.
Qed.

Lemma rested_frame s s' :
  threads s' = threads s → free (dsk s') = free (dsk s) → (∀ b, flag s' b = flag s b) → rested s → rested s'.
Proof.
  intros Ht Hf Hb Hr t b w p. rewrite Ht. intros H%Hr. destruct p; [by rewrite Hf|by rewrite Hb].
Qed.

(** ** The device *)

Lemma take_queue s head :
  shape s → last_avail (dev s) ≠ a_idx (avail (dsk s)) →
  a_ring (avail (dsk s)) !! Z.to_nat (last_avail (dev s) mod Z.of_nat NUM) = Some head →
  avq s = head :: queue (a_ring (avail (dsk s))) (u16 (last_avail (dev s) + 1)) (a_idx (avail (dsk s))).
Proof.
  intros Hs Hne Hh. destruct (sh_idx _ Hs) as (? & ? & _). unfold avq. rewrite queue_pop by done.
  by rewrite (list_lookup_total_correct _ _ _ Hh).
Qed.

Lemma inv_take s head :
  inv s → last_avail (dev s) ≠ a_idx (avail (dsk s)) →
  a_ring (avail (dsk s)) !! Z.to_nat (last_avail (dev s) mod Z.of_nat NUM) = Some head →
  inv (with_dev (MkDev (u16 (last_avail (dev s) + 1)) (pending (dev s) ++ [head])
                   (served (dev s)) (sectors (dev s))) s).
Proof.
  intros [Hs Ho Hm Hr] Hne Hh. pose proof (take_queue s head Hs Hne Hh) as Hq.
  set (s' := with_dev _ s).
  assert (Ht : todo s' ≡ₚ todo s) by (unfold todo; rewrite Hq; cbn; solve_Permutation).
  split; [|by eapply (owned_frame s)| |by eapply (rested_frame s)].
  - destruct Hs as [? ? ? ? ? ? (? & ? & ? & ?) ? ?]. split; try done. cbn. split_and!; try done. apply u16_range.
  - eapply (moving_frame s); try done.
    + unfold flight. by rewrite Ht.
    + intros i. rewrite Ht. apply Hm.
Qed.

Lemma complete_queue s l1 head l2 n :
  inv s → served (dev s) = l1 ++ head :: l2 → usq (completed l1 l2 head n s) = usq s ++ [head].
Proof.
  intros Hinv Hsv. pose proof (flight_length s Hinv) as Hlen. destruct Hinv as [Hs _ _ _].
  destruct (sh_idx _ Hs) as (? & ? & ? & ?). unfold usq. cbn. rewrite queue_push; try done; [by rewrite fmap_app|apply Hs|].
  unfold flight, usq in Hlen. rewrite !length_app, Hsv, length_app, length_fmap in Hlen. cbn in Hlen. unfold NUM in *. lia.
Qed.

Lemma inv_complete s l1 head l2 n :
  inv s → served (dev s) = l1 ++ head :: l2 → inv (completed l1 l2 head n s).
Proof.
  intros Hinv Hsv. pose proof (complete_queue s l1 head l2 n Hinv Hsv) as Hq. destruct Hinv as [Hs Ho Hm Hr].
  set (s' := completed _ _ _ _ _) in *.
  split; [|by eapply (owned_frame s)| |by eapply (rested_frame s)].
  - destruct Hs as [? ? ? ? ? ? (? & ? & ? & ?) ? ?]. split; try done; cbn; [by rewrite length_insert|].
    split_and!; try done. apply u16_range.
  - eapply (moving_frame s); try done; [|apply Hm].
    unfold flight. rewrite Hq, Hsv. change (todo s') with (todo s). cbn. solve_Permutation.
Qed.

(** Putting a status for the request at the head of the chain [head]. *)
Lemma status_set s i z j : (i < length (infos (dsk s)))%nat → status (set_status i z s) j = if decide (j = i) then z else status s j.
Proof.
  intros Hi. unfold status, set_status. cbn. case_decide as Hd.
  - subst. rewrite list_lookup_alter_eq. by destruct (lookup_lt_is_Some_2 _ _ Hi) as [x ->].
  - by rewrite list_lookup_alter_ne by done.
Qed.
Lemma info_set s i z j : i_b <$> infos (dsk (set_status i z s)) !! j = i_b <$> infos (dsk s) !! j.
Proof.
  cbn. destruct (decide (i = j)) as [->|].
  - rewrite list_lookup_alter_eq. by destruct (_ !! _).
  - by rewrite list_lookup_alter_ne.
Qed.

(** A transfer changes only the contents of buffers and sectors. *)
Record same_but_data (s s' : vsys) : Prop := {
  sd_dsk : dsk s' = dsk s;
  sd_threads : threads s' = threads s;
  sd_dev : last_avail (dev s') = last_avail (dev s) ∧ pending (dev s') = pending (dev s) ∧ served (dev s') = served (dev s);
  sd_length : length (bufs s') = length (bufs s);
  sd_bufs b : set_data [] <$> bufs s' !! b = set_data [] <$> bufs s !! b;
  sd_data b x : bufs s' !! b = Some x → length (b_data x) = BSIZE;
  sd_sectors k x : sectors (dev s') !! k = Some x → length x = 512%nat;
}.

Lemma same_refl s : shape s → same_but_data s s.
Proof. intros []. by split. Qed.

(** Where two buffers that differ in contents alone agree. *)
Lemma same_field {A} (f : buf → A) s s' b :
  (∀ x, f (set_data [] x) = f x) → same_but_data s s' → f <$> bufs s' !! b = f <$> bufs s !! b.
Proof.
  intros Hf Hd. pose proof (sd_bufs _ _ Hd b) as H.
  destruct (bufs s' !! b) as [x|], (bufs s !! b) as [y|]; try done. injection H as H'.
  cbn. rewrite <-(Hf x), <-(Hf y). unfold set_data. congruence.
Qed.
Lemma same_flag s s' b : same_but_data s s' → flag s' b = flag s b.
Proof.
  intros Hd. pose proof (same_field b_disk s s' b ltac:(done) Hd) as H. unfold flag.
  destruct (bufs s' !! b), (bufs s !! b); cbn in *; congruence.
Qed.

Lemma inv_status s s1 l1 head l2 z :
  inv s → same_but_data s s1 → pending (dev s) = l1 ++ head :: l2 →
  inv (move_served l1 l2 head (set_status head z s1)).
Proof.
  intros [Hs Ho Hm Hr] Hd Hp. destruct (sd_dev _ _ Hd) as (Ha & Hp' & Hv).
  assert (Hin : head ∈ todo s) by (unfold todo; rewrite Hp; set_solver).
  assert (Hlt : (head < length (infos (dsk s1)))%nat).
  { rewrite (sd_dsk _ _ Hd), (sh_infos _ Hs). apply (flight_lt s); try done. unfold flight. set_solver. }
  set (s' := move_served _ _ _ _).
  assert (Ht : todo s' = avq s ++ l1 ++ l2) by (unfold todo, avq; cbn; by rewrite Ha, (sd_dsk _ _ Hd)).
  assert (Hst : ∀ j, status s' j = if decide (j = head) then z else status s j).
  { intros j. change (status s' j) with (status (set_status head z s1) j). rewrite status_set by done.
    unfold status. by rewrite (sd_dsk _ _ Hd). }
  assert (Hfl : flight s' ≡ₚ flight s).
  { unfold flight. rewrite Ht. unfold todo, usq. cbn. rewrite Hv, Hp, (sd_dsk _ _ Hd). solve_Permutation. }
  split.
  - destruct Hs, Hd as [Ed Et _ _ _ ? ?]. split; cbn; rewrite ?length_alter, ?Ed, ?Ha; done.
  - eapply (owned_frame s); try done; cbn; rewrite ?(sd_dsk _ _ Hd), ?(sd_threads _ _ Hd); try done.
    + intros i. pose proof (info_set s1 head z i) as Hi. cbn in Hi. by rewrite (sd_dsk _ _ Hd) in Hi.
    + intros b. by apply (same_field sector_of s s1).
    + apply Hd.
  - eapply (moving_frame s); try done.
    + cbn. by rewrite (sd_threads _ _ Hd).
    + intros b. by apply (same_flag s s1).
    + intros i Hi. assert (i ≠ head).
      { intros ->. pose proof (mv_nodup _ Hm) as Hnd. unfold flight, todo in Hnd. rewrite Hp in Hnd.
        rewrite Ht in Hi. clear -Hnd Hi. rewrite !NoDup_app, !NoDup_cons in Hnd. set_solver. }
      rewrite Hst, decide_False by done. apply Hm. rewrite Ht in Hi. unfold todo. rewrite Hp. set_solver.
    + intros i Hi. rewrite Hst. case_decide; [|done]. subst. by apply Hm in Hin.
  - eapply (rested_frame s); cbn; rewrite ?(sd_dsk _ _ Hd); try apply Hd; try done.
    intros b. by apply (same_flag s s1).
Qed.

Definition request_of (b : nat) (w : bool) (x : buf) (i0 : nat) : request :=
  MkRequest (if w then VIRTIO_BLK_T_OUT else VIRTIO_BLK_T_IN) (sector_of x) b (Z.of_nat BSIZE) i0.

Lemma chain_of_run d b w i0 i1 i2 x :
  chained (desc d) b w i0 i1 i2 → ops d !! i0 = Some (header w x) → chain_of d i0 = Some (request_of b w x i0).
Proof.
  intros [H0 H1 H2] Hh. unfold chain_of. rewrite H0. cbn. rewrite H1. cbn. rewrite H2. cbn. rewrite Hh. cbn.
  by destruct w.
Qed.

(** What the device finds at a chain it has taken. *)
Lemma taken_request s head :
  inv s → head ∈ flight s →
  ∃ t b w i1 i2 x, calls s !! t = Some (b, w, Wait head i1 i2) ∧ bufs s !! b = Some x ∧ b_disk x = true ∧
    chain_of (dsk s) head = Some (request_of b w x head).
Proof.
  intros [Hs Ho Hm Hr] (t & b & w & i1 & i2 & Ht & Hf)%(mv_flight _ Hm).
  destruct (ow_chain _ Ho _ _ _ _ _ _ Ht) as (Hc & _ & Hh & _).
  destruct (lookup_lt_is_Some_2 (bufs s) b (ow_buf _ Ho _ _ _ _ Ht)) as [x Hx].
  exists t, b, w, i1, i2, x. split; [done|]. split; [done|]. unfold flag in Hf. rewrite Hx in Hf. split; [done|].
  eapply chain_of_run; [done|]. by rewrite <-Hh, Hx.
Qed.

(** ** The transfer *)

Definition done_of (s : vsys) (p : pc) : bool :=
  match p with Alloc => false | Wait i0 _ _ => bool_decide (status s i0 = 0) end.

(** The sectors [m] hold the blocks [d]. *)
Definition holds (m : gmap Z (list Z)) (d : gmap Z (list Z)) : Prop :=
  ∀ k, d !! k = read_sectors m (2 * k) 2.

(** The specification's state: its buffers do not know of [b->disk], and a call
    is done when the device said so. *)
Record sim (s : vsys) (a : spec) : Prop := {
  sim_bufs : Bio.bufs (a_bio a) = set_disk false <$> bufs s;
  sim_disk : holds (sectors (dev s)) (Bio.disk (a_bio a));
  sim_calls : a_calls a = (λ c, (c.1.1, c.1.2, done_of s c.2)) <$> calls s;
}.

Lemma sector_even x : sector_of x = 2 * Bio.disk_block (b_blockno x).
Proof. unfold sector_of, Bio.disk_block. change (Z.of_nat BSIZE / 512) with 2. wrap_lia. Qed.

Lemma splice_all (bs l : list Z) : length bs = length l → splice 0 bs l = bs.
Proof. intros H. unfold splice. cbn. rewrite H, drop_all. by rewrite app_nil_r. Qed.

Lemma read_two m k :
  read_sectors m k 2 = (x ← m !! k; y ← m !! (k + 1); Some (x ++ y)).
Proof. cbn. destruct (m !! k); [|done]. cbn. destruct (m !! (k + 1)); [|done]. cbn. by rewrite app_nil_r. Qed.

Lemma write_two m k data m' :
  write_sectors m (2 * k) 2 data = Some m' → length data = BSIZE →
  is_Some (m !! (2 * k)) ∧ is_Some (m !! (2 * k + 1)) ∧
  m' = <[2 * k + 1 := drop 512 data]> (<[2 * k := take 512 data]> m).
Proof.
  intros Hw Hl. cbn in Hw. destruct (m !! (2 * k)) as [x|] eqn:Hx; [|done]. cbn in Hw.
  rewrite lookup_insert_ne in Hw by lia. destruct (m !! (2 * k + 1)) as [y|] eqn:Hy; [|done]. injection Hw as <-.
  rewrite (take_ge (drop 512 data)); [by eauto|rewrite length_drop, Hl; unfold BSIZE; lia].
Qed.

Lemma write_holds m d k data :
  holds m d → is_Some (m !! (2 * k)) → is_Some (m !! (2 * k + 1)) →
  is_Some (d !! k) ∧ holds (<[2 * k + 1 := drop 512 data]> (<[2 * k := take 512 data]> m)) (<[k := data]> d).
Proof.
  intros Hh [x Hx] [y Hy]. split; [by rewrite Hh, read_two, Hx, Hy; eauto|].
  intros j. rewrite read_two. destruct (decide (j = k)) as [->|Hne].
  - rewrite !lookup_insert_eq, lookup_insert_ne, lookup_insert_eq by lia. cbn. by rewrite take_drop.
  - rewrite lookup_insert_ne by done. rewrite !lookup_insert_ne by lia. by rewrite Hh, read_two.
Qed.

(** The state after the transfer, for a read and for a write. *)
Lemma transfer_run s b w i0 x s1 :
  shape s → bufs s !! b = Some x → transfer (request_of b w x i0) s = Some s1 →
  let k := Bio.disk_block (b_blockno x) in
  if w then is_Some (sectors (dev s) !! (2 * k)) ∧ is_Some (sectors (dev s) !! (2 * k + 1)) ∧
    s1 = with_dev (MkDev (last_avail (dev s)) (pending (dev s)) (served (dev s))
           (<[2 * k + 1 := drop 512 (b_data x)]> (<[2 * k := take 512 (b_data x)]> (sectors (dev s))))) s
  else ∃ y, read_sectors (sectors (dev s)) (2 * k) 2 = Some y ∧ length y = BSIZE ∧
    s1 = with_bufs (<[b := set_data y x]> (bufs s)) s.
Proof.
  intros Hs Hx Htr k. pose proof (sh_bufs _ Hs _ _ Hx) as Hlx.
  unfold transfer in Htr. cbn [request_of r_buf r_type r_len r_sector] in Htr. rewrite Hx in Htr. cbn [mbind option_bind] in Htr.
  change (Z.to_nat (Z.of_nat BSIZE / 512)) with 2%nat in Htr. rewrite sector_even in Htr. fold k in Htr. destruct w.
  - rewrite bool_decide_false in Htr by done. rewrite Nat2Z.id, take_ge in Htr by lia.
    destruct (write_sectors _ _ _ _) as [m'|] eqn:Hw; [|done]. injection Htr as <-.
    by destruct (write_two _ _ _ _ Hw Hlx) as (? & ? & ->).
  - rewrite bool_decide_true in Htr by done. destruct (read_sectors _ _ 2) as [y|] eqn:Hy; [|done]. injection Htr as <-.
    assert (Hly : length y = BSIZE).
    { rewrite read_two in Hy. apply bind_Some in Hy as (y1 & H1 & Hy). apply bind_Some in Hy as (y2 & H2 & Hy).
      injection Hy as <-. by rewrite length_app, (sh_sectors _ Hs _ _ H1), (sh_sectors _ Hs _ _ H2). }
    exists y. rewrite splice_all by congruence. done.
Qed.

Lemma transfer_data s b w i0 x s1 :
  shape s → bufs s !! b = Some x → transfer (request_of b w x i0) s = Some s1 → same_but_data s s1.
Proof.
  intros Hs Hx Htr. pose proof (transfer_run _ _ _ _ _ _ Hs Hx Htr) as H. pose proof (sh_bufs _ Hs _ _ Hx) as Hlx.
  destruct w.
  - destruct H as (_ & _ & ->), Hs. split; try done. cbn. intros j z. rewrite !lookup_insert_Some.
    unfold BSIZE in *. intros [[_ <-]|[_ [[_ <-]|[_ Hz]]]]; [rewrite length_drop; lia|rewrite length_take; lia|by apply sh_sectors0 in Hz].
  - destruct H as (y & _ & Hy & ->), Hs. split; cbn; try done; [by rewrite length_insert|..].
    + intros c. destruct (decide (c = b)) as [->|]; [|by rewrite list_lookup_insert_ne].
      by rewrite list_lookup_insert_eq, Hx by (by eapply lookup_lt_Some).
    + intros c z. rewrite list_lookup_insert_Some. intros [(_ & <- & _)|[_ Hz]]; [done|by eapply sh_bufs0].
Qed.

(** It is the transfer of the buffer cache's model. *)
Lemma transfer_bio s b w i0 x s1 bio :
  shape s → bufs s !! b = Some x → transfer (request_of b w x i0) s = Some s1 →
  Bio.bufs bio = set_disk false <$> bufs s → holds (sectors (dev s)) (Bio.disk bio) →
  ∃ bio', Bio.virtio_disk_rw b w bio = Ok tt bio' ∧ Bio.bufs bio' = set_disk false <$> bufs s1 ∧
          holds (sectors (dev s1)) (Bio.disk bio').
Proof.
  intros Hs Hx Htr Hbufs Hdisk. pose proof (transfer_run _ _ _ _ _ _ Hs Hx Htr) as H.
  assert (Hrd : Bio.bufs bio !! b = Some (set_disk false x)) by (by rewrite Hbufs, list_lookup_fmap, Hx).
  unfold Bio.virtio_disk_rw, Bio.rdbuf, mbind, M_bind, get, of_option, gets. rewrite Hrd. cbn. destruct w.
  - destruct H as (Hx1 & Hx2 & ->). destruct (write_holds _ _ _ (b_data x) Hdisk Hx1 Hx2) as ([y Hy] & Hh).
    rewrite Hy. eexists. split; [reflexivity|]. by split.
  - destruct H as (y & Hy & _ & ->). rewrite <-Hdisk in Hy. rewrite Hy.
    unfold Bio.upd, Bio.rdbuf, mbind, M_bind, get, of_option. rewrite Hrd. eexists. split; [reflexivity|].
    split; [|done]. cbn. by rewrite Hbufs, list_fmap_insert.
Qed.

(** ** The driver *)

Lemma inv_call s t b w :
  inv s → threads s !! t = None → no_call s b → (b < length (bufs s))%nat →
  inv (with_threads (<[t := MkThread b w Alloc false]>) s).
Proof.
  intros [Hs Ho Hm Hr] Ht Hb Hlt. rewrite no_call_spec in Hb.
  assert (Hn : calls s !! t = None) by (unfold calls_of; by rewrite lookup_fmap, Ht).
  assert (Hc : ∀ u y i0 i1 i2, calls (with_threads (<[t := MkThread b w Alloc false]>) s) !! u = Some (y, Wait i0 i1 i2) ↔
                   calls s !! u = Some (y, Wait i0 i1 i2)).
  { intros u y i0 i1 i2. cbn. rewrite calls_insert, lookup_insert_Some. cbn. split; [naive_solver|].
    intros Hu. right. split; [congruence|done]. }
  split; [by destruct Hs|..].
  - destruct Ho as [H1 H2 H3 H4 H5]. split; cbn [threads with_threads dsk bufs].
    + intros u c v p. rewrite calls_insert, lookup_insert_Some. naive_solver.
    + intros u u' c v v' p p'. rewrite !calls_insert, !lookup_insert_Some. naive_solver.
    + intros u c v i0 i1 i2 Hu. apply Hc in Hu. by apply (H3 u).
    + intros i. rewrite H4. setoid_rewrite calls_insert. split.
      * intros (u & c & v & p & Hu & Hi). exists u, c, v, p. split; [|done]. apply lookup_insert_Some. right. split; [congruence|done].
      * intros (u & c & v & p & [[<- [= <- <- <-]]|[_ Hu]]%lookup_insert_Some & Hi); [by apply elem_of_nil in Hi|]. eauto 10.
    + intros u u' c c' v v' p p' i. rewrite calls_insert, !lookup_insert_Some.
      intros [[<- [= <- <- <-]]|[_ Hu]] [[<- [= <- <- <-]]|[_ Hu']] Hi Hi'; try by apply elem_of_nil in Hi || by apply elem_of_nil in Hi'.
      by eapply (H5 u u').
  - destruct Hm as [H1 H2 H3 H4 H5]. split; try done.
    + intros i. rewrite (H2 i). by setoid_rewrite Hc.
    + intros c Hf. destruct (H3 c Hf) as (u & v & i0 & i1 & i2 & Hu). exists u, v, i0, i1, i2. by apply Hc.
    + intros u c v i0 i1 i2 Hu. apply Hc in Hu. by apply (H5 u _ _ _ _ _ Hu).
  - intros u c v p. cbn. rewrite lookup_insert_Some. intros [[_ ?]|[_ Hu]]; [done|]. exact (Hr u c v p Hu).
Qed.

Lemma flag_insert s b x c :
  (b < length (bufs s))%nat → flag (with_bufs (<[b := x]> (bufs s)) s) c = if decide (c = b) then b_disk x else flag s c.
Proof.
  intros Hb. unfold flag. cbn. case_decide as Hd; [subst; by rewrite list_lookup_insert_eq|].
  by rewrite list_lookup_insert_ne.
Qed.

Lemma inv_store s b x y :
  inv s → bufs s !! b = Some x → no_call s b → length (b_data y) = BSIZE → b_disk y = b_disk x →
  inv (with_bufs (<[b := y]> (bufs s)) s).
Proof.
  intros [Hs Ho Hm Hr] Hx Hb Hy Hd. rewrite no_call_spec in Hb.
  assert (Hf : ∀ c, flag (with_bufs (<[b := y]> (bufs s)) s) c = flag s c).
  { intros c. rewrite flag_insert by (by eapply lookup_lt_Some). case_decide; [|done]. subst. unfold flag. by rewrite Hx. }
  split; [..|by eapply (moving_frame s); try done; apply Hm|by eapply (rested_frame s)].
  - destruct Hs. split; try done. cbn. intros c z. rewrite list_lookup_insert_Some.
    intros [(_ & <- & _)|[_ Hz]]; [done|by eapply sh_bufs0].
  - destruct Ho as [H1 H2 H3 H4 H5]. split; cbn; try done; [by rewrite length_insert|].
    intros t c w i0 i1 i2 Ht. rewrite list_lookup_insert_ne; [by apply (H3 t)|]. intros ->. by apply Hb in Ht.
Qed.

(** A descriptor that is free is in no chain. *)
Lemma free_not_chain s i t b w p :
  owned s → free (dsk s) !! i = Some true → calls s !! t = Some (b, w, p) → i ∉ chain p.
Proof.
  intros Ho Hi Ht Hin. assert (free (dsk s) !! i = Some false) by (apply (ow_free _ Ho); eauto 10). congruence.
Qed.
Lemma chain_not_free s i t b w p :
  owned s → calls s !! t = Some (b, w, p) → i ∈ chain p → free (dsk s) !! i = Some false.
Proof. intros Ho Ht Hi. apply (ow_free _ Ho). eauto 10. Qed.

Section submit.
Context (s : vsys) (t b : nat) (w a : bool) (i0 i1 i2 : nat) (F : list bool) (x : buf).
Context (Hinv : inv s) (Ht : threads s !! t = Some (MkThread b w Alloc a)) (Hx : bufs s !! b = Some x).
Context (HF : took (free (dsk s)) [i0; i1; i2] F).

Let s' := with_threads (<[t := MkThread b w (Wait i0 i1 i2) true]>) (submitted b w i0 i1 i2 F x s).

Lemma submit_calls : calls s' = <[t := (b, w, Wait i0 i1 i2)]> (calls s).
Proof. cbn. by rewrite calls_insert. Qed.
Lemma submit_self : calls s !! t = Some (b, w, Alloc).
Proof. apply calls_lookup. eauto. Qed.

Lemma submit_other u c v p i : calls s !! u = Some (c, v, p) → i ∈ [i0; i1; i2] → i ∉ chain p.
Proof. intros Hu Hi. eapply free_not_chain; [apply Hinv| |done]. by apply HF. Qed.

Lemma submit_flag c : flag s' c = if decide (c = b) then true else flag s c.
Proof.
  change (flag s' c) with (flag (with_bufs (<[b := set_disk true x]> (bufs s)) s) c).
  rewrite flag_insert by (by eapply lookup_lt_Some). done.
Qed.
Lemma submit_lt i : i ∈ [i0; i1; i2] → (i < NUM)%nat.
Proof. intros Hi. rewrite <-(sh_free _ (v_shape _ Hinv)). by eapply lookup_lt_Some, HF. Qed.
Lemma submit_status i : status s' i = if decide (i = i0) then 255 else status s i.
Proof.
  unfold status. cbn. case_decide as Hd; [subst|by rewrite list_lookup_alter_ne].
  rewrite list_lookup_alter_eq. destruct (lookup_lt_is_Some_2 (infos (dsk s)) i0) as [y ->]; [|done].
  rewrite (sh_infos _ (v_shape _ Hinv)). apply submit_lt. set_solver.
Qed.

Lemma submit_new : i0 ∉ flight s.
Proof.
  intros (u & c & v & j1 & j2 & Hu & _)%(mv_flight _ (v_moving _ Hinv)).
  apply (submit_other u c v _ i0 Hu); [set_solver|]. cbn. set_solver.
Qed.
Lemma submit_flight : todo s' ≡ₚ i0 :: todo s ∧ flight s' ≡ₚ i0 :: flight s.
Proof.
  pose proof (v_shape _ Hinv) as Hs. destruct (sh_idx _ Hs) as (? & ? & _).
  assert (Hl : (length (i0 :: flight s) ≤ NUM)%nat).
  { apply below_length; [constructor; [apply submit_new|apply Hinv]|]. intros i [->|Hi]%elem_of_cons.
    - apply submit_lt. set_solver.
    - destruct Hinv. by apply (flight_lt s). }
  assert (Hq : avq s' = avq s ++ [i0]).
  { apply queue_push; try done; [apply Hs|]. fold (avq s). unfold flight, todo in Hl. cbn [length] in Hl. rewrite !length_app in Hl. lia. }
  assert (Htodo : todo s' ≡ₚ i0 :: todo s) by (unfold todo; rewrite Hq; cbn; solve_Permutation).
  split; [done|]. unfold flight. by rewrite Htodo.
Qed.

Lemma submit_owned : owned s'.
Proof.
  pose proof submit_self as Hself. pose proof submit_lt as Hlt. destruct Hinv as [Hs Ho _ _].
  pose proof HF as (Hnd & Hin & Hval). split; rewrite ?submit_calls; cbn [bufs s' with_threads submitted].
  - intros u c v p. rewrite length_insert, lookup_insert_Some.
    intros [[<- [= <- <- <-]]|[_ Hu]]; eapply (ow_buf _ Ho); done.
  - intros u u' c v v' p p'. rewrite !lookup_insert_Some.
    intros [[<- [= <- <- <-]]|[_ Hu]] [[<- [= <- <-]]|[_ Hu']]; [done|..]; by eapply (ow_inj _ Ho).
  - intros u c v j0 j1 j2. rewrite lookup_insert_Some. intros [[<- [= <- <- <- <- <-]]|[Hne Hu]].
    + assert (i0 ≠ i1 ∧ i0 ≠ i2 ∧ i1 ≠ i2) as (? & ? & ?) by (clear -Hnd; rewrite !NoDup_cons in Hnd; set_solver).
      split_and!; try done.
      * split; cbn; repeat (rewrite list_lookup_insert_ne by congruence);
          (rewrite list_lookup_insert_eq; [done|]; rewrite ?length_insert, (sh_desc _ Hs); apply Hlt; set_solver).
      * cbn. rewrite !list_lookup_insert_eq; [done| |by eapply lookup_lt_Some]. rewrite (sh_ops _ Hs). apply Hlt. set_solver.
      * cbn. rewrite list_lookup_alter_eq. destruct (lookup_lt_is_Some_2 (infos (dsk s)) i0) as [y ->]; [|done].
        rewrite (sh_infos _ Hs). apply Hlt. set_solver.
    + destruct (ow_chain _ Ho _ _ _ _ _ _ Hu) as ([H0 H1 H2] & Hnd' & Hh & Hb).
      assert (Hj : ∀ i j, i ∈ [i0; i1; i2] → j ∈ [j0; j1; j2] → i ≠ j).
      { intros i j Hi Hj ->. by apply (submit_other u c v _ j Hu Hi). }
      assert (c ≠ b) by (intros ->; destruct Hne; by eapply (ow_inj _ Ho)).
      split_and!; try done.
      * split; cbn; repeat (rewrite list_lookup_insert_ne by (apply Hj; set_solver)); done.
      * cbn. rewrite !list_lookup_insert_ne; [done|apply Hj; set_solver|done].
      * cbn. by rewrite list_lookup_alter_ne by (apply Hj; set_solver).
  - intros i. cbn [free dsk]. rewrite Hval. case_decide as Hi.
    + split; [|done]. intros _. exists t, b, w, (Wait i0 i1 i2). by rewrite lookup_insert_eq.
    + rewrite (ow_free _ Ho). split; intros (u & c & v & p & Hu & Hip).
      * exists u, c, v, p. split; [|done]. rewrite lookup_insert_ne; [done|]. intros <-. rewrite Hself in Hu.
        simplify_eq. by apply elem_of_nil in Hip.
      * apply lookup_insert_Some in Hu as [[<- [= <- <- <-]]|[_ Hu]]; [by destruct Hi|eauto 10].
  - intros u u' c c' v v' p p' i. rewrite !lookup_insert_Some.
    intros [[<- [= <- <- <-]]|[_ Hu]] [[<- [= <- <- <-]]|[_ Hu']] Hi Hi'; [done|..|by eapply (ow_disj _ Ho)].
    + by destruct (submit_other _ _ _ _ i Hu' Hi).
    + by destruct (submit_other _ _ _ _ i Hu Hi').
Qed.

Lemma submit_moving : moving s'.
Proof.
  destruct submit_flight as [Htodo Hfl]. pose proof submit_new as Hnew. pose proof submit_self as Hself.
  destruct Hinv as [Hs Ho Hm _]. split; rewrite ?submit_calls.
  - rewrite Hfl. constructor; [done|apply Hm].
  - intros i. rewrite Hfl, elem_of_cons, (mv_flight _ Hm). split.
    + intros [->|(u & c & v & j1 & j2 & Hu & Hf)].
      * exists t, b, w, i1, i2. rewrite lookup_insert_eq, submit_flag, decide_True by done. done.
      * exists u, c, v, j1, j2. rewrite submit_flag. split; [|by case_decide].
        rewrite lookup_insert_ne; [done|]. intros <-. congruence.
    + intros (u & c & v & j1 & j2 & [[<- [= <- <- <- <- <-]]|[Hne Hu]]%lookup_insert_Some & Hf); [by left|right].
      exists u, c, v, j1, j2. split; [done|]. rewrite submit_flag, decide_False in Hf; [done|].
      intros ->. destruct Hne. by eapply (ow_inj _ Ho).
  - intros c. rewrite submit_flag. case_decide as Hd.
    + subst. intros _. exists t, w, i0, i1, i2. by rewrite lookup_insert_eq.
    + intros (u & v & j0 & j1 & j2 & Hu)%(mv_flag _ Hm). exists u, v, j0, j1, j2.
      rewrite lookup_insert_ne; [done|]. intros <-. congruence.
  - intros i. rewrite Htodo, elem_of_cons, submit_status. intros [->|Hi]; [by rewrite decide_True|].
    rewrite decide_False; [by apply Hm|]. intros ->. apply Hnew. unfold flight. set_solver.
  - intros u c v j0 j1 j2. rewrite lookup_insert_Some, submit_flag, submit_status.
    intros [[<- [= <- <- <- <- <-]]|[Hne Hu]]; [by rewrite decide_True|]. case_decide as Hd; [done|].
    intros Hf. rewrite decide_False; [by eapply (mv_done _ Hm)|]. intros ->.
    by apply (submit_other u c v _ i0 Hu); [set_solver|cbn; set_solver].
Qed.

Lemma inv_submit : inv s'.
Proof.
  split; [|apply submit_owned|apply submit_moving|].
  - destruct (v_shape _ Hinv) as [? ? ? ? ? ? (? & ? & ? & ?) Hb ?].
    split; cbn; rewrite ?length_insert, ?length_alter; try done.
    + rewrite <-sh_free0. by eapply took_length.
    + split_and!; try done. apply u16_range.
    + intros c y. rewrite list_lookup_insert_Some. intros [(_ & <- & _)|[_ Hz]]; [by apply (Hb b x)|by apply (Hb c y)].
  - intros u c v p. cbn. rewrite lookup_insert_Some. rewrite submit_flag. intros [[_ [= <- <- <-]]|[_ Hu]].
    + by rewrite decide_True.
    + pose proof (v_rested _ Hinv u c v p Hu) as Hr. destruct p; [|by case_decide].
      intros i j k Hnd Hi Hj Hk. destruct HF as (_ & _ & Hval). rewrite Hval in Hi, Hj, Hk.
      repeat case_decide; try done. by apply (Hr i j k).
Qed.
End submit.

(** Going to sleep where the call already was. *)
Lemma calls_same s t b w p a a' :
  threads s !! t = Some (MkThread b w p a) → calls (with_threads (<[t := MkThread b w p a']>) s) = calls s.
Proof. intros Ht. cbn. rewrite calls_insert. apply insert_id, calls_lookup. eauto. Qed.

Lemma inv_sleep s t b w p a :
  inv s → threads s !! t = Some (MkThread b w p a) →
  match p with Alloc => few (free (dsk s)) | Wait _ _ _ => flag s b = true end →
  inv (with_threads (<[t := MkThread b w p true]>) s).
Proof.
  intros [Hs Ho Hm Hr] Ht Hp. pose proof (calls_same s t b w p a true Ht) as Hc. split; [by destruct Hs|..].
  - by eapply (owned_frame s).
  - eapply (moving_frame s); try done. apply Hm.
  - intros u c v q. cbn. rewrite lookup_insert_Some. intros [[_ [= <- <- <-]]|[_ Hu]]; [done|exact (Hr u c v q Hu)].
Qed.

Lemma inv_retreat s s' : inv s → retreat s s' → inv s'.
Proof.
  intros [Hs Ho Hm Hr] (ds & f & -> & Hl & Hds & Hf).
  assert (Hc : calls_of (f (threads s)) = calls s) by (destruct Hf as [-> | ->]; [done|apply calls_wake]).
  split.
  - destruct Hs. split; try done. cbn. congruence.
  - destruct Ho as [H1 H2 H3 H4 H5]. split; cbn [threads with_threads with_dsk dsk with_desc free ops bufs desc infos];
      rewrite ?Hc; try done.
    intros t b w i0 i1 i2 Ht. destruct (H3 t b w i0 i1 i2 Ht) as ([] & ?). split; [|done].
    split; (rewrite Hds; [done|]); apply H4; exists t, b, w, (Wait i0 i1 i2); cbn; set_solver.
  - eapply (moving_frame s); try done. apply Hm.
  - intros t b w p. cbn. destruct Hf as [-> | ->]; [apply Hr|]. intros [Ht _]%vwake_lookup. exact (Hr t b w p Ht).
Qed.

(** ** The end of a call *)

Section finish.
Context (s : vsys) (t b : nat) (w a : bool) (i0 i1 i2 : nat).
Context (Hinv : inv s) (Ht : threads s !! t = Some (MkThread b w (Wait i0 i1 i2) a)) (Hf : flag s b = false).

Let s' := with_threads (delete t) (finished i0 i1 i2 s).

Lemma finish_self : calls s !! t = Some (b, w, Wait i0 i1 i2).
Proof. apply calls_lookup. eauto. Qed.
Lemma finish_calls : calls s' = delete t (calls s).
Proof. cbn. by rewrite calls_delete, calls_wake. Qed.
Lemma finish_other u c v p i : u ≠ t → calls s !! u = Some (c, v, p) → i ∈ chain p → i ∉ [i0; i1; i2].
Proof. intros Hne Hu Hi Hin. destruct Hne. by eapply (ow_disj _ (v_owned _ Hinv) u t); [|apply finish_self|..]. Qed.

Lemma finish_free j : free (dsk s') !! j = if decide (j ∈ [i0; i1; i2]) then Some true else free (dsk s) !! j.
Proof.
  assert (Hlt : ∀ i, i ∈ [i0; i1; i2] → (i < length (free (dsk s)))%nat).
  { intros i Hi. eapply lookup_lt_Some, chain_not_free; [apply Hinv|apply finish_self|done]. }
  cbn [dsk s' finished with_threads free].
  destruct (decide (j = i2)) as [->|]; [rewrite decide_True by set_solver; apply list_lookup_insert_eq; rewrite !length_insert; apply Hlt; set_solver|].
  rewrite list_lookup_insert_ne by done.
  destruct (decide (j = i1)) as [->|]; [rewrite decide_True by set_solver; apply list_lookup_insert_eq; rewrite !length_insert; apply Hlt; set_solver|].
  rewrite list_lookup_insert_ne by done.
  destruct (decide (j = i0)) as [->|]; [rewrite decide_True by set_solver; apply list_lookup_insert_eq; rewrite ?length_insert; apply Hlt; set_solver|].
  rewrite list_lookup_insert_ne by done. by rewrite decide_False by set_solver.
Qed.

Lemma finish_status i : status s' i = status s i.
Proof.
  unfold status. cbn. destruct (decide (i = i0)) as [->|]; [|by rewrite list_lookup_alter_ne].
  rewrite list_lookup_alter_eq. by destruct (infos (dsk s) !! i0).
Qed.

Lemma finish_owned : owned s'.
Proof.
  pose proof finish_self as Hself. pose proof (v_owned _ Hinv) as Ho. split; rewrite ?finish_calls.
  - intros u c v p [_ Hu]%lookup_delete_Some. by eapply (ow_buf _ Ho).
  - intros u u' c v v' p p' [_ Hu]%lookup_delete_Some [_ Hu']%lookup_delete_Some. by eapply (ow_inj _ Ho).
  - intros u c v j0 j1 j2 [Hne Hu]%lookup_delete_Some.
    destruct (ow_chain _ Ho _ _ _ _ _ _ Hu) as ([] & Hnd & Hh & Hb).
    assert (Hj : ∀ i j, i ∈ [i0; i1; i2] → j ∈ [j0; j1; j2] → i ≠ j).
    { intros i j Hi Hj ->. by eapply (finish_other u c v _ j). }
    split_and!; try done.
    + split; cbn; by rewrite !list_lookup_insert_ne by (apply Hj; set_solver).
    + cbn. by rewrite list_lookup_alter_ne by (apply Hj; set_solver).
  - intros i. rewrite finish_free. case_decide as Hi.
    + split; [done|]. intros (u & c & v & p & [Hne Hu]%lookup_delete_Some & Hip). by destruct (finish_other u c v p i).
    + rewrite (ow_free _ Ho). split; intros (u & c & v & p & Hu & Hip).
      * exists u, c, v, p. split; [|done]. apply lookup_delete_Some. split; [|done]. intros <-.
        rewrite Hself in Hu. by simplify_eq.
      * apply lookup_delete_Some in Hu as [_ Hu]. eauto 10.
  - intros u u' c c' v v' p p' i [_ Hu]%lookup_delete_Some [_ Hu']%lookup_delete_Some. by eapply (ow_disj _ Ho).
Qed.

Lemma finish_moving : moving s'.
Proof.
  pose proof finish_self as Hself. pose proof (v_moving _ Hinv) as Hm. split; rewrite ?finish_calls; try apply Hm.
  - intros i. change (flight s') with (flight s). rewrite (mv_flight _ Hm i). split; intros (u & c & v & j1 & j2 & Hu & Hfl); exists u, c, v, j1, j2.
    + split; [|done]. apply lookup_delete_Some. split; [|done]. intros <-. congruence.
    + by apply lookup_delete_Some in Hu as [_ Hu].
  - intros c Hfl. destruct (mv_flag _ Hm c Hfl) as (u & v & j0 & j1 & j2 & Hu). exists u, v, j0, j1, j2.
    apply lookup_delete_Some. split; [|done]. intros <-. change (flag s' c) with (flag s c) in Hfl. congruence.
  - intros i Hi. rewrite finish_status. by apply (mv_todo _ Hm).
  - intros u c v j0 j1 j2 [_ Hu]%lookup_delete_Some Hfl. rewrite finish_status. by eapply (mv_done _ Hm).
Qed.

Lemma inv_finish : inv s'.
Proof.
  split; [|apply finish_owned|apply finish_moving|].
  - destruct (v_shape _ Hinv). by split; cbn; rewrite ?length_insert, ?length_alter.
  - intros u c v p. cbn. rewrite lookup_delete_Some. intros [_ [Hu Hch]%vwake_lookup].
    pose proof (v_rested _ Hinv u c v p Hu). by destruct p.
Qed.
End finish.

(** ** The interrupt handler *)

Definition acked (b : nat) (x : buf) (s : vsys) : vsys :=
  MkSys (with_used_idx (u16 (used_idx (dsk s) + 1)) (dsk s)) (<[b := set_disk false x]> (bufs s))
    (wake_one (ChBuf b) <$> threads s) (dev s) (in_intr s).

Lemma intr_body_run s :
  inv s → intr_pending s = true →
  ∃ head t b w i1 i2 x,
    usq s = head :: usq (acked b x s) ∧ calls s !! t = Some (b, w, Wait head i1 i2) ∧ bufs s !! b = Some x ∧
    intr_body s = if bool_decide (status s head = 0) then Ok tt (acked b x s) else Panic "virtio_disk_intr status".
Proof.
  intros Hinv Hp. pose proof Hinv as [Hs Ho Hm Hr]. unfold intr_pending in Hp. apply bool_decide_eq_true in Hp.
  destruct (sh_idx _ Hs) as (_ & _ & Hu & Hui).
  destruct (lookup_lt_is_Some_2 (u_ring (used (dsk s))) (Z.to_nat (used_idx (dsk s) mod Z.of_nat NUM))) as [[head n] He].
  { rewrite (sh_used _ Hs). unfold NUM. zlia. }
  assert (Hq : usq s = head :: (fst <$> queue (u_ring (used (dsk s))) (u16 (used_idx (dsk s) + 1)) (u_idx (used (dsk s))))).
  { unfold usq. rewrite queue_pop by done. by rewrite (list_lookup_total_correct _ _ _ He). }
  destruct (taken_request s head Hinv) as (t & b & w & i1 & i2 & x & Ht & Hx & Hd & _).
  { unfold flight. rewrite Hq. set_solver. }
  exists head, t, b, w, i1, i2, x. split; [done|]. split; [done|]. split; [done|].
  destruct (ow_chain _ Ho _ _ _ _ _ _ Ht) as (_ & _ & _ & Hi).
  unfold status, intr_body, gets, mbind, M_bind, of_option. rewrite He. cbn.
  destruct (infos (dsk s) !! head) as [[ib st]|]; [|done]. cbn in Hi. simplify_eq/=.
  unfold mret, M_ret. cbn. destruct (decide (st = 0)) as [->|].
  - unfold upd, rdbuf, mbind, M_bind, get, of_option. rewrite bool_decide_false, bool_decide_true by auto. cbn. by rewrite Hx.
  - by rewrite bool_decide_true, bool_decide_false.
Qed.

Section ack.
Context (s : vsys) (head t b : nat) (w : bool) (i1 i2 : nat) (x : buf).
Context (Hinv : inv s) (Hq : usq s = head :: usq (acked b x s)).
Context (Ht : calls s !! t = Some (b, w, Wait head i1 i2)) (Hx : bufs s !! b = Some x) (Hz : status s head = 0).

Let s' := acked b x s.

Lemma ack_flag c : flag s' c = if decide (c = b) then false else flag s c.
Proof.
  change (flag s' c) with (flag (with_bufs (<[b := set_disk false x]> (bufs s)) s) c).
  by rewrite flag_insert by (by eapply lookup_lt_Some).
Qed.
Lemma ack_flight : flight s ≡ₚ head :: flight s'.
Proof. unfold flight. rewrite Hq. change (todo s') with (todo s). cbn. solve_Permutation. Qed.
Lemma ack_calls : calls s' = calls s.
Proof. apply calls_wake. Qed.

Lemma ack_moving : moving s'.
Proof.
  pose proof (v_owned _ Hinv) as Ho. pose proof (v_moving _ Hinv) as Hm.
  pose proof (mv_nodup _ Hm) as Hnd. rewrite ack_flight in Hnd. apply NoDup_cons in Hnd as [Hni Hnd].
  split; rewrite ?ack_calls.
  - done.
  - intros i. split.
    + intros Hi. destruct (proj1 (mv_flight _ Hm i)) as (u & c & v & j1 & j2 & Hu & Hf); [rewrite ack_flight; set_solver|].
      exists u, c, v, j1, j2. split; [done|]. rewrite ack_flag. case_decide; [|done]. subst.
      assert (u = t) as -> by (by eapply (ow_inj _ Ho)). by simplify_eq.
    + intros (u & c & v & j1 & j2 & Hu & Hf). rewrite ack_flag in Hf. case_decide; [done|].
      assert (Hi : i ∈ flight s) by (apply (mv_flight _ Hm); eauto 10). rewrite ack_flight in Hi.
      apply elem_of_cons in Hi as [->|]; [|done]. assert (u = t) as -> by (by eapply (ow_disj _ Ho u t _ _ _ _ _ _ head Hu Ht); apply list_elem_of_here).
      congruence.
  - intros c. rewrite ack_flag. case_decide; [done|]. apply (mv_flag _ Hm).
  - apply (mv_todo _ Hm).
  - intros u c v j0 j1 j2 Hu. rewrite ack_flag. case_decide; [|by apply (mv_done _ Hm u c v j0 j1 j2)].
    subst. intros _. assert (u = t) as -> by (by eapply (ow_inj _ Ho)). by simplify_eq.
Qed.

Lemma inv_ack : inv s'.
Proof.
  split; [..|apply ack_moving|].
  - destruct (v_shape _ Hinv) as [? ? ? ? ? ? (? & ? & ? & ?) Hb ?]. split; cbn; try done.
    + split_and!; try done. apply u16_range.
    + intros c y. rewrite list_lookup_insert_Some. intros [(_ & <- & _)|[_ Hy]]; [by apply (Hb b x)|by apply (Hb c y)].
  - eapply (owned_frame s); try done; [apply ack_calls| |by cbn; rewrite length_insert|apply Hinv].
    intros c. cbn. destruct (decide (c = b)) as [->|]; [|by rewrite list_lookup_insert_ne].
    by rewrite list_lookup_insert_eq, Hx by (by eapply lookup_lt_Some).
  - intros u c v p. intros [Hu Hch]%vwake_lookup. pose proof (v_rested _ Hinv u c v p Hu) as Hr. destruct p; [done|].
    rewrite ack_flag. case_decide; [|done]. subst. by destruct Hch.
Qed.
End ack.

End VirtioSpec.
