(* ===== verification/VirtioRefine.v ===== *)
(** Executions of the disk driver: refinement of the buffer cache's
    [virtio_disk_rw], absence of panics, and progress. *)

From S2P Require Import Prelude Sleeplock BlockIO Bio Ring Virtio VirtioSpec.

Local Open Scope Z_scope.

Module VirtioRefine.

Import Virtio VirtioSpec.
Import Bio (buf, MkBuf, b_valid, b_disk, b_dev, b_blockno, b_lock, b_refcnt, b_data, set_data).

(** ** Runs of the driver on a state that satisfies the invariant *)

(** A run of a call that holds descriptors. *)
Lemma waiter_run s t b w i0 i1 i2 a :
  inv s → threads s !! t = Some (MkThread b w (Wait i0 i1 i2) a) →
  virtio_disk_rw b w (Wait i0 i1 i2) s =
    if flag s b then Ok (Some (Wait i0 i1 i2)) s else Ok None (finished i0 i1 i2 s).
Proof.
  intros [Hs Ho _ _] Ht. assert (Hc : calls s !! t = Some (b, w, Wait i0 i1 i2)) by (apply calls_lookup; eauto).
  destruct (ow_chain _ Ho _ _ _ _ _ _ Hc) as (Hch & Hnd & _).
  destruct (lookup_lt_is_Some_2 (bufs s) b (ow_buf _ Ho _ _ _ _ Hc)) as [x Hx].
  cbn. rewrite (rw_wait_run b w i0 i1 i2 x); try done.
  - unfold flag. by rewrite Hx.
  - apply Hs.
  - intros i Hi. by eapply chain_not_free.
Qed.

Lemma alloc_run s t b w a :
  inv s → threads s !! t = Some (MkThread b w Alloc a) →
  ∃ x, bufs s !! b = Some x ∧
  ((∃ i0 i1 i2 F, took (free (dsk s)) [i0; i1; i2] F ∧
      virtio_disk_rw b w Alloc s = Ok (Some (Wait i0 i1 i2)) (submitted b w i0 i1 i2 F x s)) ∨
   (∃ s', few (free (dsk s)) ∧ retreat s s' ∧ virtio_disk_rw b w Alloc s = Ok (Some Alloc) s')).
Proof.
  intros [Hs Ho _ _] Ht. assert (Hc : calls s !! t = Some (b, w, Alloc)) by (apply calls_lookup; eauto).
  destruct (lookup_lt_is_Some_2 (bufs s) b (ow_buf _ Ho _ _ _ _ Hc)) as [x Hx].
  exists x. split; [done|]. apply rw_start_run; [done|apply Hs].
Qed.

(** ** Simulation *)

Lemma sim_frame s s' a :
  sim s a → calls s' = calls s → sectors (dev s') = sectors (dev s) →
  (∀ b, set_disk false <$> bufs s' !! b = set_disk false <$> bufs s !! b) →
  (∀ t b w i0 i1 i2, calls s !! t = Some (b, w, Wait i0 i1 i2) → status s' i0 = 0 ↔ status s i0 = 0) →
  sim s' a.
Proof.
  intros [H1 H2 H3] Hc Hm Hb Hst. split; rewrite ?Hm; try done.
  - rewrite H1. apply list_eq. intros b. by rewrite !list_lookup_fmap, Hb.
  - rewrite H3, Hc. apply map_fmap_ext. intros t [[b w] [|i0 i1 i2]] Ht; [done|]. cbn. f_equal.
    apply bool_decide_ext. symmetry. by eapply Hst.
Qed.

(** The specification follows the whole step with at most one of its own. *)
Definition follows (s : vsys) (e : option event) (s' : vsys) : Prop :=
  inv s' ∧ ∀ a, sim s a → ∃ a', sim s' a' ∧ (spec_step a e a' ∨ e = None ∧ a' = a).

Lemma follows_silent s s' :
  inv s' → (∀ a, sim s a → sim s' a) → follows s None s'.
Proof. intros Hi Hs. split; [done|]. intros a Ha. exists a. auto. Qed.

Lemma sim_sleep s a t b w p q q' :
  threads s !! t = Some (MkThread b w p q) → sim s a → sim (with_threads (<[t := MkThread b w p q']>) s) a.
Proof. intros Ht Ha. eapply sim_frame; try done. by eapply calls_same. Qed.

Lemma retreat_calls s s' : retreat s s' → calls s' = calls s.
Proof. intros (ds & f & -> & _ & _ & Hf). cbn. destruct Hf as [-> | ->]; [done|apply calls_wake]. Qed.

Lemma sim_submit s t b w i0 i1 i2 F x a :
  inv s → threads s !! t = Some (MkThread b w Alloc false) → bufs s !! b = Some x →
  took (free (dsk s)) [i0; i1; i2] F → sim s a →
  sim (with_threads (<[t := MkThread b w (Wait i0 i1 i2) true]>) (submitted b w i0 i1 i2 F x s)) a.
Proof.
  intros Hi Ht Hx HF [H1 H2 H3]. assert (Hc : calls s !! t = Some (b, w, Alloc)) by (apply calls_lookup; eauto).
  pose proof (submit_status s t b w false i0 i1 i2 F x Hi Ht Hx HF) as Hst.
  pose proof (submit_calls s t b w i0 i1 i2 F x) as Hcs.
  set (s' := with_threads _ _) in *. split; [..|].
  - cbn. rewrite H1, list_fmap_insert. symmetry. apply list_insert_id. by rewrite list_lookup_fmap, Hx.
  - done.
  - rewrite H3, Hcs. apply map_eq. intros u. rewrite !lookup_fmap. destruct (decide (u = t)) as [->|Hne].
    + rewrite Hc, lookup_insert_eq. cbn. by rewrite Hst, decide_True.
    + rewrite lookup_insert_ne by done. destruct (calls s !! u) as [[[c v] [|j0 j1 j2]]|] eqn:Hu; [done| |done].
      cbn. do 2 f_equal. apply bool_decide_ext. rewrite Hst, decide_False; [done|]. intros ->.
      apply (submit_other s i0 i1 i2 F Hi HF u c v _ i0 Hu); cbn; set_solver.
Qed.

Lemma run_follows s t b w p p' s' :
  inv s → threads s !! t = Some (MkThread b w p false) → virtio_disk_rw b w p s = Ok (Some p') s' →
  follows s None (with_threads (<[t := MkThread b w p' true]>) s').
Proof.
  intros Hi Ht Hrun. destruct p as [|i0 i1 i2].
  - destruct (alloc_run s t b w false Hi Ht) as (x & Hx & [(i0 & i1 & i2 & F & HF & R)|(s1 & Hfew & Hr & R)]);
      rewrite R in Hrun; simplify_eq.
    + apply follows_silent; [by eapply inv_submit|]. intros a. by apply sim_submit.
    + assert (∃ q, threads s' !! t = Some (MkThread b w Alloc q)) as [q Hq].
      { apply calls_lookup. rewrite (retreat_calls s s' Hr). apply calls_lookup. eauto. }
      pose proof Hr as (ds & f & Hs' & _). apply follows_silent.
      * eapply inv_sleep; [by eapply inv_retreat|done|]. by subst.
      * intros a Ha. eapply sim_sleep; [done|]. eapply (sim_frame s); try done; [by apply retreat_calls|by subst..].
  - rewrite (waiter_run s t b w i0 i1 i2 false Hi Ht) in Hrun. destruct (flag s b) eqn:Hf; [|done]. simplify_eq.
    apply follows_silent; [by eapply inv_sleep|]. intros a. by eapply sim_sleep.
Qed.

Lemma return_follows s t b w p s' :
  inv s → threads s !! t = Some (MkThread b w p false) → virtio_disk_rw b w p s = Ok None s' →
  follows s (Some (ERet t)) (with_threads (delete t) s').
Proof.
  intros Hi Ht Hrun. destruct p as [|i0 i1 i2].
  { destruct (alloc_run s t b w false Hi Ht) as (x & Hx & [(i0 & i1 & i2 & F & HF & R)|(s1 & Hfew & Hr & R)]); congruence. }
  rewrite (waiter_run s t b w i0 i1 i2 false Hi Ht) in Hrun. destruct (flag s b) eqn:Hf; [done|]. simplify_eq.
  assert (Hc : calls s !! t = Some (b, w, Wait i0 i1 i2)) by (apply calls_lookup; eauto).
  split; [by eapply inv_finish|]. intros [bio cs] [H1 H2 H3]. cbn in *. exists (MkSpec bio (delete t cs)). split.
  - split; [done..|]. rewrite (finish_calls s t i0 i1 i2). cbn [a_calls]. rewrite H3, <-fmap_delete.
    apply map_fmap_ext. intros u [[c v] [|j0 j1 j2]] Hu; [done|]. cbn. by rewrite (finish_status s t).
  - left. eapply sp_return. rewrite H3, lookup_fmap, Hc. cbn.
    rewrite bool_decide_true by (by eapply (mv_done _ (v_moving _ Hi))). done.
Qed.

Lemma served_status s s' l1 head l2 z i :
  inv s → same_but_data s s' → head ∈ todo s →
  status (move_served l1 l2 head (set_status head z s')) i = if decide (i = head) then z else status s i.
Proof.
  intros Hi Hd Hin. change (status (move_served l1 l2 head (set_status head z s')) i) with (status (set_status head z s') i).
  rewrite status_set; [unfold status; by rewrite (sd_dsk _ _ Hd)|].
  rewrite (sd_dsk _ _ Hd), (sh_infos _ (v_shape _ Hi)). destruct Hi. apply (flight_lt s); try done. unfold flight. set_solver.
Qed.

Lemma serve_follows s l1 head l2 r s' :
  inv s → pending (dev s) = l1 ++ head :: l2 → chain_of (dsk s) head = Some r → transfer r s = Some s' →
  follows s None (move_served l1 l2 head (set_status (r_status r) 0 s')).
Proof.
  intros Hi Hp Hr Htr. destruct (taken_request s head Hi) as (t & b & w & i1 & i2 & x & Hc & Hx & _ & Hr').
  { unfold flight, todo. rewrite Hp. set_solver. }
  rewrite Hr' in Hr. simplify_eq. cbn [r_status request_of].
  pose proof (transfer_data _ _ _ _ _ _ (v_shape _ Hi) Hx Htr) as Hd.
  split; [by apply inv_status with (s := s)|]. intros [bio cs] [H1 H2 H3]. cbn in *.
  destruct (transfer_bio _ _ _ _ _ _ bio (v_shape _ Hi) Hx Htr H1 H2) as (bio' & Hrw & H1' & H2').
  exists (MkSpec bio' (<[t := (b, w, true)]> cs)). 
  assert (Hst : ∀ i, status (move_served l1 l2 head (set_status head 0 s')) i = if decide (i = head) then 0 else status s i).
  { intros i. apply (served_status s); try done. unfold todo. rewrite Hp. set_solver. }
  split.
  - split; [done..|]. cbn [a_calls]. rewrite H3. cbn [threads move_served set_status with_dev with_dsk].
    rewrite (sd_threads _ _ Hd). apply map_eq. intros u. rewrite lookup_fmap. destruct (decide (u = t)) as [->|Hne].
    + rewrite Hc, lookup_insert_eq. cbn [fmap option_fmap option_map done_of fst snd]. by rewrite Hst, decide_True.
    + rewrite lookup_insert_ne, lookup_fmap by done.
      destruct (calls s !! u) as [[[c v] [|j0 j1 j2]]|] eqn:Hu; [done| |done]. cbn [fmap option_fmap option_map done_of fst snd].
      rewrite Hst, decide_False; [done|]. intros ->. apply Hne.
      by eapply (ow_disj _ (v_owned _ Hi) u t _ _ _ _ _ _ head Hu Hc); apply list_elem_of_here.
  - left. eapply sp_transfer; [|done]. rewrite H3, lookup_fmap, Hc. cbn. rewrite bool_decide_false; [done|].
    apply (mv_todo _ (v_moving _ Hi)). unfold todo. rewrite Hp. set_solver.
Qed.

Lemma error_follows s l1 head l2 r e :
  inv s → pending (dev s) = l1 ++ head :: l2 → chain_of (dsk s) head = Some r → 0 < e < 256 →
  follows s None (move_served l1 l2 head (set_status (r_status r) e s)).
Proof.
  intros Hi Hp Hr He. assert (Hin : head ∈ todo s) by (unfold todo; rewrite Hp; set_solver).
  destruct (taken_request s head Hi) as (t & b & w & i1 & i2 & x & Hc & Hx & _ & Hr').
  { unfold flight. set_solver. }
  rewrite Hr' in Hr. simplify_eq. cbn [r_status request_of].
  pose proof (same_refl s (v_shape _ Hi)) as Hd. apply follows_silent; [by apply inv_status with (s := s)|].
  intros a Ha. eapply sim_frame; try done. intros u c v j0 j1 j2 Hu. rewrite (served_status s) by done.
  case_decide; [|done]. subst. apply (mv_todo _ (v_moving _ Hi)) in Hin. lia.
Qed.

Lemma intr_follows s s' : inv s → intr_pending s = true → intr_body s = Ok tt s' → follows s None s'.
Proof.
  intros Hi Hp Hrun. destruct (intr_body_run s Hi Hp) as (head & t & b & w & i1 & i2 & x & Hq & Hc & Hx & R).
  rewrite R in Hrun. case_bool_decide as Hz; [|done]. simplify_eq.
  apply follows_silent; [by eapply inv_ack|]. intros a Ha. eapply sim_frame; try done; [apply ack_calls|].
  intros c. cbn. destruct (decide (c = b)) as [->|]; [|by rewrite list_lookup_insert_ne].
  by rewrite list_lookup_insert_eq, Hx by (by eapply lookup_lt_Some).
Qed.

Lemma call_follows s t b w :
  inv s → threads s !! t = None → no_call s b → (b < length (bufs s))%nat →
  follows s (Some (ECall t b w)) (with_threads (<[t := MkThread b w Alloc false]>) s).
Proof.
  intros Hi Ht Hb Hl. split; [by apply inv_call|]. intros [bio cs] [H1 H2 H3]. cbn in *.
  exists (MkSpec bio (<[t := (b, w, false)]> cs)). split.
  - split; [done..|]. cbn [a_calls threads with_threads]. rewrite calls_insert, fmap_insert, H3. done.
  - left. apply sp_call. rewrite H3, lookup_fmap. unfold calls_of. by rewrite lookup_fmap, Ht.
Qed.

Lemma store_follows s b x y :
  inv s → bufs s !! b = Some x → no_call s b → length (b_data y) = BSIZE → b_disk y = b_disk x →
  follows s (Some (EStore b y)) (with_bufs (<[b := y]> (bufs s)) s).
Proof.
  intros Hi Hx Hb Hl Hd. split; [by eapply inv_store|]. intros [bio cs] [H1 H2 H3]. cbn in *.
  eexists. split; [|left; apply sp_store]. split; [|done..]. cbn. rewrite list_fmap_insert, H1. f_equal.
  destruct (b_disk x) eqn:Hdx; [|by destruct y; cbn in *; subst].
  destruct (mv_flag _ (v_moving _ Hi) b) as (t & w & i0 & i1 & i2 & Ht); [unfold flag; by rewrite Hx|].
  rewrite no_call_spec in Hb. by apply Hb in Ht.
Qed.

Lemma vstep_follows s e s' : inv s → vstep s e s' → follows s e s'.
Proof.
  intros Hi Hst. destruct Hst.
  - by apply call_follows.
  - by eapply store_follows.
  - by eapply run_follows.
  - by eapply return_follows.
  - apply follows_silent; [by destruct Hi as [[] [] [] ?]|]. by intros a [].
  - by apply intr_follows.
  - apply follows_silent; [by destruct Hi as [[] [] [] ?]|]. by intros a [].
  - apply follows_silent; [by apply inv_take|]. by intros a [].
  - by eapply serve_follows.
  - by eapply error_follows.
  - apply follows_silent; [by apply inv_complete|]. by intros a [].
Qed.

(** ** Executions *)

(** [disk] when [virtio_disk_init] is done. *)
Definition ready_disk : disk :=
  MkDisk (replicate NUM (MkDesc Null 0 0 0)) (MkAvail 0 (replicate NUM 0%nat)) (MkUsed 0 (replicate NUM (0%nat, 0)))
    (replicate NUM true) 0 (replicate NUM (MkInfo None 0)) (replicate NUM (MkReq 0 0 0)).

Lemma pwp_R_read mmio r Q s : (∀ v, Q v s) → pwp (R_read mmio r) Q s.
Proof. intros H. apply H. Qed.
Lemma pwp_R_write r v (Q : unit → boot → Prop) s : (∀ s', b_dsk s' = b_dsk s → Q tt s') → pwp (R_write r v) Q s.
Proof. intros H. by apply H. Qed.
Lemma pwp_bootd f (Q : unit → boot → Prop) s : (∀ s', b_dsk s' = f (b_dsk s) → Q tt s') → pwp (bootd f) Q s.
Proof. intros H. by apply H. Qed.

Lemma init_disk mmio pd pa pu b :
  virtio_disk_init mmio pd pa pu (MkBoot [] zero_disk) = Ok tt b → b_dsk b = ready_disk.
Proof.
  intros H. assert (Hp : pwp (virtio_disk_init mmio pd pa pu) (λ _ b, b_dsk b = ready_disk) (MkBoot [] zero_disk)).
  { unfold virtio_disk_init. cbv zeta.
    repeat lazymatch goal with
    | |- pwp (mbind _ _) _ _ => apply pwp_bind
    | |- pwp (R_read _ _) _ _ => apply pwp_R_read; intros ?
    | |- pwp (R_write _ _) _ _ => apply pwp_R_write; intros ? ?
    | |- pwp (bootd _) _ _ => apply pwp_bootd; intros ? ?
    | |- pwp (if _ then _ else _) _ _ => apply pwp_if; intros _; [exact I|]
    end.
    repeat lazymatch goal with H : b_dsk _ = _ |- _ => rewrite H; clear H end. done. }
  unfold pwp in Hp. by rewrite H in Hp.
Qed.

(** Buffers and sectors to start with. *)
Definition sound (bs : list buf) (m : gmap Z (list Z)) : Prop :=
  Forall (λ x, b_disk x = false ∧ length (b_data x) = BSIZE) bs ∧ map_Forall (λ _ x, length x = 512%nat) m.

Lemma start_flag bs m b : sound bs m → flag (start ready_disk bs m) b = false.
Proof.
  intros [Hb _]. unfold flag. cbn. destruct (bs !! b) as [x|] eqn:Hx; [|done].
  by destruct (Forall_lookup_1 _ _ _ _ Hb Hx).
Qed.

Lemma start_inv bs m : sound bs m → inv (start ready_disk bs m).
Proof.
  intros Hso. pose proof (λ b, start_flag bs m b Hso) as Hf. destruct Hso as [Hb Hm]. split.
  - split; try done. intros b x Hx. by destruct (Forall_lookup_1 _ _ _ _ Hb Hx).
  - split; try done. intros i. split; [|naive_solver]. cbn [free dsk start ready_disk].
    intros Hi. by apply lookup_replicate in Hi as [? _].
  - split; try done.
    + apply NoDup_nil_2.
    + intros i. split; [by intros ?%elem_of_nil|]. naive_solver.
    + intros b. by rewrite Hf.
    + by intros i ?%elem_of_nil.
  - done.
Qed.

Lemma runs_inv s l s' : runs vstep s l s' → inv s → inv s'.
Proof. induction 1; [done|..]; intros Hi; (eapply vstep_follows in Hi as [? _]; [|done]; auto). Qed.

Lemma runs_refine s l s' :
  runs vstep s l s' → inv s → ∀ a, sim s a → ∃ a', runs spec_step a l a' ∧ sim s' a'.
Proof.
  induction 1 as [s|s s1 l s' Hst _ IH|s e s1 l s' Hst _ IH]; intros Hi a Ha.
  - exists a. split; [constructor|done].
  - apply vstep_follows in Hst as [Hi1 Hf]; [|done]. destruct (Hf a Ha) as (a1 & Ha1 & Hor).
    destruct (IH Hi1 a1 Ha1) as (a' & Hr & Ha'). exists a'. split; [|done].
    destruct Hor as [Hs|[_ ->]]; [by eapply runs_tau|done].
  - apply vstep_follows in Hst as [Hi1 Hf]; [|done]. destruct (Hf a Ha) as (a1 & Ha1 & [Hs|[? _]]); [|done].
    destruct (IH Hi1 a1 Ha1) as (a' & Hr & Ha'). exists a'. split; [by eapply runs_event|done].
Qed.

(** C6: the disk driver, with the device behind it, implements the transfer the
    buffer cache is written against.  Once [virtio_disk_init] has set the disk
    up, take any run of concurrent calls of [virtio_disk_rw], of the device -
    which may take, serve and return requests in any order, and report errors -
    and of interrupts.  The same calls and returns are possible when each call
    performs [Bio.virtio_disk_rw] in one step between its call and its return,
    with the same contents of buffers and of the disk: nothing is lost,
    duplicated, or mixed up between requests, and no call returns before its
    transfer is done. *)
Theorem virtio_refines mmio pd pa pu bt bs m bio l s :
  virtio_disk_init mmio pd pa pu (MkBoot [] zero_disk) = Ok tt bt →
  sound bs m → Bio.bufs bio = bs → holds m (Bio.disk bio) →
  runs vstep (start (b_dsk bt) bs m) l s →
  ∃ a, runs spec_step (MkSpec bio ∅) l a ∧ sim s a.
Proof.
  intros ->%init_disk Hso Hb Hh Hr. eapply runs_refine; [done|by apply start_inv|].
  split; [|done|done]. cbn. rewrite Hb. apply list_eq. intros i. rewrite list_lookup_fmap.
  destruct (bs !! i) as [x|] eqn:Hx; [|done]. destruct Hso as [Hf _].
  destruct (Forall_lookup_1 _ _ _ _ Hf Hx) as [Hd _]. cbn. by destruct x; cbn in *; subst.
Qed.

(** ** No panics *)

Lemma pending_usq s : shape s → intr_pending s = false ↔ usq s = [].
Proof.
  intros Hs. destruct (sh_idx _ Hs) as (_ & _ & ? & ?). unfold intr_pending, usq.
  rewrite bool_decide_eq_false, <-length_zero_iff_nil, length_fmap, length_zero_iff_nil, queue_nil by done.
  split; [intros H'; by apply dec_stable|auto].
Qed.

Lemma intr_loop_S n s :
  intr_loop (S n) s = if intr_pending s then (intr_body;; intr_loop n) s else Ok tt s.
Proof. cbn [intr_loop]. unfold mbind at 1, M_bind at 1, gets. by destruct (intr_pending s). Qed.

(** The handler looks at every entry of the used ring. *)
Lemma intr_loop_run n : ∀ s,
  inv s → (length (usq s) ≤ n)%nat →
  (∃ s', intr_loop (S n) s = Ok tt s' ∧ inv s' ∧ usq s' = []) ∨
  (intr_loop (S n) s = Panic "virtio_disk_intr status" ∧ ∃ h, h ∈ usq s ∧ status s h ≠ 0).
Proof.
  induction n as [|n IH]; intros s Hi Hl; rewrite intr_loop_S;
    destruct (intr_pending s) eqn:Hp.
  2,4: left; exists s; split; [done|]; split; [done|]; by apply pending_usq; [apply Hi|].
  all: destruct (intr_body_run s Hi Hp) as (head & t & b & w & i1 & i2 & x & Hq & Hc & Hx & R);
    rewrite Hq in Hl; cbn in Hl; try lia.
  unfold mbind, M_bind. rewrite R. case_bool_decide as Hz; [|right; split; [done|]; exists head; rewrite Hq; set_solver].
  destruct (IH (acked b x s)) as [?|[Hrun (h & Hh & Hhz)]]; [by eapply inv_ack|lia|by left|].
  right. split; [done|]. exists h. split; [rewrite Hq; set_solver|done].
Qed.

(** C27: the driver never fails by itself.  In every state that a run reaches, a
    call of [virtio_disk_rw] that may run does so without a panic or an access
    outside its arrays, until it sleeps or returns; the chains the device has
    taken are well formed; and [virtio_disk_intr] looks at all completed
    requests and returns, unless the device reported an error for one of them. *)
Theorem virtio_no_panic mmio pd pa pu bt bs m l s :
  virtio_disk_init mmio pd pa pu (MkBoot [] zero_disk) = Ok tt bt → sound bs m →
  runs vstep (start (b_dsk bt) bs m) l s →
  (∀ t b w p a, threads s !! t = Some (MkThread b w p a) → ∃ r s', virtio_disk_rw b w p s = Ok r s') ∧
  (∀ h, h ∈ pending (dev s) → is_Some (chain_of (dsk s) h)) ∧
  ((∃ s', virtio_disk_intr s = Ok tt s' ∧ intr_pending s' = false) ∨
   (virtio_disk_intr s = Panic "virtio_disk_intr status" ∧ ∃ h, h ∈ usq s ∧ status s h ≠ 0)).
Proof.
  intros ->%init_disk Hso Hr. apply runs_inv in Hr as Hi; [|by apply start_inv]. split_and!.
  - intros t b w [|i0 i1 i2] a Ht.
    + destruct (alloc_run s t b w a Hi Ht) as (x & _ & [(i0 & i1 & i2 & F & _ & R)|(s' & _ & _ & R)]); eauto.
    + rewrite (waiter_run s t b w i0 i1 i2 a Hi Ht). destruct (flag s b); eauto.
  - intros h Hh. destruct (taken_request s h Hi) as (t & b & w & i1 & i2 & x & _ & _ & _ & H); [|eauto].
    unfold flight, todo. set_solver.
  - destruct (intr_loop_run NUM s Hi) as [(s' & Hrun & Hi' & Hq)|?]; [|left|by right].
    + pose proof (flight_length s Hi) as Hl. unfold flight in Hl. rewrite !length_app in Hl. lia.
    + exists s'. split; [done|]. apply pending_usq; [apply Hi'|done].
Qed.

(** ** Progress *)

(** Projections of updated states, leaving arithmetic alone. *)
Ltac vsimpl :=
  cbn [dsk bufs threads dev in_intr with_dev with_dsk with_threads with_bufs with_intr last_avail pending served
       sectors avail used a_ring a_idx u_ring u_idx used_idx with_used with_used_idx with_avail free desc infos ops
       submitted finished acked move_served set_status with_infos length app].

(** The requested blocks are on the disk, and no error has been reported. *)
Record clear (s : vsys) : Prop := {
  cl_range t b w p x :
    calls s !! t = Some (b, w, p) → bufs s !! b = Some x →
    is_Some (sectors (dev s) !! sector_of x) ∧ is_Some (sectors (dev s) !! (sector_of x + 1));
  cl_status h : h ∈ served (dev s) ++ usq s → status s h = 0;
}.

Lemma clear_frame s s' :
  (∀ t b w p, calls s' !! t = Some (b, w, p) → ∃ p', calls s !! t = Some (b, w, p')) →
  (∀ b, sector_of <$> bufs s' !! b = sector_of <$> bufs s !! b) →
  (∀ k, is_Some (sectors (dev s) !! k) → is_Some (sectors (dev s') !! k)) →
  (∀ h, h ∈ served (dev s') ++ usq s' → status s' h = 0) → clear s → clear s'.
Proof.
  intros Hc Hb Hm Hst [Hr _]. split; [|done]. intros t b w p x (p' & Ht)%Hc Hx.
  pose proof (Hb b) as H. rewrite Hx in H. destruct (bufs s !! b) as [y|] eqn:Hy; [|done]. injection H as H.
  destruct (Hr t b w p' y Ht Hy). rewrite H. auto.
Qed.

(** How much there is to do: a call that has no descriptors yet goes through
    all the stages of a request. *)
Definition allocating (c : gmap nat (nat * bool * pc)) : nat := size (filter (λ x, x.2.2 = Alloc) c).
Definition work (s : vsys) : nat :=
  6 * allocating (calls s) + size (calls s) + 5 * length (avq s) + 4 * length (pending (dev s)) +
  3 * length (served (dev s)) + 2 * length (usq s).

Definition advances (s : vsys) : Prop :=
  ∃ l s', runs vstep s l s' ∧ Forall (λ e, ∃ t, e = ERet t) l ∧ clear s' ∧ (work s' < work s)%nat.

Lemma advance_tau s s' : vstep s None s' → clear s' → (work s' < work s)%nat → advances s.
Proof. intros. exists [], s'. split; [|done]. eapply runs_tau; [done|constructor]. Qed.

Lemma advance_take s : inv s → clear s → avq s ≠ [] → advances s.
Proof.
  intros [Hs Ho Hm Hr] Hcl Hne. destruct (sh_idx _ Hs) as (? & ? & _).
  assert (Hla : last_avail (dev s) ≠ a_idx (avail (dsk s))) by (intros E; apply Hne; by apply queue_nil).
  destruct (lookup_lt_is_Some_2 (a_ring (avail (dsk s))) (Z.to_nat (last_avail (dev s) mod Z.of_nat NUM))) as [head Hh].
  { rewrite (sh_avail _ Hs). unfold NUM. zlia. }
  pose proof (take_queue s head Hs Hla Hh) as Hq.
  eapply advance_tau; [by eapply vs_take| |].
  - eapply (clear_frame s); try done; eauto. apply Hcl.
  - unfold work. rewrite Hq. unfold avq, usq. vsimpl. rewrite length_app. vsimpl. lia.
Qed.

Lemma transfer_some s b w i0 x :
  is_Some (sectors (dev s) !! sector_of x) → is_Some (sectors (dev s) !! (sector_of x + 1)) → bufs s !! b = Some x →
  ∃ s', transfer (request_of b w x i0) s = Some s'.
Proof.
  intros [y Hy] [z Hz] Hx. unfold transfer. cbn [request_of r_buf r_type r_len r_sector]. rewrite Hx. cbn [mbind option_bind].
  change (Z.to_nat (Z.of_nat BSIZE / 512)) with 2%nat. destruct w.
  - rewrite bool_decide_false by done. cbn. rewrite Hy. cbn. rewrite lookup_insert_ne, Hz by lia. cbn. eauto.
  - rewrite bool_decide_true by done. cbn. rewrite Hy. cbn. rewrite Hz. cbn. eauto.
Qed.

Lemma transfer_sectors s b w i0 x s' k :
  shape s → bufs s !! b = Some x → transfer (request_of b w x i0) s = Some s' →
  is_Some (sectors (dev s) !! k) → is_Some (sectors (dev s') !! k).
Proof.
  intros Hs Hx Htr Hk. pose proof (transfer_run _ _ _ _ _ _ Hs Hx Htr) as H. destruct w.
  - destruct H as (_ & _ & ->). cbn. rewrite !lookup_insert_is_Some. destruct (decide (2 * Bio.disk_block (b_blockno x) + 1 = k)), (decide (2 * Bio.disk_block (b_blockno x) = k)); auto.
  - by destruct H as (y & _ & _ & ->).
Qed.

Lemma advance_serve s h l2 : inv s → clear s → pending (dev s) = h :: l2 → advances s.
Proof.
  intros Hi Hcl Hp. assert (Hin : h ∈ todo s) by (unfold todo; rewrite Hp; set_solver).
  destruct (taken_request s h Hi) as (t & b & w & i1 & i2 & x & Hc & Hx & _ & Hr); [unfold flight; set_solver|].
  destruct (cl_range _ Hcl _ _ _ _ _ Hc Hx) as [H1 H2].
  destruct (transfer_some s b w h x H1 H2 Hx) as [s' Htr].
  pose proof (transfer_data _ _ _ _ _ _ (v_shape _ Hi) Hx Htr) as Hd. destruct (sd_dev _ _ Hd) as (Ha & Hp' & Hv).
  eapply advance_tau; [by eapply (vs_serve s [] h l2)| |].
  - eapply (clear_frame s); try done.
    + cbn. rewrite (sd_threads _ _ Hd). eauto.
    + intros c. by apply (same_field sector_of s s').
    + intros k Hk. eapply (transfer_sectors s b w h x s'); try done. apply Hi.
    + intros g Hg. cbn [r_status request_of]. rewrite (served_status s) by done. case_decide; [done|].
      apply Hcl. revert Hg. unfold usq. cbn. rewrite Hv, (sd_dsk _ _ Hd). set_solver.
  - unfold work, avq, usq. vsimpl. rewrite Ha, Hv, Hp, (sd_dsk _ _ Hd), (sd_threads _ _ Hd), length_app. vsimpl. lia.
Qed.

Lemma advance_complete s h l2 : inv s → clear s → served (dev s) = h :: l2 → advances s.
Proof.
  intros Hi Hcl Hv. pose proof (complete_queue s [] h l2 0 Hi Hv) as Hq.
  eapply advance_tau; [by eapply (vs_complete s [] h l2 0)| |].
  - eapply (clear_frame s); try done; eauto. intros g Hg. apply Hcl. rewrite Hq in Hg. rewrite Hv. cbn in Hg. set_solver.
  - unfold work. rewrite Hq, Hv, length_app. change (avq (completed [] l2 h 0 s)) with (avq s).
    unfold completed. vsimpl. lia.
Qed.

Lemma runs_app s l s' l' s'' : runs vstep s l s' → runs vstep s' l' s'' → runs vstep s (l ++ l') s''.
Proof. induction 1; intros; cbn; [done|by eapply runs_tau; eauto|by eapply runs_event; eauto]. Qed.

Lemma advance_intr s : inv s → clear s → in_intr s = true → usq s ≠ [] → advances s.
Proof.
  intros Hi Hcl Hin Hne. destruct (intr_pending s) eqn:Hp; [|by apply pending_usq in Hp; [|apply Hi]].
  destruct (intr_body_run s Hi Hp) as (head & t & b & w & i1 & i2 & x & Hq & Hc & Hx & R).
  assert (Hz : status s head = 0) by (apply Hcl; rewrite Hq; set_solver). rewrite bool_decide_true in R by done.
  eapply advance_tau; [by eapply vs_intr_body| |].
  - eapply (clear_frame s); try done.
    + rewrite ack_calls. eauto.
    + intros c. cbn. destruct (decide (c = b)) as [->|]; [|by rewrite list_lookup_insert_ne].
      by rewrite list_lookup_insert_eq, Hx by (by eapply lookup_lt_Some).
    + intros g Hg. apply (cl_status _ Hcl g). rewrite Hq. vsimpl. revert Hg. vsimpl. set_solver.
  - unfold work. rewrite Hq, ack_calls. change (avq (acked b x s)) with (avq s). vsimpl. lia.
Qed.

(** Entering and leaving the handler. *)
Lemma advance_with_intr s v : inv s → clear s → vstep s None (with_intr v s) → advances (with_intr v s) → advances s.
Proof. intros Hi Hcl Hst (l & s' & Hr & ? & ? & ?). exists l, s'. split; [|done]. by eapply runs_tau. Qed.

Lemma clear_with_intr s v : clear s → clear (with_intr v s).
Proof. by intros []. Qed.
Lemma inv_with_intr s v : inv s → inv (with_intr v s).
Proof. by intros [[] [] [] ?]. Qed.

(** With nothing in flight, some call can run. *)
Lemma advance_return s t b w i0 i1 i2 :
  inv s → clear s → in_intr s = false → flight s = [] → calls s !! t = Some (b, w, Wait i0 i1 i2) → advances s.
Proof.
  intros Hi Hcl Hin Hfl Hc. apply calls_lookup in Hc as Ht. destruct Ht as [a Ht].
  assert (Hf : flag s b = false).
  { destruct (flag s b) eqn:Hf; [|done]. assert (H : i0 ∈ flight s) by (apply (mv_flight _ (v_moving _ Hi)); eauto 10).
    rewrite Hfl in H. by apply elem_of_nil in H. }
  destruct a; [pose proof (v_rested _ Hi _ _ _ _ Ht); cbn in *; congruence|].
  pose proof (waiter_run s t b w i0 i1 i2 false Hi Ht) as R. rewrite Hf in R.
  exists [ERet t], (with_threads (delete t) (finished i0 i1 i2 s)). split_and!.
  - eapply runs_event; [by eapply vs_return|constructor].
  - constructor; eauto.
  - eapply (clear_frame s); try done.
    + intros u c v p. rewrite (finish_calls s t i0 i1 i2). intros [_ Hu]%lookup_delete_Some. eauto.
    + intros h Hh. rewrite (finish_status s t). by apply Hcl.
  - unfold work. rewrite (finish_calls s t i0 i1 i2). change (avq _) with (avq s) at 1. change (usq _) with (usq s) at 1.
    vsimpl. rewrite (map_size_delete_Some) by eauto.
    assert (Hal : allocating (delete t (calls s)) = allocating (calls s)).
    { unfold allocating. rewrite map_filter_delete, delete_id; [done|]. apply map_lookup_filter_None. right.
      intros y Hy. rewrite Hc in Hy. by simplify_eq. }
    rewrite Hal. assert (size (calls s) ≠ 0%nat) by (apply map_size_non_empty_iff; intros E; by rewrite E in Hc). lia.
Qed.

Lemma advance_submit s t b w :
  inv s → clear s → in_intr s = false → flight s = [] →
  (∀ u c v i0 i1 i2, calls s !! u ≠ Some (c, v, Wait i0 i1 i2)) → calls s !! t = Some (b, w, Alloc) → advances s.
Proof.
  intros Hi Hcl Hin Hfl Hno Hc. apply calls_lookup in Hc as Ht. destruct Ht as [a Ht].
  assert (Hfew : few (free (dsk s)) → False).
  { intros Hfew. assert (Hall : ∀ i, (i < NUM)%nat → free (dsk s) !! i = Some true).
    { intros i Hlt. rewrite <-(sh_free _ (v_shape _ Hi)) in Hlt. destruct (lookup_lt_is_Some_2 _ _ Hlt) as [[] Hx]; [done|].
      apply (ow_free _ (v_owned _ Hi)) in Hx as (u & c & v & [|i0 i1 i2] & Hu & Hx); [by apply elem_of_nil in Hx|].
      by apply Hno in Hu. }
    apply (Hfew 0%nat 1%nat 2%nat); [by repeat constructor; set_solver|apply Hall; unfold NUM; lia..]. }
  destruct a; [by pose proof (v_rested _ Hi _ _ _ _ Ht)|].
  destruct (alloc_run s t b w false Hi Ht) as (x & Hx & [(i0 & i1 & i2 & F & HF & R)|(? & ? & _)]); [|done].
  destruct (submit_flight s t b w false i0 i1 i2 F x Hi Ht Hx HF) as [Htodo _].
  pose proof (submit_calls s t b w i0 i1 i2 F x) as Hcs.
  unfold flight in Hfl. apply app_nil in Hfl as [_ Hfl].
  eapply advance_tau; [by eapply vs_run| |]; set (s' := with_threads _ _) in *.
  - eapply (clear_frame s); try done.
    + intros u c v p. rewrite Hcs. intros [[<- [= <- <- <-]]|[_ Hu]]%lookup_insert_Some; eauto.
    + intros c. cbn. destruct (decide (c = b)) as [->|]; [|by rewrite list_lookup_insert_ne].
      by rewrite list_lookup_insert_eq, Hx by (by eapply lookup_lt_Some).
    + intros h Hh. change (h ∈ served (dev s) ++ usq s) in Hh. rewrite Hfl in Hh. by apply elem_of_nil in Hh.
  - assert (Hq : length (avq s') = S (length (avq s))).
    { apply Permutation_length in Htodo. unfold todo in Htodo. cbn [length] in Htodo. rewrite !length_app in Htodo.
      change (pending (dev s')) with (pending (dev s)) in Htodo. lia. }
    assert (Hal : allocating (calls s) = S (allocating (calls s'))).
    { rewrite Hcs. unfold allocating. rewrite map_filter_insert_False by done. rewrite map_filter_delete.
      rewrite map_size_delete_Some by (eexists; by apply map_lookup_filter_Some).
      assert (size (filter (λ x, x.2.2 = Alloc) (calls s)) ≠ 0%nat); [|lia].
      apply map_size_non_empty_iff. intros E. apply (map_empty_filter_1 _ _ E t _ Hc). done. }
    unfold work. rewrite Hq, Hal, Hcs, map_size_insert_Some by eauto.
    change (usq s') with (usq s). change (pending (dev s')) with (pending (dev s)).
    change (served (dev s')) with (served (dev s)). lia.
Qed.

Lemma advance s : inv s → clear s → threads s ≠ ∅ → advances s.
Proof.
  intros Hi Hcl Hne.
  destruct (decide (avq s = [])) as [Ha|]; [|by apply advance_take].
  destruct (pending (dev s)) as [|h l] eqn:Hp; [|by eapply advance_serve].
  destruct (served (dev s)) as [|h l] eqn:Hv; [|by eapply advance_complete].
  destruct (decide (usq s = [])) as [Hu|Hu].
  - assert (Hidle : ∀ s, inv s → clear s → threads s ≠ ∅ → flight s = [] → in_intr s = false → advances s).
    { clear. intros s Hi Hcl Hne Hfl Hin. apply map_choose in Hne as (t & [b w p a] & Ht).
      destruct (decide (map_Exists (λ _ c, c.2 ≠ Alloc) (calls s))) as [(u & [[c v] q] & Hu & Hq)|Hno].
      - destruct q; [done|]. by eapply advance_return.
      - apply (advance_submit s t b w); try done.
        + intros u c v i0 i1 i2 Hu. apply Hno. by exists u, (c, v, Wait i0 i1 i2).
        + destruct p as [|i0 i1 i2]; [apply calls_lookup; eauto|]. destruct Hno. exists t, (b, w, Wait i0 i1 i2).
          split; [|done]. apply calls_lookup. eauto. }
    assert (Hfl : flight s = []) by (unfold flight, todo; by rewrite Ha, Hp, Hv, Hu).
    destruct (in_intr s) eqn:Hin; [|by apply Hidle].
    apply (advance_with_intr s false); [done..|apply vs_intr_end; [done|by apply pending_usq; [apply Hi|]]|].
    apply Hidle; [by apply inv_with_intr|by apply clear_with_intr|done..].
  - destruct (in_intr s) eqn:Hin; [by apply advance_intr|].
    apply (advance_with_intr s true); [done..|by apply vs_intr|].
    apply advance_intr; [by apply inv_with_intr|by apply clear_with_intr|done..].
Qed.

Lemma drain n : ∀ s, (work s < n)%nat → inv s → clear s →
  ∃ l s', runs vstep s l s' ∧ Forall (λ e, ∃ t, e = ERet t) l ∧ threads s' = ∅.
Proof.
  induction n as [|n IH]; intros s Hn Hi Hcl; [lia|]. destruct (decide (threads s = ∅)) as [He|Hne].
  - exists [], s. split; [constructor|done].
  - destruct (advance s Hi Hcl Hne) as (l & s1 & Hr & Hl & Hcl1 & Hw).
    destruct (IH s1) as (l' & s' & Hr' & Hl' & He); [lia|by eapply runs_inv|done|].
    exists (l ++ l'), s'. split; [by eapply runs_app|]. split; [by apply Forall_app|done].
Qed.

(** C16: no wakeup is lost.  From every state that a run reaches, if the blocks
    asked for are on the disk and no error has been reported, all calls in
    progress can still return, without new calls: nobody sleeps with no one left
    to wake them, neither those who wait for their transfer nor those who wait
    for descriptors. *)
Theorem virtio_no_lost_wakeup mmio pd pa pu bt bs m l s :
  virtio_disk_init mmio pd pa pu (MkBoot [] zero_disk) = Ok tt bt → sound bs m →
  runs vstep (start (b_dsk bt) bs m) l s → clear s →
  ∃ l' s', runs vstep s l' s' ∧ Forall (λ e, ∃ t, e = ERet t) l' ∧ threads s' = ∅.
Proof.
  intros ->%init_disk Hso Hr Hcl. eapply (drain (S (work s))); [lia| |done].
  eapply runs_inv; [done|]. by apply start_inv.
Qed.

(** ** A concrete run *)

(** The steps that need no choice, as a function. *)
Inductive act := Call (t b : nat) (w : bool) | Run (t : nat) | Intr | Body | EndIntr | Take | Serve | Complete.

Definition act_step (x : act) (s : vsys) : option (option event * vsys) :=
  match x with
  | Call t b w =>
      if bool_decide (threads s !! t = None ∧ map_Forall (λ _ th, t_b th ≠ b) (threads s) ∧ (b < length (bufs s))%nat)
      then Some (Some (ECall t b w), with_threads (<[t := MkThread b w Alloc false]>) s) else None
  | Run t =>
      match threads s !! t with
      | Some (MkThread b w p false) =>
          if in_intr s then None else
          match virtio_disk_rw b w p s with
          | Ok (Some p') s' => Some (None, with_threads (<[t := MkThread b w p' true]>) s')
          | Ok None s' => Some (Some (ERet t), with_threads (delete t) s')
          | _ => None
          end
      | _ => None
      end
  | Intr => if in_intr s then None else Some (None, with_intr true s)
  | Body =>
      if (in_intr s && intr_pending s)%bool
      then match intr_body s with Ok _ s' => Some (None, s') | _ => None end else None
  | EndIntr => if (in_intr s && negb (intr_pending s))%bool then Some (None, with_intr false s) else None
  | Take =>
      if bool_decide (last_avail (dev s) = a_idx (avail (dsk s))) then None else
      head ← a_ring (avail (dsk s)) !! Z.to_nat (last_avail (dev s) mod Z.of_nat NUM);
      Some (None, with_dev (MkDev (u16 (last_avail (dev s) + 1)) (pending (dev s) ++ [head])
                              (served (dev s)) (sectors (dev s))) s)
  | Serve =>
      match pending (dev s) with
      | head :: l2 =>
          r ← chain_of (dsk s) head; s' ← transfer r s;
          Some (None, move_served [] l2 head (set_status (r_status r) 0 s'))
      | [] => None
      end
  | Complete =>
      match served (dev s) with head :: l2 => Some (None, completed [] l2 head 0 s) | [] => None end
  end.

Lemma act_step_sound x s e s' : act_step x s = Some (e, s') → vstep s e s'.
Proof.
  destruct x as [t b w|t| | | | | |]; cbn [act_step]; intros H.
  - case_bool_decide as Hc; [|done]. destruct Hc as (? & Hm & ?). simplify_eq. by constructor.
  - destruct (threads s !! t) as [[b w p []]|] eqn:Ht; try done. destruct (in_intr s) eqn:Hin; [done|].
    destruct (virtio_disk_rw b w p s) as [[p'|] s1| | | |] eqn:R; simplify_eq; [by eapply vs_run|by eapply vs_return].
  - destruct (in_intr s) eqn:Hin; simplify_eq. by constructor.
  - destruct (in_intr s && intr_pending s)%bool eqn:Hin; [|done]. apply andb_true_iff in Hin as [].
    destruct (intr_body s) as [[] s1| | | |] eqn:R; simplify_eq. by eapply vs_intr_body.
  - destruct (in_intr s && negb (intr_pending s))%bool eqn:Hin; simplify_eq.
    apply andb_true_iff in Hin as [? ?%negb_true_iff]. by constructor.
  - case_bool_decide; [done|]. apply bind_Some in H as (head & Hh & H). simplify_eq. by constructor.
  - destruct (pending (dev s)) as [|head l2] eqn:Hp; [done|]. apply bind_Some in H as (r & Hr & H).
    apply bind_Some in H as (s1 & Ht & H). simplify_eq. by eapply (vs_serve s []).
  - destruct (served (dev s)) as [|head l2] eqn:Hp; [done|]. simplify_eq. by apply (vs_complete s []).
Qed.

Fixpoint act_run (l : list act) (s : vsys) : option (list event * vsys) :=
  match l with
  | [] => Some ([], s)
  | x :: l =>
      '(e, s') ← act_step x s; '(es, s'') ← act_run l s';
      Some (match e with Some e => e :: es | None => es end, s'')
  end.
Lemma act_run_sound l : ∀ s es s', act_run l s = Some (es, s') → runs vstep s es s'.
Proof.
  induction l as [|x l IH]; intros s es s' H; cbn in H; [simplify_eq; constructor|].
  apply bind_Some in H as ([e s1] & H1 & H). apply bind_Some in H as ([es' s2] & H2 & H). simplify_eq.
  apply act_step_sound in H1. destruct e; [by eapply runs_event; [|apply IH]|by eapply runs_tau; [|apply IH]].
Qed.

(** A device that answers as QEMU's does. *)
Definition mmio0 (writes : list (Z * Z)) (r : Z) : Z :=
  if bool_decide (r = VIRTIO_MMIO_MAGIC_VALUE) then 0x74726976 else
  if bool_decide (r = VIRTIO_MMIO_VERSION) then 2 else
  if bool_decide (r = VIRTIO_MMIO_DEVICE_ID) then 2 else
  if bool_decide (r = VIRTIO_MMIO_VENDOR_ID) then 0x554d4551 else
  if bool_decide (r = VIRTIO_MMIO_STATUS) then 11 else
  if bool_decide (r = VIRTIO_MMIO_QUEUE_NUM_MAX) then 1024 else 0.
Definition boot0 : boot :=
  match virtio_disk_init mmio0 0x87000000 0x87001000 0x87002000 (MkBoot [] zero_disk) with
  | Ok _ b => b | _ => MkBoot [] zero_disk end.

(** Three buffers, for blocks 0, 1 and 1, on a disk of two blocks. *)
Definition buf0 (blockno v : Z) : buf := MkBuf false false 1 blockno Sleeplock.initsleeplock 1 (replicate BSIZE v).
Definition bufs0 : list buf := [buf0 0 0; buf0 1 1; buf0 1 2].
Definition sectors0 : gmap Z (list Z) := list_to_map ((λ k, (k, replicate 512 (7 + k))) <$> [0; 1; 2; 3]).
Definition bio0 : Bio.bio :=
  Bio.MkBio bufs0 ∅ ∅ (list_to_map ((λ k, (k, replicate 512 (7 + 2 * k) ++ replicate 512 (8 + 2 * k))) <$> [0; 1])) [] 0.

Lemma sound0 : sound bufs0 sectors0.
Proof.
  split; [repeat constructor|]. unfold sectors0. cbn [fmap list_fmap list_to_map foldr uncurry].
  repeat apply map_Forall_insert_2; try done.
Qed.
Lemma holds0 : holds sectors0 (Bio.disk bio0).
Proof.
  intros k. rewrite read_two. unfold sectors0, bio0. cbn [Bio.disk fmap list_fmap list_to_map foldr uncurry].
  destruct (decide (k = 0)) as [->|]; [done|]. destruct (decide (k = 1)) as [->|]; [done|].
  rewrite !lookup_insert_ne, !lookup_empty by (cbn [fst]; lia). done.
Qed.

(** One call, served and returned. *)
Definition run0 : list event * vsys :=
  default ([], start (b_dsk boot0) bufs0 sectors0)
    (act_run [Call 0 1 false; Run 0; Take; Serve; Complete; Intr; Body; EndIntr; Run 0] (start (b_dsk boot0) bufs0 sectors0)).

Lemma virtio_refines_witness :
  run0.1 = [ECall 0 1 false; ERet 0] ∧ ∃ a, runs spec_step (MkSpec bio0 ∅) run0.1 a ∧ sim run0.2 a.
Proof.
  split; [vm_compute; reflexivity|].
  apply (virtio_refines mmio0 0x87000000 0x87001000 0x87002000 boot0 bufs0 sectors0 bio0 run0.1 run0.2).
  - vm_compute. reflexivity.
  - exact sound0.
  - reflexivity.
  - exact holds0.
  - apply (act_run_sound [Call 0 1 false; Run 0; Take; Serve; Complete; Intr; Body; EndIntr; Run 0]).
    vm_compute. reflexivity.
Defined.

(** Three calls: the third sleeps, for want of descriptors. *)
Definition run1 : list event * vsys :=
  default ([], start (b_dsk boot0) bufs0 sectors0)
    (act_run [Call 0 0 false; Call 1 1 true; Call 2 2 false; Run 0; Run 1; Run 2; Take] (start (b_dsk boot0) bufs0 sectors0)).

Lemma virtio_no_panic_witness :
  usq run1.2 = [] ∧ ∃ s', virtio_disk_intr run1.2 = Ok tt s' ∧ intr_pending s' = false.
Proof.
  split; [vm_compute; reflexivity|].
  destruct (virtio_no_panic mmio0 0x87000000 0x87001000 0x87002000 boot0 bufs0 sectors0 run1.1 run1.2) as (_ & _ & [H|(_ & h & H & _)]).
  - vm_compute. reflexivity.
  - exact sound0.
  - apply (act_run_sound [Call 0 0 false; Call 1 1 true; Call 2 2 false; Run 0; Run 1; Run 2; Take]).
    vm_compute. reflexivity.
  - exact H.
  - assert (E : usq run1.2 = []) by (vm_compute; reflexivity). rewrite E in H. destruct (proj1 (elem_of_nil h) H).
Defined.

Lemma clear1 : clear run1.2.
Proof.
  split.
  - intros t b w p x _ Hx.
    assert (Hall : Forall (λ x, is_Some (sectors (dev run1.2) !! sector_of x) ∧ is_Some (sectors (dev run1.2) !! (sector_of x + 1))) (bufs run1.2)).
    { refine (bool_decide_eq_true_1 _ _). vm_compute. reflexivity. }
    exact (Forall_lookup_1 _ _ _ _ Hall Hx).
  - assert (E : served (dev run1.2) ++ usq run1.2 = []) by (vm_compute; reflexivity). rewrite E.
    intros h Hh. destruct (proj1 (elem_of_nil h) Hh).
Qed.

Lemma virtio_no_lost_wakeup_witness :
  t_asleep <$> threads run1.2 !! 2%nat = Some true ∧
  ∃ l' s', runs vstep run1.2 l' s' ∧ Forall (λ e, ∃ t, e = ERet t) l' ∧ threads s' = ∅.
Proof.
  split; [vm_compute; reflexivity|].
  apply (virtio_no_lost_wakeup mmio0 0x87000000 0x87001000 0x87002000 boot0 bufs0 sectors0 run1.1 run1.2).
  - vm_compute. reflexivity.
  - exact sound0.
  - apply (act_run_sound [Call 0 0 false; Call 1 1 true; Call 2 2 false; Run 0; Run 1; Run 2; Take]).
    vm_compute. reflexivity.
  - exact clear1.
Defined.

End VirtioRefine.
