(* ===== verification/Log.v ===== *)
(** The redo log: [kernel/log.c], over the buffer cache.

    The spin lock [log.lock] makes each of [begin_op], [log_write] and the
    bookkeeping of [end_op] atomic; [sleep(&log, ...)] is the blocked outcome.
    [wakeup] changes no state of the log. *)

From S2P Require Import Prelude BlockIO.

Local Open Scope Z_scope.

Module Log.

Definition MAXOPBLOCKS : Z := 10.
Definition LOGSIZE : Z := MAXOPBLOCKS * 3.

(** [struct log] with its [struct logheader], and the cache it works on. *)
Record log (D : Type) := MkLog {
  l_start : Z;
  l_size : Z;
  l_outstanding : Z;
  l_committing : bool;
  l_dev : Z;
  lh_n : Z;
  lh_block : list Z;
  l_io : D;
}.
Arguments MkLog {D}.
Arguments l_start {D}. Arguments l_size {D}. Arguments l_outstanding {D}.
Arguments l_committing {D}. Arguments l_dev {D}. Arguments lh_n {D}.
Arguments lh_block {D}. Arguments l_io {D}.

Section code.
Context {D : Type} {BIO : BlockIO D} {PIO : PinIO D}.
Implicit Types l : log D.

Definition set_io (x : D) l : log D :=
  MkLog (l_start l) (l_size l) (l_outstanding l) (l_committing l) (l_dev l) (lh_n l) (lh_block l) x.
Definition set_head (n : Z) (bs : list Z) l : log D :=
  MkLog (l_start l) (l_size l) (l_outstanding l) (l_committing l) (l_dev l) n bs (l_io l).
Definition set_ops (out : Z) (committing : bool) l : log D :=
  MkLog (l_start l) (l_size l) out committing (l_dev l) (lh_n l) (lh_block l) (l_io l).
Definition set_place (start size dev : Z) l : log D :=
  MkLog start size (l_outstanding l) (l_committing l) dev (lh_n l) (lh_block l) (l_io l).

Definition io {A} (m : M D A) : M (log D) A := zoom l_io set_io m.

(** [sizeof(struct logheader)]: [n] and [block[LOGSIZE]], four bytes each. *)
Definition logheader_size : Z := 4 * (1 + LOGSIZE).

(** ** The log area *)

(** One iteration of [install_trans]. *)
Definition install_one (l : log D) (recovering : bool) (tail : nat) : M D unit :=
  lbuf ← bread (l_dev l) (u32 (l_start l + Z.of_nat tail + 1));
  b ← of_option (lh_block l !! tail);
  dbuf ← bread (l_dev l) (u32 b);
  x ← buf_data lbuf; buf_store dbuf x;;
  bwrite dbuf;;
  when (negb recovering) (bunpin dbuf);;
  brelse lbuf;;
  brelse dbuf.
Fixpoint install_loop (l : log D) (recovering : bool) (tails : list nat) : M D unit :=
  match tails with
  | [] => mret tt
  | tail :: tails => install_one l recovering tail;; install_loop l recovering tails
  end.
Definition install_trans (recovering : bool) : M (log D) unit :=
  l ← get; io (install_loop l recovering (seq 0 (Z.to_nat (lh_n l)))).

(** Fields of a header block. *)
Definition hdr_n (x : list Z) : Z := s32 (rd 4 0 x).
Definition hdr_block (x : list Z) (i : nat) : Z := s32 (rd 4 (4 + 4 * i) x).

(** The loop of [read_head]; [bs] is [log.lh.block], whose bounds it must keep to. *)
Fixpoint read_head_loop (x : list Z) (ix : list nat) (bs : list Z) : option (list Z) :=
  match ix with
  | [] => Some bs
  | i :: ix =>
      if bool_decide (i < length bs)%nat
      then read_head_loop x ix (<[i := hdr_block x i]> bs) else None
  end.
Definition read_head : M (log D) unit :=
  l ← get;
  buf ← io (bread (l_dev l) (u32 (l_start l)));
  x ← io (buf_data buf);
  bs ← of_option (read_head_loop x (seq 0 (Z.to_nat (hdr_n x))) (lh_block l));
  modify (set_head (hdr_n x) bs);;
  io (brelse buf).

(** The loop of [write_head] on the data of the header buffer. *)
Fixpoint write_head_loop (bs : list Z) (ix : list nat) (x : list Z) : option (list Z) :=
  match ix with
  | [] => Some x
  | i :: ix => b ← bs !! i; write_head_loop bs ix (wr 4 (4 + 4 * i) b x)
  end.
Definition write_head : M (log D) unit :=
  l ← get;
  buf ← io (bread (l_dev l) (u32 (l_start l)));
  x ← io (buf_data buf);
  y ← of_option (write_head_loop (lh_block l) (seq 0 (Z.to_nat (lh_n l))) (wr 4 0 (lh_n l) x));
  io (buf_store buf y);;
  io (bwrite buf);;
  io (brelse buf).

Definition clear_head : M (log D) unit := modify (λ l, set_head 0 (lh_block l) l).

Definition recover_from_log : M (log D) unit :=
  read_head;;
  install_trans true;;
  clear_head;;
  write_head.

(** [logstart] and [nlog] are the fields of the superblock. *)
Definition initlog (dev logstart nlog : Z) : M (log D) unit :=
  if bool_decide (logheader_size >= Z.of_nat BSIZE) then panic "initlog: too big logheader" else
  modify (set_place (s32 logstart) (s32 nlog) dev);;
  recover_from_log.

(** One iteration of [write_log]. *)
Definition write_log_one (l : log D) (tail : nat) : M D unit :=
  to ← bread (l_dev l) (u32 (l_start l + Z.of_nat tail + 1));
  b ← of_option (lh_block l !! tail);
  from ← bread (l_dev l) (u32 b);
  x ← buf_data from; buf_store to x;;
  bwrite to;;
  brelse from;;
  brelse to.
Fixpoint write_log_loop (l : log D) (tails : list nat) : M D unit :=
  match tails with
  | [] => mret tt
  | tail :: tails => write_log_one l tail;; write_log_loop l tails
  end.
Definition write_log : M (log D) unit :=
  l ← get; io (write_log_loop l (seq 0 (Z.to_nat (lh_n l)))).

Definition commit : M (log D) unit :=
  n ← gets lh_n;
  when (bool_decide (n > 0))
    (write_log;;
     write_head;;
     install_trans false;;
     clear_head;;
     write_head).

(** ** Operations *)

Definition begin_op : M (log D) unit :=
  l ← get;
  if l_committing l then block else
  if bool_decide (lh_n l + (l_outstanding l + 1) * MAXOPBLOCKS > LOGSIZE) then block else
  put (set_ops (l_outstanding l + 1) (l_committing l) l).

Definition end_op : M (log D) unit :=
  modify (λ l, set_ops (l_outstanding l - 1) (l_committing l) l);;
  l ← get;
  if l_committing l then panic "log.committing" else
  if bool_decide (l_outstanding l = 0) then
    put (set_ops (l_outstanding l) true l);;
    commit;;
    modify (λ l, set_ops (l_outstanding l) false l)
  else mret tt.

(** The search of [log_write]: from [i], to an entry equal to [blockno] or to
    [n = i + k]. *)
Fixpoint log_find (bs : list Z) (blockno : Z) (i k : nat) : option nat :=
  match k with
  | O => Some i
  | S k => b ← bs !! i; if bool_decide (u32 b = blockno) then Some i else log_find bs blockno (S i) k
  end.

Definition log_write (b : nat) : M (log D) unit :=
  l ← get;
  if (bool_decide (lh_n l >= LOGSIZE) || bool_decide (lh_n l >= l_size l - 1))%bool
  then panic "too big a transaction" else
  if bool_decide (l_outstanding l < 1) then panic "log_write outside of trans" else
  blockno ← io (buf_blockno b);
  i ← of_option (log_find (lh_block l) blockno 0 (Z.to_nat (lh_n l)));
  (if bool_decide (i < length (lh_block l))%nat
   then modify (λ l, set_head (lh_n l) (<[i := s32 blockno]> (lh_block l)) l) else undef);;
  when (bool_decide (Z.of_nat i = lh_n l))
    (io (bpin b);;
     modify (λ l, set_head (lh_n l + 1) (lh_block l) l)).
End code.

End Log.
