(* ===== verification/LogSpec.v ===== *)
(** What the log promises: groups of file-system operations reach the disk
    atomically, whatever write a crash follows. *)

From S2P Require Import Prelude BlockIO Log.
Import Log.

Local Open Scope Z_scope.

Module LogSpec.

(** * The disk after a crash *)

(** The disk [d] after the writes [t]. *)
Definition apply_writes (t : write_trace) (d : disk_map) : disk_map :=
  foldl (λ d '(b, x), <[b := x]> d) d t.

Lemma apply_writes_cons b x t d :
  apply_writes ((b, x) :: t) d = apply_writes t (<[b := x]> d).
Proof. done. Qed.
Lemma apply_writes_app t1 t2 d :
  apply_writes (t1 ++ t2) d = apply_writes t2 (apply_writes t1 d).
Proof. apply foldl_app. Qed.

Lemma apply_writes_other t d b : b ∉ t.*1 → apply_writes t d !! b = d !! b.
Proof.
  revert d. induction t as [|[c x] t IH]; intros d Hb; [done|].
  rewrite fmap_cons, not_elem_of_cons in Hb. rewrite apply_writes_cons, IH by tauto.
  apply lookup_insert_ne. naive_solver.
Qed.

Lemma apply_writes_is_Some t d b : is_Some (d !! b) → is_Some (apply_writes t d !! b).
Proof.
  revert d. induction t as [|[c x] t IH]; intros d Hb; [done|]. apply IH.
  rewrite lookup_insert. case_decide; eauto.
Qed.

(** Writes that agree with [m] do not show below [m]. *)
Lemma union_apply_writes (m : disk_map) t d :
  (∀ b x, (b, x) ∈ t → m !! b = Some x) → m ∪ apply_writes t d = m ∪ d.
Proof.
  intros Ht. apply map_eq. intros b. rewrite !lookup_union. destruct (m !! b) eqn:Hm.
  - by destruct (apply_writes t d !! b), (d !! b).
  - rewrite apply_writes_other; [done|]. intros ([c x] & -> & Hc)%list_elem_of_fmap.
    apply Ht in Hc. simpl in Hm. congruence.
Qed.

Lemma apply_writes_all (m : disk_map) t d :
  (∀ b x, (b, x) ∈ t → m !! b = Some x) → dom m ⊆ list_to_set t.*1 → apply_writes t d = m ∪ d.
Proof.
  intros Ht Hdom. apply map_eq. intros b. rewrite lookup_union.
  destruct (m !! b) as [x|] eqn:Hm.
  - assert (Hin : b ∈ t.*1).
    { apply (elem_of_list_to_set (C := gset Z)), Hdom. by apply elem_of_dom_2 in Hm. }
    assert (Hx : apply_writes t d !! b = Some x).
    { clear Hdom. revert d Hin Ht. induction t as [|[c y] t IH]; intros d Hin Ht; [by apply elem_of_nil in Hin|].
      destruct (decide (b ∈ t.*1)) as [Hb|Hb].
      - rewrite apply_writes_cons. apply IH; [done|]. intros. apply Ht. by right.
      - rewrite apply_writes_cons, apply_writes_other by done. apply elem_of_cons in Hin as [->|]; [|done].
        cbn. rewrite lookup_insert_eq. rewrite <-Hm. symmetry. apply Ht. by left. }
    rewrite Hx. by destruct (d !! b).
  - rewrite apply_writes_other; [by destruct (d !! b)|]. intros ([c x] & -> & Hc)%list_elem_of_fmap.
    apply Ht in Hc. simpl in Hm. congruence.
Qed.

(** ** Where the log is *)

Record place := MkPlace { g_dev : Z; g_start : Z; g_size : Z }.
Definition place_ok (g : place) : Prop :=
  0 ≤ g_start g ∧ LOGSIZE < g_size g ∧ g_start g + g_size g < 2 ^ 31.
Definition in_log (g : place) (b : Z) : bool :=
  (g_start g <=? b) && (b <? g_start g + g_size g).
(** The blocks outside the log area are the same. *)
Definition same_home (g : place) (d1 d2 : disk_map) : Prop :=
  ∀ b, in_log g b = false → d1 !! b = d2 !! b.
(** The block that holds the copy of entry [i]. *)
Definition log_slot (g : place) (i : nat) : Z := g_start g + Z.of_nat i + 1.

(** A block that can be logged. *)
Definition home_block (g : place) (d : disk_map) (b : Z) : Prop :=
  blockno_ok b ∧ in_log g b = false ∧ is_Some (d !! b).

Lemma log_slot_in g i : place_ok g → (Z.of_nat i < LOGSIZE) → in_log g (log_slot g i) = true.
Proof. unfold place_ok, in_log, log_slot. lia. Qed.
Lemma log_start_in g : place_ok g → in_log g (g_start g) = true.
Proof. unfold place_ok, in_log, LOGSIZE, MAXOPBLOCKS. lia. Qed.
Lemma in_log_ok g b : place_ok g → in_log g b = true → blockno_ok b.
Proof. unfold place_ok, in_log, blockno_ok. lia. Qed.
Lemma in_log_ne g b c : in_log g b = true → in_log g c = false → b ≠ c.
Proof. intros Hb Hc ->. congruence. Qed.
Lemma same_home_refl g d : same_home g d d.
Proof. done. Qed.
Lemma same_home_trans g d1 d2 d3 : same_home g d1 d2 → same_home g d2 d3 → same_home g d1 d3.
Proof. intros H1 H2 b Hb. by rewrite H1, H2. Qed.
Lemma same_home_union g m d1 d2 : same_home g d1 d2 → same_home g (m ∪ d1) (m ∪ d2).
Proof. intros H b Hb. by rewrite !lookup_union, H. Qed.
Lemma same_home_writes g t d :
  (∀ b x, (b, x) ∈ t → in_log g b = true) → same_home g (apply_writes t d) d.
Proof.
  intros Ht b Hb. apply apply_writes_other. intros ([c x] & -> & Hc)%list_elem_of_fmap.
  apply Ht in Hc. simpl in Hb. congruence.
Qed.

(** ** What recovery makes of a disk *)

Definition hdr_blocks (x : list Z) : list Z := hdr_block x <$> seq 0 (Z.to_nat (hdr_n x)).

(** The log on [d] holds the committed contents [ys] of the blocks [bs]. *)
Definition logged (g : place) (d : disk_map) (bs : list Z) (ys : list (list Z)) : Prop :=
  (∀ b, in_log g b = true → is_Some (d !! b)) ∧
  (∃ x, d !! g_start g = Some x ∧ 0 ≤ hdr_n x ≤ LOGSIZE ∧ hdr_blocks x = bs) ∧
  length ys = length bs ∧ NoDup bs ∧ Forall (home_block g d) bs ∧
  (∀ k y, ys !! k = Some y → d !! log_slot g k = Some y).
(** The disk with what its log holds installed is [C]. *)
Definition recoverable (g : place) (d C : disk_map) : Prop :=
  ∃ bs ys, logged g d bs ys ∧ same_home g (list_to_map (zip bs ys) ∪ d) C.

Lemma recoverable_same g d C C' : recoverable g d C → same_home g C C' → recoverable g d C'.
Proof. intros (bs & ys & Hl & Hs) HC. exists bs, ys. split; [done|]. by eapply same_home_trans. Qed.

Lemma hdr_blocks_0 x : hdr_n x = 0 → hdr_blocks x = [].
Proof. unfold hdr_blocks. by intros ->. Qed.

Lemma hdr_n_nil x : 0 ≤ hdr_n x → hdr_blocks x = [] → hdr_n x = 0.
Proof.
  intros Hn Hx%(f_equal length). unfold hdr_blocks in Hx. rewrite length_fmap, length_seq in Hx.
  cbn in Hx. lia.
Qed.

Lemma logged_length g d bs ys : logged g d bs ys → Z.of_nat (length bs) ≤ LOGSIZE.
Proof.
  intros (_ & (x & _ & Hn & <-) & _). unfold hdr_blocks. rewrite length_fmap, length_seq. lia.
Qed.

(** An empty log: the disk is what recovery would give. *)
Lemma clean_recoverable g d C : logged g d [] [] → same_home g d C → recoverable g d C.
Proof. intros Hl Hs. exists [], []. split; [done|]. cbn. by rewrite map_empty_union. Qed.

Lemma logged_nil g d x :
  (∀ b, in_log g b = true → is_Some (d !! b)) → d !! g_start g = Some x → hdr_n x = 0 →
  logged g d [] [].
Proof.
  intros Hl Hx Hn. split; [done|]. split.
  { exists x. rewrite Hn, hdr_blocks_0 by done. unfold LOGSIZE, MAXOPBLOCKS. split_and!; (done || lia). }
  split_and!; [done|constructor|constructor|done].
Qed.

(** Writing home blocks leaves the log alone. *)
Lemma logged_writes g d bs ys t :
  place_ok g → logged g d bs ys → (∀ b x, (b, x) ∈ t → in_log g b = false) →
  logged g (apply_writes t d) bs ys.
Proof.
  intros Hg Hlog Ht. pose proof (logged_length _ _ _ _ Hlog) as Hlen.
  destruct Hlog as (Hl & (x & Hx & Hn & Hbs) & Hys & Hnd & Hh & Hsl).
  assert (Heq : ∀ b, in_log g b = true → apply_writes t d !! b = d !! b).
  { intros b Hb. apply apply_writes_other. intros ([c z] & -> & Hc)%list_elem_of_fmap.
    apply Ht in Hc. simpl in Hb. congruence. }
  split. { intros b Hb. by rewrite Heq by done; apply Hl. }
  split. { exists x. by rewrite Heq by (by apply log_start_in). }
  split; [done|]. split; [done|]. split.
  - eapply Forall_impl; [exact Hh|]. intros b (? & ? & ?). split; [done|]. split; [done|].
    by apply apply_writes_is_Some.
  - intros k y Hk. rewrite Heq; [by apply Hsl|]. apply log_slot_in; [done|].
    apply lookup_lt_Some in Hk. lia.
Qed.

Lemma elem_of_zip_map bs (ys : list (list Z)) b y :
  NoDup bs → length ys = length bs → (b, y) ∈ zip bs ys →
  (list_to_map (zip bs ys) : disk_map) !! b = Some y.
Proof. intros. apply elem_of_list_to_map; [|done]. by rewrite fst_zip by lia. Qed.

(** Installing any part of a logged transaction does not change what recovery gives. *)
Lemma recoverable_install g d C bs ys t :
  place_ok g → logged g d bs ys → same_home g (list_to_map (zip bs ys) ∪ d) C →
  (∀ p, p ∈ t → p ∈ zip bs ys) → recoverable g (apply_writes t d) C.
Proof.
  intros Hg Hlog Hs Ht. pose proof Hlog as (_ & _ & Hys & Hnd & Hh & _). exists bs, ys. split.
  - apply logged_writes; [done..|]. intros b x Hb%Ht%elem_of_zip_l.
    rewrite Forall_forall in Hh. by apply Hh in Hb as (_ & ? & _).
  - rewrite union_apply_writes; [done|]. intros b x Hb%Ht. by apply elem_of_zip_map.
Qed.

Lemma prefix_app_inv {A} (t a b : list A) :
  t `prefix_of` a ++ b → t `prefix_of` a ∨ ∃ t', t = a ++ t' ∧ t' `prefix_of` b.
Proof.
  intros Ht. destruct (prefix_weak_total t a (a ++ b)) as [?|[t' ->]]; [done|by eexists|by left|].
  right. exists t'. split; [done|]. by apply prefix_app_inv in Ht.
Qed.
Lemma prefix_elem_of {A} (t l : list A) p : t `prefix_of` l → p ∈ t → p ∈ l.
Proof. intros [k ->] Hp. apply elem_of_app. by left. Qed.

(** Installing a logged transaction and then clearing the header: the disk
    ends as [C], and at every point before is one write away from it. *)
Lemma finish_log g d C bs ys y :
  place_ok g → logged g d bs ys → same_home g (list_to_map (zip bs ys) ∪ d) C → hdr_n y = 0 →
  let t := zip bs ys ++ [(g_start g, y)] in
  logged g (apply_writes t d) [] [] ∧ same_home g (apply_writes t d) C ∧
  ∀ t1, t1 `prefix_of` t → recoverable g (apply_writes t1 d) C.
Proof.
  intros Hg Hlog Hs Hy t. pose proof Hlog as (Hl & _ & Hys & Hnd & Hh & _).
  assert (Hinst : apply_writes (zip bs ys) d = list_to_map (zip bs ys) ∪ d).
  { apply apply_writes_all; [intros; by apply elem_of_zip_map|].
    rewrite dom_list_to_map_L. done. }
  assert (Ht : apply_writes t d = <[g_start g := y]> (apply_writes (zip bs ys) d)).
  { unfold t. by rewrite apply_writes_app. }
  assert (Hlt : logged g (apply_writes t d) [] []).
  { apply (logged_nil g _ y); [|by rewrite Ht, lookup_insert_eq|done].
    intros b Hb. apply apply_writes_is_Some. auto. }
  assert (Hst : same_home g (apply_writes t d) C).
  { intros b Hb. rewrite Ht, lookup_insert_ne, Hinst; [by apply Hs|].
    eapply in_log_ne; [by apply log_start_in|done]. }
  split; [done|]. split; [done|]. intros t1 [Hp|(t' & -> & Hp)]%prefix_app_inv.
  - apply (recoverable_install g d C bs ys); [done..|]. intros p. by apply prefix_elem_of.
  - destruct t' as [|p t'].
    + rewrite app_nil_r. by apply (recoverable_install g d C bs ys).
    + pose proof (prefix_cons_inv_1 _ _ _ _ Hp) as ->.
      apply prefix_cons_inv_2, prefix_nil_inv in Hp as ->. by apply clean_recoverable.
Qed.

(** ** Header blocks *)

Lemma s32_blockno b : blockno_ok b → s32 (b mod 2 ^ 32) = b.
Proof. unfold blockno_ok. intros. wrap_lia. Qed.
Lemma s32_blockno' b : blockno_ok b → s32 b = b.
Proof. unfold blockno_ok. intros. wrap_lia. Qed.
Lemma u32_blockno b : blockno_ok b → u32 b = b.
Proof. unfold blockno_ok. intros. wrap_lia. Qed.

Lemma write_head_loop_spec bs k : ∀ i x,
  is_block x → (i + k ≤ length bs)%nat → (4 + 4 * (i + k) ≤ BSIZE)%nat →
  ∃ y, write_head_loop bs (seq i k) x = Some y ∧ is_block y ∧
    (∀ j b, (i ≤ j < i + k)%nat → bs !! j = Some b → rd 4 (4 + 4 * j) y = b mod 2 ^ 32) ∧
    (∀ off n, (off + n ≤ 4 + 4 * i)%nat → rd n off y = rd n off x).
Proof.
  induction k as [|k IH]; intros i x Hx Hk Hb; cbn [seq write_head_loop].
  { exists x. split; [done|]. split; [done|]. split; [lia|done]. }
  destruct (lookup_lt_is_Some_2 bs i) as [b Hbi]; [lia|]. rewrite Hbi. cbn [mbind option_bind].
  destruct (IH (S i) (wr 4 (4 + 4 * i) b x)) as (y & Hy & Hyb & Hin & Hout);
    [apply is_block_wr; [done|lia]|lia|lia|].
  pose proof (is_block_length _ Hx) as Hlen. unfold BSIZE in *.
  exists y. split; [done|]. split; [done|]. split.
  - intros j c Hj Hc. destruct (decide (j = i)) as [->|Hji]; [|apply Hin; [lia|done]].
    rewrite Hout, rd_wr_eq by lia. simplify_eq. done.
  - intros off n Hoff. rewrite Hout, rd_wr_ne by lia. done.
Qed.

Lemma write_head_block n bs x :
  is_block x → (n ≤ length bs)%nat → Z.of_nat n ≤ LOGSIZE → Forall blockno_ok (take n bs) →
  ∃ y, write_head_loop bs (seq 0 n) (wr 4 0 (Z.of_nat n) x) = Some y ∧ is_block y ∧
    hdr_n y = Z.of_nat n ∧ hdr_blocks y = take n bs.
Proof.
  intros Hx Hn HL Hok. unfold LOGSIZE, MAXOPBLOCKS in HL. pose proof (is_block_length _ Hx) as Hlen.
  destruct (write_head_loop_spec bs n 0 (wr 4 0 (Z.of_nat n) x)) as (y & Hy & Hyb & Hin & Hout);
    [apply is_block_wr; [done|unfold BSIZE; lia]|lia|unfold BSIZE; lia|].
  assert (Hhn : hdr_n y = Z.of_nat n).
  { unfold hdr_n. rewrite Hout by lia. rewrite rd_wr_eq by (unfold BSIZE in *; lia).
    apply s32_blockno. unfold blockno_ok. lia. }
  exists y. split; [done|]. split; [done|]. split; [done|].
  unfold hdr_blocks. rewrite Hhn, Nat2Z.id. apply list_eq. intros j.
  rewrite list_lookup_fmap. destruct (decide (j < n)%nat) as [Hj|Hj].
  - rewrite lookup_seq_lt by done. rewrite lookup_take_lt by done.
    destruct (lookup_lt_is_Some_2 bs j) as [b Hb]; [lia|]. rewrite Hb. cbn. f_equal.
    unfold hdr_block. rewrite (Hin j b) by (done || lia). apply s32_blockno.
    rewrite Forall_forall in Hok. apply Hok, list_elem_of_lookup. exists j. by rewrite lookup_take_lt.
  - rewrite lookup_seq_ge, lookup_take_ge by lia. done.
Qed.

Lemma read_head_loop_spec x k : ∀ i bs,
  (i + k ≤ length bs)%nat →
  ∃ bs', read_head_loop x (seq i k) bs = Some bs' ∧ length bs' = length bs ∧
    (∀ j, (i ≤ j < i + k)%nat → bs' !! j = Some (hdr_block x j)) ∧
    (∀ j, (j < i)%nat → bs' !! j = bs !! j).
Proof.
  induction k as [|k IH]; intros i bs Hk; cbn [seq read_head_loop].
  { exists bs. split_and!; [done|done|lia|done]. }
  rewrite bool_decide_true by lia.
  destruct (IH (S i) (<[i := hdr_block x i]> bs)) as (bs' & -> & Hl & Hin & Hout);
    [rewrite length_insert; lia|].
  rewrite length_insert in Hl. exists bs'. split_and!; [done|done| |].
  - intros j Hj. destruct (decide (j = i)) as [->|Hji]; [|apply Hin; lia].
    rewrite Hout, list_lookup_insert_eq by lia. done.
  - intros j Hj. rewrite Hout, list_lookup_insert_ne by lia. done.
Qed.

Lemma read_head_blocks x bs :
  0 ≤ hdr_n x ≤ Z.of_nat (length bs) →
  ∃ bs', read_head_loop x (seq 0 (Z.to_nat (hdr_n x))) bs = Some bs' ∧ length bs' = length bs ∧
    take (Z.to_nat (hdr_n x)) bs' = hdr_blocks x.
Proof.
  intros Hn. destruct (read_head_loop_spec x (Z.to_nat (hdr_n x)) 0 bs) as (bs' & Hr & Hl & Hin & _); [lia|].
  exists bs'. split_and!; [done|done|]. apply list_eq. intros j. unfold hdr_blocks.
  rewrite list_lookup_fmap. destruct (decide (j < Z.to_nat (hdr_n x))%nat).
  - rewrite lookup_take_lt, lookup_seq_lt by done. apply Hin. lia.
  - rewrite lookup_take_ge, lookup_seq_ge by lia. done.
Qed.

(** * Triples for the routines on the log area *)

Section triples.
Context {D : Type} {BIO : BlockIO D} {PIO : PinIO D} {LAWS : PinIOLaws D}.

Lemma wp_pread dev s d P H tr b blk (Q : nat → D → Prop) :
  prep dev s d P H tr → blockno_ok b → is_Some (d !! b) → (P ∪ d) !! b = Some blk →
  not_held H b → is_Some (P !! b) ∨ (size H + size P < NBUF)%nat →
  (∀ h s', H !! h = None → prep dev s' d P (<[h := (b, blk)]> H) tr → Q h s') →
  wp (bread dev b) Q s.
Proof. intros. eapply wp_mono; [by eapply pbread_law|]. intros h s' []; auto. Qed.
Lemma wp_pdata dev s d P H tr h b x (Q : list Z → D → Prop) :
  prep dev s d P H tr → H !! h = Some (b, x) → Q x s → wp (buf_data h) Q s.
Proof. intros Hr Hh HQ. unfold wp. by rewrite (pbuf_data_law _ _ _ _ _ _ _ _ _ Hr Hh). Qed.
Lemma wp_pstore dev s d P H tr h b x y (Q : unit → D → Prop) :
  prep dev s d P H tr → H !! h = Some (b, x) → is_block y →
  (∀ s', prep dev s' d P (<[h := (b, y)]> H) tr → Q tt s') → wp (buf_store h y) Q s.
Proof. intros. eapply wp_mono; [by eapply pbuf_store_law|]. intros [] s'; auto. Qed.
Lemma wp_pwrite dev s d P H tr h b x (Q : unit → D → Prop) :
  prep dev s d P H tr → H !! h = Some (b, x) →
  (∀ s', prep dev s' (<[b := x]> d) P H (tr ++ [(b, x)]) → Q tt s') → wp (bwrite h) Q s.
Proof. intros. eapply wp_mono; [by eapply pbwrite_law|]. intros [] s'; auto. Qed.
Lemma wp_unpin dev s d P H tr h b x (Q : unit → D → Prop) :
  prep dev s d P H tr → H !! h = Some (b, x) → is_Some (P !! b) →
  (∀ s', prep dev s' d (delete b P) H tr → Q tt s') → wp (bunpin h) Q s.
Proof. intros. eapply wp_mono; [by eapply bunpin_law|]. intros [] s'; auto. Qed.
(** Releasing a block that is not pinned, and one that is. *)
Lemma wp_prelse dev s d P H tr h b x (Q : unit → D → Prop) :
  prep dev s d P H tr → H !! h = Some (b, x) → P !! b = None → d !! b = Some x →
  (∀ s', prep dev s' d P (delete h H) tr → Q tt s') → wp (brelse h) Q s.
Proof.
  intros Hr Hh HP Hd HQ. eapply wp_mono; [eapply pbrelse_law; [done..|by right]|].
  intros [] s' Hs'. apply HQ. replace P with (alter (λ _, x) b P); [done|].
  apply map_eq. intros c. rewrite lookup_alter. case_decide as Hc; [|done]. rewrite <-Hc, HP. done.
Qed.
Lemma wp_prelse_pinned dev s d P H tr h b x (Q : unit → D → Prop) :
  prep dev s d P H tr → H !! h = Some (b, x) → is_Some (P !! b) →
  (∀ s', prep dev s' d (<[b := x]> P) (delete h H) tr → Q tt s') → wp (brelse h) Q s.
Proof.
  intros Hr Hh [y HP] HQ. eapply wp_mono; [eapply pbrelse_law; [done..|by left; eauto]|].
  intros [] s' Hs'. apply HQ. replace (<[b := x]> P) with (alter (λ _, x) b P); [done|].
  apply map_eq. intros c. rewrite lookup_alter, lookup_insert. case_decide; [|done]. by rewrite HP.
Qed.

Definition at_place (g : place) (l : log D) : Prop :=
  l_dev l = g_dev g ∧ l_start l = g_start g.

Lemma slot_u32 g l i :
  at_place g l → place_ok g → Z.of_nat i < LOGSIZE →
  u32 (l_start l + Z.of_nat i + 1) = log_slot g i.
Proof.
  intros [_ ->] Hg Hi. apply u32_blockno. eapply in_log_ok; [done|]. by apply log_slot_in.
Qed.

(** The entries [i, i+1, ...] of the in-memory header are [bs], all loggable. *)
Definition entries (g : place) (l : log D) (d : disk_map) (i : nat) (bs : list Z) : Prop :=
  at_place g l ∧ (Z.of_nat (i + length bs) ≤ LOGSIZE) ∧ NoDup bs ∧
  (∀ k b, bs !! k = Some b → lh_block l !! (i + k)%nat = Some b) ∧ Forall (home_block g d) bs.

Lemma entries_cons g l d d' i b bs :
  entries g l d i (b :: bs) → (∀ c, is_Some (d !! c) → is_Some (d' !! c)) →
  at_place g l ∧ Z.of_nat i < LOGSIZE ∧ lh_block l !! i = Some b ∧ home_block g d b ∧ b ∉ bs ∧
  entries g l d' (S i) bs.
Proof.
  intros (Hp & Hi & [Hb Hnd]%NoDup_cons & Hl & [Hh Hhs]%Forall_cons) Hd. cbn [length] in Hi.
  split; [done|]. split; [lia|]. split; [by rewrite <-(Nat.add_0_r i); apply Hl|].
  split; [done|]. split; [done|]. split; [done|]. split; [lia|]. split; [done|]. split.
  - intros k c Hc. rewrite Nat.add_succ_l, <-Nat.add_succ_r. by apply Hl.
  - eapply Forall_impl; [exact Hhs|]. intros c (? & ? & ?). split; auto.
Qed.

(** An operation that keeps the pins in the home area. *)
Definition pins_home (g : place) (P : disk_map) : Prop := ∀ b, is_Some (P !! b) → in_log g b = false.

Lemma pins_home_slot g (P : disk_map) b : pins_home g P → in_log g b = true → P !! b = None.
Proof. intros Hp Hb. destruct (P !! b) eqn:E; [|done]. rewrite Hp in Hb by eauto. done. Qed.

Definition unpin_one (recovering : bool) (P : disk_map) (b : Z) : disk_map :=
  if recovering then P else delete b P.

Lemma install_one_spec g l (recovering : bool) i b y (d P : disk_map) tr s :
  place_ok g → at_place g l → Z.of_nat i < LOGSIZE → lh_block l !! i = Some b → home_block g d b →
  d !! log_slot g i = Some y → (size P < NBUF)%nat → pins_home g P →
  (if recovering then P = ∅ else is_Some (P !! b)) → prep (g_dev g) s d P ∅ tr →
  wp (install_one l recovering i) (λ _ s',
    prep (g_dev g) s' (<[b := y]> d) (unpin_one recovering P b) ∅ (tr ++ [(b, y)])) s.
Proof.
  intros Hg Hat Hi Hlb (Hbok & Hbl & [z0 Hz0]) Hy Hsz Hpin HP Hr.
  pose proof (log_slot_in g i Hg Hi) as Hslot. pose proof (pins_home_slot _ _ _ Hpin Hslot) as Hps.
  assert (Hne : log_slot g i ≠ b) by (by eapply in_log_ne).
  unfold install_one. rewrite (slot_u32 g l i) by done. destruct Hat as [-> _].
  apply wp_bind. eapply wp_pread; [exact Hr|by eapply in_log_ok|eauto| |apply not_held_empty| |].
  { rewrite lookup_union_r by done. exact Hy. }
  { right. rewrite map_size_empty. lia. }
  intros lbuf s1 _ Hr1. rewrite Hlb. apply wp_bind, wp_ret.
  assert (∃ z, (P ∪ d) !! b = Some z) as [z Hz].
  { rewrite lookup_union, Hz0. destruct (P !! b); eauto. }
  apply wp_bind. rewrite u32_blockno by done. eapply wp_pread; [exact Hr1|done|eauto|exact Hz| | |].
  { apply not_held_insert; [apply not_held_empty|done]. }
  { destruct recovering; [right|by left].
    rewrite HP, map_size_empty, insert_empty, map_size_singleton. unfold NBUF. lia. }
  intros dbuf s2 Hdl Hr2. rewrite lookup_insert_None in Hdl. destruct Hdl as [_ Hdl].
  apply wp_bind. eapply wp_pdata; [exact Hr2|by rewrite lookup_insert_ne, lookup_insert_eq|].
  apply wp_bind. eapply wp_pstore; [exact Hr2|by rewrite lookup_insert_eq| |].
  { eapply prep_block; [exact Hr|]. by rewrite lookup_union_r. }
  intros s3 Hr3. rewrite insert_insert_eq in Hr3.
  apply wp_bind. eapply wp_pwrite; [exact Hr3|by rewrite lookup_insert_eq|]. intros s4 Hr4.
  apply wp_bind. eapply (wp_mono _ (λ _ s', prep (g_dev g) s' (<[b := y]> d)
    (unpin_one recovering P b) (<[dbuf := (b, y)]> (<[lbuf := (log_slot g i, y)]> ∅)) (tr ++ [(b, y)]))).
  { destruct recovering; [by apply wp_ret|].
    eapply wp_unpin; [exact Hr4|by rewrite lookup_insert_eq|done|done]. }
  intros [] s5 Hr5.
  assert (HPb : unpin_one recovering P b !! b = None).
  { unfold unpin_one. destruct recovering; [by rewrite HP|by rewrite lookup_delete_eq]. }
  apply wp_bind. eapply wp_prelse; [exact Hr5|by rewrite lookup_insert_ne, lookup_insert_eq| | |].
  { unfold unpin_one. destruct recovering; [by rewrite HP|by rewrite lookup_delete_ne]. }
  { by rewrite lookup_insert_ne. }
  intros s6 Hr6. rewrite delete_insert_ne, delete_insert_id in Hr6 by done.
  eapply wp_prelse; [exact Hr6|by rewrite lookup_insert_eq|done|by rewrite lookup_insert_eq|].
  intros s7 Hr7. by rewrite delete_insert_id in Hr7.
Qed.

Lemma unpin_one_Some r P b c : is_Some (unpin_one r P b !! c) → is_Some (P !! c).
Proof. unfold unpin_one. destruct r; [done|]. rewrite lookup_delete. case_decide; [by intros []|done]. Qed.

Lemma install_loop_spec g l (recovering : bool) : place_ok g → ∀ bs ys i (d P : disk_map) tr s,
  entries g l d i bs → length ys = length bs →
  (∀ k y, ys !! k = Some y → d !! log_slot g (i + k) = Some y) →
  (size P < NBUF)%nat → pins_home g P →
  (if recovering then P = ∅ else ∀ b, b ∈ bs → is_Some (P !! b)) →
  prep (g_dev g) s d P ∅ tr →
  wp (install_loop l recovering (seq i (length bs))) (λ _ s',
    prep (g_dev g) s' (apply_writes (zip bs ys) d) (foldl (unpin_one recovering) P bs) ∅
      (tr ++ zip bs ys)) s.
Proof.
  intros Hg. induction bs as [|b bs IH]; intros ys i d P tr s He Hlen Hys Hsz Hpin HP Hr.
  { cbn. apply wp_ret. by rewrite app_nil_r. }
  destruct ys as [|y ys]; [done|].
  destruct (entries_cons g l d (<[b := y]> d) i b bs He) as (Hat & Hi & Hlb & Hb & Hbn & He').
  { intros c Hc. rewrite lookup_insert. case_decide; eauto. }
  pose proof (Hys 0%nat y eq_refl) as Hy. rewrite Nat.add_0_r in Hy.
  cbn [length seq install_loop]. apply wp_bind. eapply wp_mono.
  { apply (install_one_spec g l recovering i b y d P tr s); try done.
    destruct recovering; [done|]. apply HP. by left. }
  cbv beta. intros [] s1 Hr1. eapply wp_mono.
  { apply (IH ys (S i)); [exact He'|by injection Hlen| | | | |exact Hr1].
    - intros k w Hw. destruct Hb as (_ & Hbl & _). rewrite lookup_insert_ne.
      + replace (S i + k)%nat with (i + S k)%nat by lia. by apply Hys.
      + apply not_eq_sym. eapply in_log_ne; [|exact Hbl]. apply log_slot_in; [done|].
        destruct He as (_ & He & _). apply lookup_lt_Some in Hw. cbn [length] in *. lia.
    - unfold unpin_one. destruct recovering; [done|]. rewrite map_size_delete. destruct (P !! b); cbn; lia.
    - intros c Hc%unpin_one_Some. by apply Hpin.
    - unfold unpin_one. destruct recovering; [done|]. intros c Hc.
      rewrite lookup_delete_ne; [|by intros ->]. apply HP. by right. }
  cbv beta. intros [] s2 Hr2. cbn [zip zip_with foldl]. by rewrite <-app_assoc in Hr2.
Qed.

(** The copies written to the log, from entry [i] on. *)
Fixpoint log_writes (g : place) (i : nat) (ys : list (list Z)) : write_trace :=
  match ys with
  | [] => []
  | y :: ys => (log_slot g i, y) :: log_writes g (S i) ys
  end.

Lemma write_log_one_spec g l i b y (d P : disk_map) tr s :
  place_ok g → at_place g l → Z.of_nat i < LOGSIZE → lh_block l !! i = Some b → home_block g d b →
  is_Some (d !! log_slot g i) → (size P < NBUF)%nat → pins_home g P → P !! b = Some y →
  prep (g_dev g) s d P ∅ tr →
  wp (write_log_one l i) (λ _ s',
    prep (g_dev g) s' (<[log_slot g i := y]> d) P ∅ (tr ++ [(log_slot g i, y)])) s.
Proof.
  intros Hg Hat Hi Hlb (Hbok & Hbl & Hbd) [w Hw] Hsz Hpin HPb Hr.
  pose proof (log_slot_in g i Hg Hi) as Hslot. pose proof (pins_home_slot _ _ _ Hpin Hslot) as Hps.
  assert (Hne : log_slot g i ≠ b) by (by eapply in_log_ne).
  unfold write_log_one. rewrite (slot_u32 g l i) by done. destruct Hat as [-> _].
  apply wp_bind. eapply wp_pread; [exact Hr|by eapply in_log_ok|eauto| |apply not_held_empty| |].
  { rewrite lookup_union_r by done. exact Hw. }
  { right. rewrite map_size_empty. lia. }
  intros to s1 _ Hr1. rewrite Hlb. apply wp_bind, wp_ret.
  apply wp_bind. rewrite u32_blockno by done.
  eapply wp_pread; [exact Hr1|done|done|by apply lookup_union_Some_l| |by left; eauto|].
  { apply not_held_insert; [apply not_held_empty|done]. }
  intros from s2 Hft Hr2. rewrite lookup_insert_None in Hft. destruct Hft as [_ Hft].
  apply wp_bind. eapply wp_pdata; [exact Hr2|by rewrite lookup_insert_eq|].
  apply wp_bind. eapply wp_pstore; [exact Hr2|by rewrite lookup_insert_ne, lookup_insert_eq| |].
  { eapply prep_block; [exact Hr|]. by apply lookup_union_Some_l. }
  intros s3 Hr3. rewrite insert_insert_ne, insert_insert_eq in Hr3 by done.
  apply wp_bind. eapply wp_pwrite; [exact Hr3|by rewrite lookup_insert_ne, lookup_insert_eq|].
  intros s4 Hr4. apply wp_bind.
  eapply wp_prelse_pinned; [exact Hr4|by rewrite lookup_insert_eq|eauto|]. intros s5 Hr5.
  rewrite (insert_id P b y), delete_insert_id in Hr5 by (done || by rewrite lookup_insert_ne).
  eapply wp_prelse; [exact Hr5|by rewrite lookup_insert_eq|done|by rewrite lookup_insert_eq|].
  intros s6 Hr6. by rewrite delete_insert_id in Hr6.
Qed.

Lemma write_log_loop_spec g l : place_ok g → ∀ bs ys i (d P : disk_map) tr s,
  entries g l d i bs → Forall2 (λ b y, P !! b = Some y) bs ys →
  (∀ b, in_log g b = true → is_Some (d !! b)) → (size P < NBUF)%nat → pins_home g P →
  prep (g_dev g) s d P ∅ tr →
  wp (write_log_loop l (seq i (length bs))) (λ _ s',
    prep (g_dev g) s' (apply_writes (log_writes g i ys) d) P ∅ (tr ++ log_writes g i ys)) s.
Proof.
  intros Hg bs ys i d P tr s He HP. revert i d tr s He.
  induction HP as [|b y bs ys Hb HP IH]; intros i d tr s He Hl Hsz Hpin Hr.
  { cbn. apply wp_ret. by rewrite app_nil_r. }
  assert (Hkeep : ∀ c, is_Some (d !! c) → is_Some (<[log_slot g i := y]> d !! c)).
  { intros c Hc. rewrite lookup_insert. case_decide; eauto. }
  destruct (entries_cons g l d (<[log_slot g i := y]> d) i b bs He) as (Hat & Hi & Hlb & Hbh & Hbn & He'); [done|].
  cbn [length seq write_log_loop]. apply wp_bind. eapply wp_mono.
  { apply (write_log_one_spec g l i b y d P tr s); try done. apply Hl. by apply log_slot_in. }
  cbv beta. intros [] s1 Hr1. eapply wp_mono.
  { apply (IH (S i)); [exact He'|auto|done|done|exact Hr1]. }
  cbv beta. intros [] s2 Hr2. cbn [log_writes]. by rewrite <-app_assoc in Hr2.
Qed.

(** [write_head] on header [x]: one write, of a block that encodes the
    in-memory header. *)
Lemma wp_io {A} (m : M D A) (Q : A → log D → Prop) l :
  wp m (λ a t, Q a (set_io t l)) (l_io l) → wp (io m) Q l.
Proof. apply wp_zoom. Qed.

Lemma write_head_spec g l n bs x d P tr :
  place_ok g → at_place g l → lh_n l = Z.of_nat n → take n (lh_block l) = bs → (n ≤ length (lh_block l))%nat →
  Z.of_nat n ≤ LOGSIZE → Forall blockno_ok bs →
  d !! g_start g = Some x → (size P < NBUF)%nat → pins_home g P →
  prep (g_dev g) (l_io l) d P ∅ tr →
  wp write_head (λ _ l', ∃ y s', l' = set_io s' l ∧ is_block y ∧ hdr_n y = Z.of_nat n ∧ hdr_blocks y = bs ∧
    prep (g_dev g) s' (<[g_start g := y]> d) P ∅ (tr ++ [(g_start g, y)])) l.
Proof.
  intros Hg [Hdev Hst] Hn Hbs Hlen HL Hok Hx Hsz Hpin Hr.
  pose proof (log_start_in g Hg) as Hin. pose proof (pins_home_slot _ _ _ Hpin Hin) as Hps.
  pose proof (in_log_ok g _ Hg Hin) as Hsok.
  assert (HPx : (P ∪ d) !! g_start g = Some x) by (by rewrite lookup_union_r).
  destruct (write_head_block n (lh_block l) x) as (y & Hy & Hyb & Hyn & Hybs);
    [by eapply prep_block|done|done|by rewrite Hbs|].
  unfold write_head. apply wp_bind, wp_get. rewrite Hst, Hdev, u32_blockno, Hn, Nat2Z.id by done.
  apply wp_bind, wp_io. eapply wp_pread; [exact Hr|done|eauto|done|apply not_held_empty| |].
  { right. by rewrite map_size_empty. }
  intros h s1 _ Hr1. apply wp_bind, wp_io. eapply wp_pdata; [exact Hr1|by rewrite lookup_insert_eq|].
  rewrite Hy. apply wp_bind, wp_ret. apply wp_bind, wp_io.
  eapply wp_pstore; [exact Hr1|by rewrite lookup_insert_eq|done|]. intros s2 Hr2.
  rewrite insert_insert_eq in Hr2. apply wp_bind, wp_io.
  eapply wp_pwrite; [exact Hr2|by rewrite lookup_insert_eq|]. intros s3 Hr3. apply wp_io.
  eapply wp_prelse; [exact Hr3|by rewrite lookup_insert_eq|done|by rewrite lookup_insert_eq|].
  intros s4 Hr4. rewrite delete_insert_id in Hr4 by done. exists y, s4. by rewrite Hybs.
Qed.

Lemma read_head_spec g l d P tr bs ys :
  place_ok g → at_place g l → logged g d bs ys → length (lh_block l) = Z.to_nat LOGSIZE →
  (size P < NBUF)%nat → pins_home g P → prep (g_dev g) (l_io l) d P ∅ tr →
  wp read_head (λ _ l', ∃ lb s', l' = set_io s' (set_head (Z.of_nat (length bs)) lb l) ∧
    length lb = Z.to_nat LOGSIZE ∧ take (length bs) lb = bs ∧ prep (g_dev g) s' d P ∅ tr) l.
Proof.
  intros Hg [Hdev Hst] (_ & (x & Hx & Hn & Hbs) & _) Hlen Hsz Hpin Hr.
  pose proof (log_start_in g Hg) as Hin. pose proof (pins_home_slot _ _ _ Hpin Hin) as Hps.
  pose proof (in_log_ok g _ Hg Hin) as Hsok.
  destruct (read_head_blocks x (lh_block l)) as (lb & Hlb & Hll & Htk).
  { rewrite Hlen. lia. }
  assert (Hnl : Z.of_nat (length bs) = hdr_n x).
  { rewrite <-Hbs. unfold hdr_blocks. rewrite length_fmap, length_seq. lia. }
  unfold read_head. apply wp_bind, wp_get. rewrite Hst, Hdev, u32_blockno by done.
  apply wp_bind, wp_io. eapply wp_pread; [exact Hr|done|eauto| |apply not_held_empty| |].
  { by rewrite lookup_union_r. }
  { right. by rewrite map_size_empty. }
  intros h s1 _ Hr1. apply wp_bind, wp_io. eapply wp_pdata; [exact Hr1|by rewrite lookup_insert_eq|].
  rewrite Hlb. apply wp_bind, wp_ret. apply wp_bind, wp_modify, wp_io.
  eapply wp_prelse; [exact Hr1|by rewrite lookup_insert_eq|done|done|].
  intros s2 Hr2. rewrite delete_insert_id in Hr2 by done. exists lb, s2. rewrite Hnl.
  split_and!; [done|by rewrite Hll| |done]. rewrite <-Hbs in *. by rewrite <-Hnl, Nat2Z.id in Htk.
Qed.

Lemma foldl_unpin_recover (P : disk_map) bs : foldl (unpin_one true) P bs = P.
Proof. induction bs; [done|]. apply IHbs. Qed.

Lemma pins_home_empty g : pins_home g ∅.
Proof. by intros b []. Qed.

(** Recovery gives [C], and is itself safe to interrupt. *)
Lemma recover_spec g l d C tr :
  place_ok g → at_place g l → length (lh_block l) = Z.to_nat LOGSIZE → recoverable g d C →
  prep (g_dev g) (l_io l) d ∅ ∅ tr →
  wp recover_from_log (λ _ l', ∃ lb s' d' t, l' = set_io s' (set_head 0 lb l) ∧
    length lb = Z.to_nat LOGSIZE ∧ prep (g_dev g) s' d' ∅ ∅ (tr ++ t) ∧
    d' = apply_writes t d ∧ logged g d' [] [] ∧ same_home g d' C ∧
    ∀ t1, t1 `prefix_of` t → recoverable g (apply_writes t1 d) C) l.
Proof.
  intros Hg Hat Hlen (bs & ys & Hlog & Hs) Hr.
  pose proof (logged_length _ _ _ _ Hlog) as HL. pose proof Hlog as (Hl & _ & Hys & Hnd & Hh & Hsl).
  assert (Hsz : (size (∅ : disk_map) < NBUF)%nat) by (rewrite map_size_empty; unfold NBUF; lia).
  unfold recover_from_log. apply wp_bind.
  eapply wp_mono; [by eapply (read_head_spec g l d ∅ tr bs ys); try apply pins_home_empty|].
  intros [] l1 (lb & s1 & -> & Hlb & Htk & Hr1). apply wp_bind. unfold install_trans.
  apply wp_bind, wp_get, wp_io. cbn [lh_n set_io set_head l_io]. rewrite Nat2Z.id. eapply wp_mono.
  { eapply (install_loop_spec g _ true Hg bs ys 0); [|done|done|exact Hsz|apply pins_home_empty|done|exact Hr1].
    split; [exact Hat|]. split; [done|]. split; [done|]. split; [|done]. intros k b Hk. cbn.
    rewrite <-Htk in Hk. apply lookup_take_Some in Hk. tauto. }
  intros [] s2 Hr2. rewrite foldl_unpin_recover in Hr2. apply wp_bind. unfold clear_head. apply wp_modify.
  assert (Hl2 : logged g (apply_writes (zip bs ys) d) bs ys).
  { apply logged_writes; [done..|]. intros b x Hb%elem_of_zip_l.
    rewrite Forall_forall in Hh. by apply Hh in Hb as (_ & ? & _). }
  pose proof Hl2 as (Hlp & (x & Hx & _) & _).
  eapply wp_mono; [eapply (write_head_spec g _ 0 [] x); [done|exact Hat|done|by rewrite take_0|lia|
    unfold LOGSIZE, MAXOPBLOCKS; lia|constructor|exact Hx|exact Hsz|apply pins_home_empty|exact Hr2]|].
  intros [] l3 (y & s3 & -> & _ & Hyn & _ & Hr3).
  exists lb, s3, (apply_writes (zip bs ys ++ [(g_start g, y)]) d), (zip bs ys ++ [(g_start g, y)]).
  destruct (finish_log g d C bs ys y) as (Hf1 & Hf2 & Hf3); [done..|].
  rewrite apply_writes_app in *. rewrite app_assoc. split_and!; (done || apply Hf1).
Qed.

(** ** Commit *)

Lemma log_writes_in g ys : place_ok g → ∀ i b x,
  Z.of_nat (i + length ys) ≤ LOGSIZE → (b, x) ∈ log_writes g i ys →
  in_log g b = true ∧ ∃ k, (i ≤ k)%nat ∧ b = log_slot g k.
Proof.
  intros Hg. induction ys as [|y ys IH]; intros i b x Hi; cbn [log_writes length] in *.
  { by intros ?%elem_of_nil. }
  intros [[= -> ->]|Hin]%elem_of_cons; [split; [apply log_slot_in; [done|lia]|by eexists]|].
  destruct (IH (S i) b x) as (? & k & ? & ?); [lia|done|]. split; [done|]. exists k. split; [lia|done].
Qed.

Lemma log_writes_lookup g ys : place_ok g → ∀ i d k y,
  Z.of_nat (i + length ys) ≤ LOGSIZE → ys !! k = Some y →
  apply_writes (log_writes g i ys) d !! log_slot g (i + k) = Some y.
Proof.
  intros Hg. induction ys as [|z ys IH]; intros i d k y Hi Hk; [done|]. cbn [log_writes length] in *.
  rewrite apply_writes_cons. destruct k as [|k].
  - injection Hk as ->. rewrite Nat.add_0_r, apply_writes_other; [apply lookup_insert_eq|].
    intros ([c w] & Heq & Hc)%list_elem_of_fmap. cbn in Heq. subst c.
    apply log_writes_in in Hc as (_ & j & Hj & Hs); [|done|lia]. unfold log_slot in Hs. lia.
  - replace (i + S k)%nat with (S i + k)%nat by lia. apply IH; [lia|done].
Qed.

Lemma foldl_unpin_all (P : disk_map) bs :
  (∀ b, is_Some (P !! b) → b ∈ bs) → foldl (unpin_one false) P bs = ∅.
Proof.
  revert P. induction bs as [|b bs IH]; intros P HP; cbn [foldl unpin_one].
  - apply map_eq. intros b. rewrite lookup_empty. destruct (P !! b) eqn:E; [|done].
    specialize (HP b). rewrite E in HP. exfalso. eapply not_elem_of_nil, HP. eauto.
  - apply IH. intros c. rewrite lookup_delete. case_decide as Hc; [by intros []|].
    intros [->|?]%HP%elem_of_cons; done.
Qed.

Lemma pins_zip (P : disk_map) bs ys :
  NoDup bs → (∀ b, b ∈ bs ↔ is_Some (P !! b)) → Forall2 (λ b y, P !! b = Some y) bs ys →
  list_to_map (zip bs ys) = P.
Proof.
  intros Hnd Hdom HP. pose proof (Forall2_length _ _ _ HP) as Hlen. apply map_eq. intros b.
  destruct (P !! b) as [y|] eqn:Hb.
  - assert (b ∈ bs) as (k & Hk)%list_elem_of_lookup by (apply Hdom; eauto).
    destruct (Forall2_lookup_l _ _ _ _ _ HP Hk) as (z & Hz & HPz). simplify_eq.
    apply elem_of_zip_map; [done..|]. apply list_elem_of_lookup. exists k.
    by rewrite lookup_zip_with, Hk, Hz.
  - apply not_elem_of_list_to_map. rewrite fst_zip by lia. rewrite Hdom, Hb. by intros [].
Qed.

(** The in-memory header lists the pinned blocks. *)
Definition header_pins (g : place) (l : log D) (d P : disk_map) (bs : list Z) : Prop :=
  entries g l d 0 bs ∧ lh_n l = Z.of_nat (length bs) ∧ take (length bs) (lh_block l) = bs ∧
  length (lh_block l) = Z.to_nat LOGSIZE ∧ (∀ b, b ∈ bs ↔ is_Some (P !! b)).

Lemma pins_values (P : disk_map) bs :
  (∀ b, b ∈ bs → is_Some (P !! b)) → ∃ ys, Forall2 (λ b y, P !! b = Some y) bs ys.
Proof.
  induction bs as [|b bs IH]; intros HP; [by exists []|].
  destruct IH as [ys Hys]; [intros; apply HP; by right|]. destruct (HP b) as [y Hy]; [by left|].
  exists (y :: ys). by constructor.
Qed.

(** After the copies and the header are on disk, the log holds the pins. *)
Lemma logged_commit g (d P : disk_map) bs ys x :
  place_ok g → logged g d [] [] → NoDup bs → Forall (home_block g d) bs →
  Z.of_nat (length bs) ≤ LOGSIZE → Forall2 (λ b y, P !! b = Some y) bs ys →
  hdr_n x = Z.of_nat (length bs) → hdr_blocks x = bs →
  logged g (<[g_start g := x]> (apply_writes (log_writes g 0 ys) d)) bs ys.
Proof.
  intros Hg (Hl & _) Hnd Hh HL HP Hxn Hxb. pose proof (Forall2_length _ _ _ HP) as Hlen.
  assert (Hk : ∀ b, is_Some (d !! b) → is_Some (<[g_start g := x]> (apply_writes (log_writes g 0 ys) d) !! b)).
  { intros b Hb. rewrite lookup_insert. case_decide; [eauto|]. by apply apply_writes_is_Some. }
  split; [auto|]. split; [exists x; rewrite lookup_insert_eq; split_and!; (done || lia)|].
  split; [done|]. split; [done|]. split.
  - eapply Forall_impl; [exact Hh|]. intros b (? & ? & ?). split; auto.
  - intros k y Hy. rewrite lookup_insert_ne by (unfold log_slot; lia).
    apply (log_writes_lookup g ys Hg 0); [lia|done].
Qed.

(** Before the header is written the log still counts as empty. *)
Lemma early_crash g d ys t1 :
  place_ok g → logged g d [] [] → Z.of_nat (length ys) ≤ LOGSIZE →
  t1 `prefix_of` log_writes g 0 ys → recoverable g (apply_writes t1 d) d.
Proof.
  intros Hg (Hl & (z & Hz & Hzn & Hzb) & _) Hlen Ht1.
  assert (Hin : ∀ b w, (b, w) ∈ t1 → in_log g b = true ∧ ∃ k, (0 ≤ k)%nat ∧ b = log_slot g k).
  { intros b w Hb. eapply (log_writes_in g ys Hg 0); [lia|]. by eapply prefix_elem_of. }
  apply clean_recoverable; [|apply same_home_writes; intros b w Hb; by apply (Hin b w)].
  apply (logged_nil g _ z); [intros b Hb; by apply apply_writes_is_Some, Hl| |apply hdr_n_nil; [lia|done]].
  rewrite apply_writes_other; [done|]. intros ([c w] & Heq & Hc)%list_elem_of_fmap.
  cbn in Heq. subst. destruct (Hin _ _ Hc) as (_ & k & _ & Hk). unfold log_slot in Hk. lia.
Qed.

(** Every crash point of the writes [t] recovers to [C] or to [C']. *)
Definition atomic_trace (g : place) (d C C' : disk_map) (t : write_trace) : Prop :=
  ∀ t1, t1 `prefix_of` t → recoverable g (apply_writes t1 d) C ∨ recoverable g (apply_writes t1 d) C'.

Lemma commit_trace g (d P : disk_map) bs ys x y :
  place_ok g → logged g d [] [] → NoDup bs → Forall (home_block g d) bs →
  Z.of_nat (length bs) ≤ LOGSIZE → (∀ b, b ∈ bs ↔ is_Some (P !! b)) →
  Forall2 (λ b y, P !! b = Some y) bs ys →
  hdr_n x = Z.of_nat (length bs) → hdr_blocks x = bs → hdr_n y = 0 →
  let t := (log_writes g 0 ys ++ [(g_start g, x)]) ++ zip bs ys ++ [(g_start g, y)] in
  logged g (apply_writes t d) [] [] ∧ same_home g (apply_writes t d) (P ∪ d) ∧
  atomic_trace g d d (P ∪ d) t.
Proof.
  intros Hg Hlog Hnd Hh HL Hdom HP Hxn Hxb Hyn t. pose proof (Forall2_length _ _ _ HP) as Hlen.
  set (d1 := apply_writes (log_writes g 0 ys) d).
  pose proof (logged_commit g d P bs ys x Hg Hlog Hnd Hh HL HP Hxn Hxb) as Hl2.
  fold d1 in Hl2. set (d2 := <[g_start g := x]> d1) in *.
  assert (Hs2 : same_home g (list_to_map (zip bs ys) ∪ d2) (P ∪ d)).
  { rewrite (pins_zip P) by done. apply same_home_union. intros b Hb. unfold d2.
    rewrite lookup_insert_ne by (eapply in_log_ne; [by apply log_start_in|done]).
    apply (same_home_writes g (log_writes g 0 ys) d); [|done]. intros c w Hc.
    eapply (log_writes_in g ys Hg 0); [lia|done]. }
  destruct (finish_log g d2 (P ∪ d) bs ys y Hg Hl2 Hs2 Hyn) as (Hf1 & Hf2 & Hf3).
  assert (Hd2 : ∀ t', apply_writes ((log_writes g 0 ys ++ [(g_start g, x)]) ++ t') d = apply_writes t' d2).
  { intros t'. by rewrite !apply_writes_app. }
  unfold t. rewrite Hd2. split; [done|]. split; [done|].
  intros t1 [[Ht1|(t' & -> & Ht')]%prefix_app_inv|(t' & -> & Ht')]%prefix_app_inv.
  - left. apply (early_crash g d ys); [done..|lia|done].
  - destruct t' as [|p t']; [left; rewrite app_nil_r; apply (early_crash g d ys); (done || lia)|right].
    pose proof (prefix_cons_inv_1 _ _ _ _ Ht') as ->.
    apply prefix_cons_inv_2, prefix_nil_inv in Ht' as ->.
    rewrite <-(app_nil_r (_ ++ _)), Hd2. apply Hf3, prefix_nil.
  - right. rewrite Hd2. by apply Hf3.
Qed.

Lemma commit_nothing g l (d P : disk_map) bs tr :
  logged g d [] [] → ¬ Z.of_nat (length bs) > 0 → lh_n l = Z.of_nat (length bs) →
  (∀ b, b ∈ bs ↔ is_Some (P !! b)) → prep (g_dev g) (l_io l) d P ∅ tr →
  ∃ s' d' t, l = set_io s' (set_head 0 (lh_block l) l) ∧
    prep (g_dev g) s' d' ∅ ∅ (tr ++ t) ∧ d' = apply_writes t d ∧ logged g d' [] [] ∧
    same_home g d' (P ∪ d) ∧ atomic_trace g d d (P ∪ d) t.
Proof.
  intros Hlog Hpos Hn Hdom Hr. assert (bs = []) as -> by (apply nil_length_inv; lia).
  assert (P = ∅) as ->.
  { apply map_eq. intros b. rewrite lookup_empty. destruct (P !! b) eqn:E; [|done].
    exfalso. eapply not_elem_of_nil, Hdom. rewrite E. eauto. }
  exists (l_io l), d, []. rewrite app_nil_r, map_empty_union.
  split; [by destruct l; cbn in *; subst|]. split; [done|]. split; [done|]. split; [done|].
  split; [done|]. intros t1 ->%prefix_nil_inv. left. by apply clean_recoverable.
Qed.

Lemma commit_spec g l (d P : disk_map) bs tr :
  place_ok g → logged g d [] [] → header_pins g l d P bs → (size P < NBUF)%nat → pins_home g P →
  prep (g_dev g) (l_io l) d P ∅ tr →
  wp commit (λ _ l', ∃ s' d' t, l' = set_io s' (set_head 0 (lh_block l) l) ∧
    prep (g_dev g) s' d' ∅ ∅ (tr ++ t) ∧ d' = apply_writes t d ∧ logged g d' [] [] ∧
    same_home g d' (P ∪ d) ∧ atomic_trace g d d (P ∪ d) t) l.
Proof.
  intros Hg Hlog (He & Hn & Htk & Hlen & Hdom) Hsz Hpin Hr.
  pose proof He as (Hat & HL & Hnd & _ & Hh).
  unfold commit. apply wp_bind, wp_gets. rewrite Hn. case_bool_decide as Hpos; unfold when.
  2:{ apply wp_ret. by apply (commit_nothing g l d P bs). }
  destruct (pins_values P bs) as [ys Hys]; [intros b; apply Hdom|].
  pose proof (Forall2_length _ _ _ Hys) as Hly. pose proof Hlog as (Hl & (z & Hz & _) & _).
  apply wp_bind. unfold write_log. apply wp_bind, wp_get, wp_io. rewrite Hn, Nat2Z.id.
  eapply wp_mono; [by eapply (write_log_loop_spec g l Hg bs ys 0)|]. cbv beta. intros [] s1 Hr1.
  apply wp_bind. eapply wp_mono.
  { eapply (write_head_spec g (set_io s1 l) (length bs) bs z); [done|exact Hat|done|done| |done| | |done|done|exact Hr1].
    - cbn. rewrite Hlen. lia.
    - eapply Forall_impl; [exact Hh|]. by intros b [? _].
    - rewrite apply_writes_other; [done|]. intros ([c w] & Heq & Hc)%list_elem_of_fmap. cbn in Heq. subst c.
      apply log_writes_in in Hc as (_ & k & _ & Hk); [unfold log_slot in Hk; lia|done|lia]. }
  intros [] l2 (x & s2 & -> & _ & Hxn & Hxb & Hr2).
  pose proof (logged_commit g d P bs ys x Hg Hlog Hnd Hh HL Hys Hxn Hxb) as Hl2.
  apply wp_bind. unfold install_trans. apply wp_bind, wp_get, wp_io. cbn [lh_n set_io l_io]. rewrite Hn, Nat2Z.id.
  eapply wp_mono.
  { eapply (install_loop_spec g _ false Hg bs ys 0); [| |by apply Hl2|exact Hsz|done|intros b; apply Hdom|exact Hr2].
    - split; [exact Hat|]. split; [done|]. split; [done|]. split; [apply He|apply Hl2].
    - done. }
  cbv beta. intros [] s3 Hr3. rewrite foldl_unpin_all in Hr3 by (intros b; apply Hdom).
  apply wp_bind. unfold clear_head. apply wp_modify.
  assert (∃ z', apply_writes (zip bs ys) (<[g_start g := x]> (apply_writes (log_writes g 0 ys) d))
            !! g_start g = Some z') as [z' Hz'].
  { apply apply_writes_is_Some. rewrite lookup_insert_eq. eauto. }
  eapply wp_mono.
  { eapply (write_head_spec g _ 0 [] z'); [done|exact Hat|done|by rewrite take_0|lia|
      unfold LOGSIZE, MAXOPBLOCKS; lia|constructor|exact Hz'| |apply pins_home_empty|exact Hr3].
    rewrite map_size_empty. unfold NBUF. lia. }
  intros [] l4 (y & s4 & -> & _ & Hyn & _ & Hr4).
  destruct (commit_trace g d P bs ys x y) as (Hf1 & Hf2 & Hf3); [done..|].
  eexists s4, _, _. split; [done|]. split; [|split; [reflexivity|by split]].
  rewrite !apply_writes_app. rewrite <-!app_assoc in *. exact Hr4.
Qed.
End triples.

(** * Transactions *)

(** What file-system calls do with the log: start an operation; read a block;
    overwrite bytes of a block as part of operation [k]; finish operation [k]. *)
Inductive log_op :=
  | OpBegin
  | OpRead (b : Z)
  | OpWrite (k : nat) (b : Z) (off : nat) (bs : list Z)
  | OpEnd (k : nat).

(** The abstract state: the last committed disk, the blocks changed since, and
    for each running operation the number of writes it may still make. *)
Record astate := MkA { a_committed : disk_map; a_pending : disk_map; a_quota : list nat }.

Definition bytes_ok (bs : list Z) : bool := forallb (λ z, (0 <=? z) && (z <? 256)) bs.
Definition can_use (g : place) (b : Z) : bool :=
  (0 <=? b) && (b <? 2 ^ 31) && negb (in_log g b).

Definition astep (g : place) (op : log_op) (A : astate) : option (list Z * astate) :=
  let '(MkA C P q) := A in
  match op with
  | OpBegin =>
      if (size P + (length q + 1) * 10 <=? 30)%nat then Some ([], MkA C P (q ++ [10%nat])) else None
  | OpRead b =>
      x ← (P ∪ C) !! b;
      if can_use g b && (bool_decide (is_Some (P !! b)) || (size P <? NBUF)%nat)
      then Some (x, A) else None
  | OpWrite k b off bs =>
      r ← q !! k; x ← (P ∪ C) !! b;
      if can_use g b && (0 <? r)%nat && (off + length bs <=? BSIZE)%nat && bytes_ok bs
      then Some ([], MkA C (<[b := splice off bs x]> P) (<[k := (r - 1)%nat]> q)) else None
  | OpEnd k =>
      r ← q !! k;
      match delete k q with
      | [] => if (size P <? NBUF)%nat then Some ([], MkA (P ∪ C) ∅ []) else None
      | q' => Some ([], MkA C P q')
      end
  end.
Fixpoint arun (g : place) (ops : list log_op) (A : astate) : option (list (list Z) * astate) :=
  match ops with
  | [] => Some ([], A)
  | op :: ops =>
      '(x, A1) ← astep g op A; '(xs, A2) ← arun g ops A1; Some (x :: xs, A2)
  end.

Definition total (q : list nat) : nat := foldr Nat.add 0%nat q.
Lemma total_app q1 q2 : total (q1 ++ q2) = (total q1 + total q2)%nat.
Proof. unfold total. induction q1; cbn in *; lia. Qed.
Lemma total_cons a q : total (a :: q) = (a + total q)%nat.
Proof. done. Qed.
Lemma total_insert q k r r' :
  q !! k = Some r → (total (<[k := r']> q) + r = total q + r')%nat.
Proof.
  revert k. induction q as [|a q IH]; intros [|k]; [done|done|intros [= ->]|intros Hk%IH].
  - change (<[0%nat := r']> (r :: q)) with (r' :: q). rewrite !total_cons. lia.
  - change (<[S k := r']> (a :: q)) with (a :: <[k := r']> q). rewrite !total_cons. lia.
Qed.
Lemma total_delete q k r : q !! k = Some r → (total (delete k q) + r = total q)%nat.
Proof.
  revert k. induction q as [|a q IH]; intros [|k]; [done|done|intros [= ->]|intros Hk%IH].
  - change (delete 0%nat (r :: q)) with q. rewrite !total_cons. lia.
  - change (delete (S k) (a :: q)) with (a :: delete k q). rewrite !total_cons. lia.
Qed.
Lemma total_bound q : Forall (λ r, (r ≤ 10)%nat) q → (total q ≤ length q * 10)%nat.
Proof. unfold total. induction 1; cbn in *; lia. Qed.
Arguments total : simpl never.

Section transactions.
Context {D : Type} {BIO : BlockIO D} {PIO : PinIO D} {LAWS : PinIOLaws D}.

Definition run_op (op : log_op) : M (log D) (list Z) :=
  match op with
  | OpBegin => begin_op;; mret []
  | OpRead b =>
      l ← get; bp ← io (bread (l_dev l) b); x ← io (buf_data bp); io (brelse bp);; mret x
  | OpWrite _ b off bs =>
      l ← get; bp ← io (bread (l_dev l) b);
      x ← io (buf_data bp); io (buf_store bp (splice off bs x));;
      log_write bp;; io (brelse bp);; mret []
  | OpEnd _ => end_op;; mret []
  end.
Fixpoint run_ops (ops : list log_op) : M (log D) (list (list Z)) :=
  match ops with
  | [] => mret []
  | op :: ops => x ← run_op op; xs ← run_ops ops; mret (x :: xs)
  end.

Record log_inv (g : place) (l : log D) (A : astate) (d : disk_map) (tr : write_trace) : Prop := {
  li_place : place_ok g;
  li_size : l_size l = g_size g;
  li_committing : l_committing l = false;
  li_clean : logged g d [] [];
  li_disk : same_home g d (a_committed A);
  li_pins : ∃ bs, header_pins g l d (a_pending A) bs;
  li_out : l_outstanding l = Z.of_nat (length (a_quota A));
  li_room : Z.of_nat (size (a_pending A) + total (a_quota A)) ≤ LOGSIZE;
  li_quota : Forall (λ r, (r ≤ 10)%nat) (a_quota A);
  li_idle : a_quota A = [] → a_pending A = ∅;
  li_rep : prep (g_dev g) (l_io l) d (a_pending A) ∅ tr;
}.

Lemma header_pins_home g (l : log D) d P bs : header_pins g l d P bs → pins_home g P.
Proof.
  intros ((_ & _ & _ & _ & Hh) & _ & _ & _ & Hdom) b Hb%Hdom. rewrite Forall_forall in Hh.
  by apply Hh in Hb as (_ & ? & _).
Qed.

Lemma header_pins_size g (l : log D) d P bs : header_pins g l d P bs → length bs = size P.
Proof.
  intros ((_ & _ & Hnd & _ & _) & _ & _ & _ & Hdom).
  rewrite <-(size_list_to_set (C := gset Z)), <-size_dom by done. f_equal.
  apply set_eq. intros b. by rewrite elem_of_list_to_set, Hdom, elem_of_dom.
Qed.

Lemma can_use_spec g b : can_use g b = true → blockno_ok b ∧ in_log g b = false.
Proof. unfold can_use, blockno_ok. intros. split; [lia|]. by destruct (in_log g b); [lia|]. Qed.

Lemma bytes_ok_spec bs : bytes_ok bs = true → bytes bs.
Proof.
  induction bs as [|z bs IH]; cbn; [constructor|]. intros [Hz Hbs]%andb_prop.
  constructor; [wrap_lia|by apply IH].
Qed.

(** The logical contents of a block are what [bread] gives. *)
Lemma logical_read g l A d tr b x :
  log_inv g l A d tr → in_log g b = false → (a_pending A ∪ a_committed A) !! b = Some x →
  (a_pending A ∪ d) !! b = Some x ∧ is_Some (d !! b).
Proof.
  intros HI Hb Hx. pose proof (li_disk _ _ _ _ _ HI b Hb) as Hd.
  destruct (li_pins _ _ _ _ _ HI) as (bs & (_ & _ & _ & _ & Hh) & _ & _ & _ & Hdom).
  rewrite lookup_union, <-Hd, <-lookup_union in Hx. split; [done|].
  apply lookup_union_Some_raw in Hx as [Hx|[_ Hx]]; [|eauto].
  rewrite Forall_forall in Hh. eapply Hh. apply Hdom. eauto.
Qed.

Lemma begin_step g l A d tr xs A' :
  log_inv g l A d tr → astep g OpBegin A = Some (xs, A') →
  wp (run_op OpBegin) (λ ys l', ys = xs ∧ log_inv g l' A' d tr) l.
Proof.
  intros [Hg Hs Hc Hcl Hd [bs Hp] Ho Hr Hq Hi Hrep] Hst. pose proof (header_pins_size _ _ _ _ _ Hp) as Hsz.
  pose proof Hp as (He & Hn & _). pose proof (total_bound _ Hq) as Ht.
  destruct A as [C P q]. cbn in *. destruct (_ <=? 30)%nat eqn:Hroom; [|done].
  apply Nat.leb_le in Hroom. injection Hst as <- <-. unfold begin_op. apply wp_bind. apply wp_bind, wp_get.
  rewrite Hc. rewrite bool_decide_false by (rewrite Ho, Hn; unfold LOGSIZE, MAXOPBLOCKS in *; lia).
  apply wp_put, wp_ret. split; [done|]. split; try done; cbn.
  - by exists bs.
  - rewrite Ho, length_app. cbn. lia.
  - rewrite total_app. change (total [10%nat]) with 10%nat. unfold LOGSIZE, MAXOPBLOCKS. lia.
  - apply Forall_app. split; [done|]. by repeat constructor.
  - intros Hnil%(f_equal length). rewrite length_app in Hnil. cbn in Hnil. lia.
Qed.

Lemma read_step g l A d tr b xs A' :
  log_inv g l A d tr → astep g (OpRead b) A = Some (xs, A') →
  wp (run_op (OpRead b)) (λ ys l', ys = xs ∧ log_inv g l' A' d tr) l.
Proof.
  intros HI Hst. destruct A as [C P q] eqn:HA. cbn [astep] in Hst.
  destruct ((P ∪ C) !! b) as [x|] eqn:Hx; [|done]. cbn [mbind option_bind] in Hst.
  destruct (can_use g b) eqn:Huse; [|done]. apply can_use_spec in Huse as [Hbok Hbl].
  destruct (bool_decide (is_Some (P !! b)) || (size P <? NBUF)%nat)%bool eqn:Hor; [|done].
  injection Hst as <- <-.
  assert (Hroom : is_Some (P !! b) ∨ (size (∅ : held_map) + size P < NBUF)%nat).
  { rewrite map_size_empty. apply orb_true_iff in Hor as [?%bool_decide_eq_true|?%Nat.ltb_lt]; [by left|right; lia]. }
  destruct (logical_read _ _ _ _ _ b x HI Hbl Hx) as [Hx' Hdb]. cbn in Hx'.
  destruct HI as [Hg Hs Hc Hcl Hd [bs Hp] Ho Hr Hq Hi Hrep]. cbn in *.
  pose proof Hp as (((Hdev & Hst') & _) & _). cbn. apply wp_bind, wp_get. rewrite Hdev. apply wp_bind, wp_io.
  eapply wp_pread; [exact Hrep|done..|apply not_held_empty|exact Hroom|]. intros h s1 _ Hr1.
  apply wp_bind, wp_io. eapply wp_pdata; [exact Hr1|by rewrite lookup_insert_eq|].
  apply wp_bind, wp_io. eapply (wp_mono _ (λ _ s', prep (g_dev g) s' d P ∅ tr)).
  { destruct (P !! b) as [y|] eqn:HPb.
    - rewrite lookup_union_Some_l with (x := y) in Hx' by done. simplify_eq.
      eapply wp_prelse_pinned; [exact Hr1|by rewrite lookup_insert_eq|eauto|]. intros s2 Hr2.
      by rewrite (insert_id P), delete_insert_id in Hr2.
    - rewrite lookup_union_r in Hx' by done.
      eapply wp_prelse; [exact Hr1|by rewrite lookup_insert_eq|done|done|]. intros s2 Hr2.
      by rewrite delete_insert_id in Hr2. }
  intros [] s2 Hr2. apply wp_ret. split; [done|]. split; try done. by exists bs.
Qed.

Lemma log_find_spec lb b bs : ∀ i,
  (∀ j c, bs !! j = Some c → lb !! (i + j)%nat = Some c) → Forall blockno_ok bs →
  ∃ m, log_find lb b i (length bs) = Some m ∧
    (b ∈ bs ∧ (m < i + length bs)%nat ∧ lb !! m = Some b ∨ b ∉ bs ∧ m = (i + length bs)%nat).
Proof.
  induction bs as [|c bs IH]; intros i Hl Hok; cbn [length log_find].
  { exists i. split; [done|]. right. split; [apply not_elem_of_nil|lia]. }
  apply Forall_cons in Hok as [Hc Hok]. pose proof (Hl 0%nat c eq_refl) as Hc0. rewrite Nat.add_0_r in Hc0.
  rewrite Hc0. cbn [mbind option_bind]. rewrite u32_blockno by done. case_bool_decide as Hcb.
  { subst. exists i. split; [done|]. left. split; [by left|]. split; [lia|done]. }
  destruct (IH (S i)) as (m & -> & Hm); [|done|].
  { intros j e He. rewrite Nat.add_succ_l, <-Nat.add_succ_r. by apply Hl. }
  exists m. split; [done|]. destruct Hm as [(? & ? & ?)|[? ?]]; [left|right].
  - split; [by right|]. split; [lia|done].
  - split; [by apply not_elem_of_cons|lia].
Qed.

Lemma header_pins_dom g (l : log D) d P P' bs :
  header_pins g l d P bs → (∀ c, is_Some (P !! c) ↔ is_Some (P' !! c)) → header_pins g l d P' bs.
Proof.
  intros (? & ? & ? & ? & Hdom) HP. split; [done|]. split; [done|]. split; [done|]. split; [done|].
  intros c. by rewrite Hdom.
Qed.

(** A block that is not in the header yet is appended to it. *)
Lemma header_pins_add g (l : log D) d P bs b x :
  header_pins g l d P bs → b ∉ bs → Z.of_nat (length bs) < LOGSIZE → home_block g d b →
  header_pins g (set_head (lh_n l + 1) (<[length bs := b]> (lh_block l)) l) d (<[b := x]> P) (bs ++ [b]).
Proof.
  intros ((Hat & HL & Hnd & Hent & Hh) & Hn & Htk & Hlen & Hdom) Hb Hlt Hhb.
  assert (Htk' : take (length (bs ++ [b])) (<[length bs := b]> (lh_block l)) = bs ++ [b]).
  { rewrite length_app. cbn [length]. rewrite Nat.add_1_r, (take_S_r _ _ b), take_insert_ge by
      (rewrite ?list_lookup_insert_eq; (done || lia)). by rewrite Htk. }
  split; [|split; [|split; [exact Htk'|split]]]; cbn.
  - split; [exact Hat|]. split; [rewrite length_app; cbn; lia|]. split.
    { apply NoDup_app. split; [done|]. split; [|apply NoDup_singleton]. by intros c Hc ->%list_elem_of_singleton. }
    split; [|by apply Forall_app; split; [|constructor]].
    intros k c Hk. rewrite <-Htk' in Hk. apply lookup_take_Some in Hk. tauto.
  - rewrite Hn, length_app. cbn. lia.
  - by rewrite length_insert.
  - intros c. rewrite elem_of_app, Hdom, list_elem_of_singleton, lookup_insert.
    case_decide as Hc; [subst; naive_solver|]. naive_solver.
Qed.

Lemma log_write_spec g l (d P : disk_map) H tr bs h b x :
  place_ok g → header_pins g l d P bs → l_size l = g_size g → 1 ≤ l_outstanding l →
  Z.of_nat (length bs) < LOGSIZE → home_block g d b → H !! h = Some (b, x) →
  prep (g_dev g) (l_io l) d P H tr →
  wp (log_write h) (λ _ l', ∃ s' n lb bs' P', l' = set_io s' (set_head n lb l) ∧
    header_pins g l' d P' bs' ∧ is_Some (P' !! b) ∧ <[b := x]> P' = <[b := x]> P ∧
    prep (g_dev g) s' d P' H tr) l.
Proof.
  intros Hg Hp Hs Hout Hlt Hhb Hh Hr. pose proof Hp as ((Hat & HL & Hnd & Hent & Hall) & Hn & Htk & Hlen & Hdom).
  pose proof Hg as (_ & Hsize & _). pose proof Hhb as (Hbok & _).
  unfold log_write. apply wp_bind, wp_get.
  rewrite !bool_decide_false by lia. cbn [orb]. apply wp_bind, wp_io. unfold wp at 1.
  rewrite (buf_blockno_law _ _ _ _ _ _ _ _ _ Hr Hh).
  destruct (log_find_spec (lh_block l) b bs 0) as (m & Hfind & Hm);
    [exact Hent|eapply Forall_impl; [exact Hall|]; by intros c [? _]|].
  rewrite Hn, Nat2Z.id, Hfind. apply wp_bind, wp_ret. rewrite s32_blockno' by done. apply wp_bind.
  destruct Hm as [(Hb & Hmlt & Hmb)|[Hb ->]].
  - rewrite bool_decide_true by (rewrite Hlen; lia). apply wp_modify.
    rewrite bool_decide_false by (cbn in Hmlt; lia). apply wp_ret.
    exists (l_io l), (lh_n l), (lh_block l), bs, P. cbn. rewrite list_insert_id by done.
    split; [done|]. split; [exact Hp|]. split; [by apply Hdom|]. done.
  - cbn [Nat.add]. rewrite bool_decide_true by (rewrite Hlen; lia). apply wp_modify.
    rewrite bool_decide_true by done. unfold when. apply wp_bind, wp_io. cbn [l_io set_head set_io].
    assert (HPb : P !! b = None) by (apply eq_None_not_Some; by rewrite <-Hdom).
    eapply wp_mono; [by eapply bpin_law|]. intros [] s' Hr'. apply wp_modify.
    exists s', (lh_n l + 1), (<[length bs := b]> (lh_block l)), (bs ++ [b]), (<[b := x]> P).
    split; [done|]. split; [by apply (header_pins_add g l d P)|]. rewrite lookup_insert_eq, insert_insert_eq. eauto.
Qed.

Lemma write_step g l A d tr k b off bs xs A' :
  log_inv g l A d tr → astep g (OpWrite k b off bs) A = Some (xs, A') →
  wp (run_op (OpWrite k b off bs)) (λ ys l', ys = xs ∧ log_inv g l' A' d tr) l.
Proof.
  intros HI Hst. destruct A as [C P q] eqn:HA. cbn [astep] in Hst.
  destruct (q !! k) as [r|] eqn:Hqk; [|done]. cbn [mbind option_bind] in Hst.
  destruct ((P ∪ C) !! b) as [x|] eqn:Hx; [|done]. cbn [mbind option_bind] in Hst.
  destruct (can_use g b && (0 <? r)%nat && (off + length bs <=? BSIZE)%nat && bytes_ok bs)%bool eqn:Hor; [|done].
  apply andb_prop in Hor as [[[Huse Hr0%Nat.ltb_lt]%andb_prop Hoff%Nat.leb_le]%andb_prop Hbs%bytes_ok_spec].
  injection Hst as <- <-. apply can_use_spec in Huse as [Hbok Hbl].
  destruct (logical_read _ _ _ _ _ b x HI Hbl Hx) as [Hx' Hdb]. cbn in Hx'.
  destruct HI as [Hg Hs Hc Hcl Hd [es Hp] Ho Hr Hq Hi Hrep]. cbn [a_committed a_pending a_quota] in *.
  pose proof (header_pins_size _ _ _ _ _ Hp) as Hsz. pose proof Hp as (((Hdev & _) & _) & _).
  pose proof (total_delete _ _ _ Hqk) as Htot.
  assert (HP : (size P < 30)%nat) by (unfold LOGSIZE, MAXOPBLOCKS in Hr; lia).
  assert (Hxb : is_block (splice off bs x)).
  { apply is_block_splice; [by eapply prep_block|done|done]. }
  cbn [run_op]. apply wp_bind, wp_get. rewrite Hdev. apply wp_bind, wp_io.
  eapply wp_pread; [exact Hrep|done|done|exact Hx'|apply not_held_empty| |].
  { right. rewrite map_size_empty. unfold NBUF. lia. }
  intros h s1 _ Hr1. apply wp_bind, wp_io. eapply wp_pdata; [exact Hr1|by rewrite lookup_insert_eq|].
  apply wp_bind, wp_io. eapply wp_pstore; [exact Hr1|by rewrite lookup_insert_eq|done|].
  intros s2 Hr2. rewrite insert_insert_eq in Hr2. apply wp_bind. eapply wp_mono.
  { eapply (log_write_spec g _ d P _ _ es h b); [done|exact Hp|done| | |done|by rewrite lookup_insert_eq|exact Hr2].
    - cbn. rewrite Ho. apply lookup_lt_Some in Hqk. lia.
    - rewrite Hsz. unfold LOGSIZE, MAXOPBLOCKS. lia. }
  intros [] l3 (s3 & n & lb & es' & P' & -> & Hp3 & HPb & HPeq & Hr3). apply wp_bind, wp_io.
  eapply wp_prelse_pinned; [exact Hr3|by rewrite lookup_insert_eq|done|]. intros s4 Hr4.
  rewrite delete_insert_id, HPeq in Hr4 by done. apply wp_ret. split; [done|].
  assert (Hp4 : header_pins g (set_io s4 (set_head n lb l)) d (<[b := splice off bs x]> P) es').
  { rewrite <-HPeq. apply (header_pins_dom g _ d P'); [exact Hp3|]. intros c. rewrite lookup_insert.
    case_decide; [subst; naive_solver|done]. }
  split; try done; cbn.
  - by eexists.
  - rewrite Ho, length_insert. done.
  - pose proof (total_insert _ _ _ (r - 1)%nat Hqk) as Hti. rewrite map_size_insert.
    destruct (P !! b); cbn; lia.
  - apply Forall_insert; [done|]. rewrite Forall_lookup in Hq. specialize (Hq k r Hqk). cbn in Hq. lia.
  - intros Hnil%(f_equal length). rewrite length_insert in Hnil. apply lookup_lt_Some in Hqk. cbn in Hnil. lia.
Qed.

Lemma end_step g l A d tr k xs A' :
  log_inv g l A d tr → astep g (OpEnd k) A = Some (xs, A') →
  wp (run_op (OpEnd k)) (λ ys l', ys = xs ∧ ∃ d' t, log_inv g l' A' d' (tr ++ t) ∧
    d' = apply_writes t d ∧ atomic_trace g d (a_committed A) (a_committed A') t) l.
Proof.
  intros [Hg Hs Hc Hcl Hd [es Hp] Ho Hr Hq Hi Hrep] Hst. destruct A as [C P q]. cbn [astep] in Hst.
  cbn [a_committed a_pending a_quota] in *.
  destruct (q !! k) as [r|] eqn:Hqk; [|done]. cbn [mbind option_bind] in Hst.
  pose proof (total_delete _ _ _ Hqk) as Htot. pose proof (length_delete q k (mk_is_Some _ _ Hqk)) as Hlen.
  cbn [run_op]. apply wp_bind. unfold end_op. apply wp_bind, wp_modify. apply wp_bind, wp_get.
  cbn [l_committing set_ops l_outstanding]. rewrite Hc.
  pose proof (lookup_lt_Some _ _ _ Hqk) as Hlt.
  assert (Hp0 : header_pins g (set_ops (l_outstanding l - 1) true
                  (set_ops (l_outstanding l - 1) (l_committing l) l)) d P es) by exact Hp.
  destruct (delete k q) as [|r' q'] eqn:Hdel.
  - destruct (size P <? NBUF)%nat eqn:Hsz; [|done]. apply Nat.ltb_lt in Hsz. injection Hst as <- <-.
    cbn in Hlen. rewrite bool_decide_true by (rewrite Ho; lia). apply wp_bind, wp_put. apply wp_bind.
    eapply wp_mono; [eapply (commit_spec g _ d P es); [done|done|exact Hp0|done|by eapply header_pins_home|exact Hrep]|].
    cbv beta. intros [] l' (s' & d' & t & -> & Hr' & Hd' & Hcl' & Hs' & Hat). apply wp_modify, wp_ret.
    assert (Hsame : same_home g (P ∪ d) (P ∪ C)) by (by apply same_home_union).
    split; [done|]. exists d', t. split; [|split; [done|]].
    + split; try done; cbn.
      * by eapply same_home_trans.
      * exists []. split; [|split; [done|split; [by rewrite take_0|split; [apply Hp0|]]]].
        { split; [apply Hp0|]. split; [unfold LOGSIZE, MAXOPBLOCKS; cbn; lia|]. by split; [constructor|]. }
        intros b. rewrite lookup_empty. split; [by intros ?%elem_of_nil|by intros []].
      * rewrite Ho. lia.
    + intros t1 Ht1. destruct (Hat t1 Ht1) as [Hc1|Hc1]; [left|right]; by eapply recoverable_same.
  - assert (xs = [] ∧ A' = MkA C P (r' :: q')) as [-> ->] by (by simplify_eq).
    cbn [length] in Hlen. rewrite bool_decide_false by (rewrite Ho; lia). apply wp_ret, wp_ret. split; [done|].
    exists d, []. rewrite app_nil_r. split; [|split; [done|]].
    + split; try done; cbn [a_committed a_pending a_quota set_ops l_outstanding].
      * by exists es.
      * rewrite Ho. cbn [length]. lia.
      * lia.
      * rewrite <-Hdel. by apply Forall_delete.
    + intros t1 ->%prefix_nil_inv. left. by apply clean_recoverable.
Qed.

(** The log at boot, before [initlog]: the static [struct log], and a cache in
    front of the disk [d]. *)
Definition booted (g : place) (l : log D) (d : disk_map) (tr : write_trace) : Prop :=
  l_outstanding l = 0 ∧ l_committing l = false ∧ length (lh_block l) = Z.to_nat LOGSIZE ∧
  prep (g_dev g) (l_io l) d ∅ ∅ tr.

Lemma initlog_spec g l d C tr :
  place_ok g → booted g l d tr → recoverable g d C →
  wp (initlog (g_dev g) (g_start g) (g_size g)) (λ _ l', ∃ d' t,
    log_inv g l' (MkA C ∅ []) d' (tr ++ t) ∧ d' = apply_writes t d ∧
    ∀ t1, t1 `prefix_of` t → recoverable g (apply_writes t1 d) C) l.
Proof.
  intros Hg (Hout & Hc & Hlen & Hr) Hrec. unfold initlog. rewrite bool_decide_false.
  2:{ unfold logheader_size, LOGSIZE, MAXOPBLOCKS, BSIZE. lia. }
  pose proof Hg as (H1 & H2 & H3). unfold LOGSIZE, MAXOPBLOCKS in H2.
  apply wp_bind, wp_modify. rewrite !s32_blockno' by (unfold blockno_ok; lia).
  eapply wp_mono; [eapply (recover_spec g); [done|by split|exact Hlen|done|exact Hr]|].
  intros [] l' (lb & s' & d' & t & -> & Hlb & Hr' & Hd' & Hl' & Hs' & Hat).
  exists d', t. split; [|done]. split; try done; cbn.
  - exists []. split; [|split; [done|split; [by rewrite take_0|split; [done|]]]].
    { split; [by split|]. split; [unfold LOGSIZE, MAXOPBLOCKS; cbn; lia|]. by split; [constructor|]. }
    intros b. rewrite lookup_empty. split; [by intros ?%elem_of_nil|by intros []].
Qed.

Lemma run_op_spec g l A d tr op xs A' :
  log_inv g l A d tr → astep g op A = Some (xs, A') →
  wp (run_op op) (λ ys l', ys = xs ∧ ∃ d' t, log_inv g l' A' d' (tr ++ t) ∧ d' = apply_writes t d ∧
    atomic_trace g d (a_committed A) (a_committed A') t) l.
Proof.
  intros HI Hst. assert (Hquiet : ∀ l' A'', a_committed A'' = a_committed A → log_inv g l' A'' d tr →
    ∃ d' t, log_inv g l' A'' d' (tr ++ t) ∧ d' = apply_writes t d ∧
      atomic_trace g d (a_committed A) (a_committed A'') t).
  { intros l' A'' HA HI'. exists d, []. rewrite app_nil_r. split; [done|]. split; [done|].
    intros t1 ->%prefix_nil_inv. left. apply clean_recoverable; by eapply HI. }
  destruct op as [|b|k b off bs|k].
  - eapply wp_mono; [by eapply begin_step|]. intros ys l' [-> HI']. split; [done|]. apply Hquiet; [|done].
    destruct A. cbn in Hst. by destruct (_ <=? 30)%nat; simplify_eq.
  - eapply wp_mono; [by eapply read_step|]. intros ys l' [-> HI']. split; [done|]. apply Hquiet; [|done].
    destruct A as [C P q]. cbn [astep] in Hst. destruct ((P ∪ C) !! b); [|done]. cbn in Hst.
    by destruct (_ && _); simplify_eq.
  - eapply wp_mono; [by eapply write_step|]. intros ys l' [-> HI']. split; [done|]. apply Hquiet; [|done].
    destruct A as [C P q]. cbn [astep] in Hst. destruct (q !! k); [|done]. cbn [mbind option_bind] in Hst.
    destruct ((P ∪ C) !! b); [|done]. cbn [mbind option_bind] in Hst. by destruct (_ && _); simplify_eq.
  - by eapply end_step.
Qed.

(** A crash point of a run lies in one of its operations. *)
Lemma run_ops_spec g ops : ∀ l A d tr xs A',
  log_inv g l A d tr → arun g ops A = Some (xs, A') →
  wp (run_ops ops) (λ ys l', ys = xs ∧ ∃ d' t, log_inv g l' A' d' (tr ++ t) ∧ d' = apply_writes t d ∧
    ∀ t1, t1 `prefix_of` t → ∃ ops1 xs1 A1, ops1 `prefix_of` ops ∧ arun g ops1 A = Some (xs1, A1) ∧
      recoverable g (apply_writes t1 d) (a_committed A1)) l.
Proof.
  induction ops as [|op ops IH]; intros l A d tr xs A' HI Hrun; cbn [run_ops arun] in *.
  { injection Hrun as <- <-. apply wp_ret. split; [done|]. exists d, []. rewrite app_nil_r.
    split; [done|]. split; [done|]. intros t1 ->%prefix_nil_inv. exists [], [], A. split; [done|].
    split; [done|]. apply clean_recoverable; by eapply HI. }
  destruct (astep g op A) as [[x A1]|] eqn:Hst; [|done]. cbn [mbind option_bind] in Hrun.
  destruct (arun g ops A1) as [[xs' A2]|] eqn:Hrest; [|done]. injection Hrun as <- <-.
  apply wp_bind. eapply wp_mono; [by eapply run_op_spec|].
  intros y l1 (-> & d1 & t1 & HI1 & Hd1 & Hat). apply wp_bind. eapply wp_mono; [by eapply IH|].
  intros ys l2 (-> & d2 & t2 & HI2 & Hd2 & Hcr). apply wp_ret. split; [done|].
  exists d2, (t1 ++ t2). rewrite app_assoc. split; [done|]. split; [by rewrite apply_writes_app, <-Hd1|].
  intros p [Hp|(p' & -> & Hp)]%prefix_app_inv.
  - destruct (Hat p Hp) as [Hc|Hc].
    + exists [], [], A. split; [apply prefix_nil|done].
    + exists [op], [x], A1. split; [by apply prefix_cons, prefix_nil|]. split; [|done]. cbn. by rewrite Hst.
  - destruct (Hcr p' Hp) as (ops1 & xs1 & A3 & Hpre & Hrun1 & Hc).
    exists (op :: ops1), (x :: xs1), A3. split; [by apply prefix_cons|]. split.
    + cbn. by rewrite Hst; cbn; rewrite Hrun1.
    + by rewrite apply_writes_app, <-Hd1.
Qed.

(** C4: the log makes groups of operations atomic.  Interleaved operations
    that keep to their reservation ([arun]: any order of [begin_op], reads,
    logged writes and [end_op], the header never filling the whole cache) run
    without panic and read what the abstract disk holds.  Whatever disk write
    the machine stops after, booting on that disk makes [initlog] return with
    exactly the disk of the last commit: the state after some prefix of the
    operations, never part of a transaction. *)
Theorem log_crash_atomic g ops l A d tr xs A' :
  log_inv g l A d tr → arun g ops A = Some (xs, A') →
  ∃ l' d' t, run_ops ops l = Ok xs l' ∧ log_inv g l' A' d' (tr ++ t) ∧ d' = apply_writes t d ∧
    ∀ t1, t1 `prefix_of` t →
      ∃ ops1 xs1 A1, ops1 `prefix_of` ops ∧ arun g ops1 A = Some (xs1, A1) ∧
        ∀ l0 tr0, booted g l0 (apply_writes t1 d) tr0 →
          ∃ l1 d1 t2, initlog (g_dev g) (g_start g) (g_size g) l0 = Ok tt l1 ∧
            log_inv g l1 (MkA (a_committed A1) ∅ []) d1 (tr0 ++ t2).
Proof.
  intros HI Hrun. pose proof (li_place _ _ _ _ _ HI) as Hg.
  destruct (proj1 (wp_ok _ _ _) (run_ops_spec g ops l A d tr xs A' HI Hrun))
    as (ys & l' & Hok & -> & d' & t & HI' & Hd' & Hcr).
  exists l', d', t. split; [done|]. split; [done|]. split; [done|]. intros t1 Ht1.
  destruct (Hcr t1 Ht1) as (ops1 & xs1 & A1 & Hpre & Hr1 & Hrec). exists ops1, xs1, A1.
  split; [done|]. split; [done|]. intros l0 tr0 Hb.
  destruct (proj1 (wp_ok _ _ _) (initlog_spec g l0 _ _ tr0 Hg Hb Hrec))
    as ([] & l1 & Hinit & d1 & t2 & HI1 & _). eauto 10.
Qed.

(** C29: recovery can itself be interrupted.  On a disk whose log holds a
    committed transaction (or none), [initlog] returns with the transaction
    installed and the log empty; if the machine stops after any of its writes,
    the next boot gives the same file-system disk. *)
Theorem recovery_restartable g l d C tr :
  place_ok g → booted g l d tr → recoverable g d C →
  ∃ l' d' t, initlog (g_dev g) (g_start g) (g_size g) l = Ok tt l' ∧
    log_inv g l' (MkA C ∅ []) d' (tr ++ t) ∧ d' = apply_writes t d ∧
    ∀ t1 l1 tr1, t1 `prefix_of` t → booted g l1 (apply_writes t1 d) tr1 →
      ∃ l2 d2 t2, initlog (g_dev g) (g_start g) (g_size g) l1 = Ok tt l2 ∧
        log_inv g l2 (MkA C ∅ []) d2 (tr1 ++ t2).
Proof.
  intros Hg Hb Hrec.
  destruct (proj1 (wp_ok _ _ _) (initlog_spec g l d C tr Hg Hb Hrec))
    as ([] & l' & Hinit & d' & t & HI & Hd' & Hcr).
  exists l', d', t. split; [done|]. split; [done|]. split; [done|]. intros t1 l1 tr1 Ht1 Hb1.
  destruct (proj1 (wp_ok _ _ _) (initlog_spec g l1 _ C tr1 Hg Hb1 (Hcr t1 Ht1)))
    as ([] & l2 & Hinit2 & d2 & t2 & HI2 & _). eauto 10.
Qed.
End transactions.

End LogSpec.
