(* ===== verification/LogImage.v ===== *)
(** The log run over the buffer cache on a small disk. *)

From S2P Require Import Prelude BlockIO Bio Log LogSpec.
Import Log LogSpec.

Local Open Scope Z_scope.

Module LogImage.

#[local] Existing Instance Bio.bio_blockio.
#[local] Existing Instance Bio.bio_pinio.
#[local] Existing Instance Bio.bio_plaws.

(** A zeroed disk of 64 blocks on device 2, the log in blocks 1 to 31. *)
Definition log_disk : disk_map := list_to_map ((λ b, (b, zero_block)) <$> seqZ 0 64).
Definition log_at : place := MkPlace 2 1 31.
Definition log_boot : log Bio.bio :=
  MkLog 0 0 0 false 0 0 (replicate 30 0) (Bio.bio_boot log_disk 1).

Lemma log_disk_lookup b : 0 ≤ b < 64 → log_disk !! b = Some zero_block.
Proof.
  intros Hb. apply elem_of_list_to_map_1.
  - rewrite <-list_fmap_compose. apply NoDup_fmap_2; [intros x y; done|apply NoDup_seqZ].
  - apply list_elem_of_fmap. exists b. split; [done|]. apply elem_of_seqZ. lia.
Qed.
Lemma log_disk_block b x : log_disk !! b = Some x → is_block x.
Proof.
  intros (c & [= -> ->] & _)%elem_of_list_to_map_2%list_elem_of_fmap. apply is_block_zero.
Qed.
Lemma log_at_ok : place_ok log_at.
Proof. unfold place_ok, LOGSIZE, MAXOPBLOCKS. cbn. lia. Qed.
Lemma log_booted : booted log_at log_boot log_disk [].
Proof.
  split; [done|]. split; [done|]. split; [done|].
  apply (Bio.bio_boot_rep 2 log_disk 1); [lia|exact log_disk_block].
Qed.
Lemma log_recoverable : recoverable log_at log_disk log_disk.
Proof.
  apply clean_recoverable; [|apply same_home_refl].
  apply (logged_nil log_at log_disk zero_block).
  - intros b Hb. rewrite log_disk_lookup; [eauto|]. unfold in_log in Hb. cbn in Hb. lia.
  - by apply log_disk_lookup.
  - vm_compute. reflexivity.
Qed.

(** Two operations whose updates reach the disk in one transaction. *)
Definition two_ops : list log_op :=
  [OpBegin; OpBegin; OpWrite 0 40 3 [7]; OpWrite 1 41 0 [8]; OpEnd 0; OpRead 40; OpEnd 0].

Lemma log_crash_atomic_witness :
  ∃ l d tr, log_inv log_at l (MkA log_disk ∅ []) d tr ∧
    ∃ xs A' l' d' t, run_ops two_ops l = Ok xs l' ∧
      log_inv log_at l' A' d' (tr ++ t) ∧ xs !! 5%nat = Some (splice 3 [7] zero_block) ∧
      a_committed A' !! 41 = Some (splice 0 [8] zero_block).
Proof.
  destruct (proj1 (wp_ok _ _ _) (initlog_spec log_at log_boot log_disk log_disk [] log_at_ok
    log_booted log_recoverable)) as ([] & l & _ & d & t & HI & _).
  exists l, d, ([] ++ t). split; [exact HI|].
  destruct (arun log_at two_ops (MkA log_disk ∅ [])) as [[xs A']|] eqn:Hrun.
  2:{ exfalso. vm_compute in Hrun. discriminate Hrun. }
  destruct (log_crash_atomic log_at two_ops l (MkA log_disk ∅ []) d ([] ++ t) xs A' HI Hrun)
    as (l' & d' & t' & Hok & HI' & _).
  exists xs, A', l', d', t'. split; [exact Hok|]. split; [exact HI'|].
  assert (Hx : (λ '(xs, A), (xs !! 5%nat, a_committed A !! 41)) <$> arun log_at two_ops (MkA log_disk ∅ [])
    = Some (Some (splice 3 [7] zero_block), Some (splice 0 [8] zero_block))) by (vm_compute; reflexivity).
  rewrite Hrun in Hx. injection Hx as Hx1 Hx2. split; [exact Hx1|exact Hx2].
Defined.

Lemma recovery_restartable_witness :
  ∃ l' d' t, initlog 2 1 31 log_boot = Ok tt l' ∧
    log_inv log_at l' (MkA log_disk ∅ []) d' t ∧ d' = apply_writes t log_disk.
Proof.
  destruct (recovery_restartable log_at log_boot log_disk log_disk [] log_at_ok log_booted log_recoverable)
    as (l' & d' & t & Hinit & HI & Hd & _).
  exists l', d', t. split; [exact Hinit|]. split; [exact HI|exact Hd].
Defined.

(** Three operations, each within its reservation of [MAXOPBLOCKS] blocks. *)
Definition full_ops : list log_op :=
  [OpBegin; OpBegin; OpBegin] ++
  ((λ i, OpWrite (i `div` 10) (32 + Z.of_nat i) 0 [1]) <$> seq 0 30).

(** the log's reservations can fill the cache.  Three operations that each
    write the ten blocks [begin_op] reserved for them are all accepted, but
    they pin all [NBUF] buffers, and the commit of the last [end_op] panics in
    [bget] when it reads the first log block. *)
Theorem log_fills_cache :
  match (initlog 2 1 31;; run_ops full_ops) log_boot with
  | Ok _ l => lh_n l = LOGSIZE ∧ l_outstanding l = 3 ∧
      (end_op;; end_op;; end_op) l = Panic "bget: no buffers"
  | _ => False
  end.
Proof. vm_compute. auto. Qed.

End LogImage.
