(* ===== verification/Balloc.v ===== *)
(** The block layer of [kernel/fs.c]: on-disk structures, the superblock, and
    the bitmap allocator ([ext2fs_free_block], [bzero], [balloc], [bfree]).

    A C structure copied out of a block is the list of its bytes; its fields
    are little-endian reads at the offsets the C layout gives them.  The global
    [sb] is an argument of the functions that read it. *)

From S2P Require Import Prelude BlockIO.

Local Open Scope Z_scope.

Module Ext2.

(** ** [struct ext2_superblock] *)
Definition sizeof_superblock : nat := 104.
Definition s_blocks_per_group (sb : list Z) : Z := rd 4 32 sb.
Definition magic (sb : list Z) : Z := rd 2 56 sb.
Definition EXT2_FSMAGIC : Z := 0xEF53.

(** ** [struct group_desc] *)
Definition sizeof_group_desc : nat := 32.
Definition block_bitmap (gd : list Z) : Z := rd 4 0 gd.
Definition inode_bitmap (gd : list Z) : Z := rd 4 4 gd.
Definition inode_table (gd : list Z) : Z := rd 4 8 gd.

Section blocks.
Context {D : Type} {BIO : BlockIO D}.

(** Run code that works on the bytes of a held buffer in place. *)
Definition on_buf {A} (bp : nat) (f : M (list Z) A) : M D A :=
  x ← buf_data bp;
  match f x with
  | Ok a y => buf_store bp y;; mret a
  | Panic e => panic e
  | Sleep _ | Undef => undef
  | NoFuel => nofuel
  end.

(** ** The superblock *)

Definition readsb (dev : Z) : M D (list Z) :=
  bp ← bread dev 1;
  x ← buf_data bp;
  let sb := slice 0 sizeof_superblock x in
  brelse bp;;
  mret sb.

Definition fsinit (dev : Z) : M D (list Z) :=
  sb ← readsb dev;
  if bool_decide (magic sb ≠ EXT2_FSMAGIC) then panic "invalid file system" else
  mret sb.

(** ** The bitmap *)

(** The inner loop over [j]: the first zero bit of a byte from the most
    significant end, and the byte with that bit set. *)
Fixpoint free_bit (n j : nat) (byte : Z) : option (Z * nat) :=
  match n with
  | O => None
  | S n =>
      let mask := Z.shiftl 1 (7 - Z.of_nat j) in
      if bool_decide (Z.land byte mask = 0) then Some (Z.lor byte mask, j)
      else free_bit n (S j) byte
  end.

(** The outer loop over [i], for [n] more bytes. *)
Fixpoint free_block_loop (n i : nat) : M (list Z) Z :=
  match n with
  | O => mret (u32 (-1))
  | S n =>
      bitmap ← get;
      byte ← of_option (bitmap !! i);
      match free_bit 8 0 byte with
      | Some (byte', j) =>
          put (<[i := byte']> bitmap);; mret (Z.of_nat i * 8 + Z.of_nat j)
      | None => free_block_loop n (S i)
      end
  end.

Definition ext2fs_free_block (sb : list Z) : M (list Z) Z :=
  free_block_loop (Z.to_nat (u32 (s_blocks_per_group sb * 8))) 0.

Definition bzero (dev bno : Z) : M D unit :=
  bp ← bread dev (u32 bno);
  buf_store bp (replicate BSIZE 0);;
  bwrite bp;;
  brelse bp.

Definition balloc (sb : list Z) (dev : Z) : M D Z :=
  bp1 ← bread dev 2;
  x ← buf_data bp1;
  let gdesc := slice 0 sizeof_group_desc x in
  brelse bp1;;
  bp2 ← bread dev (block_bitmap gdesc);
  r ← on_buf bp2 (ext2fs_free_block sb);
  let fbit := s32 r in
  if bool_decide (-1 < fbit) then
    let zbno := s32 (block_bitmap gdesc + fbit) in
    bwrite bp2;;
    bzero dev zbno;;
    brelse bp2;;
    mret (u32 zbno)
  else
    brelse bp2;; panic "ext2_balloc: out of blocks\n".

(** [bp2->data[b / 8]] tested and cleared. *)
Definition clear_bit (b : Z) : M (list Z) unit :=
  bitmap ← get;
  let mask := Z.shiftl 1 (b mod 8) in
  byte ← of_option (bitmap !! Z.to_nat (b / 8));
  if bool_decide (Z.land byte mask = 0) then panic "ext2fs_bfree: block already free\n" else
  put (<[Z.to_nat (b / 8) := Z.land byte (Z.lnot mask)]> bitmap).

Definition bfree (dev b : Z) : M D unit :=
  bp1 ← bread dev 2;
  x ← buf_data bp1;
  let bgdesc := slice 0 sizeof_group_desc x in
  bp2 ← bread dev (block_bitmap bgdesc);
  on_buf bp2 (clear_bit (u32 (b - block_bitmap bgdesc)));;
  bwrite bp2;;
  brelse bp2;;
  brelse bp1.

End blocks.

(** * The bitmap search *)

(** Bit [k] of a bitmap in the order the search visits them: byte [k / 8],
    most significant bit first. *)
Definition bit_at (bm : list Z) (k : nat) : bool :=
  Z.testbit (bm !!! (k / 8)%nat) (7 - Z.of_nat (k mod 8)).

Lemma land_mask_zero a k : 0 ≤ k → Z.land a (Z.shiftl 1 k) = 0 ↔ Z.testbit a k = false.
Proof.
  intros Hk. rewrite Z.shiftl_1_l. split.
  - intros H. assert (Hb : Z.testbit (Z.land a (2 ^ k)) k = false) by (rewrite H; apply Z.bits_0).
    rewrite Z.land_spec, Z.pow2_bits_true, andb_true_r in Hb; done.
  - intros H. apply Z.bits_inj_0. intros n. rewrite Z.land_spec.
    destruct (decide (n = k)) as [->|Hn]; [by rewrite H|].
    rewrite Z.pow2_bits_false by done. apply andb_false_r.
Qed.

Lemma testbit_lor_mask a k n :
  0 ≤ k → Z.testbit (Z.lor a (Z.shiftl 1 k)) n = Z.testbit a n || bool_decide (n = k).
Proof.
  intros Hk. rewrite Z.lor_spec, Z.shiftl_1_l. f_equal. case_bool_decide as Hn.
  - subst. by apply Z.pow2_bits_true.
  - by apply Z.pow2_bits_false.
Qed.

Lemma lor_mask_u8 a k : 0 ≤ k < 8 → is_u8 a → is_u8 (Z.lor a (Z.shiftl 1 k)).
Proof.
  intros Hk Ha. unfold is_u8 in *.
  assert (0 ≤ Z.lor a (Z.shiftl 1 k)) by (apply Z.lor_nonneg; rewrite Z.shiftl_1_l; lia).
  split; [done|]. destruct (decide (Z.lor a (Z.shiftl 1 k) = 0)) as [->|Hne]; [lia|].
  apply Z.log2_lt_pow2; [lia|]. rewrite Z.log2_lor, Z.shiftl_1_l, Z.log2_pow2 by (rewrite ?Z.shiftl_1_l; lia).
  apply Z.max_lub_lt; [|lia]. destruct (decide (a = 0)) as [->|]; [done|].
  apply Z.log2_lt_pow2; lia.
Qed.

Lemma free_bit_spec n j byte :
  (j + n = 8)%nat →
  match free_bit n j byte with
  | Some (byte', k) =>
      (j ≤ k < 8)%nat ∧ byte' = Z.lor byte (Z.shiftl 1 (7 - Z.of_nat k)) ∧
      Z.testbit byte (7 - Z.of_nat k) = false ∧
      ∀ i, (j ≤ i < k)%nat → Z.testbit byte (7 - Z.of_nat i) = true
  | None => ∀ i, (j ≤ i < 8)%nat → Z.testbit byte (7 - Z.of_nat i) = true
  end.
Proof.
  revert j. induction n as [|n IH]; intros j Hj; cbn [free_bit]; [intros; lia|].
  case_bool_decide as Hb.
  - apply land_mask_zero in Hb; [|lia]. split_and!; [lia..|done|done|lia].
  - rewrite land_mask_zero, not_false_iff_true in Hb by lia.
    specialize (IH (S j)). destruct (free_bit n (S j) byte) as [[byte' k]|].
    + destruct IH as (? & ? & ? & Hall); [lia|]. split_and!; [lia..|done|done|].
      intros i Hi. destruct (decide (i = j)) as [->|]; [done|apply Hall; lia].
    + intros i Hi. destruct (decide (i = j)) as [->|]; [done|apply IH; lia].
Qed.

Definition set_bit (bm : list Z) (k : nat) : list Z :=
  <[(k / 8)%nat := Z.lor (bm !!! (k / 8)%nat) (Z.shiftl 1 (7 - Z.of_nat (k mod 8)))]> bm.

Lemma bit_at_lt bm k : bytes bm → (k < 8 * length bm)%nat →
  bm !! (k / 8)%nat = Some (bm !!! (k / 8)%nat).
Proof. intros _ Hk. apply list_lookup_lookup_total_lt. apply Nat.Div0.div_lt_upper_bound. lia. Qed.

Lemma bit_at_set_bit bm k k' :
  bytes bm → (k < 8 * length bm)%nat →
  bit_at (set_bit bm k) k' = bit_at bm k' || bool_decide (k' = k).
Proof.
  intros Hb Hk. unfold bit_at, set_bit.
  assert (Hlt : (k / 8 < length bm)%nat) by (apply Nat.Div0.div_lt_upper_bound; lia).
  destruct (decide (k' / 8 = k / 8)%nat) as [Hd|Hd].
  - rewrite Hd, list_lookup_total_insert_eq by done. rewrite testbit_lor_mask by nlia.
    f_equal. apply bool_decide_ext. split; intros; [|by subst]. nlia.
  - rewrite list_lookup_total_insert_ne by done.
    rewrite (bool_decide_false (k' = k)) by congruence. by rewrite orb_false_r.
Qed.

Lemma length_set_bit bm k : length (set_bit bm k) = length bm.
Proof. apply length_insert. Qed.

Lemma bytes_set_bit bm k : bytes bm → (k < 8 * length bm)%nat → bytes (set_bit bm k).
Proof.
  intros Hb Hk. apply Forall_insert; [done|]. apply lor_mask_u8; [nlia|].
  eapply (Forall_lookup_1 is_u8); [done|by apply bit_at_lt].
Qed.

Lemma is_block_set_bit bm k : is_block bm → (k < 8 * BSIZE)%nat → is_block (set_bit bm k).
Proof.
  intros [Hl Hb] Hk. split; [by rewrite length_set_bit|]. apply bytes_set_bit; [done|lia].
Qed.

Lemma div_mod_row i j : (j < 8)%nat → ((i * 8 + j) / 8 = i)%nat ∧ ((i * 8 + j) mod 8 = j)%nat.
Proof. intros. split; nlia. Qed.

(** The search returns the first zero bit and sets it. *)
Lemma free_block_loop_found n : ∀ i bm k,
  bytes bm → (k < 8 * length bm)%nat → (i * 8 ≤ k < (i + n) * 8)%nat →
  bit_at bm k = false → (∀ k', (i * 8 ≤ k' < k)%nat → bit_at bm k' = true) →
  free_block_loop n i bm = Ok (Z.of_nat k) (set_bit bm k).
Proof.
  induction n as [|n IH]; intros i bm k Hb Hk Hik Hz Hall; [lia|].
  cbn [free_block_loop]. run.
  assert (Hi : bm !! i = Some (bm !!! i)) by (apply list_lookup_lookup_total_lt; lia).
  rewrite Hi. run.
  pose proof (free_bit_spec 8 0 (bm !!! i) eq_refl) as Hfb.
  assert (Hrow : ∀ j, (j < 8)%nat → bit_at bm (i * 8 + j) = Z.testbit (bm !!! i) (7 - Z.of_nat j)).
  { intros j Hj. unfold bit_at. by destruct (div_mod_row i j Hj) as [-> ->]. }
  destruct (free_bit 8 0 (bm !!! i)) as [[byte' j]|].
  - destruct Hfb as (Hj & -> & Hzj & Hbef).
    assert (k = i * 8 + j)%nat as ->.
    { assert (¬ (i * 8 + j < k)%nat).
      { intros Hlt. specialize (Hall (i * 8 + j)%nat). rewrite Hrow, Hzj in Hall by lia.
        assert (false = true) by (apply Hall; lia). done. }
      assert (¬ (k < i * 8 + j)%nat); [|lia]. intros Hlt.
      specialize (Hbef (k - i * 8)%nat). rewrite <-Hrow in Hbef by lia.
      replace (i * 8 + (k - i * 8))%nat with k in Hbef by lia. rewrite Hbef in Hz by lia. done. }
    unfold set_bit. destruct (div_mod_row i j) as [-> ->]; [lia|].
    unfold mbind, M_bind, put. f_equal. lia.
  - apply IH; [done|done| |done|intros; apply Hall; lia].
    assert (¬ (k < i * 8 + 8)%nat); [|lia]. intros Hlt.
    specialize (Hfb (k - i * 8)%nat). rewrite <-Hrow in Hfb by lia.
    replace (i * 8 + (k - i * 8))%nat with k in Hfb by lia. rewrite Hfb in Hz by lia. done.
Qed.

(** With every bit set, the search gives up after [n] bytes if that many exist,
    and otherwise runs off the end of the bitmap. *)
Lemma free_block_loop_full n : ∀ i bm,
  (∀ k, (k < 8 * length bm)%nat → bit_at bm k = true) → (i ≤ length bm)%nat →
  free_block_loop n i bm =
    if bool_decide (i + n ≤ length bm)%nat then Ok (u32 (-1)) bm else Undef.
Proof.
  induction n as [|n IH]; intros i bm Hall Hi; cbn [free_block_loop].
  { by rewrite bool_decide_true by lia. }
  run. destruct (decide (i = length bm)) as [->|Hne].
  { rewrite (lookup_ge_None_2 bm) by lia. by rewrite bool_decide_false by lia. }
  assert (Hlk : bm !! i = Some (bm !!! i)) by (apply list_lookup_lookup_total_lt; lia).
  rewrite Hlk. run. pose proof (free_bit_spec 8 0 (bm !!! i) eq_refl) as Hfb.
  destruct (free_bit 8 0 (bm !!! i)) as [[byte' j]|].
  - exfalso. destruct Hfb as (Hj & _ & Hzj & _). specialize (Hall (i * 8 + j)%nat).
    unfold bit_at in Hall. destruct (div_mod_row i j) as [Hd Hm]; [lia|].
    rewrite Hd, Hm, Hzj in Hall. assert (false = true) by (apply Hall; lia). done.
  - rewrite IH by (done || lia). by replace (S i + n)%nat with (i + S n)%nat by lia.
Qed.

(** [bound sb] is the number of bytes the search may look at. *)
Definition bound (sb : list Z) : nat := Z.to_nat (u32 (s_blocks_per_group sb * 8)).

(** The first free bit of a bitmap, in the order of the search. *)
Definition first_free (bm : list Z) (k : nat) : Prop :=
  (k < 8 * BSIZE)%nat ∧ bit_at bm k = false ∧ ∀ k', (k' < k)%nat → bit_at bm k' = true.

Lemma ext2fs_free_block_found sb bm k :
  is_block bm → first_free bm k → (k < 8 * bound sb)%nat →
  ext2fs_free_block sb bm = Ok (Z.of_nat k) (set_bit bm k).
Proof.
  intros [Hl Hb] (Hk & Hz & Hall) Hbound. apply free_block_loop_found; [done|lia| |done|intros; apply Hall; lia].
  unfold bound in *. lia.
Qed.

(** * Allocation *)

(** Where the group descriptor (block 2) of disk [d] puts things. *)
Definition gdesc (d : disk_map) : list Z :=
  match d !! 2 with Some x => slice 0 sizeof_group_desc x | None => [] end.

Section alloc.
Context {D : Type} {BIO : BlockIO D} {LAWS : BlockIOLaws D}.

Lemma wp_on_buf {A} dev s d H tr h b x (f : M (list Z) A) a y (Q : A → D → Prop) :
  rep dev s d H tr → H !! h = Some (b, x) → f x = Ok a y → is_block y →
  (∀ s', rep dev s' d (<[h := (b, y)]> H) tr → Q a s') → wp (on_buf h f) Q s.
Proof.
  intros Hr Hh Hf Hy HQ. unfold on_buf. apply wp_bind. eapply wp_buf_data; [done..|].
  rewrite Hf. apply wp_bind. eapply wp_buf_store; [done..|]. intros s' Hr'. apply wp_ret. auto.
Qed.

Lemma gdesc_is_block dev s d H tr :
  rep dev s d H tr → is_Some (d !! 2) → length (gdesc d) = sizeof_group_desc ∧ bytes (gdesc d).
Proof.
  intros Hr [x Hx]. unfold gdesc. rewrite Hx.
  destruct (rep_block _ _ _ _ _ _ _ Hr Hx) as [Hl Hb].
  split; [apply length_slice; rewrite Hl; by unfold sizeof_group_desc, BSIZE; lia|by apply bytes_slice].
Qed.

Lemma gdesc_field_range dev s d H tr off :
  rep dev s d H tr → is_Some (d !! 2) → (off + 4 ≤ 32)%nat → is_u32 (rd 4 off (gdesc d)).
Proof.
  intros Hr Hd Ho. destruct (gdesc_is_block _ _ _ _ _ Hr Hd) as [Hl Hb].
  apply (rd_range 4); [done|]. rewrite Hl. apply Ho.
Qed.

Lemma wp_bzero dev s d H tr bno old (Q : unit → D → Prop) :
  rep dev s d H tr → blockno_ok bno → d !! bno = Some old → not_held H bno → (size H < NBUF)%nat →
  (∀ s', rep dev s' (<[bno := zero_block]> d) H (tr ++ [(bno, zero_block)]) → Q tt s') →
  wp (bzero dev bno) Q s.
Proof.
  intros Hr Hb Hd Hn Hs HQ. unfold bzero. rewrite u32_id by (unfold blockno_ok in *; wrap_lia).
  apply wp_bind. eapply wp_bread; [done..|]. intros h s1 Hh Hr1.
  apply wp_bind. eapply wp_buf_store; [done|by rewrite lookup_insert_eq|apply is_block_zero|].
  intros s2 Hr2. rewrite insert_insert_eq in Hr2.
  apply wp_bind. eapply wp_bwrite; [done|by rewrite lookup_insert_eq|]. intros s3 Hr3.
  eapply wp_brelse; [done|by rewrite lookup_insert_eq|by rewrite lookup_insert_eq|].
  intros s4 Hr4. rewrite delete_insert_id in Hr4 by done. by apply HQ.
Qed.

Lemma on_buf_run {A} dev s d H tr h b x (f : M (list Z) A) a y :
  rep dev s d H tr → H !! h = Some (b, x) → f x = Ok a y → is_block y →
  ∃ s', on_buf h f s = Ok a s' ∧ rep dev s' d (<[h := (b, y)]> H) tr.
Proof.
  intros Hr Hh Hf Hy.
  destruct (proj1 (wp_ok _ _ _) (wp_on_buf dev s d H tr h b x f a y
    (λ a' s', a' = a ∧ rep dev s' d (<[h := (b, y)]> H) tr) Hr Hh Hf Hy ltac:(by intros; split)))
    as (a' & s' & Hrun & -> & Hr'). eauto.
Qed.

(** [balloc] up to having the bitmap block in hand. *)
Lemma balloc_prefix sb dev s d H tr bm :
  rep dev s d H tr → is_Some (d !! 2) → not_held H 2 →
  let bb := block_bitmap (gdesc d) in
  blockno_ok bb → d !! bb = Some bm → not_held H bb → (size H < NBUF)%nat →
  ∃ h s', H !! h = None ∧ rep dev s' d (<[h := (bb, bm)]> H) tr ∧
    balloc sb dev s =
      (r ← on_buf h (ext2fs_free_block sb);
       let fbit := s32 r in
       if bool_decide (-1 < fbit) then
         let zbno := s32 (bb + fbit) in
         bwrite h;; bzero dev zbno;; brelse h;; mret (u32 zbno)
       else brelse h;; panic "ext2_balloc: out of blocks\n") s'.
Proof.
  intros Hr [gx Hgd] H2 bb Hok Hbm Hb Hroom.
  assert (Hgx : slice 0 sizeof_group_desc gx = gdesc d) by (unfold gdesc; by rewrite Hgd).
  destruct (proj1 (wp_ok _ _ _) (bread_law dev s d H tr 2 gx Hr ltac:(by unfold blockno_ok) Hgd H2
    Hroom)) as (h1 & s1 & Hrun1 & Hh1 & Hr1).
  assert (Hdata1 : buf_data h1 s1 = Ok gx s1)
    by (eapply buf_data_law; [done|by rewrite lookup_insert_eq]).
  destruct (proj1 (wp_ok _ _ _) (brelse_law dev s1 d _ tr h1 2 gx Hr1
    ltac:(by rewrite lookup_insert_eq) Hgd)) as ([] & s2 & Hrun2 & Hr2).
  rewrite delete_insert_id in Hr2 by done.
  destruct (proj1 (wp_ok _ _ _) (bread_law dev s2 d H tr bb bm Hr2 Hok Hbm Hb Hroom))
    as (h & s3 & Hrun3 & Hh & Hr3).
  exists h, s3. split; [done|]. split; [done|].
  unfold balloc. do 2 run. cbv zeta. rewrite Hgx. fold bb. do 2 run. done.
Qed.

(** What [balloc] needs to know of the disk: the bitmap block [bm] that the
    descriptor names, its first free bit [k], and the block [old] the bit
    stands for. *)
Record can_alloc (sb : list Z) (d : disk_map) (H : held_map) (bm : list Z) (k : nat)
    (old : list Z) : Prop := {
  ca_gd : is_Some (d !! 2);
  ca_bm : d !! block_bitmap (gdesc d) = Some bm;
  ca_free : first_free bm k;
  ca_bound : (k < 8 * bound sb)%nat;
  ca_range : blockno_ok (block_bitmap (gdesc d) + Z.of_nat k);
  ca_blk : d !! (block_bitmap (gdesc d) + Z.of_nat k) = Some old;
  ca_held2 : not_held H 2;
  ca_heldb : not_held H (block_bitmap (gdesc d));
  ca_heldn : not_held H (block_bitmap (gdesc d) + Z.of_nat k);
  ca_room : (S (size H) < NBUF)%nat;
}.

(** The common part of [balloc]: up to the search having marked bit [k]. *)
Lemma balloc_mark sb dev s d H tr bm k old (Q : Z → D → Prop) :
  rep dev s d H tr → can_alloc sb d H bm k old →
  (∀ h s', H !! h = None →
     rep dev s' (<[block_bitmap (gdesc d) := set_bit bm k]> d)
       (<[h := (block_bitmap (gdesc d), set_bit bm k)]> H)
       (tr ++ [(block_bitmap (gdesc d), set_bit bm k)]) →
     wp (bzero dev (block_bitmap (gdesc d) + Z.of_nat k);; brelse h;;
         mret (block_bitmap (gdesc d) + Z.of_nat k)) Q s') →
  wp (balloc sb dev) Q s.
Proof.
  intros Hr Hc HQ.
  assert (Hbb : is_u32 (block_bitmap (gdesc d)))
    by (eapply gdesc_field_range; [done|by eapply ca_gd|lia]).
  destruct Hc as [[gx Hgd] Hbm Hff Hbound Hrange Hblk H2 Hb Hn Hroom].
  assert (Hblkbm : is_block bm) by (by eapply rep_block).
  assert (Hk : (k < 8 * BSIZE)%nat) by apply Hff.
  assert (Hbbok : blockno_ok (block_bitmap (gdesc d))) by (unfold blockno_ok, BSIZE in *; wrap_lia).
  destruct (balloc_prefix sb dev s d H tr bm) as (h2 & s3 & Hh2 & Hr3 & Hrun); [done..|lia|].
  unfold wp. rewrite Hrun.
  match goal with |- match ?m s3 with _ => _ end => fold (wp m Q s3) end. cbv zeta.
  apply wp_bind. eapply wp_on_buf;
    [done|by rewrite lookup_insert_eq|by apply ext2fs_free_block_found|by apply is_block_set_bit|].
  intros s4 Hr4. rewrite insert_insert_eq in Hr4. unfold BSIZE in Hk.
  rewrite s32_id by wrap_lia. rewrite bool_decide_true by lia.
  rewrite s32_id by (unfold blockno_ok in *; wrap_lia).
  rewrite (u32_id (_ + _)) by (unfold blockno_ok in *; wrap_lia).
  apply wp_bind. eapply wp_bwrite; [done|by rewrite lookup_insert_eq|]. intros s5 Hr5. by apply HQ.
Qed.

Lemma balloc_spec sb dev s d H tr bm k old :
  rep dev s d H tr → can_alloc sb d H bm k old → (0 < k)%nat →
  let bb := block_bitmap (gdesc d) in
  let b := bb + Z.of_nat k in
  wp (balloc sb dev) (λ r s', r = b ∧
    rep dev s' (<[b := zero_block]> (<[bb := set_bit bm k]> d)) H
      (tr ++ [(bb, set_bit bm k); (b, zero_block)])) s.
Proof.
  intros Hr Hc Hk bb b. eapply balloc_mark; [done..|]. intros h s5 Hh Hr5. fold bb b in Hr5 |- *.
  assert (Hne : bb ≠ b) by lia. destruct Hc as [Hgd Hbm Hff Hbound Hrange Hblk H2 Hb Hn Hroom].
  apply wp_bind. eapply wp_bzero; [done|done|rewrite lookup_insert_ne by done; done| | |].
  - apply not_held_insert; done.
  - rewrite map_size_insert_None by done. lia.
  - intros s6 Hr6. apply wp_bind. eapply wp_brelse; [done|by rewrite lookup_insert_eq| |].
    { rewrite lookup_insert_ne by congruence. by rewrite lookup_insert_eq. }
    intros s7 Hr7. apply wp_ret. split; [done|].
    rewrite delete_insert_id in Hr7 by done. by rewrite <-app_assoc in Hr7.
Qed.

(** * Release *)

(** [bfree] counts the bits of a byte from the least significant end, so the
    bit it tests for block number [bb + k] is the search's bit [mirror k]. *)
Definition mirror (k : nat) : nat := (k / 8 * 8 + (7 - k mod 8))%nat.
Definition reset_bit (bm : list Z) (k : nat) : list Z :=
  <[(k / 8)%nat := Z.land (bm !!! (k / 8)%nat) (Z.lnot (Z.shiftl 1 (7 - Z.of_nat (k mod 8))))]> bm.

Lemma mirror_row k : (mirror k / 8 = k / 8)%nat ∧ (mirror k mod 8 = 7 - k mod 8)%nat.
Proof. unfold mirror. split; nlia. Qed.

Lemma mirror_ne k : mirror k ≠ k.
Proof. unfold mirror. nlia. Qed.

Lemma clear_bit_eq bm k :
  bytes bm → (k < 8 * length bm)%nat →
  clear_bit (Z.of_nat k) bm =
    if bit_at bm (mirror k) then Ok tt (reset_bit bm (mirror k))
    else Panic "ext2fs_bfree: block already free\n".
Proof.
  intros Hb Hk. unfold clear_bit. run. unfold bit_at, reset_bit.
  destruct (mirror_row k) as [-> ->].
  replace (Z.to_nat (Z.of_nat k / 8)) with (k / 8)%nat by nlia.
  rewrite bit_at_lt by done. run.
  replace (7 - Z.of_nat (7 - k mod 8)) with (Z.of_nat k mod 8) by nlia.
  case_bool_decide as Hz; rewrite land_mask_zero in Hz by zlia.
  - by rewrite Hz.
  - by rewrite not_false_iff_true in Hz; rewrite Hz.
Qed.

Lemma testbit_land_lnot a k n :
  0 ≤ k → Z.testbit (Z.land a (Z.lnot (Z.shiftl 1 k))) n = Z.testbit a n && negb (bool_decide (n = k)).
Proof.
  intros Hk. destruct (decide (0 ≤ n)) as [Hn|Hn].
  - rewrite Z.land_spec, Z.lnot_spec, Z.shiftl_1_l by done. f_equal. f_equal. case_bool_decide as E.
    + subst. by apply Z.pow2_bits_true.
    + by apply Z.pow2_bits_false.
  - rewrite !(Z.testbit_neg_r _ n) by lia. done.
Qed.

Lemma bit_at_reset_bit bm k k' :
  bytes bm → (k < 8 * length bm)%nat →
  bit_at (reset_bit bm k) k' = bit_at bm k' && negb (bool_decide (k' = k)).
Proof.
  intros Hb Hk. unfold bit_at, reset_bit.
  assert (Hlt : (k / 8 < length bm)%nat) by (apply Nat.Div0.div_lt_upper_bound; lia).
  destruct (decide (k' / 8 = k / 8)%nat) as [Hd|Hd].
  - rewrite Hd, list_lookup_total_insert_eq by done. rewrite testbit_land_lnot by nlia.
    f_equal. f_equal. apply bool_decide_ext. split; intros; [|by subst]. nlia.
  - rewrite list_lookup_total_insert_ne by done.
    rewrite (bool_decide_false (k' = k)) by congruence. by rewrite andb_true_r.
Qed.

Lemma land_u8 a b : is_u8 a → is_u8 (Z.land a b).
Proof.
  intros Ha. replace a with (Z.land a (Z.ones 8)).
  - rewrite <-Z.land_assoc, (Z.land_comm _ b), Z.land_assoc, Z.land_ones by lia. wrap_lia.
  - rewrite Z.land_ones by lia. apply Z.mod_small. apply Ha.
Qed.

Lemma is_block_reset_bit bm k : is_block bm → (k < 8 * BSIZE)%nat → is_block (reset_bit bm k).
Proof.
  intros [Hl Hb] Hk. split; [by unfold reset_bit; rewrite length_insert|].
  apply Forall_insert; [done|]. apply land_u8.
  eapply (Forall_lookup_1 is_u8); [done|]. apply bit_at_lt; [done|lia].
Qed.

(** [bfree] of block [bb + k], for a bitmap [bm] in block [bb]. *)
Lemma bfree_spec dev s d H tr bm k :
  rep dev s d H tr → is_Some (d !! 2) →
  let bb := block_bitmap (gdesc d) in
  bb ≠ 2 → blockno_ok bb → d !! bb = Some bm → not_held H 2 → not_held H bb →
  (S (size H) < NBUF)%nat → (k < 8 * BSIZE)%nat →
  if bit_at bm (mirror k)
  then wp (bfree dev (bb + Z.of_nat k)) (λ _ s',
         rep dev s' (<[bb := reset_bit bm (mirror k)]> d) H
           (tr ++ [(bb, reset_bit bm (mirror k))])) s
  else bfree dev (bb + Z.of_nat k) s = Panic "ext2fs_bfree: block already free\n".
Proof.
  intros Hr [gx Hgd] bb Hne Hok Hbm H2 Hb Hroom Hk.
  pose proof (rep_block _ _ _ _ _ _ _ Hr Hbm) as Hblk. pose proof Hblk as [Hbl Hbb].
  assert (Hgx : slice 0 sizeof_group_desc gx = gdesc d) by (unfold gdesc; by rewrite Hgd).
  destruct (proj1 (wp_ok _ _ _) (bread_law dev s d H tr 2 gx Hr ltac:(by unfold blockno_ok) Hgd H2
    ltac:(lia))) as (h1 & s1 & Hrun1 & Hh1 & Hr1).
  destruct (proj1 (wp_ok _ _ _) (bread_law dev s1 d _ tr bb bm Hr1 Hok Hbm
    ltac:(apply not_held_insert; auto) ltac:(rewrite map_size_insert_None by done; lia)))
    as (h2 & s2 & Hrun2 & Hh2 & Hr2).
  assert (Hdata1 : buf_data h1 s1 = Ok gx s1)
    by (eapply buf_data_law; [done|by rewrite lookup_insert_eq]).
  assert (Hdata2 : buf_data h2 s2 = Ok bm s2)
    by (eapply buf_data_law; [done|by rewrite lookup_insert_eq]).
  assert (Hkk : u32 (bb + Z.of_nat k - bb) = Z.of_nat k) by (unfold BSIZE in Hk; wrap_lia).
  assert (Hmk : (mirror k < 8 * BSIZE)%nat) by (unfold mirror, BSIZE in *; nlia).
  destruct (bit_at bm (mirror k)) eqn:Hbit.
  - unfold wp. unfold bfree. do 2 run. cbv zeta. rewrite Hgx. fold bb. run.
    match goal with |- match ?m s2 with _ => _ end => fold (wp m (λ (_ : unit) s',
         rep dev s' (<[bb := reset_bit bm (mirror k)]> d) H
           (tr ++ [(bb, reset_bit bm (mirror k))])) s2) end.
    apply wp_bind. eapply wp_on_buf; [done|by rewrite lookup_insert_eq| |by apply is_block_reset_bit|].
    { rewrite Hkk, clear_bit_eq, Hbit by (done || lia). done. }
    intros s3 Hr3. rewrite insert_insert_eq in Hr3.
    apply wp_bind. eapply wp_bwrite; [done|by rewrite lookup_insert_eq|]. intros s4 Hr4.
    apply wp_bind. eapply wp_brelse; [done|by rewrite lookup_insert_eq|by rewrite lookup_insert_eq|].
    intros s5 Hr5. rewrite delete_insert_id in Hr5 by done.
    eapply wp_brelse; [done|by rewrite lookup_insert_eq|by rewrite lookup_insert_ne|].
    intros s6 Hr6. by rewrite delete_insert_id in Hr6.
  - unfold bfree. do 2 run. cbv zeta. rewrite Hgx. fold bb. run.
    unfold on_buf, mbind, M_bind. rewrite Hdata2, Hkk, clear_bit_eq, Hbit by (done || lia). done.
Qed.

(** * Properties of the allocator *)

(** C24: [balloc] returns the block of the first clear bit of the bitmap (bit
    [k], counting each byte from its most significant bit), sets that bit and
    no other, zeroes the block, leaves every other block alone, and writes the
    bitmap before the zeroed block. *)
Theorem balloc_allocates sb dev s d H tr bm k old :
  rep dev s d H tr → can_alloc sb d H bm k old → (0 < k)%nat →
  let bb := block_bitmap (gdesc d) in
  let b := bb + Z.of_nat k in
  wp (balloc sb dev) (λ r s', r = b ∧ ∃ bm' d',
    rep dev s' d' H (tr ++ [(bb, bm'); (b, zero_block)]) ∧
    (∀ k', bit_at bm' k' = bit_at bm k' || bool_decide (k' = k)) ∧
    (∀ c, d' !! c = if decide (c = b) then Some zero_block
                    else if decide (c = bb) then Some bm' else d !! c)) s.
Proof.
  intros Hr Hc Hk bb b. pose proof (rep_block _ _ _ _ _ _ _ Hr (ca_bm _ _ _ _ _ _ Hc)) as [Hl Hb].
  eapply wp_mono; [by eapply balloc_spec|]. intros r s' [-> Hr']. split; [done|].
  eexists _, _. split; [exact Hr'|]. split.
  - intros k'. apply bit_at_set_bit; [done|]. rewrite Hl. apply (ca_free _ _ _ _ _ _ Hc).
  - intros c. rewrite !lookup_insert. fold bb b. repeat case_decide; congruence.
Qed.

(** C35: freeing a block right after allocating it does not undo the allocation.
    The allocator numbers the bits of a byte from the most significant end and
    [bfree] from the least significant one, so [bfree] looks at bit
    [mirror k], never equal to [k]: when that bit is clear it panics with
    "block already free", and otherwise it marks the block of bit [mirror k]
    free, which is still in use, and leaves the freed block marked as used. *)
Theorem balloc_then_bfree sb dev s d H tr bm k old :
  rep dev s d H tr → can_alloc sb d H bm k old → (0 < k)%nat →
  let bb := block_bitmap (gdesc d) in
  2 < bb →
  mirror k ≠ k ∧
  wp (balloc sb dev) (λ b s',
    if bit_at bm (mirror k)
    then wp (bfree dev b) (λ _ s'', ∃ d'' tr'' bm'',
           rep dev s'' d'' H tr'' ∧ d'' !! bb = Some bm'' ∧
           bit_at bm'' (mirror k) = false ∧ bit_at bm'' k = true) s'
    else bfree dev b s' = Panic "ext2fs_bfree: block already free\n") s.
Proof.
  intros Hr Hc Hk bb H2. split; [apply mirror_ne|].
  pose proof (rep_block _ _ _ _ _ _ _ Hr (ca_bm _ _ _ _ _ _ Hc)) as Hblk.
  pose proof Hblk as [Hl Hb]. eapply wp_mono; [by eapply balloc_spec|]. intros r s' [-> Hr'].
  destruct Hc as [[gx Hgd] Hbm Hff _ Hrange _ Hh2 Hhb _ Hroom]. pose proof Hff as [Hk8 _].
  fold bb in Hr', Hrange |- *. set (d' := <[_ := _]> _) in Hr'.
  assert (Hd2 : d' !! 2 = Some gx) by (unfold d'; rewrite !lookup_insert_ne by lia; done).
  assert (Hgd' : gdesc d' = gdesc d) by (unfold gdesc; by rewrite Hd2, Hgd).
  assert (Hdb : d' !! bb = Some (set_bit bm k))
    by (unfold d'; rewrite lookup_insert_ne by lia; by rewrite lookup_insert_eq).
  assert (Hbbok : blockno_ok bb) by (unfold blockno_ok, BSIZE in *; lia).
  pose proof (bfree_spec dev s' d' H _ (set_bit bm k) k Hr' ltac:(by rewrite Hd2)) as Hf.
  cbv zeta in Hf. rewrite Hgd' in Hf. fold bb in Hf.
  specialize (Hf ltac:(lia) Hbbok Hdb Hh2 Hhb Hroom Hk8).
  rewrite bit_at_set_bit, (bool_decide_false (mirror k = k)), orb_false_r in Hf
    by (apply mirror_ne || done || lia).
  destruct (bit_at bm (mirror k)) eqn:Hbit; [|exact Hf].
  eapply wp_mono; [exact Hf|]. intros [] s'' Hr''. eexists _, _, _. split; [exact Hr''|].
  assert (Hmk : (mirror k < 8 * length (set_bit bm k))%nat).
  { rewrite length_set_bit, Hl. unfold mirror, BSIZE in *. nlia. }
  split; [apply lookup_insert_eq|].
  rewrite !bit_at_reset_bit, !bit_at_set_bit by (apply bytes_set_bit || done || lia; try done; lia).
  rewrite (bool_decide_true (mirror k = mirror k)), (bool_decide_true (k = k)) by done.
  rewrite (bool_decide_false (k = mirror k)) by (pose proof (mirror_ne k); congruence).
  rewrite andb_false_r, orb_true_r. done.
Qed.

(** the failures of [balloc].  When bit 0 of the bitmap is clear the
    "allocated" block is the bitmap block itself, which [balloc] holds, and the
    call never returns (it sleeps on its own buffer).  When no bit is clear it
    panics only if the superblock's [s_blocks_per_group * 8] is at most the
    [BSIZE] bytes the bitmap has; for a larger value, such as the 8192 blocks
    per group of a 1 KiB-block file system, it reads past the buffer. *)
Theorem balloc_failures sb dev s d H tr bm :
  rep dev s d H tr →
  (∀ old, can_alloc sb d H bm 0 old → ∃ s', balloc sb dev s = Sleep s') ∧
  (is_Some (d !! 2) → blockno_ok (block_bitmap (gdesc d)) →
   d !! block_bitmap (gdesc d) = Some bm → not_held H 2 →
   not_held H (block_bitmap (gdesc d)) → (size H < NBUF)%nat →
   (∀ k, (k < 8 * BSIZE)%nat → bit_at bm k = true) →
   balloc sb dev s =
     if bool_decide (bound sb ≤ BSIZE)%nat then Panic "ext2_balloc: out of blocks\n" else Undef).
Proof.
  intros Hr. split.
  - intros old Hc. destruct Hc as [Hgd Hbm Hff Hbound Hrange _ H2 Hb _ Hroom].
    rewrite Z.add_0_r in Hrange.
    destruct (balloc_prefix sb dev s d H tr bm) as (h & s3 & Hh & Hr3 & Hrun); [done..|lia|].
    rewrite Hrun. pose proof (rep_block _ _ _ _ _ _ _ Hr Hbm) as Hblk.
    destruct (on_buf_run dev s3 d _ tr h (block_bitmap (gdesc d)) bm (ext2fs_free_block sb) 0 (set_bit bm 0) Hr3)
      as (s4 & Hrun4 & Hr4);
      [by rewrite lookup_insert_eq|by apply (ext2fs_free_block_found sb bm 0)|
       by apply is_block_set_bit; [|unfold BSIZE; lia]|].
    rewrite insert_insert_eq in Hr4. run. cbv zeta. change (s32 0) with 0.
    rewrite bool_decide_true, Z.add_0_r by lia.
    rewrite s32_id by (unfold blockno_ok in *; lia).
    destruct (proj1 (wp_ok _ _ _) (bwrite_law dev s4 d _ tr h (block_bitmap (gdesc d)) (set_bit bm 0) Hr4
      ltac:(by rewrite lookup_insert_eq))) as ([] & s5 & Hrun5 & Hr5). run.
    edestruct (bread_self_law dev s5) as [s6 Hs6]; [exact Hr5|by rewrite lookup_insert_eq|].
    exists s6. unfold bzero. rewrite u32_id by (unfold blockno_ok in *; wrap_lia).
    unfold mbind, M_bind. by rewrite Hs6.
  - intros Hgd Hok Hbm H2 Hb Hroom Hall.
    destruct (balloc_prefix sb dev s d H tr bm) as (h & s3 & Hh & Hr3 & Hrun); [done..|].
    rewrite Hrun. pose proof (rep_block _ _ _ _ _ _ _ Hr Hbm) as Hblk. pose proof Hblk as [Hl _].
    assert (Hdata : buf_data h s3 = Ok bm s3)
      by (eapply buf_data_law; [done|by rewrite lookup_insert_eq]).
    pose proof (free_block_loop_full (bound sb) 0 bm) as Hfull. rewrite Hl in Hfull.
    specialize (Hfull Hall ltac:(lia)). cbn [Nat.add] in Hfull.
    change (free_block_loop (bound sb) 0) with (ext2fs_free_block sb) in Hfull.
    case_bool_decide as Hbnd.
    + destruct (on_buf_run dev s3 d _ tr h (block_bitmap (gdesc d)) bm (ext2fs_free_block sb) (u32 (-1)) bm Hr3)
        as (s4 & Hrun4 & Hr4); [by rewrite lookup_insert_eq|done..|].
      rewrite insert_insert_eq in Hr4. run. cbv zeta. change (bool_decide _) with false.
      destruct (proj1 (wp_ok _ _ _) (brelse_law dev s4 d _ tr h (block_bitmap (gdesc d)) bm Hr4
        ltac:(by rewrite lookup_insert_eq) Hbm)) as ([] & s5 & Hrun5 & _). by run.
    + unfold on_buf, mbind, M_bind. by rewrite Hdata, Hfull.
Qed.

End alloc.
End Ext2.
