(* ===== verification/Inode.v ===== *)
(** The inode layer of [kernel/fs.c]: the in-memory inode table ([iget],
    [idup], [ilock], [iunlock], [iput]), the on-disk inodes ([ialloc],
    [iupdate]) and the block map ([bmap], [itrunc]).

    The state is the block store, the superblock, the inode table, the inode
    of the current directory and the pid of the running process.  A [struct
    inode *] is an index into the table; where the code tests for a null
    pointer it is an [option]. *)

From S2P Require Import Prelude Sleeplock BlockIO Balloc.
Import Ext2.

Local Open Scope Z_scope.

Module Inode.

Definition NINODE : nat := 50.
Definition T_DIR : Z := 1.
Definition T_FILE : Z := 2.
Definition T_DEVICE : Z := 3.
Definition EXT2_T_DIR : Z := 0x4000.
Definition EXT2_T_FILE : Z := 0x8000.
Definition GET_FILE_MODE (x : Z) : Z := Z.land x 0xF000.
Definition INODESIZE : Z := 128.
Definition EXT2_ROOTINO : Z := 2.
Definition ROOTDEV : Z := 1.

(** ** [struct ext2_dinode] *)
Definition sizeof_dinode : nat := 116.
Definition di_mode (din : list Z) : Z := rd 2 0 din.
Definition di_size (din : list Z) : Z := rd 4 4 din.
Definition di_links_count (din : list Z) : Z := rd 2 26 din.
Definition di_block (din : list Z) : list Z := (λ k, rd 4 (40 + 4 * k) din) <$> seq 0 15.

(** ** [struct inode] *)
Record inode := MkInode {
  i_dev : Z;
  i_inum : Z;
  i_ref : Z;
  i_lock : sleeplock;
  i_valid : bool;
  i_type : Z;
  i_major : Z;
  i_minor : Z;
  i_nlink : Z;
  i_size : Z;
  i_addrs : list Z;
}.

Definition set_id (dev inum : Z) (x : inode) : inode :=
  MkInode dev inum (i_ref x) (i_lock x) (i_valid x) (i_type x) (i_major x) (i_minor x)
    (i_nlink x) (i_size x) (i_addrs x).
Definition set_ref (r : Z) (x : inode) : inode :=
  MkInode (i_dev x) (i_inum x) r (i_lock x) (i_valid x) (i_type x) (i_major x) (i_minor x)
    (i_nlink x) (i_size x) (i_addrs x).
Definition set_lock (lk : sleeplock) (x : inode) : inode :=
  MkInode (i_dev x) (i_inum x) (i_ref x) lk (i_valid x) (i_type x) (i_major x) (i_minor x)
    (i_nlink x) (i_size x) (i_addrs x).
Definition set_valid (v : bool) (x : inode) : inode :=
  MkInode (i_dev x) (i_inum x) (i_ref x) (i_lock x) v (i_type x) (i_major x) (i_minor x)
    (i_nlink x) (i_size x) (i_addrs x).
Definition set_type (t : Z) (x : inode) : inode :=
  MkInode (i_dev x) (i_inum x) (i_ref x) (i_lock x) (i_valid x) t (i_major x) (i_minor x)
    (i_nlink x) (i_size x) (i_addrs x).
Definition set_dev_numbers (major minor : Z) (x : inode) : inode :=
  MkInode (i_dev x) (i_inum x) (i_ref x) (i_lock x) (i_valid x) (i_type x) major minor
    (i_nlink x) (i_size x) (i_addrs x).
Definition set_nlink (n : Z) (x : inode) : inode :=
  MkInode (i_dev x) (i_inum x) (i_ref x) (i_lock x) (i_valid x) (i_type x) (i_major x) (i_minor x)
    n (i_size x) (i_addrs x).
Definition set_size (n : Z) (x : inode) : inode :=
  MkInode (i_dev x) (i_inum x) (i_ref x) (i_lock x) (i_valid x) (i_type x) (i_major x) (i_minor x)
    (i_nlink x) n (i_addrs x).
Definition set_addrs (l : list Z) (x : inode) : inode :=
  MkInode (i_dev x) (i_inum x) (i_ref x) (i_lock x) (i_valid x) (i_type x) (i_major x) (i_minor x)
    (i_nlink x) (i_size x) l.

(** ** The file-system state *)
Record fs (D : Type) := MkFs {
  io : D;
  sb : list Z;
  itab : list inode;
  cwd : nat;
  curpid : Z;
}.
Arguments MkFs {D} _ _ _ _ _.
Arguments io {D} _.
Arguments sb {D} _.
Arguments itab {D} _.
Arguments cwd {D} _.
Arguments curpid {D} _.

Definition with_io {D} (t : D) (s : fs D) : fs D := MkFs t (sb s) (itab s) (cwd s) (curpid s).
Definition with_sb {D} (x : list Z) (s : fs D) : fs D := MkFs (io s) x (itab s) (cwd s) (curpid s).
Definition with_itab {D} (l : list inode) (s : fs D) : fs D :=
  MkFs (io s) (sb s) l (cwd s) (curpid s).
Definition with_cwd {D} (c : nat) (s : fs D) : fs D := MkFs (io s) (sb s) (itab s) c (curpid s).

Section ops.
Context {D : Type} {BIO : BlockIO D}.

(** An operation of the block layer. *)
Definition blk {A} (m : M D A) : M (fs D) A := zoom io with_io m.

(** [*ip], and an assignment to fields of it. *)
Definition rdi (ip : nat) : M (fs D) inode := s ← get; of_option (itab s !! ip).
Definition updi (ip : nat) (f : inode → inode) : M (fs D) unit :=
  x ← rdi ip; modify (λ s, with_itab (<[ip := f x]> (itab s)) s).
Definition on_ilock (ip : nat) (m : M sleeplock unit) : M (fs D) unit :=
  x ← rdi ip;
  zoom (λ _, i_lock x) (λ lk s, with_itab (<[ip := set_lock lk x]> (itab s)) s) m.

(** ** The table *)

(** [iinit]: [initsleeplock] on every entry. *)
Definition iinit : M (fs D) unit :=
  modify (λ s, with_itab (set_lock initsleeplock <$> itab s) s).

(** The scan of [iget] over entries [l], the first of which has index [i]:
    the entry of the inode if it is in use, else the first empty one. *)
Fixpoint iget_scan (dev inum : Z) (l : list inode) (i : nat) (empty : option nat) :
    nat + option nat :=
  match l with
  | [] => inr empty
  | x :: l =>
      if bool_decide (0 < i_ref x ∧ i_dev x = dev ∧ i_inum x = inum) then inl i else
      iget_scan dev inum l (S i)
        (if bool_decide (empty = None ∧ i_ref x = 0) then Some i else empty)
  end.

Definition iget (dev inum : Z) : M (fs D) nat :=
  s ← get;
  match iget_scan dev inum (itab s) 0 None with
  | inl ip => updi ip (λ x, set_ref (s32 (i_ref x + 1)) x);; mret ip
  | inr None => panic "iget: no inodes"
  | inr (Some ip) =>
      updi ip (λ x, set_valid false (set_ref 1 (set_id dev inum x)));; mret ip
  end.

Definition idup (ip : nat) : M (fs D) nat :=
  updi ip (λ x, set_ref (s32 (i_ref x + 1)) x);; mret ip.

(** ** Reading the on-disk inode *)

(** The assignments of [ilock] and [rootilock] from the disk inode [din]. *)
Definition fill (din : list Z) (x : inode) : inode :=
  let t := if bool_decide (GET_FILE_MODE (di_mode din) = EXT2_T_DIR ∨ di_mode din = T_DIR)
           then T_DIR else T_FILE in
  set_valid true (set_addrs (di_block din) (set_size (di_size din)
    (set_nlink (s16 (di_links_count din)) (set_dev_numbers 0 0 (set_type t x))))).

(** [bread(dev, 2)], copy of the group descriptor, [brelse]. *)
Definition read_gdesc (dev : Z) : M (fs D) (list Z) :=
  bp ← blk (bread dev 2);
  x ← blk (buf_data bp);
  let group := slice 0 sizeof_group_desc x in
  blk (brelse bp);;
  mret group.

Definition rootilock (ip : option nat) : M (fs D) unit :=
  match ip with
  | None => panic "ilock"
  | Some ip =>
      x ← rdi ip;
      if bool_decide (i_ref x < 1) then panic "ilock" else
      if i_valid x then mret tt else
      group ← read_gdesc (i_dev x);
      let bno := s32 (inode_table group) in
      bp ← blk (bread (i_dev x) (u32 bno));
      data ← blk (buf_data bp);
      let din := slice (Z.to_nat INODESIZE) sizeof_dinode data in
      blk (brelse bp);;
      updi ip (fill din);;
      x ← rdi ip;
      when (bool_decide (i_type x = 0)) (panic "ilock: no type")
  end.

Definition ilock (ip : option nat) : M (fs D) unit :=
  match ip with
  | None => panic "ilock"
  | Some ip =>
      x ← rdi ip;
      if bool_decide (i_ref x < 1) then panic "ilock" else
      pid ← gets curpid;
      on_ilock ip (acquiresleep pid);;
      x ← rdi ip;
      if i_valid x then mret tt else
      let offset := s32 (i_inum x - 1) in
      group ← read_gdesc (i_dev x);
      let bno := s32 (inode_table group + Z.quot offset (Z.of_nat BSIZE / INODESIZE)) in
      bp1 ← blk (bread (i_dev x) (u32 bno));
      data ← blk (buf_data bp1);
      let at_ := Z.rem offset (Z.of_nat BSIZE / INODESIZE) * INODESIZE in
      if bool_decide (at_ < 0) then undef else
      let din := slice (Z.to_nat at_) sizeof_dinode data in
      blk (brelse bp1);;
      updi ip (fill din);;
      x ← rdi ip;
      when (bool_decide (i_type x = 0)) (panic "ilock: no type")
  end.

Definition iunlock (ip : option nat) : M (fs D) unit :=
  match ip with
  | None => panic "iunlock"
  | Some ip =>
      x ← rdi ip;
      pid ← gets curpid;
      if bool_decide (holdingsleep pid (i_lock x) = false ∨ i_ref x < 1) then panic "iunlock" else
      on_ilock ip releasesleep
  end.

(** ** Writing the on-disk inode *)

(** The bytes of [uint addrs[]]. *)
Definition addr_bytes (l : list Z) : list Z := concat (le_to 4 <$> l).

(** The assignments of [iupdate] to the copy [din] of the disk inode, in
    order; the last is [memmove(din.i_block, ad, sizeof(ad))], where
    [sizeof(ad)] is the size of a pointer. *)
Definition sizeof_pointer : nat := 8.
Definition dinode_of (x : inode) (din : list Z) : list Z :=
  let din := if bool_decide (i_type x = T_DIR) then wr 2 0 EXT2_T_DIR din else din in
  let din := if bool_decide (i_type x = T_FILE) then wr 2 0 EXT2_T_FILE din else din in
  let din := wr 2 26 (i_nlink x) din in
  let din := wr 4 4 (i_size x) din in
  let din := wr 4 20 0 din in
  let din := wr 4 112 0 din in
  let din := wr 4 104 0 din in
  let din := wr 4 32 0 din in
  let din := wr 4 100 0 din in
  let din := wr 2 24 0 din in
  let din := wr 4 16 0 din in
  let din := wr 2 2 0 din in
  let din := wr 4 8 0 din in
  splice 40 (take sizeof_pointer (addr_bytes (i_addrs x))) din.

Definition iupdate (ip : nat) : M (fs D) unit :=
  x ← rdi ip;
  gdes ← read_gdesc (i_dev x);
  let per := Z.of_nat BSIZE / INODESIZE in
  let bno := s32 (inode_table gdes + u32 (i_inum x - 1) / per) in
  let iindex := u32 (i_inum x - 1) mod per in
  let at_ := Z.to_nat (iindex * INODESIZE) in
  bp ← blk (bread (i_dev x) (u32 bno));
  data ← blk (buf_data bp);
  let din := slice at_ sizeof_dinode data in
  blk (buf_store bp (splice at_ (dinode_of x din) data));;
  blk (bwrite bp);;
  blk (brelse bp).

(** [sizeof(struct ext2_dinode)] is 116, so [BSIZE / sizeof(...)] is 8 and the
    [iindex]-th inode is taken at byte [116 * iindex]. *)
Definition ialloc (dev type : Z) : M (fs D) nat :=
  bgdesc ← read_gdesc dev;
  s ← get;
  bp2 ← blk (bread dev (inode_bitmap bgdesc));
  r ← blk (on_buf bp2 (ext2fs_free_block (sb s)));
  let fbit := s32 r in
  if bool_decide (fbit = -1) then blk (brelse bp2);; panic "ext2_ialloc: no inodes" else
  let per := Z.of_nat (BSIZE / sizeof_dinode) in
  let bno := s32 (inode_table bgdesc + fbit / per) in
  let iindex := fbit mod per in
  bp3 ← blk (bread dev (u32 bno));
  data ← blk (buf_data bp3);
  let at_ := (sizeof_dinode * Z.to_nat iindex)%nat in
  let din := replicate sizeof_dinode 0 in
  let din := if bool_decide (type = T_DIR) then wr 2 0 EXT2_T_DIR din
             else if bool_decide (type = T_FILE) then wr 2 0 EXT2_T_FILE din else din in
  blk (buf_store bp3 (splice at_ din data));;
  blk (bwrite bp3);;
  blk (bwrite bp2);;
  blk (brelse bp3);;
  blk (brelse bp2);;
  iget dev (u32 (fbit + 1)).

(** ** The block map *)

Definition EXT2_NDIRECT : Z := 12.
Definition EXT2_NINDIRECT : Z := Z.of_nat BSIZE / 4.
Definition EXT2_NDINDIRECT : Z := EXT2_NINDIRECT * EXT2_NINDIRECT.
Definition EXT2_NTINDIRECT : Z := EXT2_NINDIRECT * EXT2_NDINDIRECT.
Definition EXT2_IINDIRECT : nat := 12.
Definition EXT2_IDINDIRECT : nat := 13.
Definition EXT2_ITINDIRECT : nat := 14.

(** [balloc(ip->dev)]. *)
Definition ialloc_block (ip : nat) : M (fs D) Z :=
  x ← rdi ip; s ← get; blk (balloc (sb s) (i_dev x)).

(** [if ((addr = ad[k]) == 0) ad[k] = addr = balloc(ip->dev);] *)
Definition addr_slot (ip k : nat) : M (fs D) Z :=
  x ← rdi ip;
  addr ← of_option (i_addrs x !! k);
  if bool_decide (addr = 0) then
    addr ← ialloc_block ip;
    updi ip (λ x, set_addrs (<[k := addr]> (i_addrs x)) x);; mret addr
  else mret addr.

(** [a = (uint * )bp->data; if ((addr = a[k]) == 0) a[k] = addr = balloc(ip->dev);] *)
Definition ind_slot (ip bp : nat) (k : Z) : M (fs D) Z :=
  data ← blk (buf_data bp);
  let addr := rd 4 (4 * Z.to_nat k) data in
  if bool_decide (addr = 0) then
    addr ← ialloc_block ip;
    data ← blk (buf_data bp);
    blk (buf_store bp (wr 4 (4 * Z.to_nat k) addr data));; mret addr
  else mret addr.

Definition bmap (ip : nat) (bn : Z) : M (fs D) Z :=
  x ← rdi ip;
  let dev := i_dev x in
  if bool_decide (bn < EXT2_NDIRECT) then addr_slot ip (Z.to_nat bn) else
  let bn := bn - EXT2_NDIRECT in
  if bool_decide (bn < EXT2_NINDIRECT) then
    addr ← addr_slot ip EXT2_IINDIRECT;
    bp ← blk (bread dev addr);
    addr ← ind_slot ip bp bn;
    blk (brelse bp);;
    mret addr
  else
  let bn := bn - EXT2_NINDIRECT in
  if bool_decide (bn < EXT2_NDINDIRECT) then
    addr ← addr_slot ip EXT2_IDINDIRECT;
    bp ← blk (bread dev addr);
    addr ← ind_slot ip bp (bn / EXT2_NINDIRECT);
    bp1 ← blk (bread dev addr);
    addr ← ind_slot ip bp1 (bn mod EXT2_NINDIRECT);
    blk (brelse bp);;
    blk (brelse bp1);;
    mret addr
  else
  let bn := bn - EXT2_NDINDIRECT in
  if bool_decide (bn < EXT2_NTINDIRECT) then
    addr ← addr_slot ip EXT2_ITINDIRECT;
    bp ← blk (bread dev addr);
    addr ← ind_slot ip bp (bn / EXT2_NDINDIRECT);
    bp1 ← blk (bread dev addr);
    let bn := bn mod EXT2_NDINDIRECT in
    addr ← ind_slot ip bp1 (bn / EXT2_NINDIRECT);
    bp2 ← blk (bread dev addr);
    addr ← ind_slot ip bp2 (bn mod EXT2_NINDIRECT);
    blk (brelse bp);;
    blk (brelse bp1);;
    blk (brelse bp2);;
    mret addr
  else panic "ext2_bmap: block number out of range\n".

(** ** Truncation *)

(** [for (i = 0; i < 12; i++) if (ip->addrs[i]) { bfree(...); ip->addrs[i] = 0; }],
    for the entries [ks]. *)
Fixpoint trunc_direct (ip : nat) (ks : list nat) : M (fs D) unit :=
  match ks with
  | [] => mret tt
  | k :: ks =>
      x ← rdi ip;
      a ← of_option (i_addrs x !! k);
      when (bool_decide (a ≠ 0))
        (blk (bfree (i_dev x) a);; updi ip (λ x, set_addrs (<[k := 0]> (i_addrs x)) x));;
      trunc_direct ip ks
  end.

(** [for (i = 0; i < EXT2_INDIRECT; i++) if (a[i]) { below(a[i]); bfree(a[i]); a[i] = 0; }]
    on the entries of the buffer [bp]. *)
Fixpoint trunc_slots (below : Z → M (fs D) unit) (dev : Z) (bp : nat) (ks : list nat) :
    M (fs D) unit :=
  match ks with
  | [] => mret tt
  | k :: ks =>
      data ← blk (buf_data bp);
      let a := rd 4 (4 * k) data in
      when (bool_decide (a ≠ 0))
        (below a;;
         blk (bfree dev a);;
         data ← blk (buf_data bp);
         blk (buf_store bp (wr 4 (4 * k) 0 data)));;
      trunc_slots below dev bp ks
  end.

(** The loop over the entries of block [a], read and released around it. *)
Definition trunc_block (below : Z → M (fs D) unit) (dev a : Z) : M (fs D) unit :=
  bp ← blk (bread dev a);
  trunc_slots below dev bp (seq 0 256);;
  blk (brelse bp).

(** One of the three indirect trees: [ip->addrs[k]]. *)
Definition trunc_tree (below : Z → M (fs D) unit) (ip k : nat) : M (fs D) unit :=
  x ← rdi ip;
  a ← of_option (i_addrs x !! k);
  when (bool_decide (a ≠ 0))
    (trunc_block below (i_dev x) a;;
     blk (bfree (i_dev x) a);;
     updi ip (λ x, set_addrs (<[k := 0]> (i_addrs x)) x)).

Definition itrunc (ip : nat) : M (fs D) unit :=
  x ← rdi ip;
  let dev := i_dev x in
  let leaf := λ _ : Z, mret tt in
  trunc_direct ip (seq 0 12);;
  trunc_tree leaf ip EXT2_IINDIRECT;;
  trunc_tree (trunc_block leaf dev) ip EXT2_IDINDIRECT;;
  trunc_tree (trunc_block (trunc_block leaf dev) dev) ip EXT2_ITINDIRECT;;
  updi ip (set_size 0);;
  iupdate ip.

(** ** Dropping references *)

Definition iput (ip : nat) : M (fs D) unit :=
  x ← rdi ip;
  pid ← gets curpid;
  when (bool_decide (i_ref x = 1 ∧ i_valid x = true ∧ i_nlink x = 0))
    (on_ilock ip (acquiresleep pid);;
     itrunc ip;;
     updi ip (set_type 0);;
     iupdate ip;;
     updi ip (set_valid false);;
     on_ilock ip releasesleep);;
  updi ip (λ x, set_ref (s32 (i_ref x - 1)) x).

Definition iunlockput (ip : nat) : M (fs D) unit := iunlock (Some ip);; iput ip.

(** [struct stat], in the order of its fields. *)
Record stat := MkStat { st_dev : Z; st_ino : Z; st_type : Z; st_nlink : Z; st_size : Z }.
Definition stati (ip : nat) : M (fs D) stat :=
  x ← rdi ip;
  mret (MkStat (s32 (i_dev x)) (i_inum x) (u16 (i_type x)) (i_nlink x) (i_size x)).

End ops.
End Inode.
