(* ===== verification/InodeSpec.v ===== *)
(** Correctness of the inode table and of reading and writing on-disk inodes. *)

From S2P Require Import Prelude Sleeplock BlockIO Balloc Inode.
Import Ext2 Inode.

Local Open Scope Z_scope.

Module InodeSpec.

(** * Stepping rules *)

Section rules.
Context {D : Type} {BIO : BlockIO D}.

Lemma wp_blk {A} (m : M D A) (Q : A → fs D → Prop) s :
  wp m (λ a t, Q a (with_io t s)) (io s) → wp (blk m) Q s.
Proof. apply wp_zoom. Qed.

Lemma wp_rdi ip x (Q : inode → fs D → Prop) s :
  itab s !! ip = Some x → Q x s → wp (rdi ip) Q s.
Proof. intros Hi HQ. unfold wp, rdi, mbind, M_bind, get. by rewrite Hi. Qed.

Lemma wp_updi ip f x (Q : unit → fs D → Prop) s :
  itab s !! ip = Some x → Q tt (with_itab (<[ip := f x]> (itab s)) s) → wp (updi ip f) Q s.
Proof. intros Hi HQ. unfold updi. apply wp_bind. eapply wp_rdi; [done|]. by apply wp_modify. Qed.

Lemma rdi_ok ip x (s : fs D) : itab s !! ip = Some x → rdi ip s = Ok x s.
Proof. intros Hi. unfold rdi, mbind, M_bind, get. by rewrite Hi. Qed.

Lemma updi_ok ip f x (s : fs D) :
  itab s !! ip = Some x → updi ip f s = Ok tt (with_itab (<[ip := f x]> (itab s)) s).
Proof. intros Hi. unfold updi, rdi, mbind, M_bind, get. by rewrite Hi. Qed.

Lemma wp_iacquire ip x pid (Q : unit → fs D → Prop) s :
  itab s !! ip = Some x → sl_locked (i_lock x) = false →
  Q tt (with_itab (<[ip := set_lock (MkSleeplock true pid) x]> (itab s)) s) →
  wp (on_ilock ip (acquiresleep pid)) Q s.
Proof.
  intros Hi Hl HQ. unfold on_ilock. apply wp_bind. eapply wp_rdi; [done|].
  apply wp_zoom. unfold acquiresleep. apply wp_bind, wp_get. by rewrite Hl.
Qed.

Lemma wp_irelease ip x (Q : unit → fs D → Prop) s :
  itab s !! ip = Some x →
  Q tt (with_itab (<[ip := set_lock (MkSleeplock false 0) x]> (itab s)) s) →
  wp (on_ilock ip releasesleep) Q s.
Proof.
  intros Hi HQ. unfold on_ilock. apply wp_bind. eapply wp_rdi; [done|].
  apply wp_zoom. by apply wp_put.
Qed.

Context {LAWS : BlockIOLaws D}.

Lemma wp_read_gdesc dev s d H tr (Q : list Z → fs D → Prop) :
  rep dev (io s) d H tr → is_Some (d !! 2) → not_held H 2 → (size H < NBUF)%nat →
  (∀ t, rep dev t d H tr → Q (gdesc d) (with_io t s)) → wp (read_gdesc dev) Q s.
Proof.
  intros Hr [gx Hgd] H2 Hroom HQ. unfold read_gdesc, gdesc in *. rewrite Hgd in HQ.
  apply wp_bind, wp_blk. eapply wp_bread; [done|by unfold blockno_ok|done..|]. intros h t1 Hh Hr1.
  apply wp_bind, wp_blk. eapply wp_buf_data; [done|by rewrite lookup_insert_eq|].
  apply wp_bind, wp_blk. eapply wp_brelse; [done|by rewrite lookup_insert_eq|done|].
  intros t2 Hr2. rewrite delete_insert_id in Hr2 by done. by apply wp_ret, HQ.
Qed.

End rules.

(** * References to table entries

    Which operations keep the identity and the reference count of every entry:
    everything but [iget], [idup] and [iput]. *)

Section ids.
Context {D : Type} {BIO : BlockIO D}.

Definition id_of (x : inode) : Z * Z * Z := (i_dev x, i_inum x, i_ref x).
Definition same_ids (s s' : fs D) : Prop := id_of <$> itab s' = id_of <$> itab s.
(** [m] keeps the identities and the current directory whenever it returns. *)
Definition keeps {A} (m : M (fs D) A) : Prop := ∀ s a s', m s = Ok a s' → same_ids s s' ∧ cwd s' = cwd s.

Lemma keeps_ret {A} (a : A) : keeps (mret a).
Proof. by intros s a' s' [= -> ->]. Qed.
Lemma keeps_bind {A B} (m : M (fs D) A) (f : A → M (fs D) B) :
  keeps m → (∀ a, keeps (f a)) → keeps (mbind f m).
Proof.
  intros Hm Hf s b s2. unfold mbind, M_bind. destruct (m s) as [a s1| | | |] eqn:E; try done.
  intros E2. destruct (Hm _ _ _ E) as [H1 H2], (Hf _ _ _ _ E2) as [H3 H4].
  unfold same_ids in *. split; congruence.
Qed.
Lemma keeps_gets {A} (f : fs D → A) : keeps (gets f).
Proof. by intros s a s' [= <- <-]. Qed.
Lemma keeps_get : keeps get.
Proof. by intros s a s' [= <- <-]. Qed.
Lemma keeps_panic {A} e : keeps (panic e : M (fs D) A).
Proof. by intros s a s'. Qed.
Lemma keeps_undef {A} : keeps (undef : M (fs D) A).
Proof. by intros s a s'. Qed.
Lemma keeps_nofuel {A} : keeps (nofuel : M (fs D) A).
Proof. by intros s a s'. Qed.
Lemma keeps_of_option {A} (o : option A) : keeps (of_option o).
Proof. destruct o; [apply keeps_ret|apply keeps_undef]. Qed.
Lemma keeps_when b (m : M (fs D) unit) : keeps m → keeps (when b m).
Proof. destruct b; [done|intros _; apply keeps_ret]. Qed.
Lemma keeps_if {A} (b : bool) (m k : M (fs D) A) : keeps m → keeps k → keeps (if b then m else k).
Proof. by destruct b. Qed.
Lemma keeps_blk {A} (m : M D A) : keeps (blk m).
Proof. intros s a s'. unfold blk, zoom. destruct (m (io s)); try done. by intros [= _ <-]. Qed.
Lemma keeps_rdi ip : keeps (rdi ip).
Proof. apply keeps_bind; [apply keeps_get|]. intros s. apply keeps_of_option. Qed.

Lemma same_ids_insert s ip x y :
  itab s !! ip = Some x → id_of y = id_of x → same_ids s (with_itab (<[ip := y]> (itab s)) s).
Proof.
  intros Hx Hid. unfold same_ids. simpl. rewrite list_fmap_insert, Hid.
  apply list_insert_id. by rewrite list_lookup_fmap, Hx.
Qed.

Lemma keeps_updi ip f : (∀ x, id_of (f x) = id_of x) → keeps (updi ip f).
Proof.
  intros Hf s a s'. unfold updi, rdi, mbind, M_bind, get.
  destruct (itab s !! ip) as [x|] eqn:Hx; [|done]. intros [= _ <-]. split; [by eapply same_ids_insert|done].
Qed.
Lemma keeps_on_ilock ip m : keeps (on_ilock ip m).
Proof.
  intros s a s'. unfold on_ilock, rdi, mbind, M_bind, get.
  destruct (itab s !! ip) as [x|] eqn:Hx; [|done]. simpl. unfold zoom.
  destruct (m (i_lock x)) as [u lk| | | |]; try done. intros [= _ <-].
  split; [by eapply same_ids_insert|done].
Qed.

End ids.

Create HintDb keeps.
#[export] Hint Resolve keeps_ret keeps_gets keeps_get keeps_panic keeps_undef keeps_nofuel
  keeps_of_option keeps_blk keeps_rdi keeps_on_ilock : keeps.
#[export] Hint Extern 3 (keeps (updi _ _)) => (apply keeps_updi; reflexivity) : keeps.
Ltac keeps_step :=
  intros; lazymatch goal with
  | |- keeps (mbind _ _) => apply keeps_bind
  | |- keeps (when _ _) => apply keeps_when
  | |- keeps (let _ := _ in _) => cbv zeta
  | |- keeps (if _ then _ else _) => apply keeps_if
  | |- keeps (match ?x with _ => _ end) => destruct x
  | |- _ => solve [auto with keeps]
  end.
Ltac keeps_tac := repeat keeps_step.

Section kept.
Context {D : Type} {BIO : BlockIO D}.

Lemma keeps_read_gdesc dev : keeps (read_gdesc (D := D) dev).
Proof. unfold read_gdesc. keeps_tac. Qed.
Hint Resolve keeps_read_gdesc : keeps.
Lemma keeps_rootilock ip : keeps (rootilock (D := D) ip).
Proof. unfold rootilock. keeps_tac. Qed.
Lemma keeps_ilock ip : keeps (ilock (D := D) ip).
Proof. unfold ilock. keeps_tac. Qed.
Lemma keeps_iunlock ip : keeps (iunlock (D := D) ip).
Proof. unfold iunlock. keeps_tac. Qed.
Lemma keeps_iupdate ip : keeps (iupdate (D := D) ip).
Proof. unfold iupdate. keeps_tac. Qed.
Lemma keeps_ialloc_block ip : keeps (ialloc_block (D := D) ip).
Proof. unfold ialloc_block. keeps_tac. Qed.
Hint Resolve keeps_rootilock keeps_ilock keeps_iunlock keeps_iupdate keeps_ialloc_block : keeps.
Lemma keeps_addr_slot ip k : keeps (addr_slot (D := D) ip k).
Proof. unfold addr_slot. keeps_tac. Qed.
Lemma keeps_ind_slot ip bp k : keeps (ind_slot (D := D) ip bp k).
Proof. unfold ind_slot. keeps_tac. Qed.
Hint Resolve keeps_addr_slot keeps_ind_slot : keeps.
Lemma keeps_bmap ip bn : keeps (bmap (D := D) ip bn).
Proof. unfold bmap. keeps_tac. Qed.
Lemma keeps_trunc_direct ip ks : keeps (trunc_direct (D := D) ip ks).
Proof. induction ks; cbn [trunc_direct]; keeps_tac. Qed.
Lemma keeps_trunc_slots below dev bp ks :
  (∀ a, keeps (below a)) → keeps (trunc_slots below dev bp ks).
Proof. intros Hb. induction ks; cbn [trunc_slots]; keeps_tac. Qed.
Lemma keeps_trunc_block below dev a : (∀ a, keeps (below a)) → keeps (trunc_block below dev a).
Proof. intros Hb. unfold trunc_block. pose proof keeps_trunc_slots. keeps_tac. Qed.
Lemma keeps_trunc_tree below ip k : (∀ a, keeps (below a)) → keeps (trunc_tree below ip k).
Proof. intros Hb. unfold trunc_tree. pose proof keeps_trunc_block. keeps_tac. Qed.
Hint Resolve keeps_trunc_direct keeps_trunc_block keeps_trunc_tree : keeps.
Lemma keeps_itrunc ip : keeps (itrunc (D := D) ip).
Proof. unfold itrunc. keeps_tac. Qed.
End kept.

#[export] Hint Resolve keeps_read_gdesc keeps_rootilock keeps_ilock keeps_iunlock keeps_iupdate
  keeps_bmap keeps_itrunc : keeps.

(** * The inode table *)

Definition is_inode (dev inum : Z) (x : inode) : Prop := i_dev x = dev ∧ i_inum x = inum.

#[export] Instance is_inode_dec dev inum x : Decision (is_inode dev inum x).
Proof. unfold is_inode. apply _. Defined.

Lemma iget_scan_spec dev inum l : ∀ i empty,
  match iget_scan dev inum l i empty with
  | inl ip => ∃ k x, ip = (i + k)%nat ∧ l !! k = Some x ∧ 0 < i_ref x ∧ is_inode dev inum x
  | inr r =>
      (∀ k x, l !! k = Some x → 0 < i_ref x → ¬ is_inode dev inum x) ∧
      match empty with
      | Some _ => r = empty
      | None => match r with
                | Some ip => ∃ k x, ip = (i + k)%nat ∧ l !! k = Some x ∧ i_ref x = 0
                | None => ∀ k x, l !! k = Some x → i_ref x ≠ 0
                end
      end
  end.
Proof.
  induction l as [|x l IH]; intros i empty; cbn [iget_scan].
  { split; [intros k x Hk; by rewrite lookup_nil in Hk|].
    destruct empty; [done|]. intros k x Hk. by rewrite lookup_nil in Hk. }
  case_bool_decide as Hx.
  { destruct Hx as (? & ? & ?). exists 0%nat, x. split_and!; [lia|done..]. }
  specialize (IH (S i) (if bool_decide (empty = None ∧ i_ref x = 0) then Some i else empty)).
  destruct (iget_scan _ _ _ _ _) as [ip|r].
  - destruct IH as (k & y & -> & ? & ?). exists (S k), y. split; [lia|done].
  - destruct IH as [Hno IH]. split.
    { intros [|k] y; cbn [lookup list_lookup]; [|eauto]. intros [= <-] ? [? ?]. naive_solver. }
    destruct empty as [e|].
    { by rewrite bool_decide_false in IH by naive_solver. }
    case_bool_decide as Hz.
    + subst r. exists 0%nat, x. split_and!; [lia|done|apply Hz].
    + destruct r as [ip|].
      * destruct IH as (k & y & -> & ? & ?). exists (S k), y. split; [lia|done].
      * intros [|k] y; cbn [lookup list_lookup]; [|eauto]. intros [= <-] ?. naive_solver.
Qed.

Section table.
Context {D : Type} {BIO : BlockIO D}.

(** [R ip] is the number of references to entry [ip] that the kernel holds. *)
Definition refs := nat → Z.
Definition add_ref (k : Z) (ip : nat) (R : refs) : refs :=
  λ i, if decide (i = ip) then R i + k else R i.

Inductive ref_step : fs D * refs → fs D * refs → Prop :=
  | rs_iget s s' R dev inum ip :
      iget dev inum s = Ok ip s' → R ip + 1 < 2 ^ 31 → ref_step (s, R) (s', add_ref 1 ip R)
  | rs_idup s s' R ip :
      0 < R ip → idup ip s = Ok ip s' → R ip + 1 < 2 ^ 31 → ref_step (s, R) (s', add_ref 1 ip R)
  | rs_iput s s' R ip :
      0 < R ip → iput ip s = Ok tt s' → ref_step (s, R) (s', add_ref (-1) ip R)
  | rs_ilock s s' R ip : ilock ip s = Ok tt s' → ref_step (s, R) (s', R)
  | rs_rootilock s s' R ip : rootilock ip s = Ok tt s' → ref_step (s, R) (s', R)
  | rs_iunlock s s' R ip : iunlock ip s = Ok tt s' → ref_step (s, R) (s', R)
  | rs_iupdate s s' R ip : iupdate ip s = Ok tt s' → ref_step (s, R) (s', R)
  | rs_bmap s s' R ip bn a : bmap ip bn s = Ok a s' → ref_step (s, R) (s', R)
  | rs_itrunc s s' R ip : itrunc ip s = Ok tt s' → ref_step (s, R) (s', R).

(** Counts are exact, and two entries in use hold different inodes. *)
Record refs_ok (s : fs D) (R : refs) : Prop := {
  ro_len : length (itab s) = NINODE;
  ro_cnt i x : itab s !! i = Some x → i_ref x = R i ∧ 0 ≤ R i < 2 ^ 31;
  ro_out i : (NINODE ≤ i)%nat → R i = 0;
  ro_uniq i j x y : itab s !! i = Some x → itab s !! j = Some y → 0 < i_ref x → 0 < i_ref y →
    is_inode (i_dev x) (i_inum x) y → i = j;
}.

Lemma same_ids_lookup (s s' : fs D) i y :
  same_ids s s' → itab s' !! i = Some y → ∃ x, itab s !! i = Some x ∧ id_of x = id_of y.
Proof.
  intros Hs Hi. unfold same_ids in Hs.
  assert (H : (id_of <$> itab s') !! i = Some (id_of y)) by (by rewrite list_lookup_fmap, Hi).
  rewrite Hs, list_lookup_fmap in H. destruct (itab s !! i) as [x|]; [|done].
  simpl in H. injection H as H. exists x. split; [done|]. unfold id_of. congruence.
Qed.

Lemma same_ids_sym (s s' : fs D) : same_ids s s' → same_ids s' s.
Proof. by unfold same_ids. Qed.

Lemma refs_ok_same s s' R : refs_ok s R → same_ids s s' → refs_ok s' R.
Proof.
  intros [Hlen Hcnt Hout Huniq] Hs. constructor; [| |done|].
  - rewrite <-(length_fmap id_of), Hs. by rewrite length_fmap.
  - intros i y Hi. destruct (same_ids_lookup _ _ _ _ Hs Hi) as (x & Hx & [= ? ? Hr]).
    rewrite <-Hr. by apply Hcnt.
  - intros i j x y Hi Hj Hx Hy [Hd Hn].
    destruct (same_ids_lookup _ _ _ _ Hs Hi) as (x0 & Hx0 & [= ? ? ?]).
    destruct (same_ids_lookup _ _ _ _ Hs Hj) as (y0 & Hy0 & [= ? ? ?]).
    eapply Huniq; [done..|lia|lia|]. split; congruence.
Qed.

Lemma refs_ok_ext s R R' : (∀ i, R i = R' i) → refs_ok s R → refs_ok s R'.
Proof.
  intros He [H1 H2 H3 H4]. split; [done| | |done].
  - intros i x Hi. rewrite <-He. by apply H2.
  - intros i Hi. rewrite <-He. by apply H3.
Qed.

(** Changing the count of one entry. *)
Lemma refs_ok_count s R ip x k :
  refs_ok s R → itab s !! ip = Some x → 0 < R ip → 0 ≤ R ip + k < 2 ^ 31 →
  refs_ok (with_itab (<[ip := set_ref (R ip + k) x]> (itab s)) s) (add_ref k ip R).
Proof.
  intros [Hlen Hcnt Hout Huniq] Hx H0 Hk. unfold add_ref. constructor; simpl.
  - by rewrite length_insert.
  - intros i y Hi. apply list_lookup_insert_Some in Hi as [(-> & <- & _)|[Hne Hi]].
    + rewrite decide_True by done. done.
    + rewrite decide_False by done. by apply Hcnt.
  - intros i Hi. rewrite decide_False; [by apply Hout|]. intros ->.
    apply lookup_lt_Some in Hx. lia.
  - intros i j y z Hi Hj Hy Hz Hid.
    apply list_lookup_insert_Some in Hi as [(-> & <- & _)|[Hni Hi]];
      apply list_lookup_insert_Some in Hj as [(-> & <- & _)|[Hnj Hj]]; [done|..].
    + eapply (Huniq _ _ x z); [done..| |done|done]. apply Hcnt in Hx. lia.
    + eapply (Huniq _ _ y x); [done..| |done]. apply Hcnt in Hx. lia.
    + by eapply (Huniq _ _ y z).
Qed.

(** The three outcomes of [iget]. *)
Lemma iget_run s R dev inum :
  refs_ok s R →
  (∃ ip x, itab s !! ip = Some x ∧ 0 < i_ref x ∧ is_inode dev inum x ∧
     iget dev inum s = Ok ip (with_itab (<[ip := set_ref (s32 (i_ref x + 1)) x]> (itab s)) s)) ∨
  (∃ ip x, itab s !! ip = Some x ∧ i_ref x = 0 ∧
     (∀ j y, itab s !! j = Some y → 0 < i_ref y → ¬ is_inode dev inum y) ∧
     iget dev inum s = Ok ip (with_itab
       (<[ip := set_valid false (set_ref 1 (set_id dev inum x))]> (itab s)) s)) ∨
  ((∀ j y, itab s !! j = Some y → 0 < i_ref y ∧ ¬ is_inode dev inum y) ∧
     iget dev inum s = Panic "iget: no inodes").
Proof.
  intros Hok. pose proof (iget_scan_spec dev inum (itab s) 0 None) as Hscan.
  unfold iget. run. destruct (iget_scan dev inum (itab s) 0 None) as [ip|[ip|]].
  - left. destruct Hscan as (k & x & -> & Hx & Hr & Hid). exists k, x. cbn [Nat.add].
    split_and!; [done|done|apply Hid..|]. by erewrite bind_ok by (by apply updi_ok).
  - right; left. destruct Hscan as (Hno & k & x & -> & Hx & Hr). exists k, x. cbn [Nat.add].
    split_and!; [done..|]. by erewrite bind_ok by (by apply updi_ok).
  - right; right. destruct Hscan as (Hno & Hall). split; [|done]. intros j y Hj.
    assert (0 < i_ref y); [|by eauto]. specialize (Hall j y Hj).
    destruct (ro_cnt _ _ Hok j y Hj). lia.
Qed.

(** Giving a free entry to an inode that no entry in use holds. *)
Lemma refs_ok_recycle s R ip x dev inum :
  refs_ok s R → itab s !! ip = Some x → i_ref x = 0 →
  (∀ j y, itab s !! j = Some y → 0 < i_ref y → ¬ is_inode dev inum y) →
  refs_ok (with_itab (<[ip := set_valid false (set_ref 1 (set_id dev inum x))]> (itab s)) s)
    (add_ref 1 ip R).
Proof.
  intros [Hlen Hcnt Hout Huniq] Hx Hr Hno. unfold add_ref. constructor; simpl.
  - by rewrite length_insert.
  - intros i y Hi. apply list_lookup_insert_Some in Hi as [(-> & <- & _)|[Hne Hi]].
    + rewrite decide_True by done. apply Hcnt in Hx. simpl. lia.
    + rewrite decide_False by done. by apply Hcnt.
  - intros i Hi. rewrite decide_False; [by apply Hout|]. intros ->.
    apply lookup_lt_Some in Hx. lia.
  - intros i j y z Hi Hj Hy Hz Hid.
    apply list_lookup_insert_Some in Hi as [(-> & <- & _)|[Hni Hi]];
      apply list_lookup_insert_Some in Hj as [(-> & <- & _)|[Hnj Hj]]; [done|..].
    + by destruct (Hno j z Hj Hz).
    + destruct (Hno i y Hi Hy). destruct Hid as [Hd Hn]. by split.
    + by eapply (Huniq _ _ y z).
Qed.

(** [iput] works on entries in place and then drops one reference. *)
Lemma iput_inv s s' ip :
  iput ip s = Ok tt s' → ∃ s1 x, same_ids s s1 ∧ cwd s1 = cwd s ∧ itab s1 !! ip = Some x ∧
    s' = with_itab (<[ip := set_ref (s32 (i_ref x - 1)) x]> (itab s1)) s1.
Proof.
  unfold iput. intros (x & s0 & Hx & Hrun)%bind_inv.
  unfold rdi, mbind, M_bind, get in Hx. destruct (itab s !! ip) as [y|]; [|done].
  injection Hx as <- <-. apply bind_inv in Hrun as (pid & s1 & Hp & Hrun).
  injection Hp as <- <-. apply bind_inv in Hrun as ([] & s1 & Hrun1 & Hrun).
  assert (Hs : same_ids s s1 ∧ cwd s1 = cwd s).
  { revert Hrun1. match goal with |- ?m s = _ → _ => assert (Hk : keeps m) by keeps_tac end.
    intros Hr. apply (Hk _ _ _ Hr). }
  unfold updi in Hrun. apply bind_inv in Hrun as (z & s2 & Hz & Hrun).
  unfold rdi, mbind, M_bind, get in Hz. destruct (itab s1 !! ip) as [w|] eqn:Hw; [|done].
  injection Hz as <- <-. injection Hrun as <-. destruct Hs. by exists s1, w.
Qed.

Lemma ref_step_ok c c' : refs_ok c.1 c.2 → ref_step c c' → refs_ok c'.1 c'.2.
Proof.
  intros Hok Hs. destruct Hs as
    [s s' R dev inum ip Hrun Hb|s s' R ip H0 Hrun Hb|s s' R ip H0 Hrun|s s' R ip Hrun|s s' R ip Hrun
    |s s' R ip Hrun|s s' R ip Hrun|s s' R ip bn a Hrun|s s' R ip Hrun]; cbn [fst snd] in *;
    try (eapply refs_ok_same; [done|]; revert Hrun;
         match goal with |- ?m _ = _ → _ => assert (Hk : keeps m) by auto with keeps end;
         let Hr := fresh in intros Hr; apply (Hk _ _ _ Hr)).
  - destruct (iget_run s R dev inum Hok) as
      [(i & x & Hx & Hr & Hid & E)|[(i & x & Hx & Hr & Hno & E)|[_ E]]];
      rewrite E in Hrun; [|injection Hrun as <- <-; by apply refs_ok_recycle|done].
    injection Hrun as <- <-. destruct (ro_cnt _ _ Hok i x Hx) as [Hri Hrb].
    rewrite Hri, s32_id by lia. apply refs_ok_count; [done..|lia|lia].
  - unfold idup, mbind, M_bind, updi, rdi, mbind, M_bind, get in Hrun.
    destruct (itab s !! ip) as [x|] eqn:Hx; [|done]. simpl in Hrun. injection Hrun as <-.
    destruct (ro_cnt _ _ Hok ip x Hx) as [-> Hrb]. rewrite s32_id by lia.
    apply refs_ok_count; [done..|lia].
  - apply iput_inv in Hrun as (s1 & x & Hsame & _ & Hx & ->).
    pose proof (refs_ok_same _ _ _ Hok Hsame) as Hok1.
    destruct (ro_cnt _ _ Hok1 ip x Hx) as [-> Hrb]. rewrite s32_id by lia.
    apply refs_ok_count; [done..|lia].
Qed.

Lemma ref_steps_ok c c' : refs_ok c.1 c.2 → rtc ref_step c c' → refs_ok c'.1 c'.2.
Proof. intros H0 Hs. revert H0. induction Hs; eauto using ref_step_ok. Qed.

(** Entries other than the one an operation returns or drops keep their
    identity. *)
Lemma iget_keeps_others s R dev inum ip s' j y :
  refs_ok s R → iget dev inum s = Ok ip s' → 0 < R j → itab s !! j = Some y →
  ∃ y', itab s' !! j = Some y' ∧ is_inode (i_dev y) (i_inum y) y'.
Proof.
  intros Hok Hrun Hj Hy. destruct (ro_cnt _ _ Hok j y Hy) as [Hrj _].
  pose proof (lookup_lt_Some _ _ _ Hy) as Hlt.
  destruct (iget_run s R dev inum Hok) as
    [(i & x & Hx & Hr & Hid & E)|[(i & x & Hx & Hr & Hno & E)|[_ E]]];
    rewrite E in Hrun; [injection Hrun as <- <-..|done]; simpl;
    (destruct (decide (i = j)) as [->|Hne];
     [rewrite list_lookup_insert_eq by done|rewrite list_lookup_insert_ne by done; by eexists]).
  - eexists. split; [done|]. split; simpl; congruence.
  - exfalso. rewrite Hx in Hy. injection Hy as ->. lia.
Qed.

End table.

Section table_claim.
Context {D : Type} {BIO : BlockIO D}.

(** C14: inode handles are sound.  After any sequence of [iget], [idup], [iput]
    and of the operations that lock, read, write or truncate inodes, starting
    from a consistent table: the reference count of every entry is the number
    of references held, no two entries in use hold the same inode, and [iget]
    either returns an entry that holds the requested inode - the very entry
    other holders of that inode have - while every entry somebody refers to
    keeps its inode, or panics because all fifty entries are in use by other
    inodes. *)
Theorem inode_handles_sound (s0 : fs D) R0 s R :
  refs_ok s0 R0 → rtc ref_step (s0, R0) (s, R) →
  (∀ ip x, itab s !! ip = Some x → i_ref x = R ip) ∧
  (∀ ip jp x y, itab s !! ip = Some x → itab s !! jp = Some y → 0 < R ip → 0 < R jp →
     i_dev x = i_dev y → i_inum x = i_inum y → ip = jp) ∧
  (∀ dev inum,
     (∃ ip s' x, iget dev inum s = Ok ip s' ∧ itab s' !! ip = Some x ∧ is_inode dev inum x ∧
        (∀ jp y, 0 < R jp → itab s !! jp = Some y →
           (is_inode dev inum y → jp = ip) ∧
           ∃ y', itab s' !! jp = Some y' ∧ is_inode (i_dev y) (i_inum y) y')) ∨
     (iget dev inum s = Panic "iget: no inodes" ∧
      ∀ jp y, itab s !! jp = Some y → 0 < R jp ∧ ¬ is_inode dev inum y)).
Proof.
  intros H0 Hs. pose proof (ref_steps_ok (s0, R0) (s, R) H0 Hs) as Hok. cbn [fst snd] in Hok.
  split; [|split].
  - intros ip x Hx. by destruct (ro_cnt _ _ Hok ip x Hx).
  - intros ip jp x y Hx Hy Hi Hj Hd Hn. eapply (ro_uniq _ _ Hok); [done..|idtac|idtac|done].
    + by destruct (ro_cnt _ _ Hok ip x Hx) as [-> _].
    + by destruct (ro_cnt _ _ Hok jp y Hy) as [-> _].
  - intros dev inum. destruct (iget_run s R dev inum Hok) as
      [(i & x & Hx & Hr & Hid & E)|[(i & x & Hx & Hr & Hno & E)|[Hall E]]]; [left|left|right].
    + eexists i, _, _. split; [exact E|]. simpl.
      split; [apply list_lookup_insert_eq; by eapply lookup_lt_Some|]. split; [done|].
      intros jp y Hj Hy. split; [|exact (iget_keeps_others _ _ _ _ _ _ _ _ Hok E Hj Hy)]. intros Hidy.
      destruct Hid, Hidy. eapply (ro_uniq _ _ Hok jp i y x); [done..| |done|].
      * by destruct (ro_cnt _ _ Hok jp y Hy) as [-> _].
      * split; congruence.
    + eexists i, _, _. split; [exact E|]. simpl.
      split; [apply list_lookup_insert_eq; by eapply lookup_lt_Some|]. split; [done|].
      intros jp y Hj Hy. split; [|exact (iget_keeps_others _ _ _ _ _ _ _ _ Hok E Hj Hy)]. intros Hidy.
      destruct (Hno jp y Hy); [|done]. by destruct (ro_cnt _ _ Hok jp y Hy) as [-> _].
    + split; [done|]. intros jp y Hy. destruct (Hall jp y Hy).
      by destruct (ro_cnt _ _ Hok jp y Hy) as [<- _].
Qed.

End table_claim.
End InodeSpec.
