(* ===== verification/DiskInode.v ===== *)
(** On-disk inodes: what [ilock] reads, what [iupdate] writes, and how the two
    fit together; what [ialloc] leaves on the disk. *)

From S2P Require Import Prelude Sleeplock BlockIO Balloc Inode InodeSpec.
Import Ext2 Inode InodeSpec.

Local Open Scope Z_scope.

Module DiskInode.

(** The block and the byte offset at which [ilock] and [iupdate] find inode
    [inum], and the structure there. *)
Definition inode_block (d : disk_map) (inum : Z) : Z := inode_table (gdesc d) + (inum - 1) / 8.
Definition inode_off (inum : Z) : nat := Z.to_nat ((inum - 1) mod 8 * 128).
Definition dinode_at (d : disk_map) (inum : Z) : list Z :=
  match d !! inode_block d inum with
  | Some x => slice (inode_off inum) sizeof_dinode x
  | None => []
  end.

(** [inum] is an inode number of the disk. *)
Definition inum_ok (d : disk_map) (inum : Z) : Prop :=
  1 ≤ inum < 2 ^ 31 ∧ is_Some (d !! 2) ∧ blockno_ok (inode_block d inum) ∧
  is_Some (d !! inode_block d inum).

Lemma inode_off_bound inum : (inode_off inum + sizeof_dinode ≤ BSIZE)%nat.
Proof. unfold inode_off, sizeof_dinode, BSIZE. zlia. Qed.

(** ** Structure copies *)

Lemma length_concat_le_to n l : length (concat (le_to n <$> l)) = (n * length l)%nat.
Proof.
  induction l as [|a l IH]; [simpl; lia|]. rewrite fmap_cons. cbn [concat length].
  rewrite length_app, length_le_to, IH. lia.
Qed.

Lemma bytes_concat_le_to n l : bytes (concat (le_to n <$> l)).
Proof.
  induction l as [|a l IH]; [constructor|]. rewrite fmap_cons. cbn [concat].
  rewrite bytes_app. auto using bytes_le_to.
Qed.

(** A copy of the structure in memory. *)
Definition dinode_like (l : list Z) : Prop := length l = sizeof_dinode.

Lemma dinode_like_wr n off z l :
  dinode_like l → (off + n ≤ sizeof_dinode)%nat → dinode_like (wr n off z l).
Proof. unfold dinode_like. intros Hl Ho. rewrite length_wr; lia. Qed.
Lemma dinode_like_if (b : bool) l k : dinode_like l → dinode_like k → dinode_like (if b then l else k).
Proof. by destruct b. Qed.

Ltac like := repeat first [assumption|apply dinode_like_if
  |apply dinode_like_wr; [|unfold sizeof_dinode; lia]].

(** Reading a field of a structure in which a field was written. *)
Lemma fld_eq n off z l :
  dinode_like l → (off + n ≤ sizeof_dinode)%nat → rd n off (wr n off z l) = z mod 2 ^ (8 * Z.of_nat n).
Proof. unfold dinode_like. intros Hl Ho. apply rd_wr_eq. lia. Qed.
Lemma fld_ne n off z l n' off' :
  dinode_like l → (off + n ≤ sizeof_dinode)%nat → (off' + n' ≤ off ∨ off + n ≤ off')%nat →
  rd n' off' (wr n off z l) = rd n' off' l.
Proof. unfold dinode_like. intros Hl Ho Hd. apply rd_wr_ne; lia. Qed.
Lemma rd_splice_ne off bs l n' off' :
  (off + length bs ≤ length l)%nat → (off' + n' ≤ off ∨ off + length bs ≤ off')%nat →
  rd n' off' (splice off bs l) = rd n' off' l.
Proof. intros. unfold rd. by rewrite slice_splice_ne. Qed.

Ltac fld := repeat first
  [rewrite fld_eq by (like || (unfold sizeof_dinode; lia))
  |rewrite fld_ne by (like || (unfold sizeof_dinode; lia))].

Lemma addr_bytes_8 l : length l = 15%nat → length (take sizeof_pointer (addr_bytes l)) = 8%nat.
Proof. intros Hl. unfold addr_bytes, sizeof_pointer. rewrite length_take, length_concat_le_to. lia. Qed.

(** The fields before the block addresses are copied. *)
Definition dinode_fields (x : inode) (din : list Z) : list Z :=
  let din := if bool_decide (i_type x = T_DIR) then wr 2 0 EXT2_T_DIR din else din in
  let din := if bool_decide (i_type x = T_FILE) then wr 2 0 EXT2_T_FILE din else din in
  wr 4 8 0 (wr 2 2 0 (wr 4 16 0 (wr 2 24 0 (wr 4 100 0 (wr 4 32 0 (wr 4 104 0 (wr 4 112 0
    (wr 4 20 0 (wr 4 4 (i_size x) (wr 2 26 (i_nlink x) din)))))))))).

Lemma dinode_of_fields x din :
  dinode_of x din = splice 40 (take sizeof_pointer (addr_bytes (i_addrs x))) (dinode_fields x din).
Proof. reflexivity. Qed.

Lemma dinode_fields_like x din : dinode_like din → dinode_like (dinode_fields x din).
Proof. intros. unfold dinode_fields. cbv zeta. like. Qed.

Lemma dinode_of_like x din :
  dinode_like din → length (i_addrs x) = 15%nat → dinode_like (dinode_of x din).
Proof.
  intros Hd Ha. rewrite dinode_of_fields. pose proof (dinode_fields_like x din Hd) as Hf.
  unfold dinode_like in *. rewrite length_splice; [done|]. rewrite addr_bytes_8, Hf by done.
  unfold sizeof_dinode. lia.
Qed.

Lemma dinode_of_bytes x din : bytes din → bytes (dinode_of x din).
Proof.
  intros. apply bytes_splice; [apply bytes_take, bytes_concat_le_to|].
  repeat case_bool_decide; auto 20 with blk.
Qed.

Lemma rd_dinode_of n off x din :
  dinode_like din → length (i_addrs x) = 15%nat → (off + n ≤ 40 ∨ 48 ≤ off)%nat →
  rd n off (dinode_of x din) = rd n off (dinode_fields x din).
Proof.
  intros Hd Ha Ho. rewrite dinode_of_fields. pose proof (dinode_fields_like x din Hd) as Hf.
  apply rd_splice_ne; rewrite addr_bytes_8 by done; unfold dinode_like in *;
    rewrite ?Hf; unfold sizeof_dinode; lia.
Qed.

Lemma rd_fields_block k x din :
  dinode_like din → (k < 15)%nat →
  rd 4 (40 + 4 * k) (dinode_fields x din) = rd 4 (40 + 4 * k) din.
Proof.
  intros Hd Hk. unfold dinode_fields. cbv zeta. fld.
  repeat case_bool_decide; fld; done.
Qed.

Lemma slice_app_l off n l k : (off + n ≤ length l)%nat → slice off n (l ++ k) = slice off n l.
Proof. intros. unfold slice. rewrite drop_app_le, take_app_le by (rewrite ?length_drop; lia). done. Qed.

Lemma rd_addr_bytes k l a :
  l !! k = Some a → is_u32 a → rd 4 (4 * k) (addr_bytes l) = a.
Proof.
  revert k. induction l as [|b l IH]; intros k; [by rewrite lookup_nil|].
  unfold addr_bytes, rd in *. rewrite fmap_cons. cbn [concat]. destruct k as [|k]; cbn [lookup list_lookup].
  - intros [= ->] Ha. rewrite slice_app_l by (rewrite length_le_to; lia).
    unfold slice. rewrite drop_0, take_ge by (rewrite length_le_to; lia).
    rewrite le_of_to. apply Z.mod_small. apply Ha.
  - intros Hk Ha. etransitivity; [|exact (IH k Hk Ha)]. f_equal. unfold slice. f_equal.
    rewrite drop_app_ge by (rewrite length_le_to; lia). rewrite length_le_to. f_equal. lia.
Qed.

(** The block addresses after [iupdate]: the first two are the inode's, the
    other thirteen are the ones that were on the disk. *)
Lemma di_block_dinode_of x din :
  dinode_like din → length (i_addrs x) = 15%nat → Forall is_u32 (i_addrs x) →
  di_block (dinode_of x din) = take 2 (i_addrs x) ++ drop 2 (di_block din).
Proof.
  intros Hd Ha Hu. pose proof (dinode_fields_like x din Hd) as Hf.
  assert (Hlow : ∀ k a, (k < 2)%nat → i_addrs x !! k = Some a →
    rd 4 (40 + 4 * k) (dinode_of x din) = a).
  { intros k a Hk Hka. rewrite dinode_of_fields. unfold rd, splice, slice.
    rewrite drop_app_ge by (rewrite length_take, Hf; unfold sizeof_dinode; lia).
    rewrite length_take, Hf, Nat.min_l by (unfold sizeof_dinode; lia).
    replace (40 + 4 * k - 40)%nat with (4 * k)%nat by lia.
    rewrite <-(rd_addr_bytes k (i_addrs x) a) by
      (done || by eapply (Forall_lookup_1 is_u32)). unfold rd, slice. f_equal.
    rewrite drop_app_le by (rewrite addr_bytes_8; lia).
    rewrite take_app_le by (rewrite length_drop, addr_bytes_8; lia).
    unfold sizeof_pointer. rewrite skipn_firstn_comm, take_take. f_equal. lia. }
  assert (Hhigh : ∀ k, (2 ≤ k < 15)%nat →
    rd 4 (40 + 4 * k) (dinode_of x din) = rd 4 (40 + 4 * k) din).
  { intros k Hk. rewrite rd_dinode_of by (done || lia). by apply rd_fields_block; [|lia]. }
  unfold di_block. apply list_eq. intros k. rewrite list_lookup_fmap.
  destruct (decide (k < 15)%nat) as [Hk|Hk].
  - rewrite lookup_seq_lt by done. cbn [fmap option_fmap option_map Nat.add].
    destruct (decide (k < 2)%nat) as [Hk2|Hk2].
    + rewrite lookup_app_l, lookup_take_lt by (rewrite ?length_take; lia).
      destruct (lookup_lt_is_Some_2 (i_addrs x) k) as [a Hka]; [lia|].
      rewrite Hka. f_equal. by apply Hlow.
    + rewrite lookup_app_r, length_take, Nat.min_l, lookup_drop by (rewrite ?length_take; lia).
      replace (2 + (k - 2))%nat with k by lia.
      rewrite list_lookup_fmap, lookup_seq_lt by done. cbn [fmap option_fmap option_map Nat.add].
      f_equal. apply Hhigh. lia.
  - rewrite lookup_seq_ge by lia. symmetry. apply lookup_ge_None.
    rewrite length_app, length_take, length_drop, length_fmap, length_seq. lia.
Qed.

Lemma di_mode_dinode_of x din :
  dinode_like din → length (i_addrs x) = 15%nat →
  di_mode (dinode_of x din) =
    if bool_decide (i_type x = T_FILE) then EXT2_T_FILE
    else if bool_decide (i_type x = T_DIR) then EXT2_T_DIR else di_mode din.
Proof.
  intros Hd Ha. unfold di_mode. rewrite rd_dinode_of by (done || lia).
  unfold dinode_fields. cbv zeta. fld. by repeat case_bool_decide; fld.
Qed.

Lemma di_size_dinode_of x din :
  dinode_like din → length (i_addrs x) = 15%nat → is_u32 (i_size x) →
  di_size (dinode_of x din) = i_size x.
Proof.
  intros Hd Ha Hu. unfold di_size. rewrite rd_dinode_of by (done || lia).
  unfold dinode_fields. cbv zeta. fld. apply Z.mod_small, Hu.
Qed.

Lemma di_links_dinode_of x din :
  dinode_like din → length (i_addrs x) = 15%nat → - 2 ^ 15 ≤ i_nlink x < 2 ^ 15 →
  s16 (di_links_count (dinode_of x din)) = i_nlink x.
Proof.
  intros Hd Ha Hn. unfold di_links_count. rewrite rd_dinode_of by (done || lia).
  unfold dinode_fields. cbv zeta. fld. by apply s16_u16.
Qed.

(** A well-formed in-memory inode. *)
Record inode_wf (x : inode) : Prop := {
  iw_addrs : length (i_addrs x) = 15%nat;
  iw_u32 : Forall is_u32 (i_addrs x);
  iw_size : is_u32 (i_size x);
  iw_nlink : - 2 ^ 15 ≤ i_nlink x < 2 ^ 15;
}.

Lemma fill_dinode_of x din y :
  dinode_like din → inode_wf x → i_type x = T_DIR ∨ i_type x = T_FILE →
  fill (dinode_of x din) y =
    set_valid true (set_addrs (take 2 (i_addrs x) ++ drop 2 (di_block din))
      (set_size (i_size x) (set_nlink (i_nlink x) (set_dev_numbers 0 0 (set_type (i_type x) y))))).
Proof.
  intros Hd [Ha Hu Hs Hn] Ht. unfold fill. cbv zeta.
  rewrite di_mode_dinode_of, di_size_dinode_of, di_links_dinode_of, di_block_dinode_of by done.
  by destruct Ht as [-> | ->].
Qed.

Lemma fill_wf din y : length din = sizeof_dinode → bytes din → inode_wf (fill din y).
Proof.
  intros Hl Hb. unfold sizeof_dinode in Hl. constructor.
  - change (i_addrs (fill din y)) with (di_block din). unfold di_block.
    by rewrite length_fmap, length_seq.
  - change (i_addrs (fill din y)) with (di_block din). unfold di_block.
    apply Forall_fmap, Forall_forall. intros k Hk%elem_of_seq. apply (rd_range 4); [done|lia].
  - change (i_size (fill din y)) with (di_size din). apply (rd_range 4); [done|lia].
  - change (i_nlink (fill din y)) with (s16 (di_links_count din)). unfold s16. zlia.
Qed.

(** * The two operations on the disk *)

Section disk.
Context {D : Type} {BIO : BlockIO D} {LAWS : BlockIOLaws D}.

Lemma dinode_at_block dev t d H tr inum :
  rep dev t d H tr → inum_ok d inum →
  ∃ blk, d !! inode_block d inum = Some blk ∧ is_block blk ∧
    dinode_at d inum = slice (inode_off inum) sizeof_dinode blk.
Proof.
  intros Hr (_ & _ & _ & [b Hb]). exists b. unfold dinode_at. rewrite Hb.
  eauto using rep_block.
Qed.

Lemma dinode_at_like dev t d H tr inum :
  rep dev t d H tr → inum_ok d inum → dinode_like (dinode_at d inum) ∧ bytes (dinode_at d inum).
Proof.
  intros Hr Hi. destruct (dinode_at_block _ _ _ _ _ _ Hr Hi) as (b & _ & [Hl Hb] & ->).
  split; [|by apply bytes_slice]. apply length_slice. rewrite Hl. apply inode_off_bound.
Qed.

Lemma inode_table_range dev t d H tr :
  rep dev t d H tr → is_Some (d !! 2) → is_u32 (inode_table (gdesc d)).
Proof. intros. eapply gdesc_field_range; [done..|lia]. Qed.

(** What a client of the inode layer needs to read or write inode [inum]. *)
Record inode_access (d : disk_map) (H : held_map) (inum : Z) : Prop := {
  ia_ok : inum_ok d inum;
  ia_2 : not_held H 2;
  ia_blk : not_held H (inode_block d inum);
  ia_room : (size H < NBUF)%nat;
}.

Definition locked_by (pid : Z) (d : disk_map) (x : inode) : inode :=
  let x1 := set_lock (MkSleeplock true pid) x in
  if i_valid x then x1 else fill (dinode_at d (i_inum x)) x1.

Lemma ilock_spec dev s d H tr ip x :
  rep dev (io s) d H tr → itab s !! ip = Some x → i_dev x = dev → 0 < i_ref x →
  sl_locked (i_lock x) = false → (i_valid x = false → inode_access d H (i_inum x)) →
  wp (ilock (Some ip)) (λ _ s', ∃ t, rep dev t d H tr ∧
    s' = with_io t (with_itab (<[ip := locked_by (curpid s) d x]> (itab s)) s)) s.
Proof.
  intros Hr Hx Hdev Href Hun Hacc. pose proof (lookup_lt_Some _ _ _ Hx) as Hlt.
  unfold ilock. apply wp_bind. eapply wp_rdi; [done|]. rewrite bool_decide_false by lia.
  apply wp_bind, wp_gets. apply wp_bind. eapply wp_iacquire; [done..|].
  apply wp_bind. eapply wp_rdi; [by apply list_lookup_insert_eq|]. cbn [i_valid set_lock i_dev i_inum].
  unfold locked_by. destruct (i_valid x) eqn:Hv; [apply wp_ret; exists (io s); auto|].
  destruct (Hacc eq_refl) as [Hok H2 Hb Hroom]. rewrite Hdev.
  destruct (dinode_at_block _ _ _ _ _ _ Hr Hok) as (b & Hblk & Hbb & Hdin).
  pose proof Hok as (Hi & Hd2 & Hbok & _). pose proof (inode_table_range _ _ _ _ _ Hr Hd2) as Hit.
  apply wp_bind. eapply wp_read_gdesc; [exact Hr|done..|]. intros t1 Hr1.
  rewrite (s32_id (i_inum x - 1)) by lia. change (Z.of_nat BSIZE / INODESIZE) with 8.
  rewrite Z.quot_div_nonneg, Z.rem_mod_nonneg by lia.
  assert (Hbno : u32 (s32 (inode_table (gdesc d) + (i_inum x - 1) / 8)) = inode_block d (i_inum x)).
  { unfold blockno_ok, inode_block in *. wrap_lia. }
  cbv zeta. rewrite Hbno. apply wp_bind, wp_blk.
  eapply wp_bread; [exact Hr1|done..|]. intros h t2 Hh Hr2.
  apply wp_bind, wp_blk. eapply wp_buf_data; [exact Hr2|by rewrite lookup_insert_eq|].
  rewrite bool_decide_false by (unfold INODESIZE; zlia).
  apply wp_bind, wp_blk. eapply wp_brelse; [exact Hr2|by rewrite lookup_insert_eq|done|].
  intros t3 Hr3. rewrite delete_insert_id in Hr3 by done.
  apply wp_bind. eapply wp_updi; [simpl; by apply list_lookup_insert_eq|].
  apply wp_bind. eapply wp_rdi; [simpl; apply list_lookup_insert_eq; by rewrite length_insert|].
  rewrite bool_decide_false by (simpl; case_bool_decide; done).
  apply wp_ret. exists t3. split; [done|]. simpl. rewrite list_insert_insert_eq.
  unfold INODESIZE in *. fold (inode_off (i_inum x)). by rewrite <-Hdin.
Qed.

(** The inode block after [iupdate]. *)
Definition updated_block (d : disk_map) (x : inode) (blk : list Z) : list Z :=
  splice (inode_off (i_inum x)) (dinode_of x (dinode_at d (i_inum x))) blk.

Lemma iupdate_spec dev s d H tr ip x blk :
  rep dev (io s) d H tr → itab s !! ip = Some x → i_dev x = dev → inode_wf x →
  inode_access d H (i_inum x) → d !! inode_block d (i_inum x) = Some blk →
  wp (iupdate ip) (λ _ s', ∃ t, s' = with_io t s ∧
    let b := inode_block d (i_inum x) in
    rep dev t (<[b := updated_block d x blk]> d) H (tr ++ [(b, updated_block d x blk)])) s.
Proof.
  intros Hr Hx Hdev Hwf Hacc Hblk. destruct Hacc as [Hok H2 Hb Hroom].
  pose proof Hok as (Hi & Hd2 & Hbok & _). pose proof (inode_table_range _ _ _ _ _ Hr Hd2) as Hit.
  destruct (dinode_at_like _ _ _ _ _ _ Hr Hok) as [Hlike Hbytes].
  pose proof (rep_block _ _ _ _ _ _ _ Hr Hblk) as Hbb.
  assert (Hdin : dinode_at d (i_inum x) = slice (inode_off (i_inum x)) sizeof_dinode blk)
    by (unfold dinode_at; by rewrite Hblk).
  unfold iupdate. apply wp_bind. eapply wp_rdi; [done|]. rewrite Hdev.
  apply wp_bind. eapply wp_read_gdesc; [done..|]. intros t1 Hr1.
  change (Z.of_nat BSIZE / INODESIZE) with 8. rewrite (u32_id (i_inum x - 1)) by wrap_lia.
  assert (Hbno : u32 (s32 (inode_table (gdesc d) + (i_inum x - 1) / 8)) = inode_block d (i_inum x)).
  { unfold blockno_ok, inode_block in *. wrap_lia. }
  cbv zeta. rewrite Hbno. unfold INODESIZE. fold (inode_off (i_inum x)).
  apply wp_bind, wp_blk. eapply wp_bread; [exact Hr1|done..|]. intros h t2 Hh Hr2.
  apply wp_bind, wp_blk. eapply wp_buf_data; [exact Hr2|by rewrite lookup_insert_eq|].
  rewrite <-Hdin. fold (updated_block d x blk).
  assert (Hub : is_block (updated_block d x blk)).
  { apply is_block_splice; [done|by apply dinode_of_bytes|].
    rewrite (dinode_of_like _ _ Hlike (iw_addrs _ Hwf)). apply inode_off_bound. }
  apply wp_bind, wp_blk. eapply wp_buf_store; [exact Hr2|by rewrite lookup_insert_eq|done|].
  intros t3 Hr3. rewrite insert_insert_eq in Hr3.
  apply wp_bind, wp_blk. eapply wp_bwrite; [exact Hr3|by rewrite lookup_insert_eq|]. intros t4 Hr4.
  apply wp_blk. eapply wp_brelse; [exact Hr4|by rewrite lookup_insert_eq|by rewrite lookup_insert_eq|].
  intros t5 Hr5. rewrite delete_insert_id in Hr5 by done. by exists t5.
Qed.

Lemma gdesc_insert d b x : b ≠ 2 → gdesc (<[b := x]> d) = gdesc d.
Proof. intros Hb. unfold gdesc. by rewrite lookup_insert_ne. Qed.

Lemma inode_block_insert d b x inum : b ≠ 2 → inode_block (<[b := x]> d) inum = inode_block d inum.
Proof. intros. unfold inode_block. by rewrite gdesc_insert. Qed.

Lemma dinode_at_insert_ne d b x inum :
  b ≠ 2 → b ≠ inode_block d inum → dinode_at (<[b := x]> d) inum = dinode_at d inum.
Proof.
  intros H2 Hb. unfold dinode_at. by rewrite inode_block_insert, lookup_insert_ne.
Qed.

Lemma dinode_at_insert_eq d b x inum :
  b ≠ 2 → b = inode_block d inum →
  dinode_at (<[b := x]> d) inum = slice (inode_off inum) sizeof_dinode x.
Proof.
  intros H2 ->. unfold dinode_at. by rewrite inode_block_insert, lookup_insert_eq.
Qed.

(** After [iupdate] of inode [i_inum x], every other inode of the disk is as
    it was. *)
Lemma dinode_at_updated dev t d H tr x blk inum :
  rep dev t d H tr → inode_wf x → inum_ok d (i_inum x) → inum_ok d inum →
  inode_block d (i_inum x) ≠ 2 → d !! inode_block d (i_inum x) = Some blk →
  dinode_at (<[inode_block d (i_inum x) := updated_block d x blk]> d) inum =
    if decide (inum = i_inum x) then dinode_of x (dinode_at d inum) else dinode_at d inum.
Proof.
  intros Hr Hwf Hokx Hok H2 Hblk. pose proof (rep_block _ _ _ _ _ _ _ Hr Hblk) as [Hl _].
  destruct (dinode_at_like _ _ _ _ _ _ Hr Hokx) as [Hlike _].
  pose proof (dinode_of_like _ _ Hlike (iw_addrs _ Hwf)) as Hlen. unfold dinode_like in Hlen.
  pose proof (inode_off_bound (i_inum x)) as Hoff.
  destruct (decide (inode_block d inum = inode_block d (i_inum x))) as [Hb|Hb].
  - rewrite dinode_at_insert_eq by done. unfold updated_block. case_decide as Heq.
    + subst inum. rewrite <-Hlen at 1. rewrite slice_splice_eq; [done|]. lia.
    + rewrite slice_splice_ne; [unfold dinode_at; by rewrite Hb, Hblk|lia|].
      rewrite Hlen. unfold inode_block, inode_off, sizeof_dinode in *.
      destruct Hok as [? _], Hokx as [? _]. zlia.
  - rewrite dinode_at_insert_ne by auto. case_decide; [congruence|done].
Qed.

Lemma inode_access_insert d H inum b x :
  b ≠ 2 → inode_access d H inum → inode_access (<[b := x]> d) H inum.
Proof.
  intros H2 [(Hi & Hd2 & Hbok & Hs) H2h Hbh Hroom].
  assert (Hsome : ∀ c, is_Some (d !! c) → is_Some (<[b := x]> d !! c)).
  { intros c Hc. rewrite lookup_insert. by case_decide. }
  constructor; [|done| |done]; unfold inum_ok; rewrite ?inode_block_insert by done; auto.
Qed.

(** C33: [iupdate] followed by a fresh [ilock] of the same inode gives back its
    type, link count and size, and leaves every other inode on the disk as it
    was; but only the first two of the fifteen block addresses are written
    ([sizeof(ad)] is the size of a pointer), so the other thirteen come back
    as whatever was on the disk before. *)
Theorem iupdate_ilock_roundtrip dev (s : fs D) d H tr ip jp x y :
  rep dev (io s) d H tr → itab s !! ip = Some x → itab s !! jp = Some y →
  i_dev x = dev → i_dev y = dev → i_inum y = i_inum x →
  inode_wf x → i_type x = T_DIR ∨ i_type x = T_FILE →
  0 < i_ref y → i_valid y = false → sl_locked (i_lock y) = false →
  inode_access d H (i_inum x) → inode_block d (i_inum x) ≠ 2 →
  wp (iupdate ip;; ilock (Some jp)) (λ _ s', ∃ d' tr' y',
    rep dev (io s') d' H tr' ∧ itab s' !! jp = Some y' ∧
    i_type y' = i_type x ∧ i_nlink y' = i_nlink x ∧ i_size y' = i_size x ∧
    i_addrs y' = take 2 (i_addrs x) ++ drop 2 (di_block (dinode_at d (i_inum x))) ∧
    (∀ inum, inum_ok d inum → inum ≠ i_inum x → dinode_at d' inum = dinode_at d inum)) s.
Proof.
  intros Hr Hx Hy Hdx Hdy Hiy Hwf Ht Href Hval Hun Hacc H2.
  pose proof (ia_ok _ _ _ Hacc) as Hok. pose proof Hok as (_ & _ & _ & [blk Hblk]).
  apply wp_bind. eapply wp_mono; [by eapply iupdate_spec|]. intros [] s1 (t & -> & Hr1).
  cbv zeta in Hr1. set (d' := <[_ := _]> d) in Hr1.
  eapply wp_mono.
  { eapply (ilock_spec dev (with_io t s) d'); [exact Hr1|exact Hy|done..|].
    intros _. rewrite Hiy. by apply inode_access_insert. }
  intros [] s2 (t2 & Hr2 & ->). pose proof (lookup_lt_Some _ _ _ Hy) as Hlt.
  eexists d', _, _. split; [exact Hr2|]. split; [apply list_lookup_insert_eq; exact Hlt|].
  unfold locked_by. rewrite Hval, Hiy.
  unfold d'. erewrite dinode_at_updated by done. rewrite decide_True by done.
  rewrite fill_dinode_of; [|by eapply dinode_at_like|done..].
  split_and!; [done..|]. intros inum Hin Hne.
  erewrite dinode_at_updated by done. by rewrite decide_False.
Qed.

(** * Inode allocation *)

(** The structure [ialloc] writes, and the inode-table block after it. *)
Definition new_dinode (type : Z) : list Z :=
  let din := replicate sizeof_dinode 0 in
  if bool_decide (type = T_DIR) then wr 2 0 EXT2_T_DIR din
  else if bool_decide (type = T_FILE) then wr 2 0 EXT2_T_FILE din else din.
Definition ialloc_block_of (type : Z) (k : nat) (blk : list Z) : list Z :=
  splice (sizeof_dinode * (k mod 8)) (new_dinode type) blk.

Record can_ialloc (s : fs D) (d : disk_map) (H : held_map) (bm : list Z) (k : nat)
    (blk : list Z) : Prop := {
  ci_gd : is_Some (d !! 2);
  ci_bm : d !! inode_bitmap (gdesc d) = Some bm;
  ci_bmok : blockno_ok (inode_bitmap (gdesc d));
  ci_free : first_free bm k;
  ci_bound : (k < 8 * bound (sb s))%nat;
  ci_tok : blockno_ok (inode_table (gdesc d) + Z.of_nat k / 8);
  ci_tb : d !! (inode_table (gdesc d) + Z.of_nat k / 8) = Some blk;
  ci_ne : inode_table (gdesc d) + Z.of_nat k / 8 ≠ inode_bitmap (gdesc d);
  ci_h2 : not_held H 2;
  ci_hb : not_held H (inode_bitmap (gdesc d));
  ci_ht : not_held H (inode_table (gdesc d) + Z.of_nat k / 8);
  ci_room : (S (size H) < NBUF)%nat;
}.

Lemma length_new_dinode type : length (new_dinode type) = sizeof_dinode.
Proof.
  unfold new_dinode. cbv zeta. unfold sizeof_dinode.
  repeat case_bool_decide; rewrite ?length_wr; rewrite length_replicate; lia.
Qed.

Lemma ialloc_spec dev s d H tr type bm k blk :
  rep dev (io s) d H tr → can_ialloc s d H bm k blk →
  let bb := inode_bitmap (gdesc d) in
  let tb := inode_table (gdesc d) + Z.of_nat k / 8 in
  ∃ t tr', rep dev t (<[bb := set_bit bm k]> (<[tb := ialloc_block_of type k blk]> d)) H tr' ∧
    ialloc dev type s = iget dev (Z.of_nat k + 1) (with_io t s).
Proof.
  intros Hr [Hgd Hbm Hbok Hff Hbound Htok Htb Hne H2 Hb Ht Hroom] bb tb.
  fold bb tb in Hbm, Hbok, Htok, Htb, Hne, Hb, Ht.
  pose proof (rep_block _ _ _ _ _ _ _ Hr Hbm) as Hblkbm.
  pose proof (rep_block _ _ _ _ _ _ _ Hr Htb) as Hblkt. pose proof Hff as [Hk _].
  pose proof (inode_table_range _ _ _ _ _ Hr Hgd) as Hit.
  change (post (λ o, ∃ t tr',
    rep dev t (<[bb := set_bit bm k]> (<[tb := ialloc_block_of type k blk]> d)) H tr' ∧
    o = iget dev (Z.of_nat k + 1) (with_io t s)) (ialloc dev type) s).
  assert (Hbb : u32 (s32 (inode_table (gdesc d) + Z.of_nat k / 8)) = tb).
  { fold tb. unfold blockno_ok in *. wrap_lia. }
  unfold ialloc. apply post_bind. eapply wp_read_gdesc; [done..|lia|]. intros t1 Hr1.
  apply post_bind, wp_get. fold bb.
  apply post_bind, wp_blk. eapply wp_bread; [exact Hr1|done..|lia|]. intros h2 t2 Hh2 Hr2.
  apply post_bind, wp_blk. eapply wp_on_buf; [exact Hr2|by rewrite lookup_insert_eq
    |by apply ext2fs_free_block_found|by apply is_block_set_bit|].
  intros t3 Hr3. rewrite insert_insert_eq in Hr3.
  unfold BSIZE in Hk. rewrite s32_id by lia. cbv zeta. rewrite bool_decide_false by lia.
  change (Z.of_nat (BSIZE / sizeof_dinode)) with 8. rewrite Hbb.
  apply post_bind, wp_blk. eapply wp_bread; [exact Hr3|done|done|by apply not_held_insert; auto| |].
  { rewrite map_size_insert_None by done. lia. }
  intros h3 t4 Hh3 Hr4.
  apply post_bind, wp_blk. eapply wp_buf_data; [exact Hr4|by rewrite lookup_insert_eq|].
  replace (Z.to_nat (Z.of_nat k mod 8)) with (k mod 8)%nat by nlia.
  fold (new_dinode type) (ialloc_block_of type k blk).
  assert (Hnb : is_block (ialloc_block_of type k blk)).
  { apply is_block_splice; [done| |].
    - unfold new_dinode. cbv zeta. repeat case_bool_decide; auto with blk;
        try apply bytes_wr; apply bytes_replicate; wrap_lia.
    - rewrite length_new_dinode. unfold sizeof_dinode, BSIZE. nlia. }
  apply post_bind, wp_blk. eapply wp_buf_store; [exact Hr4|by rewrite lookup_insert_eq|done|].
  intros t5 Hr5. rewrite insert_insert_eq in Hr5.
  apply post_bind, wp_blk. eapply wp_bwrite; [exact Hr5|by rewrite lookup_insert_eq|]. intros t6 Hr6.
  assert (Hh23 : h2 ≠ h3) by (intros ->; by rewrite lookup_insert_eq in Hh3).
  rewrite lookup_insert_ne in Hh3 by done.
  apply post_bind, wp_blk. eapply wp_bwrite;
    [exact Hr6|rewrite lookup_insert_ne by done; by rewrite lookup_insert_eq|]. intros t7 Hr7.
  apply post_bind, wp_blk. eapply wp_brelse; [exact Hr7|by rewrite lookup_insert_eq| |].
  { rewrite lookup_insert_ne by done. by rewrite lookup_insert_eq. }
  intros t8 Hr8. rewrite delete_insert_id in Hr8 by (by rewrite lookup_insert_ne).
  apply post_bind, wp_blk. eapply wp_brelse; [exact Hr8|by rewrite lookup_insert_eq
    |by rewrite lookup_insert_eq|].
  intros t9 Hr9. rewrite delete_insert_id in Hr9 by done.
  rewrite u32_id by wrap_lia. by eexists t9, _.
Qed.

Lemma rd_new_dinode n off type : (2 ≤ off)%nat → rd n off (new_dinode type) = 0.
Proof.
  intros Ho. unfold new_dinode. cbv zeta.
  repeat case_bool_decide; rewrite ?rd_wr_ne;
    rewrite ?length_replicate; unfold sizeof_dinode; try lia; apply rd_zeros.
Qed.

(** A field of inode [k'] of the block [ialloc] has written, where the new
    structure covers it. *)
Lemma rd_ialloc_slot n off type k blk o :
  is_block blk → (off + n ≤ sizeof_dinode)%nat →
  (sizeof_dinode * (k mod 8) + 2 ≤ o + off)%nat →
  (o + off + n ≤ sizeof_dinode * (k mod 8) + sizeof_dinode)%nat →
  rd n off (slice o sizeof_dinode (ialloc_block_of type k blk)) = 0.
Proof.
  intros [Hl _] Hn Ho1 Ho2. rewrite rd_slice by done. unfold ialloc_block_of.
  rewrite rd_splice_in; rewrite ?length_new_dinode; [apply rd_new_dinode; lia| |lia|lia].
  rewrite Hl. unfold sizeof_dinode, BSIZE. nlia.
Qed.

(** C34: [ialloc] steps through the inode table in units of
    [sizeof(struct ext2_dinode)] = 116 bytes while [ilock] and [iupdate] use
    [INODESIZE] = 128.  So unless the new inode is the first of its block, the
    type it was allocated with is not where [ilock] looks: a directory made
    with [ialloc(dev, T_DIR)] reads back with mode 0, that is as a plain file;
    and the write overwrites the end of the previous inode from byte
    [128 - 12 * (k mod 8)] on: a block address of it at that byte becomes the
    new inode's mode, and every later one becomes 0. *)
Theorem ialloc_misplaces_inode dev (s : fs D) d H tr bm k blk :
  rep dev (io s) d H tr → can_ialloc s d H bm k blk → (k mod 8 ≠ 0)%nat →
  inode_bitmap (gdesc d) ≠ 2 → inode_table (gdesc d) + Z.of_nat k / 8 ≠ 2 →
  ∃ t d' tr', rep dev t d' H tr' ∧
    ialloc dev T_DIR s = iget dev (Z.of_nat k + 1) (with_io t s) ∧
    di_mode (dinode_at d' (Z.of_nat k + 1)) = 0 ∧
    (∀ y, i_type (fill (dinode_at d' (Z.of_nat k + 1)) y) = T_FILE) ∧
    (∀ j, (j < 15)%nat → (128 - 12 * (k mod 8) ≤ 40 + 4 * j)%nat →
       di_block (dinode_at d' (Z.of_nat k)) !! j =
         Some (if decide (40 + 4 * j = 128 - 12 * (k mod 8))%nat then EXT2_T_DIR else 0)).
Proof.
  intros Hr Hc Hk Hb2 Ht2. pose proof (ci_ne _ _ _ _ _ _ Hc) as Hne.
  pose proof (rep_block _ _ _ _ _ _ _ Hr (ci_tb _ _ _ _ _ _ Hc)) as Hblk.
  destruct (ialloc_spec dev s d H tr T_DIR bm k blk Hr Hc) as (t & tr' & Hr' & Hrun).
  eexists t, _, tr'. split; [exact Hr'|]. split; [exact Hrun|].
  set (tb := inode_table (gdesc d) + Z.of_nat k / 8) in *.
  assert (Hat : ∀ inum, inode_block d inum = tb →
    dinode_at (<[inode_bitmap (gdesc d) := set_bit bm k]>
                 (<[tb := ialloc_block_of T_DIR k blk]> d)) inum =
    slice (inode_off inum) sizeof_dinode (ialloc_block_of T_DIR k blk)).
  { intros inum Hin. rewrite dinode_at_insert_ne; [|done|rewrite inode_block_insert by done; congruence].
    by rewrite dinode_at_insert_eq. }
  rewrite !Hat by (unfold inode_block, tb; zlia).
  assert (Hmode : di_mode (slice (inode_off (Z.of_nat k + 1)) sizeof_dinode
    (ialloc_block_of T_DIR k blk)) = 0).
  { apply rd_ialloc_slot; [done|..]; unfold inode_off, sizeof_dinode; nlia. }
  split; [done|]. split.
  - intros y. unfold fill. cbv zeta. by rewrite Hmode.
  - intros j Hj Hj2. unfold di_block. rewrite list_lookup_fmap, lookup_seq_lt by done.
    cbn [fmap option_fmap option_map Nat.add]. f_equal. case_decide as He.
    + rewrite rd_slice by (unfold sizeof_dinode; lia). unfold ialloc_block_of.
      destruct Hblk as [Hl _]. rewrite rd_splice_in; rewrite ?length_new_dinode, ?Hl;
        unfold inode_off, sizeof_dinode, BSIZE; [|nlia..].
      by replace (_ - _)%nat with 0%nat by nlia.
    + apply rd_ialloc_slot; [done|..]; unfold inode_off, sizeof_dinode; nlia.
Qed.

End disk.
End DiskInode.
