(* ===== verification/BlockMap.v ===== *)
(** The block map of an inode: [bmap] against a reference definition of the
    ext2 block tree. *)

From S2P Require Import Prelude Sleeplock BlockIO Balloc Inode InodeSpec.
Import Ext2 Inode InodeSpec.

Local Open Scope Z_scope.

Module BlockMap.

(** * Reference: trees of blocks of 256 addresses *)

(** Entry [k] of the address block [a]. *)
Definition entry (d : disk_map) (a k : Z) : Z :=
  match d !! a with Some x => rd 4 (4 * Z.to_nat k) x | None => 0 end.

(** Block [bn] of a tree of height [lvl] rooted at [a]: the digits of [bn] in
    base 256, most significant first, choose the entries. *)
Fixpoint walk (d : disk_map) (lvl : nat) (a bn : Z) : Z :=
  match lvl with
  | O => a
  | S lvl => walk d lvl (entry d a (bn / 256 ^ Z.of_nat lvl)) (bn mod 256 ^ Z.of_nat lvl)
  end.

(** Blocks in the trees of heights 0, 1, 2 and 3: the sizes of the regions of
    a file that [addrs[0..11]], [addrs[12]], [addrs[13]], [addrs[14]] map. *)
Definition max_block : Z := 12 + 256 + 256 ^ 2 + 256 ^ 3.

(** The slot of [addrs], the height and the number within that tree of block
    [bn] of a file. *)
Definition region (bn : Z) : nat * nat * Z :=
  if bool_decide (bn < 12) then (Z.to_nat bn, 0%nat, 0)
  else if bool_decide (bn < 12 + 256) then (12%nat, 1%nat, bn - 12)
  else if bool_decide (bn < 12 + 256 + 256 ^ 2) then (13%nat, 2%nat, bn - 12 - 256)
  else (14%nat, 3%nat, bn - 12 - 256 - 256 ^ 2).

Definition file_block (d : disk_map) (addrs : list Z) (bn : Z) : Z :=
  let '(k, lvl, r) := region bn in walk d lvl (addrs !!! k) r.

(** The tree path to the block is all there: every address on it is set, the
    address blocks are distinct readable blocks other than [used]. *)
Fixpoint walk_ok (d : disk_map) (used : list Z) (lvl : nat) (a bn : Z) : Prop :=
  a ≠ 0 ∧
  match lvl with
  | O => True
  | S lvl =>
      blockno_ok a ∧ is_Some (d !! a) ∧ a ∉ used ∧
      walk_ok d (a :: used) lvl (entry d a (bn / 256 ^ Z.of_nat lvl)) (bn mod 256 ^ Z.of_nat lvl)
  end.
Definition mapped (d : disk_map) (used : list Z) (addrs : list Z) (bn : Z) : Prop :=
  0 ≤ bn < max_block ∧
  let '(k, lvl, r) := region bn in walk_ok d used lvl (addrs !!! k) r.

(** [used] lists the blocks held. *)
Definition covers (used : list Z) (H : held_map) : Prop := ∀ b, b ∉ used → not_held H b.

Lemma covers_insert used H h b x : covers used H → covers (b :: used) (<[h := (b, x)]> H).
Proof.
  intros Hc c [Hne Hcu]%not_elem_of_cons. apply not_held_insert; [by apply Hc|done].
Qed.

Lemma covers_delete used H h : covers used H → covers used (delete h H).
Proof. intros Hc c Hcu i b x [_ Hi]%lookup_delete_Some. by eapply Hc. Qed.

(** The regions are disjoint and cover the file. *)
Lemma region_addrs bn : 0 ≤ bn → let '(k, lvl, r) := region bn in (k < 15)%nat ∧ 0 ≤ r.
Proof.
  intros Hb. unfold region. repeat case_bool_decide; split; lia.
Qed.

Section bmap.
Context {D : Type} {BIO : BlockIO D} {LAWS : BlockIOLaws D}.

Lemma with_io_id (s : fs D) : with_io (io s) s = s.
Proof. by destruct s. Qed.

Lemma wp_blk_data dev (s : fs D) d H tr h b x (Q : list Z → fs D → Prop) :
  rep dev (io s) d H tr → H !! h = Some (b, x) → Q x s → wp (blk (buf_data h)) Q s.
Proof. intros. apply wp_blk. eapply wp_buf_data; [done..|]. by rewrite with_io_id. Qed.

(** Slots that are set are read and left alone. *)
Lemma wp_addr_slot ip k x a (Q : Z → fs D → Prop) s :
  itab s !! ip = Some x → i_addrs x !! k = Some a → a ≠ 0 → Q a s → wp (addr_slot ip k) Q s.
Proof.
  intros Hx Hk Ha HQ. unfold addr_slot. apply wp_bind. eapply wp_rdi; [done|].
  rewrite Hk. apply wp_bind, wp_ret. rewrite bool_decide_false by done. by apply wp_ret.
Qed.

Lemma wp_ind_slot dev ip bp k (s : fs D) d H tr a x (Q : Z → fs D → Prop) :
  rep dev (io s) d H tr → H !! bp = Some (a, x) → d !! a = Some x → entry d a k ≠ 0 →
  Q (entry d a k) s → wp (ind_slot ip bp k) Q s.
Proof.
  unfold entry. intros Hr Hbp Hd Ha HQ. rewrite Hd in *.
  unfold ind_slot. apply wp_bind. eapply wp_blk_data; [done..|].
  cbv zeta. rewrite bool_decide_false by done. by apply wp_ret.
Qed.

(** The step of [bmap] from one level to the next: read the address block [a],
    follow one entry. *)
Lemma wp_descend {A} dev used (s : fs D) d H tr ip a k (f : nat → Z → M (fs D) A) Q :
  rep dev (io s) d H tr → covers used H → (size H < NBUF)%nat →
  blockno_ok a → is_Some (d !! a) → a ∉ used → entry d a k ≠ 0 →
  (∀ bp x t, H !! bp = None → d !! a = Some x → rep dev t d (<[bp := (a, x)]> H) tr →
     wp (f bp (entry d a k)) Q (with_io t s)) →
  wp (bp ← blk (bread dev a); addr ← ind_slot ip bp k; f bp addr) Q s.
Proof.
  intros Hr Hc Hroom Hok [x Hx] Hu He HQ. apply wp_bind, wp_blk.
  eapply wp_bread; [done..|by apply Hc|done|]. intros bp t Hbp Hr1.
  apply wp_bind. eapply wp_ind_slot; [exact Hr1|by rewrite lookup_insert_eq|done..|]. by eapply HQ.
Qed.

Lemma wp_unread dev (s : fs D) d H tr h a x (Q : unit → fs D → Prop) :
  rep dev (io s) d H tr → H !! h = Some (a, x) → d !! a = Some x →
  (∀ t, rep dev t d (delete h H) tr → Q tt (with_io t s)) → wp (blk (brelse h)) Q s.
Proof. intros. apply wp_blk. eapply wp_brelse; [done..|]. auto. Qed.

(** One level down leaves a path one shorter. *)
Lemma walk_ok_S d used lvl a bn :
  walk_ok d used (S lvl) a bn →
  a ≠ 0 ∧ blockno_ok a ∧ is_Some (d !! a) ∧ a ∉ used ∧
  entry d a (bn / 256 ^ Z.of_nat lvl) ≠ 0 ∧
  walk_ok d (a :: used) lvl (entry d a (bn / 256 ^ Z.of_nat lvl)) (bn mod 256 ^ Z.of_nat lvl).
Proof.
  intros (Ha & Hok & Hd & Hu & Hw). split_and!; try done. by destruct lvl; destruct Hw.
Qed.

Definition bmap_post (dev : Z) (d : disk_map) (H : held_map) (tr : write_trace) (s : fs D)
    (r : Z) : Z → fs D → Prop :=
  λ a s', a = r ∧ ∃ t, rep dev t d H tr ∧ s' = with_io t s.

Lemma bmap_single dev used (s : fs D) d H tr ip x a r :
  rep dev (io s) d H tr → itab s !! ip = Some x → i_dev x = dev → covers used H →
  (S (S (size H)) < NBUF)%nat → 0 ≤ r → i_addrs x !! 12%nat = Some a → walk_ok d used 1 a r →
  wp (addr ← addr_slot ip EXT2_IINDIRECT;
      bp ← blk (bread dev addr); addr ← ind_slot ip bp r; blk (brelse bp);; mret addr)
     (bmap_post dev d H tr s (walk d 1 a r)) s.
Proof.
  intros Hr Hx Hdev Hc Hroom H0 Ha Hw.
  apply walk_ok_S in Hw as (Ha0 & Hok & Hd & Hu & He & _).
  change (256 ^ Z.of_nat 0) with 1 in *. rewrite Z.div_1_r in *.
  apply wp_bind. eapply wp_addr_slot; [done..|].
  eapply wp_descend; [done..|lia|done|done|done|done|]. intros bp y t Hbp Hy Hr1.
  apply wp_bind. eapply wp_unread; [exact Hr1|by rewrite lookup_insert_eq|done|]. intros t2 Hr2.
  rewrite delete_insert_id in Hr2 by done. apply wp_ret.
  split; [cbn [walk]; change (256 ^ Z.of_nat 0) with 1; by rewrite Z.div_1_r|by exists t2].
Qed.

Lemma bmap_double dev used (s : fs D) d H tr ip x a r :
  rep dev (io s) d H tr → itab s !! ip = Some x → i_dev x = dev → covers used H →
  (S (S (size H)) < NBUF)%nat → 0 ≤ r → i_addrs x !! 13%nat = Some a → walk_ok d used 2 a r →
  wp (addr ← addr_slot ip EXT2_IDINDIRECT;
      bp ← blk (bread dev addr); addr ← ind_slot ip bp (r / EXT2_NINDIRECT);
      bp1 ← blk (bread dev addr); addr ← ind_slot ip bp1 (r mod EXT2_NINDIRECT);
      blk (brelse bp);; blk (brelse bp1);; mret addr)
     (bmap_post dev d H tr s (walk d 2 a r)) s.
Proof.
  intros Hr Hx Hdev Hc Hroom H0 Ha Hw. change EXT2_NINDIRECT with 256.
  apply walk_ok_S in Hw as (Ha0 & Hok & Hd & Hu & He & Hw).
  apply walk_ok_S in Hw as (_ & Hok1 & Hd1 & Hu1 & He1 & _).
  change (256 ^ Z.of_nat 1) with 256 in *. change (256 ^ Z.of_nat 0) with 1 in *.
  rewrite Z.div_1_r in *. set (a1 := entry d a (r / 256)) in *.
  apply wp_bind. eapply wp_addr_slot; [done..|].
  eapply wp_descend; [done..|lia|done|done|done|done|]. intros bp y t Hbp Hy Hr1.
  eapply wp_descend; [exact Hr1|by apply covers_insert| |done..|].
  { rewrite map_size_insert_None by done. lia. }
  intros bp1 y1 t1 Hbp1 Hy1 Hr2. fold a1 in Hbp1, Hr2 |- *.
  assert (bp ≠ bp1) by (intros ->; by rewrite lookup_insert_eq in Hbp1).
  rewrite lookup_insert_ne in Hbp1 by done.
  apply wp_bind. eapply wp_unread; [exact Hr2| |exact Hy|].
  { rewrite lookup_insert_ne by done. by rewrite lookup_insert_eq. }
  intros t2 Hr3. rewrite delete_insert_ne, delete_insert_id in Hr3 by done.
  apply wp_bind. eapply wp_unread; [exact Hr3|by rewrite lookup_insert_eq|done|].
  intros t3 Hr4. rewrite delete_insert_id in Hr4 by done. apply wp_ret. split; [|by exists t3].
  cbn [walk]. change (256 ^ Z.of_nat 1) with 256. change (256 ^ Z.of_nat 0) with 1.
  by rewrite Z.div_1_r.
Qed.

Lemma bmap_triple dev used (s : fs D) d H tr ip x a r :
  rep dev (io s) d H tr → itab s !! ip = Some x → i_dev x = dev → covers used H →
  (S (S (size H)) < NBUF)%nat → 0 ≤ r → i_addrs x !! 14%nat = Some a → walk_ok d used 3 a r →
  wp (addr ← addr_slot ip EXT2_ITINDIRECT;
      bp ← blk (bread dev addr); addr ← ind_slot ip bp (r / EXT2_NDINDIRECT);
      bp1 ← blk (bread dev addr);
      addr ← ind_slot ip bp1 (r mod EXT2_NDINDIRECT / EXT2_NINDIRECT);
      bp2 ← blk (bread dev addr);
      addr ← ind_slot ip bp2 (r mod EXT2_NDINDIRECT mod EXT2_NINDIRECT);
      blk (brelse bp);; blk (brelse bp1);; blk (brelse bp2);; mret addr)
     (bmap_post dev d H tr s (walk d 3 a r)) s.
Proof.
  intros Hr Hx Hdev Hc Hroom H0 Ha Hw. change EXT2_NDINDIRECT with 65536.
  change EXT2_NINDIRECT with 256.
  apply walk_ok_S in Hw as (Ha0 & Hok & Hd & Hu & He & Hw).
  apply walk_ok_S in Hw as (_ & Hok1 & Hd1 & Hu1 & He1 & Hw).
  apply walk_ok_S in Hw as (_ & Hok2 & Hd2 & Hu2 & He2 & _).
  change (256 ^ Z.of_nat 2) with 65536 in *. change (256 ^ Z.of_nat 1) with 256 in *.
  change (256 ^ Z.of_nat 0) with 1 in *. rewrite Z.div_1_r in *.
  set (a1 := entry d a (r / 65536)) in *. set (a2 := entry d a1 _) in *.
  apply wp_bind. eapply wp_addr_slot; [done..|].
  eapply wp_descend; [done..|lia|done|done|done|done|]. intros bp y t Hbp Hy Hr1.
  eapply wp_descend; [exact Hr1|by apply covers_insert| |done..|].
  { rewrite map_size_insert_None by done. lia. }
  intros bp1 y1 t1 Hbp1 Hy1 Hr2. fold a1 in Hbp1, Hr2 |- *.
  eapply wp_descend; [exact Hr2|by repeat apply covers_insert| |done..|].
  { rewrite !map_size_insert_None by done. lia. }
  intros bp2 y2 t2 Hbp2 Hy2 Hr3. fold a1 a2 in Hbp2, Hr3 |- *.
  assert (bp ≠ bp1) by (intros ->; by rewrite lookup_insert_eq in Hbp1).
  assert (bp1 ≠ bp2) by (intros ->; by rewrite lookup_insert_eq in Hbp2).
  assert (bp ≠ bp2) by (intros ->; rewrite lookup_insert_ne, lookup_insert_eq in Hbp2 by done; done).
  rewrite lookup_insert_ne in Hbp1 by done. rewrite !lookup_insert_ne in Hbp2 by done.
  apply wp_bind. eapply wp_unread; [exact Hr3| |exact Hy|].
  { rewrite !lookup_insert_ne by done. by rewrite lookup_insert_eq. }
  intros t3 Hr4. rewrite !delete_insert_ne, delete_insert_id in Hr4 by done.
  apply wp_bind. eapply wp_unread; [exact Hr4| |exact Hy1|].
  { rewrite !lookup_insert_ne by done. by rewrite lookup_insert_eq. }
  intros t4 Hr5. rewrite delete_insert_ne, delete_insert_id in Hr5 by done.
  apply wp_bind. eapply wp_unread; [exact Hr5|by rewrite lookup_insert_eq|done|].
  intros t5 Hr6. rewrite delete_insert_id in Hr6 by done. apply wp_ret. split; [|by exists t5].
  cbn [walk]. change (256 ^ Z.of_nat 2) with 65536. change (256 ^ Z.of_nat 1) with 256.
  change (256 ^ Z.of_nat 0) with 1. by rewrite Z.div_1_r.
Qed.

Lemma bmap_spec dev used (s : fs D) d H tr ip x bn :
  rep dev (io s) d H tr → itab s !! ip = Some x → i_dev x = dev → length (i_addrs x) = 15%nat →
  covers used H → (S (S (size H)) < NBUF)%nat → mapped d used (i_addrs x) bn →
  wp (bmap ip bn) (bmap_post dev d H tr s (file_block d (i_addrs x) bn)) s.
Proof.
  intros Hr Hx Hdev Hlen Hc Hroom [Hbn Hmap].
  assert (Hlk : ∀ k, (k < 15)%nat → i_addrs x !! k = Some (i_addrs x !!! k)).
  { intros k Hk. apply list_lookup_lookup_total_lt. lia. }
  unfold max_block in Hbn. change (256 ^ 2) with 65536 in *. change (256 ^ 3) with 16777216 in *.
  unfold bmap. apply wp_bind. eapply wp_rdi; [done|]. rewrite Hdev.
  unfold file_block, region in *. change (256 ^ 2) with 65536 in *.
  change EXT2_NDIRECT with 12. change (bool_decide (bn - 12 < EXT2_NINDIRECT)) with
    (bool_decide (bn - 12 < 256)).
  destruct (decide (bn < 12)); [rewrite !(bool_decide_true (bn < 12)) in * by done|
    rewrite !(bool_decide_false (bn < 12)) in * by done].
  { destruct Hmap as [Ha _]. eapply wp_addr_slot; [done|apply Hlk; lia|done|].
    split; [done|]. exists (io s). by rewrite with_io_id. }
  destruct (decide (bn < 12 + 256)); [rewrite !(bool_decide_true (bn < 12 + 256)) in * by done|
    rewrite !(bool_decide_false (bn < 12 + 256)) in * by done].
  { rewrite bool_decide_true by lia. eapply bmap_single; eauto; try lia. }
  rewrite (bool_decide_false (bn - 12 < 256)) by lia. cbv zeta.
  change EXT2_NINDIRECT with 256. change EXT2_NDINDIRECT with 65536.
  destruct (decide (bn < 12 + 256 + 65536)) as [Hl|Hl];
    [rewrite !(bool_decide_true (bn < 12 + 256 + 65536)) in * by done|
     rewrite !(bool_decide_false (bn < 12 + 256 + 65536)) in * by done].
  { rewrite bool_decide_true by lia. eapply bmap_double; eauto; try lia. }
  rewrite (bool_decide_false (bn - 12 - 256 < 65536)) by lia.
  change EXT2_NTINDIRECT with 16777216. rewrite bool_decide_true by lia.
  eapply bmap_triple; eauto; try lia.
Qed.

(** C9: [bmap] computes the ext2 block map: for a block number below
    12 + 256 + 256^2 + 256^3 whose path is allocated it returns the address the
    reference tree walk gives, without writing to the disk, changing the inode
    or keeping a buffer; for a larger block number it panics. *)
Theorem bmap_reference dev used (s : fs D) d H tr ip x bn :
  rep dev (io s) d H tr → itab s !! ip = Some x → i_dev x = dev → length (i_addrs x) = 15%nat →
  covers used H → (S (S (size H)) < NBUF)%nat → 0 ≤ bn →
  (mapped d used (i_addrs x) bn →
     ∃ t, bmap ip bn s = Ok (file_block d (i_addrs x) bn) (with_io t s) ∧ rep dev t d H tr) ∧
  (max_block ≤ bn → bmap ip bn s = Panic "ext2_bmap: block number out of range\n").
Proof.
  intros Hr Hx Hdev Hlen Hc Hroom Hbn. split.
  - intros Hm. destruct (proj1 (wp_ok _ _ _) (bmap_spec dev used s d H tr ip x bn
      Hr Hx Hdev Hlen Hc Hroom Hm)) as (a & s' & Hrun & -> & t & Hr' & ->). eauto.
  - unfold max_block. change (256 ^ 2) with 65536. change (256 ^ 3) with 16777216. intros Hge.
    unfold bmap. erewrite bind_ok by (by apply rdi_ok). cbv zeta.
    change EXT2_NDIRECT with 12. change EXT2_NTINDIRECT with 16777216.
    change EXT2_NDINDIRECT with 65536. change EXT2_NINDIRECT with 256.
    by rewrite !bool_decide_false by lia.
Qed.

End bmap.
End BlockMap.
