(* ===== verification/FileData.v ===== *)
(** File contents: [readi] and [writei] of [kernel/fs.c].

    [either_copyout] and [either_copyin] are the clients' memory: [readi] takes
    the effect [out dst bytes] of copying bytes to [dst] (whatever it returns is
    ignored by the code) and threads the memory [K] it acts on; [writei] takes
    [cin src len], the bytes that were copied in before the copy stopped and
    whether it succeeded. *)

From S2P Require Import Prelude Sleeplock BlockIO Balloc Inode InodeSpec BlockMap.
Import Ext2 Inode InodeSpec BlockMap.

Local Open Scope Z_scope.

Module FileData.

Definition MAXFILE : Z := 12 + 256.

Section ops.
Context {D : Type} {BIO : BlockIO D}.

Section readi.
Context {K : Type} (out : Z → list Z → K → K).

(** The loop of [readi], with the loop variables [tot], [off], [dst]. *)
Fixpoint readi_loop (fuel : nat) (ip : nat) (dst off n tot : Z) (k : K) : M (fs D) K :=
  if bool_decide (tot < n) then
    match fuel with
    | O => nofuel
    | S fuel =>
        x ← rdi ip;
        b ← bmap ip (off / Z.of_nat BSIZE);
        bp ← blk (bread (i_dev x) b);
        let m := Z.min (u32 (n - tot)) (Z.of_nat BSIZE - off mod Z.of_nat BSIZE) in
        data ← blk (buf_data bp);
        let k := out dst (slice (Z.to_nat (off mod Z.of_nat BSIZE)) (Z.to_nat m) data) k in
        blk (brelse bp);;
        readi_loop fuel ip (u64 (dst + m)) (u32 (off + m)) n (u32 (tot + m)) k
    end
  else mret k.

Definition readi (ip : nat) (dst off n : Z) (k : K) : M (fs D) (Z * K) :=
  x ← rdi ip;
  if bool_decide (i_size x < off ∨ u32 (off + n) < off) then mret (-1, k) else
  let n := if bool_decide (i_size x < u32 (off + n)) then u32 (i_size x - off) else n in
  k ← readi_loop (Z.to_nat (n / Z.of_nat BSIZE + 2)) ip dst off n 0 k;
  mret (s32 n, k).
End readi.

Section writei.
Context (cin : Z → Z → list Z * bool).

(** The loop of [writei] returns [tot] and [off]. *)
Fixpoint writei_loop (fuel : nat) (ip : nat) (src off n tot : Z) : M (fs D) (Z * Z) :=
  if bool_decide (tot < n) then
    match fuel with
    | O => nofuel
    | S fuel =>
        x ← rdi ip;
        addr ← bmap ip (off / Z.of_nat BSIZE);
        if bool_decide (addr = 0) then mret (tot, off) else
        bp ← blk (bread (i_dev x) addr);
        let m := Z.min (u32 (n - tot)) (Z.of_nat BSIZE - off mod Z.of_nat BSIZE) in
        let '(bs, ok) := cin src m in
        data ← blk (buf_data bp);
        blk (buf_store bp (splice (Z.to_nat (off mod Z.of_nat BSIZE)) bs data));;
        blk (brelse bp);;
        if negb ok then mret (tot, off) else
        writei_loop fuel ip (u64 (src + m)) (u32 (off + m)) n (u32 (tot + m))
    end
  else mret (tot, off).

Definition writei (ip : nat) (src off n : Z) : M (fs D) Z :=
  x ← rdi ip;
  if bool_decide (i_size x < off ∨ u32 (off + n) < off) then mret (-1) else
  if bool_decide (MAXFILE * Z.of_nat BSIZE < u32 (off + n)) then mret (-1) else
  '(tot, off) ← writei_loop (Z.to_nat (n / Z.of_nat BSIZE + 2)) ip src off n 0;
  x ← rdi ip;
  when (bool_decide (i_size x < off)) (updi ip (set_size off));;
  iupdate ip;;
  mret (s32 tot).
End writei.

End ops.

(** * The contents of a file *)

(** Byte [k] of the file with block addresses [addrs] on disk [d]. *)
Definition file_byte (d : disk_map) (addrs : list Z) (k : Z) : Z :=
  match d !! file_block d addrs (k / 1024) with
  | Some b => b !!! Z.to_nat (k mod 1024)
  | None => 0
  end.
Definition content (d : disk_map) (addrs : list Z) (off : Z) (n : nat) : list Z :=
  (λ i, file_byte d addrs (off + Z.of_nat i)) <$> seq 0 n.

(** Every block of the file is mapped and readable. *)
Definition file_ok (d : disk_map) (used : list Z) (addrs : list Z) (size : Z) : Prop :=
  ∀ bn, 0 ≤ bn → bn * 1024 < size →
    mapped d used addrs bn ∧
    let b := file_block d addrs bn in blockno_ok b ∧ is_Some (d !! b) ∧ b ∉ used.

Lemma length_content d addrs off n : length (content d addrs off n) = n.
Proof. unfold content. by rewrite length_fmap, length_seq. Qed.

Lemma content_app d addrs off m n :
  content d addrs off (m + n) = content d addrs off m ++ content d addrs (off + Z.of_nat m) n.
Proof.
  unfold content. rewrite seq_app, fmap_app. f_equal. cbn [Nat.add].
  apply list_eq. intros i. rewrite !list_lookup_fmap.
  destruct (decide (i < n)%nat).
  - rewrite !lookup_seq_lt by done. simpl. f_equal. f_equal. lia.
  - by rewrite !lookup_seq_ge by lia.
Qed.

(** One pass of the loop copies a part of the contents. *)
Lemma content_block d addrs off m b :
  d !! file_block d addrs (off / 1024) = Some b → length b = BSIZE → 0 ≤ off →
  (Z.to_nat (off mod 1024) + m ≤ BSIZE)%nat →
  content d addrs off m = slice (Z.to_nat (off mod 1024)) m b.
Proof.
  unfold BSIZE. intros Hb Hlen H0 Hm. apply list_eq. intros i. rewrite lookup_slice. unfold content.
  rewrite list_lookup_fmap. case_decide as Hi.
  - rewrite lookup_seq_lt by done. cbn [fmap option_fmap option_map Nat.add].
    unfold file_byte. replace ((off + Z.of_nat i) / 1024) with (off / 1024) by zlia.
    rewrite Hb. replace (Z.to_nat ((off + Z.of_nat i) mod 1024)) with
      (Z.to_nat (off mod 1024) + i)%nat by zlia.
    symmetry. apply list_lookup_lookup_total_lt. lia.
  - by rewrite lookup_seq_ge by lia.
Qed.

Section readi_spec.
Context {D : Type} {BIO : BlockIO D} {LAWS : BlockIOLaws D}.
Context {K : Type} (out : Z → list Z → K → K) (dst : Z).
(** [Inv bs k]: the bytes [bs] have been copied out so far; [total] bounds
    them.  Copying the next bytes extends them. *)
Context (total : nat) (Inv : list Z → K → Prop).
Context (Hout : ∀ bs c k, Inv bs k → (0 < length c)%nat → (length bs + length c ≤ total)%nat →
  Inv (bs ++ c) (out (u64 (dst + Z.of_nat (length bs))) c k)).

(** Passes left when [rem] bytes are left at offset [off]. *)
Definition passes (off rem : Z) : Z := (off + rem + 1023) / 1024 - off / 1024.

Lemma readi_loop_spec dev used d H tr ip x off0 n : ∀ fuel (s : fs D) tot k,
  rep dev (io s) d H tr → itab s !! ip = Some x → i_dev x = dev →
  length (i_addrs x) = 15%nat → covers used H → (S (S (size H)) < NBUF)%nat →
  file_ok d used (i_addrs x) (i_size x) → 0 ≤ off0 → off0 + n ≤ i_size x < 2 ^ 32 →
  0 ≤ tot ≤ n → n ≤ Z.of_nat total →
  (tot < n → passes (off0 + tot) (n - tot) ≤ Z.of_nat fuel) →
  Inv (content d (i_addrs x) off0 (Z.to_nat tot)) k →
  wp (readi_loop out fuel ip (u64 (dst + tot)) (off0 + tot) n tot k) (λ k' s',
    Inv (content d (i_addrs x) off0 (Z.to_nat n)) k' ∧
    ∃ t, rep dev t d H tr ∧ s' = with_io t s) s.
Proof.
  induction fuel as [|fuel IH]; intros s tot k Hr Hx Hdev Hlen Hc Hroom Hok H0 Hn Htot Htl Hfuel HI;
    cbn [readi_loop]; (case_bool_decide as Hlt;
    [|assert (tot = n) as -> by lia; apply wp_ret; split; [done|]; exists (io s);
      by rewrite with_io_id]).
  { specialize (Hfuel Hlt). unfold passes in Hfuel. zlia. }
  specialize (Hfuel Hlt). unfold passes in Hfuel.
  change (Z.of_nat BSIZE) with 1024 in *. set (off := off0 + tot) in *.
  destruct (Hok (off / 1024)) as (Hmap & Hbok & [b Hb] & Hbu); [zlia..|].
  apply wp_bind. eapply wp_rdi; [done|]. apply wp_bind. eapply wp_mono.
  { eapply bmap_spec; eauto. }
  intros a s1 (-> & t1 & Hr1 & ->). rewrite Hdev.
  apply wp_bind, wp_blk. eapply wp_bread; [exact Hr1|done|done|by apply Hc|lia|].
  intros bp t2 Hbp Hr2. rewrite (u32_id (n - tot)) by wrap_lia. cbv zeta.
  set (m := Z.min (n - tot) (1024 - off mod 1024)).
  assert (Hm : 0 < m ≤ n - tot) by (subst m; zlia).
  apply wp_bind. eapply wp_blk_data; [exact Hr2|by rewrite lookup_insert_eq|].
  apply wp_bind. eapply wp_unread; [exact Hr2|by rewrite lookup_insert_eq|done|].
  intros t3 Hr3. rewrite delete_insert_id in Hr3 by done.
  pose proof (rep_block _ _ _ _ _ _ _ Hr Hb) as [Hbl _].
  rewrite <-(content_block d (i_addrs x) off (Z.to_nat m) b) by (done || (subst m; unfold BSIZE; zlia)).
  replace (u64 (u64 (dst + tot) + m)) with (u64 (dst + (tot + m))) by wrap_lia.
  rewrite (u32_id (off + m)), (u32_id (tot + m)) by wrap_lia.
  replace (off + m) with (off0 + (tot + m)) by lia.
  eapply wp_mono.
  { apply (IH _ (tot + m)); try done; [lia|..].
    - intros Hlt'. unfold passes. subst m. zlia.
    - pose proof (Hout _ (content d (i_addrs x) off (Z.to_nat m)) _ HI) as HI'.
      rewrite !length_content, Z2Nat.id in HI' by lia.
      rewrite Z2Nat.inj_add, content_app, Z2Nat.id by lia. apply HI'; lia. }
  intros k' s' (HI' & t & Hr' & ->). split; [done|]. by exists t.
Qed.

(** How many bytes a read of [n] at [off] gives. *)
Definition read_len (size off n : Z) : Z := if bool_decide (size < off + n) then size - off else n.

Lemma readi_spec dev used (s : fs D) d H tr ip x off n k :
  rep dev (io s) d H tr → itab s !! ip = Some x → i_dev x = dev →
  length (i_addrs x) = 15%nat → covers used H → (S (S (size H)) < NBUF)%nat →
  file_ok d used (i_addrs x) (i_size x) → i_size x < 2 ^ 31 →
  0 ≤ off ≤ i_size x → 0 ≤ n → off + n < 2 ^ 32 →
  read_len (i_size x) off n ≤ Z.of_nat total → 0 ≤ dst < 2 ^ 64 → Inv [] k →
  wp (readi out ip dst off n k) (λ '(r, k') s',
    r = read_len (i_size x) off n ∧
    Inv (content d (i_addrs x) off (Z.to_nat (read_len (i_size x) off n))) k' ∧
    ∃ t, rep dev t d H tr ∧ s' = with_io t s) s.
Proof.
  intros Hr Hx Hdev Hlen Hc Hroom Hok Hsz Hoff Hn Hw Htot Hdst HI.
  unfold readi. apply wp_bind. eapply wp_rdi; [done|]. rewrite (u32_id (off + n)) by wrap_lia.
  rewrite bool_decide_false by lia. cbv zeta.
  assert (Hrl : (if bool_decide (i_size x < off + n) then u32 (i_size x - off) else n) =
    read_len (i_size x) off n).
  { unfold read_len. case_bool_decide; [|done]. apply u32_id. wrap_lia. }
  rewrite Hrl. set (n' := read_len (i_size x) off n) in *.
  assert (Hn' : 0 ≤ n' ∧ off + n' ≤ i_size x) by (unfold n', read_len; case_bool_decide; lia).
  apply wp_bind. eapply wp_mono.
  { pose proof (readi_loop_spec dev used d H tr ip x off n' (Z.to_nat (n' / Z.of_nat BSIZE + 2))
      s 0 k) as Hloop.
    rewrite !Z.add_0_r in Hloop. unfold u64 in Hloop. rewrite Z.mod_small in Hloop by done.
    apply Hloop; try done; try lia. intros _. unfold passes. change (Z.of_nat BSIZE) with 1024. zlia. }
  intros k' s' (HI' & Hs'). apply wp_ret. split; [apply s32_id; lia|done].
Qed.

End readi_spec.

(** * Reading into a kernel buffer *)

(** [readi(ip, 0, (uint64)buf, off, n)] for a local array [buf]; addresses are
    relative to its start. *)
Definition buf_out (a : Z) (bs buf : list Z) : list Z := splice (Z.to_nat a) bs buf.

Lemma splice_app off bs c l :
  (off + length bs + length c ≤ length l)%nat →
  splice (off + length bs) c (splice off bs l) = splice off (bs ++ c) l.
Proof.
  intros Hl. apply list_eq. intros i.
  rewrite !lookup_splice; rewrite ?length_splice, ?length_app; try lia.
  repeat case_decide; try lia.
  - rewrite lookup_app_r by lia. f_equal. lia.
  - by rewrite lookup_app_l by lia.
  - done.
Qed.

Section readi_buf.
Context {D : Type} {BIO : BlockIO D} {LAWS : BlockIOLaws D}.

Definition readi_buf (ip : nat) (off n : Z) (buf : list Z) : M (fs D) (Z * list Z) :=
  readi buf_out ip 0 off n buf.

(** What a caller of [readi] needs: the inode in the table, its file readable. *)
Record file_access (dev : Z) (used : list Z) (s : fs D) (d : disk_map) (H : held_map)
    (tr : write_trace) (ip : nat) (x : inode) : Prop := {
  fa_rep : rep dev (io s) d H tr;
  fa_ip : itab s !! ip = Some x;
  fa_dev : i_dev x = dev;
  fa_addrs : length (i_addrs x) = 15%nat;
  fa_used : covers used H;
  fa_room : (S (S (size H)) < NBUF)%nat;
  fa_file : file_ok d used (i_addrs x) (i_size x);
  fa_size : 0 ≤ i_size x < 2 ^ 31;
}.

Lemma readi_buf_spec dev used s d H tr ip x off n buf :
  file_access dev used s d H tr ip x →
  0 ≤ off ≤ i_size x → 0 ≤ n → off + n < 2 ^ 32 → n ≤ Z.of_nat (length buf) →
  let r := read_len (i_size x) off n in
  wp (readi_buf ip off n buf) (λ '(r', buf') s',
    r' = r ∧ buf' = splice 0 (content d (i_addrs x) off (Z.to_nat r)) buf ∧
    ∃ t, rep dev t d H tr ∧ s' = with_io t s) s.
Proof.
  intros [Hr Hx Hdev Hlen Hc Hroom Hok Hsz] Hoff Hn Hw Hbuf r.
  assert (Hrn : r ≤ n) by (unfold r, read_len; case_bool_decide; lia).
  assert (Hr0 : 0 ≤ r ≤ i_size x) by (unfold r, read_len; case_bool_decide; lia).
  apply (readi_spec buf_out 0 (Z.to_nat r) (λ bs k, k = splice 0 bs buf)) with (dev := dev)
    (used := used); try done; try lia.
  intros bs c k -> _ Hl. unfold buf_out, u64. rewrite Z.add_0_l, Z.mod_small, Nat2Z.id by lia.
  apply (splice_app 0). lia.
Qed.

(** C8: [readi] into a kernel buffer returns, reads exactly the bytes of the
    file from [off], as many as were asked for or as the file has, leaves the
    rest of the buffer alone and changes nothing on the disk or in the inode;
    an offset past the end of the file, or one whose end overflows 32 bits, is
    rejected with -1 and copies nothing. *)
Theorem readi_exact dev used s d H tr ip x off n buf :
  file_access dev used s d H tr ip x → 0 ≤ off < 2 ^ 32 → 0 ≤ n < 2 ^ 32 →
  n ≤ Z.of_nat (length buf) →
  if bool_decide (i_size x < off ∨ 2 ^ 32 ≤ off + n)
  then readi_buf ip off n buf s = Ok (-1, buf) s
  else let r := Z.min n (i_size x - off) in
       ∃ t buf', readi_buf ip off n buf s = Ok (r, buf') (with_io t s) ∧ rep dev t d H tr ∧
         length buf' = length buf ∧
         (∀ i, (i < length buf)%nat → buf' !! i =
            if decide (Z.of_nat i < r) then Some (file_byte d (i_addrs x) (off + Z.of_nat i))
            else buf !! i).
Proof.
  intros Ha Hoff Hn Hbuf. case_bool_decide as Hbad.
  - unfold readi_buf, readi. erewrite bind_ok by (apply rdi_ok; by apply (fa_ip _ _ _ _ _ _ _ _ Ha)).
    rewrite bool_decide_true; [done|]. destruct Hbad; [by left|right; wrap_lia].
  - destruct (proj1 (wp_ok _ _ _) (readi_buf_spec dev used s d H tr ip x off n buf Ha
      ltac:(lia) ltac:(lia) ltac:(lia) Hbuf)) as ([r' buf'] & s' & Hrun & -> & -> & t & Hr & ->).
    assert (Hrl : read_len (i_size x) off n = Z.min n (i_size x - off))
      by (unfold read_len; case_bool_decide; lia).
    rewrite Hrl in *. cbv zeta. set (r := Z.min n (i_size x - off)) in *.
    assert (Hle : (0 + length (content d (i_addrs x) off (Z.to_nat r)) ≤ length buf)%nat)
      by (rewrite length_content; lia).
    exists t, (splice 0 (content d (i_addrs x) off (Z.to_nat r)) buf).
    split; [done|]. split; [done|]. split; [by apply length_splice|].
    intros i Hi. rewrite lookup_splice, length_content by done. rewrite Nat.add_0_l, Nat.sub_0_r.
    destruct (decide (Z.of_nat i < r)).
    + rewrite decide_True by lia. unfold content.
      by rewrite list_lookup_fmap, lookup_seq_lt by lia.
    + by rewrite decide_False by lia.
Qed.

End readi_buf.

End FileData.
