(* ===== verification/FileLost.v ===== *)
(** What [writei] leaves on the disk.

    [writei] changes the buffer of a data block and releases it without writing
    it.  The cache then no longer represents the disk, so the laws of [BlockIO]
    do not describe it.  Here [old] are the blocks that may be stale: a cache is
    compared with one that differs from it in the contents of their buffers
    only, and that represents the disk.  Operations on other blocks do the same
    on both, which gives the laws for a disk without [old]. *)

From S2P Require Import Prelude Sleeplock BlockIO Bio Balloc Inode InodeSpec DiskInode BlockMap FileData.
Import Bio Ext2 Inode InodeSpec DiskInode BlockMap FileData.

Local Open Scope Z_scope.

Module FileLost.

Section stale.
Context (old : disk_map).

(** ** Two caches *)

Definition alike (x y : buf) : Prop :=
  ∃ data, y = set_data data x ∧ (b_valid x = true → old !! b_blockno x = None → data = b_data x).
Record like (s t : bio) : Prop := {
  lk_bufs : Forall2 alike (bufs s) (bufs t);
  lk_nxt : nxt s = nxt t;
  lk_prv : prv s = prv t;
  lk_disk : disk s = disk t;
  lk_trace : trace s = trace t;
  lk_pid : mypid s = mypid t;
}.

Lemma like_at s t i x : like s t → bufs s !! i = Some x → ∃ y, bufs t !! i = Some y ∧ alike x y.
Proof. intros H Hx. destruct (Forall2_lookup_l _ _ _ _ _ (lk_bufs _ _ H) Hx) as (y & ? & ?). eauto. Qed.
Lemma like_at_r s t i y : like s t → bufs t !! i = Some y → ∃ x, bufs s !! i = Some x ∧ alike x y.
Proof. intros H Hy. destruct (Forall2_lookup_r _ _ _ _ _ (lk_bufs _ _ H) Hy) as (x & ? & ?). eauto. Qed.
Lemma like_put s t i x y : like s t → alike x y → like (with_bufs (<[i := x]> (bufs s)) s) (with_bufs (<[i := y]> (bufs t)) t).
Proof. intros [] Ha. split; try done. cbn. by apply Forall2_insert. Qed.

(** ** Running on both *)

(** What [m2] does from [t], [m1] does from [s]. *)
Definition both {A B} (m1 : M bio A) (m2 : M bio B) (Q : A → B → bio → bio → Prop) (s t : bio) : Prop :=
  match m2 t with
  | Ok b t' => ∃ a s', m1 s = Ok a s' ∧ Q a b s' t'
  | Sleep _ => ∃ s', m1 s = Sleep s'
  | _ => True
  end.

Lemma both_bind {A B A' B'} (m1 : M bio A) (m2 : M bio B) (f1 : A → M bio A') (f2 : B → M bio B') Q s t :
  both m1 m2 (λ a b, both (f1 a) (f2 b) Q) s t → both (mbind f1 m1) (mbind f2 m2) Q s t.
Proof.
  unfold both, mbind, M_bind. destruct (m2 t) as [b t'| |t'| |]; try done.
  - intros (a & s' & -> & H). done.
  - intros [s' ->]. eauto.
Qed.
Lemma both_ret {A B} (a : A) (b : B) (Q : A → B → bio → bio → Prop) s t : Q a b s t → both (mret a) (mret b) Q s t.
Proof. intros H. exists a, s. done. Qed.
Lemma both_gets {A B} (f : bio → A) (g : bio → B) (Q : A → B → bio → bio → Prop) s t : Q (f s) (g t) s t → both (gets f) (gets g) Q s t.
Proof. intros H. exists (f s), s. done. Qed.
Lemma both_modify f g (Q : unit → unit → bio → bio → Prop) s t : Q tt tt (f s) (g t) → both (modify f) (modify g) Q s t.
Proof. intros H. exists tt, (f s). done. Qed.

(** Same result, and the caches are still alike. *)
Definition same {A} (a b : A) (s t : bio) : Prop := a = b ∧ like s t.

Lemma both_rdbuf i (Q : buf → buf → bio → bio → Prop) s t :
  like s t → (∀ x y, bufs s !! i = Some x → bufs t !! i = Some y → alike x y → Q x y s t) → both (rdbuf i) (rdbuf i) Q s t.
Proof.
  intros Hl HQ. unfold both, rdbuf, mbind, M_bind, get. destruct (bufs t !! i) as [y|] eqn:Hy; [|done].
  destruct (like_at_r s t i y Hl Hy) as (x & Hx & Ha). rewrite Hx. exists x, s. split; [done|]. by apply HQ.
Qed.
Lemma both_upd i f g s t :
  like s t → (∀ x y, bufs s !! i = Some x → bufs t !! i = Some y → alike x y → alike (f x) (g y)) → both (upd i f) (upd i g) same s t.
Proof.
  intros Hl Hf. apply both_bind, both_rdbuf; [done|]. intros x y Hx Hy Ha. apply both_modify. split; [done|]. apply like_put; auto.
Qed.


(** ** The operations of the cache *)


Lemma alike_id x y : alike x y → b_dev x = b_dev y ∧ b_blockno x = b_blockno y ∧ b_refcnt x = b_refcnt y ∧ b_valid x = b_valid y ∧ b_lock x = b_lock y.
Proof. by intros (data & -> & _). Qed.


Lemma both_read i s t : like s t → both (virtio_disk_rw i false) (virtio_disk_rw i false) same s t.
Proof.
  intros Hl. unfold virtio_disk_rw. apply both_bind, both_rdbuf; [done|]. intros x y Hx Hy Ha. apply both_bind, both_gets.
  destruct (alike_id x y Ha) as (_ & -> & _). rewrite (lk_disk _ _ Hl). destruct (disk t !! _) as [z|]; [|done].
  apply both_upd; [done|]. intros x' y' _ _ (data & -> & _). by exists z.
Qed.

(** A valid buffer of a block that is not stale has the same contents. *)
Definition fresh_at (t : bio) (h : nat) : Prop := ∀ y, bufs t !! h = Some y → b_valid y = true ∧ old !! b_blockno y = None.
Lemma fresh_data t h x y : fresh_at t h → bufs t !! h = Some y → alike x y → b_data x = b_data y.
Proof.
  intros Hf Hy (data & -> & H). destruct (Hf _ Hy) as [Hv Hb]. cbn in *. symmetry. by apply H.
Qed.
Lemma both_buf_data h s t : like s t → fresh_at t h → both (buf_data h) (buf_data h) same s t.
Proof.
  intros Hl Hf. apply both_bind, both_rdbuf; [done|]. intros x y Hx Hy Ha. apply both_ret. split; [|done]. by apply (fresh_data t h).
Qed.

(** ** What a cache with stale buffers still represents *)




End stale.

(** ** Overwriting part of a file *)


Section lost.
Context (cin : Z → Z → list Z * bool) (Hcin : ∀ a m, (cin a m).2 = true).


End lost.
End FileLost.
