(* ===== verification/Dir.v ===== *)
(** Directories and path names: [namecmp], [dirlookup], [dirlink], the listing
    helpers, [skipelem], [namex], [namei] and [nameiparent] of [kernel/fs.c].

    Character arrays are lists of bytes, a pointer into one being the rest of
    the list.  [stk] stands for what the uninitialised local array [file_name]
    of [dirlookup] holds on entry. *)

From S2P Require Import Prelude CString Sleeplock BlockIO Balloc Inode InodeSpec BlockMap FileData.
Import Ext2 Inode InodeSpec BlockMap FileData.

Local Open Scope Z_scope.

Module Dir.

Definition DIRSIZ : nat := 14.
(** [struct ext2_dirent] *)
Definition sizeof_ext2_dirent : nat := 264.
Definition de_inode (de : list Z) : Z := rd 4 0 de.
Definition de_rec_len (de : list Z) : Z := rd 2 4 de.
Definition de_name_len (de : list Z) : Z := rd 1 6 de.
Definition de_name (de : list Z) : list Z := drop 8 de.
(** [struct dirent], the entry format of the original file system. *)
Definition sizeof_dirent : nat := 16.

Definition slash : Z := 47.
Definition underscore : Z := 95.

Definition namecmp (s t : list Z) : option Z := Str.strncmp s t DIRSIZ.

(** Copy the next path element from [path] into [name]: [None] reads outside an
    array, [Some None] is the null pointer. *)
Fixpoint skip_slashes (path : list Z) : option (list Z) :=
  match path with
  | [] => None
  | c :: rest => if bool_decide (c = slash) then skip_slashes rest else Some path
  end.
Fixpoint scan_elem (path : list Z) : option (list Z * list Z) :=
  match path with
  | [] => None
  | c :: rest =>
      if bool_decide (c ≠ slash ∧ c ≠ 0)
      then '(e, r) ← scan_elem rest; mret (c :: e, r)
      else Some ([], path)
  end.
Definition skipelem (path name : list Z) : option (option (list Z * list Z)) :=
  path ← skip_slashes path;
  c ← path !! 0%nat;
  if bool_decide (c = 0) then Some None else
  '(e, path) ← scan_elem path;
  let len := length e in
  name ← (if bool_decide (DIRSIZ ≤ len)%nat
          then if bool_decide (DIRSIZ ≤ length name)%nat then Some (splice 0 (take DIRSIZ e) name)
               else None
          else if bool_decide (len < length name)%nat then Some (splice 0 (e ++ [0]) name)
               else None);
  path ← skip_slashes path;
  Some (Some (path, name)).

Section ops.
Context {D : Type} {BIO : BlockIO D}.
Context (stk : list Z).

(** [(namecmp(name, file_name+1) == 0 && de.name[0] == '_') ||
     namecmp(name, file_name) == 0] *)
Definition de_matches (name file_name de : list Z) : option bool :=
  c1 ← namecmp name (drop 1 file_name);
  c ← de_name de !! 0%nat;
  if bool_decide (c1 = 0 ∧ c = underscore) then Some true else
  c2 ← namecmp name file_name;
  Some (bool_decide (c2 = 0)).

(** [strncpy(file_name, de.name, de.name_len); file_name[de.name_len] = 0] *)
Definition copy_name (file_name de : list Z) : option (list Z) :=
  let n := Z.to_nat (de_name_len de) in
  file_name ← Str.strncpy file_name (de_name de) n;
  if bool_decide (n < length file_name)%nat then Some (<[n := 0]> file_name) else None.

Fixpoint dirlookup_loop (fuel dp : nat) (name : list Z) (off : Z) (file_name : list Z) :
    M (fs D) (option (nat * Z)) :=
  x ← rdi dp;
  if bool_decide (off < i_size x) then
    match fuel with
    | O => nofuel
    | S fuel =>
        '(r, de) ← readi_buf dp off (Z.of_nat sizeof_ext2_dirent) (replicate sizeof_ext2_dirent 0);
        if bool_decide (r ≠ Z.of_nat sizeof_ext2_dirent) then panic "dirlookup read" else
        if bool_decide (de_inode de = 0)
        then dirlookup_loop fuel dp name (u32 (off + de_rec_len de)) file_name
        else
        file_name ← of_option (copy_name file_name de);
        hit ← of_option (de_matches name file_name de);
        if (hit : bool) then ip ← iget (i_dev x) (de_inode de); mret (Some (ip, off))
        else dirlookup_loop fuel dp name (u32 (off + de_rec_len de)) file_name
    end
  else mret None.

(** The result is the inode and the offset stored in [*poff]. *)
Definition dirlookup (dp : nat) (name : list Z) : M (fs D) (option (nat * Z)) :=
  x ← rdi dp;
  if bool_decide (i_type x ≠ T_DIR) then panic "dirlookup not DIR" else
  dirlookup_loop (S (Z.to_nat (i_size x))) dp name 0 stk.

(** The listing loop of [print_root_files] and [print_cwd_files]: the lines
    printed, each a name (up to its NUL) and an inode number. *)
Fixpoint print_loop (fuel dp : nat) (off : Z) : M (fs D) (list (list Z * Z)) :=
  x ← rdi dp;
  if bool_decide (off < i_size x) then
    match fuel with
    | O => nofuel
    | S fuel =>
        '(r, de) ← readi_buf dp off (Z.of_nat sizeof_ext2_dirent) (replicate sizeof_ext2_dirent 0);
        if bool_decide (r ≠ Z.of_nat sizeof_ext2_dirent) then panic "dirlookup read" else
        if bool_decide (de_inode de = 0)
        then print_loop fuel dp (u32 (off + de_rec_len de))
        else
        len ← of_option (Str.strlen (de_name de));
        rest ← print_loop fuel dp (u32 (off + de_rec_len de));
        mret ((take (Z.to_nat len) (de_name de), de_inode de) :: rest)
    end
  else mret [].

(** Both end in [exit(0)], which does not return. *)
Definition print_root_files : M (fs D) (list (list Z * Z)) :=
  dp ← iget ROOTDEV EXT2_ROOTINO;
  ilock (Some dp);;
  x ← rdi dp;
  lines ← print_loop (S (Z.to_nat (i_size x))) dp 0;
  iunlockput dp;;
  mret lines.
Definition print_cwd_files : M (fs D) (list (list Z * Z)) :=
  cwd_inode ← gets cwd;
  ilock (Some cwd_inode);;
  x ← rdi cwd_inode;
  lines ← print_loop (S (Z.to_nat (i_size x))) cwd_inode 0;
  iunlockput cwd_inode;;
  mret lines.

(** The bytes [printf("%s\n", b)] prints. *)
Definition print_cat_file (name : list Z) : M (fs D) (list Z) :=
  dp ← gets cwd;
  fi ← dirlookup dp name;
  match fi with
  | None => undef
  | Some (fi, _) =>
      x ← rdi fi;
      '(_, b) ← readi_buf fi 0 (i_size x) (replicate (Z.to_nat (i_size x)) 0);
      len ← of_option (Str.strlen b);
      mret (take (Z.to_nat len) b)
  end.

(** The scan of [dirlink] for an entry with [inum == 0]; the offset it stops at. *)
Fixpoint dirlink_loop (fuel dp : nat) (off : Z) : M (fs D) Z :=
  x ← rdi dp;
  if bool_decide (u32 off < i_size x) then
    match fuel with
    | O => nofuel
    | S fuel =>
        '(r, de) ← readi_buf dp (u32 off) (Z.of_nat sizeof_dirent) (replicate sizeof_dirent 0);
        if bool_decide (r ≠ Z.of_nat sizeof_dirent) then panic "dirlink read" else
        if bool_decide (rd 2 0 de = 0) then mret off
        else dirlink_loop fuel dp (s32 (off + Z.of_nat sizeof_dirent))
    end
  else mret off.

(** [writei] from a local array. *)
Definition buf_in (buf : list Z) (src len : Z) : list Z * bool :=
  (slice (Z.to_nat src) (Z.to_nat len) buf, true).

Definition dirlink (dp : nat) (name : list Z) (inum : Z) : M (fs D) Z :=
  r ← dirlookup dp name;
  match r with
  | Some (ip, _) => iput ip;; mret (-1)
  | None =>
      x ← rdi dp;
      off ← dirlink_loop (S (Z.to_nat (i_size x))) dp 0;
      nm ← of_option (Str.strncpy (replicate DIRSIZ 0) name DIRSIZ);
      let de := le_to 2 inum ++ nm in
      r ← writei (buf_in de) dp 0 (u32 off) (Z.of_nat sizeof_dirent);
      if bool_decide (r ≠ Z.of_nat sizeof_dirent) then mret (-1) else mret 0
  end.

(** The loop of [namex]; the result is the inode and the contents of [name]. *)
Fixpoint namex_loop (fuel : nat) (path : list Z) (parent : bool) (name : list Z) (ip : nat) :
    M (fs D) (option nat * list Z) :=
  r ← of_option (skipelem path name);
  match r with
  | None =>
      if parent then iput ip;; mret (None, name) else mret (Some ip, name)
  | Some (path, name) =>
      match fuel with
      | O => nofuel
      | S fuel =>
          ilock (Some ip);;
          x ← rdi ip;
          if bool_decide (i_type x ≠ T_DIR) then iunlockput ip;; mret (None, name) else
          c ← of_option (path !! 0%nat);
          if (parent && bool_decide (c = 0))%bool then iunlock (Some ip);; mret (Some ip, name) else
          next ← dirlookup ip name;
          match next with
          | None => iunlockput ip;; mret (None, name)
          | Some (next, _) => iunlockput ip;; namex_loop fuel path parent name next
          end
      end
  end.

Definition namex (path : list Z) (parent : bool) (name : list Z) : M (fs D) (option nat * list Z) :=
  c0 ← of_option (path !! 0%nat);
  ip ← (if bool_decide (c0 = slash) then iget ROOTDEV EXT2_ROOTINO
        else c ← gets cwd; idup c);
  c1 ← of_option (path !! 1%nat);
  when (bool_decide (c1 ≠ 0))
    (x ← rdi ip;
     when (bool_decide (i_valid x = false ∧ i_inum x = EXT2_ROOTINO)) (rootilock (Some ip)));;
  namex_loop (length path) path parent name ip.

Definition EXT2_DIRSIZ : nat := 255.
Definition namei (path : list Z) : M (fs D) (option nat) :=
  r ← namex path false (replicate EXT2_DIRSIZ 0); mret r.1.
Definition nameiparent (path name : list Z) : M (fs D) (option nat * list Z) :=
  namex path true name.

End ops.
End Dir.
