(* ===== verification/Path.v ===== *)
(** Path elements: [skipelem] against the list of components of a path. *)

From S2P Require Import Prelude CString Dir.
Import Dir.

Local Open Scope Z_scope.

Module Path.

(** * Reference: the components of a path *)

(** The maximal runs of characters other than a slash; [cur] is the run read
    so far. *)
Fixpoint runs (cur l : list Z) : list (list Z) :=
  match l with
  | [] => if cur is [] then [] else [cur]
  | c :: l =>
      if bool_decide (c = slash)
      then if cur is [] then runs [] l else cur :: runs [] l
      else runs (cur ++ [c]) l
  end.
Definition path_elems (l : list Z) : list (list Z) := runs [] l.

Fixpoint drop_slashes (l : list Z) : list Z :=
  match l with
  | [] => []
  | c :: r => if bool_decide (c = slash) then drop_slashes r else l
  end.
Fixpoint first_run (l : list Z) : list Z * list Z :=
  match l with
  | [] => ([], [])
  | c :: r => if bool_decide (c = slash) then ([], l)
              else (c :: (first_run r).1, (first_run r).2)
  end.

Lemma path_elems_drop l : path_elems (drop_slashes l) = path_elems l.
Proof.
  unfold path_elems. induction l as [|c l IH]; [done|]. simpl.
  case_bool_decide as Hc; [done|]. simpl. by rewrite bool_decide_false.
Qed.

Lemma runs_first cur l :
  cur ≠ [] → runs cur l = (cur ++ (first_run l).1) :: path_elems (first_run l).2.
Proof.
  revert cur. induction l as [|c l IH]; intros cur Hcur; simpl.
  { destruct cur; [done|]. by rewrite app_nil_r. }
  case_bool_decide as Hc; simpl.
  - destruct cur; [done|]. rewrite app_nil_r. unfold path_elems. simpl. by rewrite bool_decide_true.
  - rewrite IH by (by destruct cur). by rewrite <-app_assoc.
Qed.

(** A path that does not start with a slash: its first component, and the rest. *)
Lemma path_elems_cons c l :
  c ≠ slash →
  path_elems (c :: l) = (c :: (first_run l).1) :: path_elems (first_run l).2.
Proof.
  intros Hc. unfold path_elems at 1. simpl. rewrite bool_decide_false by done.
  by rewrite runs_first.
Qed.

Lemma path_elems_head l : head l ≠ Some slash → path_elems l = [] ↔ l = [].
Proof.
  destruct l as [|c l]; [done|]. simpl. intros Hc. rewrite path_elems_cons by congruence. done.
Qed.

(** Components hold no slash and, in a C string, no NUL. *)
Lemma drop_slashes_head l : head (drop_slashes l) ≠ Some slash.
Proof. induction l as [|c l IH]; simpl; [done|]. case_bool_decide; [done|]. simpl. congruence. Qed.

(** * The scans of [skipelem] *)

Lemma cstr_cons_nz c p : c ≠ 0 → Str.cstr (c :: p) = c :: Str.cstr p.
Proof. intros. simpl. by rewrite bool_decide_false. Qed.

Lemma skip_slashes_spec p :
  0 ∈ p → ∃ p', skip_slashes p = Some p' ∧ 0 ∈ p' ∧ Str.cstr p' = drop_slashes (Str.cstr p) ∧
    (length p' ≤ length p)%nat.
Proof.
  induction p as [|c p IH]; [by intros ?%elem_of_nil|]. intros Hz. simpl.
  case_bool_decide as Hc.
  - subst c. destruct IH as (p' & -> & Hp' & Hc' & Hl).
    { by apply elem_of_cons in Hz as [?|?]. }
    exists p'. rewrite bool_decide_false by done. simpl. auto with lia.
  - exists (c :: p). split; [done|]. split; [done|]. split; [|simpl; lia]. simpl.
    case_bool_decide; simpl; [done|]. by rewrite bool_decide_false.
Qed.

Lemma scan_elem_spec p :
  0 ∈ p → ∃ r, scan_elem p = Some ((first_run (Str.cstr p)).1, r) ∧ 0 ∈ r ∧
    Str.cstr r = (first_run (Str.cstr p)).2 ∧
    (length r + length (first_run (Str.cstr p)).1 ≤ length p)%nat.
Proof.
  induction p as [|c p IH]; [by intros ?%elem_of_nil|]. intros Hz. simpl.
  case_bool_decide as Hc.
  - destruct Hc as [Hs H0]. destruct IH as (r & -> & Hr & Hcr & Hl).
    { by apply elem_of_cons in Hz as [?|?]. }
    exists r. rewrite bool_decide_false by done. simpl.
    rewrite bool_decide_false by done. simpl. auto with lia.
  - exists (c :: p). case_bool_decide as H0; simpl.
    { subst. rewrite bool_decide_true by done. auto with lia. }
    assert (c = slash) as -> by (destruct (decide (c = slash)); [done|tauto]).
    simpl. auto with lia.
Qed.

(** What [skipelem] stores: the component cut to [DIRSIZ] characters. *)
Definition stored (e name : list Z) : list Z :=
  if bool_decide (DIRSIZ ≤ length e)%nat then splice 0 (take DIRSIZ e) name
  else splice 0 (e ++ [0]) name.

Lemma stored_spec e name :
  Forall (λ c, c ≠ 0) e → (DIRSIZ ≤ length name)%nat →
  length (stored e name) = length name ∧ take DIRSIZ (Str.cstr (stored e name)) = take DIRSIZ e ∧
  Str.readable (stored e name) DIRSIZ.
Proof.
  unfold DIRSIZ. intros He Hn. unfold stored, DIRSIZ. case_bool_decide as Hlen.
  - assert (Hl : length (splice 0 (take 14 e) name) = length name)
      by (apply length_splice; rewrite length_take; lia).
    split; [done|]. split; [|left; lia].
    unfold splice. rewrite take_0. cbn [app Nat.add]. rewrite length_take, Nat.min_l by lia.
    assert (Ht : Forall (λ c, c ≠ 0) (take 14 e)) by (by apply Forall_take).
    assert (Hl14 : length (take 14 e) = 14%nat) by (rewrite length_take; lia).
    revert Ht Hl14. generalize (take 14 e) as u. intros u Hu <-.
    clear -Hu. generalize (drop (length u) name) as k. intros k.
    induction Hu as [|c u Hc _ IH]; [done|]. simpl. rewrite bool_decide_false by done.
    simpl. by rewrite IH.
  - assert (Hl : length (splice 0 (e ++ [0]) name) = length name)
      by (apply length_splice; rewrite length_app; simpl; lia).
    split; [done|]. unfold splice. rewrite take_0. cbn [app Nat.add]. rewrite <-app_assoc. cbn [app].
    rewrite Str.cstr_app_nul by done. split; [done|]. right. apply elem_of_app. right. by left.
Qed.

Lemma cstr_nz_Forall p : Forall (λ c, c ≠ 0) (Str.cstr p).
Proof. apply Forall_forall. intros c. apply Str.cstr_nonzero. Qed.

Lemma first_run_Forall (P : Z → Prop) l : Forall P l → Forall P (first_run l).1.
Proof. induction 1; simpl; [constructor|]. case_bool_decide; constructor; auto. Qed.

(** [skipelem] takes the components of the path one at a time. *)
Lemma skipelem_spec path name :
  0 ∈ path → (DIRSIZ ≤ length name)%nat →
  match path_elems (Str.cstr path) with
  | [] => skipelem path name = Some None
  | e :: es => ∃ path', skipelem path name = Some (Some (path', stored e name)) ∧ 0 ∈ path' ∧
      path_elems (Str.cstr path') = es ∧ (length path' < length path)%nat ∧
      Forall (λ c, c ≠ 0) e ∧ e ≠ [] ∧ (es = [] ↔ path' !! 0%nat = Some 0)
  end.
Proof.
  intros Hz Hn. rewrite <-path_elems_drop. unfold skipelem.
  destruct (skip_slashes_spec path Hz) as (p1 & -> & Hz1 & Hc1 & Hl1). cbn.
  pose proof (drop_slashes_head (Str.cstr path)) as Hhd. rewrite <-Hc1 in Hhd |- *.
  destruct p1 as [|c p1]; [by apply elem_of_nil in Hz1|]. cbn.
  case_bool_decide as Hc0; [done|].
  rewrite cstr_cons_nz in Hhd by done. simpl in Hhd.
  rewrite path_elems_cons by congruence.
  destruct (scan_elem_spec p1) as (r & Hs & Hzr & Hcr & Hlr).
  { apply elem_of_cons in Hz1 as [?|?]; [congruence|done]. }
  rewrite (bool_decide_true (c ≠ slash ∧ c ≠ 0)) by (split; congruence). rewrite Hs. cbn.
  destruct (skip_slashes_spec r Hzr) as (r' & Hr' & Hzr' & Hcr' & Hlr').
  assert (He : Forall (λ c, c ≠ 0) (c :: (first_run (Str.cstr p1)).1)).
  { constructor; [done|]. apply first_run_Forall, cstr_nz_Forall. }
  exists r'. split_and!.
  - unfold stored. cbn [length]. case_bool_decide.
    + rewrite bool_decide_true by done. cbn. by rewrite Hr'.
    + rewrite bool_decide_true by (unfold DIRSIZ in *; lia). cbn. by rewrite Hr'.
  - done.
  - by rewrite Hcr', Hcr, path_elems_drop.
  - simpl in Hl1. lia.
  - done.
  - done.
  - rewrite <-Hcr, <-path_elems_drop, <-Hcr', path_elems_head
      by (rewrite Hcr'; apply drop_slashes_head).
    destruct r' as [|c' r']; [by apply elem_of_nil in Hzr'|]. simpl.
    case_bool_decide; split; congruence.
Qed.

(** The rest of the path is a part of the same array. *)
Lemma skip_slashes_suffix p p' : skip_slashes p = Some p' → p' `suffix_of` p.
Proof.
  induction p as [|c p IH]; [done|]. simpl. case_bool_decide.
  - intros Hp. by apply suffix_cons_r, IH.
  - by intros [= <-].
Qed.
Lemma scan_elem_suffix p e r : scan_elem p = Some (e, r) → r `suffix_of` p.
Proof.
  revert e. induction p as [|c p IH]; intros e; [done|]. simpl. case_bool_decide.
  - destruct (scan_elem p) as [[e' r']|]; [|done]. intros [= <- ->].
    by eapply suffix_cons_r, IH.
  - by intros [= <- <-].
Qed.
Lemma skipelem_suffix path name path' name' :
  skipelem path name = Some (Some (path', name')) → path' `suffix_of` path.
Proof.
  unfold skipelem, mbind, option_bind.
  destruct (skip_slashes path) as [p1|] eqn:H1; [|done].
  destruct (p1 !! 0%nat) as [c|]; [|done]. case_bool_decide; [done|].
  destruct (scan_elem p1) as [[e r]|] eqn:H2; [|done]. cbv zeta.
  destruct (if bool_decide _ then _ else _) as [n|]; [|done].
  destruct (skip_slashes r) as [p2|] eqn:H3; [|done]. intros [= <- <-].
  etransitivity; [by eapply skip_slashes_suffix|].
  etransitivity; [by eapply scan_elem_suffix|by eapply skip_slashes_suffix].
Qed.

(** The names a loop [while((path = skipelem(path, name)) != 0)] sees. *)
Fixpoint elems_loop (fuel : nat) (path name : list Z) : option (list (list Z)) :=
  match skipelem path name with
  | None => None
  | Some None => Some []
  | Some (Some (path, name)) =>
      match fuel with
      | O => None
      | S fuel => rest ← elems_loop fuel path name; Some (take DIRSIZ (Str.cstr name) :: rest)
      end
  end.

(** calling [skipelem] until it returns null visits exactly the components
    of the path, in order, whatever slashes lead, trail or repeat, each cut to
    [DIRSIZ] characters; it stays within the path's terminator and within a
    [name] array of [DIRSIZ] bytes, and it stops after at most one call per
    character of the path. *)
Theorem skipelem_components path name :
  0 ∈ path → (DIRSIZ ≤ length name)%nat →
  elems_loop (length path) path name = Some (take DIRSIZ <$> path_elems (Str.cstr path)).
Proof.
  intros Hz Hn. assert (Hle : (length path ≤ length path)%nat) by lia. revert Hle.
  generalize (length path) at 2 3 as fuel. intros fuel. revert path name Hz Hn.
  induction fuel as [|fuel IH]; intros path name Hz Hn Hle;
    pose proof (skipelem_spec path name Hz Hn) as Hs; cbn [elems_loop];
    destruct (path_elems (Str.cstr path)) as [|e es].
  - by rewrite Hs.
  - destruct Hs as (p' & _ & _ & _ & Hlt & _). lia.
  - by rewrite Hs.
  - destruct Hs as (p' & -> & Hz' & Hes & Hlt & He & _).
    destruct (stored_spec e name He Hn) as (Hl & Ht & _).
    rewrite IH by (done || lia). unfold mbind, option_bind. by rewrite Hes, Ht.
Qed.

(** The path "//a/bb". *)
Lemma skipelem_components_witness :
  elems_loop (length [47; 47; 97; 47; 98; 98; 0]) [47; 47; 97; 47; 98; 98; 0] (replicate 14 0)
  = Some [[97]; [98; 98]].
Proof.
  rewrite (skipelem_components [47; 47; 97; 47; 98; 98; 0] (replicate 14 0)).
  - reflexivity.
  - by apply (bool_decide_unpack _).
  - reflexivity.
Defined.

End Path.
