(* ===== verification/DirSpec.v ===== *)
(** Directory lookup: [dirlookup] against the list of entries of a directory. *)

From S2P Require Import Prelude CString Sleeplock BlockIO Balloc Inode InodeSpec BlockMap FileData Dir.
Import Ext2 Inode InodeSpec BlockMap FileData Dir.

Local Open Scope Z_scope.

Module DirSpec.

(** * Reference: a directory as a list of entries *)

Record dent := MkDent { dn_ino : Z; dn_rec : Z; dn_name : list Z }.

(** The bytes [de] of a directory entry encode [e]. *)
Record encodes (de : list Z) (e : dent) : Prop := {
  en_ino : de_inode de = dn_ino e;
  en_rec : de_rec_len de = dn_rec e;
  en_len : de_name_len de = Z.of_nat (length (dn_name e));
  en_name : take (length (dn_name e)) (de_name de) = dn_name e;
  en_nz : Forall (λ c, c ≠ 0) (dn_name e);
  en_ne : dn_ino e ≠ 0 → dn_name e ≠ [];
}.

(** From byte [off] on, the directory holds the entries [es].  As [dirlookup]
    reads a whole [struct ext2_dirent] at each entry, an entry starts at least
    that many bytes before the end. *)
Fixpoint dir_at (d : disk_map) (addrs : list Z) (size off : Z) (es : list dent) : Prop :=
  match es with
  | [] => size ≤ off
  | e :: es =>
      off + 264 ≤ size ∧ encodes (content d addrs off 264) e ∧ 0 < dn_rec e < 2 ^ 16 ∧
      dir_at d addrs size (off + dn_rec e) es
  end.

(** Two names are the same to [namecmp]; an entry matches a name directly or
    with an underscore in front, as the programs of the disk image have. *)
Definition same_name (a b : list Z) : Prop := take DIRSIZ a = take DIRSIZ b.
Definition matches (name : list Z) (e : dent) : Prop :=
  dn_ino e ≠ 0 ∧
  (same_name name (dn_name e) ∨ (head (dn_name e) = Some underscore ∧ same_name name (tail (dn_name e)))).

#[export] Instance same_name_dec a b : Decision (same_name a b).
Proof. unfold same_name. apply _. Defined.
#[export] Instance matches_dec name e : Decision (matches name e).
Proof. unfold matches. apply _. Defined.

(** The first match and its offset. *)
Fixpoint find_entry (name : list Z) (off : Z) (es : list dent) : option (Z * dent) :=
  match es with
  | [] => None
  | e :: es => if bool_decide (matches name e) then Some (off, e)
               else find_entry name (off + dn_rec e) es
  end.

(** * Comparing names *)

Lemma copy_name_spec fn de e :
  encodes de e → length fn = 256%nat → (length (dn_name e) ≤ 255)%nat →
  (length (dn_name e) ≤ length (de_name de))%nat →
  copy_name fn de = Some (dn_name e ++ 0 :: drop (S (length (dn_name e))) fn).
Proof.
  intros [_ _ Hlen Hname Hnz _] Hfn Hle Hde. unfold copy_name. cbv zeta. rewrite Hlen, Nat2Z.id.
  set (nm := dn_name e) in *. set (n := length nm) in *.
  assert (Hc : take n (Str.cstr (de_name de)) = nm ∧ (n ≤ length (Str.cstr (de_name de)))%nat).
  { rewrite <-(take_drop n (de_name de)), Hname. generalize (drop n (de_name de)) as k.
    clear -Hnz. unfold n. clearbody nm. intros k.
    induction Hnz as [|c l Hc _ IH]; [split; [done|simpl; lia]|]. simpl.
    rewrite bool_decide_false by done. simpl. destruct IH as [-> ?]. split; [done|lia]. }
  destruct Hc as [Hc Hcl].
  rewrite Str.strncpy_spec by (lia || left; lia).
  rewrite Hc. replace (n - length (Str.cstr (de_name de)))%nat with 0%nat by lia.
  cbn [replicate app]. unfold mbind, option_bind.
  rewrite bool_decide_true by (rewrite length_app, length_drop; lia).
  f_equal. rewrite insert_app_r_alt by done. f_equal.
  replace (n - length nm)%nat with 0%nat by (unfold n; lia).
  destruct (drop n fn) as [|c r] eqn:Hd.
  - exfalso. apply (f_equal length) in Hd. rewrite length_drop in Hd. simpl in Hd. lia.
  - simpl. f_equal. replace (S n) with (n + 1)%nat by lia. by rewrite <-drop_drop, Hd.
Qed.

Lemma de_matches_spec name fn de e :
  encodes de e → dn_ino e ≠ 0 → bytes name → Str.readable name DIRSIZ →
  bytes (dn_name e) → bytes fn →
  de_matches name (dn_name e ++ 0 :: fn) de = Some (bool_decide (matches (Str.cstr name) e)).
Proof.
  intros [_ _ Hlen Hname Hnz Hne] Hino Hb Hr Hbn Hbf. specialize (Hne Hino).
  destruct e as [ino rec [|c nm]]; cbn [dn_name dn_ino] in *; [done|]. clear Hne.
  assert (Hc : de_name de !! 0%nat = Some c).
  { change (take (S (length nm)) (de_name de) = c :: nm) in Hname.
    destruct (de_name de); simpl in *; [done|congruence]. }
  apply Forall_cons in Hnz as [Hc0 Hnz], Hbn as [Hbc Hbn].
  unfold de_matches, namecmp. change (drop 1 ((c :: nm) ++ 0 :: fn)) with (nm ++ 0 :: fn).
  assert (H0 : ∀ l, bytes l → bytes (l ++ 0 :: fn)).
  { intros l Hl. rewrite bytes_app. split; [done|]. constructor; [wrap_lia|done]. }
  destruct (Str.strncmp_zero DIRSIZ name (nm ++ 0 :: fn)) as (r1 & -> & Hr1); auto.
  { right. apply elem_of_app. right. by left. }
  destruct (Str.strncmp_zero DIRSIZ name ((c :: nm) ++ 0 :: fn)) as (r2 & Hr2' & Hr2); auto.
  { apply H0. by constructor. }
  { right. apply elem_of_app. right. by left. }
  rewrite Str.cstr_app_nul in Hr1 by done.
  rewrite Str.cstr_app_nul in Hr2 by (by constructor).
  unfold mbind, option_bind. rewrite Hc, Hr2'.
  assert (Hm : matches (Str.cstr name) (MkDent ino rec (c :: nm)) ↔ r2 = 0 ∨ (r1 = 0 ∧ c = underscore)).
  { unfold matches, same_name. cbn [dn_ino dn_name head tail]. rewrite Hr1, Hr2.
    split; [intros [_ [?|[[= ->] ?]]]; tauto|intros [?|[? ->]]; tauto]. }
  case_bool_decide as Hu.
  - rewrite bool_decide_true; [done|]. tauto.
  - f_equal. apply bool_decide_ext. tauto.
Qed.

(** * The scan *)

Lemma dir_at_length d addrs size es : ∀ off,
  0 ≤ off → dir_at d addrs size off es → (length es ≤ Z.to_nat (size - off))%nat.
Proof.
  induction es as [|e es IH]; intros off H0; cbn [dir_at length]; [lia|].
  intros (? & _ & ? & Hd). apply IH in Hd; lia.
Qed.

Section scan.
Context {D : Type} {BIO : BlockIO D} {LAWS : BlockIOLaws D}.

Lemma content_bytes dev t d H tr addrs off n :
  rep dev t d H tr → bytes (content d addrs off n).
Proof.
  intros Hr. apply Forall_fmap, Forall_forall. intros i _. unfold compose, file_byte.
  destruct (d !! _) as [b|] eqn:Hb; [|wrap_lia].
  destruct (rep_block _ _ _ _ _ _ _ Hr Hb) as [Hl Hbb].
  destruct (decide (Z.to_nat ((off + Z.of_nat i) mod 1024) < length b)%nat) as [Hlt|Hge].
  - eapply (Forall_lookup_1 is_u8); [exact Hbb|by apply list_lookup_lookup_total_lt].
  - unfold BSIZE in Hl. exfalso. zlia.
Qed.

Lemma file_access_io dev used (s : fs D) d H tr ip x t :
  file_access dev used s d H tr ip x → rep dev t d H tr →
  file_access dev used (with_io t s) d H tr ip x.
Proof. intros [] Hr. by constructor. Qed.

(** Reading the entry at [off]. *)
Lemma wp_read_entry dev used (s : fs D) d H tr dp x off (Q : Z * list Z → fs D → Prop) :
  file_access dev used s d H tr dp x → 0 ≤ off → off + 264 ≤ i_size x →
  (∀ t, rep dev t d H tr → Q (264, content d (i_addrs x) off 264) (with_io t s)) →
  wp (readi_buf dp off (Z.of_nat sizeof_ext2_dirent) (replicate sizeof_ext2_dirent 0)) Q s.
Proof.
  intros Ha H0 Hoff HQ. pose proof (fa_size _ _ _ _ _ _ _ _ Ha) as Hsz. eapply wp_mono.
  { eapply readi_buf_spec; [done|lia|unfold sizeof_ext2_dirent; lia..|].
    by rewrite length_replicate. }
  intros [r buf] s' (-> & -> & t & Hr & ->).
  assert (Hrl : read_len (i_size x) off (Z.of_nat sizeof_ext2_dirent) = 264).
  { unfold read_len, sizeof_ext2_dirent. by rewrite bool_decide_false by lia. }
  rewrite Hrl. unfold splice. rewrite take_0, length_content. cbn [app Nat.add].
  rewrite drop_ge, app_nil_r by (rewrite length_replicate; unfold sizeof_ext2_dirent; lia). auto.
Qed.

Lemma encodes_lengths dev t d H tr addrs off e :
  rep dev t d H tr → encodes (content d addrs off 264) e →
  (length (dn_name e) ≤ 255)%nat ∧ length (de_name (content d addrs off 264)) = 256%nat ∧
  bytes (dn_name e).
Proof.
  intros Hr [_ _ Hlen Hname _ _]. pose proof (content_bytes _ _ _ _ _ addrs off 264 Hr) as Hb.
  pose proof (rd_range 1 6 _ Hb) as Hrd. rewrite length_content in Hrd.
  unfold de_name_len, de_name in *. rewrite length_drop, length_content. split_and!; [lia|done|].
  rewrite <-Hname. by apply bytes_take, bytes_drop.
Qed.

Lemma dirlookup_loop_spec dev used d H tr dp x name : ∀ fuel (s : fs D) off es fn,
  file_access dev used s d H tr dp x → bytes name → Str.readable name DIRSIZ →
  dir_at d (i_addrs x) (i_size x) off es → 0 ≤ off → length fn = 256%nat → bytes fn →
  (length es ≤ fuel)%nat →
  ∃ t, rep dev t d H tr ∧ dirlookup_loop fuel dp name off fn s =
    match find_entry (Str.cstr name) off es with
    | Some (o, e) => (ip ← iget dev (dn_ino e); mret (Some (ip, o))) (with_io t s)
    | None => Ok None (with_io t s)
    end.
Proof.
  induction fuel as [|fuel IH]; intros s off es fn Ha Hb Hrd Hdir H0 Hfn Hbf Hfuel;
    pose proof (fa_rep _ _ _ _ _ _ _ _ Ha) as Hr; pose proof (fa_ip _ _ _ _ _ _ _ _ Ha) as Hx;
    cbn [dirlookup_loop]; erewrite bind_ok by (by apply rdi_ok);
    (destruct es as [|e es];
     [cbn [dir_at] in Hdir; rewrite bool_decide_false by lia; exists (io s); by rewrite with_io_id|]).
  { simpl in Hfuel. lia. }
  destruct Hdir as (Hoff & Henc & Hrec & Hdir). rewrite bool_decide_true by lia.
  pose proof (encodes_lengths _ _ _ _ _ _ _ _ Hr Henc) as (Hl1 & Hl2 & Hbn).
  pose proof (fa_size _ _ _ _ _ _ _ _ Ha) as Hsz.
  match goal with |- context [mbind ?f ?m s] =>
    assert (Hw : wp m (λ p s', p = (264, content d (i_addrs x) off 264) ∧
      ∃ t, rep dev t d H tr ∧ s' = with_io t s) s) end.
  { eapply wp_read_entry; [done|done|done|]. eauto. }
  destruct (proj1 (wp_ok _ _ _) Hw) as (p & s1 & Hrun & -> & t1 & Hr1 & ->). clear Hw.
  run. rewrite bool_decide_false by (intros Hne; by apply Hne).
  pose proof Henc as [Hino Hrl _ _ _ _]. rewrite Hino, Hrl.
  rewrite (u32_id (off + dn_rec e)) by wrap_lia.
  pose proof (file_access_io _ _ _ _ _ _ _ _ t1 Ha Hr1) as Ha1.
  cbn [find_entry]. case_bool_decide as Hz.
  { rewrite bool_decide_false by (intros [? _]; done).
    destruct (IH (with_io t1 s) (off + dn_rec e) es fn) as (t2 & Hr2 & ->); try done;
      [lia|simpl in Hfuel; lia|]. by exists t2. }
  rewrite (copy_name_spec fn _ e) by (done || lia). run.
  rewrite (de_matches_spec name _ _ e) by (done || by apply bytes_drop). run.
  rewrite (fa_dev _ _ _ _ _ _ _ _ Ha).
  case_bool_decide as Hm; [by exists t1|].
  destruct (IH (with_io t1 s) (off + dn_rec e) es
    (dn_name e ++ 0 :: drop (S (length (dn_name e))) fn)) as (t2 & Hr2 & ->); try done;
    [lia| | |simpl in Hfuel; lia|by exists t2].
  - rewrite length_app. cbn [length]. rewrite length_drop. lia.
  - rewrite bytes_app. split; [done|]. constructor; [wrap_lia|by apply bytes_drop].
Qed.

Lemma dirlookup_spec stk dev used (s : fs D) d H tr dp x name es :
  file_access dev used s d H tr dp x → i_type x = T_DIR → bytes name → Str.readable name DIRSIZ →
  dir_at d (i_addrs x) (i_size x) 0 es → length stk = 256%nat → bytes stk →
  ∃ t, rep dev t d H tr ∧ dirlookup stk dp name s =
    match find_entry (Str.cstr name) 0 es with
    | Some (o, e) => (ip ← iget dev (dn_ino e); mret (Some (ip, o))) (with_io t s)
    | None => Ok None (with_io t s)
    end.
Proof.
  intros Ha Ht Hb Hr Hd Hs Hbs. unfold dirlookup.
  erewrite bind_ok by (apply rdi_ok; by apply (fa_ip _ _ _ _ _ _ _ _ Ha)).
  rewrite bool_decide_false by (intros Hne; by apply Hne).
  eapply dirlookup_loop_spec; try done. pose proof (dir_at_length _ _ _ _ 0 ltac:(lia) Hd) as Hl.
  rewrite Z.sub_0_r in Hl. lia.
Qed.

Definition sum_rec (es : list dent) : Z := foldr (λ e n, dn_rec e + n) 0 es.

Lemma find_entry_split name es : ∀ off,
  match find_entry name off es with
  | Some (o, e) => ∃ es1 es2, es = es1 ++ e :: es2 ∧ matches name e ∧
      Forall (λ e, ¬ matches name e) es1 ∧ o = off + sum_rec es1
  | None => Forall (λ e, ¬ matches name e) es
  end.
Proof.
  induction es as [|e es IH]; intros off; cbn [find_entry]; [constructor|].
  case_bool_decide as Hm.
  - exists [], es. split_and!; [done|apply Hm..|constructor|simpl; lia].
  - specialize (IH (off + dn_rec e)). destruct (find_entry name (off + dn_rec e) es) as [[o e']|].
    + destruct IH as (es1 & es2 & -> & Hm' & Hall & ->). exists (e :: es1), es2.
      split_and!; [done|apply Hm'..|by constructor|simpl; lia].
    + by constructor.
Qed.

(** C13: [dirlookup] on a directory whose entries can all be read returns, and
    gives the first entry that matches the name - in the first fourteen
    characters, possibly with an underscore in front - with its offset and a
    reference to its inode from [iget]; if no entry matches it returns null.
    Nothing on the disk changes. *)
Theorem dirlookup_first_match stk dev used (s : fs D) d H tr dp x name es :
  file_access dev used s d H tr dp x → i_type x = T_DIR → bytes name → Str.readable name DIRSIZ →
  dir_at d (i_addrs x) (i_size x) 0 es → length stk = 256%nat → bytes stk →
  ∃ t, rep dev t d H tr ∧
    ((∃ es1 e es2, es = es1 ++ e :: es2 ∧ matches (Str.cstr name) e ∧
        Forall (λ e', ¬ matches (Str.cstr name) e') es1 ∧
        dirlookup stk dp name s =
          (ip ← iget dev (dn_ino e); mret (Some (ip, sum_rec es1))) (with_io t s)) ∨
     (Forall (λ e', ¬ matches (Str.cstr name) e') es ∧
        dirlookup stk dp name s = Ok None (with_io t s))).
Proof.
  intros Ha Ht Hb Hr Hd Hs Hbs.
  destruct (dirlookup_spec stk dev used s d H tr dp x name es) as (t & Hrt & ->); try done.
  exists t. split; [done|]. pose proof (find_entry_split (Str.cstr name) es 0) as Hf.
  destruct (find_entry (Str.cstr name) 0 es) as [[o e]|]; [left|by right].
  destruct Hf as (es1 & es2 & -> & Hm & Hall & ->). exists es1, e, es2. done.
Qed.

(** C36: a directory entry with [rec_len] 0 that does not match stops
    [dirlookup] for ever: whatever number of iterations is allowed, the scan
    that has reached it does not return.  A cleared entry, such as the sixteen
    zero bytes [sys_unlink] writes over an ext2 entry, is of that kind. *)
Theorem dirlookup_diverges dev used d H tr dp x name off e fuel : ∀ (s : fs D) fn,
  file_access dev used s d H tr dp x → bytes name → Str.readable name DIRSIZ →
  0 ≤ off → off + 264 ≤ i_size x → encodes (content d (i_addrs x) off 264) e → dn_rec e = 0 →
  ¬ matches (Str.cstr name) e → length fn = 256%nat → bytes fn →
  dirlookup_loop fuel dp name off fn s = NoFuel.
Proof.
  induction fuel as [|fuel IH]; intros s fn Ha Hb Hrd H0 Hoff Henc Hrec Hm Hfn Hbf;
    pose proof (fa_rep _ _ _ _ _ _ _ _ Ha) as Hr; pose proof (fa_ip _ _ _ _ _ _ _ _ Ha) as Hx;
    cbn [dirlookup_loop]; erewrite bind_ok by (by apply rdi_ok);
    rewrite bool_decide_true by lia; [done|].
  pose proof (encodes_lengths _ _ _ _ _ _ _ _ Hr Henc) as (Hl1 & Hl2 & Hbn).
  pose proof (fa_size _ _ _ _ _ _ _ _ Ha) as Hsz.
  match goal with |- mbind ?f ?m s = _ =>
    assert (Hw : wp m (λ p s', p = (264, content d (i_addrs x) off 264) ∧
      ∃ t, rep dev t d H tr ∧ s' = with_io t s) s) end.
  { eapply wp_read_entry; [done|done|done|]. eauto. }
  destruct (proj1 (wp_ok _ _ _) Hw) as (p & s1 & Hrun & -> & t1 & Hr1 & ->). clear Hw.
  run. rewrite bool_decide_false by (intros Hne; by apply Hne).
  pose proof Henc as [Hino Hrl _ _ _ _]. rewrite Hino, Hrl, Hrec, Z.add_0_r, u32_id by wrap_lia.
  pose proof (file_access_io _ _ _ _ _ _ _ _ t1 Ha Hr1) as Ha1.
  case_bool_decide as Hz; [by apply IH|].
  rewrite (copy_name_spec fn _ e) by (done || lia). run.
  rewrite (de_matches_spec name _ _ e) by (done || by apply bytes_drop). run.
  rewrite bool_decide_false by done. apply IH; try done.
  - rewrite length_app. cbn [length]. rewrite length_drop. lia.
  - rewrite bytes_app. split; [done|]. constructor; [wrap_lia|by apply bytes_drop].
Qed.

End scan.
End DirSpec.
