(* ===== verification/NameSpec.v ===== *)
(** Path resolution: [namex], [namei] and [nameiparent] against a walk of an
    abstract directory tree. *)

From S2P Require Import Prelude CString Sleeplock BlockIO Balloc Inode InodeSpec DiskInode.
From S2P Require Import BlockMap FileData Dir Path DirSpec.
Import Ext2 Inode InodeSpec DiskInode BlockMap FileData Dir Path DirSpec.

Local Open Scope Z_scope.

Module NameSpec.

(** * Reference: a tree of directories *)

(** For each inode number, the entries of the directory it is, or [None] for a
    plain file. *)
Abbreviation fs_tree := (gmap Z (option (list dent))).

(** The inode a path with components [elems] leads to from [inum]; with
    [parent] the one of the directory that holds the last component. *)
Fixpoint resolve (tree : fs_tree) (inum : Z) (parent : bool) (elems : list (list Z)) : option Z :=
  match elems with
  | [] => if parent then None else Some inum
  | e :: es =>
      match tree !! inum with
      | Some (Some ents) =>
          if (parent && bool_decide (es = []))%bool then Some inum else
          match find_entry e 0 ents with
          | Some (_, de) => resolve tree (dn_ino de) parent es
          | None => None
          end
      | _ => None
      end
  end.

(** What inode [inum] looks like once read from the disk. *)
Definition loaded (d : disk_map) (inum : Z) (x : inode) : inode := fill (dinode_at d inum) x.

Lemma loaded_eq d inum x :
  loaded d inum x =
    MkInode (i_dev x) (i_inum x) (i_ref x) (i_lock x) true (i_type (loaded d inum x)) 0 0
      (s16 (di_links_count (dinode_at d inum))) (di_size (dinode_at d inum))
      (di_block (dinode_at d inum)).
Proof. reflexivity. Qed.
Lemma loaded_set_ref d inum r x : loaded d inum (set_ref r x) = set_ref r (loaded d inum x).
Proof. by rewrite (loaded_eq d inum (set_ref r x)), (loaded_eq d inum x). Qed.
Lemma loaded_set_lock d inum lk x : loaded d inum (set_lock lk x) = set_lock lk (loaded d inum x).
Proof. by rewrite (loaded_eq d inum (set_lock lk x)), (loaded_eq d inum x). Qed.
Lemma loaded_loaded d inum x : loaded d inum (loaded d inum x) = loaded d inum x.
Proof. by rewrite (loaded_eq d inum (loaded d inum x)), (loaded_eq d inum x). Qed.

(** The disk [d] holds the tree. *)
Record node_ok (d : disk_map) (tree : fs_tree) (inum : Z) (t : option (list dent)) : Prop := {
  no_access : inode_access d ∅ inum;
  no_links x : i_nlink (loaded d inum x) ≠ 0;
  no_type x : i_type (loaded d inum x) = match t with Some _ => T_DIR | None => T_FILE end;
  no_dir ents x : t = Some ents →
    file_ok d [] (i_addrs (loaded d inum x)) (i_size (loaded d inum x)) ∧
    0 ≤ i_size (loaded d inum x) < 2 ^ 31 ∧
    dir_at d (i_addrs (loaded d inum x)) (i_size (loaded d inum x)) 0 ents;
  no_child ents e : t = Some ents → e ∈ ents → dn_ino e ≠ 0 → is_Some (tree !! dn_ino e);
}.
Definition tree_ok (d : disk_map) (tree : fs_tree) : Prop :=
  ∀ inum t, tree !! inum = Some t → node_ok d tree inum t.

(** Only the first fourteen characters of a name count. *)
Lemma find_entry_same a b off es : same_name a b → find_entry a off es = find_entry b off es.
Proof.
  intros Hab. revert off. induction es as [|e es IH]; intros off; cbn [find_entry]; [done|].
  rewrite IH. rewrite (bool_decide_ext (matches a e) (matches b e)); [done|].
  unfold matches, same_name in *. by rewrite Hab.
Qed.

Lemma find_entry_in a off es o e : find_entry a off es = Some (o, e) → e ∈ es ∧ dn_ino e ≠ 0.
Proof.
  intros Hf. pose proof (find_entry_split a es off) as Hs. rewrite Hf in Hs.
  destruct Hs as (es1 & es2 & -> & [Hi _] & _). split; [|done].
  apply elem_of_app. right. by left.
Qed.

(** A walk stays in the tree. *)
Lemma resolve_in d tree : tree_ok d tree → ∀ elems n parent m, is_Some (tree !! n) → resolve tree n parent elems = Some m → is_Some (tree !! m).
Proof.
  intros Htree. induction elems as [|e es IH]; intros n parent m [t Ht]; cbn [resolve]; [destruct parent; [done|]; intros [= <-]; by eexists|].
  rewrite Ht. destruct t as [ents|]; [|done]. destruct (parent && bool_decide (es = [])); [intros [= <-]; by eexists|].
  destruct (find_entry e 0 ents) as [[o de]|] eqn:Hf; [|done]. apply IH. apply find_entry_in in Hf as [Hin Hne]. by eapply (no_child _ _ _ _ (Htree n _ Ht)).
Qed.

(** * States between system calls *)

Section names.
Context {D : Type} {BIO : BlockIO D} {LAWS : BlockIOLaws D}.

(** An entry that nobody has locked and that, if it is valid, agrees with the
    disk. *)
Definition settled (dev : Z) (d : disk_map) (x : inode) : Prop :=
  sl_locked (i_lock x) = false ∧
  (i_dev x = dev → 0 < i_ref x → i_valid x = true → loaded d (i_inum x) x = x).

(** No buffer is held, the references are those of [R], every entry is settled. *)
Record quiet (dev : Z) (s : fs D) (d : disk_map) (tr : write_trace) (R : refs) : Prop := {
  q_rep : rep dev (io s) d ∅ tr;
  q_refs : refs_ok s R;
  q_settled i x : itab s !! i = Some x → settled dev d x;
}.

Lemma refs_ok_io (s : fs D) t R : refs_ok s R → refs_ok (with_io t s) R.
Proof. by intros []. Qed.

Lemma quiet_io dev s t d tr R : quiet dev s d tr R → rep dev t d ∅ tr → quiet dev (with_io t s) d tr R.
Proof. intros [] Hr. constructor; [done|by apply refs_ok_io|done]. Qed.

(** Replacing one entry by another with the same identity and count. *)
Lemma quiet_insert dev s d tr R ip x y :
  quiet dev s d tr R → itab s !! ip = Some x → id_of y = id_of x → settled dev d y →
  quiet dev (with_itab (<[ip := y]> (itab s)) s) d tr R.
Proof.
  intros [Hr Hok Hset] Hx Hid Hy. constructor; [done| |].
  - eapply refs_ok_same; [done|]. by eapply same_ids_insert.
  - intros i z Hz. simpl in Hz. apply list_lookup_insert_Some in Hz as [(-> & <- & _)|[_ Hz]]; eauto.
Qed.

(** [iget] when an entry is free. *)
Lemma iget_step (s : fs D) R dev inum :
  refs_ok s R → (∃ i x, itab s !! i = Some x ∧ i_ref x = 0) → (∀ i, R i + 1 < 2 ^ 31) →
  ∃ ip x y, iget dev inum s = Ok ip (with_itab (<[ip := y]> (itab s)) s) ∧
    itab s !! ip = Some x ∧ is_inode dev inum y ∧
    refs_ok (with_itab (<[ip := y]> (itab s)) s) (add_ref 1 ip R) ∧
    ((0 < i_ref x ∧ is_inode dev inum x ∧ y = set_ref (i_ref x + 1) x) ∨
     (i_ref x = 0 ∧ y = set_valid false (set_ref 1 (set_id dev inum x)))).
Proof.
  intros Hok (k & z & Hz & Hz0) Hb.
  destruct (iget_run s R dev inum Hok) as
    [(i & x & Hx & Hr & Hid & E)|[(i & x & Hx & Hr & Hno & E)|[Hall E]]].
  - destruct (ro_cnt _ _ Hok i x Hx) as [Hri Hrb]. rewrite s32_id in E by (specialize (Hb i); lia).
    exists i, x, (set_ref (i_ref x + 1) x). split; [done|]. split; [done|]. split; [by destruct Hid|].
    split; [|by left]. rewrite Hri. apply refs_ok_count; [done..|lia|specialize (Hb i); lia].
  - exists i, x, (set_valid false (set_ref 1 (set_id dev inum x))).
    split; [done|]. split; [done|]. split; [done|]. split; [by apply refs_ok_recycle|by right].
  - exfalso. destruct (Hall k z Hz). lia.
Qed.

(** A settled table stays settled under [iget]. *)
Lemma iget_quiet (s : fs D) d tr R dev inum :
  quiet dev s d tr R → (∃ i, (i < NINODE)%nat ∧ R i = 0) → (∀ i, R i + 1 < 2 ^ 31) →
  ∃ ip y s', iget dev inum s = Ok ip s' ∧ quiet dev s' d tr (add_ref 1 ip R) ∧
    itab s' !! ip = Some y ∧ is_inode dev inum y ∧ cwd s' = cwd s.
Proof.
  intros [Hr Hok Hset] (k & Hk & HRk) Hb.
  destruct (lookup_lt_is_Some_2 (itab s) k) as [z Hz]; [by rewrite (ro_len _ _ Hok)|].
  destruct (ro_cnt _ _ Hok k z Hz) as [Hzk _].
  destruct (iget_step s R dev inum Hok) as (ip & x & y & Hrun & Hx & Hid & Hok' & Hy);
    [exists k, z; split; [done|lia]|done|].
  eexists ip, y, _. split; [exact Hrun|]. simpl. split_and!; [| |apply Hid..|done].
  - constructor; [done|done|]. simpl. intros i w Hw.
    apply list_lookup_insert_Some in Hw as [(-> & <- & _)|[_ Hw]]; [|eauto].
    destruct (Hset i x Hx) as [Hl Hc].
    destruct Hy as [(Hp & _ & ->)|(_ & ->)]; (split; [done|]); [|done].
    intros Hd _ Hv. rewrite loaded_set_ref. f_equal. by apply Hc.
  - apply list_lookup_insert_eq. by eapply lookup_lt_Some.
Qed.

Lemma quiet_ext dev s d tr R R' : (∀ i, R i = R' i) → quiet dev s d tr R → quiet dev s d tr R'.
Proof.
  intros HR [Hr [Hlen Hcnt Hout Huniq] Hset]. constructor; [done| |done].
  constructor; [done| | |done].
  - intros i x Hx. rewrite <-HR. by apply Hcnt.
  - intros i Hi. rewrite <-HR. by apply Hout.
Qed.

(** The locked entry during a visit. *)
Definition visiting (s : fs D) (d : disk_map) (inum : Z) (x : inode) : inode :=
  set_lock (MkSleeplock true (curpid s)) (loaded d inum x).

Lemma set_lock_twice a b x : set_lock a (set_lock b x) = set_lock a x.
Proof. reflexivity. Qed.
Lemma loaded_id d inum x dev n : is_inode dev n x → is_inode dev n (loaded d inum x).
Proof. rewrite loaded_eq. done. Qed.
Lemma set_lock_id dev n lk x : is_inode dev n x → is_inode dev n (set_lock lk x).
Proof. done. Qed.
Lemma loaded_id_of d inum lk x : id_of (set_lock lk (loaded d inum x)) = id_of x.
Proof. by rewrite loaded_eq. Qed.

Lemma ilock_quiet dev s d tr R ip x inum :
  quiet dev s d tr R → itab s !! ip = Some x → is_inode dev inum x → 0 < i_ref x →
  inode_access d ∅ inum →
  ∃ t, rep dev t d ∅ tr ∧ ilock (Some ip) s =
    Ok tt (with_io t (with_itab (<[ip := visiting s d inum x]> (itab s)) s)).
Proof.
  intros [Hr Hok Hset] Hx [Hd Hi] Href Hacc. destruct (Hset ip x Hx) as [Hl Hc].
  destruct (proj1 (wp_ok _ _ _) (ilock_spec dev s d ∅ tr ip x Hr Hx Hd Href Hl
    ltac:(by rewrite Hi))) as ([] & s' & Hrun & t & Hrt & ->).
  exists t. split; [done|]. rewrite Hrun. do 4 f_equal. unfold locked_by, visiting.
  rewrite <-Hi. destruct (i_valid x) eqn:Hv; [by rewrite Hc|reflexivity].
Qed.

Lemma iput_keep s R ip x :
  refs_ok s R → itab s !! ip = Some x → 0 < R ip → (i_valid x = true → i_nlink x ≠ 0) →
  iput ip s = Ok tt (with_itab (<[ip := set_ref (i_ref x - 1) x]> (itab s)) s) ∧
  refs_ok (with_itab (<[ip := set_ref (i_ref x - 1) x]> (itab s)) s) (add_ref (-1) ip R).
Proof.
  intros Hok Hx H0 Hv. destruct (ro_cnt _ _ Hok ip x Hx) as [Hr Hb]. split.
  - unfold iput. erewrite bind_ok by (by apply rdi_ok). run.
    rewrite bool_decide_false by (intros (_ & Hval & Hn); by apply Hv in Hval). run.
    erewrite updi_ok by done. by rewrite s32_id by lia.
  - rewrite Hr. apply refs_ok_count; [done..|lia].
Qed.

Lemma iput_quiet dev s d tr R ip x inum :
  quiet dev s d tr R → itab s !! ip = Some x → is_inode dev inum x → 0 < R ip →
  (∀ y, i_nlink (loaded d inum y) ≠ 0) →
  ∃ s', iput ip s = Ok tt s' ∧ quiet dev s' d tr (add_ref (-1) ip R) ∧ cwd s' = cwd s ∧
    (∀ i w dv n, itab s !! i = Some w → is_inode dv n w →
       ∃ w', itab s' !! i = Some w' ∧ is_inode dv n w').
Proof.
  intros [Hr Hok Hset] Hx [Hd Hi] H0 Hn. destruct (ro_cnt _ _ Hok ip x Hx) as [Hri Hb].
  destruct (Hset ip x Hx) as [Hl Hc].
  destruct (iput_keep s R ip x Hok Hx H0) as [Hrun Hok'].
  { intros Hv. rewrite <-Hc by (done || lia). rewrite Hi. apply Hn. }
  eexists. split; [exact Hrun|]. split; [|split; [done|]].
  2:{ intros i w dv n Hw Hidw. simpl. destruct (decide (ip = i)) as [->|Hne].
      - rewrite list_lookup_insert_eq by (by eapply lookup_lt_Some). rewrite Hx in Hw.
        injection Hw as ->. eauto.
      - rewrite list_lookup_insert_ne by done. eauto. }
  constructor; [done|done|].
  intros i w Hw. simpl in Hw. apply list_lookup_insert_Some in Hw as [(-> & <- & _)|[_ Hw]]; [|eauto].
  split; [done|]. intros _ Hp Hv. simpl in Hp, Hv. rewrite loaded_set_ref. f_equal.
  apply Hc; [done|lia|done].
Qed.

(** * Visits

    While [namex] holds the lock of entry [ip], the state it will leave by
    unlocking it is [unlocked ip s]. *)

Definition unlocked (ip : nat) (s : fs D) : fs D :=
  with_itab (alter (set_lock (MkSleeplock false 0)) ip (itab s)) s.

Lemma iget_scan_unlocked dev inum ip l : ∀ i e,
  iget_scan dev inum (alter (set_lock (MkSleeplock false 0)) ip l) i e = iget_scan dev inum l i e.
Proof.
  revert ip. induction l as [|x l IH]; intros ip i e; [done|].
  destruct ip as [|ip]; cbn [alter list_alter iget_scan]; [done|]. by rewrite IH.
Qed.

(** Reference counts and locks do not interfere. *)
Lemma updi_unlocked ip jp f (s : fs D) :
  (∀ lk x, f (set_lock lk x) = set_lock lk (f x)) →
  match updi jp f s with
  | Ok _ s' => updi jp f (unlocked ip s) = Ok tt (unlocked ip s')
  | _ => True
  end.
Proof.
  intros Hf. unfold updi, rdi, mbind, M_bind, get. destruct (itab s !! jp) as [x|] eqn:Hx; [|done].
  simpl. destruct (decide (ip = jp)) as [->|Hne].
  - rewrite list_lookup_alter_eq, Hx. simpl. unfold modify, unlocked, with_itab. simpl.
    f_equal. f_equal. apply list_eq. intros k.
    destruct (decide (jp = k)) as [->|Hk].
    + rewrite list_lookup_alter_eq, !list_lookup_insert_eq
        by (rewrite ?length_alter; by eapply lookup_lt_Some). simpl. by rewrite Hf.
    + by rewrite list_lookup_alter_ne, !list_lookup_insert_ne, list_lookup_alter_ne.
  - rewrite list_lookup_alter_ne, Hx by done. simpl. unfold modify, unlocked, with_itab. simpl.
    f_equal. f_equal. apply list_eq. intros k.
    destruct (decide (ip = k)) as [->|Hk].
    + rewrite list_lookup_alter_eq, list_lookup_insert_ne, list_lookup_alter_eq,
        list_lookup_insert_ne by done. done.
    + rewrite list_lookup_alter_ne by done. destruct (decide (jp = k)) as [->|Hk2].
      * by rewrite !list_lookup_insert_eq by (rewrite ?length_alter; by eapply lookup_lt_Some).
      * by rewrite !list_lookup_insert_ne, list_lookup_alter_ne.
Qed.

Lemma iget_eq dev inum (s : fs D) :
  iget dev inum s =
    match iget_scan dev inum (itab s) 0 None with
    | inl jp => (updi jp (λ x, set_ref (s32 (i_ref x + 1)) x);; mret jp) s
    | inr None => Panic "iget: no inodes"
    | inr (Some jp) => (updi jp (λ x, set_valid false (set_ref 1 (set_id dev inum x)));; mret jp) s
    end.
Proof. unfold iget, mbind at 1, M_bind at 1, get. by destruct (iget_scan _ _ _ _ _) as [|[]]. Qed.

Lemma iget_unlocked dev inum ip (s : fs D) :
  match iget dev inum s with
  | Ok n s' => iget dev inum (unlocked ip s) = Ok n (unlocked ip s')
  | Panic e => iget dev inum (unlocked ip s) = Panic e
  | _ => True
  end.
Proof.
  rewrite !iget_eq. cbn [itab unlocked with_itab]. rewrite iget_scan_unlocked.
  destruct (iget_scan dev inum (itab s) 0 None) as [jp|[jp|]]; [| |done];
    match goal with |- context [updi jp ?f] =>
      pose proof (updi_unlocked ip jp f s ltac:(reflexivity)) as Hu end;
    unfold mbind, M_bind; destruct (updi jp _ s) as [[] s1|e| | |] eqn:Hs; try done;
    try (by rewrite Hu);
    unfold updi, rdi, mbind, M_bind, get in Hs; by destruct (itab s !! jp).
Qed.

(** A visit: [ip] is locked by this process and holds inode [inum] as on the
    disk; unlocking it gives a quiet state. *)
Record visit (dev : Z) (s : fs D) (d : disk_map) (tr : write_trace) (R : refs) (ip : nat)
    (inum : Z) (y : inode) : Prop := {
  v_quiet : quiet dev (unlocked ip s) d tr R;
  v_ip : itab s !! ip = Some y;
  v_inode : is_inode dev inum y;
  v_lock : i_lock y = MkSleeplock true (curpid s);
  v_loaded : loaded d inum y = y;
  v_refs : 0 < R ip;
}.

Lemma visit_start dev s d tr R ip x inum :
  quiet dev s d tr R → itab s !! ip = Some x → is_inode dev inum x → 0 < R ip →
  inode_access d ∅ inum →
  ∃ s' y, ilock (Some ip) s = Ok tt s' ∧ visit dev s' d tr R ip inum y ∧ cwd s' = cwd s ∧
    y = visiting s d inum x.
Proof.
  intros Hq Hx Hid HR Hacc. destruct (ro_cnt _ _ (q_refs _ _ _ _ _ Hq) ip x Hx) as [Href _].
  destruct (ilock_quiet dev s d tr R ip x inum Hq Hx Hid ltac:(lia) Hacc) as (t & Hr & Hrun).
  pose proof (lookup_lt_Some _ _ _ Hx) as Hlt.
  assert (Hlv : loaded d inum (visiting s d inum x) = visiting s d inum x).
  { unfold visiting. by rewrite loaded_set_lock, loaded_loaded. }
  assert (Hiv : is_inode dev inum (visiting s d inum x)) by (by apply set_lock_id, loaded_id).
  exists (with_io t (with_itab (<[ip := visiting s d inum x]> (itab s)) s)), (visiting s d inum x).
  split; [exact Hrun|]. split; [|done].
  assert (Hlk : i_lock (visiting s d inum x) = MkSleeplock true (curpid s)) by reflexivity.
  constructor; [| |exact Hiv|exact Hlk|exact Hlv|done].
  - assert (Heq : unlocked ip (with_io t (with_itab (<[ip := visiting s d inum x]> (itab s)) s)) =
      with_io t (with_itab (<[ip := set_lock (MkSleeplock false 0) (loaded d inum x)]> (itab s)) s)).
    { unfold unlocked, with_io, with_itab. simpl. f_equal. apply list_eq. intros k.
      destruct (decide (ip = k)) as [->|Hk].
      - rewrite list_lookup_alter_eq, !list_lookup_insert_eq by done.
        cbn [fmap option_fmap option_map]. unfold visiting. by rewrite set_lock_twice.
      - by rewrite list_lookup_alter_ne, !list_lookup_insert_ne. }
    rewrite Heq. apply quiet_io; [|done]. eapply quiet_insert; [done..|apply loaded_id_of|].
    split; [reflexivity|]. intros _ _ _.
    destruct (set_lock_id _ _ (MkSleeplock false 0) _ (loaded_id d inum _ _ _ Hid)) as [_ ->].
    by rewrite loaded_set_lock, loaded_loaded.
  - by apply list_lookup_insert_eq.
Qed.

Lemma visit_io dev s t d tr R ip inum y :
  visit dev s d tr R ip inum y → rep dev t d ∅ tr → visit dev (with_io t s) d tr R ip inum y.
Proof.
  intros [] Hr. constructor; try done.
  change (unlocked ip (with_io t s)) with (with_io t (unlocked ip s)). by apply quiet_io.
Qed.

Lemma unlocked_lookup ip (s : fs D) y :
  itab s !! ip = Some y → itab (unlocked ip s) !! ip = Some (set_lock (MkSleeplock false 0) y).
Proof. intros Hy. simpl. by rewrite list_lookup_alter_eq, Hy. Qed.

(** Unlocking ends the visit. *)
Lemma visit_end dev s d tr R ip inum y :
  visit dev s d tr R ip inum y → iunlock (Some ip) s = Ok tt (unlocked ip s).
Proof.
  intros [Hq Hy _ Hl _ HR].
  destruct (ro_cnt _ _ (q_refs _ _ _ _ _ Hq) ip _ (unlocked_lookup _ _ _ Hy)) as [Hr _].
  simpl in Hr. unfold iunlock. erewrite bind_ok by (by apply rdi_ok). run. rewrite Hl.
  rewrite bool_decide_false.
  - unfold on_ilock. erewrite bind_ok by (by apply rdi_ok). unfold zoom, releasesleep, put, unlocked.
    do 2 f_equal. apply list_eq. intros k. destruct (decide (ip = k)) as [->|Hk].
    + rewrite list_lookup_alter_eq, list_lookup_insert_eq by (by eapply lookup_lt_Some).
      by rewrite Hy.
    + by rewrite list_lookup_alter_ne, list_lookup_insert_ne.
  - unfold holdingsleep. simpl. rewrite bool_decide_true by done. intros [?|?]; [done|lia].
Qed.

(** [iunlockput] ends it and drops the reference. *)
Lemma visit_put dev s d tr R ip inum y :
  visit dev s d tr R ip inum y → (∀ z, i_nlink (loaded d inum z) ≠ 0) →
  ∃ s', iunlockput ip s = Ok tt s' ∧ quiet dev s' d tr (add_ref (-1) ip R) ∧ cwd s' = cwd s ∧
    (∀ i w dv n, itab (unlocked ip s) !! i = Some w → is_inode dv n w →
       ∃ w', itab s' !! i = Some w' ∧ is_inode dv n w').
Proof.
  intros Hv Hn. pose proof (visit_end _ _ _ _ _ _ _ _ Hv) as Hend.
  destruct Hv as [Hq Hy Hid _ _ HR].
  destruct (iput_quiet dev (unlocked ip s) d tr R ip _ inum Hq (unlocked_lookup _ _ _ Hy) Hid HR Hn)
    as (s' & Hrun & Hq' & Hc & Hids).
  exists s'. unfold iunlockput. run. auto.
Qed.

Lemma unlocked_same_ids ip (s : fs D) : same_ids s (unlocked ip s).
Proof.
  unfold same_ids, unlocked. simpl. apply list_eq. intros k. rewrite !list_lookup_fmap.
  destruct (decide (ip = k)) as [->|Hk].
  - rewrite list_lookup_alter_eq. by destruct (itab s !! k).
  - by rewrite list_lookup_alter_ne.
Qed.

Lemma loaded_addrs d inum y : loaded d inum y = y → length (i_addrs y) = 15%nat.
Proof.
  intros Hy. rewrite <-Hy, loaded_eq. cbn [i_addrs]. unfold di_block.
  by rewrite length_fmap, length_seq.
Qed.

Lemma visit_access dev s d tr R ip inum y tree ents :
  visit dev s d tr R ip inum y → tree_ok d tree → tree !! inum = Some (Some ents) →
  file_access dev [] s d ∅ tr ip y ∧ i_type y = T_DIR ∧ dir_at d (i_addrs y) (i_size y) 0 ents.
Proof.
  intros [Hq Hy Hid _ Hload _] Htree Ht. destruct (Htree _ _ Ht) as [_ _ Hty Hdir _].
  destruct (Hdir ents y eq_refl) as (Hf & Hs & Hd). specialize (Hty y). rewrite Hload in *.
  split; [|done]. constructor; [apply (q_rep _ _ _ _ _ Hq)|done|apply Hid|by eapply loaded_addrs
    |intros b _; apply not_held_empty|rewrite map_size_empty; unfold NBUF; lia|done|done].
Qed.

Lemma visit_iget dev s d tr R ip inum y n :
  visit dev s d tr R ip inum y → (∃ i, (i < NINODE)%nat ∧ R i = 0) → (∀ i, R i + 1 < 2 ^ 31) →
  ∃ next s' y' w, iget dev n s = Ok next s' ∧ visit dev s' d tr (add_ref 1 next R) ip inum y' ∧
    itab (unlocked ip s') !! next = Some w ∧ is_inode dev n w ∧ cwd s' = cwd s ∧
    (0 < R next ∨ next ≠ ip).
Proof.
  intros [Hq Hy Hid Hl Hload HR] Hfree Hb. pose proof (q_refs _ _ _ _ _ Hq) as Hok.
  assert (Hok1 : refs_ok s R).
  { eapply refs_ok_same; [exact Hok|]. apply same_ids_sym, unlocked_same_ids. }
  destruct Hfree as (k & Hk & HRk).
  destruct (lookup_lt_is_Some_2 (itab s) k) as [z Hz]; [by rewrite (ro_len _ _ Hok1)|].
  destruct (ro_cnt _ _ Hok1 k z Hz) as [Hzk _].
  destruct (iget_step s R dev n Hok1) as (next & x & w & Hrun & Hx & Hidw & _ & Hw);
    [exists k, z; split; [done|lia]|done|].
  destruct (iget_quiet (unlocked ip s) d tr R dev n Hq) as (jp & w' & s' & Hrun' & Hq' & Hw' & Hidw' & _);
    [by exists k|done|].
  pose proof (iget_unlocked dev n ip s) as Hun. rewrite Hrun in Hun. rewrite Hrun' in Hun.
  injection Hun as -> ->. pose proof (lookup_lt_Some _ _ _ Hx) as Hlt.
  destruct (ro_cnt _ _ Hok1 ip y Hy) as [Hry _].
  destruct (decide (next = ip)) as [->|Hne].
  - rewrite Hy in Hx. injection Hx as <-. destruct Hw as [(_ & _ & ->)|[? _]]; [|lia].
    eexists ip, _, (set_ref (i_ref y + 1) y), w'. split; [exact Hrun|]. split; [|auto].
    constructor; [done|by apply list_lookup_insert_eq|done|done| |].
    + by rewrite loaded_set_ref, Hload.
    + unfold add_ref. rewrite decide_True by done. lia.
  - eexists next, _, y, w'. split; [exact Hrun|]. split; [|auto].
    constructor; [done|cbn [itab with_itab]; by rewrite list_lookup_insert_ne|done|done|done|].
    unfold add_ref. by rewrite decide_False.
Qed.

Lemma visit_lookup stk dev s d tr R ip inum y tree ents name :
  visit dev s d tr R ip inum y → tree_ok d tree → tree !! inum = Some (Some ents) →
  bytes name → Str.readable name DIRSIZ → length stk = 256%nat → bytes stk →
  (∃ i, (i < NINODE)%nat ∧ R i = 0) → (∀ i, R i + 1 < 2 ^ 31) →
  match find_entry (Str.cstr name) 0 ents with
  | Some (o, e) => ∃ next s' y' w, dirlookup stk ip name s = Ok (Some (next, o)) s' ∧
      visit dev s' d tr (add_ref 1 next R) ip inum y' ∧
      itab (unlocked ip s') !! next = Some w ∧ is_inode dev (dn_ino e) w ∧ cwd s' = cwd s
  | None => ∃ s', dirlookup stk ip name s = Ok None s' ∧ visit dev s' d tr R ip inum y ∧
      cwd s' = cwd s
  end.
Proof.
  intros Hv Htree Ht Hb Hr Hs Hbs Hfree HRb.
  destruct (visit_access _ _ _ _ _ _ _ _ _ _ Hv Htree Ht) as (Ha & Hty & Hd).
  destruct (dirlookup_spec stk dev [] s d ∅ tr ip y name ents) as (t & Hrt & ->); try done.
  pose proof (visit_io _ _ _ _ _ _ _ _ _ Hv Hrt) as Hv'.
  destruct (find_entry (Str.cstr name) 0 ents) as [[o e]|].
  - destruct (visit_iget dev (with_io t s) d tr R ip inum y (dn_ino e) Hv' Hfree HRb)
      as (next & s' & y' & w & Hrun & Hv2 & Hw & Hidw & Hc & _).
    exists next, s', y', w. run. auto.
  - by exists (with_io t s).
Qed.

(** * The walk *)

(** The state [s'] and the results [r], [name'] are those of a walk of
    [elems] from [inum]. *)
Definition walked (dev : Z) (d : disk_map) (tr : write_trace) (R0 : refs) (tree : fs_tree)
    (inum : Z) (parent : bool) (elems : list (list Z)) (r : option nat) (name' : list Z)
    (s' : fs D) : Prop :=
  match resolve tree inum parent elems with
  | Some n => ∃ jp y, r = Some jp ∧ quiet dev s' d tr (add_ref 1 jp R0) ∧
      itab s' !! jp = Some y ∧ is_inode dev n y ∧
      (parent = true → ∃ e, last elems = Some e ∧ take DIRSIZ (Str.cstr name') = take DIRSIZ e)
  | None => r = None ∧ quiet dev s' d tr R0
  end.

Definition two_free (R0 : refs) : Prop :=
  ∃ i j, i ≠ j ∧ (i < NINODE)%nat ∧ (j < NINODE)%nat ∧ R0 i = 0 ∧ R0 j = 0.

Lemma one_free_left R0 ip : two_free R0 → ∃ i, (i < NINODE)%nat ∧ add_ref 1 ip R0 i = 0.
Proof.
  intros (i & j & Hne & Hi & Hj & HRi & HRj). unfold add_ref.
  destruct (decide (i = ip)) as [->|]; [exists j|exists i]; rewrite decide_False by done; auto.
Qed.

Lemma add_ref_cancel R ip i : add_ref (-1) ip (add_ref 1 ip R) i = R i.
Proof. unfold add_ref. case_decide; lia. Qed.

Lemma add_ref_cancel2 R ip jp i :
  add_ref (-1) ip (add_ref 1 jp (add_ref 1 ip R)) i = add_ref 1 jp R i.
Proof. unfold add_ref. repeat case_decide; lia. Qed.

Context (stk : list Z) (Hstk : length stk = 256%nat) (Hstkb : bytes stk).
Context (dev : Z) (d : disk_map) (tr : write_trace) (tree : fs_tree) (Htree : tree_ok d tree).
Context (R0 : refs) (Hfree : two_free R0) (HR0 : ∀ i, 0 ≤ R0 i ∧ R0 i + 2 < 2 ^ 31).

Lemma add_ref_small ip i : add_ref 1 ip R0 i + 1 < 2 ^ 31.
Proof. unfold add_ref. specialize (HR0 i). case_decide; lia. Qed.

Lemma add_ref_pos ip : 0 < add_ref 1 ip R0 ip.
Proof. unfold add_ref. rewrite decide_True by done. specialize (HR0 ip). lia. Qed.

Lemma bytes_stored e name : bytes e → bytes name → bytes (stored e name).
Proof.
  intros He Hn. unfold stored. case_bool_decide; apply bytes_splice; try done.
  - by apply bytes_take.
  - rewrite bytes_app. split; [done|]. by apply Forall_singleton.
Qed.

Lemma bytes_cstr p : bytes p → bytes (Str.cstr p).
Proof. induction 1; simpl; [constructor|]. case_bool_decide; by constructor. Qed.

Lemma bytes_runs l : ∀ cur, bytes l → bytes cur → Forall bytes (runs cur l).
Proof.
  induction l as [|c l IH]; intros cur Hl Hc; simpl.
  - destruct cur; [constructor|]. by apply Forall_singleton.
  - apply Forall_cons in Hl as [Hc' Hl]. case_bool_decide.
    + destruct cur; [by apply IH|]. constructor; [done|]. by apply IH; [|constructor].
    + apply IH; [done|]. rewrite bytes_app. split; [done|by apply Forall_singleton].
Qed.

Lemma namex_loop_spec parent fuel : ∀ path name ip s x inum,
  quiet dev s d tr (add_ref 1 ip R0) → itab s !! ip = Some x → is_inode dev inum x →
  is_Some (tree !! inum) → 0 ∈ path → bytes path → (DIRSIZ ≤ length name)%nat → bytes name →
  (length path ≤ fuel)%nat →
  ∃ r name' s', namex_loop stk fuel path parent name ip s = Ok (r, name') s' ∧ cwd s' = cwd s ∧
    walked dev d tr R0 tree inum parent (path_elems (Str.cstr path)) r name' s'.
Proof.
  induction fuel as [|fuel IH]; intros path name ip s x inum Hq Hx Hid [t Ht] Hz Hbp Hn Hbn Hfuel.
  { destruct path; [by apply elem_of_nil in Hz|simpl in Hfuel; lia]. }
  destruct (Htree _ _ Ht) as [Hacc Hlinks Hty _ Hchild].
  pose proof (skipelem_spec path name Hz Hn) as Hskip. cbn [namex_loop].
  pose proof (bytes_runs _ [] (bytes_cstr _ Hbp) ltac:(constructor)) as Hbe.
  fold (path_elems (Str.cstr path)) in Hbe.
  unfold walked. destruct (path_elems (Str.cstr path)) as [|e es]; cbn [resolve].
  { rewrite Hskip. run. destruct parent.
    - destruct (iput_quiet dev s d tr _ ip x inum Hq Hx Hid (add_ref_pos ip) Hlinks)
        as (s' & Hrun & Hq' & Hc & _).
      eexists None, name, s'. run. split; [done|]. split; [done|]. split; [done|].
      eapply quiet_ext; [|exact Hq']. apply add_ref_cancel.
    - eexists (Some ip), name, s. do 2 (split; [done|]). exists ip, x. by split_and!. }
  destruct Hskip as (path' & Hsk & Hz' & Hes & Hlt & He & Hne & Hlast).
  assert (Hbp' : bytes path').
  { apply skipelem_suffix in Hsk as [k ->]. by apply bytes_app in Hbp as [_ ?]. }
  rewrite Hsk. run.
  apply Forall_cons in Hbe as [Hbe _].
  destruct (stored_spec e name He Hn) as (Hnl & Hnt & Hnr).
  pose proof (bytes_stored e name Hbe Hbn) as Hnb.
  destruct (visit_start dev s d tr _ ip x inum Hq Hx Hid (add_ref_pos ip) Hacc)
    as (s1 & y & Hrun1 & Hv & Hc1 & _). run.
  erewrite bind_ok by (apply rdi_ok; by apply (v_ip _ _ _ _ _ _ _ _ Hv)).
  specialize (Hty y). rewrite (v_loaded _ _ _ _ _ _ _ _ Hv) in Hty. rewrite Hty, Ht.
  assert (Hput : ∃ s', iunlockput ip s1 = Ok tt s' ∧ quiet dev s' d tr R0 ∧ cwd s' = cwd s).
  { destruct (visit_put dev s1 d tr _ ip inum y Hv Hlinks) as (s' & Hrun & Hq' & Hc & _).
    exists s'. split; [done|]. split; [|congruence]. eapply quiet_ext; [|exact Hq'].
    apply add_ref_cancel. }
  destruct t as [ents|].
  2:{ destruct Hput as (s' & Hrun & Hq' & Hc). rewrite bool_decide_true by done.
      eexists None, (stored e name), s'. run. auto. }
  rewrite bool_decide_false by (intros Hx'; by apply Hx').
  assert (Hp0 : ∃ c, path' !! 0%nat = Some c ∧ (c = 0 ↔ es = [])).
  { destruct path' as [|c p']; [by apply elem_of_nil in Hz'|]. exists c. split; [done|].
    rewrite Hlast. simpl. split; congruence. }
  destruct Hp0 as (c & Hc & Hc0). rewrite Hc. run.
  rewrite (bool_decide_ext (c = 0) (es = [])) by done.
  destruct (parent && bool_decide (es = []))%bool eqn:Hstop.
  { apply andb_prop in Hstop as [-> ->%bool_decide_eq_true].
    pose proof (visit_end _ _ _ _ _ _ _ _ Hv) as Hend. run.
    eexists (Some ip), (stored e name), (unlocked ip s1). split; [done|]. split; [done|].
    eexists ip, _. split; [done|]. split; [apply Hv|].
    split; [apply unlocked_lookup; apply (v_ip _ _ _ _ _ _ _ _ Hv)|].
    split; [apply (v_inode _ _ _ _ _ _ _ _ Hv)|]. intros _. exists e. done. }
  pose proof (visit_lookup stk dev s1 d tr _ ip inum y tree ents (stored e name) Hv Htree Ht Hnb Hnr
    Hstk Hstkb (one_free_left _ ip Hfree) (add_ref_small ip)) as Hlk.
  rewrite (find_entry_same (Str.cstr (stored e name)) e) in Hlk by done.
  destruct (find_entry e 0 ents) as [[o de]|] eqn:Hfe.
  - destruct Hlk as (next & s2 & y' & w & Hrun2 & Hv2 & Hw & Hidw & Hc2).
    destruct (find_entry_in _ _ _ _ _ Hfe) as [Hin Hino].
    destruct (visit_put dev s2 d tr _ ip inum y' Hv2 Hlinks) as (s3 & Hrun3 & Hq3 & Hc3 & Hids).
    destruct (Hids _ _ _ _ Hw Hidw) as (w3 & Hw3 & Hid3).
    destruct (IH path' (stored e name) next s3 w3 (dn_ino de)) as (r & name' & s4 & Hrun4 & Hc4 & Hwalk);
      try done; [|by eapply Hchild|by rewrite Hnl|lia|].
    { eapply quiet_ext; [|exact Hq3]. apply add_ref_cancel2. }
    exists r, name', s4. do 2 run. split; [done|]. split; [congruence|].
    unfold walked in Hwalk. rewrite Hes in Hwalk.
    destruct (resolve tree (dn_ino de) parent es) as [n|] eqn:Hres; [|done].
    destruct Hwalk as (jp & w4 & -> & Hq4 & Hw4 & Hid4 & Hnm). exists jp, w4.
    split_and!; [done|done|done|apply Hid4..|]. intros Hp. destruct (Hnm Hp) as (e' & Hl & Hn').
    exists e'. split; [|done]. rewrite last_cons. by rewrite Hl.
  - destruct Hlk as (s2 & Hrun2 & Hv2 & Hc2).
    destruct (visit_put dev s2 d tr _ ip inum y Hv2 Hlinks) as (s3 & Hrun3 & Hq3 & Hc3 & _).
    eexists None, (stored e name), s3. do 2 run. split; [done|]. split; [congruence|].
    split; [done|]. eapply quiet_ext; [|exact Hq3]. apply add_ref_cancel.
Qed.

Lemma rootilock_spec s R ip x :
  quiet dev s d tr R → itab s !! ip = Some x → is_inode dev EXT2_ROOTINO x → 0 < i_ref x →
  i_valid x = false → inode_access d ∅ EXT2_ROOTINO →
  wp (rootilock (Some ip)) (λ _ s', ∃ t, rep dev t d ∅ tr ∧
    s' = with_io t (with_itab (<[ip := loaded d EXT2_ROOTINO x]> (itab s)) s)) s.
Proof.
  intros [Hr Hok Hset] Hx [Hdev Hi] Href Hv [Hin H2 Hb Hroom].
  pose proof (lookup_lt_Some _ _ _ Hx) as Hlt.
  pose proof Hin as (_ & Hd2 & Hbok & _). pose proof (inode_table_range _ _ _ _ _ Hr Hd2) as Hit.
  destruct (dinode_at_block _ _ _ _ _ _ Hr Hin) as (b & Hblk & Hbb & Hdin).
  assert (Hib : inode_block d EXT2_ROOTINO = inode_table (gdesc d))
    by (unfold inode_block, EXT2_ROOTINO; change ((2 - 1) / 8) with 0; lia).
  rewrite Hib in *.
  unfold rootilock. apply wp_bind. eapply wp_rdi; [done|]. rewrite bool_decide_false by lia.
  rewrite Hv, Hdev. apply wp_bind. eapply wp_read_gdesc; [exact Hr|done..|]. intros t1 Hr1.
  assert (Hbno : u32 (s32 (inode_table (gdesc d))) = inode_table (gdesc d)).
  { unfold blockno_ok in *. wrap_lia. }
  cbv zeta. rewrite Hbno. apply wp_bind, wp_blk.
  eapply wp_bread; [exact Hr1|done..|]. intros h t2 Hh Hr2.
  apply wp_bind, wp_blk. eapply wp_buf_data; [exact Hr2|by rewrite lookup_insert_eq|].
  apply wp_bind, wp_blk. eapply wp_brelse; [exact Hr2|by rewrite lookup_insert_eq|done|].
  intros t3 Hr3. rewrite delete_insert_id in Hr3 by done.
  change (Z.to_nat INODESIZE) with (inode_off EXT2_ROOTINO). rewrite <-Hdin.
  apply wp_bind. eapply wp_updi; [done|]. fold (loaded d EXT2_ROOTINO x).
  apply wp_bind. eapply wp_rdi; [by apply list_lookup_insert_eq|].
  rewrite bool_decide_false.
  - apply wp_ret. by exists t3.
  - unfold loaded, fill. cbv zeta. simpl. by case_bool_decide.
Qed.

Lemma idup_quiet s ip x n :
  quiet dev s d tr R0 → itab s !! ip = Some x → is_inode dev n x → 0 < R0 ip →
  ∃ s' y, idup ip s = Ok ip s' ∧ quiet dev s' d tr (add_ref 1 ip R0) ∧ itab s' !! ip = Some y ∧
    is_inode dev n y ∧ cwd s' = cwd s.
Proof.
  intros [Hr Hok Hset] Hx Hid HR. destruct (ro_cnt _ _ Hok ip x Hx) as [Hri _].
  pose proof (HR0 ip) as Hb. pose proof (lookup_lt_Some _ _ _ Hx) as Hlt.
  exists (with_itab (<[ip := set_ref (i_ref x + 1) x]> (itab s)) s), (set_ref (i_ref x + 1) x). split.
  { unfold idup. erewrite bind_ok by (by apply updi_ok). cbv beta. by rewrite s32_id by lia. }
  split; [|split; [by apply list_lookup_insert_eq|done]]. constructor; [done| |].
  - rewrite Hri. apply refs_ok_count; [done..|lia].
  - intros i w Hw. simpl in Hw. apply list_lookup_insert_Some in Hw as [(-> & <- & _)|[_ Hw]]; [|eauto].
    destruct (Hset i x Hx) as [Hl Hc]. split; [done|]. intros Hd _ Hv. rewrite loaded_set_ref.
    f_equal. apply Hc; [done|lia|done].
Qed.

(** Where a path starts. *)
Definition start_inum (s : fs D) (path : list Z) (n : Z) : Prop :=
  (path !! 0%nat = Some slash ∧ n = EXT2_ROOTINO) ∨
  (path !! 0%nat ≠ Some slash ∧ 0 < R0 (cwd s) ∧ ∃ x, itab s !! cwd s = Some x ∧ is_inode dev n x).

(** Loading the root inode early, as [namex] does for paths of more than one
    character, leaves a quiet state. *)
Lemma preload_quiet s ip x n c :
  quiet dev s d tr (add_ref 1 ip R0) → itab s !! ip = Some x → is_inode dev n x →
  inode_access d ∅ n →
  ∃ s' y, when (bool_decide (c ≠ 0)) (x ← rdi ip;
      when (bool_decide (i_valid x = false ∧ i_inum x = EXT2_ROOTINO)) (rootilock (Some ip))) s
    = Ok tt s' ∧ quiet dev s' d tr (add_ref 1 ip R0) ∧ itab s' !! ip = Some y ∧
      is_inode dev n y ∧ cwd s' = cwd s.
Proof.
  intros Hq Hx Hid Hacc. case_bool_decide as Hc; [|by exists s, x].
  cbn [when]. erewrite bind_ok by (by apply rdi_ok).
  case_bool_decide as Hv; [|by exists s, x]. destruct Hv as [Hv Hroot].
  assert (n = EXT2_ROOTINO) as -> by (destruct Hid; congruence).
  destruct (ro_cnt _ _ (q_refs _ _ _ _ _ Hq) ip x Hx) as [Href _].
  pose proof (add_ref_pos ip) as Hp. pose proof (lookup_lt_Some _ _ _ Hx) as Hlt.
  destruct (proj1 (wp_ok _ _ _) (rootilock_spec s _ ip x Hq Hx Hid ltac:(lia) Hv Hacc))
    as ([] & s' & Hrun & t & Hr & ->).
  eexists _, (loaded d EXT2_ROOTINO x). split; [exact Hrun|]. split.
  - apply quiet_io; [|done]. eapply quiet_insert; [done..| |].
    + by rewrite loaded_eq.
    + destruct (q_settled _ _ _ _ _ Hq ip x Hx) as [Hl _]. split.
      * by rewrite loaded_eq.
      * intros _ _ _. destruct (loaded_id d EXT2_ROOTINO _ _ _ Hid) as [_ ->]. apply loaded_loaded.
  - split; [by apply list_lookup_insert_eq|]. split; [by apply loaded_id|done].
Qed.

Lemma namex_spec s path parent name n :
  dev = ROOTDEV → quiet dev s d tr R0 → start_inum s path n → is_Some (tree !! n) →
  0 ∈ path → bytes path → (2 ≤ length path)%nat → (DIRSIZ ≤ length name)%nat → bytes name →
  ∃ r name' s', namex stk path parent name s = Ok (r, name') s' ∧ cwd s' = cwd s ∧
    walked dev d tr R0 tree n parent (path_elems (Str.cstr path)) r name' s'.
Proof.
  intros Hdev Hq Hstart [t Ht] Hz Hbp Hlen Hn Hbn. destruct (Htree _ _ Ht) as [Hacc _ _ _ _].
  destruct path as [|c0 [|c1 path]]; [simpl in Hlen; lia..|]. unfold namex.
  change ((c0 :: c1 :: path) !! 0%nat) with (Some c0) in *.
  change ((c0 :: c1 :: path) !! 1%nat) with (Some c1). run.
  assert (Hip : ∃ ip s1 x, (if bool_decide (c0 = slash) then iget ROOTDEV EXT2_ROOTINO
      else c ← gets cwd; idup c) s = Ok ip s1 ∧ quiet dev s1 d tr (add_ref 1 ip R0) ∧
      itab s1 !! ip = Some x ∧ is_inode dev n x ∧ cwd s1 = cwd s).
  { destruct Hstart as [[[= ->] ->]|(Hne & HR & x & Hx & Hid)].
    - rewrite bool_decide_true by done. rewrite <-Hdev.
      destruct (iget_quiet s d tr R0 dev EXT2_ROOTINO Hq) as (ip & y & s1 & ? & ? & ? & ? & ?).
      + destruct Hfree as (i & _ & _ & Hi & _ & HRi & _). by exists i.
      + intros i. specialize (HR0 i). lia.
      + by exists ip, s1, y.
    - rewrite bool_decide_false by (intros ->; by apply Hne). run.
      destruct (idup_quiet s (cwd s) x n Hq Hx Hid HR) as (s1 & y & ? & ? & ? & ? & ?).
      by exists (cwd s), s1, y. }
  destruct Hip as (ip & s1 & x & Hrun1 & Hq1 & Hx1 & Hid1 & Hc1). do 2 run.
  destruct (preload_quiet s1 ip x n c1 Hq1 Hx1 Hid1 Hacc) as (s2 & y & Hrun2 & Hq2 & Hy & Hid2 & Hc2).
  run. destruct (namex_loop_spec parent (length (c0 :: c1 :: path)) (c0 :: c1 :: path) name ip s2 y n)
    as (r & name' & s3 & Hrun3 & Hc3 & Hw); try done.
  exists r, name', s3. rewrite Hrun3. split; [done|]. split; [congruence|done].
Qed.

(** [namei] as one call. *)
Lemma namei_run s path n :
  dev = ROOTDEV → quiet dev s d tr R0 → start_inum s path n → is_Some (tree !! n) →
  0 ∈ path → bytes path → (2 ≤ length path)%nat →
  ∃ r s', namei stk path s = Ok r s' ∧
    match resolve tree n false (path_elems (Str.cstr path)) with
    | Some m => ∃ jp y, r = Some jp ∧ quiet dev s' d tr (add_ref 1 jp R0) ∧ itab s' !! jp = Some y ∧ is_inode dev m y
    | None => r = None ∧ quiet dev s' d tr R0
    end.
Proof.
  intros Hdev Hq Hstart Ht Hz Hbp Hlen.
  destruct (namex_spec s path false (replicate EXT2_DIRSIZ 0) n) as (r & name' & s' & Hrun & _ & Hw);
    try done; [unfold DIRSIZ, EXT2_DIRSIZ; rewrite length_replicate; lia|apply bytes_replicate; wrap_lia|].
  exists r, s'. unfold namei. run. split; [done|]. unfold walked in Hw.
  destruct (resolve tree n false _) as [m|]; [|done]. destruct Hw as (jp & y & ? & ? & ? & ? & _). by exists jp, y.
Qed.

(** C2: path resolution is a walk of the directory tree.  On a disk that holds
    a tree of directories, from a quiet state with two free inode-table
    entries, [namei] and [nameiparent] return for every path: they give the
    table entry of the inode the components of the path lead to - from the root
    for a path that starts with a slash, else from the current directory - with
    one reference more to it and no other reference changed, all inodes
    unlocked and the disk as it was; [nameiparent] stops at the directory of
    the last component and stores that component in [name]; when a component
    is missing or lies below a plain file the result is null and no reference
    is left behind. *)
Theorem namei_resolves s path n :
  dev = ROOTDEV → quiet dev s d tr R0 → start_inum s path n → is_Some (tree !! n) →
  0 ∈ path → bytes path → (2 ≤ length path)%nat →
  (∃ r s', namei stk path s = Ok r s' ∧
     match resolve tree n false (path_elems (Str.cstr path)) with
     | Some m => ∃ jp y, r = Some jp ∧ quiet dev s' d tr (add_ref 1 jp R0) ∧
         itab s' !! jp = Some y ∧ is_inode dev m y
     | None => r = None ∧ quiet dev s' d tr R0
     end) ∧
  (∀ name, (DIRSIZ ≤ length name)%nat → bytes name →
   ∃ r name' s', nameiparent stk path name s = Ok (r, name') s' ∧
     match resolve tree n true (path_elems (Str.cstr path)) with
     | Some m => ∃ jp y, r = Some jp ∧ quiet dev s' d tr (add_ref 1 jp R0) ∧
         itab s' !! jp = Some y ∧ is_inode dev m y ∧
         ∃ e, last (path_elems (Str.cstr path)) = Some e ∧
              take DIRSIZ (Str.cstr name') = take DIRSIZ e
     | None => r = None ∧ quiet dev s' d tr R0
     end).
Proof.
  intros Hdev Hq Hst Ht Hz Hbp Hlen. split.
  - by apply namei_run.
  - intros name Hn Hbn.
    destruct (namex_spec s path true name n) as (r & name' & s' & Hrun & _ & Hw); try done.
    exists r, name', s'. split; [done|]. unfold walked in Hw.
    destruct (resolve tree n true _) as [m|]; [|done].
    destruct Hw as (jp & y & ? & ? & ? & ? & Hnm). exists jp, y.
    split; [done|]. split; [done|]. split; [done|]. split; [done|]. by apply Hnm.
Qed.

End names.
End NameSpec.
