(* ===== verification/Image.v ===== *)
(** A small ext2 disk, on which the theorems about the file system are applied
    and the divergences of the code from the ext2 format are run.

    Block 1 is the superblock, 2 the group descriptor, 3 and 4 the block and
    inode bitmaps, 5 the inode table, 6 the root directory, 7 and 8 the data of
    one file, a small executable; the other blocks are free. *)

From S2P Require Import Prelude CString Sleeplock BlockIO Bio Balloc Inode InodeSpec DiskInode.
From S2P Require Import BlockMap FileData FileLost Dir Path DirSpec NameSpec.
Import Ext2 Inode InodeSpec DiskInode BlockMap FileData Dir Path DirSpec NameSpec.

Local Open Scope Z_scope.

Module Image.

#[local] Existing Instance Bio.bio_blockio.
#[local] Existing Instance Bio.bio_laws.

(** ** Blocks *)
Definition sb_block : list Z := wr 4 32 8192 (wr 2 56 EXT2_FSMAGIC zero_block).
Definition gd_block : list Z := wr 4 0 3 (wr 4 4 4 (wr 4 8 5 zero_block)).
Definition bm_block : list Z := wr 1 0 0xFF zero_block.
Definition ibm_block : list Z := wr 1 0 0xE0 zero_block.
(** Inode 2: a directory of 1024 bytes in block 6.  Inode 3: a file of 2000
    bytes in blocks 7 and 8. *)
Definition itable_block : list Z :=
  wr 4 (128 + 40) 6 (wr 2 (128 + 26) 2 (wr 4 (128 + 4) 1024 (wr 2 128 EXT2_T_DIR
  (wr 4 (256 + 44) 8 (wr 4 (256 + 40) 7 (wr 2 (256 + 26) 1 (wr 4 (256 + 4) 2000
  (wr 2 256 EXT2_T_FILE zero_block)))))))).
(** Directory entries at 0, 12 and 24: ".", ".." and "_cat". *)
Definition put_dirent (off : nat) (ino rec : Z) (name : list Z) (l : list Z) : list Z :=
  splice (off + 8) name (wr 1 (off + 6) (Z.of_nat (length name)) (wr 2 (off + 4) rec (wr 4 off ino l))).
Definition root_block : list Z :=
  put_dirent 24 3 1000 [95; 99; 97; 116]
    (put_dirent 12 2 12 [46; 46] (put_dirent 0 2 12 [46] zero_block)).
Definition data_block (c : Z) : list Z := replicate BSIZE c.
(** The start of an executable: an ELF header, one program header at 64 that
    loads the whole file of 2000 bytes at address 0, and the entry point 120. *)
Definition elf_block : list Z :=
  wr 8 104 2000 (wr 8 96 2000 (wr 8 80 0 (wr 8 72 0 (wr 4 68 5 (wr 4 64 1
  (wr 2 56 1 (wr 8 32 64 (wr 8 24 120 (wr 4 0 0x464C457F (data_block 65)))))))))).

Definition disk_list : list (Z * list Z) :=
  [(0, zero_block); (1, sb_block); (2, gd_block); (3, bm_block); (4, ibm_block);
   (5, itable_block); (6, root_block); (7, elf_block); (8, data_block 66);
   (9, zero_block); (10, zero_block); (11, zero_block); (12, zero_block)].
Definition image : disk_map := list_to_map disk_list.

Lemma is_block_data c : is_u8 c → is_block (data_block c).
Proof. intros. split; [apply length_replicate|by apply bytes_replicate]. Qed.

Lemma is_block_elf : is_block elf_block.
Proof. unfold elf_block. repeat (apply is_block_wr; [|unfold BSIZE; lia]). apply is_block_data. wrap_lia. Qed.

Lemma is_block_put_dirent off ino rec name l :
  is_block l → bytes name → (off + 8 + length name ≤ BSIZE)%nat →
  is_block (put_dirent off ino rec name l).
Proof.
  intros Hl Hn Ho. unfold put_dirent.
  apply is_block_splice; [|done|lia]. repeat (apply is_block_wr; [|lia]). done.
Qed.

Ltac block_of_writes := repeat (apply is_block_wr; [|unfold BSIZE; lia]); apply is_block_zero.

Lemma is_block_sb : is_block sb_block.
Proof. unfold sb_block. block_of_writes. Qed.
Lemma is_block_gd : is_block gd_block.
Proof. unfold gd_block. block_of_writes. Qed.
Lemma is_block_bm : is_block bm_block.
Proof. unfold bm_block. block_of_writes. Qed.
Lemma is_block_ibm : is_block ibm_block.
Proof. unfold ibm_block. block_of_writes. Qed.
Lemma is_block_itable : is_block itable_block.
Proof. unfold itable_block. block_of_writes. Qed.
Lemma is_block_root : is_block root_block.
Proof.
  unfold root_block. repeat (apply is_block_put_dirent;
    [|repeat (apply Forall_cons; split; [wrap_lia|]); constructor|unfold BSIZE; simpl; lia]).
  apply is_block_zero.
Qed.

Lemma image_blocks b x : image !! b = Some x → is_block x.
Proof.
  intros Hb%elem_of_list_to_map_2. unfold disk_list in Hb.
  repeat match type of Hb with
  | _ ∈ _ :: _ => apply elem_of_cons in Hb as [[= _ Hx]|Hb]; [rewrite Hx; clear Hx|]
  end; [exact is_block_zero|exact is_block_sb|exact is_block_gd|exact is_block_bm
       |exact is_block_ibm|exact is_block_itable|exact is_block_root
       |exact is_block_elf|apply is_block_data; wrap_lia
       |exact is_block_zero..|by apply elem_of_nil in Hb].
Qed.

(** ** States *)
Definition the_io : Bio.bio := Bio.bio_boot image 1.
Definition the_sb : list Z := slice 0 sizeof_superblock sb_block.
Definition inode0 : inode := MkInode 0 0 0 initsleeplock false 0 0 0 0 0 (replicate 15 0).

Lemma the_rep : rep 1 the_io image ∅ [].
Proof. apply Bio.bio_boot_rep; [done|apply image_blocks]. Qed.

(** ** What the disk says *)
Lemma image_gdesc :
  block_bitmap (gdesc image) = 3 ∧ inode_bitmap (gdesc image) = 4 ∧ inode_table (gdesc image) = 5.
Proof. vm_compute. auto. Qed.

Lemma first_free_bm : first_free bm_block 8.
Proof.
  split; [unfold BSIZE; lia|]. split; [reflexivity|]. intros k' Hk.
  do 8 (destruct k' as [|k']; [reflexivity|]). lia.
Qed.

Lemma first_free_ibm : first_free ibm_block 3.
Proof.
  split; [unfold BSIZE; lia|]. split; [reflexivity|]. intros k' Hk.
  do 3 (destruct k' as [|k']; [reflexivity|]). lia.
Qed.

Lemma the_bound : bound the_sb = Z.to_nat 65536.
Proof. reflexivity. Qed.

Lemma image_can_alloc : can_alloc the_sb image ∅ bm_block 8 zero_block.
Proof.
  destruct image_gdesc as (Hb & _ & _). constructor; rewrite ?Hb.
  - by eexists.
  - reflexivity.
  - apply first_free_bm.
  - rewrite the_bound. lia.
  - split; lia.
  - reflexivity.
  - apply not_held_empty.
  - apply not_held_empty.
  - apply not_held_empty.
  - rewrite map_size_empty. unfold NBUF. lia.
Qed.

(** * The block allocator *)

(** Bit 8 is the first clear one: block 11 is allocated. *)
Lemma balloc_allocates_witness :
  wp (balloc the_sb 1) (λ r s', r = 11 ∧ ∃ bm' d',
    rep 1 s' d' ∅ [(3, bm'); (11, zero_block)] ∧
    (∀ k', bit_at bm' k' = bit_at bm_block k' || bool_decide (k' = 8%nat)) ∧
    (∀ c, d' !! c = if decide (c = 11) then Some zero_block
                    else if decide (c = 3) then Some bm' else image !! c)) the_io.
Proof.
  pose proof (balloc_allocates the_sb 1 the_io image ∅ [] bm_block 8 zero_block) as H.
  cbv zeta in H. destruct image_gdesc as (Hb & _ & _). rewrite Hb in H.
  apply H; [exact the_rep|exact image_can_alloc|lia].
Defined.

(** Freeing block 11 again panics: bit 15 (mirror of bit 8) is clear. *)
Lemma balloc_then_bfree_witness :
  wp (balloc the_sb 1) (λ b s', bfree 1 b s' = Panic "ext2fs_bfree: block already free\n") the_io.
Proof.
  pose proof (balloc_then_bfree the_sb 1 the_io image ∅ [] bm_block 8 zero_block) as H.
  cbv zeta in H. destruct image_gdesc as (Hb & _ & _). rewrite Hb in H.
  change (bit_at bm_block (mirror 8)) with false in H.
  apply H; [exact the_rep|exact image_can_alloc|lia|lia].
Defined.

(** The disk with another block bitmap. *)
Definition image_bm (bm : list Z) : disk_map := <[3 := bm]> image.

Lemma image_bm_rep bm : is_block bm → rep 1 (Bio.bio_boot (image_bm bm) 1) (image_bm bm) ∅ [].
Proof.
  intros Hbm. apply Bio.bio_boot_rep; [done|]. intros b x. unfold image_bm.
  rewrite lookup_insert_Some. intros [[_ <-]|[_ Hx]]; [done|by eapply image_blocks].
Qed.

Lemma image_bm_gdesc bm : gdesc (image_bm bm) = gdesc image.
Proof. unfold image_bm. by apply gdesc_insert. Qed.

Lemma data_block_bits k : (k < 8 * BSIZE)%nat → bit_at (data_block 255) k = true.
Proof.
  intros Hk. unfold bit_at, data_block. rewrite lookup_total_replicate_2.
  - assert (Hm : (k mod 8 < 8)%nat) by (apply Nat.mod_upper_bound; lia). revert Hm.
    generalize (k mod 8)%nat as m. intros m Hm. do 8 (destruct m as [|m]; [reflexivity|]). lia.
  - apply Nat.Div0.div_lt_upper_bound. lia.
Qed.

(** An empty bitmap deadlocks the allocator; a full one makes it read outside. *)
Lemma balloc_failures_witness :
  (∃ s', balloc the_sb 1 (Bio.bio_boot (image_bm zero_block) 1) = Sleep s') ∧
  balloc the_sb 1 (Bio.bio_boot (image_bm (data_block 255)) 1) = Undef.
Proof.
  destruct image_gdesc as (Hb & _ & _). split.
  - destruct (balloc_failures the_sb 1 _ (image_bm zero_block) ∅ [] zero_block
      (image_bm_rep _ is_block_zero)) as [H _].
    apply (H zero_block). constructor; rewrite ?image_bm_gdesc, ?Hb; try apply not_held_empty.
    + by eexists.
    + reflexivity.
    + split; [unfold BSIZE; lia|]. split; [reflexivity|lia].
    + rewrite the_bound. lia.
    + split; lia.
    + reflexivity.
    + rewrite map_size_empty. unfold NBUF. lia.
  - destruct (balloc_failures the_sb 1 _ (image_bm (data_block 255)) ∅ [] (data_block 255)
      (image_bm_rep _ (is_block_data 255 ltac:(wrap_lia)))) as [_ H].
    rewrite image_bm_gdesc, Hb in H. rewrite H; try apply not_held_empty.
    + rewrite bool_decide_false; [done|]. rewrite the_bound. unfold BSIZE. lia.
    + by eexists.
    + split; lia.
    + reflexivity.
    + rewrite map_size_empty. unfold NBUF. lia.
    + exact data_block_bits.
Defined.

(** * The inode table *)

(** The table at boot, with [extra] entries in front. *)
Definition the_fs (extra : list inode) : fs Bio.bio :=
  MkFs the_io the_sb (extra ++ replicate (NINODE - length extra) inode0) 0 1.

Lemma boot_refs_ok : refs_ok (the_fs []) (λ _, 0).
Proof.
  assert (Hall : ∀ i x, itab (the_fs []) !! i = Some x → x = inode0).
  { intros i x Hx. by apply lookup_replicate in Hx as [? _]. }
  constructor.
  - apply length_replicate.
  - intros i x ->%Hall. done.
  - done.
  - intros i j x y ->%Hall. done.
Qed.

(** [iget(1, 2)] takes entry 0. *)
Definition root_handle : fs Bio.bio :=
  with_itab (<[0%nat := set_valid false (set_ref 1 (set_id 1 2 inode0))]> (itab (the_fs [])))
    (the_fs []).

Lemma iget_root : iget 1 2 (the_fs []) = Ok 0%nat root_handle.
Proof.
  rewrite iget_eq.
  assert (Hs : iget_scan 1 2 (itab (the_fs [])) 0 None = inr (Some 0%nat)) by reflexivity.
  rewrite Hs. erewrite bind_ok by (apply updi_ok; reflexivity). done.
Qed.

(** There is then one reference to entry 0, and a second [iget(1, 2)] returns
    an entry of the same inode. *)
Lemma inode_handles_sound_witness :
  (∀ ip x, itab root_handle !! ip = Some x → i_ref x = add_ref 1 0 (λ _, 0) ip) ∧
  ∃ ip s' x, iget 1 2 root_handle = Ok ip s' ∧ itab s' !! ip = Some x ∧ is_inode 1 2 x.
Proof.
  destruct (inode_handles_sound (the_fs []) (λ _, 0) root_handle (add_ref 1 0 (λ _, 0)))
    as (Hcnt & _ & Hget).
  - exact boot_refs_ok.
  - apply rtc_once. apply (rs_iget _ _ _ 1 2 0%nat); [exact iget_root|lia].
  - split; [exact Hcnt|]. destruct (Hget 1 2) as [(ip & s' & x & Hrun & Hx & Hid & _)|[_ Hall]].
    + by exists ip, s', x.
    + exfalso. destruct (Hall 1%nat inode0 eq_refl) as [Hr _]. discriminate Hr.
Defined.

(** ** On-disk inodes *)

(** Inode 3 in memory, with new sizes and addresses, and an entry that has not
    been read yet. *)
Definition dirty_inode : inode :=
  MkInode 1 3 1 initsleeplock true T_FILE 0 0 1 1234 [7; 8; 9; 10; 0; 0; 0; 0; 0; 0; 0; 0; 0; 0; 0].
Definition fresh_inode : inode :=
  MkInode 1 3 1 initsleeplock false 0 0 0 0 0 (replicate 15 0).

Lemma image_inum_ok inum : 1 ≤ inum ≤ 8 → inum_ok image inum.
Proof.
  intros Hi. destruct image_gdesc as (_ & _ & Ht).
  assert (Hb : inode_block image inum = 5) by (unfold inode_block; rewrite Ht; zlia).
  unfold inum_ok. rewrite Hb. split; [lia|]. split; [by eexists|]. split; [split; lia|by eexists].
Qed.

Lemma image_inode_block inum : 1 ≤ inum ≤ 8 → inode_block image inum = 5.
Proof. intros Hi. destruct image_gdesc as (_ & _ & Ht). unfold inode_block. rewrite Ht. zlia. Qed.

Lemma image_access inum : 1 ≤ inum ≤ 8 → inode_access image ∅ inum.
Proof.
  intros Hi. constructor; [by apply image_inum_ok|apply not_held_empty..|].
  rewrite map_size_empty. unfold NBUF. lia.
Qed.

(** Addresses 9 and 10 are lost, the two below are kept. *)
Lemma iupdate_ilock_roundtrip_witness :
  wp (iupdate 0;; ilock (Some 1%nat)) (λ _ s', ∃ y', itab s' !! 1%nat = Some y' ∧
    i_size y' = 1234 ∧ take 4 (i_addrs y') = [7; 8; 0; 0])
    (the_fs [dirty_inode; fresh_inode]).
Proof.
  assert (Hwf : inode_wf dirty_inode).
  { constructor; [reflexivity| |unfold dirty_inode; simpl; wrap_lia|simpl; lia].
    repeat (apply Forall_cons; split; [wrap_lia|]). constructor. }
  eapply wp_mono.
  { refine (iupdate_ilock_roundtrip 1 (the_fs [dirty_inode; fresh_inode]) image ∅ [] 0 1
      dirty_inode fresh_inode the_rep eq_refl eq_refl eq_refl eq_refl eq_refl Hwf
      (or_intror eq_refl) _ eq_refl eq_refl _ _).
    - reflexivity.
    - apply image_access. simpl. lia.
    - rewrite image_inode_block; simpl; lia. }
  intros [] s' (d' & tr' & y' & _ & Hy & _ & _ & Hsz & Ha & _). exists y'.
  split; [done|]. split; [done|]. rewrite Ha. vm_compute. reflexivity.
Defined.

Lemma image_can_ialloc : can_ialloc (the_fs []) image ∅ ibm_block 3 itable_block.
Proof.
  destruct image_gdesc as (_ & Hb & Ht). constructor; rewrite ?Hb, ?Ht; try apply not_held_empty.
  - by eexists.
  - reflexivity.
  - split; lia.
  - apply first_free_ibm.
  - change (sb (the_fs [])) with the_sb. rewrite the_bound. lia.
  - by split.
  - reflexivity.
  - done.
  - rewrite map_size_empty. unfold NBUF. lia.
Qed.

(** Inode 4 made as a directory reads back as a file, and the last two block
    addresses of inode 3 are overwritten. *)
Lemma ialloc_misplaces_inode_witness :
  ∃ t d' tr', rep 1 t d' ∅ tr' ∧ ialloc 1 T_DIR (the_fs []) = iget 1 4 (with_io t (the_fs [])) ∧
    (∀ y, i_type (fill (dinode_at d' 4) y) = T_FILE) ∧
    di_block (dinode_at d' 3) !! 13%nat = Some EXT2_T_DIR ∧
    di_block (dinode_at d' 3) !! 14%nat = Some 0.
Proof.
  destruct (ialloc_misplaces_inode 1 (the_fs []) image ∅ [] ibm_block 3 itable_block)
    as (t & d' & tr' & Hr & Hrun & _ & Hty & Hb).
  - exact the_rep.
  - exact image_can_ialloc.
  - done.
  - by destruct image_gdesc as (_ & -> & _).
  - by destruct image_gdesc as (_ & _ & ->).
  - exists t, d', tr'. split; [done|]. split; [done|]. split; [done|].
    split; [apply (Hb 13%nat)|apply (Hb 14%nat)]; simpl; lia.
Defined.

(** * File contents *)

Definition root_addrs : list Z := 6 :: replicate 14 0.
Definition file_addrs : list Z := 7 :: 8 :: replicate 13 0.
Definition root_inode : inode := MkInode 1 2 1 initsleeplock true T_DIR 0 0 2 1024 root_addrs.
Definition file_inode : inode := MkInode 1 3 1 initsleeplock true T_FILE 0 0 1 2000 file_addrs.

Lemma image_file_ok d : d !! 6 = image !! 6 ∨ is_Some (d !! 6) →
  d !! 7 = image !! 7 → d !! 8 = image !! 8 →
  file_ok d [] root_addrs 1024 ∧ file_ok d [] file_addrs 2000.
Proof.
  intros H6 H7 H8. split; intros bn H0 Hlt.
  - assert (bn = 0) as -> by lia. split; [split; [unfold max_block; lia|done]|].
    change (file_block d root_addrs 0) with 6. split; [split; lia|]. split; [|apply not_elem_of_nil].
    destruct H6 as [->|?]; [by eexists|done].
  - assert (bn = 0 ∨ bn = 1) as [->| ->] by lia.
    + split; [split; [unfold max_block; lia|done]|]. change (file_block d file_addrs 0) with 7.
      split; [split; lia|]. split; [rewrite H7; by eexists|apply not_elem_of_nil].
    + split; [split; [unfold max_block; lia|done]|]. change (file_block d file_addrs 1) with 8.
      split; [split; lia|]. split; [rewrite H8; by eexists|apply not_elem_of_nil].
Qed.

Lemma covers_empty : covers [] ∅.
Proof. intros b _. apply not_held_empty. Qed.

Lemma empty_room : (S (S (size (∅ : held_map))) < NBUF)%nat.
Proof. rewrite map_size_empty. unfold NBUF. lia. Qed.

(** Block 1 of the file is disk block 8; block 2^25 is out of range. *)
Lemma bmap_reference_witness :
  (∃ t, bmap 0 1 (the_fs [file_inode]) = Ok 8 (with_io t (the_fs [file_inode]))) ∧
  bmap 0 33554432 (the_fs [file_inode]) = Panic "ext2_bmap: block number out of range\n".
Proof.
  split.
  - destruct (bmap_reference 1 [] (the_fs [file_inode]) image ∅ [] 0 file_inode 1
      the_rep eq_refl eq_refl eq_refl covers_empty empty_room ltac:(lia)) as [H _].
    destruct H as (t & Hrun & _); [split; [unfold max_block; lia|done]|]. by exists t.
  - apply (bmap_reference 1 [] (the_fs [file_inode]) image ∅ [] 0 file_inode 33554432
      the_rep eq_refl eq_refl eq_refl covers_empty empty_room ltac:(lia)). unfold max_block. lia.
Defined.

Lemma image_file_access : file_access 1 [] (the_fs [file_inode]) image ∅ [] 0 file_inode.
Proof.
  constructor; [exact the_rep|reflexivity|reflexivity|reflexivity|exact covers_empty
    |exact empty_room| |].
  - by apply (image_file_ok image (or_introl eq_refl) eq_refl eq_refl).
  - simpl. lia.
Qed.

(** Eight bytes across the boundary of the two data blocks. *)
Lemma readi_exact_witness :
  ∃ t buf', readi_buf 0 1020 8 (replicate 10 0) (the_fs [file_inode])
              = Ok (8, buf') (with_io t (the_fs [file_inode])) ∧
    buf' !! 3%nat = Some 65 ∧ buf' !! 4%nat = Some 66 ∧ buf' !! 8%nat = Some 0.
Proof.
  pose proof (readi_exact 1 [] (the_fs [file_inode]) image ∅ [] 0 file_inode 1020 8 (replicate 10 0)
    image_file_access ltac:(lia) ltac:(lia) ltac:(simpl; lia)) as H.
  rewrite bool_decide_false in H by (simpl; lia). cbv zeta in H.
  destruct H as (t & buf' & Hrun & _ & _ & Hb). exists t, buf'. split; [exact Hrun|].
  rewrite !Hb by (simpl; lia). split_and!; vm_compute; reflexivity.
Defined.

(** * Directories *)

Definition root_entries : list dent :=
  [MkDent 2 12 [46]; MkDent 2 12 [46; 46]; MkDent 3 1000 [95; 99; 97; 116]].

Lemma image_dir_at : dir_at image root_addrs 1024 0 root_entries.
Proof.
  cbn [dir_at root_entries dn_rec]. split_and!; try lia;
    (constructor; [vm_compute; reflexivity..| |done]; cbn [dn_name];
     repeat (apply Forall_cons; split; [lia|]); constructor).
Qed.

Lemma image_dir_access : file_access 1 [] (the_fs [root_inode]) image ∅ [] 0 root_inode.
Proof.
  constructor; [exact the_rep|reflexivity|reflexivity|reflexivity|exact covers_empty
    |exact empty_room| |].
  - by apply (image_file_ok image (or_introl eq_refl) eq_refl eq_refl).
  - simpl. lia.
Qed.

Definition cat : list Z := [99; 97; 116; 0].
Lemma cat_bytes : bytes cat.
Proof. repeat (apply Forall_cons; split; [wrap_lia|]). constructor. Qed.
Lemma cat_readable : Str.readable cat DIRSIZ.
Proof. right. by apply (bool_decide_unpack _). Qed.
Definition stack : list Z := replicate 256 7.
Lemma stack_bytes : bytes stack.
Proof. apply bytes_replicate. wrap_lia. Qed.

(** "cat" finds the third entry, "_cat". *)
Lemma dirlookup_first_match_witness :
  ∃ t es1 e es2, root_entries = es1 ++ e :: es2 ∧ dn_ino e = 3 ∧
    dirlookup stack 0 cat (the_fs [root_inode]) =
      (ip ← iget 1 (dn_ino e); mret (Some (ip, sum_rec es1))) (with_io t (the_fs [root_inode])).
Proof.
  destruct (dirlookup_first_match stack 1 [] (the_fs [root_inode]) image ∅ [] 0 root_inode cat
    root_entries image_dir_access eq_refl cat_bytes cat_readable image_dir_at
    (length_replicate _ _) stack_bytes)
    as (t & _ & [(es1 & e & es2 & Heq & Hm & _ & Hrun)|[Hno _]]).
  - exists t, es1, e, es2. split; [exact Heq|]. split; [|exact Hrun]. clear Hrun t.
    assert (He : e ∈ root_entries) by (rewrite Heq; apply elem_of_app; right; by left).
    unfold root_entries in He. rewrite !elem_of_cons in He.
    destruct He as [->|[->|[->|He]]]; [| |reflexivity|by apply elem_of_nil in He];
      exfalso; destruct Hm as [_ [Hm|[Hm _]]]; discriminate Hm.
  - exfalso. clear t. rewrite Forall_forall in Hno. apply (Hno (MkDent 3 1000 [95; 99; 97; 116])).
    + unfold root_entries. rewrite !elem_of_cons. auto.
    + split; [done|]. right. done.
Defined.

(** The root directory after [sys_unlink] cleared sixteen bytes of its third
    entry, and a lookup that has come to that entry. *)
Definition cleared_root : list Z := splice 24 (replicate 16 0) root_block.
Definition image_cleared : disk_map := <[6 := cleared_root]> image.
Definition cleared_fs : fs Bio.bio :=
  MkFs (Bio.bio_boot image_cleared 1) the_sb (root_inode :: replicate 49 inode0) 0 1.

Lemma is_block_cleared : is_block cleared_root.
Proof.
  apply is_block_splice; [exact is_block_root|apply bytes_replicate; wrap_lia|].
  rewrite length_replicate. unfold BSIZE. lia.
Qed.

Lemma cleared_rep : rep 1 (Bio.bio_boot image_cleared 1) image_cleared ∅ [].
Proof.
  apply Bio.bio_boot_rep; [done|]. intros b x. unfold image_cleared.
  rewrite lookup_insert_Some. intros [[_ <-]|[_ Hx]]; [exact is_block_cleared|by eapply image_blocks].
Qed.

Lemma cleared_access : file_access 1 [] cleared_fs image_cleared ∅ [] 0 root_inode.
Proof.
  constructor; [exact cleared_rep|reflexivity|reflexivity|reflexivity|exact covers_empty
    |exact empty_room| |].
  - refine (proj1 (image_file_ok image_cleared (or_intror _) eq_refl eq_refl)). by eexists.
  - simpl. lia.
Qed.

Lemma dirlookup_diverges_witness :
  dirlookup_loop 1000 0 cat 24 stack cleared_fs = NoFuel.
Proof.
  refine (dirlookup_diverges 1 [] image_cleared ∅ [] 0 root_inode cat 24 (MkDent 0 0 []) 1000
    cleared_fs stack cleared_access cat_bytes cat_readable _ _ _ eq_refl _ (length_replicate _ _)
    stack_bytes).
  - lia.
  - simpl. lia.
  - constructor; [vm_compute; reflexivity..|constructor|done].
  - intros [Hne _]. by apply Hne.
Defined.

(** * Paths *)

Definition the_tree : fs_tree := {[ 2 := Some root_entries; 3 := None ]}.

Lemma image_root :
  di_block (dinode_at image 2) = root_addrs ∧ di_size (dinode_at image 2) = 1024 ∧
  di_links_count (dinode_at image 2) = 2 ∧ di_mode (dinode_at image 2) = EXT2_T_DIR.
Proof. vm_compute. auto. Qed.
Lemma image_file :
  di_links_count (dinode_at image 3) = 1 ∧ di_mode (dinode_at image 3) = EXT2_T_FILE.
Proof. vm_compute. auto. Qed.

Lemma image_tree_ok : tree_ok image the_tree.
Proof.
  intros inum t Ht. unfold the_tree in Ht. apply lookup_insert_Some in Ht as [[<- <-]|[_ Ht]].
  - destruct image_root as (Hb & Hs & Hl & Hm). constructor.
    + apply image_access. clear. lia.
    + intros x. rewrite loaded_eq. cbn [i_nlink]. rewrite Hl. clear. done.
    + intros x. unfold loaded, fill. cbv zeta. rewrite Hm. reflexivity.
    + intros ents x [= <-]. rewrite loaded_eq. cbn [i_addrs i_size]. rewrite Hb, Hs.
      split; [|split; [lia|exact image_dir_at]].
      by apply (image_file_ok image (or_introl eq_refl) eq_refl eq_refl).
    + clear. intros ents e [= <-] He _. unfold root_entries in He. rewrite !elem_of_cons in He.
      destruct He as [->|[->|[->|He]]]; [by eexists..|by apply elem_of_nil in He].
  - apply lookup_singleton_Some in Ht as [<- <-]. destruct image_file as (Hl & Hm). constructor.
    + apply image_access. clear. lia.
    + intros x. rewrite loaded_eq. cbn [i_nlink]. rewrite Hl. clear. done.
    + intros x. unfold loaded, fill. cbv zeta. rewrite Hm. reflexivity.
    + clear. intros ents x [=].
    + clear. intros ents e [=].
Qed.

Lemma boot_quiet : quiet 1 (the_fs []) image [] (λ _, 0).
Proof.
  constructor; [exact the_rep|exact boot_refs_ok|]. intros i x Hx.
  apply lookup_replicate in Hx as [-> _]. split; [done|]. by intros _ ?.
Qed.

Lemma boot_two_free : two_free (λ _, 0).
Proof. exists 0%nat, 1%nat. unfold NINODE. split_and!; lia. Qed.

Definition path_cat : list Z := [47; 99; 97; 116; 0].

(** "/cat" is inode 3. *)
Lemma namei_resolves_witness :
  ∃ r s' jp y, namei stack path_cat (the_fs []) = Ok r s' ∧ r = Some jp ∧
    itab s' !! jp = Some y ∧ is_inode 1 3 y.
Proof.
  destruct (namei_resolves stack (length_replicate _ _) stack_bytes 1 image [] the_tree image_tree_ok
    (λ _, 0) boot_two_free ltac:(lia) (the_fs []) path_cat 2) as [(r & s' & Hrun & Hw) _].
  - reflexivity.
  - exact boot_quiet.
  - by left.
  - by eexists.
  - by apply (bool_decide_unpack _).
  - repeat (apply Forall_cons; split; [wrap_lia|]). constructor.
  - simpl. lia.
  - change (resolve the_tree 2 false (path_elems (Str.cstr path_cat))) with (Some 3) in Hw.
    destruct Hw as (jp & y & Hr & _ & Hy & Hid). exists r, s', jp, y.
    split; [exact Hrun|]. split; [exact Hr|]. split; [exact Hy|exact Hid].
Defined.

(** * Runs

    The result of a body, if it returns. *)
Definition result {S A} (o : outcome S A) : option A :=
  match o with Ok a _ => Some a | _ => None end.







(** Link a new name in the root directory, then look it up. *)
Definition link_then_lookup (name : list Z) : M (fs Bio.bio) (Z * option (nat * Z)) :=
  r ← dirlink stack 0 name 3;
  found ← dirlookup stack 0 name;
  mret (r, found).

(** [dirlink] reports success for a name that [dirlookup] then does not
    find: it looks for a free slot in, and writes, the sixteen-byte entries of
    the original file system, while [dirlookup] reads ext2 entries. *)
Theorem dirlink_not_found :
  result (link_then_lookup [110; 101; 119; 0] (the_fs [root_inode])) = Some (0, None).
Proof. vm_compute. reflexivity. Qed.

End Image.
