(* ===== verification/File.v ===== *)
(** Open files: [kernel/file.c], and [pipealloc] of [kernel/pipe.c].

    The file table holds [NFILE] files; a [struct file *] is the index plus one, 0
    is the null pointer.  The pipe in the page at address [a] is kept as a record
    under [a]; its page belongs to the file table as long as the record is there.
    A call is one run until it returns or blocks; the addresses it calls [wakeup]
    on are part of its result.  The only device is the console.  [begin_op] and
    [end_op] bracket transactions of the log and are not repeated here. *)

From S2P Require Import Prelude Riscv Kalloc Vm Console Pipe BlockIO Log Inode FileData.
Import Kalloc Vm.

Local Open Scope Z_scope.

Module File.

Definition NFILE : nat := 100.
Definition NDEV : Z := 10.
Definition CONSOLE : Z := 1.

Inductive ftype := FD_NONE | FD_PIPE | FD_INODE | FD_DEVICE.
#[export] Instance ftype_eq_dec : EqDecision ftype.
Proof. solve_decision. Defined.

Record file := MkFile {
  f_type : ftype;
  f_ref : Z;
  f_readable : bool;
  f_writable : bool;
  f_pipe : Z;
  f_ip : option nat;
  f_off : Z;
  f_major : Z;
}.
Definition file0 : file := MkFile FD_NONE 0 false false 0 None 0 0.

Definition set_fref (r : Z) (f : file) : file :=
  MkFile (f_type f) r (f_readable f) (f_writable f) (f_pipe f) (f_ip f) (f_off f) (f_major f).
Definition set_ftype (t : ftype) (f : file) : file :=
  MkFile t (f_ref f) (f_readable f) (f_writable f) (f_pipe f) (f_ip f) (f_off f) (f_major f).
Definition set_mode (r w : bool) (f : file) : file :=
  MkFile (f_type f) (f_ref f) r w (f_pipe f) (f_ip f) (f_off f) (f_major f).
Definition set_pipe (a : Z) (f : file) : file :=
  MkFile (f_type f) (f_ref f) (f_readable f) (f_writable f) a (f_ip f) (f_off f) (f_major f).
Definition set_ip (ip : option nat) (f : file) : file :=
  MkFile (f_type f) (f_ref f) (f_readable f) (f_writable f) (f_pipe f) ip (f_off f) (f_major f).
Definition set_off (o : Z) (f : file) : file :=
  MkFile (f_type f) (f_ref f) (f_readable f) (f_writable f) (f_pipe f) (f_ip f) o (f_major f).
Definition set_major (m : Z) (f : file) : file :=
  MkFile (f_type f) (f_ref f) (f_readable f) (f_writable f) (f_pipe f) (f_ip f) (f_off f) m.

(** Pointers to files and to in-memory inodes. *)
Definition fptr (i : nat) : Z := Z.of_nat i + 1.
Definition fidx (x : Z) : nat := Z.to_nat (x - 1).
Definition iptr (ip : nat) : Z := Z.of_nat ip + 1.
Definition iidx (x : Z) : nat := Z.to_nat (x - 1).

(** [&pi->nread] and [&pi->nwrite]: after the lock (24 bytes) and the data. *)
Definition chan_addr (pi : Z) (c : Pipe.chan) : Z :=
  match c with Pipe.ChNread => pi + 536 | Pipe.ChNwrite => pi + 540 end.

Record ftab (D : Type) := MkFtab {
  files : list file;
  pipes : gmap Z Pipe.pipe;
  ino : Inode.fs D;
  console : Console.console;
  console_f : Z;
}.
Arguments MkFtab {D} _ _ _ _ _.
Arguments files {D} _.
Arguments pipes {D} _.
Arguments ino {D} _.
Arguments console {D} _.
Arguments console_f {D} _.

Definition with_files {D} (l : list file) (s : ftab D) : ftab D := MkFtab l (pipes s) (ino s) (console s) (console_f s).
Definition with_pipes {D} (P : gmap Z Pipe.pipe) (s : ftab D) : ftab D := MkFtab (files s) P (ino s) (console s) (console_f s).
Definition with_ino {D} (i : Inode.fs D) (s : ftab D) : ftab D := MkFtab (files s) (pipes s) i (console s) (console_f s).
Definition with_console {D} (c : Console.console) (s : ftab D) : ftab D := MkFtab (files s) (pipes s) (ino s) c (console_f s).

Section file.
Context {D : Type} {BIO : BlockIO D}.
Context (kend : Z).
Notation F := (ftab D).

Definition getf (x : Z) : M F file := s ← get; if bool_decide (x = 0) then undef else of_option (files s !! fidx x).
Definition setf (x : Z) (g : file → file) : M F unit :=
  f ← getf x;
  modify (λ s, with_files (<[fidx x := g f]> (files s)) s).
Definition on_ino {A} (m : M (Inode.fs D) A) : M F A := zoom ino with_ino m.
Definition on_console {A} (m : M Console.console A) : M F A := zoom console with_console m.

(** The scan of [filealloc]. *)
Fixpoint find_free (l : list file) (i : nat) : option nat :=
  match l with
  | [] => None
  | f :: l => if bool_decide (f_ref f = 0) then Some i else find_free l (S i)
  end.
Definition filealloc : M F Z :=
  s ← get;
  match find_free (files s) 0 with
  | Some i => setf (fptr i) (set_fref 1);; mret (fptr i)
  | None => mret 0
  end.

Definition filedup (x : Z) : M F Z :=
  f ← getf x;
  if bool_decide (f_ref f < 1) then panic "filedup" else
  setf x (set_fref (s32 (f_ref f + 1)));;
  mret x.

(** Operations that also need memory. *)
Notation S := (kmem * F)%type.
Definition on_kmem {A} (m : M kmem A) : M S A := zoom fst (λ k s, (k, s.2)) m.
Definition on_ftab {A} (m : M F A) : M S A := zoom snd (λ f s, (s.1, f)) m.

(** [pipeclose(pi, writable)] on the pipe at [a]. *)
Definition close_pipe (a : Z) (writable : bool) : M S (list Z) :=
  s ← get;
  pi ← of_option (pipes s.2 !! a);
  let '(chs, freed, pi) := Pipe.pipeclose writable pi in
  (if freed : bool then
     on_ftab (modify (λ f, with_pipes (delete a (pipes f)) f));; on_kmem (kfree kend a)
   else on_ftab (modify (λ f, with_pipes (<[a := pi]> (pipes f)) f)));;
  mret (chan_addr a <$> chs).

Definition fileclose (x : Z) : M S (list Z) :=
  f ← on_ftab (getf x);
  if bool_decide (f_ref f < 1) then panic "fileclose" else
  on_ftab (setf x (set_fref (s32 (f_ref f - 1))));;
  if bool_decide (s32 (f_ref f - 1) > 0) then mret [] else
  on_ftab (setf x (λ f, set_ftype FD_NONE (set_fref 0 f)));;
  match f_type f with
  | FD_PIPE => close_pipe (f_pipe f) (f_writable f)
  | FD_INODE | FD_DEVICE =>
      ip ← of_option (f_ip f); on_ftab (on_ino (Inode.iput ip));; mret []
  | FD_NONE => mret []
  end.

(** [pipealloc]: the two ends, or null pointers. *)
Definition close_if (x : Z) : M S (list Z) := if bool_decide (x ≠ 0) then fileclose x else mret [].
Definition pipealloc : M S (Z * (Z * Z)) :=
  f0 ← on_ftab filealloc;
  if bool_decide (f0 = 0) then mret (-1, (0, 0)) else
  f1 ← on_ftab filealloc;
  if bool_decide (f1 = 0) then fileclose f0;; mret (-1, (f0, f1)) else
  pi ← on_kmem kalloc;
  if bool_decide (pi = 0) then fileclose f0;; fileclose f1;; mret (-1, (f0, f1)) else
  page ← on_kmem (load_page pi);
  on_ftab (modify (λ f, with_pipes (<[pi := Pipe.pipe_init (slice 24 512 page)]> (pipes f)) f));;
  on_ftab (setf f0 (λ f, set_pipe pi (set_mode true false (set_ftype FD_PIPE f))));;
  on_ftab (setf f1 (λ f, set_pipe pi (set_mode false true (set_ftype FD_PIPE f))));;
  mret (0, (f0, f1)).

(** ** Reading and writing *)

(** [copyout] of [readi]'s chunks, which are [uchar]s; [readi] ignores its result. *)
Definition user_out (pt : Z) (dst : Z) (bs : list Z) (k : outcome kmem Z) : outcome kmem Z :=
  match k with Ok _ k => copyout pt dst (u8 <$> bs) k | e => e end.
Definition resume {A} (k : outcome kmem Z) (a : A) : M S A := λ s,
  match k with
  | Ok _ k => Ok a (k, s.2)
  | Panic e => Panic e
  | Sleep k => Sleep (k, s.2)
  | Undef => Undef
  | NoFuel => NoFuel
  end.
(** [copyin] of [writei]'s chunks. *)
Definition user_in (pt : Z) (k : kmem) (src n : Z) : list Z * bool :=
  match copyin pt src n k with Ok (bs, r) _ => (bs, bool_decide (r = 0)) | _ => ([], false) end.

(** [struct stat] as it is copied out: [int dev; uint ino; ushort type;
    short nlink;], four bytes of padding that nobody sets, [uint64 size]. *)
Definition stat_bytes (pad : list Z) (st : Inode.stat) : list Z :=
  le_to 4 (u32 (Inode.st_dev st)) ++ le_to 4 (Inode.st_ino st) ++ le_to 2 (Inode.st_type st) ++
  le_to 2 (u16 (Inode.st_nlink st)) ++ pad ++ le_to 8 (Inode.st_size st).

Definition filestat (pad : list Z) (pt x addr : Z) : M S Z :=
  f ← on_ftab (getf x);
  match f_type f with
  | FD_INODE | FD_DEVICE =>
      on_ftab (on_ino (Inode.ilock (f_ip f)));;
      ip ← of_option (f_ip f);
      st ← on_ftab (on_ino (Inode.stati ip));
      on_ftab (on_ino (Inode.iunlock (f_ip f)));;
      r ← on_kmem (copyout pt addr (stat_bytes pad st));
      mret (if bool_decide (r < 0) then -1 else 0)
  | _ => mret (-1)
  end.

(** How a run of [fileread] or [filewrite] ends: the call returns, or it sleeps on
    [ch], to resume at byte [i]. *)
Inductive io_end := Done (r : Z) | Wait (ch i : Z).

(** Bytes copied out one by one through a [char], to address [addr]; and whether the byte [ch]
    can be copied to [addr + i], and which byte can be copied from there. *)
Fixpoint out_each (pt addr : Z) (bs : list Z) : M kmem unit :=
  match bs with
  | [] => mret tt
  | b :: bs => copyout pt addr [u8 b];; out_each pt (u64 (addr + 1)) bs
  end.
Definition can_out (pt addr : Z) (k : kmem) (i ch : Z) : bool :=
  match copyout pt (u64 (addr + i)) [u8 ch] k with Ok r _ => bool_decide (r ≠ -1) | _ => false end.
Definition byte_in (pt addr : Z) (k : kmem) (i : Z) : option Z :=
  match copyin pt (u64 (addr + i)) 1 k with
  | Ok ([ch], r) _ => if bool_decide (r = 0) then Some ch else None
  | _ => None
  end.

(** [piperead(pi, addr, n)], from its start, with the process's page table. *)
Definition read_pipe (pt : Z) (killed : bool) (a addr n : Z) : M S (io_end * list Z) :=
  s ← get;
  pi ← of_option (pipes s.2 !! a);
  let '(seg, out, chs, pi) := Pipe.piperead killed (can_out pt addr s.1) n pi in
  on_ftab (modify (λ f, with_pipes (<[a := pi]> (pipes f)) f));;
  on_kmem (out_each pt addr out);;
  mret (match seg with
        | Pipe.Return r => Done r
        | Pipe.Blocked i => Wait (chan_addr a Pipe.ChNread) i
        end, chan_addr a <$> chs).
(** A run of [pipewrite(pi, addr, n)] from byte [i]. *)
Definition write_pipe (pt : Z) (killed : bool) (a addr n i : Z) : M S (io_end * list Z) :=
  s ← get;
  pi ← of_option (pipes s.2 !! a);
  let '(seg, chs, pi) := Pipe.pipewrite (λ _, killed) (byte_in pt addr s.1) n i pi in
  on_ftab (modify (λ f, with_pipes (<[a := pi]> (pipes f)) f));;
  mret (match seg with
        | Pipe.Return r => Done r
        | Pipe.Blocked i => Wait (chan_addr a Pipe.ChNwrite) i
        end, chan_addr a <$> chs).

(** The console: [idle] is what its line reports, [cons_chan] is [&cons.r].  A
    negative [n] reads nothing. *)
Context (idle : nat → bool) (cons_chan : Z).
Definition read_console (pt : Z) (killed : bool) (addr n : Z) : M S (io_end * list Z) :=
  k ← gets fst;
  let target := Z.max n 0 in
  '(r, out) ← on_ftab (on_console (Console.consoleread killed (can_out pt addr k) target target));
  on_kmem (out_each pt addr out);;
  mret (match r with Console.Return r => Done r | Console.Blocked m => Wait cons_chan (target - m) end, []).
Definition write_console (pt addr n : Z) : M S (io_end * list Z) :=
  k ← gets fst;
  r ← on_ftab (on_console (Console.on_uart (Console.consolewrite idle (byte_in pt addr k) n)));
  mret (Done r, []).
(** [devsw], set up by [consoleinit]. *)
Definition dev_read (major : Z) : option (Z → bool → Z → Z → M S (io_end * list Z)) :=
  if bool_decide (major = CONSOLE) then Some read_console else None.
Definition dev_write (major : Z) : option (Z → Z → Z → M S (io_end * list Z)) :=
  if bool_decide (major = CONSOLE) then Some write_console else None.

Definition fileread (pt : Z) (killed : bool) (x addr n : Z) : M S (io_end * list Z) :=
  f ← on_ftab (getf x);
  if negb (f_readable f) then mret (Done (-1), []) else
  match f_type f with
  | FD_PIPE => read_pipe pt killed (f_pipe f) addr n
  | FD_DEVICE =>
      if bool_decide (f_major f < 0 ∨ NDEV ≤ f_major f) then mret (Done (-1), []) else
      match dev_read (f_major f) with None => mret (Done (-1), []) | Some rd => rd pt killed addr n end
  | FD_INODE =>
      on_ftab (on_ino (Inode.ilock (f_ip f)));;
      ip ← of_option (f_ip f);
      k ← gets fst;
      '(r, k) ← on_ftab (on_ino (FileData.readi (user_out pt) ip addr (f_off f) (u32 n) (Ok 0 k)));
      resume k tt;;
      on_ftab (when (bool_decide (r > 0)) (setf x (set_off (u32 (f_off f + r)))));;
      on_ftab (on_ino (Inode.iunlock (f_ip f)));;
      mret (Done r, [])
  | FD_NONE => panic "fileread"
  end.

Definition max_write : Z := ((Log.MAXOPBLOCKS - 1 - 1 - 2) / 2) * Z.of_nat BSIZE.

(** The loop of [filewrite] on an inode: [i] bytes are written. *)
Fixpoint filewrite_loop (fuel : nat) (pt x : Z) (ip : nat) (addr n i : Z) : M S Z :=
  if bool_decide (i < n) then
    match fuel with
    | O => nofuel
    | Datatypes.S fuel =>
        let n1 := Z.min (n - i) max_write in
        f ← on_ftab (getf x);
        on_ftab (on_ino (Inode.ilock (Some ip)));;
        k ← gets fst;
        r ← on_ftab (on_ino (FileData.writei (user_in pt k) ip (u64 (addr + i)) (f_off f) n1));
        on_ftab (when (bool_decide (r > 0)) (setf x (set_off (u32 (f_off f + r)))));;
        on_ftab (on_ino (Inode.iunlock (Some ip)));;
        if bool_decide (r ≠ n1) then mret i else filewrite_loop fuel pt x ip addr n (i + r)
    end
  else mret i.

Definition filewrite (pt : Z) (killed : bool) (x addr n : Z) : M S (io_end * list Z) :=
  f ← on_ftab (getf x);
  if negb (f_writable f) then mret (Done (-1), []) else
  match f_type f with
  | FD_PIPE => write_pipe pt killed (f_pipe f) addr n 0
  | FD_DEVICE =>
      if bool_decide (f_major f < 0 ∨ NDEV ≤ f_major f) then mret (Done (-1), []) else
      match dev_write (f_major f) with None => mret (Done (-1), []) | Some wt => wt pt addr n end
  | FD_INODE =>
      ip ← of_option (f_ip f);
      i ← filewrite_loop (Z.to_nat (n / max_write + 1)) pt x ip addr n 0;
      mret (Done (if bool_decide (i = n) then n else -1), [])
  | FD_NONE => panic "filewrite"
  end.
End file.
End File.
