(* ===== verification/FileSpec.v ===== *)
(** Reference counts of open files: the file table of [kernel/file.c] implements
    what processes rely on. *)

From stdpp Require Import functions.
From S2P Require Import Prelude Riscv CString Kalloc Vm PageTable Pipe BlockIO Inode InodeSpec FileData Dir UserFree Proc ProcMem ProcSpec File.
Import Kalloc Vm File.

Local Open Scope Z_scope.

(** ** The file table as processes use it *)

#[export] Instance ftab_ops {D : Type} {BIO : BlockIO D} : FileOps (ftab D) := {
  filedup := File.filedup;
  fileclose kend := File.fileclose kend;
  idup x := if bool_decide (x = 0) then undef else on_ino (ip ← Inode.idup (iidx x); mret (iptr ip));
  iput x := if bool_decide (x = 0) then undef else on_ino (Inode.iput (iidx x));
  (** No directory is read for the root, so what the stack holds does not matter. *)
  namei_root := on_ino (r ← Dir.namei [] [47; 0]; mret (match r with Some ip => iptr ip | None => 0 end));
}.

Module FileSpec.

Section spec.
Context {D : Type} {BIO : BlockIO D}.
Notation F := (ftab D).

(** ** The invariant *)

(** A file in use that holds a reference to inode [ip]. *)
Definition holds_ip (ip : nat) (f : file) : Z :=
  if decide (0 < f_ref f ∧ (f_type f = FD_INODE ∨ f_type f = FD_DEVICE) ∧ f_ip f = Some ip) then 1 else 0.
(** The read or write end of the pipe at [a]. *)
Definition pipe_end (a : Z) (w : bool) (f : file) : Prop :=
  0 < f_ref f ∧ f_type f = FD_PIPE ∧ f_pipe f = a ∧ f_writable f = w.
Definition side (w : bool) (pi : Pipe.pipe) : bool := if w then Pipe.writeopen pi else Pipe.readopen pi.

(** The pipes are those with an end in use; each end is one file. *)
Record pipes_ok (l : list file) (P : gmap Z Pipe.pipe) : Prop := {
  pk_side a pi w : P !! a = Some pi → side w pi = true ↔ ∃ i f, l !! i = Some f ∧ pipe_end a w f;
  pk_uniq i j f g a w : l !! i = Some f → l !! j = Some g → pipe_end a w f → pipe_end a w g → i = j;
  pk_file i f a w : l !! i = Some f → pipe_end a w f → is_Some (P !! a);
  pk_live a pi : P !! a = Some pi → Pipe.readopen pi = true ∨ Pipe.writeopen pi = true;
}.

(** The file of the console, which [sys_open] shares without counting and
    [sys_close] leaves alone: its count says nothing about the descriptors. *)
Definition is_console (x : file) : Prop := f_type x = FD_DEVICE ∧ f_major x = CONSOLE ∧ f_ip x = None.
(** [n] references are held to the file [x]. *)
Definition ref_ok (shared : bool) (x : file) (n : Z) : Prop :=
  0 ≤ n < 2 ^ 31 ∧ if shared then is_console x ∧ 0 < f_ref x < 2 ^ 31 ∧ f_ref x ≤ n + 2 ^ 29 else f_ref x = n.
Definition shared (f : F) (i : nat) : bool := bool_decide (console_f f = fptr i).
(** The tag of a file in use says what it has. *)
Definition kind_ok (shared : bool) (x : file) : Prop :=
  match f_type x with
  | FD_INODE => is_Some (f_ip x)
  | FD_DEVICE => shared = true ∨ is_Some (f_ip x)
  | _ => True
  end.

(** [R x] references to file [x] and [I x] references to inode [x] are held
    outside the table. *)
Record fok_at (f : F) (R I : Z → Z) : Prop := {
  fk_len : length (files f) = NFILE;
  fk_ref i x : files f !! i = Some x → ref_ok (shared f i) x (R (fptr i));
  fk_fptr x : 0 < R x → ∃ i, x = fptr i ∧ (i < NFILE)%nat;
  fk_ino : InodeSpec.refs_ok (ino f) (λ ip, I (iptr ip) + sum_over (holds_ip ip) (files f));
  fk_iptr x : 0 < I x → ∃ ip, x = iptr ip;
  fk_pos x : 0 ≤ I x;
  fk_pipes : pipes_ok (files f) (pipes f);
  fk_free i x : files f !! i = Some x → f_ref x = 0 → f_type x = FD_NONE;
  fk_cons : console_f f = 0 ∨ ∃ i, console_f f = fptr i ∧ (i < NFILE)%nat;
  fk_kind i x : files f !! i = Some x → 0 < f_ref x → kind_ok (shared f i) x;
}.

Lemma ref_bound f R I i x : fok_at f R I → files f !! i = Some x → 0 ≤ f_ref x < 2 ^ 31.
Proof. intros Hf Hx. destruct (fk_ref _ _ _ Hf i x Hx) as [Hb H]. destruct (shared f i); [lia|congruence]. Qed.
Lemma kind_any f R I i x : fok_at f R I → files f !! i = Some x → kind_ok (shared f i) x.
Proof.
  intros Hf Hx. destruct (decide (f_ref x = 0)) as [H0|H0].
  - unfold kind_ok. by rewrite (fk_free _ _ _ Hf i x Hx H0).
  - apply (fk_kind _ _ _ Hf i x Hx). pose proof (ref_bound f R I i x Hf Hx). lia.
Qed.
(** Every other file counts its references. *)
Lemma unshared f R I i x : fok_at f R I → files f !! i = Some x → f_type x ≠ FD_DEVICE ∨ f_ip x ≠ None ∨ f_ref x = 0 →
  shared f i = false ∧ f_ref x = R (fptr i) ∧ 0 ≤ R (fptr i) < 2 ^ 31.
Proof.
  intros Hf Hx Hno. destruct (fk_ref _ _ _ Hf i x Hx) as [Hb H]. destruct (shared f i); [|done].
  destruct H as ((Ht & _ & Hi) & Hr & _). destruct Hno as [?|[?|?]]; [done|done|lia].
Qed.

Lemma fidx_fptr i : fidx (fptr i) = i.
Proof. unfold fidx, fptr. lia. Qed.
Lemma iidx_iptr i : iidx (iptr i) = i.
Proof. unfold iidx, iptr. lia. Qed.
Lemma fptr_inj i j : fptr i = fptr j → i = j.
Proof. unfold fptr. lia. Qed.
Lemma iptr_inj i j : iptr i = iptr j → i = j.
Proof. unfold iptr. lia. Qed.

Lemma holds_ip_range ip f : 0 ≤ holds_ip ip f ≤ 1.
Proof. unfold holds_ip. case_decide; lia. Qed.
Lemma holds_ip_sum ip l : length l = NFILE → 0 ≤ sum_over (holds_ip ip) l ≤ 100.
Proof.
  intros Hl. split; [apply sum_over_nonneg; intros f; apply holds_ip_range|].
  pose proof (sum_over_le (holds_ip ip) l 1) as H. rewrite Hl in H. change (1 * Z.of_nat NFILE) with 100 in H.
  apply H. intros f _. apply holds_ip_range.
Qed.

(** A slot changes and keeps its role. *)
Definition same_role (f g : file) : Prop :=
  (0 < f_ref f ↔ 0 < f_ref g) ∧ f_type g = f_type f ∧ f_pipe g = f_pipe f ∧ f_writable g = f_writable f ∧ f_ip g = f_ip f.
Lemma same_role_end f g a w : same_role f g → pipe_end a w g ↔ pipe_end a w f.
Proof. intros (H1 & H2 & H3 & H4 & _). unfold pipe_end. rewrite H1, H2, H3, H4. done. Qed.
Lemma same_role_ip f g ip : same_role f g → holds_ip ip g = holds_ip ip f.
Proof.
  intros (H1 & H2 & _ & _ & H5). unfold holds_ip. rewrite H2, H5.
  destruct (decide _) as [A|A], (decide _) as [B|B]; try done; exfalso; [apply B|apply A]; tauto.
Qed.

Lemma pipes_ok_ends l P i f g :
  pipes_ok l P → l !! i = Some f → (∀ a w, pipe_end a w g ↔ pipe_end a w f) → pipes_ok (<[i := g]> l) P.
Proof.
  intros [H1 H2 H3 H4] Hi Hr.
  assert (Hlook : ∀ j x, <[i := g]> l !! j = Some x → ∃ y, l !! j = Some y ∧ ∀ a w, pipe_end a w x ↔ pipe_end a w y).
  { intros j x [(<- & <- & _)|[_ ?]]%list_lookup_insert_Some; [|by exists x]. by exists f. }
  split.
  - intros a pi w Hp. rewrite (H1 a pi w Hp). split.
    + intros (j & x & Hj & He). destruct (decide (j = i)) as [->|Hne]; [|exists j, x; by rewrite list_lookup_insert_ne].
      simplify_eq. exists i, g. rewrite list_lookup_insert_eq by (by eapply lookup_lt_Some). split; [done|]. by apply Hr.
    + intros (j & x & Hj & He). destruct (Hlook j x Hj) as (y & Hy & Hxy). exists j, y. split; [done|]. by apply Hxy.
  - intros a b x y p w (x' & Hx' & Hx)%Hlook (y' & Hy' & Hy)%Hlook Ha%Hx Hb%Hy. by eapply H2.
  - intros a x p w (x' & Hx' & Hx)%Hlook Ha%Hx. by eapply H3.
  - done.
Qed.
Lemma pipes_ok_role l P i f g : pipes_ok l P → l !! i = Some f → same_role f g → pipes_ok (<[i := g]> l) P.
Proof. intros Hp Hi Hr. eapply pipes_ok_ends; [done|done|]. intros. by apply same_role_end. Qed.

(** Slot [i] changes, and with it perhaps the pipes and the inode table. *)
Lemma fok_slot f R I i x y n P' ino' c' I' :
  fok_at f R I → files f !! i = Some x → ref_ok (shared f i) y n → (f_ref y = 0 → f_type y = FD_NONE) → kind_ok (shared f i) y →
  pipes_ok (<[i := y]> (files f)) P' →
  InodeSpec.refs_ok ino' (λ ip, I' (iptr ip) + (sum_over (holds_ip ip) (files f) - holds_ip ip x + holds_ip ip y)) →
  (∀ z, 0 ≤ I' z) → (∀ z, 0 < I' z → ∃ ip, z = iptr ip) →
  fok_at (MkFtab (<[i := y]> (files f)) P' ino' c' (console_f f)) (<[fptr i := n]> R) I'.
Proof.
  intros [Hl Hr Hf Hi Hp Hn Hk Hz Hcf Hkd] Hx Hb Hy Hky Hpi Hino Hp' Hn'. split; cbn; [by rewrite length_insert| | | |done|done|done| |done|].
  - intros j z [(<- & <- & _)|[Hj Hy']]%list_lookup_insert_Some; [by rewrite fn_lookup_insert|].
    rewrite fn_lookup_insert_ne by (intros ?%fptr_inj; congruence). by apply Hr.
  - intros z. destruct (decide (z = fptr i)) as [->|Hz']; [intros _; exists i; split; [done|]; rewrite <-Hl; by eapply lookup_lt_Some|].
    rewrite fn_lookup_insert_ne by done. apply Hf.
  - eapply InodeSpec.refs_ok_ext; [|exact Hino]. intros ip. cbn. rewrite (sum_over_insert _ _ i x) by done. lia.
  - intros j z [(<- & <- & _)|[Hj Hy']]%list_lookup_insert_Some; [done|by eapply Hz].
  - intros j z [(<- & <- & _)|[Hj Hy']]%list_lookup_insert_Some; [done|by eapply Hkd].
Qed.

(** A reference to an open file comes or goes, and it stays open. *)
Lemma fok_count f R I i x k :
  fok_at f R I → files f !! i = Some x → 0 < f_ref x → 0 < f_ref x + k < 2 ^ 31 → 0 ≤ R (fptr i) + k < 2 ^ 31 →
  fok_at (with_files (<[i := set_fref (f_ref x + k) x]> (files f)) f) (<[fptr i := R (fptr i) + k]> R) I.
Proof.
  intros Hf Hx H0 Hb Hn. assert (Hrole : same_role x (set_fref (f_ref x + k) x)) by (unfold same_role; cbn; repeat split; lia).
  apply (fok_slot f R I i x (set_fref (f_ref x + k) x) _ (pipes f) (ino f) (console f) I Hf Hx); cbn; [|lia|by apply (fk_kind _ _ _ Hf i x)|eapply pipes_ok_role; [apply Hf|done|done]| |apply Hf|apply Hf].
  { destruct (fk_ref _ _ _ Hf i x Hx) as [_ Hr]. split; [done|]. destruct (shared f i); cbn; [|lia]. destruct Hr as (Hc & _ & ?). split; [done|lia]. }
  eapply InodeSpec.refs_ok_ext; [|apply (fk_ino _ _ _ Hf)]. intros ip. cbn. rewrite (same_role_ip _ _ ip Hrole). lia.
Qed.

Lemma getf_run (f : F) i x : files f !! i = Some x → getf (fptr i) f = Ok x f.
Proof.
  intros Hx. unfold getf, mbind, M_bind, get. rewrite bool_decide_false by (unfold fptr; lia). by rewrite fidx_fptr, Hx.
Qed.
Lemma setf_run (f : F) i x g : files f !! i = Some x →
  setf (fptr i) g f = Ok tt (with_files (<[i := g x]> (files f)) f).
Proof. intros Hx. unfold setf. erewrite bind_ok by (by apply getf_run). unfold modify. by rewrite fidx_fptr. Qed.

Lemma open_file f R I x : fok_at f R I → 0 < R x → ∃ i y, x = fptr i ∧ files f !! i = Some y ∧ 0 < f_ref y.
Proof.
  intros Hf H0. destruct (fk_fptr _ _ _ Hf x H0) as (i & -> & Hi). rewrite <-(fk_len _ _ _ Hf) in Hi.
  destruct (lookup_lt_is_Some_2 _ _ Hi) as [y Hy]. exists i, y. split; [done|]. split; [done|].
  destruct (fk_ref _ _ _ Hf i y Hy) as [_ Hr]. destruct (shared f i); lia.
Qed.

Definition pages_of (f : F) (x : Z) : Prop := is_Some (pipes f !! x).

Lemma fok_at_ext f R I R' I' : fok_at f R I → (∀ x, R x = R' x) → (∀ x, I x = I' x) → fok_at f R' I'.
Proof.
  intros [H1 H2 H3 H4 H5 H6 H7 H8 H9 H10] HR HI. split; [done| | | | | |done|done|done|done].
  - intros i x Hx. rewrite <-HR. by apply H2.
  - intros x. rewrite <-HR. apply H3.
  - eapply InodeSpec.refs_ok_ext; [|exact H4]. intros i. cbn. by rewrite HI.
  - intros x. rewrite <-HI. apply H5.
  - intros x. rewrite <-HI. apply H6.
Qed.

Lemma filedup_count f R I x :
  fok_at f R I → 0 < R x < 2 ^ 30 →
  ∃ f', File.filedup x f = Ok x f' ∧ fok_at f' (<[x := R x + 1]> R) I ∧ pipes f' = pipes f ∧ ino f' = ino f.
Proof.
  intros Hf [H0 Hb]. destruct (open_file f R I x Hf H0) as (i & y & -> & Hy & Hr). unfold File.filedup.
  erewrite bind_ok by (by apply getf_run). cbv beta. rewrite bool_decide_false by lia.
  erewrite bind_ok by (by apply setf_run). eexists. split; [done|].
  assert (Hlt : f_ref y + 1 < 2 ^ 31) by (destruct (fk_ref _ _ _ Hf i y Hy) as [_ Hry]; destruct (shared f i); lia).
  rewrite s32_id by lia. split; [|done]. apply fok_count; [done|done|done|lia|lia].
Qed.

(** ** Inodes *)

(** References to inodes held by processes change. *)
Lemma fok_ino f R I ino' I' :
  fok_at f R I → InodeSpec.refs_ok ino' (λ ip, I' (iptr ip) + sum_over (holds_ip ip) (files f)) →
  (∀ x, 0 ≤ I' x) → (∀ x, 0 < I' x → ∃ ip, x = iptr ip) → fok_at (with_ino ino' f) R I'.
Proof. intros [H1 H2 H3 H4 H5 H6 H7 H8 H9 H10] Hi Hp Hq. by split. Qed.

(** [k] more references to entry [ip] from processes. *)
Lemma fok_add f R I ip k ino' :
  fok_at f R I → InodeSpec.refs_ok ino' (InodeSpec.add_ref k ip (λ jp, I (iptr jp) + sum_over (holds_ip jp) (files f))) →
  0 ≤ I (iptr ip) + k → fok_at (with_ino ino' f) R (<[iptr ip := I (iptr ip) + k]> I).
Proof.
  intros Hf Hok Hk. eapply (fok_ino f R I); [done|eapply InodeSpec.refs_ok_ext; [|apply Hok]|..].
  - intros jp. unfold InodeSpec.add_ref. cbn. destruct (decide (jp = ip)) as [->|Hj]; [rewrite fn_lookup_insert; lia|].
    rewrite fn_lookup_insert_ne by (intros ?%iptr_inj; congruence). lia.
  - intros x. destruct (decide (x = iptr ip)) as [->|Hx]; [by rewrite fn_lookup_insert|rewrite fn_lookup_insert_ne by done; apply (fk_pos _ _ _ Hf)].
  - intros x. destruct (decide (x = iptr ip)) as [->|Hx]; [eauto|rewrite fn_lookup_insert_ne by done; apply (fk_iptr _ _ _ Hf)].
Qed.

Lemma idup_count f R I x :
  fok_at f R I → 0 < I x < 2 ^ 30 →
  ∃ f', idup x f = Ok x f' ∧ fok_at f' R (<[x := I x + 1]> I) ∧ ∀ p, pages_of f' p ↔ pages_of f p.
Proof.
  intros Hf [H0 Hb]. destruct (fk_iptr _ _ _ Hf x H0) as [ip ->]. pose proof (fk_ino _ _ _ Hf) as Hi.
  pose proof (holds_ip_sum ip (files f) (fk_len _ _ _ Hf)) as Hs.
  assert (Hlt : (ip < Inode.NINODE)%nat).
  { destruct (decide (ip < Inode.NINODE)%nat) as [?|Hge]; [done|]. pose proof (InodeSpec.ro_out _ _ Hi ip ltac:(lia)) as Hz. cbn in Hz. lia. }
  rewrite <-(InodeSpec.ro_len _ _ Hi) in Hlt. destruct (lookup_lt_is_Some_2 _ _ Hlt) as [y Hy].
  set (s' := Inode.with_itab (<[ip := Inode.set_ref (s32 (Inode.i_ref y + 1)) y]> (Inode.itab (ino f))) (ino f)).
  assert (Hrun : Inode.idup ip (ino f) = Ok ip s').
  { unfold Inode.idup. by erewrite bind_ok by (by apply InodeSpec.updi_ok). }
  assert (Hrun' : idup (iptr ip) f = Ok (iptr ip) (with_ino s' f)).
  { cbn. rewrite bool_decide_false by (unfold iptr; lia). unfold on_ino, zoom. rewrite iidx_iptr. erewrite bind_ok by exact Hrun. done. }
  exists (with_ino s' f). split; [done|]. split; [|done].
  set (R0 := λ jp, I (iptr jp) + sum_over (holds_ip jp) (files f)) in *.
  pose proof (InodeSpec.ref_step_ok (ino f, R0) (s', InodeSpec.add_ref 1 ip R0) Hi) as Hok. cbn in Hok.
  apply (fok_add f R I ip 1 s' Hf); [apply Hok|pose proof (fk_pos _ _ _ Hf (iptr ip)); lia].
  apply InodeSpec.rs_idup; [unfold R0; lia|done|unfold R0; lia].
Qed.

Lemma iput_count f R I x f' :
  fok_at f R I → 0 < I x → iput x f = Ok tt f' →
  fok_at f' R (<[x := I x - 1]> I) ∧ ∀ p, pages_of f' p ↔ pages_of f p.
Proof.
  intros Hf H0 Hrun. destruct (fk_iptr _ _ _ Hf x H0) as [ip ->]. pose proof (fk_ino _ _ _ Hf) as Hi.
  pose proof (holds_ip_sum ip (files f) (fk_len _ _ _ Hf)) as Hs.
  cbn in Hrun. rewrite bool_decide_false in Hrun by (unfold iptr; lia). unfold on_ino, zoom in Hrun. rewrite iidx_iptr in Hrun.
  destruct (Inode.iput ip (ino f)) as [[] s'| | | |] eqn:Hp; try done. injection Hrun as <-. split; [|done].
  set (R0 := λ jp, I (iptr jp) + sum_over (holds_ip jp) (files f)) in *.
  pose proof (InodeSpec.ref_step_ok (ino f, R0) (s', InodeSpec.add_ref (-1) ip R0) Hi) as Hok. cbn in Hok.
  apply (fok_add f R I ip (-1) s' Hf); [apply Hok|pose proof (fk_pos _ _ _ Hf (iptr ip)); lia].
  apply InodeSpec.rs_iput; [unfold R0; lia|done].
Qed.

Lemma namei_root_run (s : Inode.fs D) :
  Dir.namei [] [47; 0] s = (ip ← Inode.iget Inode.ROOTDEV Inode.EXT2_ROOTINO; mret (Some ip)) s.
Proof.
  unfold Dir.namei, Dir.namex. unfold mbind, M_bind. cbn -[Inode.iget]. change (bool_decide (47 = Dir.slash)) with true. change (bool_decide (0 ≠ 0)) with false. cbn [when]. destruct (Inode.iget _ _ s); done.
Qed.
Lemma namei_root_count f R I r f' :
  fok_at f R I → namei_root f = Ok r f' → I r < 2 ^ 30 →
  r ≠ 0 ∧ fok_at f' R (<[r := I r + 1]> I) ∧ ∀ p, pages_of f' p ↔ pages_of f p.
Proof.
  intros Hf Hrun Hb. pose proof (fk_ino _ _ _ Hf) as Hi. cbn [namei_root ftab_ops] in Hrun. unfold on_ino, zoom in Hrun.
  unfold mbind, M_bind in Hrun. rewrite namei_root_run in Hrun. unfold mbind, M_bind in Hrun.
  destruct (Inode.iget Inode.ROOTDEV Inode.EXT2_ROOTINO (ino f)) as [ip s'| | | |] eqn:Hg; try done. cbn in Hrun. injection Hrun as <- <-.
  pose proof (holds_ip_sum ip (files f) (fk_len _ _ _ Hf)) as Hs. split; [unfold iptr; lia|]. split; [|done].
  set (R0 := λ jp, I (iptr jp) + sum_over (holds_ip jp) (files f)) in *.
  pose proof (InodeSpec.ref_step_ok (ino f, R0) (s', InodeSpec.add_ref 1 ip R0) Hi) as Hok. cbn in Hok.
  apply (fok_add f R I ip 1 s' Hf); [apply Hok|pose proof (fk_pos _ _ _ Hf (iptr ip)); lia].
  eapply InodeSpec.rs_iget; [exact Hg|unfold R0; lia].
Qed.

(** ** Closing *)

Definition shut (x : file) : file := set_ftype FD_NONE (set_fref 0 x).
Lemma shut_end a w x : ¬ pipe_end a w (shut x).
Proof. intros [H _]. cbn in H. lia. Qed.
Lemma shut_ip ip x : holds_ip ip (shut x) = 0.
Proof. unfold holds_ip. apply decide_False. intros [H _]. cbn in H. lia. Qed.

Lemma fok_shut f R I i x ino' P' :
  fok_at f R I → files f !! i = Some x → shared f i = false →
  InodeSpec.refs_ok ino' (λ ip, I (iptr ip) + (sum_over (holds_ip ip) (files f) - holds_ip ip x)) →
  pipes_ok (<[i := shut x]> (files f)) P' →
  fok_at (MkFtab (<[i := shut x]> (files f)) P' ino' (console f) (console_f f)) (<[fptr i := 0]> R) I.
Proof.
  intros Hf Hx H1 Hino Hpi. apply (fok_slot f R I i x (shut x) 0 P' ino' (console f) I Hf Hx); cbn; [by rewrite H1|done|done|done| |apply Hf|apply Hf].
  eapply InodeSpec.refs_ok_ext; [|exact Hino]. intros ip. cbn. rewrite shut_ip. lia.
Qed.

(** One end of a pipe is closed. *)
Lemma pipes_ok_shut l P i x a w pi pi' :
  pipes_ok l P → l !! i = Some x → pipe_end a w x → P !! a = Some pi →
  side w pi' = false → side (negb w) pi' = side (negb w) pi →
  pipes_ok (<[i := shut x]> l) (if side (negb w) pi then <[a := pi']> P else delete a P).
Proof.
  intros [H1 H2 H3 H4] Hx Hend Hpi Hw Hnw.
  assert (Hlook : ∀ j y b v, <[i := shut x]> l !! j = Some y → pipe_end b v y → j ≠ i ∧ l !! j = Some y ∧ (b ≠ a ∨ v ≠ w)).
  { intros j y b v [(<- & <- & _)|[Hj Hy]]%list_lookup_insert_Some He; [by apply shut_end in He|]. split; [done|]. split; [done|].
    destruct (decide (b = a)) as [->|]; [|by left]. destruct (decide (v = w)) as [->|]; [|by right].
    destruct Hj. eapply (H2 i j); done. }
  assert (Hkeep : ∀ b v, b ≠ a ∨ v ≠ w → (∃ j y, <[i := shut x]> l !! j = Some y ∧ pipe_end b v y) ↔ ∃ j y, l !! j = Some y ∧ pipe_end b v y).
  { intros b v Hbv. split.
    - intros (j & y & Hy & He). destruct (Hlook j y b v Hy He) as (_ & Hy' & _). eauto.
    - intros (j & y & Hy & He). exists j, y. rewrite list_lookup_insert_ne; [done|]. intros ->. simplify_eq.
      destruct Hend as (_ & _ & Ha & Hw'), He as (_ & _ & Hb & Hv). destruct Hbv; congruence. }
  split.
  - intros b qi v Hb. assert (Hcase : b = a ∧ qi = pi' ∧ side (negb w) pi = true ∨ b ≠ a ∧ P !! b = Some qi).
    { destruct (side (negb w) pi); [apply lookup_insert_Some in Hb as [[<- <-]|[? ?]]|apply lookup_delete_Some in Hb as [? ?]]; auto. }
    destruct Hcase as [(-> & -> & Hs)|[Hne Hb']]; [|rewrite Hkeep by (by left); by apply H1].
    destruct (decide (v = w)) as [->|Hv].
    + rewrite Hw. split; [done|]. intros (j & y & Hy & He). destruct (Hlook j y a w Hy He) as (_ & _ & [?|?]); done.
    + assert (v = negb w) as -> by (by destruct v, w). rewrite Hkeep by (by right). rewrite Hnw. by apply H1.
  - intros j j' y y' b v Hy Hy' He He'. destruct (Hlook j y b v Hy He) as (_ & Hyl & _), (Hlook j' y' b v Hy' He') as (_ & Hyl' & _). by eapply H2.
  - intros j y b v Hy He. destruct (Hlook j y b v Hy He) as (_ & Hyl & Hbv). pose proof (H3 j y b v Hyl He) as Hs.
    destruct (decide (b = a)) as [->|Hne].
    + destruct Hbv as [?|Hv]; [done|]. assert (v = negb w) as -> by (by destruct v, w).
      assert (Hside : side (negb w) pi = true) by (apply (H1 a pi (negb w) Hpi); eauto). rewrite Hside, lookup_insert_eq. eauto.
    + destruct (side (negb w) pi); [by rewrite lookup_insert_ne|by rewrite lookup_delete_ne].
  - intros b qi Hb. destruct (side (negb w) pi) eqn:Hs; [apply lookup_insert_Some in Hb as [[<- <-]|[? ?]]|apply lookup_delete_Some in Hb as [? ?]]; [|by eapply H4..].
    destruct w; cbn in *; auto.
Qed.

Lemma on_ftab_run {A} (m : M F A) (s : kmem * F) a f' : m s.2 = Ok a f' → on_ftab m s = Ok a (s.1, f').
Proof. intros H. unfold on_ftab, zoom. by rewrite H. Qed.

Section close.
Context (kend : Z) (kend_pos : 0 < kend).
Notation moves := (ProcMem.moves kend).
Notation kinv := (Kalloc.kinv kend).

(** The pages of pipes are the file table's. *)
Definition backed (f : F) (k : kmem) (l : list Z) : Prop :=
  ∀ p, pages_of f p → p ∉ l ∧ page_ok kend p ∧ is_Some (pmem k !! p).

Lemma moves_none f f' k l : kinv k l → backed f k l → (∀ p, pages_of f p ↔ pages_of f' p) →
  ∃ l', moves k l (pages_of f) k l' (pages_of f') ∧ ∀ p, pages_of f' p → is_Some (pmem k !! p).
Proof.
  intros Hk Hb He. exists l. split; [|intros p Hp%He; by apply Hb].
  eapply ProcMem.moves_ext; [apply ProcMem.moves_refl; [done|]|done|done]. intros p Hp. by apply Hb.
Qed.

(** A pipe is given back. *)
Lemma moves_free f f' k l a :
  kinv k l → backed f k l → pages_of f a → (∀ p, pages_of f' p ↔ pages_of f p ∧ p ≠ a) →
  ∃ k' l', kfree kend a k = Ok tt k' ∧ moves k l (pages_of f) k' l' (pages_of f') ∧ ∀ p, pages_of f' p → is_Some (pmem k' !! p).
Proof.
  intros Hk Hb Ha He. destruct (Hb a Ha) as (Hal & Hok & Hs).
  destruct (UserFree.kfree_gives kend kend_pos k l a Hk Hok Hal Hs) as (k' & Hrun & Hg). exists k', (a :: l). split; [done|]. split.
  - eapply ProcMem.moves_ext; [apply (ProcMem.moves_frame kend _ _ _ _ _ _ (pages_of f') (ProcMem.gives_moves kend _ _ _ _ _ Hg))|..].
    + intros p Hp%He. destruct Hp as [Hp Hne]. split; [by apply Hb|congruence].
    + intros p. cbv beta. rewrite He. destruct (decide (p = a)) as [->|]; [tauto|]. split; [intros [?|?]; [congruence|tauto]|tauto].
    + intros p. tauto.
  - intros p [Hp Hne]%He. rewrite (UserFree.gv_mem _ _ _ _ _ _ Hg p) by congruence. by apply Hb.
Qed.

Lemma close_pipe_count f R I i x k l chs k' f' :
  fok_at f R I → files f !! i = Some x → 0 < f_ref x → f_type x = FD_PIPE → kinv k l → backed f k l →
  close_pipe kend (f_pipe x) (f_writable x) (k, with_files (<[i := shut x]> (files f)) f) = Ok chs (k', f') →
  fok_at f' (<[fptr i := 0]> R) I ∧ ∃ l', moves k l (pages_of f) k' l' (pages_of f') ∧ ∀ p, pages_of f' p → is_Some (pmem k' !! p).
Proof.
  intros Hf Hx H1 Hty Hk Hb. set (a := f_pipe x). set (w := f_writable x).
  assert (Hend : pipe_end a w x).
  { by split. }
  destruct (unshared f R I i x Hf Hx) as (Hsh & _); [left; congruence|]. destruct (pk_file _ _ (fk_pipes _ _ _ Hf) i x a w Hx Hend) as [pi Hpi].
  assert (Hnoip : ∀ ip, holds_ip ip x = 0).
  { intros ip. unfold holds_ip. apply decide_False. rewrite Hty. by intros (_ & [?|?] & _). }
  unfold close_pipe. erewrite bind_ok by reflexivity. cbv beta. cbn [snd pipes with_files]. rewrite Hpi.
  erewrite bind_ok by reflexivity. cbv beta.
  set (pi' := (Pipe.pipeclose w pi).2).
  assert (Hclose : Pipe.pipeclose w pi = ([if w then Pipe.ChNread else Pipe.ChNwrite], negb (side (negb w) pi), pi') ∧
    side w pi' = false ∧ side (negb w) pi' = side (negb w) pi).
  { unfold pi', Pipe.pipeclose. destruct w; cbn; rewrite ?andb_true_r; done. }
  destruct Hclose as (Hc & Hs1 & Hs2). rewrite Hc.
  assert (Hpk := pipes_ok_shut _ _ i x a w pi pi' (fk_pipes _ _ _ Hf) Hx Hend Hpi Hs1 Hs2).
  assert (Hino : InodeSpec.refs_ok (ino f) (λ ip, I (iptr ip) + (sum_over (holds_ip ip) (files f) - holds_ip ip x))).
  { eapply InodeSpec.refs_ok_ext; [|apply (fk_ino _ _ _ Hf)]. intros ip. cbn. rewrite Hnoip. lia. }
  pose proof (fok_shut f R I i x (ino f) _ Hf Hx Hsh Hino Hpk) as Hfok.
  destruct (side (negb w) pi); cbn [negb]; intros Hrun.
  - injection Hrun as <- <- <-. split; [done|]. apply moves_none; [done|done|]. intros p. unfold pages_of. cbn.
    destruct (decide (p = a)) as [->|Hne]; [rewrite lookup_insert_eq, Hpi; split; eauto|by rewrite lookup_insert_ne].
  - destruct (moves_free f (MkFtab (<[i := shut x]> (files f)) (delete a (pipes f)) (ino f) (console f) (console_f f)) k l a Hk Hb) as (k1 & l1 & Hfree & Hmv & Hs).
    + unfold pages_of. rewrite Hpi. eauto.
    + intros p. unfold pages_of. cbn. destruct (decide (p = a)) as [->|Hne];
        [rewrite lookup_delete_eq; split; [by intros []|by intros []]|rewrite lookup_delete_ne by done; tauto].
    + erewrite bind_ok in Hrun by (erewrite bind_ok by reflexivity; unfold on_kmem, zoom; cbn [fst snd]; rewrite Hfree; reflexivity).
      cbn in Hrun. injection Hrun as _ <- <-. eauto.
Qed.

Lemma fileclose_count f R I x k l chs k' f' :
  fok_at f R I → 0 < R x → kinv k l → backed f k l → File.fileclose kend x (k, f) = Ok chs (k', f') →
  fok_at f' (<[x := R x - 1]> R) I ∧ ∃ l', moves k l (pages_of f) k' l' (pages_of f') ∧ ∀ p, pages_of f' p → is_Some (pmem k' !! p).
Proof.
  intros Hf H0 Hk Hb Hrun. destruct (open_file f R I x Hf H0) as (i & y & -> & Hy & Hr).
  pose proof (ref_bound f R I i y Hf Hy) as Hrb. destruct (fk_ref _ _ _ Hf i y Hy) as [HRb Hrc]. unfold File.fileclose in Hrun.
  erewrite bind_ok in Hrun by (apply on_ftab_run; by apply getf_run). cbv beta in Hrun.
  rewrite bool_decide_false in Hrun by lia. erewrite bind_ok in Hrun by (apply on_ftab_run; by apply setf_run). cbv beta in Hrun.
  cbn [fst snd] in Hrun. rewrite s32_id in Hrun by lia. destruct (decide (f_ref y = 1)) as [H1|H1].
  2:{ rewrite bool_decide_true in Hrun by lia. injection Hrun as <- <- <-. split; [|by apply moves_none].
      apply (fok_count f R I i y (-1)); [done|done|done|lia|lia]. }
  rewrite bool_decide_false in Hrun by lia.
  erewrite bind_ok in Hrun by (apply on_ftab_run; apply setf_run; cbn; apply list_lookup_insert_eq; by eapply lookup_lt_Some).
  cbv beta in Hrun. cbn [fst snd files pipes ino with_files] in Hrun. rewrite list_insert_insert_eq in Hrun.
  change (set_ftype FD_NONE (set_fref 0 (set_fref (f_ref y - 1) y))) with (shut y) in Hrun.
  destruct (shared f i) eqn:Hsh.
  { destruct Hrc as ((Hty & _ & Hip) & _). by rewrite Hty, Hip in Hrun. }
  replace (R (fptr i) - 1) with 0 by lia.
  assert (Hother : f_type y ≠ FD_PIPE → pipes_ok (<[i := shut y]> (files f)) (pipes f)).
  { intros Hne. eapply pipes_ok_ends; [apply Hf|done|]. intros a w. split; [by intros ?%shut_end|]. by intros (_ & ? & _). }
  assert (Hcase : f_type y = FD_INODE ∨ f_type y = FD_DEVICE →
    (ip ← of_option (f_ip y); on_ftab (on_ino (Inode.iput ip));; mret []) (k, with_files (<[i := shut y]> (files f)) f) = Ok chs (k', f') →
    fok_at f' (<[fptr i := 0]> R) I ∧ ∃ l', moves k l (pages_of f) k' l' (pages_of f') ∧ ∀ p, pages_of f' p → is_Some (pmem k' !! p)).
  { clear Hrun. intros Hty Hrun'. destruct (f_ip y) as [ip|] eqn:Hip; [|done]. erewrite bind_ok in Hrun' by reflexivity. cbv beta in Hrun'.
    apply bind_inv in Hrun' as ([] & s1 & Hput & Hend). injection Hend as <- ->. unfold on_ftab, on_ino, zoom in Hput. cbn [fst snd ino files pipes with_files] in Hput.
    destruct (Inode.iput ip (ino f)) as [[] s'| | | |] eqn:Hp; try done. injection Hput as <- <-.
    split; [|by apply moves_none]. assert (Hh : holds_ip ip y = 1).
    { unfold holds_ip. apply decide_True. split; [lia|done]. }
    set (R0 := λ jp, I (iptr jp) + sum_over (holds_ip jp) (files f)) in *.
    assert (Hpos : 0 < R0 ip).
    { unfold R0. pose proof (fk_pos _ _ _ Hf (iptr ip)). pose proof (sum_over_ge (holds_ip ip) _ i y (λ g, proj1 (holds_ip_range ip g)) Hy). lia. }
    pose proof (InodeSpec.ref_step_ok (ino f, R0) (s', InodeSpec.add_ref (-1) ip R0) (fk_ino _ _ _ Hf)) as Hok. cbn in Hok.
    apply (fok_shut f R I i y s' (pipes f) Hf Hy Hsh); [|apply Hother; by destruct Hty as [-> | ->]].
    eapply InodeSpec.refs_ok_ext; [|apply Hok; by apply InodeSpec.rs_iput]. intros jp. unfold InodeSpec.add_ref, R0.
    destruct (decide (jp = ip)) as [->|Hj]; [lia|]. unfold holds_ip at 3. rewrite decide_False by (intros (_ & _ & E); congruence). lia. }
  destruct (f_type y) eqn:Hty.
  - injection Hrun as <- <- <-. split; [|by apply moves_none]. apply (fok_shut f R I i y (ino f) (pipes f) Hf Hy Hsh); [|by apply Hother].
    eapply InodeSpec.refs_ok_ext; [|apply (fk_ino _ _ _ Hf)]. intros ip. cbn. unfold holds_ip at 3.
    rewrite decide_False by (rewrite Hty; by intros (_ & [?|?] & _)). lia.
  - by eapply close_pipe_count.
  - apply Hcase; auto.
  - apply Hcase; auto.
Qed.

(** ** Opening *)

Lemma find_free_spec l : ∀ i,
  match find_free l i with
  | Some j => ∃ k x, j = (i + k)%nat ∧ l !! k = Some x ∧ f_ref x = 0
  | None => ∀ k x, l !! k = Some x → f_ref x ≠ 0
  end.
Proof.
  induction l as [|y l IH]; intros i; cbn [find_free]; [done|]. case_bool_decide as Hy; [exists 0%nat, y; split; [lia|done]|].
  specialize (IH (S i)). destruct (find_free l (S i)) as [j|].
  - destruct IH as (k & x & -> & Hx & Hr). exists (S k), x. split; [lia|done].
  - intros [|k] x Hx; [by injection Hx as <-|by apply (IH k)].
Qed.

(** A file in use that is not open yet. *)
Definition blank (f : F) (i : nat) : Prop := ∃ x, files f !! i = Some x ∧ f_type x = FD_NONE ∧ f_ref x = 1.

Lemma none_end a w x : f_type x = FD_NONE → ¬ pipe_end a w x.
Proof. intros Ht (_ & Hp & _). congruence. Qed.
Lemma none_ip ip x : f_type x = FD_NONE → holds_ip ip x = 0.
Proof. intros Ht. unfold holds_ip. apply decide_False. rewrite Ht. by intros (_ & [?|?] & _). Qed.

Lemma pipe_ip ip x : f_type x = FD_PIPE → holds_ip ip x = 0.
Proof. intros Ht. unfold holds_ip. apply decide_False. rewrite Ht. by intros (_ & [?|?] & _). Qed.

(** [filealloc] finds no free slot, or takes one. *)
Lemma filealloc_count f R I :
  fok_at f R I →
  filealloc f = Ok 0 f ∧ (∀ i x, files f !! i = Some x → f_ref x ≠ 0) ∨
  ∃ i f', filealloc f = Ok (fptr i) f' ∧ R (fptr i) = 0 ∧ (i < NFILE)%nat ∧ fok_at f' (<[fptr i := 1]> R) I ∧ blank f' i ∧
    (∀ j, j ≠ i → files f' !! j = files f !! j) ∧ pipes f' = pipes f ∧ ino f' = ino f ∧
    ∃ x, files f !! i = Some x ∧ f_ref x = 0 ∧ f' = with_files (<[i := set_fref 1 x]> (files f)) f.
Proof.
  intros Hf. unfold filealloc. erewrite bind_ok by reflexivity. cbv beta. pose proof (find_free_spec (files f) 0) as Hs.
  destruct (find_free (files f) 0) as [i|]; [right|left].
  - destruct Hs as (k & x & -> & Hx & H0). cbn [Nat.add] in *. destruct (unshared f R I k x Hf Hx) as (Hsh & Hr & Hb); [by right; right|].
    erewrite bind_ok by (by apply setf_run). exists k. eexists. split; [done|]. pose proof (fk_free _ _ _ Hf k x Hx H0) as Hty.
    pose proof (lookup_lt_Some _ _ _ Hx) as Hlt. split; [congruence|]. split; [by rewrite <-(fk_len _ _ _ Hf)|].
    split; [|split; [|split; [|split; [done|split; [done|by exists x]]]]].
    + apply (fok_slot f R I k x (set_fref 1 x) 1 (pipes f) (ino f) (console f) I Hf Hx); cbn; [by rewrite Hsh|done|unfold kind_ok; cbn; by rewrite Hty| | |apply Hf|apply Hf].
      * eapply pipes_ok_ends; [apply Hf|done|]. intros a w. split; intros Hn; by apply none_end in Hn.
      * eapply InodeSpec.refs_ok_ext; [|apply (fk_ino _ _ _ Hf)]. intros ip. cbn. rewrite !none_ip by done. lia.
    + exists (set_fref 1 x). cbn. by rewrite list_lookup_insert_eq.
    + intros j Hj. cbn. by rewrite list_lookup_insert_ne.
  - done.
Qed.

(** Closing a file that was never opened. *)
Lemma close_blank f R I i k :
  fok_at f R I → blank f i →
  ∃ f', File.fileclose kend (fptr i) (k, f) = Ok [] (k, f') ∧ fok_at f' (<[fptr i := 0]> R) I ∧
    (∀ j, j ≠ i → files f' !! j = files f !! j) ∧ pipes f' = pipes f ∧ ino f' = ino f.
Proof.
  intros Hf (x & Hx & Hty & H1). destruct (unshared f R I i x Hf Hx) as (Hsh & Hr & Hb); [left; congruence|]. unfold File.fileclose.
  erewrite bind_ok by (apply on_ftab_run; by apply getf_run). cbv beta. rewrite bool_decide_false by lia.
  erewrite bind_ok by (apply on_ftab_run; by apply setf_run). cbv beta. cbn [fst snd]. rewrite H1. change (s32 (1 - 1)) with 0. change (bool_decide (0 > 0)) with false. cbv iota.
  erewrite bind_ok by (apply on_ftab_run; apply setf_run; cbn; apply list_lookup_insert_eq; by eapply lookup_lt_Some).
  cbv beta. cbn [fst snd files pipes ino with_files]. rewrite list_insert_insert_eq, Hty. eexists. split; [done|].
  change (set_ftype FD_NONE (set_fref 0 (set_fref 0 x))) with (shut x). split; [|split; [|done]].
  - apply (fok_shut f R I i x (ino f) (pipes f) Hf Hx); [done| |].
    + eapply InodeSpec.refs_ok_ext; [|apply (fk_ino _ _ _ Hf)]. intros ip. cbn. rewrite none_ip by done. lia.
    + eapply pipes_ok_ends; [apply Hf|done|]. intros a w. split; [by intros ?%shut_end|by intros ?%none_end].
  - intros j Hj. cbn. by rewrite list_lookup_insert_ne.
Qed.

(** An end of a pipe is opened. *)
Lemma pipes_ok_open l P i x y a w pi :
  pipes_ok l P → l !! i = Some x → f_type x = FD_NONE → pipe_end a w y → side w pi = true →
  (P !! a = None ∧ side (negb w) pi = false ∨
   ∃ old, P !! a = Some old ∧ side w old = false ∧ side (negb w) pi = side (negb w) old) →
  pipes_ok (<[i := y]> l) (<[a := pi]> P).
Proof.
  intros [H1 H2 H3 H4] Hx Hnone Hy Hpi Hold.
  assert (Hother : ∀ w', w' ≠ w → side w' pi = true ↔ ∃ j f, l !! j = Some f ∧ pipe_end a w' f).
  { intros w' Hw. assert (w' = negb w) as -> by (by destruct w', w). destruct Hold as [[Hn ->]|(old & Ho & _ & ->)]; [|by apply H1].
    split; [done|]. intros (j & f & Hf & He). by destruct (H3 j f a (negb w) Hf He) as [? ?]; rewrite Hn in *. }
  assert (Hnew : ∀ j f, l !! j = Some f → ¬ pipe_end a w f).
  { intros j f Hf He. destruct (H3 j f a w Hf He) as [old' Ho']. destruct Hold as [[? _]|(old & Ho & Hs & _)]; [congruence|].
    simplify_eq. assert (side w old = true) by (apply (H1 a old w Ho); eauto). congruence. }
  assert (Hlook : ∀ j z, <[i := y]> l !! j = Some z → j = i ∧ z = y ∨ j ≠ i ∧ l !! j = Some z).
  { intros j z [(<- & <- & _)|[? ?]]%list_lookup_insert_Some; auto. }
  assert (Hkeep : ∀ j z b v, l !! j = Some z → pipe_end b v z → <[i := y]> l !! j = Some z).
  { intros j z b v Hz He. rewrite list_lookup_insert_ne; [done|]. intros ->. simplify_eq. by apply none_end in He. }
  pose proof Hy as (_ & _ & Hya & Hyw). assert (Hyend : ∀ b v, pipe_end b v y → b = a ∧ v = w) by (intros b v (_ & _ & <- & <-); done).
  split.
  - intros b qi v. destruct (decide (b = a)) as [->|Hb].
    + rewrite lookup_insert_eq. intros [= <-]. destruct (decide (v = w)) as [->|Hv].
      * split; [intros _; exists i, y; rewrite list_lookup_insert_eq by (by eapply lookup_lt_Some); done|done].
      * rewrite (Hother v Hv). split; intros (j & f & Hf & He); [exists j, f; eauto|].
        destruct (Hlook j f Hf) as [[-> ->]|[_ Hf']]; [by destruct (Hyend a v He)|eauto].
    + rewrite lookup_insert_ne by done. intros Hq. rewrite (H1 b qi v Hq). split; intros (j & f & Hf & He); [exists j, f; eauto|].
      destruct (Hlook j f Hf) as [[-> ->]|[_ Hf']]; [by destruct (Hyend b v He)|eauto].
  - intros j j' f g b v [[-> ->]|[Hj Hf]]%Hlook [[-> ->]|[Hj' Hg]]%Hlook He He'; [done|..|by eapply H2].
    + destruct (Hyend b v He) as [-> ->]. by destruct (Hnew j' g Hg).
    + destruct (Hyend b v He') as [-> ->]. by destruct (Hnew j f Hf).
  - intros j f b v Hf He. destruct (decide (b = a)) as [->|Hb]; [by rewrite lookup_insert_eq|]. rewrite lookup_insert_ne by done.
    destruct (Hlook j f Hf) as [[-> ->]|[_ Hf']]; [by destruct (Hyend b v He)|by eapply H3].
  - intros b qi. destruct (decide (b = a)) as [->|Hb]; [rewrite lookup_insert_eq|rewrite lookup_insert_ne by done; apply H4].
    intros [= <-]. destruct w; auto.
Qed.

Definition read_end (a : Z) (x : file) : Prop := f_type x = FD_PIPE ∧ f_readable x = true ∧ f_writable x = false ∧ f_pipe x = a.
Definition write_end (a : Z) (x : file) : Prop := f_type x = FD_PIPE ∧ f_readable x = false ∧ f_writable x = true ∧ f_pipe x = a.

Definition as_end (a : Z) (w : bool) (x : file) : file := set_pipe a (set_mode (negb w) w (set_ftype FD_PIPE x)).

(** One end of a pipe is set up in a file that was not open yet. *)
Lemma open_end f R I i x a w pi :
  fok_at f R I → files f !! i = Some x → f_type x = FD_NONE → f_ref x = 1 → side w pi = true →
  (pipes f !! a = None ∧ side (negb w) pi = false ∨
   ∃ old, pipes f !! a = Some old ∧ side w old = false ∧ side (negb w) pi = side (negb w) old) →
  fok_at (MkFtab (<[i := as_end a w x]> (files f)) (<[a := pi]> (pipes f)) (ino f) (console f) (console_f f)) R I.
Proof.
  intros Hf Hx Hty H1 Hpi Hold. destruct (unshared f R I i x Hf Hx) as (Hsh & Hr & Hb); [left; congruence|].
  eapply fok_at_ext; [apply (fok_slot f R I i x (as_end a w x) 1 (<[a := pi]> (pipes f)) (ino f) (console f) I Hf Hx); cbn; [by rewrite Hsh|lia|done| | |apply Hf|apply Hf]|..]; [| | |done].
  - eapply pipes_ok_open; [apply Hf|done|done| |done|done]. repeat split; cbn; lia.
  - eapply InodeSpec.refs_ok_ext; [|apply (fk_ino _ _ _ Hf)]. intros ip. cbv beta. rewrite none_ip, (pipe_ip ip (as_end a w x)) by done. lia.
  - intros z. destruct (decide (z = fptr i)) as [->|Hz]; [rewrite fn_lookup_insert; lia|by rewrite fn_lookup_insert_ne].
Qed.

(** A page for a pipe. *)
Lemma moves_pipe f f' k l a fl x :
  kinv k (a :: l) → backed f k (a :: l) → kinv (MkKmem fl (<[a := x]> (pmem k))) l → a ∉ l →
  (∀ p, pages_of f' p ↔ p = a ∨ pages_of f p) →
  moves k (a :: l) (pages_of f) (MkKmem fl (<[a := x]> (pmem k))) l (pages_of f') ∧
  ∀ p, pages_of f' p → is_Some (pmem (MkKmem fl (<[a := x]> (pmem k))) !! p).
Proof.
  intros Hk Hb Hk' Ha He. split; [split; [done|..]|].
  - intros p. rewrite He, elem_of_cons. tauto.
  - intros p Hp%He. destruct Hp as [->|Hp]; [done|]. destruct (Hb p Hp) as (Hn & _). by apply not_elem_of_cons in Hn as [_ ?].
  - intros q Hq. cbn. rewrite lookup_insert_ne; [done|]. intros ->. apply Hq. left. by left.
  - intros p Hp%He. cbn. destruct (decide (p = a)) as [->|Hne]; [by rewrite lookup_insert_eq|]. rewrite lookup_insert_ne by done.
    destruct Hp as [?|Hp]; [done|]. by destruct (Hb p Hp) as (_ & _ & ?).
Qed.

(** The file table after [pipealloc]: as it was, or with a new pipe whose two ends
    are files of their own. *)
Definition piped (f : F) (R I : Z → Z) (r : Z) (ends : Z * Z) (f' : F) : Prop :=
  r = -1 ∧ fok_at f' R I ∧ pipes f' = pipes f ∨
  ∃ i j a data x y, r = 0 ∧ ends = (fptr i, fptr j) ∧ i ≠ j ∧ R (fptr i) = 0 ∧ R (fptr j) = 0 ∧
    fok_at f' (<[fptr i := 1]> (<[fptr j := 1]> R)) I ∧ length data = 512%nat ∧
    pipes f !! a = None ∧ pipes f' = <[a := Pipe.pipe_init data]> (pipes f) ∧
    files f' !! i = Some x ∧ read_end a x ∧ files f' !! j = Some y ∧ write_end a y.

Lemma pipealloc_count f R I k l :
  fok_at f R I → kinv k l → backed f k l →
  ∃ r ends k' f', pipealloc kend (k, f) = Ok (r, ends) (k', f') ∧ ino f' = ino f ∧ piped f R I r ends f' ∧
    ∃ l', moves k l (pages_of f) k' l' (pages_of f') ∧ ∀ p, pages_of f' p → is_Some (pmem k' !! p).
Proof.
  intros Hf Hk Hb. unfold pipealloc.
  destruct (filealloc_count f R I Hf) as [[Ha _]|(i & f1 & Ha & Hi0 & Hilt & Hf1 & Hbl1 & Hk1 & Hp1 & Hn1 & _)].
  { erewrite bind_ok by (by apply on_ftab_run). cbv beta. rewrite bool_decide_true by done. exists (-1), (0, 0), k, f. split; [done|]. split; [done|].
    split; [by left|]. by apply moves_none. }
  erewrite bind_ok by (by apply on_ftab_run). cbv beta. rewrite bool_decide_false by (unfold fptr; lia). cbn [fst snd].
  assert (Hpg : ∀ g : F, pipes g = pipes f → ∀ p, pages_of f p ↔ pages_of g p) by (intros g Hg p; unfold pages_of; by rewrite Hg).
  destruct (filealloc_count f1 _ I Hf1) as [[Ha2 _]|(j & f2 & Ha2 & Hj0 & Hjlt & Hf2 & Hbl2 & Hk2 & Hp2 & Hn2 & _)].
  { erewrite bind_ok by (by apply on_ftab_run). cbv beta. rewrite bool_decide_true by done. cbn [fst snd].
    destruct (close_blank f1 _ I i k Hf1 Hbl1) as (f3 & Hc & Hf3 & _ & Hp3 & Hn3). erewrite bind_ok by exact Hc.
    eexists (-1), _, k, f3. split; [done|]. split; [congruence|]. split; [|apply moves_none; [done|done|apply Hpg; congruence]].
    left. split; [done|]. split; [|congruence]. eapply fok_at_ext; [exact Hf3| |done]. intros z.
    destruct (decide (z = fptr i)) as [->|Hz]; [by rewrite fn_lookup_insert|by rewrite !fn_lookup_insert_ne]. }
  erewrite bind_ok by (by apply on_ftab_run). cbv beta. rewrite bool_decide_false by (unfold fptr; lia). cbn [fst snd].
  assert (Hij : i ≠ j) by (intros ->; by rewrite fn_lookup_insert in Hj0). rewrite fn_lookup_insert_ne in Hj0 by (intros ?%fptr_inj; congruence).
  assert (Hbl : blank f2 i) by (destruct Hbl1 as (x & Hx & ?); exists x; split; [by rewrite Hk2|done]).
  destruct l as [|a l].
  { erewrite bind_ok by (unfold on_kmem, zoom; cbn [fst snd]; by rewrite (PageTable.kalloc_empty kend k Hk)). cbv beta. rewrite bool_decide_true by done.
    destruct (close_blank f2 _ I i k Hf2 Hbl) as (f3 & Hc & Hf3 & Hk3 & Hp3 & Hn3). erewrite bind_ok by exact Hc. cbv beta.
    assert (Hbl3 : blank f3 j) by (destruct Hbl2 as (x & Hx & ?); exists x; split; [by rewrite Hk3|done]).
    destruct (close_blank f3 _ I j k Hf3 Hbl3) as (f4 & Hc4 & Hf4 & Hk4 & Hp4 & Hn4). erewrite bind_ok by exact Hc4.
    eexists (-1), _, k, f4. split; [done|]. split; [congruence|]. split; [|apply moves_none; [done|done|apply Hpg; congruence]].
    left. split; [done|]. split; [|congruence]. eapply fok_at_ext; [exact Hf4| |done]. intros z.
    destruct (decide (z = fptr j)) as [->|Hz]; [by rewrite fn_lookup_insert|]. rewrite fn_lookup_insert_ne by done.
    destruct (decide (z = fptr i)) as [->|Hz']; [by rewrite fn_lookup_insert|by rewrite !fn_lookup_insert_ne]. }
  destruct (PageTable.kalloc_page kend k a l Hk) as (fl & pg & Hrun & Hk' & Hok & Hal & Hpage).
  erewrite bind_ok by (unfold on_kmem, zoom; cbn [fst snd]; by rewrite Hrun). cbv beta.
  rewrite bool_decide_false by (destruct (PageTable.page_ok_pa kend kend_pos a Hok); lia). cbn [fst snd].
  erewrite bind_ok by (unfold on_kmem, zoom, load_page, mbind, M_bind, get; cbn [fst snd pmem]; rewrite lookup_insert_eq; reflexivity).
  cbv beta. erewrite bind_ok by reflexivity. cbv beta. cbn [fst snd].
  assert (HaP : pipes f2 !! a = None).
  { rewrite Hp2, Hp1. destruct (pipes f !! a) eqn:E; [|done]. destruct (Hb a) as (Hn & _); [unfold pages_of; by rewrite E|]. exfalso. apply Hn. by left. }
  destruct Hbl as (x & Hx & Htx & Hrx), Hbl2 as (y & Hy & Hty & Hry).
  set (data := slice 24 512 pg). set (pi1 := Pipe.MkPipe data 0 0 true false).
  erewrite bind_ok by (apply on_ftab_run; by apply setf_run). cbv beta. cbn [fst snd].
  erewrite bind_ok by (apply on_ftab_run; apply setf_run; cbn; by rewrite list_lookup_insert_ne). cbn [fst snd].
  assert (Hg1 := open_end f2 _ I i x a false pi1 Hf2 Hx Htx Hrx eq_refl (or_introl (conj HaP eq_refl))).
  assert (Hg2 := open_end _ _ I j y a true (Pipe.pipe_init data) Hg1 (eq_trans (list_lookup_insert_ne _ _ _ _ Hij) Hy) Hty Hry eq_refl
    (or_intror (ex_intro _ pi1 (conj (lookup_insert_eq _ _ _) (conj eq_refl eq_refl))))).
  cbn [files pipes ino console] in Hg2. rewrite insert_insert_eq in Hg2.
  eexists 0, _, _, _. split; [reflexivity|]. split; [cbn; congruence|]. split.
  - right. exists i, j, a, data, (as_end a false x), (as_end a true y). split; [done|]. split; [done|]. split; [done|]. split; [done|]. split; [done|].
    split; [|split; [|split; [congruence|split; [cbn; congruence|]]]].
    + eapply fok_at_ext; [exact Hg2| |done]. intros z. destruct (decide (z = fptr i)) as [->|Hz].
      * rewrite fn_lookup_insert_ne by (intros ?%fptr_inj; congruence). by rewrite !fn_lookup_insert.
      * rewrite (fn_lookup_insert_ne _ (fptr i)) by done. destruct (decide (z = fptr j)) as [->|Hz']; [by rewrite !fn_lookup_insert|].
        by rewrite !fn_lookup_insert_ne.
    + unfold data. apply length_slice. destruct Hpage as [Hlen _]. lia.
    + cbn. split; [rewrite list_lookup_insert_ne by done; apply list_lookup_insert_eq; by eapply lookup_lt_Some|]. split; [done|].
      split; [|done]. apply list_lookup_insert_eq. rewrite length_insert. by eapply lookup_lt_Some.
  - exists l. apply moves_pipe; [done|done|done|done|]. intros p. unfold pages_of. cbn. rewrite Hp2, Hp1.
    destruct (decide (p = a)) as [->|Hne]; [rewrite lookup_insert_eq; split; [auto|eauto]|rewrite lookup_insert_ne by done; split; [auto|intros [?|?]; done]].
Qed.

(** A file opened on an inode takes over a reference to it. *)
Lemma open_count f R I i ip y :
  fok_at f R I → blank f i → 0 < I (iptr ip) → f_ref y = 1 → f_type y = FD_INODE ∨ f_type y = FD_DEVICE → f_ip y = Some ip →
  fok_at (with_files (<[i := y]> (files f)) f) R (<[iptr ip := I (iptr ip) - 1]> I).
Proof.
  intros Hf (x & Hx & Htx & Hrx) H0 Hry Hty Hip. destruct (unshared f R I i x Hf Hx) as (Hsh & Hr & Hb); [left; congruence|].
  eapply fok_at_ext; [apply (fok_slot f R I i x y 1 (pipes f) (ino f) (console f) (<[iptr ip := I (iptr ip) - 1]> I) Hf Hx); [by rewrite Hsh|lia|unfold kind_ok; destruct Hty as [-> | ->]; rewrite Hip; eauto|..]| |done].
  - eapply pipes_ok_ends; [apply Hf|done|]. intros a w. split; [intros (_ & Hp & _); destruct Hty; congruence|by intros ?%none_end].
  - eapply InodeSpec.refs_ok_ext; [|apply (fk_ino _ _ _ Hf)]. intros jp. cbv beta. rewrite none_ip by done.
    destruct (decide (jp = ip)) as [->|Hj].
    + rewrite fn_lookup_insert. unfold holds_ip at 3. rewrite decide_True by (split; [lia|done]). lia.
    + rewrite fn_lookup_insert_ne by (intros ?%iptr_inj; congruence). unfold holds_ip at 3. rewrite decide_False by (intros (_ & _ & E); congruence). lia.
  - intros z. destruct (decide (z = iptr ip)) as [->|Hz]; [rewrite fn_lookup_insert; lia|rewrite fn_lookup_insert_ne by done; apply Hf].
  - intros z. destruct (decide (z = iptr ip)) as [->|Hz]; [eauto|rewrite fn_lookup_insert_ne by done; apply Hf].
  - intros z. destruct (decide (z = fptr i)) as [->|Hz]; [rewrite fn_lookup_insert; lia|by rewrite fn_lookup_insert_ne].
Qed.

(** Descriptors of the console come and go uncounted. *)
Lemma fok_shared f R I i x n :
  fok_at f R I → console_f f = fptr i → files f !! i = Some x → 0 ≤ n < 2 ^ 31 → f_ref x ≤ n + 2 ^ 29 → fok_at f (<[fptr i := n]> R) I.
Proof.
  intros [H1 H2 H3 H4 H5 H6 H7 H8 H9 H10] Hc Hx Hn Hb. split; try done.
  - intros j y Hy. destruct (decide (j = i)) as [->|Hj].
    + simplify_eq. rewrite fn_lookup_insert. destruct (H2 i x Hx) as [_ Hr]. unfold shared in *. rewrite bool_decide_true in * by done. split; [done|]. tauto.
    + rewrite fn_lookup_insert_ne by (by intros ?%fptr_inj). by apply H2.
  - intros z. destruct (decide (z = fptr i)) as [->|Hz]; [|rewrite fn_lookup_insert_ne by done; apply H3].
    intros _. exists i. split; [done|]. rewrite <-H1. by eapply lookup_lt_Some.
Qed.
(** The console's file is set up. *)
Lemma console_count f R I i x y :
  fok_at f R I → console_f f = 0 → files f !! i = Some x → f_type x = FD_NONE → f_ref x = 1 → is_console y → f_ref y = 1 →
  fok_at (MkFtab (<[i := y]> (files f)) (pipes f) (ino f) (console f) (fptr i)) R I.
Proof.
  intros [H1 H2 H3 H4 H5 H6 H7 H8 H9 H10] Hc Hx Htx Hrx Hy Hry.
  assert (Hns : ∀ j, shared f j = false) by (intros j; apply bool_decide_false; rewrite Hc; unfold fptr; lia).
  assert (Hni : ∀ ip, holds_ip ip y = 0) by (intros ip; unfold holds_ip; apply decide_False; destruct Hy as (_ & _ & ->); by intros (_ & _ & [=])).
  split; cbn; try done.
  - by rewrite length_insert.
  - intros j z [(<- & <- & _)|[Hj Hz]]%list_lookup_insert_Some; unfold shared; cbn.
    + destruct (H2 i x Hx) as [Hb _]. rewrite bool_decide_true by done. split; [done|]. split; [done|]. lia.
    + rewrite bool_decide_false by (by intros ?%fptr_inj). pose proof (H2 j z Hz) as Hr. by rewrite Hns in Hr.
  - eapply InodeSpec.refs_ok_ext; [|exact H4]. intros ip. cbn. rewrite (sum_over_insert _ _ i x) by done. rewrite Hni, none_ip by done. lia.
  - eapply pipes_ok_ends; [done|done|]. intros a w. split; [intros (_ & Hp & _); destruct Hy; congruence|by intros ?%none_end].
  - intros j z [(<- & <- & _)|[Hj Hz]]%list_lookup_insert_Some; [lia|by eapply H8].
  - right. exists i. split; [done|]. rewrite <-H1. by eapply lookup_lt_Some.
  - intros j z [(<- & <- & _)|[Hj Hz]]%list_lookup_insert_Some Hr; unfold shared; cbn.
    + rewrite bool_decide_true by done. unfold kind_ok. destruct Hy as (-> & _). by left.
    + rewrite bool_decide_false by (by intros ?%fptr_inj). pose proof (H10 j z Hz Hr) as Hk. by rewrite Hns in Hk.
Qed.
(** What keeps the console's file apart from the others: no other file has its
    major number, it was set up in a slot no inode was opened in before, and it
    was not duplicated and closed half a billion times. *)
Record console_ok (f : F) : Prop := {
  co_major i x : files f !! i = Some x → f_major x = CONSOLE → console_f f = fptr i ∧ f_ref x ≤ 2 ^ 29;
  co_fresh i x : console_f f = 0 → files f !! i = Some x → f_ref x = 0 → f_ip x = None;
}.

(** The bytes of a pipe change. *)
Lemma fok_pipe f R I a pi pi' :
  fok_at f R I → pipes f !! a = Some pi → Pipe.readopen pi' = Pipe.readopen pi → Pipe.writeopen pi' = Pipe.writeopen pi →
  fok_at (with_pipes (<[a := pi']> (pipes f)) f) R I.
Proof.
  intros [H1 H2 H3 H4 H5 H6 H7 H8 H9 H10] Ha Hr Hw. split; try done. cbn. destruct H7 as [P1 P2 P3 P4].
  assert (Hlook : ∀ b qi, <[a := pi']> (pipes f) !! b = Some qi → ∃ q0, pipes f !! b = Some q0 ∧ Pipe.readopen qi = Pipe.readopen q0 ∧ Pipe.writeopen qi = Pipe.writeopen q0).
  { intros b qi [[<- <-]|[_ ?]]%lookup_insert_Some; [by exists pi|by exists qi]. }
  split; [|done| |].
  - intros b qi w (q0 & Hq & E1 & E2)%Hlook. rewrite <-(P1 b q0 w Hq). unfold side. destruct w; by rewrite ?E1, ?E2.
  - intros i x b w Hx He. apply lookup_insert_is_Some. destruct (decide (a = b)) as [->|Hne]; [by left|right]. split; [done|]. by eapply P3.
  - intros b qi (q0 & Hq & E1 & E2)%Hlook. rewrite E1, E2. by eapply P4.
Qed.

(** A file keeps its role. *)
Lemma fok_role f R I i x y :
  fok_at f R I → files f !! i = Some x → same_role x y → f_ref y = f_ref x → f_major y = f_major x → fok_at (with_files (<[i := y]> (files f)) f) R I.
Proof.
  intros Hf Hx Hs Href Hmaj. destruct (fk_ref _ _ _ Hf i x Hx) as [Hb Hr]. pose proof Hs as (_ & Hty & _ & _ & Hip).
  eapply fok_at_ext; [apply (fok_slot f R I i x y (R (fptr i)) (pipes f) (ino f) (console f) I Hf Hx); [split; [done|unfold is_console; by rewrite Hty, Hip, Href, Hmaj]| |unfold kind_ok; rewrite Hty, Hip; by apply (kind_any f R I i x)| | |apply Hf|apply Hf]|..]; [| | | |done].
  - rewrite Href, Hty. by apply (fk_free _ _ _ Hf i).
  - eapply pipes_ok_role; [apply Hf|done|done].
  - eapply InodeSpec.refs_ok_ext; [|apply (fk_ino _ _ _ Hf)]. intros ip. cbv beta. rewrite (same_role_ip _ _ ip Hs). lia.
  - intros z. destruct (decide (z = fptr i)) as [->|Hz]; [by rewrite fn_lookup_insert|by rewrite fn_lookup_insert_ne].
Qed.
End close.
End spec.
End FileSpec.

(** The file table keeps what processes rely on. *)
#[export] Instance ftab_laws {D : Type} {BIO : BlockIO D} : FileLaws (ftab D).
Proof.
  refine (Build_FileLaws _ _ FileSpec.fok_at FileSpec.pages_of _ _ _ _ _ _).
  - exact FileSpec.fok_at_ext.
  - intros f R I x Hf Hb. apply wp_ok. destruct (FileSpec.filedup_count f R I x Hf Hb) as (f' & Hrun & Hok & Hp & _).
    exists x, f'. split; [done|]. split; [done|]. split; [done|]. intros p. unfold FileSpec.pages_of. by rewrite Hp.
  - intros kend f R I x k l chs k' f' Hpos Hf H0 Hk Hb Hrun. by eapply FileSpec.fileclose_count.
  - intros f R I x Hf Hb. apply wp_ok. destruct (FileSpec.idup_count f R I x Hf Hb) as (f' & Hrun & Hok & Hp). by exists x, f'.
  - exact FileSpec.iput_count.
  - exact FileSpec.namei_root_count.
Defined.
