(* ===== verification/Syscall.v ===== *)
(** System-call arguments and the calls on processes: [kernel/syscall.c],
    [kernel/sysproc.c] and the clock of [kernel/trap.c].

    The state of the kernel is the process table over memory and the file table,
    and the tick counter.  A system call is made by the process in slot [cur];
    what it prints for debugging is left out. *)

From S2P Require Import Prelude Riscv CString Kalloc Vm BlockIO Inode File FileSpec Proc.
Import Kalloc Vm File Proc.

Local Open Scope Z_scope.

Module Syscall.

(** Offsets of the argument registers in [struct trapframe]. *)
Definition tf_a1 : nat := 120.
Definition tf_a2 : nat := 128.
Definition tf_a3 : nat := 136.
Definition tf_a4 : nat := 144.
Definition tf_a5 : nat := 152.
Definition tf_a7 : nat := 168.

Section syscall.
Context {D : Type} {BIO : BlockIO D}.
Context (kend trampoline forkret : Z).
(** [&ticks]. *)
Context (ticks_chan : Z).
Notation ps := (@Proc.ps (ftab D)).

Record sys := MkSys { st : ps; ticks : Z }.

Definition on_ps {A} (m : M ps A) : M sys A := zoom st (λ p s, MkSys p (ticks s)) m.

Context (cur : nat).
Definition myproc : M sys proc := on_ps (getp cur).

(** [myproc()->cwd] and [myproc()->pid] as the inode layer sees them. *)
Definition as_proc (p : proc) (s : Inode.fs D) : Inode.fs D :=
  Inode.MkFs (Inode.io s) (Inode.sb s) (Inode.itab s) (iidx (cwd p)) (pid p).
Definition enter : M sys unit := p ← myproc; on_ps (on_fs (on_ino (modify (as_proc p)))).

(** ** Arguments *)

Definition fetchaddr (addr : Z) : M sys (option Z) :=
  p ← myproc;
  if bool_decide (sz p ≤ addr ∨ sz p < u64 (addr + 8)) then mret None else
  '(bs, r) ← on_ps (on_mem (copyin (pagetable p) addr 8));
  if bool_decide (r ≠ 0) then mret None else mret (Some (le_of bs)).

(** [buf] before and after the call. *)
Definition fetchstr (addr : Z) (buf : list Z) (max : Z) : M sys (Z * list Z) :=
  p ← myproc;
  '(y, r) ← on_ps (on_mem (copyinstr (pagetable p) addr max));
  let buf := splice 0 y buf in
  if bool_decide (r < 0) then mret (-1, buf) else
  n ← of_option (Str.strlen buf);
  mret (n, buf).

Definition tf_get (tf : Z) (off : nat) : M kmem Z := x ← load_page tf; mret (rd 8 off x).
Definition argraw (n : nat) : M sys Z :=
  p ← myproc;
  match [tf_a0; tf_a1; tf_a2; tf_a3; tf_a4; tf_a5] !! n with
  | Some off => on_ps (on_mem (tf_get (trapframe p) off))
  | None => panic "argraw"
  end.
Definition argint (n : nat) : M sys Z := x ← argraw n; mret (s32 x).
Definition argaddr (n : nat) : M sys Z := argraw n.
Definition argstr (n : nat) (buf : list Z) (max : Z) : M sys (Z * list Z) :=
  addr ← argaddr n; fetchstr addr buf max.

(** ** Calls on processes *)

Definition sys_exit : M sys Z := n ← argint 0; on_ps (exit kend cur n);; mret 0.
Definition sys_getpid : M sys Z := p ← myproc; mret (pid p).
Definition sys_fork : M sys Z := on_ps (fork kend trampoline forkret cur).
Definition sys_wait : M sys Z := p ← argaddr 0; on_ps (wait kend cur p).
Definition sys_sbrk : M sys Z :=
  n ← argint 0;
  p ← myproc;
  let addr := sz p in
  r ← on_ps (growproc kend cur n);
  if bool_decide (r < 0) then mret (-1) else mret addr.

(** The loop of [sys_sleep], entered with [ticks0]: it returns, or sleeps and
    runs again from here. *)
Definition sleep_loop (ticks0 n : Z) : M sys Z :=
  s ← get;
  if bool_decide (u32 (ticks s - ticks0) < u32 n) then
    k ← on_ps (is_killed cur);
    if bool_decide (k ≠ 0) then mret (-1) else on_ps (Proc.sleep cur (ChAddr ticks_chan))
  else mret 0.
Definition sys_sleep : M sys Z :=
  n ← argint 0;
  let n := if bool_decide (n < 0) then 0 else n in
  s ← get;
  sleep_loop (ticks s) n.
Definition sys_kill : M sys Z := pid ← argint 0; on_ps (kill pid).
Definition sys_uptime : M sys Z := s ← get; mret (ticks s).

(** [clockintr], on the first hart or on another one. *)
Definition clockintr (first : bool) (running : option nat) : M sys unit :=
  if first then
    modify (λ s, MkSys (st s) (u32 (ticks s + 1)));;
    on_ps (wakeup (ChAddr ticks_chan) running)
  else mret tt.
End syscall.
End Syscall.
