(* ===== verification/Sysfile.v ===== *)
(** System calls on files: [kernel/sysfile.c].

    What the calls do to inodes is written on the inode layer ([link], [unlink],
    [create], ...); the calls fetch the arguments and work on descriptors and
    files.  [stk] stands for what uninitialised local arrays hold on entry: a
    [path], [old] or [new] buffer of [MAXPATH] bytes, the [file_name] buffer of
    [dirlookup], and the padding of [struct stat].  [begin_op] and [end_op]
    bracket transactions of the log and are not repeated here. *)

From S2P Require Import Prelude Riscv CString Kalloc Vm BlockIO Inode FileData Dir File FileSpec Proc Syscall.
Import Kalloc Vm File Proc Syscall.

Local Open Scope Z_scope.

Module Sysfile.

Definition MAXPATH : Z := 128.
Definition O_RDONLY : Z := 0.
Definition O_WRONLY : Z := 1.
Definition O_RDWR : Z := 2.
Definition O_CREATE : Z := 0x200.
Definition O_TRUNC : Z := 0x400.
Definition ROOT_FILES : Z := 0.
Definition CWDFILES : Z := 1.
Definition CATFILE : Z := 2.

(** ["."], [".."] and [char console[10] = "console"]. *)
Definition dot : list Z := [46; 0].
Definition dotdot : list Z := [46; 46; 0].
Definition console_path : list Z := [99; 111; 110; 115; 111; 108; 101; 0; 0; 0].

(** [a & b] as a condition. *)
Definition flag (a b : Z) : bool := bool_decide (Z.land a b ≠ 0).

Section inodes.
Context {D : Type} {BIO : BlockIO D}.
Context (stk : list Z).
Notation fs := (Inode.fs D).
Notation ilock := (Inode.ilock (D := D)).
Notation iunlock := (Inode.iunlock (D := D)).
Notation name0 := (replicate Dir.DIRSIZ 0).

(** ** Links *)

(** [ip->nlink += k; iupdate(ip);] *)
Definition bump_nlink (ip : nat) (k : Z) : M fs unit :=
  Inode.updi ip (λ x, Inode.set_nlink (s16 (Inode.i_nlink x + k)) x);;
  Inode.iupdate ip.

(** The label [bad] of [sys_link]. *)
Definition link_bad (ip : nat) : M fs Z :=
  ilock (Some ip);;
  bump_nlink ip (-1);;
  Inode.iunlockput ip;;
  mret (-1).

Definition link (old new : list Z) : M fs Z :=
  r ← Dir.namei stk old;
  match r with
  | None => mret (-1)
  | Some ip =>
      ilock (Some ip);;
      x ← Inode.rdi ip;
      if bool_decide (Inode.i_type x = Inode.T_DIR) then Inode.iunlockput ip;; mret (-1) else
      bump_nlink ip 1;;
      iunlock (Some ip);;
      '(d, name) ← Dir.nameiparent stk new name0;
      match d with
      | None => link_bad ip
      | Some dp =>
          ilock (Some dp);;
          y ← Inode.rdi dp;
          x ← Inode.rdi ip;
          r ← (if bool_decide (Inode.i_dev y ≠ Inode.i_dev x) then mret (-1)
               else Dir.dirlink stk dp name (Inode.i_inum x));
          if bool_decide (r < 0) then Inode.iunlockput dp;; link_bad ip else
          Inode.iunlockput dp;;
          Inode.iput ip;;
          mret 0
      end
  end.

(** The loop of [isdirempty] from [off]. *)
Fixpoint isdirempty_loop (fuel dp : nat) (off : Z) : M fs Z :=
  x ← Inode.rdi dp;
  if bool_decide (u32 off < Inode.i_size x) then
    match fuel with
    | O => nofuel
    | S fuel =>
        '(r, de) ← FileData.readi_buf dp (u32 off) (Z.of_nat Dir.sizeof_dirent) (replicate Dir.sizeof_dirent 0);
        if bool_decide (r ≠ Z.of_nat Dir.sizeof_dirent) then panic "isdirempty: readi" else
        if bool_decide (rd 2 0 de ≠ 0) then mret 0
        else isdirempty_loop fuel dp (s32 (off + Z.of_nat Dir.sizeof_dirent))
    end
  else mret 1.
Definition isdirempty (dp : nat) : M fs Z :=
  x ← Inode.rdi dp;
  isdirempty_loop (S (Z.to_nat (Inode.i_size x))) dp (2 * Z.of_nat Dir.sizeof_dirent).

(** The label [bad] of [sys_unlink]. *)
Definition unlink_bad (dp : nat) : M fs Z := Inode.iunlockput dp;; mret (-1).

(** [sys_unlink] once the entry at [off] of [dp] is found to hold [ip]. *)
Definition unlink_found (dp ip : nat) (off : Z) : M fs Z :=
  ilock (Some ip);;
  x ← Inode.rdi ip;
  if bool_decide (Inode.i_nlink x < 1) then panic "unlink: nlink < 1" else
  e ← (if bool_decide (Inode.i_type x = Inode.T_DIR) then isdirempty ip else mret 1);
  if bool_decide (e = 0) then Inode.iunlockput ip;; unlink_bad dp else
  r ← FileData.writei (Dir.buf_in (replicate Dir.sizeof_dirent 0)) dp 0 off (Z.of_nat Dir.sizeof_dirent);
  if bool_decide (r ≠ Z.of_nat Dir.sizeof_dirent) then panic "unlink: writei" else
  x ← Inode.rdi ip;
  when (bool_decide (Inode.i_type x = Inode.T_DIR)) (bump_nlink dp (-1));;
  Inode.iunlockput dp;;
  bump_nlink ip (-1);;
  Inode.iunlockput ip;;
  mret 0.

Definition unlink (path : list Z) : M fs Z :=
  '(d, name) ← Dir.nameiparent stk path name0;
  match d with
  | None => mret (-1)
  | Some dp =>
      ilock (Some dp);;
      c1 ← of_option (Dir.namecmp name dot);
      c2 ← of_option (Dir.namecmp name dotdot);
      if bool_decide (c1 = 0 ∨ c2 = 0) then unlink_bad dp else
      r ← Dir.dirlookup stk dp name;
      match r with
      | None => unlink_bad dp
      | Some (ip, off) => unlink_found dp ip off
      end
  end.

(** ** Creation *)

(** The label [fail] of [create]. *)
Definition create_fail (dp ip : nat) : M fs (option nat) :=
  Inode.updi ip (Inode.set_nlink 0);;
  Inode.iupdate ip;;
  Inode.iunlockput ip;;
  Inode.iunlockput dp;;
  mret None.

(** [create] once [ip] is allocated for [name] in [dp]. *)
Definition create_new (dp ip : nat) (name : list Z) (type major minor : Z) : M fs (option nat) :=
  ilock (Some ip);;
  Inode.updi ip (λ x, Inode.set_nlink 1 (Inode.set_dev_numbers (s16 major) (s16 minor) x));;
  Inode.iupdate ip;;
  x ← Inode.rdi ip;
  y ← Inode.rdi dp;
  r ← (if bool_decide (type = Inode.T_DIR) then
         r ← Dir.dirlink stk ip dot (Inode.i_inum x);
         if bool_decide (r < 0) then mret r else Dir.dirlink stk ip dotdot (Inode.i_inum y)
       else mret 0);
  if bool_decide (r < 0) then create_fail dp ip else
  r ← Dir.dirlink stk dp name (Inode.i_inum x);
  if bool_decide (r < 0) then create_fail dp ip else
  when (bool_decide (type = Inode.T_DIR)) (bump_nlink dp 1);;
  Inode.iunlockput dp;;
  mret (Some ip).

(** The result is a locked inode, or null. *)
Definition create (path : list Z) (type major minor : Z) : M fs (option nat) :=
  '(d, name) ← Dir.nameiparent stk path name0;
  match d with
  | None => mret None
  | Some dp =>
      ilock (Some dp);;
      r ← Dir.dirlookup stk dp name;
      match r with
      | Some (ip, _) =>
          Inode.iunlockput dp;;
          ilock (Some ip);;
          x ← Inode.rdi ip;
          if bool_decide (type = Inode.T_FILE ∧ (Inode.i_type x = Inode.T_FILE ∨ Inode.i_type x = Inode.T_DEVICE))
          then mret (Some ip)
          else Inode.iunlockput ip;; mret None
      | None =>
          y ← Inode.rdi dp;
          ip ← Inode.ialloc (Inode.i_dev y) type;
          create_new dp ip name type major minor
      end
  end.

(** The inode [sys_open] opens, locked. *)
Definition open_inode (path : list Z) (omode : Z) : M fs (option nat) :=
  r ← (if flag omode O_CREATE then create path Inode.T_FILE 0 0
       else
         r ← Dir.namei stk path;
         match r with
         | None => mret None
         | Some ip =>
             ilock (Some ip);;
             x ← Inode.rdi ip;
             if bool_decide (Inode.i_type x = Inode.T_DIR ∧ omode ≠ O_RDONLY)
             then Inode.iunlockput ip;; mret None else mret (Some ip)
         end);
  match r with
  | None => mret None
  | Some ip =>
      x ← Inode.rdi ip;
      if bool_decide (Inode.i_type x = Inode.T_DEVICE ∧ (Inode.i_major x < 0 ∨ NDEV ≤ Inode.i_major x))
      then Inode.iunlockput ip;; mret None else mret (Some ip)
  end.

(** The directory [sys_chdir] changes to. *)
Definition chdir_inode (path : list Z) : M fs (option nat) :=
  r ← Dir.namei stk path;
  match r with
  | None => mret None
  | Some ip =>
      ilock (Some ip);;
      x ← Inode.rdi ip;
      if bool_decide (Inode.i_type x ≠ Inode.T_DIR) then Inode.iunlockput ip;; mret None
      else iunlock (Some ip);; mret (Some ip)
  end.
End inodes.

Section sysfile.
Context {D : Type} {BIO : BlockIO D}.
Context (kend : Z).
Context (idle : nat → bool) (cons_chan : Z).
Context (stk : list Z).
Context (cur : nat).
Notation sys := (@Syscall.sys D).
Notation myproc := (Syscall.myproc cur).
Notation argint := (Syscall.argint cur).
Notation argaddr := (Syscall.argaddr cur).
Notation argstr := (Syscall.argstr cur).

Definition on_inodes {A} (m : M (Inode.fs D) A) : M sys A := on_ps (on_fs (on_ino m)).
Definition on_files {A} (m : M (ftab D) A) : M sys A := on_ps (on_fs m).
Definition set_me (f : proc → proc) : M sys unit := on_ps (setp cur f).

(** [fileclose(f)] and the wakeups in it. *)
Definition close_file (x : Z) : M sys unit :=
  chs ← on_ps (on_file (File.fileclose kend x)); on_ps (wake_all chs cur).

(** ** Descriptors *)

(** The descriptor and the file. *)
Definition argfd (n : nat) : M sys (option (Z * Z)) :=
  fd ← argint n;
  p ← myproc;
  if bool_decide (fd < 0 ∨ NOFILE ≤ fd) then mret None else
  f ← of_option (ofile p !! Z.to_nat fd);
  if bool_decide (f = 0) then mret None else mret (Some (fd, f)).

Fixpoint find_fd (l : list Z) (fd : nat) : option nat :=
  match l with
  | [] => None
  | f :: l => if bool_decide (f = 0) then Some fd else find_fd l (S fd)
  end.
Definition put_fd (fd : nat) (x : Z) : M sys unit := set_me (λ p, set_ofile (<[fd := x]> (ofile p)) p).
Definition fdalloc (x : Z) : M sys Z :=
  p ← myproc;
  match find_fd (ofile p) 0 with
  | Some fd => put_fd fd x;; mret (Z.of_nat fd)
  | None => mret (-1)
  end.

Definition sys_dup : M sys Z :=
  a ← argfd 0;
  match a with
  | None => mret (-1)
  | Some (_, f) =>
      fd ← fdalloc f;
      if bool_decide (fd < 0) then mret (-1) else
      on_files (File.filedup f);;
      mret fd
  end.

(** A run of [fileread] or [filewrite] that ends in [sleep] ends here. *)
Definition finish (r : io_end * list Z) : M sys Z :=
  on_ps (wake_all r.2 cur);;
  match r.1 with
  | Done v => mret v
  | Wait ch _ => on_ps (Proc.sleep cur (ChAddr ch))
  end.

Definition sys_read : M sys Z :=
  p ← argaddr 1;
  n ← argint 2;
  a ← argfd 0;
  match a with
  | None => mret (-1)
  | Some (_, f) =>
      me ← myproc;
      r ← on_ps (on_file (fileread cons_chan (pagetable me) (bool_decide (killed me ≠ 0)) f p n));
      finish r
  end.
Definition sys_write : M sys Z :=
  p ← argaddr 1;
  n ← argint 2;
  a ← argfd 0;
  match a with
  | None => mret (-1)
  | Some (_, f) =>
      me ← myproc;
      r ← on_ps (on_file (filewrite idle (pagetable me) (bool_decide (killed me ≠ 0)) f p n));
      finish r
  end.

Definition sys_close : M sys Z :=
  a ← argfd 0;
  match a with
  | None => mret (-1)
  | Some (fd, x) =>
      put_fd (Z.to_nat fd) 0;;
      f ← on_files (getf x);
      when (bool_decide (f_major f ≠ CONSOLE)) (close_file x);;
      mret 0
  end.

Definition sys_fstat : M sys Z :=
  st ← argaddr 1;
  a ← argfd 0;
  match a with
  | None => mret (-1)
  | Some (_, f) => me ← myproc; on_ps (on_file (filestat (take 4 stk) (pagetable me) f st))
  end.

(** ** Paths *)

Definition path0 : list Z := take (Z.to_nat MAXPATH) stk.

Definition sys_link : M sys Z :=
  '(r, old) ← argstr 0 path0 MAXPATH;
  if bool_decide (r < 0) then mret (-1) else
  '(r, new) ← argstr 1 path0 MAXPATH;
  if bool_decide (r < 0) then mret (-1) else
  on_inodes (link stk old new).

Definition sys_unlink : M sys Z :=
  '(r, path) ← argstr 0 path0 MAXPATH;
  if bool_decide (r < 0) then mret (-1) else
  on_inodes (unlink stk path).

Definition set_console (x : Z) : M (ftab D) unit := modify (λ f, MkFtab (files f) (pipes f) (ino f) (console f) x).
(** Opening the console: the file is shared, and allocated the first time. *)
Definition open_console : M sys Z :=
  c ← on_files (gets console_f);
  if bool_decide (c ≠ 0) then fdalloc c else
  f ← on_files filealloc;
  on_files (set_console f);;
  on_files (setf f (λ x, set_mode true true (set_major CONSOLE (set_ftype FD_DEVICE x))));;
  fdalloc f.

(** [sys_open] with the inode in hand. *)
Definition open_file (ip : nat) (omode : Z) : M sys Z :=
  f ← on_files filealloc;
  fd ← (if bool_decide (f = 0) then mret (-1) else fdalloc f);
  if bool_decide (fd < 0) then
    (if bool_decide (f ≠ 0) then close_file f else mret tt);;
    on_inodes (Inode.iunlockput ip);;
    mret (-1)
  else
  x ← on_inodes (Inode.rdi ip);
  on_files (setf f (λ y, if bool_decide (Inode.i_type x = Inode.T_DEVICE)
                         then set_major (Inode.i_major x) (set_ftype FD_DEVICE y)
                         else set_off 0 (set_ftype FD_INODE y)));;
  on_files (setf f (λ y, set_mode (negb (flag omode O_WRONLY)) (flag omode O_WRONLY || flag omode O_RDWR)
                           (set_ip (Some ip) y)));;
  on_inodes (when (flag omode O_TRUNC && bool_decide (Inode.i_type x = Inode.T_FILE)) (Inode.itrunc ip));;
  on_inodes (Inode.iunlock (Some ip));;
  mret fd.

Definition sys_open : M sys Z :=
  omode ← argint 1;
  '(n, path) ← argstr 0 path0 MAXPATH;
  if bool_decide (n < 0) then mret (-1) else
  c ← of_option (Str.strncmp path console_path 10);
  if bool_decide (c = 0) then open_console else
  r ← on_inodes (open_inode stk path omode);
  match r with
  | None => mret (-1)
  | Some ip => open_file ip omode
  end.

Definition sys_mkdir : M sys Z :=
  '(n, path) ← argstr 0 path0 MAXPATH;
  if bool_decide (n < 0) then mret (-1) else
  r ← on_inodes (create stk path Inode.T_DIR 0 0);
  match r with
  | None => mret (-1)
  | Some ip => on_inodes (Inode.iunlockput ip);; mret 0
  end.

Definition sys_chdir : M sys Z :=
  '(n, path) ← argstr 0 path0 MAXPATH;
  if bool_decide (n < 0) then mret (-1) else
  r ← on_inodes (chdir_inode stk path);
  match r with
  | None => mret (-1)
  | Some ip =>
      p ← myproc;
      on_files (iput (cwd p));;
      set_me (set_cwd (iptr ip));;
      mret 0
  end.

(** [print_root_files] and the like end in [exit(0)]; [name] is what the user
    pointer of [print_cat_file] points to. *)
Definition sys_printinfo (name : Z → list Z) : M sys Z :=
  cond ← argint 0;
  ptr ← argaddr 1;
  if bool_decide (cond = ROOT_FILES) then on_inodes Dir.print_root_files;; on_ps (exit kend cur 0);; mret 0
  else if bool_decide (cond = CWDFILES) then on_inodes Dir.print_cwd_files;; on_ps (exit kend cur 0);; mret 0
  else if bool_decide (cond = CATFILE) then on_inodes (Dir.print_cat_file stk (name ptr));; on_ps (exit kend cur 0);; mret 0
  else mret 0.

(** ** Pipes *)

(** The two error paths of [sys_pipe] once both ends are allocated. *)
Definition drop_ends (rf wf : Z) : M sys Z := close_file rf;; close_file wf;; mret (-1).

Definition sys_pipe : M sys Z :=
  fdarray ← argaddr 0;
  '(r, (rf, wf)) ← on_ps (on_file (pipealloc kend));
  if bool_decide (r < 0) then mret (-1) else
  fd0 ← fdalloc rf;
  if bool_decide (fd0 < 0) then drop_ends rf wf else
  fd1 ← fdalloc wf;
  if bool_decide (fd1 < 0) then put_fd (Z.to_nat fd0) 0;; drop_ends rf wf else
  p ← myproc;
  r ← on_ps (on_mem (copyout (pagetable p) fdarray (le_to 4 fd0)));
  r ← (if bool_decide (r < 0) then mret r
       else on_ps (on_mem (copyout (pagetable p) (u64 (fdarray + 4)) (le_to 4 fd1))));
  if bool_decide (r < 0) then
    put_fd (Z.to_nat fd0) 0;; put_fd (Z.to_nat fd1) 0;; drop_ends rf wf
  else mret 0.
End sysfile.
End Sysfile.
