(* ===== verification/Handles.v ===== *)
(** References to inodes in the path operations of [kernel/fs.c] and
    [kernel/sysfile.c]: each takes and drops exactly the references it says.

    [held R c l s]: besides the [R ip] references to entry [ip] of the inode table
    that others hold, the running code holds one reference per occurrence in the
    list [l]; the current directory is entry [c]. *)

From S2P Require Import Prelude BlockIO Balloc Inode InodeSpec FileData Dir File Sysfile.
Import Inode InodeSpec FileData Dir Sysfile.

Local Open Scope Z_scope.

Module Handles.

(** ** Operations that keep all references *)

Section keeps.
Context {D : Type} {BIO : BlockIO D}.

Lemma keeps_readi_loop {K} (out : Z → list Z → K → K) ip fuel : ∀ dst off n tot k,
  keeps (readi_loop (D := D) out fuel ip dst off n tot k).
Proof. induction fuel; intros; cbn [readi_loop]; keeps_tac. Qed.
Lemma keeps_readi {K} (out : Z → list Z → K → K) ip dst off n k : keeps (readi (D := D) out ip dst off n k).
Proof. unfold readi. pose proof (@keeps_readi_loop K out). keeps_tac. Qed.
Lemma keeps_writei_loop cin ip fuel : ∀ src off n tot, keeps (writei_loop (D := D) cin fuel ip src off n tot).
Proof. induction fuel; intros; cbn [writei_loop]; keeps_tac. Qed.
Lemma keeps_writei cin ip src off n : keeps (writei (D := D) cin ip src off n).
Proof. unfold writei. pose proof keeps_writei_loop. keeps_tac. Qed.
Lemma keeps_readi_buf ip off n buf : keeps (readi_buf (D := D) ip off n buf).
Proof. apply keeps_readi. Qed.
Hint Resolve keeps_readi_buf keeps_writei : keeps.
Lemma keeps_bump ip k : keeps (bump_nlink (D := D) ip k).
Proof. unfold bump_nlink. keeps_tac. Qed.
Lemma keeps_dirlink_loop dp fuel : ∀ off, keeps (dirlink_loop (D := D) fuel dp off).
Proof. induction fuel; intros; cbn [dirlink_loop]; keeps_tac. Qed.
Lemma keeps_isdirempty_loop dp fuel : ∀ off, keeps (isdirempty_loop (D := D) fuel dp off).
Proof. induction fuel; intros; cbn [isdirempty_loop]; keeps_tac. Qed.
Lemma keeps_isdirempty dp : keeps (isdirempty (D := D) dp).
Proof. unfold isdirempty. pose proof keeps_isdirempty_loop. keeps_tac. Qed.
Lemma keeps_stati ip : keeps (stati (D := D) ip).
Proof. unfold stati. keeps_tac. Qed.
Lemma keeps_print_loop dp fuel : ∀ off, keeps (print_loop (D := D) fuel dp off).
Proof. induction fuel; intros; cbn [print_loop]; keeps_tac. Qed.
End keeps.

#[export] Hint Resolve keeps_readi keeps_writei keeps_readi_buf keeps_bump keeps_dirlink_loop keeps_isdirempty
  keeps_stati keeps_print_loop : keeps.

(** ** References held by running code *)

Fixpoint times (ip : nat) (l : list nat) : Z :=
  match l with [] => 0 | j :: l => (if decide (ip = j) then 1 else 0) + times ip l end.
Lemma times_range ip l : 0 ≤ times ip l ≤ Z.of_nat (length l).
Proof. induction l as [|j l IH]; cbn [times length]; [lia|]. case_decide; lia. Qed.
Lemma times_in ip l : ip ∈ l → 0 < times ip l.
Proof.
  induction l as [|j l IH]; [by intros ?%not_elem_of_nil|]. intros Hin. cbn [times]. pose proof (times_range ip l).
  apply elem_of_cons in Hin as [->|Hin]; [rewrite decide_True by done; lia|]. specialize (IH Hin). case_decide; lia.
Qed.
Lemma times_perm ip l l' : l ≡ₚ l' → times ip l = times ip l'.
Proof. induction 1; cbn [times]; lia. Qed.

Section held.
Context {D : Type} {BIO : BlockIO D}.
Context (R : refs) (c : nat).
Hypothesis R_bound : ∀ ip, 0 ≤ R ip < 2 ^ 30.
Hypothesis cwd_held : 0 < R c.
Notation fs := (fs D).

Record held (l : list nat) (s : fs) : Prop := {
  hd_refs : refs_ok s (λ ip, R ip + times ip l);
  hd_cwd : cwd s = c;
}.

Lemma held_perm l l' s : l ≡ₚ l' → held l s → held l' s.
Proof. intros Hp [H1 H2]. split; [|done]. eapply refs_ok_ext; [|exact H1]. intros i. cbn. by rewrite (times_perm i l l'). Qed.

Lemma held_keeps {A} (m : M fs A) l s : keeps m → held l s → pwp m (λ _, held l) s.
Proof.
  intros Hk [H1 H2]. apply pwp_ok. intros a s' Hrun. destruct (Hk _ _ _ Hrun) as [Hs Hc].
  split; [by eapply refs_ok_same|congruence].
Qed.

(** The table has fifty entries, so the bound on [l] is never an issue. *)
Definition few (l : list nat) : Prop := (length l < 100)%nat.

Lemma held_step l l' s s' :
  held l s → cwd s' = cwd s →
  (∀ R', (∀ i, R' i = R i + times i l') → refs_ok s' R') → held l' s'.
Proof. intros [_ H2] Hc H. split; [by apply H|congruence]. Qed.

Lemma held_iget dev inum l s : few l → held l s → pwp (iget dev inum) (λ ip, held (ip :: l)) s.
Proof.
  intros Hl Hh. apply pwp_ok. intros ip s' Hrun. pose proof (hd_refs _ _ Hh) as Hok.
  set (R0 := λ ip, R ip + times ip l) in *.
  pose proof (ref_step_ok (s, R0) (s', add_ref 1 ip R0) Hok) as Hok'. cbn in Hok'.
  assert (Hc : cwd s' = cwd s).
  { destruct (iget_run s R0 dev inum Hok) as [(i & x & _ & _ & _ & E)|[(i & x & _ & _ & _ & E)|[_ E]]]; rewrite E in Hrun; [injection Hrun as _ <-; done..|done]. }
  split; [|rewrite Hc; apply Hh]. eapply refs_ok_ext; [|apply Hok'; eapply rs_iget; [done|]].
  - intros i. unfold add_ref, R0. cbn [times]. case_decide; lia.
  - unfold R0. pose proof (R_bound ip). pose proof (times_range ip l). unfold few in Hl. lia.
Qed.

Lemma held_idup ip l s : few l → 0 < R ip + times ip l → held l s → pwp (idup ip) (λ jp s', jp = ip ∧ held (ip :: l) s') s.
Proof.
  intros Hl H0 Hh. apply pwp_ok. intros jp s' Hrun. pose proof (hd_refs _ _ Hh) as Hok.
  set (R0 := λ ip, R ip + times ip l) in *.
  pose proof (ref_step_ok (s, R0) (s', add_ref 1 ip R0) Hok) as Hok'. cbn in Hok'.
  assert (jp = ip ∧ cwd s' = cwd s) as [-> Hc].
  { unfold idup, mbind, M_bind, updi, rdi, mbind, M_bind, get in Hrun. destruct (itab s !! ip); [|done]. by injection Hrun as <- <-. }
  split; [done|]. split; [|rewrite Hc; apply Hh]. eapply refs_ok_ext; [|apply Hok'; apply rs_idup; [done|done|]].
  - intros i. unfold add_ref, R0. cbn [times]. case_decide; lia.
  - unfold R0. pose proof (R_bound ip). pose proof (times_range ip l). unfold few in Hl. lia.
Qed.

Lemma held_iput ip l s : held (ip :: l) s → pwp (iput ip) (λ _, held l) s.
Proof.
  intros Hh. apply pwp_ok. intros [] s' Hrun. pose proof (hd_refs _ _ Hh) as Hok.
  set (R0 := λ jp, R jp + times jp (ip :: l)) in *.
  pose proof (ref_step_ok (s, R0) (s', add_ref (-1) ip R0) Hok) as Hok'. cbn in Hok'.
  assert (Hc : cwd s' = cwd s).
  { apply iput_inv in Hrun as (s1 & x & _ & Hc & _ & ->). done. }
  split; [|rewrite Hc; apply Hh]. eapply refs_ok_ext; [|apply Hok'; apply rs_iput; [|done]].
  - intros i. unfold add_ref, R0. cbn [times]. case_decide; lia.
  - unfold R0. cbn [times]. rewrite decide_True by done. pose proof (R_bound ip). pose proof (times_range ip l). lia.
Qed.
Lemma held_iunlockput ip l s : held (ip :: l) s → pwp (iunlockput ip) (λ _, held l) s.
Proof. intros Hh. unfold iunlockput. pwp_use held_keeps; [auto with keeps|done|]. intros _ s' Hh'. by apply held_iput. Qed.

(** What a lookup leaves the caller with. *)
Definition found {A} (get : A → option nat) (l : list nat) (r : A) : fs → Prop :=
  match get r with Some ip => held (ip :: l) | None => held l end.

Lemma held_dirlookup_loop dp name l : few l → ∀ fuel off fn s,
  held l s → pwp (dirlookup_loop fuel dp name off fn) (found (fmap fst) l) s.
Proof.
  intros Hl. induction fuel as [|fuel IH]; intros off fn s Hh; cbn [dirlookup_loop].
  all: pwp_use held_keeps; [auto with keeps|done|]; clear s Hh; intros x s Hh; pwp_pures; try done.
  pwp_use held_keeps; [auto with keeps|done|]. clear s Hh. intros [r de] s Hh. pwp_pures; [by apply IH|..].
  - pwp_use held_iget; [done|done|]. intros ip s' Hh'. by pwp_pures.
  - by apply IH.
Qed.
Lemma held_dirlookup stk dp name l s : few l → held l s → pwp (dirlookup stk dp name) (found (fmap fst) l) s.
Proof.
  intros Hl Hh. unfold dirlookup. pwp_use held_keeps; [auto with keeps|done|]. clear s Hh. intros x s Hh. pwp_pures.
  by apply held_dirlookup_loop.
Qed.

Lemma held_dirlink stk dp name inum l s : few l → held l s → pwp (dirlink stk dp name inum) (λ _, held l) s.
Proof.
  intros Hl Hh. unfold dirlink. pwp_use held_dirlookup; [done|done|]. clear s Hh. intros [[ip o]|] s Hh; unfold found in Hh; cbn in Hh.
  - pwp_use held_iput; [done|]. intros _ s' Hh'. by pwp_pures.
  - do 2 (pwp_use held_keeps; [auto with keeps|done|]; clear s Hh; intros ? s Hh). pwp_pures.
    pwp_use held_keeps; [auto with keeps|done|]. clear s Hh. intros r s Hh. by pwp_pures.
Qed.

Lemma held_namex_loop stk parent l : few (0%nat :: l) → ∀ fuel path name ip s,
  held (ip :: l) s → pwp (namex_loop stk fuel path parent name ip) (found fst l) s.
Proof.
  intros Hl. induction fuel as [|fuel IH]; intros path name ip s Hh; cbn [namex_loop]; pwp_pures.
  all: match goal with H : skipelem _ _ = Some ?r |- _ => destruct r as [[path' name']|]; clear H end; pwp_pures; try done.
  all: try (pwp_use held_iput; [done|]; intros ? s' Hh'; by pwp_pures).
  pwp_use held_keeps; [auto with keeps|done|]. clear s Hh. intros _ s Hh.
  pwp_use held_keeps; [auto with keeps|done|]. clear s Hh. intros x s Hh. pwp_pures.
  - pwp_use held_iunlockput; [done|]. clear s Hh. intros _ s Hh. by pwp_pures.
  - pwp_use held_keeps; [auto with keeps|done|]. clear s Hh. intros _ s Hh. by pwp_pures.
  - pwp_use (held_dirlookup stk ip name' (ip :: l)); [exact Hl|done|]. clear s Hh. intros [[next o]|] s Hh; unfold found in Hh; cbn in Hh.
    + pwp_use held_iunlockput; [eapply held_perm; [apply Permutation_swap|done]|]. clear s Hh. intros _ s Hh. by apply IH.
    + pwp_use held_iunlockput; [done|]. clear s Hh. intros _ s Hh. by pwp_pures.
Qed.
Lemma held_namex stk path parent name l s : few (0%nat :: l) → held l s → pwp (namex stk path parent name) (found fst l) s.
Proof.
  intros Hl Hh. assert (Hl' : few l) by (unfold few in *; cbn in *; lia). unfold namex. pwp_pures.
  - pwp_use held_iget; [done|done|]. clear s Hh. intros ip s Hh. pwp_pures.
    + pwp_use held_keeps; [auto with keeps|done|]. clear s Hh. intros x s Hh. pwp_pures; [|by apply held_namex_loop].
      pwp_use held_keeps; [auto with keeps|done|]. clear s Hh. intros _ s Hh. by apply held_namex_loop.
    + by apply held_namex_loop.
  - rewrite (hd_cwd _ _ Hh). pwp_use held_idup; [done|pose proof (times_range c l); lia|done|].
    clear s Hh. intros ip s [-> Hh]. pwp_pures.
    + pwp_use held_keeps; [auto with keeps|done|]. clear s Hh. intros x s Hh. pwp_pures; [|by apply held_namex_loop].
      pwp_use held_keeps; [auto with keeps|done|]. clear s Hh. intros _ s Hh. by apply held_namex_loop.
    + by apply held_namex_loop.
Qed.

Lemma held_namei stk path l s : few (0%nat :: l) → held l s → pwp (namei stk path) (found id l) s.
Proof. intros Hl Hh. unfold namei. pwp_use held_namex; [done|done|]. intros [r nm] s' Hh'. by pwp_pures. Qed.
Lemma held_nameiparent stk path name l s : few (0%nat :: l) → held l s → pwp (nameiparent stk path name) (found fst l) s.
Proof. apply held_namex. Qed.

Ltac hkeep := pwp_use held_keeps; [solve [auto with keeps|keeps_tac]|eassumption|];
  match goal with Hh : held _ ?s |- _ => clear s Hh; intros ? s Hh end.
Ltac hput := pwp_use held_iunlockput; [eassumption|];
  match goal with Hh : held _ ?s |- _ => clear s Hh; intros ? s Hh end.

Lemma held_link_bad ip l s : held (ip :: l) s → pwp (link_bad ip) (λ _, held l) s.
Proof. intros Hh. unfold link_bad. hkeep. hkeep. hput. by pwp_pures. Qed.

(** [sys_link] keeps no reference. *)
Lemma held_link stk old new s : held [] s → pwp (link stk old new) (λ _, held []) s.
Proof.
  intros Hh. unfold link. pwp_use held_namei; [|done|]; [unfold few; cbn; lia|]. clear s Hh. intros [ip|] s Hh; cbn in Hh; [|by pwp_pures].
  hkeep. hkeep. pwp_pures; [hput; by pwp_pures|]. hkeep. hkeep.
  pwp_use held_nameiparent; [|done|]; [unfold few; cbn; lia|]. clear s Hh. intros [[dp|] name] s Hh; cbn in Hh; [|by apply held_link_bad].
  do 3 hkeep. pwp_enter. eapply (pwp_mono _ (λ _, held [dp; ip])).
  - pwp_pures; [done|]. apply held_dirlink; [unfold few; cbn; lia|done].
  - clear s Hh. intros r s Hh. pwp_pures; hput; [by apply held_link_bad|]. pwp_use held_iput; [done|]. intros _ s' Hh'. by pwp_pures.
Qed.

Lemma held_unlink_bad dp l s : held (dp :: l) s → pwp (unlink_bad dp) (λ _, held l) s.
Proof. intros Hh. unfold unlink_bad. hput. by pwp_pures. Qed.
Lemma held_unlink_found dp ip off s : held [ip; dp] s → pwp (unlink_found dp ip off) (λ _, held []) s.
Proof.
  intros Hh. unfold unlink_found. do 2 hkeep. apply pwp_if; intros _; [exact I|]. hkeep. pwp_pures; [hput; by apply held_unlink_bad|].
  hkeep. pwp_pures. hkeep. hkeep. apply (held_perm _ [dp; ip]) in Hh; [|apply Permutation_swap]. hput. hkeep. hput. by pwp_pures.
Qed.
(** [sys_unlink] keeps no reference. *)
Lemma held_unlink stk path s : held [] s → pwp (unlink stk path) (λ _, held []) s.
Proof.
  intros Hh. unfold unlink. pwp_use held_nameiparent; [|done|]; [unfold few; cbn; lia|]. clear s Hh. intros [[dp|] name] s Hh; cbn in Hh; [|by pwp_pures].
  hkeep. pwp_pures; [by apply held_unlink_bad|]. pwp_use held_dirlookup; [|done|]; [unfold few; cbn; lia|].
  clear s Hh. intros [[ip o]|] s Hh; unfold found in Hh; cbn in Hh; [by apply held_unlink_found|by apply held_unlink_bad].
Qed.

Lemma held_create_fail dp ip s : held [ip; dp] s → pwp (create_fail dp ip) (found id []) s.
Proof. intros Hh. unfold create_fail. do 2 hkeep. hput. hput. by pwp_pures. Qed.
Lemma held_create_new stk dp ip name type major minor s :
  held [ip; dp] s → pwp (create_new stk dp ip name type major minor) (found id []) s.
Proof.
  intros Hh. assert (Hf : few [ip; dp]) by (unfold few; cbn; lia). unfold create_new. do 5 hkeep.
  pwp_enter. eapply (pwp_mono _ (λ _, held [ip; dp])).
  - pwp_pures; [|done]. pwp_use held_dirlink; [done|done|]. clear s Hh. intros r s Hh. pwp_pures; [done|]. by apply held_dirlink.
  - clear s Hh. intros r s Hh. pwp_pures; [by apply held_create_fail|]. pwp_use held_dirlink; [done|done|]. clear s Hh. intros r' s Hh.
    apply pwp_if; intros _; [by apply held_create_fail|]. hkeep. apply (held_perm _ [dp; ip]) in Hh; [|apply Permutation_swap]. hput. by pwp_pures.
Qed.

Lemma keeps_bound {A} (m : M fs A) l s Q : keeps m → held l s → (∀ a s', held l s' → Q a s') → pwp m Q s.
Proof. intros Hk Hh HQ. eapply pwp_mono; [by apply held_keeps|]. cbv beta. auto. Qed.
Lemma held_ialloc dev type l s : few l → held l s → pwp (ialloc dev type) (λ ip, held (ip :: l)) s.
Proof.
  intros Hl Hh. unfold ialloc. do 4 hkeep. pwp_pures; [hkeep; exact I|]. do 7 hkeep. by apply held_iget.
Qed.

(** [create] returns an inode with one reference, or none. *)
Lemma held_create stk path type major minor s : held [] s → pwp (create stk path type major minor) (found id []) s.
Proof.
  intros Hh. unfold create. pwp_use held_nameiparent; [|done|]; [unfold few; cbn; lia|]. clear s Hh. intros [[dp|] name] s Hh; cbn in Hh; [|by pwp_pures].
  hkeep. pwp_use held_dirlookup; [|done|]; [unfold few; cbn; lia|]. clear s Hh. intros [[ip o]|] s Hh; unfold found in Hh; cbn in Hh.
  - apply (held_perm _ [dp; ip]) in Hh; [|apply Permutation_swap]. hput. do 2 hkeep. pwp_pures; [done|]. hput. by pwp_pures.
  - hkeep. pwp_use held_ialloc; [|done|]; [unfold few; cbn; lia|]. clear s Hh. intros ip s Hh. by apply held_create_new.
Qed.

Lemma held_open_inode stk path omode s : held [] s → pwp (open_inode stk path omode) (found id []) s.
Proof.
  intros Hh. unfold open_inode. pwp_enter. eapply (pwp_mono _ (found id [])).
  - pwp_pures; [by apply held_create|]. pwp_use held_namei; [|done|]; [unfold few; cbn; lia|]. clear s Hh. intros [ip|] s Hh; cbn in Hh; [|by pwp_pures].
    do 2 hkeep. pwp_pures; [hput; by pwp_pures|done].
  - clear s Hh. intros [ip|] s Hh; cbn in Hh; [|by pwp_pures]. hkeep. pwp_pures; [hput; by pwp_pures|done].
Qed.
Lemma held_chdir_inode stk path s : held [] s → pwp (chdir_inode stk path) (found id []) s.
Proof.
  intros Hh. unfold chdir_inode. pwp_use held_namei; [|done|]; [unfold few; cbn; lia|]. clear s Hh. intros [ip|] s Hh; cbn in Hh; [|by pwp_pures].
  do 2 hkeep. pwp_pures; [hput; by pwp_pures|]. hkeep. by pwp_pures.
Qed.

Lemma held_print_root_files s : held [] s → pwp Dir.print_root_files (λ _, held []) s.
Proof.
  intros Hh. unfold Dir.print_root_files. pwp_use held_iget; [|done|]; [unfold few; cbn; lia|]. clear s Hh. intros dp s Hh. do 3 hkeep. hput. by pwp_pures.
Qed.
(** The listing of the current directory gives up a reference that it did not
    take. *)
Lemma held_print_cwd_files s : held [c] s → pwp Dir.print_cwd_files (λ _, held []) s.
Proof.
  intros Hh. unfold Dir.print_cwd_files. apply pwp_bind, pwp_gets. rewrite (hd_cwd _ _ Hh). do 3 hkeep. hput. by pwp_pures.
Qed.
End held.
End Handles.
