(* ===== verification/CallSpec.v ===== *)
(** Running system calls on files: what holds in the middle of a call.

    [call R dR hs p s]: the running process is [p], memory is partitioned as
    ever, and the reference counts [R] of files and those of inodes are the
    numbers of descriptors and current directories, but for [dR x] more
    references to file [x] and one more reference to each inode in [hs], which
    the call itself holds. *)

From stdpp Require Import functions.
From S2P Require Import Prelude Riscv CString Kalloc Vm PageTable UserMem UserCopy Console Pipe BlockIO Inode InodeSpec FileData Dir Proc ProcMem ProcSpec ProcStep File FileSpec Syscall Sysfile Handles.
Import Kalloc Vm PageTable UserMem UserCopy Proc ProcMem ProcSpec ProcStep File FileSpec.

Local Open Scope Z_scope.

Module CallSpec.

(** ** Code that only reads memory *)

Definition reads {A} (m : M kmem A) : Prop := ∀ k a k', m k = Ok a k' → k' = k.

Lemma reads_ret {A} (a : A) : reads (mret a).
Proof. by intros k b k' [= _ <-]. Qed.
Lemma reads_bind {A B} (m : M kmem A) (f : A → M kmem B) : reads m → (∀ a, reads (f a)) → reads (mbind f m).
Proof. intros Hm Hf k b k2 (a & k1 & H1 & H2)%bind_inv. apply Hf in H2 as ->. by apply Hm in H1. Qed.
Lemma reads_panic {A} e : reads (panic e : M kmem A).
Proof. by intros k a k'. Qed.
Lemma reads_nofuel {A} : reads (nofuel : M kmem A).
Proof. by intros k a k'. Qed.
Lemma reads_if {A} (b : bool) (m n : M kmem A) : reads m → reads n → reads (if b then m else n).
Proof. by destruct b. Qed.
Lemma reads_load pa : reads (load_page pa).
Proof. intros k a k'. unfold load_page, mbind, M_bind, get. destruct (pmem k !! pa); [by intros [= _ <-]|done]. Qed.

Create HintDb reads.
#[export] Hint Resolve reads_ret reads_panic reads_nofuel reads_load : reads.
Ltac reads_tac := repeat (intros; lazymatch goal with
  | |- reads (mbind _ _) => apply reads_bind
  | |- reads (let _ := _ in _) => cbv zeta
  | |- reads (if _ then _ else _) => apply reads_if
  | |- reads (match ?x with _ => _ end) => destruct x
  | |- _ => solve [auto with reads]
  end).

Lemma reads_ld64 a : reads (ld64 a).
Proof. unfold ld64. reads_tac. Qed.
Lemma reads_ld_bytes a n : reads (ld_bytes a n).
Proof. unfold ld_bytes. reads_tac. Qed.
#[export] Hint Resolve reads_ld64 reads_ld_bytes : reads.
Lemma reads_walk pt va : reads (walk pt va false).
Proof.
  unfold walk. apply reads_if; [reads_tac|]. generalize [2; 1]. intros levels. revert pt.
  induction levels as [|level levels IH]; intros pt; cbn [walk_loop]; [reads_tac|]. apply reads_bind; [auto with reads|]. intros v.
  apply reads_if; [apply IH|]. cbn [negb]. reads_tac.
Qed.
#[export] Hint Resolve reads_walk : reads.
Lemma reads_walkaddr pt va : reads (walkaddr pt va).
Proof. unfold walkaddr. reads_tac. Qed.
#[export] Hint Resolve reads_walkaddr : reads.
Lemma reads_copyinstr_loop pt fuel : ∀ va max dst, reads (copyinstr_loop fuel pt va max dst).
Proof. induction fuel as [|fuel IH]; intros; cbn [copyinstr_loop]; reads_tac. Qed.
Lemma reads_copyin_loop pt fuel : ∀ va len dst, reads (copyin_loop fuel pt va len dst).
Proof. induction fuel as [|fuel IH]; intros; cbn [copyin_loop]; reads_tac. Qed.
Lemma reads_tf_get tf off : reads (Syscall.tf_get tf off).
Proof. unfold Syscall.tf_get. reads_tac. Qed.

Lemma pwp_reads {A} (m : M kmem A) k : reads m → pwp m (λ _ k', k' = k) k.
Proof. intros Hr. apply pwp_ok. intros a k'. apply Hr. Qed.

(** Bytes are [uchar]s. *)
Lemma bytes_u8 bs : bytes (u8 <$> bs).
Proof. apply Forall_fmap, Forall_true. intros b. unfold compose. wrap_lia. Qed.

(** ** Counts *)

Definition bump (k : Z) (x : Z) (d : Z → Z) : Z → Z := λ y, if decide (y = x) then d y + k else d y.
Definition none : Z → Z := λ _, 0.
(** The references to inodes in [hs]. *)
Definition hI (hs : list nat) (x : Z) : Z := if decide (0 < x) then Handles.times (iidx x) hs else 0.

Lemma hI_nil x : hI [] x = 0.
Proof. unfold hI. by case_decide. Qed.
Lemma hI_iptr hs ip : hI hs (iptr ip) = Handles.times ip hs.
Proof. unfold hI. rewrite decide_True by (unfold iptr; lia). by rewrite FileSpec.iidx_iptr. Qed.
Lemma hI_range hs x : 0 ≤ hI hs x ≤ Z.of_nat (length hs).
Proof. unfold hI. pose proof (Handles.times_range (iidx x) hs). case_decide; lia. Qed.
Lemma hI_pos hs x : 0 < hI hs x → ∃ ip, x = iptr ip.
Proof. unfold hI. case_decide; [intros _; exists (iidx x); unfold iptr, iidx; lia|lia]. Qed.

(** [x] as a descriptor, and the descriptors of a process with one replaced. *)
Definition one (f x : Z) : Z := if decide (x ≠ 0 ∧ x = f) then 1 else 0.
Lemma one_range f x : 0 ≤ one f x ≤ 1.
Proof. unfold one. destruct (decide _); lia. Qed.
Lemma nfd_put x p fd old new : ofile p !! fd = Some old →
  nfd x (set_ofile (<[fd := new]> (ofile p)) p) = nfd x p - one old x + one new x.
Proof.
  intros Hfd. unfold nfd, one. cbn [ofile set_ofile]. destruct (decide (x = 0)) as [->|Hx].
  { rewrite !decide_False by tauto. lia. }
  rewrite insert_take_drop by (by eapply lookup_lt_Some). rewrite <-(take_drop_middle (ofile p) fd old Hfd) at 3.
  rewrite !filter_app, !length_app, !filter_cons. cbn [length].
  destruct (decide (new = x)) as [->|H1], (decide (old = x)) as [->|H2];
    repeat (destruct (decide _) as [?|?]; [|]); cbn [length]; try lia; exfalso; tauto || (destruct_and?; congruence).
Qed.

Section call.
Context {D : Type} {BIO : BlockIO D}.
Context (kend trampoline : Z) (kend_pos : 0 < kend).
Notation ps := (@Proc.ps (ftab D)).
Notation minv := (ProcSpec.minv kend trampoline).
Context (cur : nat).

(** What holds of descriptors besides the counts. *)
Record shaped (s : ps) : Prop := {
  sh_fd i p : procs s !! i = Some p → length (ofile p) = 16%nat ∧ length (name p) = 16%nat;
  sh_unused i p : procs s !! i = Some p → dead p → ofile p = replicate 16 0 ∧ cwd p = 0;
  sh_cwd i p : procs s !! i = Some p → state p ≠ UNUSED → state p ≠ ZOMBIE → cwd p ≠ 0;
}.
Lemma finv_shaped s : finv s ↔ counted (fs s) (procs s) ∧ shaped s.
Proof.
  split.
  - intros [H1 H2 H3 H4]. split; [done|]. split; [done|done|]. intros i p ? ? ?. by apply (H4 i p).
  - intros [H1 [H2 H3 H4]]. split; [done|done|done|]. intros i p ? ? ? _. by apply (H4 i p).
Qed.

Record call (s0 : ps) (T : gmap nat ptree) (R dR : Z → Z) (hs : list nat) (p : proc) (s : ps) : Prop := {
  ca_mem : ∃ l, minv s l T;
  ca_ok : fok_at (fs s) R (λ x, sum_over (ncwd x) (procs s) + hI hs x);
  ca_cnt x : R x = sum_over (nfd x) (procs s) + dR x;
  ca_shape : shaped s;
  ca_sinv : sinv s;
  ca_apart : apart_from cur s0 T s T;
  ca_cur : procs s !! cur = Some p;
  ca_run : state p = RUNNING;
  ca_cwd : Inode.cwd (ino (fs s)) = iidx (cwd p);
}.

Section steps.
Context (s0 : ps) (T : gmap nat ptree).
Notation call := (call s0 T).

Lemma call_ext R dR dR' hs p s : (∀ x, dR x = dR' x) → call R dR hs p s → call R dR' hs p s.
Proof.
  intros He [H1 H2 Hn H3 H4 H5 H6 H7 H8]. split; try done. intros x. by rewrite <-He.
Qed.

(** Without references of its own, a call is at its end. *)
Lemma call_finv R p s : call R none [] p s → finv s.
Proof.
  intros [(l & H1) H2 Hn H3 H4 H5 H6 H7 H8]. apply finv_shaped. split; [|done].
  eapply fok_at_ext; [exact H2|..]; intros x; cbn; rewrite ?hI_nil, ?Hn; unfold none; lia.
Qed.
Lemma call_good R p s : call R none [] p s → good kend trampoline cur s0 T s.
Proof.
  intros Hc. pose proof (call_finv R p s Hc) as Hf. destruct Hc as [(l & H1) H2 Hn H3 H4 H5 H6 H7 H8].
  exists l, T. split; [done|]. split; [done|]. split; [done|]. by apply spared_apart.
Qed.
Lemma call_start l p s : apart_from cur s0 T s T → minv s l T → finv s → sinv s → procs s !! cur = Some p → state p = RUNNING →
  Inode.cwd (ino (fs s)) = iidx (cwd p) → call (λ x, sum_over (nfd x) (procs s)) none [] p s.
Proof.
  intros Hap Hm [Hc Hsh]%finv_shaped Hs Hp Hr Hcw. split; try done; [by exists l| |].
  - eapply fok_at_ext; [exact Hc|..]; intros x; cbn; rewrite ?hI_nil; unfold none; lia.
  - intros x. unfold none. lia.
Qed.

Lemma nfd_bound s x : shaped s → (∃ l, minv s l T) → 0 ≤ sum_over (nfd x) (procs s) ≤ 1024.
Proof.
  intros Hsh (l & Hm). split; [apply sum_over_nonneg, nfd_nonneg|].
  assert (sum_over (nfd x) (procs s) ≤ 16 * Z.of_nat (length (procs s))).
  { apply sum_over_le. intros r [i Hi]%list_elem_of_lookup. pose proof (nfd_len x r). destruct (sh_fd _ Hsh i r Hi). lia. }
  rewrite (mi_len _ _ _ _ _ Hm) in *. change (Z.to_nat NPROC) with 64%nat in *. lia.
Qed.
Lemma ncwd_bound s x : (∃ l, minv s l T) → 0 ≤ sum_over (ncwd x) (procs s) ≤ 64.
Proof.
  intros (l & Hm). split; [apply sum_over_nonneg, ncwd_nonneg|].
  assert (sum_over (ncwd x) (procs s) ≤ 1 * Z.of_nat (length (procs s))).
  { apply sum_over_le. intros r _. unfold ncwd. case_decide; lia. }
  rewrite (mi_len _ _ _ _ _ Hm) in *. change (Z.to_nat NPROC) with 64%nat in *. lia.
Qed.
Lemma open_fd R dR hs p s fd f : call R dR hs p s → ofile p !! fd = Some f → f ≠ 0 → 0 < R f - dR f.
Proof.
  intros Hc Hfd Hf. rewrite (ca_cnt _ _ _ _ _ _ _ Hc). replace (sum_over (nfd f) (procs s) + dR f - dR f) with (sum_over (nfd f) (procs s)) by lia.
  eapply Z.lt_le_trans; [|apply (sum_over_ge _ _ cur p (nfd_nonneg f) (ca_cur _ _ _ _ _ _ _ Hc))].
  apply nfd_in; [done|]. by eapply list_elem_of_lookup_2.
Qed.

(** ** Steps of a call *)

(** Files and their pages change. *)
Lemma call_file R R' dR dR' hs hs' p s k' f' :
  call R dR hs p s → (∀ x, R' x - dR' x = R x - dR x) →
  (∀ l, minv s l T → ∃ l', moves kend (mem s) l (pages_of (fs s)) k' l' (pages_of f') ∧ ∀ x, pages_of f' x → is_Some (pmem k' !! x)) →
  fok_at f' R' (λ x, sum_over (ncwd x) (procs s) + hI hs' x) →
  Inode.cwd (ino f') = Inode.cwd (ino (fs s)) → call R' dR' hs' p (put_fs f' (put_mem k' s)).
Proof.
  intros [(l & Hm) H2 Hn H3 H4 H5 H6 H7 H8] Hd Hmv Hok Hcw. destruct (Hmv l Hm) as (l' & Hmv' & Hsome).
  destruct (minv_files kend trampoline s l T k' l' f' Hm Hmv' Hsome) as [Hm' Hint].
  split; try done; [by exists l'| |destruct H3; by split| |cbn; congruence].
  { intros x. specialize (Hd x). specialize (Hn x). cbn. lia. }
  eapply apart_trans; [exact H5|]. split; [| |done].
  - intros j q _ Hq. exists q. split; [done|apply sim_refl].
  - intros j q t _ Hq Ht. split; [done|]. by apply (Hint j q t).
Qed.
(** Files change, and no page does. *)
Lemma call_fs R R' dR dR' hs hs' p s f' :
  call R dR hs p s → (∀ x, R' x - dR' x = R x - dR x) → (∀ x, pages_of f' x ↔ pages_of (fs s) x) →
  fok_at f' R' (λ x, sum_over (ncwd x) (procs s) + hI hs' x) →
  Inode.cwd (ino f') = Inode.cwd (ino (fs s)) → call R' dR' hs' p (put_fs f' s).
Proof.
  intros Hc Hd Hpg Hok Hcw. assert (Hs : put_fs f' s = put_fs f' (put_mem (mem s) s)) by by destruct s. rewrite Hs.
  eapply call_file; [exact Hc|exact Hd| |done|done]. intros l Hm. exists l. split.
  - eapply moves_ext; [apply moves_refl; [apply Hm|]|done|done]. intros x Hx%Hpg. by apply (mi_files _ _ _ _ _ Hm x).
  - intros x Hx%Hpg. by apply (mi_files _ _ _ _ _ Hm x).
Qed.

(** Memory of the process itself changes. *)
Lemma call_mem R dR hs p s k' :
  call R dR hs p s → (∀ l, minv s l T → minv (put_mem k' s) l T ∧ others s T cur k') → call R dR hs p (put_mem k' s).
Proof.
  intros [(l & Hm) H2 Hn H3 H4 H5 H6 H7 H8] H. destruct (H l Hm) as [Hm' Ho].
  split; try done; [by exists l|destruct H3; by split|]. eapply apart_trans; [exact H5|]. split; [| |done].
  - intros j q _ Hq. exists q. split; [done|apply sim_refl].
  - intros j q t Hj Hq Ht. split; [done|]. by apply (Ho j q t).
Qed.

(** Other processes are woken. *)
Lemma call_still R dR hs p s s' : call R dR hs p s → still s s' → procs s' !! cur = Some p → call R dR hs p s'.
Proof.
  intros [(l & Hm) H2 Hn H3 H4 H5 H6 H7 H8] [Hq Hc] Hp.
  assert (Hsum : ∀ g, (∀ p q, sim p q → g q = g p) → sum_over g (procs s') = sum_over g (procs s)).
  { intros g Hg. by apply sum_over_sim; [|apply Hq]. }
  split; try done.
  - exists l. by eapply minv_quiet.
  - rewrite (qt_fs _ _ Hq). eapply fok_at_ext; [exact H2|done|]. intros x. cbn. rewrite Hsum; [done|]. intros q r Hs.
    unfold ncwd. by rewrite (sim_cwd _ _ Hs).
  - intros x. rewrite Hsum; [done|]. intros q r Hs. unfold nfd. by rewrite (sim_ofile _ _ Hs).
  - split.
    + intros i q (r & Hr & Hs)%(quiet_lookup _ _ _ _ Hq). rewrite (sim_ofile _ _ Hs), (sim_name _ _ Hs). by apply (sh_fd _ H3 i).
    + intros i q Hiq Hd. destruct (quiet_lookup _ _ _ _ Hq Hiq) as (r & Hr & Hs). rewrite (sim_ofile _ _ Hs), (sim_cwd _ _ Hs).
      apply (sh_unused _ H3 i r Hr). destruct (Forall2_lookup_lr _ _ _ _ _ _ Hc Hr Hiq) as [_ Hz _].
      destruct Hd as [Hu|Hz']; [left; by apply (sim_unused _ _ Hs)|right; auto].
    + intros i q (r & Hr & Hs)%(quiet_lookup _ _ _ _ Hq) Hu Hz. rewrite (sim_cwd _ _ Hs). apply (sh_cwd _ H3 i r Hr).
      * by rewrite <-(sim_unused _ _ Hs).
      * intros E. by apply Hz, (sim_zombie _ _ Hs).
  - by eapply sinv_calm.
  - eapply apart_trans; [exact H5|]. by apply apart_quiet.
  - by rewrite (qt_fs _ _ Hq).
Qed.

(** The descriptors of the process change. *)
Lemma call_slot R dR dR' hs p s o :
  call R dR hs p s → length o = 16%nat →
  (∀ x, dR' x = dR x + nfd x p - nfd x (set_ofile o p)) → call R dR' hs (set_ofile o p) (put_proc cur (set_ofile o p) s).
Proof.
  intros [(l & Hm) H2 Hn H3 H4 H5 H6 H7 H8] Hlen He. set (p' := set_ofile o p).
  assert (Hlook : ∀ j q, procs (put_proc cur p' s) !! j = Some q → j = cur ∧ q = p' ∨ j ≠ cur ∧ procs s !! j = Some q).
  { intros j q. cbn. intros [(<- & <- & _)|[? ?]]%list_lookup_insert_Some; auto. }
  split; try done.
  - exists l. apply (minv_slot kend trampoline s l T cur p p'); try done; cbn; congruence.
  - eapply fok_at_ext; [exact H2|done|]. intros x. cbn. rewrite (sum_over_insert _ _ cur p) by done. unfold p', ncwd. cbn. lia.
  - intros x. cbn. rewrite (sum_over_insert _ _ cur p), He, Hn by done. unfold p'. lia.
  - split.
    + intros j q [[-> ->]|[_ Hq]]%Hlook; [split; [done|apply (sh_fd _ H3 cur p H6)]|by apply (sh_fd _ H3 j)].
    + intros j q [[-> ->]|[_ Hq]]%Hlook Hd; [destruct Hd as [E|E]; cbn in E; congruence|by apply (sh_unused _ H3 j)].
    + intros j q [[-> ->]|[_ Hq]]%Hlook Hu Hz; [apply (sh_cwd _ H3 cur p H6); congruence|by apply (sh_cwd _ H3 j)].
  - apply (sinv_put s cur p p'); [done|done|cbn; congruence|cbn; congruence].
  - eapply apart_trans; [exact H5|]. split; [| |done].
    + intros j q Hj Hq. exists q. cbn. rewrite list_lookup_insert_ne by done. split; [done|apply sim_refl].
    + intros j q t Hj Hq Ht. split; [done|apply intact_refl].
  - by eapply put_proc_lookup.
Qed.

(** Operations on inodes. *)
Definition others_refs (s : ps) : InodeSpec.refs := λ ip, sum_over (ncwd (iptr ip)) (procs s) + sum_over (holds_ip ip) (files (fs s)).
Lemma call_inodes {A} (m : M (Inode.fs D) A) (g : A → list nat) R dR hs p s :
  call R dR hs p s →
  ((∀ ip, 0 ≤ others_refs s ip < 2 ^ 30) → 0 < others_refs s (iidx (cwd p)) →
   Handles.held (others_refs s) (iidx (cwd p)) hs (ino (fs s)) →
   pwp m (λ a, Handles.held (others_refs s) (iidx (cwd p)) (g a)) (ino (fs s))) →
  pwp (on_fs (on_ino m)) (λ a s', call R dR (g a) p s') s.
Proof.
  intros Hc H. pose proof Hc as [Hm Hok Hn Hsh Hsi Hap Hp Hr Hcw]. unfold on_fs, on_ino. do 2 apply pwp_zoom.
  assert (Hb : ∀ ip, 0 ≤ others_refs s ip < 2 ^ 30).
  { intros ip. unfold others_refs. pose proof (ncwd_bound s (iptr ip) Hm). pose proof (holds_ip_sum ip _ (fk_len _ _ _ Hok)). lia. }
  assert (Hpos : 0 < others_refs s (iidx (cwd p))).
  { unfold others_refs. assert (Hc0 : cwd p ≠ 0) by (apply (sh_cwd _ Hsh cur p Hp); congruence).
    assert (HI : 0 < sum_over (ncwd (cwd p)) (procs s)).
    { eapply Z.lt_le_trans; [|apply (sum_over_ge _ _ cur p (ncwd_nonneg _) Hp)]. unfold ncwd. rewrite decide_True by done. lia. }
    destruct (fk_iptr _ _ _ Hok (cwd p)) as [ip Hip]; [pose proof (hI_range hs (cwd p)); lia|]. rewrite Hip in *. rewrite iidx_iptr.
    pose proof (holds_ip_sum ip _ (fk_len _ _ _ Hok)). lia. }
  eapply pwp_mono; [apply H; [done|done|]|].
  - split; [|done]. eapply InodeSpec.refs_ok_ext; [|apply (fk_ino _ _ _ Hok)]. intros ip. cbn. rewrite hI_iptr. unfold others_refs. lia.
  - cbv beta. intros a ino' [Href Hcw']. change (call R dR (g a) p (put_fs (with_ino ino' (fs s)) s)).
    eapply call_fs; [exact Hc|done|done| |cbn; congruence]. eapply fok_ino; [exact Hok|..].
    + eapply InodeSpec.refs_ok_ext; [|exact Href]. intros ip. cbn. rewrite hI_iptr. unfold others_refs. lia.
    + intros x. pose proof (ncwd_bound s x Hm). pose proof (hI_range (g a) x). lia.
    + intros x Hx. destruct (decide (0 < hI (g a) x)) as [?|Hz]; [by eapply hI_pos|]. apply (fk_iptr _ _ _ Hok x).
      pose proof (hI_range (g a) x). pose proof (hI_range hs x). lia.
Qed.
(** Operations that keep all references. *)
Lemma call_keeps {A} (m : M (Inode.fs D) A) R dR hs p s : InodeSpec.keeps m → call R dR hs p s → pwp (on_fs (on_ino m)) (λ _, call R dR hs p) s.
Proof. intros Hk Hc. apply (call_inodes m (λ _, hs) R dR hs p s); [done|]. intros _ _ Hh. by apply Handles.held_keeps. Qed.

(** Operations on files. *)
Lemma call_filedup x R dR hs p s :
  call R dR hs p s → 0 < R x → dR x ≤ 16 → pwp (on_fs (File.filedup x)) (λ _, call (bump 1 x R) (bump 1 x dR) hs p) s.
Proof.
  intros Hc H0 Hd. pose proof (nfd_bound s x (ca_shape _ _ _ _ _ _ _ Hc) (ca_mem _ _ _ _ _ _ _ Hc)) as Hb. pose proof Hc as [Hm Hok Hn Hsh Hsi Hap Hp Hr Hcw].
  destruct (filedup_count (fs s) _ _ x Hok) as (f' & Hrun & Hok' & Hpg & Hino); [rewrite Hn in *; lia|]. unfold on_fs. apply pwp_zoom, pwp_ok.
  intros a f2 Hrun2. rewrite Hrun in Hrun2. injection Hrun2 as <- <-. change (call (bump 1 x R) (bump 1 x dR) hs p (put_fs f' s)).
  eapply call_fs; [exact Hc|intros y; unfold bump; case_decide; lia|intros y; unfold pages_of; by rewrite Hpg| |by rewrite Hino]. eapply fok_at_ext; [exact Hok'| |done]. intros y. unfold bump.
  destruct (decide (y = x)) as [->|Hy]; [rewrite fn_lookup_insert; lia|by rewrite fn_lookup_insert_ne].
Qed.

Lemma call_filealloc R dR hs p s :
  call R dR hs p s → pwp (on_fs filealloc) (λ x s', x = 0 ∧ call R dR hs p s' ∨
    ∃ i, x = fptr i ∧ call (bump 1 x R) (bump 1 x dR) hs p s' ∧ blank (fs s') i ∧ R x = 0 ∧
      ∃ y, files (fs s) !! i = Some y ∧ f_ref y = 0 ∧ fs s' = with_files (<[i := set_fref 1 y]> (files (fs s))) (fs s)) s.
Proof.
  intros Hc. pose proof Hc as [Hm Hok Hn Hsh Hsi Hap Hp Hr Hcw]. unfold on_fs. apply pwp_zoom, pwp_ok. intros x f2 Hrun.
  destruct (filealloc_count (fs s) _ _ Hok) as [[Ha _]|(i & f' & Ha & Hi0 & Hilt & Hf' & Hbl & _ & Hpp & Hino & Hold)]; rewrite Ha in Hrun; injection Hrun as <- <-.
  { left. split; [done|]. by destruct s. }
  right. exists i. split; [done|]. split; [|done]. change (call (bump 1 (fptr i) R) (bump 1 (fptr i) dR) hs p (put_fs f' s)).
  eapply call_fs; [exact Hc|intros y; unfold bump; case_decide; lia|intros y; unfold pages_of; by rewrite Hpp| |by rewrite Hino].
  eapply fok_at_ext; [exact Hf'| |done]. intros y. unfold bump. destruct (decide (y = fptr i)) as [->|Hy]; [rewrite fn_lookup_insert; lia|by rewrite fn_lookup_insert_ne].
Qed.

Lemma getf_same x (s : kmem * ftab D) : pwp (on_ftab (getf x)) (λ _ s', s' = s) s.
Proof.
  apply pwp_zoom. unfold getf. apply pwp_bind, pwp_get. apply pwp_if; intros _; [exact I|]. apply pwp_of_option. by destruct s.
Qed.
Lemma setf_ino x g (s : kmem * ftab D) : pwp (on_ftab (setf x g)) (λ _ s', ino s'.2 = ino s.2) s.
Proof.
  apply pwp_zoom. unfold setf. apply pwp_bind. unfold getf. apply pwp_bind, pwp_get. apply pwp_if; intros _; [exact I|]. by apply pwp_of_option.
Qed.
Lemma fileclose_cwd x (s : kmem * ftab D) :
  pwp (File.fileclose kend x) (λ _ s', Inode.cwd (ino s'.2) = Inode.cwd (ino s.2)) s.
Proof.
  unfold File.fileclose. pwp_use getf_same. intros f ? ->. pwp_pures. pwp_use setf_ino. intros _ s1 H1. pwp_pures; [by rewrite H1|].
  pwp_use setf_ino. intros _ s2 H2. rewrite <-H1, <-H2.
  assert (Hput : pwp (ip ← of_option (f_ip f); on_ftab (on_ino (Inode.iput ip));; mret []) (λ (_ : list Z) s', Inode.cwd (ino s'.2) = Inode.cwd (ino s2.2)) s2).
  { pwp_pures. apply pwp_zoom, pwp_zoom, pwp_ok. intros [] i' Hrun. apply pwp_ret. cbn.
    by apply InodeSpec.iput_inv in Hrun as (i1 & y & _ & Hcw & _ & ->). }
  destruct (f_type f); [done| |done|done]. unfold close_pipe. pwp_pures.
  destruct (Pipe.pipeclose (f_writable f) a) as [[chs freed] pi]. pwp_pures; [|apply pwp_zoom; by pwp_pures].
  apply pwp_zoom. pwp_pures. apply pwp_zoom, pwp_ok. intros. by pwp_pures.
Qed.

Lemma call_close x R dR hs p s :
  call R dR hs p s → 0 < R x →
  pwp (chs ← on_file (File.fileclose kend x); wake_all chs cur) (λ _, call (bump (-1) x R) (bump (-1) x dR) hs p) s.
Proof.
  intros Hc H0. pose proof Hc as [Hm Hok Hn Hsh Hsi Hap Hp Hr Hcw]. apply pwp_bind. unfold on_file. apply pwp_zoom, pwp_ok.
  intros chs [k' f'] Hrun. cbn [fst snd]. assert (Hc1 : call (bump (-1) x R) (bump (-1) x dR) hs p (put_fs f' (put_mem k' s))).
  { eapply call_file; [exact Hc|intros y; unfold bump; case_decide; lia| | |exact (proj1 (pwp_ok _ _ _) (fileclose_cwd x (mem s, fs s)) _ _ Hrun)].
    - intros l Hml. by destruct (fileclose_count kend kend_pos (fs s) _ _ x (mem s) l chs k' f' Hok H0 (mi_kinv _ _ _ _ _ Hml) (mi_files _ _ _ _ _ Hml) Hrun).
    - destruct Hm as (l & Hml). destruct (fileclose_count kend kend_pos (fs s) _ _ x (mem s) l chs k' f' Hok H0 (mi_kinv _ _ _ _ _ Hml) (mi_files _ _ _ _ _ Hml) Hrun) as [Hok' _].
      eapply fok_at_ext; [exact Hok'| |done]. intros y. unfold bump. destruct (decide (y = x)) as [->|Hy]; [rewrite fn_lookup_insert; lia|by rewrite fn_lookup_insert_ne]. }
  change (pwp (wake_all chs cur) (λ _, call (bump (-1) x R) (bump (-1) x dR) hs p) (put_fs f' (put_mem k' s))).
  destruct (wake_all_run cur chs _ p (ca_cur _ _ _ _ _ _ _ Hc1) Hr) as (s2 & Hw & Hst & Hp2). apply pwp_ok. intros [] s3 Hw'.
  rewrite Hw in Hw'. injection Hw' as <-. by eapply call_still.
Qed.

Lemma call_pipealloc R dR hs p s :
  call R dR hs p s → pwp (on_file (pipealloc kend)) (λ '(r, (rf, wf)) s', r = -1 ∧ call R dR hs p s' ∨
    r = 0 ∧ call (bump 1 rf (bump 1 wf R)) (bump 1 rf (bump 1 wf dR)) hs p s' ∧ rf ≠ wf ∧ rf ≠ 0 ∧ wf ≠ 0 ∧ R rf = 0 ∧ R wf = 0) s.
Proof.
  intros Hc. pose proof Hc as [(l & Hm) Hok Hn Hsh Hsi Hap Hp Hr Hcw]. unfold on_file. apply pwp_zoom, pwp_ok.
  intros [r [rf wf]] [k' f'] Hrun. cbn [fst snd]. change (MkPs _ _ _ k' f') with (put_fs f' (put_mem k' s)).
  destruct (pipealloc_count kend kend_pos (fs s) _ _ (mem s) l Hok (mi_kinv _ _ _ _ _ Hm) (mi_files _ _ _ _ _ Hm))
    as (r1 & ends & k1 & f1 & Hrun1 & Hino & Hres & _).
  rewrite Hrun in Hrun1. injection Hrun1 as <- <- <- <-.
  assert (Hmv : ∀ l, minv s l T → ∃ l', moves kend (mem s) l (pages_of (fs s)) k' l' (pages_of f') ∧ ∀ x, pages_of f' x → is_Some (pmem k' !! x)).
  { intros l2 Hm2. destruct (pipealloc_count kend kend_pos (fs s) _ _ (mem s) l2 Hok (mi_kinv _ _ _ _ _ Hm2) (mi_files _ _ _ _ _ Hm2))
      as (r1 & ends & k1 & f1 & Hrun1 & _ & _ & Hmv). rewrite Hrun in Hrun1. by injection Hrun1 as <- <- <- <-. }
  destruct Hres as [(-> & Hok' & _)|(i & j & a & data & x & y & -> & [= -> ->] & Hij & Hi0 & Hj0 & Hok' & _)]; [left|right]; (split; [done|]).
  - eapply call_file; [exact Hc|done|done|done|by rewrite Hino].
  - split; [|split; [by intros ?%fptr_inj|split; [unfold fptr; lia|split; [unfold fptr; lia|done]]]].
    eapply call_file; [exact Hc|intros z; unfold bump; repeat case_decide; lia|done| |by rewrite Hino]. eapply fok_at_ext; [exact Hok'| |done]. intros z. unfold bump.
    destruct (decide (z = fptr i)) as [->|Hz].
    + rewrite fn_lookup_insert. rewrite decide_False by (intros ?%fptr_inj; done). lia.
    + rewrite fn_lookup_insert_ne by done. destruct (decide (z = fptr j)) as [->|Hz']; [rewrite fn_lookup_insert; lia|by rewrite fn_lookup_insert_ne].
Qed.

Lemma call_copyout R dR hs p s va bs :
  call R dR hs p s → 0 ≤ va < 2 ^ 64 → bytes bs → pwp (on_mem (copyout (pagetable p) va bs)) (λ _, call R dR hs p) s.
Proof.
  intros Hc Hva Hb. pose proof Hc as [(l & Hm) Hok Hn Hsh Hsi Hap Hp Hr Hcw]. destruct (mi_live _ _ _ _ _ Hm cur p Hp ltac:(congruence)) as (t & Ht & _).
  destruct (copyout_run kend trampoline kend_pos s l T cur p t va bs Hm Hp ltac:(congruence) Ht Hva Hb) as (r & k' & Hrun & _).
  apply pwp_ok. intros r' s' Hrun'. rewrite Hrun in Hrun'. injection Hrun' as <- <-. apply call_mem; [done|]. intros l2 Hm2.
  destruct (copyout_run kend trampoline kend_pos s l2 T cur p t va bs Hm2 Hp ltac:(congruence) Ht Hva Hb) as (r2 & k2 & Hrun2 & _ & Hm' & Ho).
  rewrite Hrun in Hrun2. injection Hrun2 as <- <-. done.
Qed.

(** ** Reading and writing files *)

Section transfer.
Context (R dR : Z → Z) (hs : list nat) (p : proc) (s : ps).
(** The call with memory and files [x]. *)
Definition at_ (x : kmem * ftab D) : Prop := call R dR hs p (put_fs x.2 (put_mem x.1 s)).

Lemma at_file {A} (m : M (kmem * ftab D) A) :
  call R dR hs p s → (at_ (mem s, fs s) → pwp m (λ _, at_) (mem s, fs s)) → pwp (on_file m) (λ _, call R dR hs p) s.
Proof. intros Hc H. apply pwp_zoom. apply H. unfold at_. by destruct s. Qed.

Lemma at_ino {A} (m : M (Inode.fs D) A) x : InodeSpec.keeps m → at_ x → pwp (on_ftab (on_ino m)) (λ _, at_) x.
Proof.
  intros Hk Hx. apply pwp_zoom, pwp_ok. intros a f' Hrun.
  refine (proj1 (pwp_ok _ _ _) (call_keeps m R dR hs p _ Hk Hx) a (put_fs f' (put_mem x.1 s)) _). unfold on_fs, zoom. cbn [fs put_fs]. by rewrite Hrun.
Qed.
Lemma at_getf y x : at_ x → pwp (on_ftab (getf y)) (λ _, at_) x.
Proof. intros Hx. eapply pwp_mono; [apply getf_same|]. by intros a x' ->. Qed.
Lemma at_setf y g x : (∀ f, same_role f (g f) ∧ f_ref (g f) = f_ref f ∧ f_major (g f) = f_major f) → at_ x → pwp (on_ftab (setf y g)) (λ _, at_) x.
Proof.
  intros Hg Hx. apply pwp_zoom. unfold setf. apply pwp_bind. unfold getf. apply pwp_bind, pwp_get. apply pwp_if; intros _; [exact I|].
  apply pwp_of_option. intros f Hf. apply pwp_modify. destruct (Hg f) as (Hrole & Href & Hmaj).
  change (call R dR hs p (put_fs (with_files (<[fidx y := g f]> (files x.2)) x.2) (put_fs x.2 (put_mem x.1 s)))).
  eapply call_fs; [exact Hx|done|done| |done]. eapply fok_role; [apply Hx|done|done|done|done].
Qed.
Lemma at_out va bs x : 0 ≤ va < 2 ^ 64 → bytes bs → at_ x → pwp (on_kmem (copyout (pagetable p) va bs)) (λ _, at_) x.
Proof.
  intros Hva Hb Hx. apply pwp_zoom, pwp_ok. intros r k' Hrun.
  refine (proj1 (pwp_ok _ _ _) (call_copyout R dR hs p _ va bs Hx Hva Hb) r (put_fs x.2 (put_mem k' s)) _). unfold on_mem, zoom. cbn [mem put_fs put_mem]. by rewrite Hrun.
Qed.
Lemma at_out_each bs : ∀ va x, 0 ≤ va < 2 ^ 64 → at_ x → pwp (on_kmem (out_each (pagetable p) va bs)) (λ _, at_) x.
Proof.
  induction bs as [|b bs IH]; intros va x Hva Hx; cbn [out_each]; [by destruct x|].
  apply pwp_zoom, pwp_bind. pose proof (at_out va [u8 b] x Hva (bytes_u8 [b]) Hx) as H. unfold on_kmem, pwp, zoom in H.
  unfold pwp at 1. destruct (copyout (pagetable p) va [u8 b] x.1) as [r k'| | | |]; try done.
  assert (Hva' : 0 ≤ u64 (va + 1) < 2 ^ 64) by wrap_lia. specialize (IH _ (k', x.2) Hva' H). unfold on_kmem, pwp, zoom in IH. cbn [fst snd] in IH.
  unfold pwp. by destruct (out_each (pagetable p) (u64 (va + 1)) bs k').
Qed.
Lemma at_pipe a pi pi' x :
  pipes x.2 !! a = Some pi → Pipe.readopen pi' = Pipe.readopen pi → Pipe.writeopen pi' = Pipe.writeopen pi → at_ x →
  pwp (on_ftab (modify (λ f, with_pipes (<[a := pi']> (pipes f)) f))) (λ _, at_) x.
Proof.
  intros Ha Hr Hw Hx. apply pwp_zoom, pwp_modify.
  change (call R dR hs p (put_fs (with_pipes (<[a := pi']> (pipes x.2)) x.2) (put_fs x.2 (put_mem x.1 s)))).
  eapply call_fs; [exact Hx|done| | |done].
  - intros y. unfold pages_of. cbn. destruct (decide (a = y)) as [->|Hne]; [rewrite lookup_insert_eq, Ha; split; eauto|by rewrite lookup_insert_ne].
  - eapply fok_pipe; [apply Hx|done|done|done].
Qed.
Lemma at_console {A} (m : M Console.console A) x : at_ x → pwp (on_ftab (on_console m)) (λ _, at_) x.
Proof.
  intros Hx. apply pwp_zoom, pwp_zoom, pwp_ok. intros a c' _.
  change (call R dR hs p (put_fs (with_console c' x.2) (put_fs x.2 (put_mem x.1 s)))).
  eapply call_fs; [exact Hx|done|done| |done]. destruct (ca_ok _ _ _ _ _ _ _ Hx) as [H1 H2 H3 H4 H5 H6 H7 H8 H9 H10]. by split.
Qed.

Lemma piperead_open k cout n pi :
  let '(_, pi') := (Pipe.piperead k cout n pi) in Pipe.readopen pi' = Pipe.readopen pi ∧ Pipe.writeopen pi' = Pipe.writeopen pi.
Proof.
  assert (Hl : ∀ m i pi, let '(_, pi') := Pipe.piperead_loop cout m i pi in Pipe.readopen pi' = Pipe.readopen pi ∧ Pipe.writeopen pi' = Pipe.writeopen pi).
  { induction m as [|m IH]; intros i q; cbn [Pipe.piperead_loop]; [done|]. case_bool_decide; [done|]. destruct (cout _ _); [|done].
    specialize (IH (i + 1) (Pipe.pop q)). destruct (Pipe.piperead_loop cout m (i + 1) (Pipe.pop q)) as [[r out] q']. done. }
  unfold Pipe.piperead. destruct (_ && _)%bool; [by destruct k|]. specialize (Hl (Z.to_nat n) 0 pi). by destruct (Pipe.piperead_loop _ _ _ _) as [[r out] q'].
Qed.
Lemma pipewrite_open k cin n i pi :
  let '(_, pi') := (Pipe.pipewrite k cin n i pi) in Pipe.readopen pi' = Pipe.readopen pi ∧ Pipe.writeopen pi' = Pipe.writeopen pi.
Proof.
  unfold Pipe.pipewrite. generalize (Z.to_nat (n - i)). intros m. revert i pi. induction m as [|m IH]; intros i q; cbn [Pipe.pipewrite_loop]; [done|].
  destruct (_ || _)%bool; [done|]. case_bool_decide; [done|]. destruct (cin i) as [ch|]; [|done].
  specialize (IH (i + 1) (Pipe.push ch q)). by destruct (Pipe.pipewrite_loop k cin m (i + 1) (Pipe.push ch q)) as [[r chs] q'].
Qed.

Lemma at_read_pipe killed a addr n x :
  0 ≤ addr < 2 ^ 64 → at_ x → pwp (read_pipe (pagetable p) killed a addr n) (λ _, at_) x.
Proof.
  intros Ha Hx. unfold read_pipe. apply pwp_bind, pwp_get, pwp_bind, pwp_of_option. intros pi Hpi.
  pose proof (piperead_open killed (can_out (pagetable p) addr x.1) n pi) as Ho.
  destruct (Pipe.piperead killed _ n pi) as [[[seg out] chs] pi']. destruct Ho as [Hr Hw].
  pwp_use (at_pipe a pi pi' x Hpi Hr Hw Hx). intros _ x1 H1. pwp_use (at_out_each out addr x1 Ha H1). intros _ x2 H2. by apply pwp_ret.
Qed.
Lemma at_write_pipe killed a addr n i x : at_ x → pwp (write_pipe (pagetable p) killed a addr n i) (λ _, at_) x.
Proof.
  intros Hx. unfold write_pipe. apply pwp_bind, pwp_get, pwp_bind, pwp_of_option. intros pi Hpi.
  pose proof (pipewrite_open (λ _, killed) (byte_in (pagetable p) addr x.1) n i pi) as Ho.
  destruct (Pipe.pipewrite _ _ n i pi) as [[seg chs] pi']. destruct Ho as [Hr Hw].
  pwp_use (at_pipe a pi pi' x Hpi Hr Hw Hx). intros _ x1 H1. by apply pwp_ret.
Qed.
Lemma at_read_console cons_chan killed addr n x :
  0 ≤ addr < 2 ^ 64 → at_ x → pwp (read_console cons_chan (pagetable p) killed addr n) (λ _, at_) x.
Proof.
  intros Ha Hx. unfold read_console. apply pwp_bind, pwp_gets. pwp_use at_console; [done|]. intros [r out] x1 H1.
  pwp_use (at_out_each out addr x1 Ha H1). intros _ x2 H2. by apply pwp_ret.
Qed.
Lemma at_write_console idle addr n x : at_ x → pwp (write_console idle (pagetable p) addr n) (λ _, at_) x.
Proof. intros Hx. unfold write_console. apply pwp_bind, pwp_gets. pwp_use at_console; [done|]. intros r x1 H1. by apply pwp_ret. Qed.

(** The memory [readi] copies to, while it runs. *)
Definition copying (f : ftab D) (k : outcome kmem Z) : Prop := match k with Ok _ k => at_ (k, f) | _ => True end.
Lemma copying_out f dst bs k : 0 ≤ dst < 2 ^ 64 → copying f k → copying f (user_out (pagetable p) dst bs k).
Proof.
  intros Hd Hk. destruct k as [r k| | | |]; [|done..]. cbn [user_out].
  pose proof (at_out dst (u8 <$> bs) (k, f) Hd (bytes_u8 bs) Hk) as H. unfold on_kmem, pwp, zoom in H. cbn [fst snd] in H.
  unfold copying. by destruct (copyout (pagetable p) dst (u8 <$> bs) k).
Qed.
Lemma readi_loop_copying {K} (P : K → Prop) out ip fuel : ∀ dst off n tot k (i : Inode.fs D),
  (∀ d bs k, 0 ≤ d < 2 ^ 64 → P k → P (out d bs k)) → 0 ≤ dst < 2 ^ 64 → P k →
  pwp (FileData.readi_loop out fuel ip dst off n tot k) (λ k' _, P k') i.
Proof.
  induction fuel as [|fuel IH]; intros dst off n tot k i HP Hd Hk; cbn [FileData.readi_loop]; (apply pwp_if; intros _; [|by apply pwp_ret]); [exact I|].
  repeat (apply pwp_bind, pwp_ok; intros ? ? _). apply IH; [done|wrap_lia|by apply HP].
Qed.
Lemma readi_copying {K} (P : K → Prop) out ip dst off n k (i : Inode.fs D) :
  (∀ d bs k, 0 ≤ d < 2 ^ 64 → P k → P (out d bs k)) → 0 ≤ dst < 2 ^ 64 → P k →
  pwp (FileData.readi out ip dst off n k) (λ r _, P r.2) i.
Proof.
  intros HP Hd Hk. unfold FileData.readi. apply pwp_bind, pwp_ok. intros x i1 _. apply pwp_if; intros _; [by apply pwp_ret|].
  pwp_use (readi_loop_copying P out ip _ dst off _ 0 k i1 HP Hd Hk). intros k' i2 Hk'. by apply pwp_ret.
Qed.

Lemma at_readi ip addr off n x :
  0 ≤ addr < 2 ^ 64 → at_ x →
  pwp (on_ftab (on_ino (FileData.readi (user_out (pagetable p)) ip addr off n (Ok 0 x.1)))) (λ r x', copying x'.2 r.2 ∧ x'.1 = x.1 ∧ at_ x') x.
Proof.
  intros Ha Hx. apply pwp_ok. intros [r k'] x' Hrun.
  pose proof (proj1 (pwp_ok _ _ _) (at_ino _ x (Handles.keeps_readi _ _ _ _ _ _) Hx) _ _ Hrun) as Hx'.
  unfold on_ftab, on_ino, zoom in Hrun. destruct (FileData.readi _ ip addr off n _ (ino x.2)) as [[r1 k1] i'| | | |] eqn:E; try done.
  injection Hrun as <- <- <-. cbn [fst snd] in *. split; [|done].
  refine (proj1 (pwp_ok _ _ _) (readi_copying (copying (with_ino i' x.2)) (user_out (pagetable p)) ip addr off n (Ok 0 x.1) (ino x.2) _ Ha Hx') _ _ E).
  intros. by apply copying_out.
Qed.
Lemma at_resume {A} (k : outcome kmem Z) (a : A) x : copying x.2 k → pwp (resume k a) (λ _, at_) x.
Proof. intros Hk. unfold resume, pwp. by destruct k. Qed.

Lemma at_fileread cons_chan killed y addr n x :
  0 ≤ addr < 2 ^ 64 → at_ x → pwp (fileread cons_chan (pagetable p) killed y addr n) (λ _, at_) x.
Proof.
  intros Ha Hx. unfold fileread. pwp_use at_getf; [done|]. intros f x1 H1. apply pwp_if; intros _; [by apply pwp_ret|]. destruct (f_type f).
  - exact I.
  - by apply at_read_pipe.
  - pwp_use at_ino; [apply InodeSpec.keeps_ilock|done|]. intros _ x2 H2. apply pwp_bind, pwp_of_option. intros ip _. apply pwp_bind, pwp_gets.
    pwp_use at_readi; [done|done|]. intros [r k'] x3 (Hk & _ & H3). pwp_use at_resume; [exact Hk|]. intros _ x4 H4.
    apply pwp_bind. eapply (pwp_mono _ (λ _, at_)).
    { unfold on_ftab at 1. destruct (bool_decide (r > 0)); cbn [when]; [|by destruct x4]. apply at_setf; [done|done]. }
    intros _ x5 H5. pwp_use at_ino; [apply InodeSpec.keeps_iunlock|done|]. intros _ x6 H6. by apply pwp_ret.
  - apply pwp_if; intros _; [by apply pwp_ret|]. unfold dev_read. case_bool_decide; [|by apply pwp_ret]. by apply at_read_console.
Qed.

Lemma at_filewrite_loop y ip addr n fuel : ∀ i x, at_ x → pwp (filewrite_loop fuel (pagetable p) y ip addr n i) (λ _, at_) x.
Proof.
  induction fuel as [|fuel IH]; intros i x Hx; cbn [filewrite_loop]; (apply pwp_if; intros _; [|by apply pwp_ret]); [exact I|].
  pwp_use at_getf; [done|]. intros f x1 H1. pwp_use at_ino; [apply InodeSpec.keeps_ilock|done|]. intros _ x2 H2. apply pwp_bind, pwp_gets.
  pwp_use at_ino; [apply Handles.keeps_writei|done|]. intros r x3 H3. apply pwp_bind. eapply (pwp_mono _ (λ _, at_)).
  { unfold on_ftab at 1. destruct (bool_decide (r > 0)); cbn [when]; [|by destruct x3]. apply at_setf; [done|done]. }
  intros _ x4 H4. pwp_use at_ino; [apply InodeSpec.keeps_iunlock|done|]. intros _ x5 H5. apply pwp_if; intros _; [by apply pwp_ret|by apply IH].
Qed.
Lemma at_filewrite idle killed y addr n x : at_ x → pwp (filewrite idle (pagetable p) killed y addr n) (λ _, at_) x.
Proof.
  intros Hx. unfold filewrite. pwp_use at_getf; [done|]. intros f x1 H1. apply pwp_if; intros _; [by apply pwp_ret|]. destruct (f_type f).
  - exact I.
  - by apply at_write_pipe.
  - apply pwp_bind, pwp_of_option. intros ip _. pwp_use at_filewrite_loop; [done|]. intros i x2 H2. by apply pwp_ret.
  - apply pwp_if; intros _; [by apply pwp_ret|]. unfold dev_write. case_bool_decide; [|by apply pwp_ret]. by apply at_write_console.
Qed.
Lemma at_filestat pad y addr x : bytes pad → 0 ≤ addr < 2 ^ 64 → at_ x → pwp (filestat pad (pagetable p) y addr) (λ _, at_) x.
Proof.
  intros Hpad Ha Hx. unfold filestat. pwp_use at_getf; [done|]. intros f x1 H1.
  assert (Hino : pwp (on_ftab (on_ino (Inode.ilock (f_ip f)));; ip ← of_option (f_ip f); st ← on_ftab (on_ino (Inode.stati ip));
    on_ftab (on_ino (Inode.iunlock (f_ip f)));; r ← on_kmem (copyout (pagetable p) addr (stat_bytes pad st)); mret (if bool_decide (r < 0) then -1 else 0)) (λ _, at_) x1).
  { pwp_use at_ino; [apply InodeSpec.keeps_ilock|done|]. intros _ x2 H2. apply pwp_bind, pwp_of_option. intros ip _.
    pwp_use at_ino; [apply Handles.keeps_stati|done|]. intros st x3 H3. pwp_use at_ino; [apply InodeSpec.keeps_iunlock|done|]. intros _ x4 H4.
    pwp_use at_out; [done| |done|]; [|intros r x5 H5; by apply pwp_ret]. unfold stat_bytes. rewrite !bytes_app. auto 10 with blk. }
  by destruct (f_type f).
Qed.
End transfer.
End steps.
End call.

Arguments ca_mem {D BIO kend trampoline cur s0 T R dR hs p s} _.
Arguments ca_ok {D BIO kend trampoline cur s0 T R dR hs p s} _.
Arguments ca_cnt {D BIO kend trampoline cur s0 T R dR hs p s} _ _.
Arguments ca_shape {D BIO kend trampoline cur s0 T R dR hs p s} _.
Arguments ca_sinv {D BIO kend trampoline cur s0 T R dR hs p s} _.
Arguments ca_apart {D BIO kend trampoline cur s0 T R dR hs p s} _.
Arguments ca_cur {D BIO kend trampoline cur s0 T R dR hs p s} _.
Arguments ca_run {D BIO kend trampoline cur s0 T R dR hs p s} _.
Arguments ca_cwd {D BIO kend trampoline cur s0 T R dR hs p s} _.
End CallSpec.
