(* ===== verification/SysSpec.v ===== *)
(** Every file system call ends with all references counted and other processes
    untouched. *)

From stdpp Require Import functions.
From S2P Require Import Prelude Riscv CString Kalloc Vm PageTable UserMem UserCopy BlockIO Inode InodeSpec FileData Dir Proc ProcMem ProcSpec ProcStep File FileSpec Syscall Sysfile Handles CallSpec.
Import Kalloc Vm PageTable UserMem UserCopy Proc ProcMem ProcSpec ProcStep File FileSpec Syscall Sysfile CallSpec.

Local Open Scope Z_scope.

Module SysSpec.

Section calls.
Context {D : Type} {BIO : BlockIO D}.
Context (kend trampoline : Z) (kend_pos : 0 < kend).
Context (cons_chan : Z) (stk : list Z).
Notation ps := (@Proc.ps (ftab D)).
Notation sys := (@Syscall.sys D).
Notation minv := (ProcSpec.minv kend trampoline).
Context (cur : nat) (s0 : ps) (T : gmap nat ptree).
Notation call := (CallSpec.call kend trampoline cur s0 T).

(** The call is over: the process still runs. *)
Definition ended (s : sys) : Prop :=
  good kend trampoline cur s0 T (st s) ∧ ∃ p, procs (st s) !! cur = Some p ∧ state p ≠ UNUSED.
Lemma call_ended R p s : call R none [] p (st s) → ended s.
Proof. intros Hc. split; [by eapply call_good|]. exists p. split; [apply Hc|]. by rewrite (ca_run Hc). Qed.

(** ** Arguments *)

Lemma on_ps_pwp {A} (m : M ps A) (Q : A → ps → Prop) (s : sys) : pwp m Q (st s) → pwp (on_ps m) (λ a s', Q a (st s')) s.
Proof. intros H. apply pwp_zoom. exact H. Qed.

Lemma same_reads {A} (m : M kmem A) (s : sys) : reads m → pwp (on_ps (on_mem m)) (λ _ s', s' = s) s.
Proof.
  intros Hr. apply pwp_zoom, pwp_zoom. eapply pwp_mono; [by apply pwp_reads|]. cbv beta. intros _ k ->. by destruct s as [[] ?].
Qed.
Lemma myproc_same (s : sys) : pwp (myproc cur) (λ p s', s' = s ∧ procs (st s) !! cur = Some p) s.
Proof.
  apply pwp_zoom. unfold getp. apply pwp_bind, pwp_get, pwp_of_option. intros p Hp. by destruct s.
Qed.
Lemma myproc_call R dR hs p (s : sys) : call R dR hs p (st s) → pwp (myproc cur) (λ q s', s' = s ∧ q = p) s.
Proof.
  intros Hc. eapply pwp_mono; [apply myproc_same|]. cbv beta. intros q s' [-> Hq]. split; [done|].
  rewrite (ca_cur Hc) in Hq. congruence.
Qed.
Section args.
Context {R dR : Z → Z} {hs : list nat} {p : proc} {s : sys} (Hc : call R dR hs p (st s)).

Lemma argraw_call n : pwp (argraw cur n) (λ v s', s' = s ∧ 0 ≤ v < 2 ^ 64) s.
Proof.
  unfold argraw. pwp_use (myproc_call R dR hs p s Hc). intros q s' [-> ->].
  destruct (_ !! n) as [off|] eqn:Hoff; [|exact I]. apply pwp_ok. intros v s' Hrun. split; [exact (proj1 (pwp_ok _ _ _) (same_reads _ s (reads_tf_get (trapframe p) off)) v s' Hrun)|].
  destruct (ca_mem Hc) as (l & Hm). destruct (mi_live _ _ _ _ _ Hm cur p (ca_cur Hc) ltac:(rewrite (ca_run Hc); done)) as (t & _ & Hh).
  destruct (ho_frame _ _ _ _ _ _ Hh) as (_ & _ & x & Hx & Hl & Hb). unfold on_ps, on_mem, zoom, tf_get, load_page, mbind, M_bind, get in Hrun.
  rewrite Hx in Hrun. injection Hrun as <- <-. apply (rd_range 8); [done|].
  assert (off ≤ 152)%nat; [|lia]. clear -Hoff. do 6 (destruct n as [|n]; [cbn in Hoff; injection Hoff as <-; vm_compute; lia|]). done.
Qed.
Lemma argint_call n : pwp (argint cur n) (λ v s', s' = s ∧ - 2 ^ 31 ≤ v < 2 ^ 31) s.
Proof. unfold argint. pwp_use (argraw_call n). intros v s' [-> Hv]. apply pwp_ret. split; [done|]. wrap_lia. Qed.
Lemma argaddr_call n : pwp (argaddr cur n) (λ v s', s' = s ∧ 0 ≤ v < 2 ^ 64) s.
Proof. apply argraw_call. Qed.
Lemma argstr_call n buf max : pwp (argstr cur n buf max) (λ _ s', s' = s) s.
Proof.
  unfold argstr, fetchstr. pwp_use (argaddr_call n). intros v s' [-> _]. pwp_use (myproc_call R dR hs p s Hc). intros q s' [-> ->].
  pwp_use same_reads; [apply reads_copyinstr_loop|]. intros [y r] s' ->. cbv zeta. pwp_pures; done.
Qed.
Lemma argfd_call n : pwp (argfd cur n) (λ r s', s' = s ∧
  ∀ fd f, r = Some (fd, f) → 0 ≤ fd < 16 ∧ ofile p !! Z.to_nat fd = Some f ∧ f ≠ 0) s.
Proof.
  unfold argfd. pwp_use (argint_call n). intros fd s' [-> _]. pwp_use (myproc_call R dR hs p s Hc). intros q s' [-> ->].
  pwp_pures; (split; [done|]); [done..|]. intros fd' f [= <- <-]. change NOFILE with 16 in *. split; [lia|done].
Qed.

(** ** Descriptors and files *)

Lemma put_fd_call fd old x : ofile p !! fd = Some old →
  pwp (put_fd cur fd x) (λ _ s', call R (λ y, dR y + one old y - one x y) hs (set_ofile (<[fd := x]> (ofile p)) p) (st s') ∧
    fs (st s') = fs (st s)) s.
Proof.
  intros Hfd. apply (on_ps_pwp _ (λ _ s', call R (λ y, dR y + one old y - one x y) hs (set_ofile (<[fd := x]> (ofile p)) p) s' ∧ fs s' = fs (st s))).
  apply pwp_ok. intros [] s' Hrun. erewrite setp_run in Hrun by apply (ca_cur Hc). injection Hrun as <-. split; [|done]. eapply call_slot; [exact Hc|..].
  - rewrite length_insert. apply (sh_fd _ (ca_shape Hc) cur p (ca_cur Hc)).
  - intros y. rewrite (nfd_put y p fd old x Hfd). lia.
Qed.

Lemma find_fd_spec l : ∀ k, match find_fd l k with Some i => ∃ j, i = (k + j)%nat ∧ l !! j = Some 0 | None => True end.
Proof.
  induction l as [|f l IH]; intros k; cbn [find_fd]; [done|]. case_bool_decide as Hf; [exists 0%nat; split; [lia|by subst]|].
  specialize (IH (S k)). destruct (find_fd l (S k)) as [i|]; [|done]. destruct IH as (j & -> & Hj). exists (S j). split; [lia|done].
Qed.
Lemma fdalloc_call x : x ≠ 0 →
  pwp (fdalloc cur x) (λ fd s', fd = -1 ∧ s' = s ∨ ∃ i, fd = Z.of_nat i ∧ ofile p !! i = Some 0 ∧
    call R (λ y, dR y - one x y) hs (set_ofile (<[i := x]> (ofile p)) p) (st s') ∧ fs (st s') = fs (st s)) s.
Proof.
  intros Hx. unfold fdalloc. pwp_use (myproc_call R dR hs p s Hc). intros q s' [-> ->]. pose proof (find_fd_spec (ofile p) 0) as Hf.
  destruct (find_fd (ofile p) 0) as [i|]; [|apply pwp_ret; by left]. destruct Hf as (j & -> & Hj). cbn [Nat.add].
  pwp_use (put_fd_call j 0 x Hj). intros [] s' [Hs' Hfs]. apply pwp_ret. right. exists j. split; [done|]. split; [done|]. split; [|done].
  eapply call_ext; [|exact Hs']. intros y. cbv beta. unfold one at 1. rewrite decide_False by (intros [? ?]; congruence). lia.
Qed.
Lemma close_file_call x : 0 < R x →
  pwp (close_file kend cur x) (λ _ s', call (bump (-1) x R) (bump (-1) x dR) hs p (st s')) s.
Proof.
  intros Hx. apply pwp_ok. intros [] s' (chs & s1 & H1 & H2)%bind_inv.
  refine (proj1 (pwp_ok _ _ _) (call_close kend trampoline kend_pos cur s0 T x R dR hs p (st s) Hc Hx) tt (st s') _).
  unfold on_ps, zoom in H1, H2. unfold mbind, M_bind. destruct (on_file _ (st s)) as [chs1 s2| | | |]; [|done..]. injection H1 as <- <-. cbn in H2.
  destruct (wake_all chs1 cur s2) as [[] s3| | | |]; [|done..]. by injection H2 as <-.
Qed.
End args.

(** Equal counts. *)
Ltac counts := let y := fresh in intros y; cbv beta; unfold bump, one, none; repeat case_decide; subst; try lia; exfalso; tauto.

Lemma sys_dup_ends R p (s : sys) : call R none [] p (st s) → pwp (sys_dup cur) (λ _, ended) s.
Proof.
  intros Hc. unfold sys_dup. pwp_use (argfd_call Hc). intros [[fd f]|] s' [-> Hfd]; [|apply pwp_ret; by eapply call_ended].
  destruct (Hfd fd f eq_refl) as (_ & Hf & Hf0). pwp_use (fdalloc_call Hc f Hf0). intros fd' s' [[-> ->]|(i & -> & Hi & Hs' & _)].
  { apply pwp_ret. by eapply call_ended. }
  apply pwp_if; intros Hneg; [apply bool_decide_eq_true in Hneg; lia|].
  pose proof (open_fd kend trampoline cur s0 T R none [] p (st s) _ f Hc Hf Hf0) as HR.
  pwp_use (on_ps_pwp _ (λ _ s', call (bump 1 f R) (bump 1 f (λ y, none y - one f y)) [] (set_ofile (<[i:=f]> (ofile p)) p) s')).
  { eapply call_filedup; [exact Hs'|unfold none in HR; lia|pose proof (one_range f f); unfold none; lia]. }
  intros _ s2 Hs2. apply pwp_ret. eapply call_ended, call_ext; [|exact Hs2]. counts.
Qed.

Lemma sleep_pwp {A} ch (Q : A → sys → Prop) s : pwp (on_ps (Proc.sleep cur ch)) Q s.
Proof.
  apply pwp_zoom. unfold Proc.sleep, sched. do 2 (apply pwp_bind, pwp_ok; intros [] ? _). pwp_pures. apply pwp_ok. intros q s2 _. by pwp_pures.
Qed.
Lemma finish_ends R p (s : sys) r : call R none [] p (st s) → pwp (finish cur r) (λ _, ended) s.
Proof.
  intros Hc. unfold finish. pwp_enter.
  apply pwp_ok. intros [] s' Hrun. unfold on_ps, zoom in Hrun.
  destruct (wake_all_run cur r.2 (st s) p (ca_cur Hc) (ca_run Hc)) as (s2 & Hw & Hst & Hp2). rewrite Hw in Hrun. injection Hrun as <-.
  destruct r.1 as [v|ch i]; [|apply sleep_pwp]. apply pwp_ret. eapply call_ended. by eapply call_still.
Qed.

Lemma sys_read_ends R p (s : sys) : call R none [] p (st s) → pwp (sys_read cons_chan cur) (λ _, ended) s.
Proof.
  intros Hc. unfold sys_read. pwp_use (argaddr_call Hc). intros va s' [-> Hva]. pwp_use (argint_call Hc). intros n s' [-> _].
  pwp_use (argfd_call Hc). intros [[fd f]|] s' [-> Hfd]; [|apply pwp_ret; by eapply call_ended].
  pwp_use (myproc_call _ _ _ _ _ Hc). intros q s' [-> ->]. pwp_use (on_ps_pwp _ (λ _, call R none [] p)).
  { eapply at_file; [exact Hc|]. by apply at_fileread. }
  intros r s' Hs'. by eapply finish_ends.
Qed.
Lemma sys_write_ends (idle : nat → bool) R p (s : sys) : call R none [] p (st s) → pwp (sys_write idle cur) (λ _, ended) s.
Proof.
  intros Hc. unfold sys_write. pwp_use (argaddr_call Hc). intros va s' [-> Hva]. pwp_use (argint_call Hc). intros n s' [-> _].
  pwp_use (argfd_call Hc). intros [[fd f]|] s' [-> Hfd]; [|apply pwp_ret; by eapply call_ended].
  pwp_use (myproc_call _ _ _ _ _ Hc). intros q s' [-> ->]. pwp_use (on_ps_pwp _ (λ _, call R none [] p)).
  { eapply at_file; [exact Hc|]. by apply at_filewrite. }
  intros r s' Hs'. by eapply finish_ends.
Qed.
Lemma sys_fstat_ends R p (s : sys) : bytes stk → call R none [] p (st s) → pwp (sys_fstat stk cur) (λ _, ended) s.
Proof.
  intros Hb Hc. unfold sys_fstat. pwp_use (argaddr_call Hc). intros va s' [-> Hva].
  pwp_use (argfd_call Hc). intros [[fd f]|] s' [-> Hfd]; [|apply pwp_ret; by eapply call_ended].
  pwp_use (myproc_call _ _ _ _ _ Hc). intros q s' [-> ->]. eapply pwp_mono; [apply (on_ps_pwp _ (λ _, call R none [] p))|].
  { eapply at_file; [exact Hc|]. apply at_filestat; [done|by apply bytes_take|done]. }
  cbv beta. intros r s' Hs'. by eapply call_ended.
Qed.

(** Descriptors of the console are not counted. *)
Lemma call_shared n i x R dR hs p (s : ps) : call R dR hs p s → console_f (fs s) = fptr i → files (fs s) !! i = Some x → dR (fptr i) = - n →
  0 ≤ R (fptr i) + n < 2 ^ 31 → f_ref x ≤ R (fptr i) + n + 2 ^ 29 → call (bump n (fptr i) R) (bump n (fptr i) dR) hs p s.
Proof.
  intros Hc Hcf Hx Hd Hn Hb. replace s with (put_fs (fs s) s) by (by destruct s).
  eapply call_fs; [exact Hc|intros y; unfold bump; case_decide; lia|done| |done].
  eapply fok_at_ext; [apply (fok_shared _ _ _ i x (R (fptr i) + n) (ca_ok Hc)); done| |done]. intros y. unfold bump.
  destruct (decide (y = fptr i)) as [->|Hy]; [rewrite fn_lookup_insert; lia|by rewrite fn_lookup_insert_ne].
Qed.

Lemma sys_close_ends R p (s : sys) : call R none [] p (st s) → console_ok (fs (st s)) → pwp (sys_close kend cur) (λ _, ended) s.
Proof.
  intros Hc Hco. unfold sys_close. pwp_use (argfd_call Hc). intros [[fd x]|] s' [-> Hfd]; [|apply pwp_ret; by eapply call_ended].
  destruct (Hfd fd x eq_refl) as (_ & Hf & Hx0). pwp_use (put_fd_call Hc _ x 0 Hf). intros _ s1 [Hs1 Hfs].
  pose proof (open_fd kend trampoline cur s0 T R none [] p (st s) _ x Hc Hf Hx0) as HR. unfold none in HR.
  pwp_use (on_ps_pwp _ (λ f s', s' = st s1 ∧ files (fs (st s)) !! fidx x = Some f)).
  { apply pwp_zoom. unfold getf. apply pwp_bind, pwp_get. apply pwp_if; intros _; [exact I|]. apply pwp_of_option. intros f Hxf.
    rewrite <-Hfs. by destruct s1 as [[] ?]. }
  intros f s2 [Hs2 Hxf]. pwp_pures.
  - rewrite <-Hs2 in Hs1. pwp_use (close_file_call Hs1); [lia|]. intros _ s3 Hs3. apply pwp_ret. eapply call_ended, call_ext; [|exact Hs3]. counts.
  - destruct (FileSpec.open_file _ _ _ x (ca_ok Hc) ltac:(lia)) as (i & y & -> & Hy & Hry). rewrite fidx_fptr in Hxf. assert (y = f) as -> by congruence.
    destruct (co_major _ Hco i f Hy) as [Hcf Hfew]; [by destruct (decide (f_major f = CONSOLE))|]. rewrite <-Hs2 in Hs1. rewrite <-Hfs, <-Hs2 in Hcf, Hy.
    eapply call_ended, call_ext; [|apply (call_shared (-1) i f _ _ _ _ _ Hs1 Hcf Hy)].
    + counts.
    + unfold none, one. rewrite decide_True by done. rewrite decide_False by (intros [_ E]; by rewrite E in Hx0). lia.
    + destruct (fk_ref _ _ _ (ca_ok Hs1) i f Hy) as [? _]; lia.
    + lia.
Qed.

(** ** Paths *)

Lemma on_inodes_call {A} (m : M (Inode.fs D) A) (g : A → list nat) R dR hs p (s : sys) :
  call R dR hs p (st s) →
  ((∀ ip, 0 ≤ others_refs (st s) ip < 2 ^ 30) → 0 < others_refs (st s) (iidx (cwd p)) →
   Handles.held (others_refs (st s)) (iidx (cwd p)) hs (ino (fs (st s))) →
   pwp m (λ a, Handles.held (others_refs (st s)) (iidx (cwd p)) (g a)) (ino (fs (st s)))) →
  pwp (on_inodes m) (λ a s', call R dR (g a) p (st s')) s.
Proof. intros Hc H. apply (on_ps_pwp _ (λ a, call R dR (g a) p)). by eapply call_inodes. Qed.

(** The inode a lookup returns is held. *)
Definition got (r : option nat) : list nat := match r with Some ip => [ip] | None => [] end.
Lemma found_call (m : M (Inode.fs D) (option nat)) R dR p (s : sys) :
  call R dR [] p (st s) →
  (∀ R0 c i, (∀ ip, 0 ≤ R0 ip < 2 ^ 30) → 0 < R0 c → Handles.held R0 c [] i → pwp m (Handles.found R0 c id []) i) →
  pwp (on_inodes m) (λ r s', call R dR (got r) p (st s')) s.
Proof.
  intros Hc H. eapply on_inodes_call; [done|]. intros Hb Hpos Hh. eapply pwp_mono; [by apply H|]. by intros [ip|] i.
Qed.
Lemma unlockput_call ip R dR hs p (s : sys) : call R dR (ip :: hs) p (st s) →
  pwp (on_inodes (Inode.iunlockput ip)) (λ _ s', call R dR hs p (st s')) s.
Proof. intros Hc. eapply (on_inodes_call _ (λ _, hs)); [exact Hc|]. intros. by apply Handles.held_iunlockput. Qed.
Lemma keeps_call {A} (m : M (Inode.fs D) A) R dR hs p (s : sys) : InodeSpec.keeps m → call R dR hs p (st s) →
  pwp (on_inodes m) (λ _ s', call R dR hs p (st s')) s.
Proof. intros Hk Hc. apply (on_ps_pwp _ (λ _, call R dR hs p)). by apply call_keeps. Qed.

Lemma setf_sys x g (s : sys) : pwp (on_files (setf x g)) (λ _ s', ∃ y, files (fs (st s)) !! fidx x = Some y ∧
  st s' = put_fs (with_files (<[fidx x := g y]> (files (fs (st s)))) (fs (st s))) (st s)) s.
Proof.
  apply pwp_zoom, pwp_zoom. unfold setf, getf. pwp_pures. by exists a.
Qed.
Lemma rdi_sys ip (s : sys) : pwp (on_inodes (Inode.rdi ip)) (λ _ s', s' = s) s.
Proof. do 3 apply pwp_zoom. unfold Inode.rdi. pwp_pures. by destruct s as [[? ? ? ? []] ? ?]. Qed.
(** A file that is opened takes over a reference of the call. *)
Lemma open_call i y ip R dR hs p (s : ps) : call R dR (ip :: hs) p s → blank (fs s) i →
  f_ref y = 1 → f_type y = FD_INODE ∨ f_type y = FD_DEVICE → f_ip y = Some ip →
  call R dR hs p (put_fs (with_files (<[i := y]> (files (fs s))) (fs s)) s).
Proof.
  intros Hc Hb Hr Ht Hip. eapply call_fs; [exact Hc|done|done| |done]. pose proof (hI_iptr (ip :: hs) ip) as Hh. cbn [Handles.times] in Hh.
  rewrite decide_True in Hh by done. pose proof (Handles.times_range ip hs). pose proof (ncwd_bound kend trampoline T s (iptr ip) (ca_mem Hc)).
  eapply fok_at_ext; [apply (open_count _ _ _ i ip y (ca_ok Hc)); try done; lia|done|].
  intros x. cbv beta. destruct (decide (x = iptr ip)) as [->|Hx].
  - rewrite fn_lookup_insert, Hh, hI_iptr. lia.
  - rewrite fn_lookup_insert_ne by done. unfold hI. case_decide; [|done]. cbn [Handles.times]. rewrite decide_False; [lia|].
    intros E. apply Hx. rewrite <-E. unfold iptr, iidx. lia.
Qed.

Lemma open_file_ends ip omode R p (s : sys) : call R none [ip] p (st s) → pwp (open_file kend cur ip omode) (λ _, ended) s.
Proof.
  intros Hc. unfold open_file. pwp_use (on_ps_pwp _ (λ x s', x = 0 ∧ call R none [ip] p s' ∨
    ∃ i, x = fptr i ∧ call (bump 1 x R) (bump 1 x none) [ip] p s' ∧ blank (fs s') i ∧ R x = 0));
    [eapply pwp_mono; [by apply call_filealloc|]; naive_solver|].
  intros f s1 [[-> H1]|(i & -> & H1 & Hb & HR)].
  { pwp_pures. all: try lia. pwp_use unlockput_call; [exact H1|]. intros _ s2 H2. apply pwp_ret. by eapply call_ended. }
  assert (Hx0 : fptr i ≠ 0) by (unfold fptr; lia). rewrite (bool_decide_false (fptr i = 0)) by done. pwp_use (fdalloc_call H1 _ Hx0).
  intros fd s2 [[-> ->]|(j & -> & Hj & H2 & Hfs)].
  - rewrite (bool_decide_true (-1 < 0)), (bool_decide_true (fptr i ≠ 0)) by done. pwp_use (close_file_call H1); [unfold bump; rewrite decide_True by done; lia|].
    intros _ s3 H3. pwp_use unlockput_call; [exact H3|]. intros _ s4 H4. apply pwp_ret. eapply call_ended, call_ext; [|exact H4]. counts.
  - rewrite (bool_decide_false (Z.of_nat j < 0)) by lia. pwp_use rdi_sys. intros x s3 ->. rewrite <-Hfs in Hb. destruct Hb as (y & Hy & Hty & Hry).
    pwp_use setf_sys. intros _ s3 (y1 & Hy1 & Hs3). rewrite fidx_fptr in Hy1, Hs3. simplify_eq.
    pwp_use setf_sys. intros _ s4 (y2 & Hy2 & Hs4). rewrite fidx_fptr, Hs3 in *. cbn in Hy2. rewrite list_lookup_insert_eq in Hy2 by (by eapply lookup_lt_Some).
    injection Hy2 as <-. cbn in Hs4. rewrite list_insert_insert_eq in Hs4.
    assert (Ho : call (bump 1 (fptr i) R) (λ y, bump 1 (fptr i) none y - one (fptr i) y) [] (set_ofile (<[j:=fptr i]> (ofile p)) p) (st s4)).
    { rewrite Hs4. refine (open_call i _ ip _ _ [] _ (st s2) H2 _ _ _ _); [by exists y|..|done]; case_bool_decide; cbn; auto. }
    pwp_use keeps_call; [|exact Ho|]; [apply InodeSpec.keeps_when, InodeSpec.keeps_itrunc|]. intros [] s5 H5.
    pwp_use keeps_call; [|exact H5|]; [apply InodeSpec.keeps_iunlock|]. intros [] s6 H6. apply pwp_ret. eapply call_ended, call_ext; [|exact H6]. counts.
Qed.

Lemma shared_fd_ends i x R n p (s : sys) : call R (bump n (fptr i) none) [] p (st s) → console_f (fs (st s)) = fptr i → files (fs (st s)) !! i = Some x →
  0 ≤ n ≤ 1 → f_ref x ≤ R (fptr i) - n + 2 ^ 29 → pwp (fdalloc cur (fptr i)) (λ _, ended) s.
Proof.
  intros Hc Hcf Hx Hn Href. assert (Hx0 : fptr i ≠ 0) by (unfold fptr; lia). pose proof (ca_cnt Hc (fptr i)) as Hcnt.
  pose proof (nfd_bound kend trampoline T (st s) (fptr i) (ca_shape Hc) (ca_mem Hc)) as Hnb. unfold bump, none in Hcnt. rewrite decide_True in Hcnt by done.
  eapply pwp_mono; [apply (fdalloc_call Hc _ Hx0)|cbv beta]. intros fd s' [[-> ->]|(j & -> & Hj & H2 & Hfs)].
  - eapply call_ended, call_ext; [|apply (call_shared (- n) i x _ _ _ _ _ Hc Hcf Hx)]; [counts|unfold bump, none; rewrite decide_True by done; lia|lia|lia].
  - rewrite <-Hfs in Hcf, Hx. eapply call_ended, call_ext; [|apply (call_shared (1 - n) i x _ _ _ _ _ H2 Hcf Hx)]; [counts|unfold bump, none, one; rewrite !decide_True by done; lia|lia|lia].
Qed.

Lemma gets_sys {A} (g : ftab D → A) (s : sys) : pwp (on_files (gets g)) (λ a s', s' = s ∧ a = g (fs (st s))) s.
Proof. apply pwp_zoom, pwp_zoom. unfold gets. pwp_pures. by destruct s as [[] ?]. Qed.
Lemma set_console_sys x (s : sys) : pwp (on_files (set_console x)) (λ _ s', st s' = put_fs (MkFtab (files (fs (st s))) (pipes (fs (st s))) (ino (fs (st s))) (console (fs (st s))) x) (st s)) s.
Proof. apply pwp_zoom, pwp_zoom. unfold set_console. by pwp_pures. Qed.

Lemma open_console_ends R p (s : sys) : call R none [] p (st s) → console_ok (fs (st s)) → pwp (open_console cur) (λ _, ended) s.
Proof.
  intros Hc Hco. unfold open_console. pwp_use (gets_sys console_f). intros c s' [-> ->]. apply pwp_if; intros Hc0.
  { apply bool_decide_eq_true in Hc0. destruct (fk_cons _ _ _ (ca_ok Hc)) as [?|(i & Hi & Hlt)]; [done|]. rewrite Hi in *.
    rewrite <-(fk_len _ _ _ (ca_ok Hc)) in Hlt. destruct (lookup_lt_is_Some_2 _ _ Hlt) as [x Hx].
    pose proof (fk_ref _ _ _ (ca_ok Hc) i x Hx) as [_ Hr]. unfold shared in Hr. rewrite bool_decide_true in Hr by done.
    eapply (shared_fd_ends i x R 0); [eapply call_ext; [|exact Hc]; counts|done|done|lia|lia]. }
  apply bool_decide_eq_false in Hc0. assert (Hcf : console_f (fs (st s)) = 0) by (destruct (decide (console_f (fs (st s)) = 0)); [done|by destruct Hc0]).
  apply pwp_bind, pwp_ok. intros x s1 Hrun.
  destruct (proj1 (pwp_ok _ _ _) (on_ps_pwp _ _ s (call_filealloc kend trampoline cur s0 T R none [] p (st s) Hc)) x s1 Hrun) as [[-> H1]|(i & -> & H1 & Hb & HR & y & Hy & Hry & Hfs1)].
  { apply pwp_bind, pwp_ok. intros [] s2 _. apply pwp_bind. apply pwp_zoom, pwp_zoom. unfold setf, getf. by pwp_pures. }
  pwp_use set_console_sys. intros [] s2 Hs2. pwp_use setf_sys. intros [] s3 (z & Hz & Hs3). rewrite fidx_fptr in Hz, Hs3.
  destruct Hb as (z' & Hz' & Hzt & Hzr). rewrite Hs2 in Hz. cbn in Hz. assert (z' = z) as -> by congruence. rewrite Hfs1 in Hz. cbn in Hz.
  rewrite list_lookup_insert_eq in Hz by (by eapply lookup_lt_Some). injection Hz as <-.
  set (w := set_mode true true (set_major CONSOLE (set_ftype FD_DEVICE (set_fref 1 y)))).
  assert (Hw : is_console w) by (split; [done|]; split; [done|]; cbn; by apply (co_fresh _ Hco i y)).
  apply (shared_fd_ends i w (bump 1 (fptr i) R) 1 p).
  - rewrite Hs3, Hs2. change (call (bump 1 (fptr i) R) (bump 1 (fptr i) none) [] p
      (put_fs (MkFtab (<[i := w]> (files (fs (st s1)))) (pipes (fs (st s1))) (ino (fs (st s1))) (console (fs (st s1))) (fptr i)) (st s1))).
    eapply call_fs; [exact H1|done|done| |done].
    apply (console_count _ _ _ i (set_fref 1 y) w (ca_ok H1)); try done. by rewrite Hfs1.
  - by rewrite Hs3, Hs2.
  - rewrite Hs3, Hs2. cbn. apply list_lookup_insert_eq. by eapply lookup_lt_Some.
  - lia.
  - cbn. unfold bump. rewrite decide_True by done. lia.
Qed.

Lemma sys_open_ends R p (s : sys) : call R none [] p (st s) → console_ok (fs (st s)) → pwp (sys_open kend stk cur) (λ _, ended) s.
Proof.
  intros Hc Hco. unfold sys_open. pwp_use (argint_call Hc). intros omode s' [-> _]. pwp_use (argstr_call Hc). intros [n path] s' ->.
  apply pwp_if; intros Hn; [apply pwp_ret; by eapply call_ended|]. apply pwp_bind, pwp_of_option. intros c Hcmp. apply pwp_if; intros Hc0; [by eapply open_console_ends|].
  pwp_use (found_call _ R none p); [done|intros; by apply Handles.held_open_inode|].
  intros [ip|] s' Hs'; [by eapply open_file_ends|]. apply pwp_ret. by eapply call_ended.
Qed.
Lemma sys_link_ends R p (s : sys) : call R none [] p (st s) → pwp (sys_link stk cur) (λ _, ended) s.
Proof.
  intros Hc. unfold sys_link. pwp_use (argstr_call Hc). intros [r old] s' ->. pwp_pures; [by eapply call_ended|].
  pwp_use (argstr_call Hc). intros [r' new] s' ->. pwp_pures; [by eapply call_ended|].
  eapply pwp_mono; [apply (on_inodes_call _ (λ _, []) R none [] p); [done|]|cbv beta; intros; by eapply call_ended].
  intros. by apply Handles.held_link.
Qed.
Lemma sys_unlink_ends R p (s : sys) : call R none [] p (st s) → pwp (sys_unlink stk cur) (λ _, ended) s.
Proof.
  intros Hc. unfold sys_unlink. pwp_use (argstr_call Hc). intros [r old] s' ->. pwp_pures; [by eapply call_ended|].
  eapply pwp_mono; [apply (on_inodes_call _ (λ _, []) R none [] p); [done|]|cbv beta; intros; by eapply call_ended].
  intros. by apply Handles.held_unlink.
Qed.
Lemma sys_mkdir_ends R p (s : sys) : call R none [] p (st s) → pwp (sys_mkdir stk cur) (λ _, ended) s.
Proof.
  intros Hc. unfold sys_mkdir. pwp_use (argstr_call Hc). intros [r old] s' ->. pwp_pures; [by eapply call_ended|].
  eapply pwp_mono; [apply (found_call _ R none p); [done|]|cbv beta].
  { intros. by apply Handles.held_create. }
  intros [ip|] s' Hs'; [|apply pwp_ret; by eapply call_ended]. pwp_use unlockput_call; [exact Hs'|]. intros _ s2 H2.
  apply pwp_ret. by eapply call_ended.
Qed.

(** The current directory changes to one the call holds. *)
Lemma chdir_call ip R p (s s' : ps) f' : call R none [ip] p s → iput (cwd p) (fs s) = Ok tt f' →
  s' = put_proc cur (set_cwd (iptr ip) p) (put_fs f' s) → good kend trampoline cur s0 T s'.
Proof.
  intros Hc Hi ->. pose proof Hc as [(l & Hm) Hok Hn Hsh Hsi Hap Hp Hr Hcw]. set (p' := set_cwd (iptr ip) p).
  assert (Hc0 : cwd p ≠ 0) by (apply (sh_cwd _ Hsh cur p Hp); congruence).
  assert (HI : 0 < sum_over (ncwd (cwd p)) (procs s)).
  { eapply Z.lt_le_trans; [|apply (sum_over_ge _ _ cur p (ncwd_nonneg _) Hp)]. unfold ncwd. rewrite decide_True by done. lia. }
  destruct (iput_count (fs s) _ _ (cwd p) f' Hok) as [Hok' Hpg]; [pose proof (hI_range [ip] (cwd p)); lia|done|].
  assert (Hlook : ∀ j q, procs (put_proc cur p' (put_fs f' s)) !! j = Some q → j = cur ∧ q = p' ∨ j ≠ cur ∧ procs s !! j = Some q).
  { intros j q. cbn. intros [(<- & <- & _)|[? ?]]%list_lookup_insert_Some; auto. }
  exists l, T. split; [|split; [apply finv_shaped; split|split]].
  - eapply (minv_slot kend trampoline (put_fs f' s) l T cur p p'); try done; [|cbn; congruence..].
    destruct Hm as [? ? ? ? ? Hfl Hfs]. split; try done; cbn; [intros x Hx%Hpg; by apply Hfl|].
    intros i q t x Hq Ht Ho Hx%Hpg. by apply (Hfs i q t x).
  - eapply fok_at_ext; [exact Hok'|..]; intros x; cbn; rewrite (sum_over_insert _ _ cur p) by done; [rewrite Hn; unfold nfd, none; cbn; lia|].
    assert (Hh : hI [ip] x = if decide (x ≠ 0 ∧ iptr ip = x) then 1 else 0).
    { destruct (decide _) as [[_ <-]|Hx]; [rewrite hI_iptr; cbn; by rewrite decide_True|]. unfold hI. case_decide; [|done]. cbn [Handles.times].
      rewrite decide_False; [done|]. intros E. apply Hx. rewrite <-E. unfold iptr, iidx. lia. }
    destruct (decide (x = cwd p)) as [->|Hx]; [rewrite fn_lookup_insert|rewrite fn_lookup_insert_ne by done]; rewrite Hh; unfold ncwd at 3 4 || unfold ncwd at 2 3; cbn [p' cwd set_cwd].
    + rewrite (decide_True (P := cwd p ≠ 0 ∧ cwd p = cwd p)) by done. destruct (decide _); lia.
    + rewrite (decide_False (P := x ≠ 0 ∧ cwd p = x)) by (intros [_ E]; congruence). lia.
  - split.
    + intros j q [[-> ->]|[_ Hq]]%Hlook; [apply (sh_fd _ Hsh cur p Hp)|by apply (sh_fd _ Hsh j)].
    + intros j q [[-> ->]|[_ Hq]]%Hlook Hd; [destruct Hd as [E|E]; cbn in E; congruence|by apply (sh_unused _ Hsh j)].
    + intros j q [[-> ->]|[_ Hq]]%Hlook Hu Hz; [cbn; unfold iptr; lia|by apply (sh_cwd _ Hsh j)].
  - apply (sinv_put (put_fs f' s) cur p p'); [done|done|cbn; congruence|cbn; congruence].
  - apply spared_apart. eapply apart_trans; [exact Hap|]. split; [| |done].
    + intros j q Hj Hq. exists q. cbn. rewrite list_lookup_insert_ne by done. split; [done|apply sim_refl].
    + intros j q t Hj Hq Ht. split; [done|apply intact_refl].
Qed.

Lemma sys_chdir_ends R p (s : sys) : call R none [] p (st s) → pwp (sys_chdir stk cur) (λ _, ended) s.
Proof.
  intros Hc. unfold sys_chdir. pwp_use (argstr_call Hc). intros [r old] s' ->. apply pwp_if; intros _; [apply pwp_ret; by eapply call_ended|].
  pwp_use (found_call _ R none p); [done|intros; by apply Handles.held_chdir_inode|].
  intros [ip|] s1 H1; [|apply pwp_ret; by eapply call_ended]. pwp_use (myproc_call _ _ _ _ _ H1). intros q s' [-> ->].
  apply pwp_bind, pwp_zoom, pwp_zoom, pwp_ok. intros [] f' Hi. apply pwp_bind, pwp_zoom, pwp_ok. intros [] s2 Hset.
  change (setp cur (set_cwd (iptr ip)) (put_fs f' (st s1)) = Ok tt s2) in Hset. erewrite setp_run in Hset by apply (ca_cur H1). injection Hset as <-.
  apply pwp_ret. split; [by eapply chdir_call|]. eexists. split; [eapply (put_proc_lookup cur _ p), (ca_cur H1)|]. cbn. by rewrite (ca_run H1).
Qed.

(** ** Pipes *)

Lemma drop_ends_call rf wf R dR p (s : sys) : call R dR [] p (st s) → rf ≠ wf → 0 < R rf → 0 < R wf →
  (∀ x, dR x = bump 1 rf (bump 1 wf none) x) → pwp (drop_ends kend cur rf wf) (λ _, ended) s.
Proof.
  intros Hc Hne Hr Hw Hd. unfold drop_ends. pwp_use (close_file_call Hc rf Hr). intros _ s1 H1.
  pwp_use (close_file_call H1 wf); [unfold bump; rewrite decide_False by congruence; done|]. intros _ s2 H2. apply pwp_ret.
  eapply call_ended, call_ext; [|exact H2]. intros y. unfold bump at 1 2. rewrite Hd. revert y. counts.
Qed.
Lemma copyout_call va bs R dR hs p (s : sys) : call R dR hs p (st s) → 0 ≤ va < 2 ^ 64 → bytes bs →
  pwp (on_ps (on_mem (copyout (pagetable p) va bs))) (λ _ s', call R dR hs p (st s')) s.
Proof. intros. apply (on_ps_pwp _ (λ _, call R dR hs p)). by apply call_copyout. Qed.

Lemma sys_pipe_ends R p (s : sys) : call R none [] p (st s) → pwp (sys_pipe kend cur) (λ _, ended) s.
Proof.
  intros Hc. unfold sys_pipe. pwp_use (argaddr_call Hc). intros va s' [-> Hva].
  pwp_use (on_ps_pwp _ (λ '(r, (rf, wf)) s', r = -1 ∧ call R none [] p s' ∨
    r = 0 ∧ call (bump 1 rf (bump 1 wf R)) (bump 1 rf (bump 1 wf none)) [] p s' ∧ rf ≠ wf ∧ rf ≠ 0 ∧ wf ≠ 0 ∧ R rf = 0 ∧ R wf = 0)).
  { by apply call_pipealloc. }
  intros [r [rf wf]] s1 [[-> H1]|(-> & H1 & Hne & Hr0 & Hw0 & HRr & HRw)]; [apply pwp_ret; by eapply call_ended|].
  rewrite (bool_decide_false (0 < 0)) by done. set (R1 := bump 1 rf (bump 1 wf R)) in *.
  assert (R1 rf = 1 ∧ R1 wf = 1) as [HR1 HR2] by (unfold R1, bump; repeat case_decide; lia).
  pwp_use (fdalloc_call H1 rf Hr0). intros fd s2 [[-> ->]|(i & -> & Hi & H2 & _)].
  { rewrite (bool_decide_true (-1 < 0)) by done. eapply drop_ends_call; [exact H1|done|lia|lia|done]. }
  rewrite (bool_decide_false (Z.of_nat i < 0)) by lia. set (p1 := set_ofile (<[i := rf]> (ofile p)) p) in *.
  assert (Hp1 : ofile p1 !! i = Some rf) by (cbn; by rewrite list_lookup_insert_eq by (by eapply lookup_lt_Some)).
  pwp_use (fdalloc_call H2 wf Hw0). intros fd s3 [[-> ->]|(j & -> & Hj & H3 & _)].
  { rewrite (bool_decide_true (-1 < 0)) by done. rewrite Nat2Z.id. pwp_use (put_fd_call H2 i rf 0 Hp1). intros _ s3 [H3 _].
    eapply drop_ends_call; [exact H3|done|lia|lia|counts]. }
  rewrite (bool_decide_false (Z.of_nat j < 0)) by lia. set (p2 := set_ofile (<[j := wf]> (ofile p1)) p1) in *.
  assert (Hij : i ≠ j) by congruence.
  assert (Hp2 : ofile p2 !! i = Some rf) by (cbn -[p1]; by rewrite list_lookup_insert_ne by done).
  pwp_use (myproc_call _ _ _ _ _ H3). intros q s' [-> ->]. pwp_use (copyout_call va _ _ _ _ _ _ H3 Hva (bytes_le_to _ _)). intros r s4 H4.
  pwp_enter. eapply (pwp_mono _ (λ _ s', call R1 (λ y, bump 1 rf (bump 1 wf none) y - one rf y - one wf y) [] p2 (st s'))).
  { pwp_pures; [done|]. apply copyout_call; [done|wrap_lia|apply bytes_le_to]. }
  clear s4 H4. intros r' s4 H4. apply pwp_if; intros _.
  - rewrite !Nat2Z.id. pwp_use (put_fd_call H4 i rf 0 Hp2). intros _ s5 [H5 _]. pwp_use (put_fd_call H5 j wf 0).
    { cbn -[p2]. rewrite list_lookup_insert_ne by done. cbn -[p1]. rewrite list_lookup_insert_eq; [done|]. by eapply lookup_lt_Some. }
    intros _ s6 [H6 _]. eapply drop_ends_call; [exact H6|done|lia|lia|counts].
  - apply pwp_ret. eapply call_ended, call_ext; [|exact H4]. counts.
Qed.

Lemma exit_pwp status (Q : unit → sys → Prop) s : pwp (on_ps (exit kend cur status)) Q s.
Proof.
  apply pwp_zoom. unfold exit, exit_zombie, sched. repeat (pwp_pures; try (apply pwp_ok; intros ? ? _)).
Qed.
(** [printinfo] does not return when it prints. *)
Lemma sys_printinfo_ends name R p (s : sys) : call R none [] p (st s) → pwp (sys_printinfo kend stk cur name) (λ _, ended) s.
Proof.
  intros Hc. unfold sys_printinfo. pwp_use (argint_call Hc). intros cond s' [-> _]. pwp_use (argaddr_call Hc). intros va s' [-> _].
  repeat (apply pwp_if; intros _; [pwp_enter; apply pwp_ok; intros [] s' _; pwp_enter; apply exit_pwp|]). apply pwp_ret. by eapply call_ended.
Qed.
End calls.
End SysSpec.
