(* ===== verification/ConsoleFile.v ===== *)
(** The console's file, which [sys_open] allocates once, without an inode, and
    gives to every process that opens the console. *)

From S2P Require Import Prelude Kalloc BlockIO Inode File FileSpec Proc ProcSpec Syscall Sysfile.
Import File FileSpec Proc ProcSpec Syscall Sysfile.

Local Open Scope Z_scope.

Module ConsoleFile.

Section console.
Context {D : Type} {BIO : BlockIO D}.
Context (kend : Z).
Notation sys := (@Syscall.sys D).
Notation ps := (@Proc.ps (ftab D)).

(** The file as the first open makes it. *)
Definition console_of (x : file) : file := set_mode true true (set_major CONSOLE (set_ftype FD_DEVICE (set_fref 1 x))).

Lemma files_run {A} (m : M (ftab D) A) (s : sys) a f : m (fs (st s)) = Ok a f → on_files m s = Ok a (MkSys (put_fs f (st s)) (ticks s)).
Proof. intros H. unfold on_files, on_ps, on_fs, zoom. by rewrite H. Qed.
Lemma filealloc_run (f : ftab D) i x : find_free (files f) 0 = Some i → files f !! i = Some x → filealloc f = Ok (fptr i) (with_files (<[i := set_fref 1 x]> (files f)) f).
Proof. intros Hi Hx. unfold filealloc, mbind, M_bind, get. rewrite Hi. by erewrite setf_run. Qed.

(** Dropping the last reference to a device file without an inode. *)
Lemma fileclose_no_inode k (f : ftab D) i x :
  files f !! i = Some x → f_type x = FD_DEVICE → f_ref x = 1 → f_ip x = None → fileclose kend (fptr i) (k, f) = Undef.
Proof.
  intros Hx Ht Hr Hip. unfold fileclose, on_ftab, zoom, mbind, M_bind. cbn [snd fst]. rewrite (getf_run f i x Hx), Hr.
  rewrite (bool_decide_false (1 < 1)) by lia. rewrite (setf_run f i x _ Hx). cbn [snd fst]. change (s32 (1 - 1)) with 0.
  rewrite (bool_decide_false (0 > 0)) by lia. erewrite setf_run by (cbn; apply list_lookup_insert_eq; by eapply lookup_lt_Some). by rewrite Ht, Hip.
Qed.

Lemma open_console_first cur (s : sys) p i x l :
  procs (st s) !! cur = Some p → ofile p = 0 :: l → console_f (fs (st s)) = 0 → find_free (files (fs (st s))) 0 = Some i → files (fs (st s)) !! i = Some x →
  ∃ s1, open_console cur s = Ok 0 s1 ∧ procs (st s1) !! cur = Some (set_ofile (fptr i :: l) p) ∧ initproc (st s1) = initproc (st s) ∧
    files (fs (st s1)) !! i = Some (console_of x).
Proof.
  intros Hp Hl Hc Hi Hx. unfold open_console. erewrite bind_ok by (by apply files_run). cbv beta. rewrite Hc, bool_decide_false by (by intros []).
  erewrite bind_ok by (by apply files_run, filealloc_run). cbv beta. erewrite bind_ok by (by apply files_run). cbv beta.
  erewrite bind_ok by (apply files_run, setf_run; cbn; apply list_lookup_insert_eq; by eapply lookup_lt_Some). cbv beta.
  unfold fdalloc, put_fd, set_me, myproc. unfold on_ps, zoom, mbind, M_bind. cbn [st]. erewrite getp_run by (exact Hp). rewrite Hl. cbn [find_fd]. rewrite bool_decide_true by done.
  erewrite setp_run by exact Hp. eexists. split; [reflexivity|]. cbn. split; [|split; [done|]].
  - rewrite list_lookup_insert_eq by (by eapply lookup_lt_Some). by rewrite Hl.
  - rewrite list_lookup_insert_eq; [done|]. rewrite length_insert. by eapply lookup_lt_Some.
Qed.

(** C38: opening the console and exiting crashes the kernel.  The file that the
    first [open("console")] makes is a device file without an inode, but
    [fileclose] gives back the inode of a device file when the last reference
    goes: a process that opens the console and exits makes the kernel
    dereference a null inode pointer. *)
Theorem console_exit_faults cur (s : sys) p i x l status :
  procs (st s) !! cur = Some p → ofile p = 0 :: l → initproc (st s) ≠ Some cur →
  console_f (fs (st s)) = 0 → find_free (files (fs (st s))) 0 = Some i → files (fs (st s)) !! i = Some x → f_ip x = None →
  ∃ s1, open_console cur s = Ok 0 s1 ∧ exit kend cur status (st s1) = Undef.
Proof.
  intros Hp Hl Hinit Hc Hi Hx Hip. destruct (open_console_first cur s p i x l Hp Hl Hc Hi Hx) as (s1 & Hrun & Hp1 & Hi1 & Hx1). exists s1. split; [done|].
  unfold exit. erewrite bind_ok by exact (getp_run cur _ _ Hp1). cbv beta. unfold mbind at 1, M_bind at 1, get. rewrite Hi1. rewrite bool_decide_false by done.
  unfold mbind at 1, M_bind at 1. cbn [ofile set_ofile close_files]. rewrite bool_decide_true by (unfold fptr; lia). unfold close_fd, on_file, zoom.
  unfold mbind, M_bind. pose proof (fileclose_no_inode (mem (st s1)) (fs (st s1)) i (console_of x) Hx1 eq_refl eq_refl Hip) as Hf.
  change (Proc.fileclose kend (fptr i) (mem (st s1), fs (st s1)) = Undef) in Hf. by rewrite Hf.
Qed.
End console.
End ConsoleFile.
