(* ===== verification/Exec.v ===== *)
(** Running a program: [exec], [loadseg] and [flags2perm] of [kernel/exec.c], the
    file format of [kernel/elf.h], and [sys_exec] of [kernel/sysfile.c].

    An [elfhdr] or a [proghdr] is the bytes of its buffer.  [stk] is what
    uninitialised local variables hold.  The [char *argv[MAXARG]] array of
    [sys_exec] holds addresses of pages of kernel memory, each with a string. *)

From S2P Require Import Prelude Riscv CString Kalloc Vm BlockIO Inode FileData Dir File FileSpec Proc Syscall Sysfile.
Import Kalloc Vm File Proc Syscall Sysfile.

Local Open Scope Z_scope.

Module Exec.

Definition ELF_MAGIC : Z := 0x464C457F.
Definition ELF_PROG_LOAD : Z := 1.
Definition MAXARG : Z := 32.
Definition USERSTACK : Z := 1.

(** [struct elfhdr]. *)
Definition sizeof_elfhdr : nat := 64.
Definition elf_magic (e : list Z) : Z := rd 4 0 e.
Definition elf_entry (e : list Z) : Z := rd 8 24 e.
Definition elf_phoff (e : list Z) : Z := rd 8 32 e.
Definition elf_phnum (e : list Z) : Z := rd 2 56 e.

(** [struct proghdr]. *)
Definition sizeof_proghdr : nat := 56.
Definition ph_type (h : list Z) : Z := rd 4 0 h.
Definition ph_flags (h : list Z) : Z := rd 4 4 h.
Definition ph_off (h : list Z) : Z := rd 8 8 h.
Definition ph_vaddr (h : list Z) : Z := rd 8 16 h.
Definition ph_filesz (h : list Z) : Z := rd 8 32 h.
Definition ph_memsz (h : list Z) : Z := rd 8 40 h.

Definition flags2perm (flags : Z) : Z :=
  let perm := if flag flags 0x1 then PTE_X else 0 in
  if flag flags 0x2 then Z.lor perm PTE_W else perm.

(** The part of [path] after the last slash. *)
Fixpoint last_elem (s last : list Z) : option (list Z) :=
  match s with
  | [] => None
  | c :: s =>
      if bool_decide (c = 0) then Some last
      else if bool_decide (c = 47) then last_elem s s else last_elem s last
  end.

Section exec.
Context {D : Type} {BIO : BlockIO D}.
Context (kend trampoline : Z) (stk : list Z) (cur : nat).
Notation ps := (@Proc.ps (ftab D)).

Definition inode {A} (m : M (Inode.fs D) A) : M ps A := on_fs (on_ino m).

(** [readi(ip, 0, buf, off, n)] into a local variable, whose bytes are [uchar]s. *)
Definition read_hdr (ip : nat) (off n : Z) (buf : list Z) : M ps (Z * list Z) :=
  '(r, buf) ← inode (FileData.readi_buf ip off n buf);
  mret (r, u8 <$> buf).

(** ** Segments *)

(** [either_copyout] of [readi] to kernel memory. *)
Definition phys_out (dst : Z) (bs : list Z) (k : outcome kmem Z) : outcome kmem Z :=
  match k with Ok _ k => (st_bytes dst (u8 <$> bs);; mret 0) k | e => e end.
(** [readi(ip, 0, pa, off, n)]. *)
Definition read_page (ip : nat) (pa off n : Z) : M ps Z :=
  on_file (
    k ← gets fst;
    '(r, k) ← on_ftab (on_ino (FileData.readi phys_out ip pa off n (Ok 0 k)));
    resume k r).

Fixpoint loadseg_loop (fuel : nat) (pagetable va : Z) (ip : nat) (offset sz i : Z) : M ps Z :=
  if bool_decide (i < sz) then
    match fuel with
    | O => nofuel
    | S fuel =>
        pa ← on_mem (walkaddr pagetable (u64 (va + i)));
        if bool_decide (pa = 0) then panic "loadseg: address should exist" else
        let n := if bool_decide (u32 (sz - i) < PGSIZE) then u32 (sz - i) else PGSIZE in
        r ← read_page ip pa (u32 (offset + i)) n;
        if bool_decide (r ≠ n) then mret (-1)
        else loadseg_loop fuel pagetable va ip offset sz (u32 (i + PGSIZE))
    end
  else mret 0.
Definition loadseg (pagetable va : Z) (ip : nat) (offset sz : Z) : M ps Z :=
  loadseg_loop (S (Z.to_nat (sz / PGSIZE))) pagetable va ip offset sz 0.

(** The loop over [n] more program headers: whether it gets to its end, and the
    value of [sz] then. *)
Fixpoint load_loop (n : nat) (pagetable : Z) (ip : nat) (ph : list Z) (off sz : Z) : M ps (bool * Z) :=
  match n with
  | O => mret (true, sz)
  | S n =>
      '(r, ph) ← read_hdr ip (u32 off) (Z.of_nat sizeof_proghdr) ph;
      if bool_decide (r ≠ Z.of_nat sizeof_proghdr) then mret (false, sz) else
      if bool_decide (ph_type ph ≠ ELF_PROG_LOAD) then load_loop n pagetable ip ph (s32 (off + Z.of_nat sizeof_proghdr)) sz else
      if bool_decide (ph_memsz ph < ph_filesz ph) then mret (false, sz) else
      if bool_decide (u64 (ph_vaddr ph + ph_memsz ph) < ph_vaddr ph) then mret (false, sz) else
      if bool_decide (ph_vaddr ph mod PGSIZE ≠ 0) then mret (false, sz) else
      sz1 ← on_mem (uvmalloc kend pagetable sz (u64 (ph_vaddr ph + ph_memsz ph)) (flags2perm (s32 (ph_flags ph))));
      if bool_decide (sz1 = 0) then mret (false, sz) else
      r ← loadseg pagetable (ph_vaddr ph) ip (u32 (ph_off ph)) (u32 (ph_filesz ph));
      if bool_decide (r < 0) then mret (false, sz1) else
      load_loop n pagetable ip ph (s32 (off + Z.of_nat sizeof_proghdr)) sz1
  end.

(** ** The stack *)

(** The string at [a]. *)
Definition kstr (a : Z) : M kmem (list Z) :=
  x ← load_page a;
  n ← of_option (Str.strlen x);
  mret (take (S (Z.to_nat n)) x).

(** The loop that pushes the strings: [sp] and [ustack] at its end, or [None] for
    [goto bad]. *)
Fixpoint push_args (argv : list Z) (pagetable stackbase sp : Z) (ustack : list Z) : M ps (option (Z * list Z)) :=
  match argv with
  | [] => undef
  | a :: argv =>
      if bool_decide (a = 0) then mret (Some (sp, ustack)) else
      if bool_decide (MAXARG ≤ Z.of_nat (length ustack)) then mret None else
      s ← on_mem (kstr a);
      let sp := u64 (sp - Z.of_nat (length s)) in
      let sp := sp - sp mod 16 in
      if bool_decide (sp < stackbase) then mret None else
      r ← on_mem (copyout pagetable sp s);
      if bool_decide (r < 0) then mret None
      else push_args argv pagetable stackbase sp (ustack ++ [sp])
  end.

(** ** exec *)

(** The label [bad]. *)
Definition exec_bad (pagetable sz : Z) (ip : option nat) : M ps Z :=
  when (bool_decide (pagetable ≠ 0)) (on_mem (proc_freepagetable kend pagetable sz));;
  match ip with Some ip => inode (Inode.iunlockput ip) | None => mret tt end;;
  mret (-1).

(** From the program's name to the end. *)
Definition exec_commit (path : list Z) (pagetable sz oldsz sp entry : Z) : M ps unit :=
  p ← getp cur;
  on_mem (tf_put (trapframe p) tf_a1 sp);;
  last ← of_option (last_elem path path);
  nm ← of_option (Str.safestrcpy (name p) last 16);
  setp cur (set_name nm);;
  setp cur (λ q, set_sz sz (set_pagetable pagetable q));;
  on_mem (tf_put (trapframe p) tf_epc entry);;
  on_mem (tf_put (trapframe p) tf_sp sp);;
  on_mem (proc_freepagetable kend (Proc.pagetable p) oldsz).

(** Once the segments are loaded up to [sz]. *)
Definition exec_stack (path argv : list Z) (pagetable sz entry : Z) : M ps Z :=
  p ← getp cur;
  let oldsz := Proc.sz p in
  let sz := PGROUNDUP sz in
  sz1 ← on_mem (uvmalloc kend pagetable sz (u64 (sz + (USERSTACK + 1) * PGSIZE)) PTE_W);
  if bool_decide (sz1 = 0) then exec_bad pagetable sz None else
  let sz := sz1 in
  on_mem (uvmclear pagetable (u64 (sz - (USERSTACK + 1) * PGSIZE)));;
  let stackbase := u64 (sz - USERSTACK * PGSIZE) in
  r ← push_args argv pagetable stackbase sz [];
  match r with
  | None => exec_bad pagetable sz None
  | Some (sp, ustack) =>
      let argc := Z.of_nat (length ustack) in
      if bool_decide (MAXARG ≤ argc) then undef else
      let sp := u64 (sp - (argc + 1) * 8) in
      let sp := sp - sp mod 16 in
      if bool_decide (sp < stackbase) then exec_bad pagetable sz None else
      r ← on_mem (copyout pagetable sp (concat (le_to 8 <$> ustack ++ [0])));
      if bool_decide (r < 0) then exec_bad pagetable sz None else
      exec_commit path pagetable sz oldsz sp entry;;
      mret argc
  end.

(** Once the program's inode is locked. *)
Definition exec_locked (ip : nat) (path argv : list Z) : M ps Z :=
  '(r, elf) ← read_hdr ip 0 (Z.of_nat sizeof_elfhdr) (take sizeof_elfhdr stk);
  if bool_decide (r ≠ Z.of_nat sizeof_elfhdr) then exec_bad 0 0 (Some ip) else
  if bool_decide (elf_magic elf ≠ ELF_MAGIC) then exec_bad 0 0 (Some ip) else
  pagetable ← proc_pagetable kend trampoline cur;
  if bool_decide (pagetable = 0) then exec_bad 0 0 (Some ip) else
  '(ok, sz) ← load_loop (Z.to_nat (elf_phnum elf)) pagetable ip (take sizeof_proghdr stk) (s32 (elf_phoff elf)) 0;
  if negb ok then exec_bad pagetable sz (Some ip) else
  inode (Inode.iunlockput ip);;
  exec_stack path argv pagetable sz (elf_entry elf).

Definition exec (path argv : list Z) : M ps Z :=
  r ← inode (Dir.namei stk path);
  match r with
  | None => mret (-1)
  | Some ip => inode (Inode.ilock (Some ip));; exec_locked ip path argv
  end.

(** ** sys_exec *)

(** [fetchstr(uarg, argv[i], PGSIZE)] into the page at [a]. *)
Definition fetch_page (uarg a : Z) : M (@Syscall.sys D) Z :=
  x ← on_ps (on_mem (load_page a));
  '(r, x) ← fetchstr cur uarg x PGSIZE;
  on_ps (on_mem (store_page a x));;
  mret r.
(** The loop that fetches the arguments from [i], with [k] entries left. *)
Fixpoint fetch_args (k i : nat) (uargv : Z) (argv : list Z) : M (@Syscall.sys D) (bool * list Z) :=
  match k with
  | O => mret (false, argv)
  | S k =>
      u ← fetchaddr cur (u64 (uargv + 8 * Z.of_nat i));
      match u with
      | None => mret (false, argv)
      | Some uarg =>
          if bool_decide (uarg = 0) then mret (true, <[i := 0]> argv) else
          a ← on_ps (on_mem kalloc);
          let argv := <[i := a]> argv in
          if bool_decide (a = 0) then mret (false, argv) else
          r ← fetch_page uarg a;
          if bool_decide (r < 0) then mret (false, argv)
          else fetch_args k (S i) uargv argv
      end
  end.
Fixpoint free_args (argv : list Z) : M (@Syscall.sys D) unit :=
  match argv with
  | [] => mret tt
  | a :: argv => if bool_decide (a = 0) then mret tt else on_ps (on_mem (kfree kend a));; free_args argv
  end.

Definition sys_exec : M (@Syscall.sys D) Z :=
  uargv ← argaddr cur 1;
  '(n, path) ← argstr cur 0 (path0 stk) MAXPATH;
  if bool_decide (n < 0) then mret (-1) else
  '(ok, argv) ← fetch_args (Z.to_nat MAXARG) 0 uargv (replicate (Z.to_nat MAXARG) 0);
  if negb ok then free_args argv;; mret (-1) else
  ret ← on_ps (exec path argv);
  free_args argv;;
  mret ret.
End exec.
End Exec.
