(* ===== verification/ExecMem.v ===== *)
(** The page table [exec] builds: growing it to any size, its guard page, and
    writes to its pages through physical addresses. *)

From S2P Require Import Prelude Riscv Kalloc Vm PageTable UserMem UserCopy Proc ProcMem.
Import Kalloc Vm PageTable UserMem UserCopy Proc ProcMem.

Local Open Scope Z_scope.

Module ExecMem.

(** A page-table entry without [PTE_U]. *)
Definition noU (w : Z) : Z := Z.land w (u64 (Z.lnot PTE_U)).

Lemma noU_range w : 0 ≤ noU w < 2 ^ 64.
Proof.
  unfold noU. replace (u64 (Z.lnot PTE_U)) with (Z.land (u64 (Z.lnot PTE_U)) (Z.ones 64)) by done.
  rewrite Z.land_assoc, Z.land_ones by lia. zlia.
Qed.
Lemma noU_has w f : Z.land f PTE_U = 0 → 0 ≤ f < 1024 → has (noU w) f = has w f.
Proof.
  intros Hf Hr. assert (Hm : Z.land (u64 (Z.lnot PTE_U)) f = f); [|unfold has, noU; by rewrite <-Z.land_assoc, Hm].
  apply Z.bits_inj'. intros n Hn.
  rewrite Z.land_spec. destruct (Z.testbit f n) eqn:E; [|by rewrite andb_false_r]. rewrite andb_true_r.
  assert (n < 10). { destruct (decide (n < 10)); [done|]. rewrite Z.bits_above_log2 in E; [done|lia|].
    destruct (decide (f = 0)) as [->|]; [by rewrite Z.bits_0 in E|]. apply (Z.lt_le_trans _ 10); [apply Z.log2_lt_pow2; lia|lia]. }
  assert (n ≠ 4). { intros ->. assert (Hb : Z.testbit (Z.land f PTE_U) 4 = true) by (rewrite Z.land_spec, E; done). by rewrite Hf in Hb. }
  assert (n = 0 ∨ n = 1 ∨ n = 2 ∨ n = 3 ∨ n = 5 ∨ n = 6 ∨ n = 7 ∨ n = 8 ∨ n = 9) as Hcase by lia.
  repeat destruct Hcase as [->|Hcase]; try done. by subst.
Qed.
Lemma noU_U w : has (noU w) PTE_U = false.
Proof.
  unfold has, noU. rewrite <-Z.land_assoc. change (Z.land (u64 (Z.lnot PTE_U)) PTE_U) with 0. by rewrite Z.land_0_r.
Qed.
Lemma noU_pa w : PTE2PA (noU w) = PTE2PA w.
Proof.
  unfold PTE2PA, noU. rewrite Z.shiftr_land. change (Z.shiftr (u64 (Z.lnot PTE_U)) 10) with (Z.ones 54).
  rewrite Z.land_ones, !Z.shiftl_mul_pow2 by lia. unfold u64. generalize (Z.shiftr w 10). intros x.
  change (2 ^ 54) with 18014398509481984. change (2 ^ 12) with 4096. change (2 ^ 64) with 18446744073709551616. zlia.
Qed.
Lemma noU_flags w : PTE_FLAGS (noU w) = Z.land (PTE_FLAGS w) 0x3EF.
Proof. unfold PTE_FLAGS, noU. by rewrite <-!Z.land_assoc. Qed.

(** The process finds the bytes [bs] at [va]. *)
Definition ubytes (k : kmem) (t : ptree) (va : Z) (bs : list Z) : Prop :=
  ∀ i : nat, (i < length bs)%nat → uread k t (va + Z.of_nat i) = bs !! i.
Lemma written_ubytes k t va bs k' :
  written k t va bs k' → (∀ i : nat, (i < length bs)%nat → uwritable k t (va + Z.of_nat i) = true) → ubytes k' t va bs.
Proof.
  intros Hw Hok i Hi. specialize (Hok i Hi). unfold uread. rewrite Hw, decide_True by lia. unfold uwritable in Hok.
  destruct (abyte k t (va + Z.of_nat i)) as [[f b]|]; [|done]. apply andb_true_iff in Hok as [HU _]. cbn.
  replace (Z.to_nat (va + Z.of_nat i - va)) with i by lia. destruct (lookup_lt_is_Some_2 bs i Hi) as [c Hc]. rewrite Hc. cbn. by rewrite HU.
Qed.
Lemma ubytes_same k t k' va bs :
  ubytes k t va bs → (∀ a, va ≤ a < va + Z.of_nat (length bs) → abyte k' t a = abyte k t a) → ubytes k' t va bs.
Proof. intros Hu He i Hi. unfold uread. rewrite He by lia. by apply Hu. Qed.

Section mem.
Context (kend trampoline : Z) (kend_pos : 0 < kend).
Notation uspace := (UserMem.uspace kend).
Notation ustep := (UserMem.ustep kend).
Notation pspace := (ProcMem.pspace kend trampoline).

(** An entry changes, but not the page it points to. *)
Lemma releaf_space k l t k' v w w' :
  uspace k l t → v < TFPN → p_leaf t !! v = Some w → PTE2PA w' = PTE2PA w → has w' PTE_V = true → has w' PTE_RWX = true →
  grows kend k l t k' l (set_leaf t v w') →
  ustep k l t k' l (set_leaf t v w') ∧
  ∀ x, pmem k !! PTE2PA w = Some x → aupdate k t v (Some (PTE_FLAGS w', x)) k' (set_leaf t v w').
Proof.
  intros Hu Hv0 Hw Hpa HV Hrwx Hg. pose proof Hu as [Hst Hlf Hinj Hhigh].
  assert (Hins : p_leaf (set_leaf t v w') = <[v := w']> (p_leaf t)) by (cbn; by rewrite HV).
  assert (Hkeep : ∀ u y, u < TFPN → p_leaf t !! u = Some y → pmem k' !! PTE2PA y = pmem k !! PTE2PA y).
  { intros u y Hlt Hy. destruct (Hlf u y Hlt Hy) as (_ & Hl & Ht & _). by destruct (grows_keep _ _ _ _ _ _ _ (PTE2PA y) Hg) as (-> & _). }
  assert (Hold : ∀ u y, <[v := w']> (p_leaf t) !! u = Some y → ∃ z, p_leaf t !! u = Some z ∧ PTE2PA y = PTE2PA z ∧ (has z PTE_RWX = true → has y PTE_RWX = true)).
  { intros u y [[<- <-]|[_ Hy]]%lookup_insert_Some; eauto. }
  split; [split|].
  - split; rewrite ?Hins; [apply Hg|..].
    + intros u y Hlt (z & Hz & -> & Hr)%Hold. destruct (Hlf u z Hlt Hz) as (? & ? & ? & ? & x & ? & ?).
      rewrite is_table_set_leaf, (Hkeep u z) by done. eauto 10.
    + intros u u' y y' Hlt Hlt' (z & Hz & -> & _)%Hold (z' & Hz' & -> & _)%Hold. by eapply Hinj.
    + intros u y Hge. rewrite lookup_insert_ne by lia. by apply Hhigh.
  - intros p. unfold upage. rewrite is_table_set_leaf, Hins. split; (intros [?|[?|(u & y & Hlt & Hy & <-)]]; [by left|right; by left|right; right]).
    + destruct (Hold u y Hy) as (z & Hz & -> & _). eauto.
    + destruct (decide (u = v)) as [->|Hne]; [exists v, w'; rewrite lookup_insert_eq; split; [done|]; split; [done|congruence]|].
      exists u, y. by rewrite lookup_insert_ne.
  - intros q Hq. destruct (grows_keep _ _ _ _ _ _ _ q Hg) as (-> & _); [intros ?; apply Hq; right; by left|intros ?; apply Hq; by left|done].
  - done.
  - intros u Hge. by rewrite Hins, lookup_insert_ne by lia.
  - intros x Hx u. unfold aspace at 1. rewrite Hins. destruct (decide (u = v)) as [->|Hne].
    + rewrite decide_True, lookup_insert_eq by done. cbn. by rewrite Hpa, (Hkeep v w), Hx.
    + rewrite lookup_insert_ne by done. unfold aspace. destruct (decide (u < TFPN)) as [Hlt|]; [|done].
      destruct (p_leaf t !! u) as [y|] eqn:Hy; [|done]. cbn. by rewrite (Hkeep u y).
Qed.

(** [uvmclear] takes a page away from the user and keeps it mapped. *)
Lemma uvmclear_run k l t va f x :
  uspace k l t → 0 ≤ va → aspace k t (va / 4096) = Some (f, x) →
  ∃ k' t', uvmclear (p_root t) va k = Ok tt k' ∧ ustep k l t k' l t' ∧ aupdate k t (va / 4096) (Some (Z.land f 0x3EF, x)) k' t'.
Proof.
  intros Hu Hva Has. destruct (aspace_Some kend k l t _ _ _ Hu Has) as (Hlow & w & Hw & -> & Hx & _ & _ & _ & Hrwx & _).
  pose proof (low_MAXVA va Hva Hlow) as Hmax.
  destruct (mapped_slot kend kend_pos _ _ _ _ _ (us_st _ _ _ _ Hu) Hmax Hw) as (p & Hwalk & Hp0 & Hs & Hld & HV).
  destruct (st64_leaf kend kend_pos k l t va p (noU w) (us_st _ _ _ _ Hu) Hs Hmax (noU_range w)) as (k' & Hst & Hg).
  destruct (releaf_space k l t k' (va / 4096) w (noU w) Hu Hlow Hw (noU_pa w)) as [Hstep Hupd]; [by rewrite noU_has|by rewrite noU_has|done|].
  exists k', (set_leaf t (va / 4096) (noU w)). split; [|split; [done|rewrite <-noU_flags; by apply Hupd]].
  unfold uvmclear. erewrite bind_ok by exact Hwalk. cbv beta. rewrite bool_decide_false by done. by erewrite bind_ok by exact Hld.
Qed.

Lemma sized_update k t v o k' t' size : aupdate k t v (Some o) k' t' → is_Some (aspace k t v) → sized k t size → sized k' t' size.
Proof.
  intros Hup Hs [Hr Hv]. split; [done|]. intros u. rewrite Hup. destruct (decide (u = v)) as [->|]; [|done]. rewrite <-Hv. naive_solver.
Qed.

(** [uvmalloc] to any size. *)
Lemma pspace_step k l t tf size k' l' t' size' :
  pspace k l t tf size → ustep k l t k' l' t' → sized k' t' size' → pspace k' l' t' tf size'.
Proof. intros [Hu Hhi _] Hst Hsz. split; [apply Hst| |done]. intros v Hv. rewrite (st_high _ _ _ _ _ _ _ Hst v Hv). by apply Hhi. Qed.
Lemma uvmalloc_sized k l t tf size newsz xperm :
  pspace k l t tf size → 0 ≤ newsz < 2 ^ 64 → 0 ≤ xperm < 1024 →
  ∃ r k' l' t', uvmalloc kend (p_root t) size newsz xperm k = Ok r k' ∧ ustep k l t k' l' t' ∧
    (r = 0 ∧ asame k t k' t' ∧ pspace k' l' t' tf size ∨
     r ≠ 0 ∧ r = Z.max size newsz ∧ pspace k' l' t' tf r ∧
     afill k t (npages size) (npages r - npages size) (Z.lor (uperm xperm) PTE_V) k' t').
Proof.
  intros Hp Hn Hx. pose proof Hp as [Hu Hhi Hsz]. pose proof Hsz as [Hr Hsome].
  assert (Hsame : ∀ k' t', asame k t k' t' → sized k' t' size) by (intros k' t' Has; split; [done|]; intros v; by rewrite Has).
  destruct (decide (newsz < size)) as [Hlt|Hge].
  { exists size, k, l, t. split; [unfold uvmalloc; by rewrite bool_decide_true by done|]. split; [by apply ustep_refl|]. right. split; [lia|]. split; [lia|].
    split; [done|]. intros v. by rewrite decide_False by lia. }
  destruct (uvmalloc_any kend kend_pos k l t size newsz xperm Hu ltac:(lia) ltac:(lia) ltac:(lia)) as (r & k' & l' & t' & Hrun & Hst & Hres);
    [right; intros v Hv; by apply Hsome|done|intros v Hv; apply eq_None_not_Some; rewrite Hsome; lia|].
  exists r, k', l', t'. split; [done|]. split; [done|]. destruct Hres as [[-> Hf]|[-> Has]].
  2:{ left. split; [done|]. split; [done|]. eapply pspace_step; [done|done|by apply Hsame]. }
  destruct (decide (newsz = 0)) as [->|H0].
  { left. assert (size = 0) as -> by lia. assert (Has : asame k t k' t').
    { intros v. rewrite Hf. rewrite decide_False; [done|]. change (npages 0) with 0. lia. }
    split; [done|]. split; [done|]. eapply pspace_step; [done|done|by apply Hsame]. }
  right. split; [done|]. rewrite Z.max_r by lia. split; [done|]. split; [|done].
  assert (Hmono : npages size ≤ npages newsz) by (unfold npages; zlia). assert (H0s : 0 ≤ npages size) by (unfold npages; zlia).
  assert (Hall : ∀ v, is_Some (aspace k' t' v) ↔ 0 ≤ v < npages newsz).
  { intros v. rewrite Hf. destruct (decide _); [split; [lia|eauto]|]. rewrite Hsome. lia. }
  assert (npages newsz ≤ 0x88000) by (apply (pages_bound kend kend_pos k' l' t'); [apply Hst|]; intros v; apply Hall).
  eapply pspace_step; [done|done|]. split; [|done]. change TRAPFRAME with (2 ^ 38 - 8192). unfold npages in *. zlia.
Qed.

(** The flags of a page are in the tree. *)
Lemma aspace_flags k l k' l' t v f x :
  uspace k l t → uspace k' l' t → aspace k t v = Some (f, x) → ∃ x', aspace k' t v = Some (f, x').
Proof.
  intros Hu Hu' Has. destruct (aspace_Some kend k l t _ _ _ Hu Has) as (Hlow & w & Hw & -> & _).
  destruct (us_leaf _ _ _ _ Hu' v w Hlow Hw) as (_ & _ & _ & _ & x' & Hx' & _). exists x'.
  unfold aspace. rewrite decide_True, Hw by done. cbn. by rewrite Hx'.
Qed.
(** A page whose bytes are the same. *)
Lemma aspace_abyte k l k' l' t v :
  uspace k l t → uspace k' l' t → (∀ a, a / 4096 = v → abyte k' t a = abyte k t a) → aspace k' t v = aspace k t v.
Proof.
  intros Hu Hu' Hab. destruct (aspace k t v) as [[f x]|] eqn:Has.
  - destruct (aspace_flags k l k' l' t v f x Hu Hu' Has) as [x' Has']. rewrite Has'. do 2 f_equal.
    destruct (aspace_Some kend k l t _ _ _ Hu Has) as (_ & w & _ & _ & _ & _ & _ & _ & _ & [Hl _]).
    destruct (aspace_Some kend k' l' t _ _ _ Hu' Has') as (_ & w' & _ & _ & _ & _ & _ & _ & _ & [Hl' _]).
    apply list_eq_same_length with (n := length x); [lia|lia|]. intros i b b' Hi Hb Hb'.
    specialize (Hab (4096 * v + Z.of_nat i) ltac:(zlia)). unfold abyte in Hab. replace ((4096 * v + Z.of_nat i) / 4096) with v in Hab by zlia.
    replace ((4096 * v + Z.of_nat i) mod 4096) with (Z.of_nat i) in Hab by zlia. rewrite Has, Has' in Hab. cbn in Hab. rewrite Nat2Z.id, Hb, Hb' in Hab.
    cbn in Hab. congruence.
  - destruct (aspace k' t v) as [[f x]|] eqn:Has'; [|done]. destruct (aspace_flags k' l' k l t v f x Hu' Hu Has') as [x' Hx']. congruence.
Qed.

(** [walkaddr] finds the page of a user address. *)
Lemma walkaddr_leaf k l t va pa k' :
  uspace k l t → 0 ≤ va < 2 ^ 64 → va mod 4096 = 0 → walkaddr (p_root t) va k = Ok pa k' → pa ≠ 0 →
  ∃ w x, p_leaf t !! (va / 4096) = Some w ∧ pa = PTE2PA w ∧ va / 4096 < TFPN ∧ has w PTE_U = true ∧
    aspace k t (va / 4096) = Some (PTE_FLAGS w, x) ∧ pmem k !! pa = Some x ∧ is_page x.
Proof.
  intros Hu Hva Hal Hrun Hpa. unfold walkaddr in Hrun. case_bool_decide as Hmax; [by injection Hrun as <- <-|].
  destruct (user_pte kend kend_pos k l t va Hu ltac:(lia)) as (pte & Hwalk & Hpte). erewrite bind_ok in Hrun by exact Hwalk. cbv beta in Hrun.
  destruct Hpte as [[-> Hl]|(Hp0 & v & Hld & Hent)]; [by injection Hrun as <- <-|].
  rewrite bool_decide_false in Hrun by done. erewrite bind_ok in Hrun by exact Hld. cbv beta in Hrun.
  destruct (p_leaf t !! (va / 4096)) as [w|] eqn:Hw; cbn in Hent; [|rewrite Hent in Hrun; by injection Hrun as <- <-].
  destruct Hent as [-> HV]. rewrite HV in Hrun. cbn [negb] in Hrun. destruct (has w PTE_U) eqn:HU; cbn [negb] in Hrun; [|by injection Hrun as <- <-].
  injection Hrun as <- <-. destruct (user_leaf kend kend_pos k l t _ w Hu Hw HU) as (x & Has & Hx & Hpx & _).
  exists w, x. split; [done|]. split; [done|]. split; [|done]. by apply (aspace_Some kend k l) in Has as [? _].
Qed.
End mem.
End ExecMem.
