(* ===== verification/ExecSpec.v ===== *)
(** What [exec] does to memory: it builds a new address space beside the old one,
    and swaps the two at the very end. *)

From stdpp Require Import functions.
From S2P Require Import Prelude Riscv CString Kalloc Vm PageTable UserMem UserCopy BlockIO Inode InodeSpec FileData Dir Proc ProcMem ProcSpec ProcStep File FileSpec Syscall Sysfile Handles CallSpec SysSpec Exec ExecMem.
Import Kalloc Vm PageTable UserMem UserCopy Proc ProcMem ProcSpec ProcStep File FileSpec Syscall Sysfile CallSpec SysSpec Exec ExecMem.

Local Open Scope Z_scope.

Module ExecSpec.

Section exec.
Context {D : Type} {BIO : BlockIO D}.
Context (kend trampoline : Z) (kend_pos : 0 < kend).
Hypothesis tramp_ok : pa_ok trampoline.
Hypothesis tramp_kernel : trampoline + 4096 ≤ 2 ^ 54.
Context (stk : list Z) (cur : nat) (total : bool).
Notation ps := (@Proc.ps (ftab D)).
Notation sys := (@Syscall.sys D).
Notation minv := (ProcSpec.minv kend trampoline).
Notation pspace := (ProcMem.pspace kend trampoline).
Notation moves := (ProcMem.moves kend).
Notation page_ok := (Kalloc.page_ok kend).

(** ** Pages that belong to the running call *)

Record owns (T : gmap nat ptree) (s : ps) (l : list Z) (P : Z → Prop) : Prop := {
  ow_minv : minv s l T;
  ow_free x : P x → x ∉ l;
  ow_pipe x : P x → ¬ pages_of (fs s) x;
  ow_proc x j q u : P x → procs s !! j = Some q → T !! j = Some u → ¬ own u (trapframe q) x;
}.

Lemma owns_moves T s l P A k' l' B :
  owns T s l P → moves (mem s) l A k' l' B → (∀ x, A x → P x) →
  owns T (put_mem k' s) l' (λ x, P x ∧ ¬ A x ∨ B x) ∧
  (∀ j q u, procs s !! j = Some q → T !! j = Some u → intact (mem s) k' u q) ∧
  (∀ x, P x → ¬ A x → pmem k' !! x = pmem (mem s) !! x).
Proof.
  intros [Hm Hfr Hpi Hpr] Hmv HA. pose proof Hm as [Hlen Hk Hu Hl Hsep Hfl Hfsep].
  assert (Hall : ∀ j q t, procs s !! j = Some q → T !! j = Some t →
    holds kend trampoline k' l' t q ∧ intact (mem s) k' t q ∧ (∀ x, own t (trapframe q) x → ¬ B x)).
  { intros j q t Hq Ht. destruct (decide (state q = UNUSED)) as [Hs|Hs]; [destruct (Hu j q Hq Hs); congruence|].
    destruct (Hl j q Hq Hs) as (t' & Ht' & Hh). simplify_eq. eapply holds_moves; [done|done|].
    intros x Hx Hax. by apply (Hpr x j q t (HA x Hax)). }
  assert (Hpipe : ∀ x, pages_of (fs s) x → x ∉ l' ∧ ¬ B x ∧ pmem k' !! x = pmem (mem s) !! x).
  { intros x Hx. destruct (Hfl x Hx) as (Hxl & _). eapply moves_out; [done|done|]. intros Ha. by apply (Hpi x (HA x Ha)). }
  split; [split|split].
  - split; try done.
    + apply Hmv.
    + intros i q Hq Hs. destruct (Hl i q Hq Hs) as (t & Ht & _). exists t. split; [done|]. by apply (Hall i q t).
    + intros x Hx. destruct (Hpipe x Hx) as (? & _ & He). destruct (Hfl x Hx) as (_ & ? & ?). cbn [mem put_mem]. by rewrite He.
  - intros x [[HP Ha]|Hb]; [|by apply (mv_apart _ _ _ _ _ _ _ Hmv)]. by apply (moves_out kend _ _ _ _ _ _ x Hmv (Hfr x HP) Ha).
  - intros x [[HP _]|Hb] Hx; [by apply (Hpi x)|]. by destruct (Hpipe x Hx) as (_ & ? & _).
  - intros x j q u [[HP _]|Hb] Hq Hu2 Ho; [by apply (Hpr x j q u)|]. destruct (Hall j q u Hq Hu2) as (_ & _ & Hn). by apply (Hn x).
  - intros j q u Hq Hu2. by apply (Hall j q u).
  - intros x HP Ha. by apply (moves_out kend _ _ _ _ _ _ x Hmv (Hfr x HP) Ha).
Qed.
Lemma owns_ext T s l P Q : owns T s l P → (∀ x, Q x → P x) → owns T s l Q.
Proof. intros [H1 H2 H3 H4] HQ. split; [done|..]; eauto. Qed.
Lemma owns_same T s s' l P : owns T s l P → procs s' = procs s → mem s' = mem s → (∀ x, pages_of (fs s') x ↔ pages_of (fs s) x) → owns T s' l P.
Proof.
  intros [[Hlen Hk Hu Hl Hsep Hfl Hfsep] H2 H3 H4] Hp Hm Hf. split; [split|..]; rewrite ?Hp, ?Hm; try done.
  - intros x Hx%Hf. by apply Hfl.
  - intros i q t x Hq Ht Ho Hx%Hf. by apply (Hfsep i q t x).
  - intros x HP Hx%Hf. by apply (H3 x).
Qed.

(** ** While a call holds pages *)

Context (s0 : ps) (T : gmap nat ptree).
Notation call := (CallSpec.call kend trampoline cur s0 T).
Context (R : Z → Z) (p : proc).

Lemma call_pages dR hs s l k' : call R dR hs p s → minv (put_mem k' s) l T →
  (∀ j q u, procs s !! j = Some q → T !! j = Some u → intact (mem s) k' u q) → call R dR hs p (put_mem k' s).
Proof.
  intros [H1 H2 Hn H3 H4 H5 H6 H7 H8] Hm Hi. split; try done; [by exists l|destruct H3; by split|].
  eapply apart_trans; [exact H5|]. split; [| |done].
  - intros j q _ Hq. exists q. split; [done|apply sim_refl].
  - intros j q t _ Hq Ht. split; [done|]. by apply (Hi j q t).
Qed.

(** The pages with the arguments, and what they hold. *)
Definition arg_page (args : gmap Z (list Z)) (x : Z) : Prop := is_Some (args !! x).
Definition args_in (args : gmap Z (list Z)) (k : kmem) : Prop :=
  ∀ a x, args !! a = Some x → pmem k !! a = Some x ∧ is_page x ∧ page_ok a.

(** The memory of the process is as it was when the call began. *)
Definition same_space (s : ps) : Prop := ∀ u, T !! cur = Some u → intact (mem s0) (mem s) u p.

Definition ecall (args : gmap Z (list Z)) (hs : list nat) (s : ps) : Prop :=
  call R none hs p s ∧ same_space s ∧ ∃ l, owns T s l (arg_page args) ∧ args_in args (mem s).
(** A new address space [t] of [size] bytes is being built. *)
Definition tcall (args : gmap Z (list Z)) (hs : list nat) (t : ptree) (size : Z) (s : ps) : Prop :=
  call R none hs p s ∧ same_space s ∧ ∃ l, owns T s l (λ x, arg_page args x ∨ upage t x) ∧ args_in args (mem s) ∧
    pspace (mem s) l t (trapframe p) size ∧ ∀ x, upage t x → ¬ arg_page args x.

(** A call that holds nothing yet. *)
Lemma start_ecall l : call R none [] p s0 → minv s0 l T → ecall ∅ [] s0.
Proof.
  intros Hc Hm. split; [exact Hc|]. split; [intros v _; apply intact_refl|]. exists l. split; [|intros a y Ha; by rewrite lookup_empty in Ha].
  split; [done|..]; intros z; [intros [y Hy]..|intros j q v [y Hy]]; by rewrite lookup_empty in Hy.
Qed.

(** A call of the inode layer, and what is known of it there. *)
Lemma ecall_inode {A} (m : M (Inode.fs D) A) (g : A → list nat) (Q : A → Inode.fs D → Prop) args hs s :
  ecall args hs s →
  ((∀ ip, 0 ≤ others_refs s ip < 2 ^ 30) → 0 < others_refs s (iidx (cwd p)) →
   Handles.held (others_refs s) (iidx (cwd p)) hs (ino (fs s)) →
   pwp m (λ a, Handles.held (others_refs s) (iidx (cwd p)) (g a)) (ino (fs s))) →
  gwp total m Q (ino (fs s)) →
  gwp total (inode m) (λ a s', ecall args (g a) s' ∧ mem s' = mem s ∧ Q a (ino (fs s'))) s.
Proof.
  intros (Hc & Hsf & l & Ho & Ha) H HQ. pose proof (call_inodes kend trampoline cur s0 T m g R none hs p s Hc H) as Hp.
  eapply gwp_mono; [eapply gwp_and; [|exact Hp]; do 2 apply gwp_zoom; eapply gwp_mono; [exact HQ|]|].
  - intros a i Hq. exact (conj Hq eq_refl : (λ a s', Q a (ino (fs s')) ∧ s' = put_fs (with_ino (ino (fs s')) (fs s)) s) a (put_fs (with_ino i (fs s)) s)).
  - cbv beta. intros a s' [[Hq Hs'] Hc']. split; [|split; [by rewrite Hs'|done]]. split; [done|]. split; [by rewrite Hs'|]. exists l. rewrite Hs'. split; [by eapply owns_same|done].
Qed.
Lemma tcall_inode {A} (m : M (Inode.fs D) A) (g : A → list nat) (Q : A → Inode.fs D → Prop) args hs t size s :
  tcall args hs t size s →
  ((∀ ip, 0 ≤ others_refs s ip < 2 ^ 30) → 0 < others_refs s (iidx (cwd p)) →
   Handles.held (others_refs s) (iidx (cwd p)) hs (ino (fs s)) →
   pwp m (λ a, Handles.held (others_refs s) (iidx (cwd p)) (g a)) (ino (fs s))) →
  gwp total m Q (ino (fs s)) →
  gwp total (inode m) (λ a s', tcall args (g a) t size s' ∧ mem s' = mem s ∧ Q a (ino (fs s'))) s.
Proof.
  intros (Hc & Hsf & l & Ho & Ha) H HQ. pose proof (call_inodes kend trampoline cur s0 T m g R none hs p s Hc H) as Hp.
  eapply gwp_mono; [eapply gwp_and; [|exact Hp]; do 2 apply gwp_zoom; eapply gwp_mono; [exact HQ|]|].
  - intros a i Hq. exact (conj Hq eq_refl : (λ a s', Q a (ino (fs s')) ∧ s' = put_fs (with_ino (ino (fs s')) (fs s)) s) a (put_fs (with_ino i (fs s)) s)).
  - cbv beta. intros a s' [[Hq Hs'] Hc']. split; [|split; [by rewrite Hs'|done]]. split; [done|]. split; [by rewrite Hs'|]. exists l. rewrite Hs'. split; [by eapply owns_same|done].
Qed.

Lemma space_kept dR hs s k' : call R dR hs p s → same_space s →
  (∀ j q u, procs s !! j = Some q → T !! j = Some u → intact (mem s) k' u q) → same_space (put_mem k' s).
Proof.
  intros Hc Hsf Hint u Hu. eapply intact_trans; [by apply Hsf|]. by apply (Hint cur p u (ca_cur Hc)).
Qed.

(** An operation on the new address space. *)
Lemma tcall_step {A} (m : M kmem A) (Q : A → kmem → ptree → Z → Prop) args hs t size s :
  tcall args hs t size s →
  (∀ l, pspace (mem s) l t (trapframe p) size → ∃ a k' l' t' size', m (mem s) = Ok a k' ∧
     moves (mem s) l (upage t) k' l' (upage t') ∧ pspace k' l' t' (trapframe p) size' ∧ Q a k' t' size') →
  gwp total (on_mem m) (λ a s', fs s' = fs s ∧ ∃ t' size', tcall args hs t' size' s' ∧ Q a (mem s') t' size') s.
Proof.
  intros (Hc & Hsf & l & Ho & Ha & Hp & Hd) H. destruct (H l Hp) as (a & k' & l' & t' & size' & Hrun & Hmv & Hp' & HQ).
  destruct (owns_moves T s l _ _ k' l' _ Ho Hmv) as (Ho' & Hint & Hkeep); [by right|].
  eapply gwp_run; [exact (on_mem_run m s a k' Hrun)|].
  assert (Hd' : ∀ x, upage t' x → ¬ arg_page args x).
  { intros x Hx Hax. assert (x ∈ l ∨ upage t x) as [Hin|Hu] by (apply (mv_pages _ _ _ _ _ _ _ Hmv); by right).
    - by apply (ow_free _ _ _ _ Ho x); [left|].
    - by apply (Hd x). }
  split; [done|]. exists t', size'. split; [|done]. split; [eapply call_pages; [done|apply Ho'|done]|].
  split; [by eapply space_kept|]. exists l'. split; [|split; [|done]].
  - eapply owns_ext; [exact Ho'|]. intros x [Hx|Hx]; [|by right]. left. split; [by left|]. intros Hu. by apply (Hd x).
  - intros b x Hb. destruct (Ha b x Hb) as [Hbx ?]. cbn. rewrite Hkeep; [done|left; by exists x|]. intros Hu. apply (Hd b Hu). by exists x.
Qed.

(** ** Loading the program *)

Section load.
(** Reading the file [ip]: while [J] holds of the inode layer, reading [n] bytes
    at [off] into a buffer or a page [x] returns [r] and makes it [y]. *)
Context (J : Inode.fs D → Prop) (F : Z → Z → Z → list Z → list Z → Prop) (ip : nat).
Hypothesis J_buf : ∀ off n buf i, J i → 0 ≤ off < 2 ^ 32 → 0 ≤ n ≤ 4096 → n ≤ Z.of_nat (length buf) →
  gwp total (FileData.readi_buf ip off n buf) (λ '(r, buf') i', J i' ∧ F off n r buf (u8 <$> buf') ∧ length buf' = length buf) i.
Hypothesis J_page : ∀ pa off n (k : kmem) x i, J i → pa mod 4096 = 0 → 0 ≤ pa < 2 ^ 60 → 0 ≤ off < 2 ^ 32 → 0 ≤ n ≤ 4096 →
  pmem k !! pa = Some x → is_page x →
  gwp total (FileData.readi phys_out ip pa off n (Ok 0 k)) (λ '(r, k') i', J i' ∧
    ∃ y, k' = Ok 0 (MkKmem (freelist k) (<[pa := y]> (pmem k))) ∧ is_page y ∧ F off n r x y) i.

(** Every page of the new program so far is the user's. *)
Definition all_user (k : kmem) (t : ptree) : Prop := ∀ v f x, aspace k t v = Some (f, x) → has f PTE_U = true.
Definition lcall (args : gmap Z (list Z)) (hs : list nat) (t : ptree) (size : Z) (s : ps) : Prop :=
  tcall args hs t size s ∧ J (ino (fs s)) ∧ all_user (mem s) t.

Lemma read_page_call args hs t size s v w x off n :
  lcall args hs t size s → p_leaf t !! v = Some w → v < TFPN → pmem (mem s) !! PTE2PA w = Some x → 0 ≤ off < 2 ^ 32 → 0 ≤ n ≤ 4096 →
  gwp total (read_page ip (PTE2PA w) off n) (λ r s', ∃ y, lcall args hs t size s' ∧ F off n r x y ∧
    aupdate (mem s) t v (Some (PTE_FLAGS w, y)) (mem s') t) s.
Proof.
  intros (Ht & HJ & HU) Hw Hv Hx Hoff Hn. pose proof Ht as (_ & _ & l & _ & _ & Hp & _). pose proof (sp_space _ _ _ _ _ _ _ Hp) as Hu.
  destruct (us_leaf _ _ _ _ Hu v w Hv Hw) as ([Hal Hr] & _ & _ & _ & x' & Hx' & Hpx). rewrite Hx in Hx'. injection Hx' as <-.
  change PHYSTOP with 0x88000000 in Hr. change PGSIZE with 4096 in Hal.
  pose proof (J_page (PTE2PA w) off n (mem s) x (ino (fs s)) HJ Hal ltac:(lia) Hoff Hn Hx Hpx) as Hread.
  pose proof (tcall_inode (FileData.readi phys_out ip (PTE2PA w) off n (Ok 0 (mem s))) (λ _, hs) _ args hs t size s Ht
    (λ _ _ Hh, Handles.held_keeps _ _ _ _ _ (Handles.keeps_readi _ _ _ _ _ _) Hh) Hread) as Hino.
  unfold gwp, read_page, on_file, zoom, mbind, M_bind, gets. cbn [fst]. unfold on_ftab, on_ino, zoom. cbn [snd fst].
  unfold gwp, inode, on_fs, on_ino, zoom in Hino. destruct (FileData.readi phys_out ip (PTE2PA w) off n (Ok 0 (mem s)) (ino (fs s))) as [[r k'] i'| | | |]; try done.
  destruct Hino as (H1 & _ & HJ' & y & -> & Hpy & HF). cbn [resume].
  set (k2 := MkKmem (freelist (mem s)) (<[PTE2PA w := y]> (pmem (mem s)))) in *. set (s1 := put_fs (with_ino i' (fs s)) s) in *.
  pose proof (tcall_step (λ _, Ok r k2) (λ _ k' t' size', t' = t ∧ size' = size ∧ aupdate (mem s) t v (Some (PTE_FLAGS w, y)) k' t) args hs t size s1 H1) as Hstep.
  refine (_ (proj1 (pwp_ok _ _ _) (gwp_partial _ _ _ _ (Hstep _)) r (put_mem k2 s1) eq_refl)); [|clear Hstep].
  { intros (_ & t2 & size2 & H2 & -> & -> & Hup). exists y. split; [|done]. split; [done|]. split; [done|]. intros z f b. rewrite Hup.
    destruct (decide (z = v)) as [->|]; [|apply HU]. intros [= <- <-]. apply (HU v (PTE_FLAGS w) x). unfold aspace. rewrite decide_True, Hw by done. cbn. by rewrite Hx. }
  { intros l1 Hp1. destruct (write_page kend (mem s) l1 t v w x y (sp_space _ _ _ _ _ _ _ Hp1) Hv Hw Hx Hpy) as [Hst Hup].
    exists r, k2, l1, t, size. split; [done|]. split; [by apply ustep_moves|]. split; [|done]. eapply pspace_step; [exact Hp1|exact Hst|].
    eapply sized_update; [exact Hup| |apply Hp1]. unfold aspace. rewrite decide_True, Hw by done. cbn. by rewrite Hx. }
Qed.

(** Reading a header, when the code around it keeps [C]. *)
Lemma read_hdr_call (C : ps → Prop) off n buf s :
  (∀ Q, gwp total (FileData.readi_buf ip off n buf) Q (ino (fs s)) → gwp total (inode (FileData.readi_buf ip off n buf)) (λ a s', C s' ∧ mem s' = mem s ∧ Q a (ino (fs s'))) s) →
  J (ino (fs s)) → 0 ≤ off < 2 ^ 32 → 0 ≤ n ≤ 4096 → n ≤ Z.of_nat (length buf) →
  gwp total (read_hdr ip off n buf) (λ '(r, h) s', (C s' ∧ mem s' = mem s) ∧ J (ino (fs s')) ∧ F off n r buf h ∧ length h = length buf ∧ bytes h) s.
Proof.
  intros HC HJ Hoff Hn Hlen. unfold read_hdr. gwp_use (HC _ (J_buf off n buf (ino (fs s)) HJ Hoff Hn Hlen)). intros [r h] s' (HC' & Hm & HJ' & HF & Hl').
  apply gwp_ret. split; [done|]. split; [done|]. split; [done|]. split; [by rewrite length_fmap|apply bytes_u8].
Qed.

(** Pages [j] and on of a segment of [sz] bytes were read from the file, page by
    page; nothing else changed. *)
Definition seg_from (offset va sz j : Z) (A A' : Z → option (Z * list Z)) : Prop := ∀ v,
  if decide (va / 4096 + j ≤ v < va / 4096 + npages sz) then
    ∃ f x y, let i := 4096 * (v - va / 4096) in
      A v = Some (f, x) ∧ has f PTE_U = true ∧ F (u32 (offset + i)) (Z.min 4096 (sz - i)) (Z.min 4096 (sz - i)) x y ∧ A' v = Some (f, y)
  else A' v = A v.

Lemma perm_user x : has (Z.lor (uperm x) PTE_V) PTE_U = true.
Proof. unfold uperm. by rewrite !has_lor. Qed.
Lemma walkaddr_user k l t va size : UserMem.uspace kend k l t → sized k t size → all_user k t → 0 ≤ va < size → va mod 4096 = 0 →
  ∃ pa, walkaddr (p_root t) va k = Ok pa k ∧ pa ≠ 0.
Proof.
  intros Hu Hs HU Hva Hal. pose proof (sized_bound _ kend_pos _ _ _ _ Hu Hs) as Hb. destruct (walkaddr_run kend kend_pos k l t va Hu ltac:(lia) Hal) as (pa & Hrun & Hres).
  exists pa. split; [done|]. destruct Hres as [[-> Hno]|[? _]]; [|done]. exfalso. destruct Hs as [_ Hs]. destruct (proj2 (Hs (va / 4096))) as [[f x] Has]; [unfold npages; zlia|].
  specialize (Hno 0 ltac:(lia)). rewrite Z.add_0_r in Hno. unfold uread, abyte in Hno. rewrite Has in Hno. cbn in Hno.
  destruct (aspace_Some _ _ _ _ _ _ _ Hu Has) as (_ & w & _ & _ & _ & _ & _ & _ & _ & [Hlx _]).
  destruct (lookup_lt_is_Some_2 x (Z.to_nat (va mod 4096))) as [b Hb']; [rewrite Hal; lia|]. rewrite Hb' in Hno. cbn in Hno. by rewrite (HU _ _ _ Has) in Hno.
Qed.
Lemma loadseg_loop_call args hs t size va offset sz fuel : ∀ j s,
  lcall args hs t size s → 0 ≤ j → va mod 4096 = 0 → 0 ≤ va → 0 ≤ sz → va + sz ≤ size → npages sz ≤ j + Z.of_nat fuel →
  gwp total (loadseg_loop fuel (p_root t) va ip offset sz (4096 * j)) (λ r s', lcall args hs t size s' ∧
    (r = 0 ∧ seg_from offset va sz j (aspace (mem s) t) (aspace (mem s') t) ∨ r = -1)) s.
Proof.
  induction fuel as [|fuel IH]; intros j s Hl Hj Hal Hva Hsz Hfit Hfuel; cbn [loadseg_loop]; (apply gwp_if; intros Hlt;
    [apply bool_decide_eq_true in Hlt|apply bool_decide_eq_false in Hlt]).
  1: exfalso; unfold npages in Hfuel; zlia.
  1, 3: apply gwp_ret; split; [done|]; left; split; [done|]; intros v; rewrite decide_False; [done|unfold npages; zlia].
  pose proof Hl as [(_ & _ & l & _ & _ & Hp & _) [_ HU]]. pose proof (sp_space _ _ _ _ _ _ _ Hp) as Hu. pose proof (sp_sized _ _ _ _ _ _ _ Hp) as Hs.
  pose proof (sized_bound _ kend_pos _ _ _ _ Hu Hs) as Hb0. rewrite (u64_id (va + 4096 * j)) by lia.
  destruct (walkaddr_user (mem s) l t (va + 4096 * j) size Hu Hs HU ltac:(lia) ltac:(zlia)) as (pa & Hw & Hpa).
  gwp_step (on_mem_run _ s pa (mem s) Hw). rewrite bool_decide_false by done. replace (put_mem (mem s) s) with s by by destruct s.
  destruct (walkaddr_leaf kend kend_pos (mem s) l t (va + 4096 * j) pa (mem s) Hu ltac:(lia) ltac:(zlia) Hw Hpa) as (w & x & Hwl & -> & Hlow & HUw & Has & Hx & Hpx).
  assert (Hn : (if bool_decide (u32 (sz - 4096 * j) < PGSIZE) then u32 (sz - 4096 * j) else PGSIZE) = Z.min 4096 (sz - 4096 * j)).
  { rewrite u32_id by (unfold is_u32; lia). change PGSIZE with 4096. case_bool_decide; lia. }
  cbv zeta. rewrite Hn. set (n := Z.min 4096 (sz - 4096 * j)). assert (Hn' : 0 ≤ n ≤ 4096) by lia.
  gwp_use (read_page_call args hs t size s _ w x (u32 (offset + 4096 * j)) n Hl Hwl Hlow Hx); [wrap_lia|done|].
  intros r s1 (y & Hl1 & HF & Hup). apply gwp_if; intros Hr; [apply gwp_ret; split; [done|by right]|]. apply bool_decide_eq_false in Hr.
  assert (r = n) as -> by (destruct (decide (r = n)); [done|by destruct Hr]).
  replace (u32 (4096 * j + PGSIZE)) with (4096 * (j + 1)) by (change PGSIZE with 4096; rewrite u32_id by (unfold is_u32; lia); lia).
  eapply gwp_mono; [apply (IH (j + 1) s1); try done; lia|]. cbv beta. intros r s2 [Hl2 [[-> Hseg]|Hneg]]; [|split; [done|by right]].
  split; [done|]. left. split; [done|]. clear IH. intros v. specialize (Hseg v). specialize (Hup v).
  assert (Hdiv : (va + 4096 * j) / 4096 = va / 4096 + j) by zlia. rewrite Hdiv in Hup, Has.
  destruct (decide (va / 4096 + j ≤ v < va / 4096 + npages sz)) as [Hin|Hout].
  - destruct (decide (v = va / 4096 + j)) as [->|Hne].
    + rewrite decide_False in Hseg by lia. rewrite Hup in Hseg. exists (PTE_FLAGS w), x, y. cbv zeta.
      replace (4096 * (va / 4096 + j - va / 4096)) with (4096 * j) by lia. split; [done|]. split; [by rewrite has_flags|]. done.
    + rewrite decide_True in Hseg by lia. cbv zeta in *. by rewrite Hup in Hseg.
  - rewrite decide_False in Hseg by lia. destruct (decide (v = va / 4096 + j)) as [->|Hne]; [|by rewrite Hseg].
    exfalso. apply Hout. unfold npages. zlia.
Qed.

(** The image that [n] program headers at [off] of the file describe, on top of
    an image [A] of [size] bytes. *)
Inductive elf_loads : nat → Z → (Z → option (Z * list Z)) → Z → (Z → option (Z * list Z)) → Z → Prop :=
  | el_done off A A' size : (∀ v, A' v = A v) → elf_loads 0 off A size A' size
  | el_skip n off h0 h A size A' size' :
      F (u32 off) 56 56 h0 h → ph_type h ≠ ELF_PROG_LOAD →
      elf_loads n (s32 (off + 56)) A size A' size' → elf_loads (S n) off A size A' size'
  | el_load n off h0 h A size A1 A2 A' size' :
      F (u32 off) 56 56 h0 h → ph_type h = ELF_PROG_LOAD →
      ph_filesz h ≤ ph_memsz h → ph_vaddr h + ph_memsz h < 2 ^ 64 → ph_vaddr h mod 4096 = 0 →
      (let size1 := Z.max size (ph_vaddr h + ph_memsz h) in
       (∀ v, A1 v = if decide (npages size ≤ v < npages size1)
                    then Some (Z.lor (uperm (flags2perm (s32 (ph_flags h)))) PTE_V, zeros) else A v) ∧
       seg_from (u32 (ph_off h)) (ph_vaddr h) (ph_filesz h) 0 A1 A2 ∧
       elf_loads n (s32 (off + 56)) A2 size1 A' size') → elf_loads (S n) off A size A' size'.

Lemma flags2perm_range x : 0 ≤ flags2perm x < 1024.
Proof. unfold flags2perm. by destruct (flag x 1), (flag x 2). Qed.

Lemma load_loop_call args hs n : ∀ h0 off size t s,
  lcall args hs t size s → length h0 = 56%nat →
  gwp total (load_loop kend n (p_root t) ip h0 off size) (λ '(ok, size') s', ∃ t', p_root t' = p_root t ∧ lcall args hs t' size' s' ∧
    (ok = true → elf_loads n off (aspace (mem s) t) size (aspace (mem s') t') size')) s.
Proof.
  induction n as [|n IH]; intros h0 off size t s Hl Hh0; cbn [load_loop].
  { apply gwp_ret. exists t. split; [done|]. split; [done|]. intros _. by constructor. }
  change (Z.of_nat sizeof_proghdr) with 56.
  pose proof Hl as (Ht & HJ & HU).
  gwp_use (read_hdr_call (tcall args hs t size) (u32 off) 56 h0 s); [|done|wrap_lia|lia|lia|].
  { intros Q HQ. apply (tcall_inode _ (λ _, hs) Q args hs t size s); [done| |done]. intros _ _ Hh. apply Handles.held_keeps; [apply Handles.keeps_readi_buf|done]. }
  intros [r h] s1 ([Ht1 Hm1] & HJ1 & HF & Hlen & Hb). rewrite Hh0 in Hlen. assert (Hl1 : lcall args hs t size s1) by (split; [done|]; split; [done|by rewrite Hm1]).
  assert (Hstop : ∀ ok size0 (Hok : ok = false) s' t', p_root t' = p_root t → lcall args hs t' size0 s' →
    ∃ t', p_root t' = p_root t ∧ lcall args hs t' size0 s' ∧ (ok = true → elf_loads (S n) off (aspace (mem s) t) size (aspace (mem s') t') size0)).
  { intros ok size0 -> s' t' Hr' Hl'. exists t'. done. }
  apply gwp_if; intros Hr; [apply gwp_ret; by eapply Hstop|]. apply bool_decide_eq_false in Hr.
  assert (r = 56) as -> by (destruct (decide (r = 56)); [done|by destruct Hr]). clear Hr.
  apply gwp_if; intros Hty.
  { apply bool_decide_eq_true in Hty. eapply gwp_mono; [by apply (IH h (s32 (off + 56)) size t s1)|]. cbv beta.
    intros [ok size'] s2 (t' & Hroot & Hl' & Hel). exists t'. split; [done|]. split; [done|]. intros Hok. rewrite Hm1 in Hel. eapply el_skip; eauto. }
  apply bool_decide_eq_false in Hty. assert (Hload : ph_type h = ELF_PROG_LOAD) by (destruct (decide (ph_type h = ELF_PROG_LOAD)); [done|by destruct Hty]).
  apply gwp_if; intros Hms; [apply gwp_ret; by eapply Hstop|]. apply bool_decide_eq_false in Hms.
  apply gwp_if; intros Hov; [apply gwp_ret; by eapply Hstop|]. apply bool_decide_eq_false in Hov.
  apply gwp_if; intros Hal; [apply gwp_ret; by eapply Hstop|]. apply bool_decide_eq_false in Hal.
  assert (Hva : 0 ≤ ph_vaddr h < 2 ^ 64) by (apply (rd_range 8); [done|lia]).
  assert (Hmem : 0 ≤ ph_memsz h < 2 ^ 64) by (apply (rd_range 8); [done|lia]).
  assert (Hfile : 0 ≤ ph_filesz h < 2 ^ 64) by (apply (rd_range 8); [done|lia]).
  assert (Hsum : ph_vaddr h + ph_memsz h < 2 ^ 64) by (revert Hov; wrap_lia).
  assert (Hal' : ph_vaddr h mod 4096 = 0) by (change PGSIZE with 4096 in Hal; destruct (decide (ph_vaddr h mod 4096 = 0)); [done|by destruct Hal]).
  rewrite u64_id by lia. set (newsz := ph_vaddr h + ph_memsz h) in *. set (perm := flags2perm (s32 (ph_flags h))).
  clear Hl1.
  gwp_use (tcall_step _ (λ r k' t' size', p_root t' = p_root t ∧ (r = 0 ∧ size' = size ∧ asame (mem s1) t k' t' ∨ r ≠ 0 ∧ r = Z.max size newsz ∧ size' = r ∧
    afill (mem s1) t (npages size) (npages r - npages size) (Z.lor (uperm perm) PTE_V) k' t')) args hs t size s1 Ht1).
  { intros l Hp. destruct (uvmalloc_sized kend trampoline kend_pos (mem s1) l t _ size newsz perm Hp ltac:(lia) (flags2perm_range _)) as (r & k' & l' & t' & Hrun & Hst & Hres).
    destruct Hres as [(-> & Hsame & Hp')|(Hr0 & Hrm & Hp' & Hf)]; eexists _, k', l', t', _; (split; [exact Hrun|]; split; [by apply ustep_moves|]; split; [exact Hp'|]).
    - split; [apply Hst|by left].
    - split; [apply Hst|by right]. }
  intros r s2 (Hfs & t2 & size2 & Ht2 & Hroot2 & Hres).
  apply gwp_if; intros Hr; [apply bool_decide_eq_true in Hr as ->|apply bool_decide_eq_false in Hr].
  { destruct Hres as [(_ & -> & Hsame)|[? _]]; [|done]. apply gwp_ret. eapply Hstop; [done|done|]. split; [done|]. split; [by rewrite Hfs|].
    intros v f x. rewrite Hsame, Hm1. apply HU. }
  destruct Hres as [[? _]|(_ & -> & -> & Hfill)]; [done|]. rewrite <-Hroot2.
  assert (Hl2 : lcall args hs t2 (Z.max size newsz) s2).
  { split; [done|]. split; [by rewrite Hfs|]. intros v f x. rewrite Hfill. destruct (decide _); [intros [= <- <-]; apply perm_user|]. rewrite Hm1. apply HU. }
  pose proof Ht2 as (_ & _ & l2 & _ & _ & Hp2 & _). pose proof (sized_bound _ kend_pos _ _ _ _ (sp_space _ _ _ _ _ _ _ Hp2) (sp_sized _ _ _ _ _ _ _ Hp2)) as Hbound.
  rewrite (u32_id (ph_filesz h)) by (unfold is_u32, newsz in *; lia). unfold loadseg.
  gwp_use (loadseg_loop_call args hs t2 (Z.max size newsz) (ph_vaddr h) (u32 (ph_off h)) (ph_filesz h) _ 0 s2 Hl2); [lia|done|lia|lia|unfold newsz; lia|unfold npages; change PGSIZE with 4096; zlia|].
  intros r s3 [Hl3 Hseg]. apply gwp_if; intros Hneg; [apply gwp_ret; by exists t2|]. apply bool_decide_eq_false in Hneg.
  destruct Hseg as [[-> Hseg]| ->]; [|lia].
  eapply gwp_mono; [by apply (IH h (s32 (off + 56)) _ t2 s3)|]. cbv beta. intros [ok size'] s4 (t' & Hroot & Hl' & Hel).
  exists t'. split; [congruence|]. split; [done|]. intros Hok. eapply el_load; [exact HF|done|lia|done|done|]. cbv zeta. fold newsz.
  split; [|split; [exact Hseg|by apply Hel]]. rewrite <-Hm1. intros v. rewrite Hfill. by replace (npages size + _) with (npages (Z.max size newsz)) by lia.
Qed.
End load.

(** ** Giving up *)

Definition lets_go (ip : nat) (s : ps) : Prop := gwp total (Inode.iunlockput ip) (λ _ _, True) (ino (fs s)).
Lemma exec_bad_none args hs ip s : ecall args hs s → hs = [ip] → lets_go ip s → gwp total (exec_bad kend 0 0 (Some ip)) (λ r s', r = -1 ∧ ecall args [] s') s.
Proof.
  intros He -> Hgo. unfold exec_bad. rewrite bool_decide_false by (by intros []). cbn [when]. gwp_enter. apply gwp_ret.
  gwp_use (ecall_inode (Inode.iunlockput ip) (λ _, []) (λ _ _, True) args [ip] s He); [|exact Hgo|intros _ s1 [H1 _]; by apply gwp_ret].
  intros ? ? Hh. by apply Handles.held_iunlockput.
Qed.
(** The new address space is freed. *)
Lemma free_table_call args hs t size s : tcall args hs t size s →
  gwp total (on_mem (proc_freepagetable kend (p_root t) size)) (λ _ s', ecall args hs s' ∧ fs s' = fs s) s.
Proof.
  intros (Hc & Hsf & l & Ho & Ha & Hp & Hd). destruct (proc_freepagetable_spec kend trampoline kend_pos (mem s) l t _ size Hp) as (k' & l' & Hrun & Hmv).
  destruct (owns_moves T s l _ _ k' l' _ Ho Hmv) as (Ho' & Hint & Hkeep); [by right|].
  eapply gwp_run; [exact (on_mem_run _ s tt k' Hrun)|]. split; [|done].
  split; [eapply call_pages; [done|apply Ho'|done]|]. split; [by eapply space_kept|]. exists l'. split.
  - eapply owns_ext; [exact Ho'|]. intros x Hx. left. split; [by left|]. intros Hu. by apply (Hd x).
  - intros b x Hb. destruct (Ha b x Hb) as [Hbx ?]. cbn. rewrite Hkeep; [done|left; by exists x|]. intros Hu. apply (Hd b Hu). by exists x.
Qed.
Lemma tcall_root args hs t size s : tcall args hs t size s → p_root t ≠ 0.
Proof.
  intros (_ & _ & l & _ & _ & Hp & _). pose proof (pr_ok _ _ _ (vs_rep _ _ _ _ (us_st _ _ _ _ (sp_space _ _ _ _ _ _ _ Hp))) (p_root t)) as Hok.
  destruct Hok as [_ Hr]; [by exists TRoot|]. lia.
Qed.
Lemma exec_bad_table args hs t size o s : tcall args hs t size s → hs = got o → (∀ ip, o = Some ip → lets_go ip s) →
  gwp total (exec_bad kend (p_root t) size o) (λ r s', r = -1 ∧ ecall args [] s') s.
Proof.
  intros Ht -> Hgo. unfold exec_bad. rewrite bool_decide_true by (by eapply tcall_root). cbn [when]. gwp_use free_table_call; [exact Ht|].
  intros _ s1 [H1 Hfs]. destruct o as [ip|]; [|apply gwp_ret, gwp_ret; done]. specialize (Hgo ip eq_refl). unfold lets_go in Hgo. rewrite <-Hfs in Hgo.
  gwp_use (ecall_inode (Inode.iunlockput ip) (λ _, []) (λ _ _, True) args [ip] s1 H1); [|exact Hgo|intros _ s2 [H2 _]; by apply gwp_ret].
  intros ? ? Hh. by apply Handles.held_iunlockput.
Qed.

(** ** The stack *)

(** The string at the start of a page, with its null. *)
Definition zstr (x : list Z) : list Z := match Str.strlen x with Some n => take (S (Z.to_nat n)) x | None => [] end.
(** In a page with a string, the string ends. *)
Definition strings (args : gmap Z (list Z)) : Prop := ∀ a x, args !! a = Some x → is_Some (Str.strlen x).
(** The strings of an [argv] array. *)
Fixpoint arg_strs (args : gmap Z (list Z)) (argv : list Z) : list (list Z) :=
  match argv with
  | [] => []
  | a :: argv => if bool_decide (a = 0) then [] else zstr (default [] (args !! a)) :: arg_strs args argv
  end.

Lemma kstr_call args hs t size s a x :
  tcall args hs t size s → args !! a = Some x → (total = true → is_Some (Str.strlen x)) → gwp total (on_mem (kstr a)) (λ bs s', s' = s ∧ bs = zstr x ∧ bytes bs ∧ Z.of_nat (length bs) ≤ 4096) s.
Proof.
  intros (_ & _ & l & _ & Ha & _) Hx Hstr. destruct (Ha a x Hx) as (Hm & [Hl Hb] & _). apply gwp_zoom. unfold kstr, load_page.
  do 2 apply gwp_bind. apply gwp_get. rewrite Hm. apply gwp_ret, gwp_bind, gwp_of_option; [|done]. intros n Hn. apply gwp_ret.
  split; [by destruct s|]. unfold zstr. rewrite Hn. split; [done|]. split; [by apply bytes_take|]. rewrite length_take. lia.
Qed.

Lemma copyout_stack args hs t size s va bs :
  tcall args hs t size s → 0 ≤ va < 2 ^ 64 → bytes bs → (∀ i : nat, (i < length bs)%nat → uwritable (mem s) t (va + Z.of_nat i) = true) →
  gwp total (on_mem (copyout (p_root t) va bs)) (λ r s', r = 0 ∧ tcall args hs t size s' ∧ fs s' = fs s ∧ written (mem s) t va bs (mem s')) s.
Proof.
  intros Ht Hva Hb Hok.
  eapply gwp_mono; [apply (tcall_step _ (λ r k' t' size', r = 0 ∧ t' = t ∧ size' = size ∧ written (mem s) t va bs k') args hs t size s Ht)|].
  - intros l Hp. pose proof (sp_space _ _ _ _ _ _ _ Hp) as Hu.
    destruct (copyout_loop_spec kend kend_pos (length bs) (mem s) l t va bs Hu Hva Hb) as (r & k' & Hrun & Hst & m & Hw & Hres); [lia|].
    destruct Hres as [[-> ->]|(_ & Hm & Hno)]; [|by rewrite Hok in Hno by done]. rewrite firstn_all in Hw.
    exists 0, k', l, t, size. split; [exact Hrun|]. split; [by apply ustep_moves|]. split; [|done].
    eapply pspace_step; [exact Hp|exact Hst|]. eapply sized_tree; [exact Hu|apply Hst|apply Hp].
  - cbv beta. intros r s' (Hfs & t' & size' & Ht' & -> & -> & -> & Hw). done.
Qed.

(** The strings are pushed between [base] and [sp]; everything else stays. *)
Lemma push_args_call args hs t size base top argv : ∀ sp us s,
  tcall args hs t size s → 4096 ≤ base → base ≤ sp ≤ top → top < 2 ^ 60 →
  (∀ va, base ≤ va < top → uwritable (mem s) t va = true) →
  (∀ a, a ∈ argv → a = 0 ∨ arg_page args a) → (total = true → strings args ∧ 0 ∈ argv) →
  gwp total (push_args argv (p_root t) base sp us) (λ o s', tcall args hs t size s' ∧ fs s' = fs s ∧
    (∀ va, ¬ (base ≤ va < sp) → abyte (mem s') t va = abyte (mem s) t va) ∧
    (∀ va, uwritable (mem s') t va = uwritable (mem s) t va) ∧
    ∀ sp' us', o = Some (sp', us') → ∃ ptrs, us' = us ++ ptrs ∧ base ≤ sp' ≤ sp ∧ (sp mod 16 = 0 → sp' mod 16 = 0) ∧
      Forall2 (λ ptr str, sp' ≤ ptr ∧ ptr + Z.of_nat (length str) ≤ sp ∧ ubytes (mem s') t ptr str) ptrs (arg_strs args argv)) s.
Proof.
  induction argv as [|a argv IH]; intros sp us s Ht Hbase Hsp Htop Hok Hin Hend; cbn [push_args].
  { unfold gwp, undef. destruct total; [|done]. by destruct (Hend eq_refl) as [_ []%not_elem_of_nil]. }
  apply gwp_if; intros Ha0; [apply bool_decide_eq_true in Ha0 as ->|apply bool_decide_eq_false in Ha0].
  { apply gwp_ret. split; [done|]. split; [done|]. split; [done|]. split; [done|]. intros sp' us' [= <- <-]. exists [].
    rewrite app_nil_r. split; [done|]. split; [lia|]. split; [done|]. constructor. }
  apply gwp_if; intros _; [apply gwp_ret; split; [done|]; done|].
  destruct (Hin a) as [?|[x Hx]]; [left|done|]. gwp_use (kstr_call args hs t size s a x Ht Hx); [intros Ht1; by apply (proj1 (Hend Ht1) a x)|]. intros bs s' (-> & -> & Hb & Hlen). cbv zeta.
  rewrite u64_id by lia. set (sp1 := sp - Z.of_nat (length (zstr x))). set (sp2 := sp1 - sp1 mod 16).
  assert (Hmod : sp2 mod 16 = 0 ∧ sp1 - 16 < sp2 ≤ sp1) by (unfold sp2; zlia).
  assert (Hsp1 : sp1 = sp - Z.of_nat (length (zstr x))) by done. clearbody sp1 sp2.
  apply gwp_if; intros Hroom; [apply gwp_ret; split; [done|]; done|]. apply bool_decide_eq_false in Hroom.
  gwp_use (copyout_stack args hs t size s sp2 (zstr x) Ht); [lia|done|intros i Hi; apply Hok; lia|].
  intros r s1 (-> & Ht1 & Hfs1 & Hw1). rewrite bool_decide_false by lia.
  assert (Hwr : ∀ va, uwritable (mem s1) t va = uwritable (mem s) t va) by (intros va; by eapply uwritable_written).
  eapply gwp_mono; [apply (IH sp2 (us ++ [sp2]) s1); try done; [lia|intros va Hva; rewrite Hwr; by apply Hok|intros b Hb'; apply Hin; by right|]|].
  { intros Ht3. destruct (Hend Ht3) as [? [?|?]%elem_of_cons]; [congruence|done]. }
 
  cbv beta. intros o s2 (Ht2 & Hfs2 & Hab2 & Hwr2 & Hres). split; [done|]. split; [congruence|]. split; [|split].
  - intros va Hva. rewrite Hab2 by lia. rewrite Hw1. by rewrite decide_False by lia.
  - intros va. by rewrite Hwr2.
  - intros sp' us' Ho. destruct (Hres sp' us' Ho) as (ptrs & -> & Hsp' & Hm' & Hall). exists (sp2 :: ptrs). split; [by rewrite <-app_assoc|].
    split; [lia|]. split; [intros _; apply Hm', Hmod|]. cbn [arg_strs]. rewrite bool_decide_false by done. rewrite Hx. change (default [] (Some x)) with x. constructor.
    + split; [lia|]. split; [lia|]. eapply ubytes_same; [eapply written_ubytes; [exact Hw1|]|].
      * intros i Hi. apply Hok. lia.
      * intros b Hb'. apply Hab2. lia.
    + eapply Forall2_impl; [exact Hall|]. cbv beta. intros ptr str (? & ? & ?). split; [done|]. split; [lia|done].
Qed.

(** ** Switching to the new program *)

(** A write to a page outside an address space. *)
Lemma pspace_write k l t tf size a x y :
  pspace k l t tf size → ¬ upage t a → a ∉ l → pmem k !! a = Some x →
  let k1 := MkKmem (freelist k) (<[a := y]> (pmem k)) in
  moves k l (eq a) k1 l (eq a) ∧ pspace k1 l t tf size ∧ asame k t k1 t.
Proof.
  intros [Hu Hhi Hsz] Hn Hl Hx k1.
  assert (Hmv : moves k l (eq a) k1 l (eq a)).
  { split; [|done| |].
    - apply kinv_write; [apply (vs_kinv _ _ _ _ (us_st _ _ _ _ Hu))|done].
    - by intros z <-.
    - intros q Hq. cbn. rewrite lookup_insert_ne; [done|]. intros ->. apply Hq. by right. }
  split; [done|]. destruct (uspace_moves kend k l (eq a) k1 l (eq a) t Hmv Hu) as (Hu' & Has & _); [by intros z Hz <-|].
  split; [|done]. split; [done|done|]. destruct Hsz as [Hr Hv]. split; [done|]. intros v. by rewrite Has.
Qed.

(** The call holds pages, whatever became of the process. *)
Definition xcall (args : gmap Z (list Z)) (T' : gmap nat ptree) (s : ps) : Prop :=
  ∃ l', owns T' s l' (arg_page args) ∧ args_in args (mem s) ∧ finv s ∧ sinv s ∧ spared cur s0 T s T' ∧
    ∃ q, procs s !! cur = Some q ∧ state q ≠ UNUSED.
Lemma ecall_xcall args s : ecall args [] s → xcall args T s.
Proof.
  intros (Hc & _ & l & Ho & Ha). exists l. split; [done|]. split; [done|]. split; [by eapply call_finv|].
  split; [apply Hc|]. split; [apply spared_apart, Hc|]. exists p. split; [apply Hc|]. by rewrite (ca_run Hc).
Qed.

(** The process after [exec]: its trap frame and its new address space, which is
    as it was built. *)
Record swapped (A : Z → option (Z * list Z)) (t : ptree) (size sp entry : Z) (s' : ps) : Prop := {
  sw_proc : ∃ nm, procs s' !! cur = Some (set_sz size (set_pagetable (p_root t) (set_name nm p)));
  sw_image v : aspace (mem s') t v = A v;
  sw_frame x : pmem (mem s0) !! trapframe p = Some x →
    pmem (mem s') !! trapframe p = Some (wr 8 tf_sp sp (wr 8 tf_epc entry (wr 8 tf_a1 sp x)));
}.
Lemma last_elem_some path : 0 ∈ path → ∀ last, is_Some (last_elem path last).
Proof.
  induction path as [|c path IH]; [by intros []%not_elem_of_nil|]. intros [<-|Hz]%elem_of_cons last; cbn [last_elem]; [by eexists|].
  repeat case_bool_decide; [by eexists|by apply IH..].
Qed.
Lemma last_elem_ends path : ∀ last l, 0 ∈ path → 0 ∈ last → last_elem path last = Some l → 0 ∈ l.
Proof.
  induction path as [|c path IH]; [done|]. intros last l [<-|Hz]%elem_of_cons Hl; cbn [last_elem]; [by intros [= <-]|].
  repeat case_bool_decide; [by intros [= <-]|by apply IH..].
Qed.
Lemma last_name path last (nm : list Z) : 0 ∈ path → last_elem path path = Some last → length nm = 16%nat → is_Some (Str.safestrcpy nm last 16).
Proof.
  intros Hz Hl Hn. unfold Str.safestrcpy. rewrite bool_decide_false by lia.
  destruct (Str.safestrcpy_loop_spec 15 nm last ltac:(lia)) as (nm' & Hs & _); [right; by eapply last_elem_ends|]. by exists nm'.
Qed.
Lemma exec_commit_call args t size path sp entry s :
  tcall args [] t size s → (total = true → 0 ∈ path) → gwp total (exec_commit kend cur path (p_root t) size (sz p) sp entry) (λ _ s', xcall args (<[cur := t]> T) s' ∧ swapped (aspace (mem s) t) t size sp entry s') s.
Proof.
  intros (Hc & Hsf & l & Ho & Ha & Hp & Hd) Hpath. pose proof (ca_cur Hc) as Hcur. pose proof (ca_run Hc) as Hrun. pose proof (ow_minv _ _ _ _ Ho) as Hm.
  destruct (mi_live _ _ _ _ _ Hm cur p Hcur ltac:(congruence)) as (told & Htold & [Hroot Hold (Htfok & Htfl & x0 & Hx0 & Hpx0) Hself]).
  assert (Hown : ∀ x, upage t x → ¬ own told (trapframe p) x) by (intros x Hx; by apply (ow_proc _ _ _ _ Ho x cur p told (or_intror Hx))).
  unfold exec_commit. gwp_step (getp_run cur p s Hcur). gwp_step (on_mem_run _ s tt _ (tf_put_run (mem s) _ tf_a1 sp x0 Hx0)).
  apply gwp_bind, gwp_of_option; [|intros Ht; by apply last_elem_some, Hpath]. intros last Hlast.
  apply gwp_bind, gwp_of_option; [|intros Ht; apply (last_name path last (name p)); [by apply Hpath|done|apply (sh_fd _ (ca_shape Hc) cur p Hcur)]]. intros nm Hnm.
  gwp_enter. eapply gwp_run; [apply (setp_run cur p); exact Hcur|]. gwp_enter. eapply gwp_run; [apply (setp_run cur (set_name nm p)); by eapply put_proc_lookup|].
  gwp_enter. eapply gwp_run; [apply on_mem_run, tf_put_run; cbn; apply lookup_insert_eq|].
  gwp_enter. eapply gwp_run; [apply on_mem_run, tf_put_run; cbn; apply lookup_insert_eq|].
  set (p' := set_sz size (set_pagetable (p_root t) (set_name nm p))). set (x3 := wr 8 tf_sp sp (wr 8 tf_epc entry (wr 8 tf_a1 sp x0))).
  assert (Hpx3 : is_page x3) by (unfold x3; do 3 (apply is_page_wr; [|unfold tf_sp, tf_epc, tf_a1; lia]); done).
  assert (Hx3 : x3 = wr 8 tf_sp sp (wr 8 tf_epc entry (wr 8 tf_a1 sp x0))) by done.
  set (k1 := MkKmem (freelist (mem s)) (<[trapframe p := x3]> (pmem (mem s)))).
  match goal with |- gwp _ _ _ ?S => replace S with (put_mem k1 (put_proc cur p' s)) end.
  2:{ unfold put_mem, put_proc, k1, x3. cbn [procs mem nextpid initproc fs pmem freelist]. by rewrite list_insert_insert_eq, !insert_insert_eq. }
  clearbody x3.
  destruct (pspace_write (mem s) l told (trapframe p) (sz p) (trapframe p) x0 x3 Hold Hself Htfl Hx0) as (Hmv1 & Hold1 & _).
  assert (Hnt : ¬ upage t (trapframe p)) by (intros Hx; apply (Hown _ Hx); by right).
  destruct (pspace_write (mem s) l t (trapframe p) size (trapframe p) x0 x3 Hp Hnt Htfl Hx0) as (_ & Hp1 & Has1). fold k1 in Hmv1, Hold1, Hp1, Has1.
  destruct (proc_freepagetable_spec kend trampoline kend_pos k1 l told (trapframe p) (sz p) Hold1) as (k' & l' & Hfree & Hmv2).
  rewrite <-Hroot. eapply gwp_run; [exact (on_mem_run _ (put_mem k1 (put_proc cur p' s)) tt k' Hfree)|].
  change (put_mem k' (put_mem k1 (put_proc cur p' s))) with (put_mem k' (put_proc cur p' s)).
  (** The page table and the trap frame of the process. *)
  assert (Hh1 : holds kend trampoline k1 l t p').
  { split; [done|done| |done]. split; [done|]. split; [done|]. exists x3. unfold k1. cbn [pmem]. by rewrite lookup_insert_eq. }
  destruct (holds_moves kend trampoline k1 l _ k' l' _ t p' Hmv2 Hh1) as (Hh' & [Has2 Htf2] & _).
  { intros x [Hx| ->] Hu; [by apply (Hown x Hx); left|by apply Hself]. }
  set (A := λ x, own told (trapframe p) x ∨ upage t x).
  assert (Hmv : moves (mem s) l A k' l' (own t (trapframe p))).
  { assert (HA : ∀ x, A x → x ∉ l) by (intros x [[Hx| ->]|Hx]; [by eapply upage_apart; [apply Hold|]|done|by eapply upage_apart; [apply Hp|]]).
    assert (HAx : ∀ x, trapframe p = x ∨ A x ∧ x ≠ trapframe p ↔ A x).
    { intros x. split; [intros [<-|[? _]]; [left; by right|done]|]. intros Hx. destruct (decide (x = trapframe p)) as [->|]; [by left|by right]. }
    eapply (moves_trans _ _ _ _ k1 l A).
    - eapply moves_ext; [apply (moves_frame _ _ _ _ _ _ _ (λ x, A x ∧ x ≠ trapframe p) Hmv1)|..].
      + intros x [Hx Hne]. split; [by apply HA|done].
      + exact HAx.
      + exact HAx.
    - eapply moves_ext; [apply (moves_frame _ _ _ _ _ _ _ (own t (trapframe p)) Hmv2)|..].
      + intros x [Hx| ->]; [|done]. split; [by eapply upage_apart; [apply Hp|]|]. intros Hu. apply (Hown x Hx). by left.
      + intros x. unfold A, own. tauto.
      + intros x. unfold nothing. tauto. }
  destruct (minv_update_gen kend trampoline s l T cur p p' k' l' (<[cur := t]> T) A _ (put_mem k' (put_proc cur p' s)) Hm Hcur Hmv) as [Hm' Hint]; try done.
  { intros x [Hx|Hx]; split.
    - by apply (mi_fsep _ _ _ _ _ Hm cur p told x).
    - intros j q u Hj Hq Hu Hox. by apply (mi_sep _ _ _ _ _ Hm cur j p q told u x Hcur Hq Htold Hu (not_eq_sym Hj) Hx).
    - apply (ow_pipe _ _ _ _ Ho). by right.
    - intros j q u Hj Hq Hu. apply (ow_proc _ _ _ _ Ho x j q u); [by right|done|done]. }
  { intros j Hj. by rewrite lookup_insert_ne. }
  { cbn. congruence. }
  { intros _. exists t. rewrite lookup_insert_eq. done. }
  assert (Hargs : ∀ x, arg_page args x → x ∉ l' ∧ ¬ own t (trapframe p) x ∧ pmem k' !! x = pmem (mem s) !! x).
  { intros x Hx. eapply moves_out; [exact Hmv|by apply (ow_free _ _ _ _ Ho); left|]. intros [Hox|Hux]; [|by apply (Hd x)].
    by apply (ow_proc _ _ _ _ Ho x cur p told (or_introl Hx) Hcur Htold). }
  split; [|split].
  - exists l'. split; [|split; [|split; [|split; [|split]]]].
    + split; [done|..].
      * intros x Hx. by apply Hargs.
      * intros x Hx. apply (ow_pipe _ _ _ _ Ho). by left.
      * intros x j q u Hx Hq Hu. cbn in Hq. apply list_lookup_insert_Some in Hq as [(<- & <- & _)|[Hj Hq]].
        -- rewrite lookup_insert_eq in Hu. injection Hu as <-. by apply Hargs.
        -- rewrite lookup_insert_ne in Hu by done. apply (ow_proc _ _ _ _ Ho x j q u); [by left|done|done].
    + intros a x Hx. destruct (Ha a x Hx) as (Hax & ? & ?). destruct (Hargs a) as (_ & _ & He); [by exists x|]. cbn. by rewrite He.
    + pose proof (call_finv kend trampoline cur s0 T R p s Hc) as Hf. destruct (fi_fd _ _ Hf cur p Hcur) as [Hl1 Hl2].
      eapply (finv_slot None None s _ cur p'); try done.
      * eapply fok_ext; [apply (fi_ok _ _ Hf)|..]; intros x; cbn; rewrite (sum_over_insert _ _ cur p) by done; unfold nfd, ncwd; cbn; lia.
      * cbn. by rewrite (Str.safestrcpy_length _ _ _ _ Hnm).
      * intros [?|?]; cbn in *; congruence.
      * intros _ _. apply (fi_cwd _ _ Hf cur p); congruence.
    + apply (sinv_put s cur p p'); [apply Hc|done|cbn; congruence|cbn; congruence].
    + apply spared_apart. eapply apart_trans; [apply (ca_apart Hc)|]. split; [| |done].
      * intros j q Hj Hq. exists q. cbn. rewrite list_lookup_insert_ne by done. split; [done|apply sim_refl].
      * intros j q u Hj Hq Hu. rewrite lookup_insert_ne by done. split; [done|]. by apply (Hint j q u).
    + exists p'. split; [by eapply put_proc_lookup|cbn; congruence].
  - exists nm. by eapply (put_proc_lookup cur p' p).
  - intros v. rewrite Has2. apply Has1.
  - intros x Hx. rewrite <-(proj2 (Hsf told Htold)), Hx0 in Hx. injection Hx as <-. cbn [mem put_mem]. change (trapframe p') with (trapframe p) in Htf2. rewrite Htf2. cbn [pmem k1]. by rewrite lookup_insert_eq, Hx3.
Qed.

(** ** Building the stack *)

Lemma tcall_bound args hs t size s : tcall args hs t size s → 0 ≤ size ≤ 0x88000000.
Proof.
  intros (_ & _ & l & _ & _ & [Hu _ Hs] & _). pose proof (sized_bound kend kend_pos _ _ _ _ Hu Hs). destruct Hs. lia.
Qed.
Lemma npages_pages n : npages (4096 * n) = n.
Proof. unfold npages. zlia. Qed.
Lemma tcall_round args hs t size s : tcall args hs t size s → tcall args hs t (4096 * npages size) s ∧ PGROUNDUP size = 4096 * npages size.
Proof.
  intros Ht. pose proof (tcall_bound _ _ _ _ _ Ht) as Hb. destruct Ht as (Hc & Hsf & l & Ho & Ha & [Hu Hhi [Hr Hv]] & Hd).
  split; [|apply PGROUNDUP_npages; done]. split; [done|]. split; [done|]. exists l. split; [done|]. split; [done|]. split; [|done].
  split; [done|done|]. split; [change TRAPFRAME with (2 ^ 38 - 8192); unfold npages; zlia|]. intros v. by rewrite npages_pages.
Qed.

(** The arguments as the new program finds them: the words at [sp] point to the
    strings, all in the page at [base]. *)
Definition laid_out (k : kmem) (t : ptree) (base : Z) (strs : list (list Z)) (sp : Z) : Prop :=
  sp mod 16 = 0 ∧ base ≤ sp ∧ ∃ ptrs, ubytes k t sp (concat (le_to 8 <$> ptrs ++ [0])) ∧
    Forall2 (λ ptr str, sp ≤ ptr ∧ ptr + Z.of_nat (length str) ≤ base + 4096 ∧ ubytes k t ptr str) ptrs strs.
(** An image [A] of [n] pages, with a guard page and a stack page added. *)
Definition with_stack (A : Z → option (Z * list Z)) (n : Z) (A' : Z → option (Z * list Z)) : Prop :=
  (∀ v, v < n → A' v = A v) ∧
  (∃ f x, A' n = Some (f, x) ∧ has f PTE_U = false) ∧
  (∃ f x, A' (n + 1) = Some (f, x) ∧ has f PTE_U = true ∧ has f PTE_W = true ∧ has f PTE_X = false) ∧
  (∀ v, n + 2 ≤ v → A' v = None).

Lemma concat_words_length l : length (concat (le_to 8 <$> l)) = (8 * length l)%nat.
Proof. induction l as [|x l IH]; [done|]. rewrite fmap_cons. cbn [concat length]. rewrite length_app, length_le_to, IH. lia. Qed.
Lemma concat_words_bytes l : bytes (concat (le_to 8 <$> l)).
Proof. induction l as [|x l IH]; [constructor|]. rewrite fmap_cons. cbn [concat]. apply bytes_app. split; [apply bytes_le_to|done]. Qed.

Notation stack_perm := (Z.lor (uperm PTE_W) PTE_V).
(** The strings end, and so does the array. *)
Definition ends (args : gmap Z (list Z)) (argv path : list Z) : Prop :=
  strings args ∧ 0 ∈ argv ∧ Z.of_nat (length argv) ≤ MAXARG ∧ 0 ∈ path.
Lemma arg_strs_length args argv : 0 ∈ argv → (length (arg_strs args argv) < length argv)%nat.
Proof.
  induction argv as [|a argv IH]; [by intros []%not_elem_of_nil|]. cbn. case_bool_decide as Ha; [cbn; lia|].
  intros [?|Hz]%elem_of_cons; [congruence|]. specialize (IH Hz). cbn. lia.
Qed.
Lemma exec_stack_call args argv path t size entry s :
  tcall args [] t size s → (∀ a, a ∈ argv → a = 0 ∨ arg_page args a) → (total = true → ends args argv path) →
  gwp total (exec_stack kend cur path argv (p_root t) size entry) (λ r s', r = -1 ∧ ecall args [] s' ∨
    r = Z.of_nat (length (arg_strs args argv)) ∧ ∃ t' A' sp, xcall args (<[cur := t']> T) s' ∧ swapped A' t' (4096 * npages size + 8192) sp entry s' ∧
      with_stack (aspace (mem s) t) (npages size) A' ∧ laid_out (mem s') t' (4096 * npages size + 4096) (arg_strs args argv) sp) s.
Proof.
  intros Ht Hin Hend. unfold exec_stack. pose proof Ht as (Hc & _). gwp_step (getp_run cur p s (ca_cur Hc)). cbv zeta.
  destruct (tcall_round _ _ _ _ _ Ht) as [Htr ->]. pose proof (tcall_bound _ _ _ _ _ Ht) as Hb. set (n := npages size) in *.
  assert (Hn : 0 ≤ n ≤ 0x88000) by (unfold n, npages; zlia). change ((USERSTACK + 1) * PGSIZE) with 8192. change (USERSTACK * PGSIZE) with 4096.
  rewrite (u64_id (4096 * n + 8192)) by lia.
  gwp_use (tcall_step _ (λ r k' t' size', p_root t' = p_root t ∧ (r = 0 ∧ size' = 4096 * n ∨
    r = 4096 * n + 8192 ∧ size' = r ∧ afill (mem s) t n 2 stack_perm k' t')) args [] t (4096 * n) s Htr).
  { intros l Hp. destruct (uvmalloc_sized kend trampoline kend_pos (mem s) l t _ (4096 * n) (4096 * n + 8192) PTE_W Hp ltac:(lia) ltac:(done)) as (r & k' & l' & t' & Hrun & Hst & Hres).
    exists r, k', l', t'. destruct Hres as [(-> & _ & Hp')|(Hr0 & Hrm & Hp' & Hf)]; eexists; (split; [exact Hrun|]; split; [by apply ustep_moves|]; split; [exact Hp'|]).
    - split; [apply Hst|by left].
    - split; [apply Hst|right]. rewrite Z.max_r in Hrm by lia. split; [done|]. split; [done|]. rewrite Hrm in Hf.
      replace (npages (4096 * n + 8192)) with (n + 2) in Hf by (unfold npages; zlia). rewrite npages_pages in Hf. by replace (n + 2 - n) with 2 in Hf by lia. }
  intros r s1 (_ & t1 & size1 & Ht1 & Hroot1 & Hres). rewrite <-Hroot1.
  apply gwp_if; intros Hr; [apply bool_decide_eq_true in Hr as ->|apply bool_decide_eq_false in Hr].
  { destruct Hres as [[_ ->]|[? _]]; [|lia]. eapply gwp_mono; [by apply (exec_bad_table args [] t1 _ None)|]. intros r s2 Hs2. by left. }
  destruct Hres as [[? _]|(-> & -> & Hfill)]; [done|]. rewrite !u64_id by lia. replace (4096 * n + 8192 - 8192) with (4096 * n) by lia.
  replace (4096 * n + 8192 - 4096) with (4096 * n + 4096) by lia.
  (** The guard page. *)
  gwp_use (tcall_step _ (λ _ k' t' size', p_root t' = p_root t1 ∧ size' = 4096 * n + 8192 ∧
    aupdate (mem s1) t1 n (Some (Z.land stack_perm 0x3EF, zeros)) k' t') args [] t1 (4096 * n + 8192) s1 Ht1).
  { intros l Hp. assert (Hg : aspace (mem s1) t1 (4096 * n / 4096) = Some (stack_perm, zeros)).
    { replace (4096 * n / 4096) with n by zlia. by rewrite Hfill, decide_True by lia. }
    destruct (uvmclear_run kend kend_pos (mem s1) l t1 (4096 * n) _ _ (sp_space _ _ _ _ _ _ _ Hp) ltac:(lia) Hg) as (k' & t' & Hrun & Hst & Hup).
    exists tt, k', l, t', (4096 * n + 8192). split; [done|]. split; [by apply ustep_moves|].
    replace (4096 * n / 4096) with n in Hup by zlia. split; [|split; [apply Hst|done]].
    eapply pspace_step; [exact Hp|exact Hst|]. eapply sized_update; [exact Hup|rewrite Hfill, decide_True by lia; eauto|apply Hp]. }
  intros [] s2 (_ & t2 & size2 & Ht2 & Hroot2 & -> & Hup2).
  assert (Himg : ∀ v, aspace (mem s2) t2 v = if decide (v = n) then Some (Z.land stack_perm 0x3EF, zeros) else
    if decide (v = n + 1) then Some (stack_perm, zeros) else aspace (mem s) t v).
  { intros v. rewrite Hup2. destruct (decide (v = n)); [done|]. rewrite Hfill. repeat destruct (decide _); done || lia. }
  assert (Hwr : ∀ va, 4096 * n + 4096 ≤ va < 4096 * n + 8192 → uwritable (mem s2) t2 va = true).
  { intros va Hva. unfold uwritable, abyte. rewrite Himg. assert (va / 4096 = n + 1) as -> by zlia. rewrite decide_False, decide_True by lia. cbn.
    assert (Hz : is_Some (zeros !! Z.to_nat (va mod 4096))) by (apply lookup_lt_is_Some_2; destruct zeros_page; pose proof (Z.mod_pos_bound va 4096); lia).
    destruct Hz as [b ->]. done. }
  rewrite <-Hroot2.
  gwp_use (push_args_call args [] t2 _ (4096 * n + 4096) (4096 * n + 8192) argv (4096 * n + 8192) [] s2 Ht2); [lia|lia|lia|done|done|intros Htt; by destruct (Hend Htt) as (? & ? & _)|].
  intros o s3 (Ht3 & _ & Hab3 & Hwr3 & Hres3).
  assert (Hbad : gwp total (exec_bad kend (p_root t2) (4096 * n + 8192) None) (λ r s', r = -1 ∧ ecall args [] s' ∨
    r = Z.of_nat (length (arg_strs args argv)) ∧ ∃ t' A' sp, xcall args (<[cur := t']> T) s' ∧ swapped A' t' (4096 * n + 8192) sp entry s' ∧
      with_stack (aspace (mem s) t) n A' ∧ laid_out (mem s') t' (4096 * n + 4096) (arg_strs args argv) sp) s3).
  { eapply gwp_mono; [by apply (exec_bad_table args [] t2 _ None)|]. intros r s4 Hs4. by left. }
  destruct o as [[sp us]|]; [|exact Hbad].
  destruct (Hres3 sp us eq_refl) as (ptrs & -> & Hsp & _ & Hall). cbn [app] in *.
  apply gwp_if; intros Hmax; [apply bool_decide_eq_true in Hmax|apply bool_decide_eq_false in Hmax; change MAXARG with 32 in Hmax].
  { unfold gwp, undef. destruct total; [|done]. exfalso. destruct (Hend eq_refl) as (_ & Hz & Hl & _).
    pose proof (arg_strs_length args argv Hz). pose proof (Forall2_length _ _ _ Hall). lia. }
  set (argc := Z.of_nat (length ptrs)) in *. rewrite (u64_id (sp - (argc + 1) * 8)) by lia.
  set (sp1 := sp - (argc + 1) * 8). set (sp2 := sp1 - sp1 mod 16). assert (Hmod : sp2 mod 16 = 0 ∧ sp1 - 16 < sp2 ≤ sp1) by (unfold sp2; zlia).
  assert (Hsp1 : sp1 = sp - (argc + 1) * 8) by done. clearbody sp1 sp2.
  apply gwp_if; intros Hroom; [exact Hbad|]. apply bool_decide_eq_false in Hroom. clear Hbad.
  assert (Hlen : Z.of_nat (length (concat (le_to 8 <$> ptrs ++ [0]))) = (argc + 1) * 8).
  { rewrite concat_words_length, length_app. cbn. unfold argc. lia. }
  gwp_use (copyout_stack args [] t2 _ s3 sp2 (concat (le_to 8 <$> ptrs ++ [0])) Ht3); [lia|apply concat_words_bytes|intros i Hi; rewrite Hwr3; apply Hwr; lia|].
  intros r s4 (-> & Ht4 & _ & Hw4). rewrite bool_decide_false by lia. gwp_use (exec_commit_call args t2 (4096 * n + 8192) path sp2 entry s4 Ht4); [intros Htt; apply (Hend Htt)|].
  intros [] s5 [Hx5 H5]. apply gwp_ret. right. split; [unfold argc; f_equal; by eapply Forall2_length|].
  exists t2, (aspace (mem s4) t2), sp2. split; [done|]. split; [done|]. clear Hup2 Hfill Ht Htr Ht1 Hin.
  destruct Ht2 as (_ & _ & l2 & _ & _ & [Hu2 _ _] & _), Ht4 as (_ & _ & l4 & _ & _ & [Hu4 _ [_ Hs4]] & _).
  assert (Hab4 : ∀ va, ¬ (sp2 ≤ va < 4096 * n + 8192) → abyte (mem s4) t2 va = abyte (mem s3) t2 va).
  { intros va Hva. rewrite Hw4. by rewrite decide_False by lia. }
  assert (Hab5 : ∀ va, abyte (mem s5) t2 va = abyte (mem s4) t2 va) by (intros va; unfold abyte; by rewrite (sw_image _ _ _ _ _ _ H5)).
  split; [split; [|split; [|split]]|split; [apply Hmod|split; [lia|]]].
  - intros v Hv. rewrite (aspace_abyte kend (mem s2) l2 (mem s4) l4 t2 v Hu2 Hu4).
    + rewrite Himg. by rewrite !decide_False by lia.
    + intros a Ha. rewrite Hab4, Hab3 by zlia. done.
  - specialize (Himg n). rewrite decide_True in Himg by done.
    destruct (aspace_flags kend (mem s2) l2 (mem s4) l4 t2 _ _ _ Hu2 Hu4 Himg) as [x ->]. eexists _, x. done.
  - specialize (Himg (n + 1)). rewrite decide_False, decide_True in Himg by lia.
    destruct (aspace_flags kend (mem s2) l2 (mem s4) l4 t2 _ _ _ Hu2 Hu4 Himg) as [x ->]. eexists _, x. done.
  - intros v Hv. apply eq_None_not_Some. rewrite Hs4. unfold npages. zlia.
  - exists ptrs. split.
    + eapply ubytes_same; [eapply written_ubytes; [exact Hw4|intros i Hi; rewrite Hwr3; apply Hwr; lia]|done].
    + eapply Forall2_impl; [exact Hall|]. cbv beta. intros ptr str (? & ? & Hub). split; [lia|]. split; [lia|].
      eapply ubytes_same; [exact Hub|]. intros a Ha. rewrite Hab5, Hw4. by rewrite decide_False by lia.
Qed.

(** ** The whole of exec *)

Lemma new_table_call args hs s : ecall args hs s →
  gwp total (proc_pagetable kend trampoline cur) (λ r s', fs s' = fs s ∧ (r = 0 ∧ ecall args hs s' ∨
    ∃ t, p_root t = r ∧ r ≠ 0 ∧ tcall args hs t 0 s' ∧ ∀ v, aspace (mem s') t v = None)) s.
Proof.
  intros (Hc & Hsf & l & Ho & Ha). pose proof (ow_minv _ _ _ _ Ho) as Hm.
  destruct (mi_live _ _ _ _ _ Hm cur p (ca_cur Hc) ltac:(by rewrite (ca_run Hc))) as (told & Htold & Hh).
  unfold proc_pagetable. gwp_step (getp_run cur p s (ca_cur Hc)).
  destruct (make_pagetable_spec kend trampoline kend_pos tramp_ok tramp_kernel (mem s) l (trapframe p) (mi_kinv _ _ _ _ _ Hm) (proj1 (ho_frame _ _ _ _ _ _ Hh)))
    as (r & k' & l' & Hrun & Hres).
  eapply gwp_run; [exact (on_mem_run _ s r k' Hrun)|]. split; [done|].
  assert (Hstep : ∀ B, moves (mem s) l nothing k' l' B →
    owns T (put_mem k' s) l' (λ x, arg_page args x ∨ B x) ∧ call R none hs p (put_mem k' s) ∧ same_space (put_mem k' s) ∧ args_in args k' ∧
    ∀ x, B x → ¬ arg_page args x).
  { intros B Hmv. destruct (owns_moves T s l _ _ k' l' _ Ho Hmv) as (Ho' & Hint & Hkeep); [done|].
    split; [eapply owns_ext; [exact Ho'|]; intros x [Hx|Hx]; [left; split; [done|by intros []]|by right]|]. split; [eapply call_pages; [done|apply Ho'|done]|].
    split; [by eapply space_kept|]. split.
    - intros a x Hax. destruct (Ha a x Hax) as (? & ? & ?). rewrite Hkeep; [done|by exists x|by intros []].
    - intros x Hx Hax. assert (x ∈ l ∨ nothing x) as [Hin|[]] by (apply (mv_pages _ _ _ _ _ _ _ Hmv); by right). by apply (ow_free _ _ _ _ Ho x). }
  destruct Hres as [[-> Hmv]|(Hr0 & t & Hroot & Hp & Hmv)]; destruct (Hstep _ Hmv) as (Ho' & Hc' & Hsf' & Ha' & Hd').
  - left. split; [done|]. split; [done|]. split; [done|]. exists l'. split; [|done]. eapply owns_ext; [exact Ho'|]. intros x Hx. by left.
  - right. exists t. split; [done|]. split; [done|]. split; [split; [done|]; split; [done|]; by exists l'|].
    intros v. apply eq_None_not_Some. destruct Hp as [_ _ [_ Hs]]. cbn [mem put_mem]. rewrite Hs. change (npages 0) with 0. lia.
Qed.

Section run.
Context (J : Inode.fs D → Prop) (F : Z → Z → Z → list Z → list Z → Prop) (ip : nat).
Hypothesis J_buf : ∀ off n buf i, J i → 0 ≤ off < 2 ^ 32 → 0 ≤ n ≤ 4096 → n ≤ Z.of_nat (length buf) →
  gwp total (FileData.readi_buf ip off n buf) (λ '(r, buf') i', J i' ∧ F off n r buf (u8 <$> buf') ∧ length buf' = length buf) i.
Hypothesis J_page : ∀ pa off n (k : kmem) x i, J i → pa mod 4096 = 0 → 0 ≤ pa < 2 ^ 60 → 0 ≤ off < 2 ^ 32 → 0 ≤ n ≤ 4096 →
  pmem k !! pa = Some x → is_page x →
  gwp total (FileData.readi phys_out ip pa off n (Ok 0 k)) (λ '(r, k') i', J i' ∧
    ∃ y, k' = Ok 0 (MkKmem (freelist k) (<[pa := y]> (pmem k))) ∧ is_page y ∧ F off n r x y) i.

Hypothesis J_put : ∀ i, J i → gwp total (Inode.iunlockput ip) (λ _ _, True) i.

(** What a successful [exec] leaves: the image its file describes, the arguments
    on the stack, and the registers that start the program. *)
Definition executed (strs : list (list Z)) (r : Z) (t' : ptree) (s' : ps) : Prop :=
  r = Z.of_nat (length strs) ∧ ∃ elf0 elf size A0 A A' sp,
    F 0 64 64 elf0 elf ∧ elf_magic elf = ELF_MAGIC ∧ (∀ v, A0 v = None) ∧
    elf_loads F (Z.to_nat (elf_phnum elf)) (s32 (elf_phoff elf)) A0 0 A size ∧ with_stack A (npages size) A' ∧
    swapped A' t' (4096 * npages size + 8192) sp (elf_entry elf) s' ∧
    laid_out (mem s') t' (4096 * npages size + 4096) strs sp.
Definition exec_result (args : gmap Z (list Z)) (argv : list Z) (r : Z) (s' : ps) : Prop :=
  r = -1 ∧ ecall args [] s' ∨ ∃ t', xcall args (<[cur := t']> T) s' ∧ executed (arg_strs args argv) r t' s'.

Lemma exec_locked_call args argv path s :
  (64 ≤ length stk)%nat → ecall args [ip] s → J (ino (fs s)) → (∀ a, a ∈ argv → a = 0 ∨ arg_page args a) →
  (total = true → ends args argv path) → gwp total (exec_locked kend trampoline stk cur ip path argv) (exec_result args argv) s.
Proof.
  intros Hstk He HJ Hin Hend. unfold exec_locked. change (Z.of_nat sizeof_elfhdr) with 64.
  gwp_use (read_hdr_call J F ip J_buf (ecall args [ip]) 0 64 (take sizeof_elfhdr stk) s); [|done|lia|lia|rewrite length_take; unfold sizeof_elfhdr; lia|].
  { intros Q HQ. apply (ecall_inode _ (λ _, [ip]) Q args [ip] s); [done| |done]. intros _ _ Hh. apply Handles.held_keeps; [apply Handles.keeps_readi_buf|done]. }
  intros [r elf] s1 ([He1 _] & HJ1 & HF & _ & _).
  assert (Hbad : ∀ s2, ecall args [ip] s2 → J (ino (fs s2)) → gwp total (exec_bad kend 0 0 (Some ip)) (exec_result args argv) s2).
  { intros s2 H2 HJ2. eapply gwp_mono; [by eapply exec_bad_none; [| |apply J_put]|]. intros r' s3 H3. by left. }
  apply gwp_if; intros Hr; [by apply Hbad|]. apply bool_decide_eq_false in Hr. assert (r = 64) as -> by (destruct (decide (r = 64)); [done|by destruct Hr]).
  apply gwp_if; intros Hmg; [by apply Hbad|]. apply bool_decide_eq_false in Hmg.
  assert (Hmagic : elf_magic elf = ELF_MAGIC) by (destruct (decide (elf_magic elf = ELF_MAGIC)); [done|by destruct Hmg]). clear Hr Hmg.
  gwp_use (new_table_call args [ip] s1 He1). intros pt s2 (Hfs2 & [[-> He2]|(t & Hroot & Hpt & Ht2 & Hnone)]).
  { rewrite bool_decide_true by done. apply Hbad; [done|by rewrite Hfs2]. }
  rewrite bool_decide_false by done. clear Hbad. rewrite <-Hroot.
  gwp_use (load_loop_call J F ip J_buf J_page args [ip] (Z.to_nat (elf_phnum elf)) (take sizeof_proghdr stk) (s32 (elf_phoff elf)) 0 t s2);
    [split; [done|split; [by rewrite Hfs2|intros v f x; by rewrite Hnone]]|rewrite length_take; unfold sizeof_proghdr; lia|].
  intros [ok size] s3 (t3 & Hroot3 & (Ht3 & HJ3 & _) & Hel). rewrite <-Hroot3. destruct ok; cbn [negb].
  2:{ eapply gwp_mono; [apply (exec_bad_table args [ip] t3 size (Some ip)); [done|done|]; intros ? [= <-]; by apply J_put|]. intros r s4 H4. by left. }
  gwp_use (tcall_inode (Inode.iunlockput ip) (λ _, []) (λ _ _, True) args [ip] t3 size s3 Ht3); [intros ? ? Hh; by apply Handles.held_iunlockput|by apply J_put|].
  intros [] s4 (Ht4 & Hm4 & _). eapply gwp_mono; [by apply (exec_stack_call args argv path t3 size (elf_entry elf) s4)|]. cbv beta.
  intros r s5 [H5|(Hr & t' & A' & sp & Hx & Hsw & Hst & Hlay)]; [by left|]. right. exists t'. split; [done|]. split; [done|].
  exists (take sizeof_elfhdr stk), elf, size, (aspace (mem s2) t), (aspace (mem s3) t3), A', sp. rewrite Hm4 in Hst.
  split; [done|]. split; [done|]. split; [done|]. split; [by apply Hel|]. done.
Qed.
End run.
End exec.
End ExecSpec.
