(* ===== verification/ExecRun.v ===== *)
(** Running [exec]: from any file, whose bytes are the user's, and from a file
    whose contents are known. *)

From stdpp Require Import functions.
From S2P Require Import Prelude Riscv CString Kalloc Vm PageTable UserMem UserCopy UserFree BlockIO Inode InodeSpec BlockMap FileData Dir DirSpec Proc ProcMem ProcSpec ProcStep File FileSpec Syscall Sysfile Handles CallSpec SysSpec Exec ExecMem ExecSpec.
Import Kalloc Vm PageTable UserMem UserCopy Proc ProcMem ProcSpec ProcStep File FileSpec Syscall Sysfile CallSpec SysSpec Exec ExecMem ExecSpec.

Local Open Scope Z_scope.

Module ExecRun.

(** ** Where [readi] copies to *)

Section within.
Context {D : Type} {BIO : BlockIO D}.
Context {K : Type} (P : K → Prop) (out : Z → list Z → K → K) (lo hi : Z).
Hypothesis Hout : ∀ d bs k, lo ≤ d < hi → d + Z.of_nat (length bs) ≤ hi → P k → P (out d bs k).
Hypothesis Hlo : 0 ≤ lo.
Hypothesis Hhi : hi < 2 ^ 62.

Lemma readi_loop_within ip fuel : ∀ dst off n tot k (i : Inode.fs D),
  lo ≤ dst → dst + (n - tot) ≤ hi → 0 ≤ tot → n < 2 ^ 32 → 0 ≤ off → P k →
  pwp (FileData.readi_loop out fuel ip dst off n tot k) (λ k' _, P k') i.
Proof.
  induction fuel as [|fuel IH]; intros dst off n tot k i Hd Hn Ht Hn32 Ho Hk; cbn [FileData.readi_loop]; (apply pwp_if; intros Hlt; [|by apply pwp_ret]); [exact I|].
  apply bool_decide_eq_true in Hlt. do 3 (apply pwp_bind, pwp_ok; intros ? ? _). cbv zeta. apply pwp_bind, pwp_ok. intros data ? _. apply pwp_bind, pwp_ok. intros ? ? _.
  change (Z.of_nat BSIZE) with 1024. rewrite (u32_id (n - tot)) by (unfold is_u32; lia). set (m := Z.min (n - tot) (1024 - off mod 1024)).
  assert (Hm : 1 ≤ m ≤ n - tot) by (unfold m; zlia).
  apply IH; try done.
  - rewrite u64_id by lia. lia.
  - rewrite u64_id by lia. rewrite u32_id by (unfold is_u32; lia). lia.
  - wrap_lia.
  - wrap_lia.
  - apply Hout; [lia| |done]. assert (length (slice (Z.to_nat (off mod 1024)) (Z.to_nat m) data) ≤ Z.to_nat m)%nat; [|lia].
    unfold slice. rewrite length_take. lia.
Qed.
Lemma readi_within ip dst off n k (i : Inode.fs D) :
  lo ≤ dst → dst + n ≤ hi → 0 ≤ n < 2 ^ 31 → 0 ≤ off < 2 ^ 32 → P k → pwp (FileData.readi out ip dst off n k) (λ r _, P r.2) i.
Proof.
  intros Hd Hn Hn31 Ho Hk. unfold FileData.readi. apply pwp_bind, pwp_ok. intros x i1 _. apply pwp_if; intros Hb; [by apply pwp_ret|].
  apply bool_decide_eq_false in Hb. cbv zeta. set (n' := if bool_decide _ then _ else _). assert (Hn' : n' ≤ n).
  { unfold n'. case_bool_decide as Hs; [|lia]. assert (Hoff : u32 (off + n) = off + n) by (revert Hb; wrap_lia). rewrite Hoff in Hs.
    assert (0 ≤ Inode.i_size x - off < n) by lia. rewrite u32_id; [lia|unfold is_u32; lia]. }
  pwp_use (readi_loop_within ip _ dst off n' 0 k i1); [done|lia|lia|lia|lia|done|]. intros k' i2 Hk'. by apply pwp_ret.
Qed.
End within.

(** ** A file with known contents *)

Section file.
Context {D : Type} {BIO : BlockIO D} {LAWS : BlockIOLaws D} (total : bool).
Context (dev : Z) (used : list Z) (d : disk_map) (H : held_map) (tr : write_trace) (ip : nat) (f : Inode.inode).

(** [n] bytes at [off] of a file of [size] bytes in the blocks of [addrs] were
    asked for and [r] were read, over what was there. *)
Definition from_file (addrs : list Z) (size off n r : Z) (b b' : list Z) : Prop :=
  r = -1 ∧ b' = u8 <$> b ∨
  off ≤ size ∧ r = FileData.read_len size off n ∧ b' = splice 0 (FileData.content d addrs off (Z.to_nat r)) (u8 <$> b).
Notation from_it := (from_file (Inode.i_addrs f) (Inode.i_size f)).

Lemma u8_bytes b : bytes b → u8 <$> b = b.
Proof. intros Hb. rewrite <-(list_fmap_id b) at 2. apply list_fmap_ext. intros i c Hc. apply u8_id, (Forall_lookup_1 _ _ _ _ Hb Hc). Qed.
Lemma u8_splice bs b : bytes bs → u8 <$> splice 0 bs b = splice 0 bs (u8 <$> b).
Proof. intros Hb. unfold splice. rewrite !take_0, !app_nil_l, fmap_app, (u8_bytes bs Hb), fmap_drop. done. Qed.

Lemma readi_refused {K} (out : Z → list Z → K → K) dst off n k (i : Inode.fs D) : FileData.file_access dev used i d H tr ip f →
  Inode.i_size f < off ∨ 2 ^ 32 ≤ off + n → 0 ≤ off < 2 ^ 32 → 0 ≤ n < 2 ^ 32 → FileData.readi out ip dst off n k i = Ok (-1, k) i.
Proof.
  intros Ha Hbad Ho Hn. unfold FileData.readi. erewrite bind_ok by (apply InodeSpec.rdi_ok; by apply (FileData.fa_ip _ _ _ _ _ _ _ _ Ha)).
  rewrite bool_decide_true; [done|]. destruct Hbad; [by left|right; wrap_lia].
Qed.
Lemma read_len_range off n : 0 ≤ off ≤ Inode.i_size f → 0 ≤ n → 0 ≤ FileData.read_len (Inode.i_size f) off n ≤ n.
Proof. intros Ho Hn. unfold FileData.read_len. case_bool_decide; lia. Qed.

(** What holds of the inode layer while the file is read. *)
Context (J : Inode.fs D → Prop).
Hypothesis J_access : ∀ i, J i → FileData.file_access dev used i d H tr ip f.
Hypothesis J_io : ∀ i t, J i → rep dev t d H tr → J (Inode.with_io t i).

Lemma file_buf off n buf i : J i → 0 ≤ off < 2 ^ 32 → 0 ≤ n ≤ 4096 → n ≤ Z.of_nat (length buf) →
  gwp total (FileData.readi_buf ip off n buf) (λ '(r, buf') i', J i' ∧ from_it off n r buf (u8 <$> buf') ∧ length buf' = length buf) i.
Proof.
  intros HJ Ho Hn Hl. pose proof (J_access i HJ) as Ha. pose proof (FileData.fa_size _ _ _ _ _ _ _ _ Ha) as Hsz.
  destruct (decide (Inode.i_size f < off ∨ 2 ^ 32 ≤ off + n)) as [Hbad|Hok].
  { eapply gwp_run; [apply readi_refused; (done || lia)|]. split; [done|]. split; [by left|done]. }
  destruct (proj1 (wp_ok _ _ _) (FileData.readi_buf_spec dev used i d H tr ip f off n buf Ha ltac:(lia) ltac:(lia) ltac:(lia) Hl))
    as ([r1 b1] & i1 & Hrun1 & -> & -> & t & Hr & ->).
  eapply gwp_run; [exact Hrun1|]. split; [by apply J_io|].
  pose proof (read_len_range off n ltac:(lia) ltac:(lia)) as Hrl. split; [|rewrite length_splice; [done|rewrite FileData.length_content; lia]].
  right. split; [lia|]. split; [done|]. apply u8_splice. by eapply DirSpec.content_bytes.
Qed.

(** The page after the chunks [bs] were written from its start. *)
Definition filled (k : kmem) (pa : Z) (x bs : list Z) (r : outcome kmem Z) : Prop :=
  r = Ok 0 (MkKmem (freelist k) (<[pa := splice 0 (u8 <$> bs) x]> (pmem k))).
Lemma filled_out k pa x bs c r : pa mod 4096 = 0 → 0 ≤ pa < 2 ^ 60 → length x = 4096%nat → (length bs + length c ≤ 4096)%nat →
  (length bs < 4096)%nat → filled k pa x bs r → filled k pa x (bs ++ c) (phys_out (u64 (pa + Z.of_nat (length bs))) c r).
Proof.
  intros Hal Hpa Hx Hl Hlt ->. unfold filled. rewrite u64_id by lia. cbn [phys_out]. destruct (page_split pa (Z.of_nat (length bs)) Hal ltac:(lia)) as [Hpo Hoo].
  unfold st_bytes, load_page, store_page, mbind, M_bind, get. rewrite Hpo, Hoo, Nat2Z.id. cbn. rewrite lookup_insert_eq. cbn. rewrite lookup_insert_eq.
  unfold put, mret, M_ret. rewrite insert_insert_eq. do 3 f_equal.
  rewrite fmap_app. rewrite <-(length_fmap u8 bs) at 1. apply (FileData.splice_app 0).
  rewrite !length_fmap. lia.
Qed.
Lemma file_page pa off n (k : kmem) x i : J i → pa mod 4096 = 0 → 0 ≤ pa < 2 ^ 60 → 0 ≤ off < 2 ^ 32 → 0 ≤ n ≤ 4096 →
  pmem k !! pa = Some x → is_page x →
  gwp total (FileData.readi phys_out ip pa off n (Ok 0 k)) (λ '(r, k') i', J i' ∧
    ∃ y, k' = Ok 0 (MkKmem (freelist k) (<[pa := y]> (pmem k))) ∧ is_page y ∧ from_it off n r x y) i.
Proof.
  intros HJ Hal Hpa Ho Hn Hx [Hlx Hbx]. pose proof (J_access i HJ) as Ha. pose proof (FileData.fa_size _ _ _ _ _ _ _ _ Ha) as Hsz.
  destruct (decide (Inode.i_size f < off ∨ 2 ^ 32 ≤ off + n)) as [Hbad|Hok].
  { eapply gwp_run; [apply readi_refused; (done || lia)|]. split; [done|]. exists x. rewrite insert_id by done.
    split; [by destruct k|]. split; [done|]. left. split; [done|]. by rewrite u8_bytes. }
  pose proof (read_len_range off n ltac:(lia) ltac:(lia)) as Hrl. pose proof Ha as [Hr Hix Hdev Hlen Hc Hroom Hfok _].
  assert (Hwp : wp (FileData.readi phys_out ip pa off n (Ok 0 k)) (λ '(r, k') i', r = FileData.read_len (Inode.i_size f) off n ∧
    filled k pa x (FileData.content d (Inode.i_addrs f) off (Z.to_nat (FileData.read_len (Inode.i_size f) off n))) k' ∧
    ∃ t, rep dev t d H tr ∧ i' = Inode.with_io t i) i).
  { apply (FileData.readi_spec phys_out pa (Z.to_nat (FileData.read_len (Inode.i_size f) off n)) (filled k pa x)) with (dev := dev) (used := used); try done; try lia.
    - intros bs c r0 Hf Hc0 Hl. apply filled_out; try done; lia.
    - unfold filled. change (splice 0 (u8 <$> []) x) with x. rewrite insert_id by done. by destruct k. }
  destruct (proj1 (wp_ok _ _ _) Hwp) as ([r1 k1] & i1 & Hrun1 & -> & Hf & t & Hr1 & ->).
  eapply gwp_run; [exact Hrun1|]. split; [by apply J_io|]. eexists. split; [exact Hf|]. split.
  - split; [rewrite length_splice; rewrite ?length_fmap, ?FileData.length_content; lia|]. apply bytes_splice; [apply bytes_u8|done].
  - right. split; [lia|]. split; [done|]. rewrite (u8_bytes x) by done. f_equal. apply u8_bytes. by eapply DirSpec.content_bytes.
Qed.

End file.

Section run.
Context {D : Type} {BIO : BlockIO D}.
Context (kend trampoline : Z) (kend_pos : 0 < kend).
Hypothesis tramp_ok : pa_ok trampoline.
Hypothesis tramp_kernel : trampoline + 4096 ≤ 2 ^ 54.
Context (stk : list Z) (Hstk : (64 ≤ length stk)%nat) (cur : nat).
Notation ps := (@Proc.ps (ftab D)).
Notation sys := (@Syscall.sys D).

(** One chunk written to the page at [pa]. *)
Definition paged (k : kmem) (pa : Z) (r : outcome kmem Z) : Prop :=
  ∃ y, r = Ok 0 (MkKmem (freelist k) (<[pa := y]> (pmem k))) ∧ is_page y.
Lemma paged_out k pa d bs r : pa mod 4096 = 0 → pa ≤ d → d + Z.of_nat (length bs) ≤ pa + 4096 → d < pa + 4096 → paged k pa r → paged k pa (phys_out d bs r).
Proof.
  intros Hal Hd Hlen Hlt (y & -> & [Hl Hb]). cbn [phys_out]. destruct (page_split pa (d - pa) Hal ltac:(lia)) as [Hpo Hoo].
  replace (pa + (d - pa)) with d in * by lia. unfold st_bytes, load_page, store_page, mbind, M_bind, get. rewrite Hpo, Hoo. cbn.
  rewrite lookup_insert_eq. cbn. rewrite lookup_insert_eq. exists (splice (Z.to_nat (d - pa)) (u8 <$> bs) y). split; [by rewrite insert_insert_eq|].
  split; [rewrite length_splice; rewrite ?length_fmap; lia|]. apply bytes_splice; [apply bytes_u8|done].
Qed.

(** Any file will do. *)
Definition any : Z → Z → Z → list Z → list Z → Prop := λ _ _ _ _ _, True.
Lemma any_buf (ip : nat) off n buf (i : Inode.fs D) : True → 0 ≤ off < 2 ^ 32 → 0 ≤ n ≤ 4096 → n ≤ Z.of_nat (length buf) →
  gwp false (FileData.readi_buf ip off n buf) (λ '(r, buf') i', True ∧ any off n r buf (u8 <$> buf') ∧ length buf' = length buf) i.
Proof.
  intros _ Ho Hn Hl. apply gwp_pwp. eapply pwp_mono; [apply (readi_within (λ b, length b = length buf) FileData.buf_out 0 n); try done; try lia|].
  - intros d bs b Hd Hlen Hb. unfold FileData.buf_out. rewrite length_splice; lia.
  - cbv beta. intros [r b] i' Hb. done.
Qed.
Lemma any_page (ip : nat) pa off n (k : kmem) x (i : Inode.fs D) : True → pa mod 4096 = 0 → 0 ≤ pa < 2 ^ 60 → 0 ≤ off < 2 ^ 32 → 0 ≤ n ≤ 4096 →
  pmem k !! pa = Some x → is_page x →
  gwp false (FileData.readi phys_out ip pa off n (Ok 0 k)) (λ '(r, k') i', True ∧
    ∃ y, k' = Ok 0 (MkKmem (freelist k) (<[pa := y]> (pmem k))) ∧ is_page y ∧ any off n r x y) i.
Proof.
  intros _ Hal Hpa Ho Hn Hx Hpx. apply gwp_pwp. eapply pwp_mono; [apply (readi_within (paged k pa) phys_out pa (pa + n)); try done; try lia|].
  - intros d bs b Hd Hlen Hb. apply paged_out; [done|lia|lia|lia|done].
  - exists x. rewrite insert_id by done. by destruct k.
  - cbv beta. intros [r b] i' (y & Hb & Hy). cbn in Hb. split; [done|]. by exists y.
Qed.

(** ** The whole of [exec] *)

Context (s0 : ps) (T : gmap nat ptree) (R : Z → Z) (p : proc).
Notation call := (CallSpec.call kend trampoline cur s0 T).
Notation ecall := (ExecSpec.ecall kend trampoline cur s0 T R p).
Notation xcall := (ExecSpec.xcall kend trampoline cur s0 T).
Notation exec_result := (ExecSpec.exec_result kend trampoline cur s0 T R p).
Notation owns := (ExecSpec.owns kend trampoline).
Notation moves := (ProcMem.moves kend).
Notation uspace := (UserMem.uspace kend).

Lemma namei_ecall total path args s Q : ecall args [] s → gwp total (Dir.namei stk path) Q (ino (fs s)) →
  gwp total (inode (Dir.namei stk path)) (λ r s', ecall args (got r) s' ∧ mem s' = mem s ∧ Q r (ino (fs s'))) s.
Proof.
  intros He HQ. apply (ecall_inode kend trampoline cur total s0 T R p (Dir.namei stk path) got Q args [] s He); [|done].
  intros Hb Hpos Hh. eapply pwp_mono; [apply Handles.held_namei; try done; vm_compute; lia|]. by intros [ip|] i.
Qed.
Lemma ilock_ecall total ip args s Q : ecall args [ip] s → gwp total (Inode.ilock (Some ip)) Q (ino (fs s)) →
  gwp total (inode (Inode.ilock (Some ip))) (λ a s', ecall args [ip] s' ∧ mem s' = mem s ∧ Q a (ino (fs s'))) s.
Proof.
  intros He HQ. apply (ecall_inode kend trampoline cur total s0 T R p (Inode.ilock (Some ip)) (λ _, [ip]) Q args [ip] s He); [|done].
  intros Hb Hpos Hh. apply Handles.held_keeps; [apply InodeSpec.keeps_ilock|done].
Qed.
Lemma partial_any {S A} (m : M S A) s : gwp false m (λ _ _, True) s.
Proof. unfold gwp. by destruct (m s). Qed.
Lemma exec_call path argv args s : ecall args [] s → (∀ a, a ∈ argv → a = 0 ∨ arg_page args a) →
  gwp false (exec kend trampoline stk cur path argv) (exec_result any args argv) s.
Proof.
  intros He Hin. unfold exec. gwp_use (namei_ecall false path args s _ He (partial_any _ _)). intros [ip|] s1 (He1 & _); [|apply gwp_ret; by left].
  gwp_use (ilock_ecall false ip args s1 _ He1 (partial_any _ _)). intros [] s2 (He2 & _).
  apply (exec_locked_call kend trampoline kend_pos tramp_ok tramp_kernel stk cur false s0 T R p (λ _, True) any ip (any_buf ip) (any_page ip) (λ i _, partial_any _ i) args argv path s2); done.
Qed.

(** ** Pages for the arguments *)

Context (total : bool).
Lemma on_ps_gwp {A} (m : M ps A) (Q : A → ps → Prop) (s : sys) : gwp total m Q (st s) → gwp total (on_ps m) (λ a s', Q a (st s')) s.
Proof. intros H. apply gwp_zoom. exact H. Qed.
Lemma on_ps_run {A} (m : M ps A) (s : sys) a s1 : m (st s) = Ok a s1 → on_ps m s = Ok a (MkSys s1 (ticks s)).
Proof. intros H. unfold on_ps, zoom. by rewrite H. Qed.
Lemma myproc_run q (s : sys) : procs (st s) !! cur = Some q → myproc cur s = Ok q s.
Proof. intros H. unfold myproc. erewrite on_ps_run by exact (getp_run cur q _ H). by destruct s. Qed.
Lemma load_page_run (k : kmem) a x : pmem k !! a = Some x → load_page a k = Ok x k.
Proof. intros H. unfold load_page, mbind, M_bind, get. by rewrite H. Qed.

Lemma ecall_moves args hs s l A k' l' B args' :
  call R none hs p s → same_space cur s0 T p s → owns T s l (arg_page args) → moves (mem s) l A k' l' B →
  (∀ x, A x → arg_page args x) → (∀ x, arg_page args' x → arg_page args x ∧ ¬ A x ∨ B x) → args_in kend args' k' →
  ecall args' hs (put_mem k' s).
Proof.
  intros Hc Hsf Ho Hmv HA HB Ha. destruct (owns_moves kend trampoline T s l _ _ k' l' _ Ho Hmv HA) as (Ho' & Hint & _).
  split; [eapply call_pages; [done|apply Ho'|done]|]. split; [by eapply space_kept|]. exists l'. split; [|done]. by eapply owns_ext.
Qed.
Lemma kalloc_call args hs s : ecall args hs s →
  gwp total (on_mem kalloc) (λ a s', a = 0 ∧ s' = s ∨ a ≠ 0 ∧ args !! a = None ∧ fs s' = fs s ∧ ∃ x, ecall (<[a := x]> args) hs s') s.
Proof.
  intros (Hc & Hsf & l & Ho & Ha). pose proof (mi_kinv _ _ _ _ _ (ow_minv _ _ _ _ _ _ Ho)) as Hk. destruct l as [|b l].
  { eapply gwp_run; [exact (on_mem_run _ s 0 (mem s) (kalloc_empty kend (mem s) Hk))|]. left. by destruct s. }
  destruct (kalloc_page kend (mem s) b l Hk) as (fl & x & Hrun' & Hk' & Hok & Hbl & Hx). eapply gwp_run; [exact (on_mem_run _ s _ _ Hrun')|].
  right. split; [by apply (page_ok_pa kend)|].
  assert (Hb : args !! b = None) by (apply eq_None_not_Some; intros Hb; apply (ow_free _ _ _ _ _ _ Ho b Hb); left).
  split; [done|]. split; [done|]. exists x.
  apply (ecall_moves args hs s (b :: l) nothing _ l (eq b)); try done.
  - split; [done| |by intros ? <-|].
    + intros q. rewrite elem_of_cons. unfold nothing. naive_solver.
    + intros q Hq. cbn. rewrite lookup_insert_ne; [done|]. intros ->. apply Hq. left. left.
  - intros q [y [[<- _]|[_ Hq]]%lookup_insert_Some]; [by right|left]. split; [by exists y|]. by intros [].
  - intros q y [[<- <-]|[Hne Hq]]%lookup_insert_Some; cbn; [by rewrite lookup_insert_eq|]. rewrite lookup_insert_ne by done. by apply Ha.
Qed.
Lemma store_call args hs s a x y : ecall args hs s → args !! a = Some x → is_page y →
  gwp total (on_mem (store_page a y)) (λ _ s', ecall (<[a := y]> args) hs s' ∧ fs s' = fs s) s.
Proof.
  intros (Hc & Hsf & l & Ho & Ha) Hx Hy. pose proof (mi_kinv _ _ _ _ _ (ow_minv _ _ _ _ _ _ Ho)) as Hk.
  destruct (Ha a x Hx) as (Hm & _ & Hok). set (k' := MkKmem (freelist (mem s)) (<[a := y]> (pmem (mem s)))).
  assert (Hst : store_page a y (mem s) = Ok tt k') by (unfold store_page, mbind, M_bind, get; by rewrite Hm).
  eapply gwp_run; [exact (on_mem_run _ s _ _ Hst)|]. split; [|done].
  apply (ecall_moves args hs s l (eq a) k' l (eq a)); try done.
  - split; [|done| |].
    + apply kinv_write; [done|]. apply (ow_free _ _ _ _ _ _ Ho a). by exists x.
    + intros q <-. apply (ow_free _ _ _ _ _ _ Ho a). by exists x.
    + intros q Hq. cbn. rewrite lookup_insert_ne; [done|]. intros ->. apply Hq. by right.
  - intros q <-. by exists x.
  - intros q [z [[<- _]|[Hne Hq]]%lookup_insert_Some]; [by right|left]. split; [by exists z|done].
  - intros q z [[<- <-]|[Hne Hq]]%lookup_insert_Some; cbn; [by rewrite lookup_insert_eq|]. rewrite lookup_insert_ne by done. by apply Ha.
Qed.
Lemma kfree_xcall args T' s a x : xcall args T' s → args !! a = Some x →
  gwp total (on_mem (kfree kend a)) (λ _ s', xcall (delete a args) T' s' ∧ procs s' = procs s ∧
    ∀ j q u, procs s !! j = Some q → T' !! j = Some u → intact (mem s) (mem s') u q) s.
Proof.
  intros (l & Ho & Ha & Hf & Hs & Hsp & Hq) Hx. destruct (Ha a x Hx) as (Hm & _ & Hok).
  destruct (UserFree.kfree_gives kend kend_pos (mem s) l a (mi_kinv _ _ _ _ _ (ow_minv _ _ _ _ _ _ Ho)) Hok) as (k' & Hrun' & Hg);
    [apply (ow_free _ _ _ _ _ _ Ho a); by exists x|by exists x|].
  eapply gwp_run; [exact (on_mem_run _ s _ _ Hrun')|].
  destruct (owns_moves kend trampoline T' s l _ _ k' _ _ Ho (gives_moves kend _ _ _ _ _ Hg)) as (Ho' & Hint & Hkeep); [intros q <-; by exists x|].
  split; [|by split]. exists (a :: l). split; [eapply owns_ext; [exact Ho'|]; intros q [z [Hne Hz]%lookup_delete_Some]; left; split; [by exists z|done]|].
  split; [|split; [|split; [done|split; [|done]]]].
  - intros b y [Hne Hy]%lookup_delete_Some. cbn. rewrite Hkeep; [by apply Ha|by exists y|done].
  - destruct Hf. by split.
  - intros j q t Hj Hq0 Hst Ht. destruct (Hsp j q t Hj Hq0 Hst Ht) as [((q' & Hq' & Hsim) & Ht' & Hi)|Hr]; [left|by right].
    split; [by exists q'|]. split; [done|]. eapply intact_trans; [done|]. destruct (Hint j q' t Hq' Ht') as [H1 H2]. split; [done|]. cbn.
    by rewrite <-(sim_trapframe _ _ Hsim).
Qed.

(** ** Fetching the arguments *)

Lemma uread_byte k l t va b : uspace k l t → uread k t va = Some b → 0 ≤ b < 256.
Proof.
  intros Hu. unfold uread, abyte. destruct (aspace k t (va / 4096)) as [[f x]|] eqn:E; [|done]. cbn.
  destruct (x !! _) as [c|] eqn:Ec; [|done]. cbn. destruct (has f PTE_U); [|done]. intros [= <-].
  destruct (aspace_Some kend k l t _ f x Hu E) as (_ & w & _ & _ & _ & _ & _ & _ & _ & _ & Hb).
  by apply (Forall_lookup_1 _ _ _ _ Hb Ec).
Qed.
Lemma ubytes_bytes k l t va bs : uspace k l t → ubytes k t va bs → bytes bs.
Proof.
  intros Hu Hb. apply Forall_lookup. intros i b Hi. apply (uread_byte k l t (va + Z.of_nat i) b Hu). rewrite <-Hi. apply Hb. by eapply lookup_lt_Some.
Qed.

(** The string, with its null, that the [i]-th entry of the array at [uargv]
    points to. *)
Definition user_arg (k : kmem) (t : ptree) (uargv : Z) (i : nat) (str : list Z) : Prop :=
  ∃ w, w ≠ 0 ∧ ubytes k t (u64 (uargv + 8 * Z.of_nat i)) (le_to 8 w) ∧ string_at k t w PGSIZE str 0.
(** The arguments of a program. *)
Definition user_args (k : kmem) (t : ptree) (uargv : Z) (strs : list (list Z)) : Prop :=
  (∀ i str, strs !! i = Some str → user_arg k t uargv i str) ∧
  ubytes k t (u64 (uargv + 8 * Z.of_nat (length strs))) (le_to 8 0).

Lemma zstr_string y x : 0 ∉ y → zstr (y ++ 0 :: x) = y ++ [0] ∧ Str.strlen (y ++ 0 :: x) = Some (Z.of_nat (length y)).
Proof.
  intros Hy. assert (Hl : Str.strlen (y ++ 0 :: x) = Some (Z.of_nat (length y))).
  { induction y as [|c y IH]; [done|]. apply not_elem_of_cons in Hy as [Hc Hy]. cbn. rewrite bool_decide_false by done. rewrite IH by done. cbn. f_equal. lia. }
  split; [|done]. unfold zstr. rewrite Hl, Nat2Z.id. rewrite cons_middle, app_assoc, take_app_le by (rewrite length_app; cbn; lia).
  by rewrite take_ge by (rewrite length_app; cbn; lia).
Qed.

Lemma my_space args hs s u : ecall args hs s → T !! cur = Some u → ∃ l, uspace (mem s) l u ∧ p_root u = pagetable p.
Proof.
  intros (Hc & _ & l & Ho & _) Hu. destruct (mi_live _ _ _ _ _ (ow_minv _ _ _ _ _ _ Ho) cur p (ca_cur Hc) ltac:(by rewrite (ca_run Hc))) as (t & Ht & Hh).
  simplify_eq. exists l. split; [|apply Hh]. apply Hh.
Qed.
Lemma same_uread args hs s u va : ecall args hs s → T !! cur = Some u → uread (mem s) u va = uread (mem s0) u va.
Proof. intros (_ & Hsf & _) Hu. destruct (Hsf u Hu) as [Ha _]. unfold uread, abyte. by rewrite Ha. Qed.

Lemma fetchaddr_call args hs (s : sys) u addr : ecall args hs (st s) → T !! cur = Some u → 0 ≤ addr < 2 ^ 64 →
  gwp total (fetchaddr cur addr) (λ o s', s' = s ∧ ∀ w, o = Some w → 0 ≤ w < 2 ^ 64 ∧ ubytes (mem s0) u addr (le_to 8 w)) s.
Proof.
  intros He Hu Ha. destruct (my_space _ _ _ u He Hu) as (l & Hus & Hroot). pose proof He as (Hc & _).
  unfold fetchaddr. gwp_step (myproc_run p s (ca_cur Hc)). apply gwp_if; intros _; [by apply gwp_ret|].
  unfold copyin. destruct (copyin_loop_spec kend kend_pos 8 (mem (st s)) l u addr 8 [] Hus Ha ltac:(lia)) as (x & r & Hrun & Hx & Hr).
  assert (Hx0 : ubytes (mem s0) u addr x) by (intros i Hi; rewrite <-(same_uread args hs (st s)) by done; by apply Hx).
  rewrite <-Hroot. gwp_enter. eapply gwp_run; [by apply on_ps_run, on_mem_run; exact Hrun|].
  replace (MkSys _ _) with s by (by destruct s as [[] ?]). apply gwp_if; intros Hr0; apply gwp_ret; (split; [done|]); [done|]. intros w [= <-].
  apply bool_decide_eq_false in Hr0. destruct Hr as [[_ Hr]|[-> _]]; [|by destruct Hr0]. assert (Hb : bytes x) by (by eapply ubytes_bytes).
  assert (length x = 8%nat) as Hl by lia. pose proof (le_of_range x Hb) as Hrange. rewrite Hl in Hrange. split; [done|].
  pose proof (le_to_of x Hb) as Hto. rewrite Hl in Hto. by rewrite Hto.
Qed.

Lemma copyinstr_call args hs (s : sys) u uarg max : ecall args hs (st s) → T !! cur = Some u → 0 ≤ uarg < 2 ^ 64 → 0 ≤ max →
  gwp total (on_ps (on_mem (copyinstr (pagetable p) uarg max))) (λ '(y, r) s', s' = s ∧ string_at (mem s0) u uarg max y r) s.
Proof.
  intros He Hu Ha Hmax. destruct (my_space _ _ _ u He Hu) as (l & Hus & Hroot).
  destruct (copyinstr_loop_spec kend kend_pos (Z.to_nat max) (mem (st s)) l u uarg max [] Hus Ha ltac:(lia)) as (y & r & Hrun & Hy).
  rewrite <-Hroot. eapply gwp_run; [by apply on_ps_run, on_mem_run; exact Hrun|]. replace (MkSys _ _) with s by (by destruct s as [[] ?]). split; [done|]. unfold string_at in *. by setoid_rewrite <-(same_uread args hs (st s) u _ He Hu).
Qed.
Lemma fetch_page_call args (s : sys) u uarg a x : ecall args [] (st s) → T !! cur = Some u → 0 ≤ uarg < 2 ^ 64 → args !! a = Some x →
  gwp total (fetch_page cur uarg a) (λ r s', ∃ y, ecall (<[a := y]> args) [] (st s') ∧ fs (st s') = fs (st s) ∧
    (0 ≤ r → string_at (mem s0) u uarg PGSIZE (zstr y) 0 ∧ is_Some (Str.strlen y))) s.
Proof.
  intros He Hu Ha Hx. pose proof He as (Hc & _ & l & _ & Hin).
  destruct (Hin a x Hx) as (Hm & Hpx & _). unfold fetch_page.
  gwp_enter. eapply gwp_run; [apply on_ps_run, on_mem_run, (load_page_run _ a x); exact Hm|].
  replace (MkSys _ _) with s by (by destruct s as [[] ?]).
  unfold fetchstr. gwp_step (myproc_run p s (ca_cur Hc)).
  gwp_use (copyinstr_call args [] s u uarg PGSIZE He Hu Ha); [done|]. intros [y r] s' [-> Hy]. cbv zeta.
  assert (Hlen : (length y ≤ 4096)%nat) by (destruct Hy as (_ & _ & [?|?]); unfold PGSIZE in *; lia).
  assert (Hpage : is_page (splice 0 y x)).
  { destruct Hpx as [Hl Hb]. split; [rewrite length_splice; lia|]. apply bytes_splice; [apply Hy|done]. }
  assert (Hst : ∀ n, (0 ≤ n → string_at (mem s0) u uarg PGSIZE (zstr (splice 0 y x)) 0 ∧ is_Some (Str.strlen (splice 0 y x))) →
    gwp total (on_ps (on_mem (store_page a (splice 0 y x)));; mret n) (λ r s', ∃ y, ecall (<[a := y]> args) [] (st s') ∧ fs (st s') = fs (st s) ∧
      (0 ≤ r → string_at (mem s0) u uarg PGSIZE (zstr y) 0 ∧ is_Some (Str.strlen y))) s).
  { intros n Hn. gwp_use (on_ps_gwp _ _ s (store_call args [] (st s) a x _ He Hx Hpage)). intros [] s' [He' Hfs']. apply gwp_ret. by eexists. }
  apply gwp_if; intros Hr0; [apply bool_decide_eq_true in Hr0|apply bool_decide_eq_false in Hr0].
  { apply gwp_ret. apply Hst. lia. }
  pose proof Hy as (_ & _ & [(-> & Hl & z & -> & Hz)|(-> & _)]); [|lia].
  assert (Hsp : splice 0 (z ++ [0]) x = z ++ 0 :: drop (length (z ++ [0])) x) by (unfold splice; cbn; by rewrite <-app_assoc).
  destruct (zstr_string z (drop (length (z ++ [0])) x) Hz) as [Hzs Hsl]. rewrite <-Hsp in Hzs, Hsl. rewrite Hsl.
  apply gwp_bind, gwp_of_option; [|done]. intros n [= <-]. apply gwp_ret. apply Hst. intros _. by rewrite Hzs, Hsl.
Qed.

(** The [argv] array of the kernel: pages of the call, then nulls. *)
Definition held_args (args : gmap Z (list Z)) (argv vs : list Z) : Prop :=
  NoDup vs ∧ (∀ a, a ∈ vs → a ≠ 0 ∧ arg_page args a) ∧ ∃ m, argv = vs ++ replicate m 0.
Lemma held_in args argv vs a : held_args args argv vs → a ∈ argv → a = 0 ∨ arg_page args a.
Proof.
  intros (_ & Hv & m & ->) [Ha|Ha]%elem_of_app; [right; by apply Hv|left]. by apply elem_of_replicate in Ha as [-> _].
Qed.
Lemma held_strs args argv vs : held_args args argv vs → arg_strs args argv = (λ a, zstr (default [] (args !! a))) <$> vs.
Proof.
  intros (_ & Hv & m & ->). induction vs as [|a vs IH]; [by destruct m|]. cbn. rewrite bool_decide_false by (apply Hv; left). f_equal.
  apply IH. intros b Hb. apply Hv. by right.
Qed.

Lemma fetch_args_call u uargv k : ∀ i vs args argv (s : sys),
  ecall args [] (st s) → T !! cur = Some u → length vs = i → argv = vs ++ replicate k 0 → held_args args argv vs →
  (∀ j a, vs !! j = Some a → user_arg (mem s0) u uargv j (zstr (default [] (args !! a)))) → strings args →
  gwp total (fetch_args cur k i uargv argv) (λ '(ok, argv') s', ∃ args' vs', ecall args' [] (st s') ∧ fs (st s') = fs (st s) ∧ held_args args' argv' vs' ∧
    length argv' = length argv ∧ (ok = true → user_args (mem s0) u uargv (arg_strs args' argv') ∧ strings args' ∧ 0 ∈ argv')) s.
Proof.
  induction k as [|k IH]; intros i vs args argv s He Hu Hlen Hargv Hh Hstr Hends; cbn [fetch_args].
  { apply gwp_ret. exists args, vs. done. }
  gwp_use (fetchaddr_call args [] s u _ He Hu); [wrap_lia|]. intros [uarg|] s' [-> Hw].
  2:{ apply gwp_ret. exists args, vs. done. }
  destruct (Hw uarg eq_refl) as [Hr Hwb]. clear Hw.
  assert (Hput : ∀ a, <[i := a]> argv = (vs ++ [a]) ++ replicate k 0).
  { intros a. rewrite Hargv, <-Hlen. rewrite insert_app_r_alt by lia. rewrite Nat.sub_diag. cbn. by rewrite <-app_assoc. }
  assert (Hnull : <[i := 0]> argv = argv) by (rewrite Hput, Hargv, <-app_assoc; done).
  apply gwp_if; intros Hz; [apply bool_decide_eq_true in Hz as ->|apply bool_decide_eq_false in Hz].
  { apply gwp_ret. exists args, vs. rewrite Hnull. split; [done|]. split; [done|]. split; [done|]. split; [done|]. intros _.
    split; [|split; [done|rewrite Hargv; apply elem_of_app; right; left]]. rewrite (held_strs _ _ _ Hh). split.
    - intros j str Hj. apply list_lookup_fmap_Some in Hj as (a & -> & Ha). by apply Hstr.
    - by rewrite length_fmap, Hlen. }
  gwp_use (on_ps_gwp _ _ s (kalloc_call args [] (st s) He)). intros a s1 [[-> Hs1]|(Ha0 & Hnew & Hfs1 & x & He1)]; cbv zeta.
  { rewrite bool_decide_true by done. rewrite Hnull. apply gwp_ret. exists args, vs. by rewrite Hs1. }
  rewrite (bool_decide_false (a = 0)) by done.
  gwp_use (fetch_page_call _ s1 u uarg a x He1 Hu Hr); [by rewrite lookup_insert_eq|]. intros r s2 (y & He2 & Hfs2 & Hy). rewrite insert_insert_eq in He2. rewrite Hfs1 in Hfs2.
  destruct Hh as (Hnd & Hv & _).
  assert (Hh2 : held_args (<[a := y]> args) (<[i := a]> argv) (vs ++ [a])).
  { split; [|split; [|exists k; apply Hput]].
    - apply NoDup_app. split; [done|]. split; [|apply NoDup_singleton]. intros b Hb ->%list_elem_of_singleton. destruct (Hv a Hb) as [_ [z Hz']]. congruence.
    - intros b [Hb| ->%list_elem_of_singleton]%elem_of_app; [|split; [done|exists y; by rewrite lookup_insert_eq]]. destruct (Hv b Hb) as [Hb0 [z Hbz]].
      split; [done|]. exists z. rewrite lookup_insert_ne; [done|congruence]. }
  apply gwp_if; intros Hneg; [apply bool_decide_eq_true in Hneg|apply bool_decide_eq_false in Hneg].
  { apply gwp_ret. eexists _, (vs ++ [a]). split; [done|]. split; [done|]. split; [done|]. split; [by rewrite length_insert|done]. }
  destruct (Hy ltac:(lia)) as [Hy1 Hy2]. clear Hy.
  eapply gwp_mono; [apply (IH (S i) (vs ++ [a]) (<[a := y]> args) _ s2); try done; [rewrite length_app; cbn; lia| |]|].
  3:{ intros [ok argv'] s3 (args' & vs' & ? & ? & ? & Hl' & ?). exists args', vs'. rewrite length_insert in Hl'. split; [done|]. split; [congruence|done]. }
  2:{ intros b z [[<- <-]|[_ Hb]]%lookup_insert_Some; [done|by eapply Hends]. }
  intros j b [Hb|[Hge Hb]]%lookup_app_Some.
  - destruct (Hv b) as [_ [z Hbz]]; [by eapply list_elem_of_lookup_2|]. rewrite lookup_insert_ne by congruence. by apply Hstr.
  - apply list_lookup_singleton_Some in Hb as [Hj <-]. rewrite lookup_insert_eq. assert (j = i) as -> by lia.
    exists uarg. split; [done|]. split; [done|]. done.
Qed.

Lemma free_args_call T' argv : ∀ vs args (s : sys), xcall args T' (st s) → held_args args argv vs →
  gwp total (free_args kend argv) (λ _ s', (∃ args', xcall args' T' (st s')) ∧ procs (st s') = procs (st s) ∧
    ∀ j q u, procs (st s) !! j = Some q → T' !! j = Some u → intact (mem (st s)) (mem (st s')) u q) s.
Proof.
  induction argv as [|a argv IH]; intros vs args s Hx Hh; cbn [free_args]; [apply gwp_ret; split; [by exists args|done]|].
  apply gwp_if; intros Ha; [apply gwp_ret; split; [by exists args|done]|]. apply bool_decide_eq_false in Ha.
  destruct Hh as (Hnd & Hv & m & Hargv). destruct vs as [|b vs]; [destruct m; cbn in Hargv; congruence|]. injection Hargv as <- Hargv.
  destruct (Hv a) as [_ [x Hax]]; [left|]. apply NoDup_cons in Hnd as [Hni Hnd].
  gwp_use (on_ps_gwp _ _ s (kfree_xcall args T' (st s) a x Hx Hax)). intros [] s1 (Hx1 & Hp1 & Hi1).
  eapply gwp_mono; [apply (IH vs _ s1 Hx1)|].
  - split; [done|]. split; [|by exists m]. intros b Hb. destruct (Hv b) as [Hb0 [z Hz]]; [by right|]. split; [done|]. exists z.
    rewrite lookup_delete_ne; [done|]. by intros ->.
  - cbv beta. intros [] s2 (He & Hp2 & Hi2). split; [done|]. split; [congruence|]. intros j q w Hq Hw. eapply intact_trans; [by eapply Hi1|].
    apply (Hi2 j q w); [by rewrite Hp1|done].
Qed.

(** ** The system call *)

Lemma executed_same (F : Z → Z → Z → list Z → list Z → Prop) strs r t s s' q : executed cur s0 p F strs r t s →
  procs s' = procs s → procs s !! cur = Some q → intact (mem s) (mem s') t q → executed cur s0 p F strs r t s'.
Proof.
  intros (Hr & elf0 & elf & size & A0 & A & A' & sp & HF & Hmg & HA0 & Hl & Hst & [Hp Hi Hfr] & Hlay) Hps Hq [Ha Htf].
  split; [done|]. exists elf0, elf, size, A0, A, A', sp. split; [done|]. split; [done|]. split; [done|]. split; [done|]. split; [done|].
  destruct Hp as [nm Hp]. rewrite Hp in Hq. injection Hq as <-. split; [split|].
  - exists nm. by rewrite Hps.
  - intros v. by rewrite Ha.
  - intros x Hx. cbn in Htf. rewrite Htf. by apply Hfr.
  - destruct Hlay as (H1 & H2 & ptrs & H3 & H4). split; [done|]. split; [done|].
    assert (Hab : ∀ va bs, ubytes (mem s) t va bs → ubytes (mem s') t va bs).
    { intros va bs Hb. eapply ubytes_same; [exact Hb|]. intros a _. unfold abyte. by rewrite Ha. }
    exists ptrs. split; [by apply Hab|]. eapply Forall2_impl; [exact H4|]. cbv beta. intros ptr str (? & ? & ?). auto.
Qed.

(** A failed call leaves the process as it was. *)
Definition sys_exec_result (F : list Z → Z → Z → Z → list Z → list Z → Prop) (u : ptree) (upath uargv r : Z) (s' : ps) : Prop :=
  r = -1 ∧ procs s' !! cur = Some p ∧ intact (mem s0) (mem s') u p ∨
  ∃ name strs t, string_at (mem s0) u upath MAXPATH name 0 ∧ user_args (mem s0) u uargv strs ∧ executed cur s0 p (F name) strs r t s'.

Lemma xcall_ended args T' s : xcall args T' (st s) → ended kend trampoline cur s0 T s.
Proof. intros (l & Ho & _ & Hf & Hs & Hsp & Hq). split; [|done]. exists l, T'. split; [apply Ho|done]. Qed.

Lemma argaddr_ecall args hs (s : sys) u x n off : ecall args hs (st s) → T !! cur = Some u → pmem (mem s0) !! trapframe p = Some x →
  [tf_a0; tf_a1; tf_a2; tf_a3; tf_a4; tf_a5] !! n = Some off → argaddr cur n s = Ok (rd 8 off x) s.
Proof.
  intros (Hc & Hsf & _) Hu Hx Hn. destruct (Hsf u Hu) as [_ Hfr]. rewrite Hx in Hfr. unfold argaddr, argraw. erewrite bind_ok by exact (myproc_run p s (ca_cur Hc)).
  rewrite Hn. unfold on_ps, on_mem, zoom, tf_get, load_page, mbind, M_bind, get. rewrite Hfr. by destruct s as [[] ?].
Qed.
(** A path fetched into a buffer. *)
Lemma fetchstr_call args hs (s : sys) u addr buf max : ecall args hs (st s) → T !! cur = Some u → 0 ≤ addr < 2 ^ 64 → 0 ≤ max →
  gwp total (fetchstr cur addr buf max) (λ '(n, path) s', s' = s ∧ (n < 0 ∨ ∃ y, string_at (mem s0) u addr max (y ++ [0]) 0 ∧ 0 ∉ y ∧
    path = y ++ 0 :: drop (S (length y)) buf)) s.
Proof.
  intros He Hu Ha Hmax. pose proof He as (Hc & _). unfold fetchstr. gwp_step (myproc_run p s (ca_cur Hc)).
  gwp_use (copyinstr_call args hs s u addr max He Hu Ha Hmax). intros [y r] s' [-> Hy]. cbv zeta.
  apply gwp_if; intros Hr; [apply gwp_ret; split; [done|left; lia]|]. apply bool_decide_eq_false in Hr.
  pose proof Hy as (_ & _ & [(-> & Hl & z & -> & Hz)|(-> & _)]); [|lia].
  assert (Hsp : splice 0 (z ++ [0]) buf = z ++ 0 :: drop (S (length z)) buf).
  { unfold splice. cbn. rewrite <-app_assoc, length_app, Nat.add_comm. done. }
  destruct (zstr_string z (drop (S (length z)) buf) Hz) as [_ Hsl]. rewrite Hsp, Hsl.
  apply gwp_bind, gwp_of_option; [|done]. intros n [= <-]. apply gwp_ret. split; [done|]. right. by exists z.
Qed.

(** [sys_exec], given what [exec] does once path and arguments are there. *)
Lemma sys_exec_call F (s : sys) u x : ecall ∅ [] (st s) → T !! cur = Some u → pmem (mem s0) !! trapframe p = Some x → is_page x →
  (∀ y path argv args (s1 : sys), ecall args [] (st s1) → fs (st s1) = fs (st s) → 0 ∉ y → bytes y → path = y ++ 0 :: drop (S (length y)) (path0 stk) →
     (length y < Z.to_nat MAXPATH)%nat → (∀ a, a ∈ argv → a = 0 ∨ arg_page args a) → ends args argv path →
     gwp total (exec kend trampoline stk cur path argv) (exec_result (F (y ++ [0])) args argv) (st s1)) →
  gwp total (sys_exec kend trampoline stk cur) (λ r s', ended kend trampoline cur s0 T s' ∧ sys_exec_result F u (rd 8 tf_a0 x) (rd 8 tf_a1 x) r (st s')) s.
Proof.
  intros He Hu Hx [Hxl Hxb] Hexec. pose proof He as (Hc & Hsf & _). unfold sys_exec.
  assert (Hfail : ∀ args argv vs s1, ecall args [] (st s1) → held_args args argv vs →
    gwp total (free_args kend argv;; mret (-1)) (λ r s', ended kend trampoline cur s0 T s' ∧ sys_exec_result F u (rd 8 tf_a0 x) (rd 8 tf_a1 x) r (st s')) s1).
  { intros args argv vs s1 He1 Hh. gwp_use (free_args_call T argv vs args s1); [by apply ecall_xcall with (R := R) (p := p)|done|].
    intros [] s2 ([args' Hx2] & Hp2 & Hi2). apply gwp_ret. split; [by eapply xcall_ended|]. left. destruct He1 as (Hc1 & Hsf1 & _).
    split; [done|]. split; [rewrite Hp2; apply Hc1|]. eapply intact_trans; [by apply Hsf1|]. apply (Hi2 cur p u); [apply Hc1|done]. }
  gwp_step (argaddr_ecall ∅ [] s u x 1 tf_a1 He Hu Hx eq_refl). unfold argstr. gwp_step (argaddr_ecall ∅ [] s u x 0 tf_a0 He Hu Hx eq_refl).
  assert (Hr : 0 ≤ rd 8 tf_a0 x < 2 ^ 64 ∧ 0 ≤ rd 8 tf_a1 x < 2 ^ 64) by (split; apply (rd_range 8); unfold tf_a0, tf_a1; (done || lia)).
  gwp_use (fetchstr_call ∅ [] s u (rd 8 tf_a0 x) (path0 stk) MAXPATH He Hu); [lia|done|]. intros [n path] s' [-> Hpath].
  apply gwp_if; intros Hn; [apply gwp_ret; split; [by eapply call_ended|left; split; [done|split; [apply Hc|by apply Hsf]]]|]. apply bool_decide_eq_false in Hn.
  destruct Hpath as [?|(y & Hy & Hz & Hpath)]; [done|].
  gwp_use (fetch_args_call u (rd 8 tf_a1 x) (Z.to_nat MAXARG) 0 [] ∅ _ s He Hu); [done|done|split; [constructor|split; [intros a []%not_elem_of_nil|by eexists]]|done|done|].
  intros [ok argv] s1 (args & vs & He1 & Hfs1 & Hh & Hlen & Hok). destruct ok; cbn [negb]; [|by eapply Hfail]. destruct (Hok eq_refl) as (Hua & Hstr & Hnull).
  pose proof Hy as (_ & Hyb & [(_ & Hyl & _)|[? _]]); [|done].
  assert (He' : gwp total (exec kend trampoline stk cur path argv) (exec_result (F (y ++ [0])) args argv) (st s1)).
  { apply (Hexec y); try done.
    - by apply bytes_app in Hyb as [? _].
    - rewrite length_app in Hyl. cbn in Hyl. lia.
    - intros a Ha. by eapply held_in.
    - split; [done|]. split; [done|]. split; [rewrite Hlen, length_replicate; vm_compute; by intros|]. rewrite Hpath. apply elem_of_app. right. left. }
  gwp_use (on_ps_gwp _ _ s1 He').
  intros r s2 [[-> He2]|(t & Hx2 & Hex)]; [by eapply Hfail|]. gwp_use (free_args_call _ argv vs args s2 Hx2 Hh).
  intros [] s3 ([args' Hx3] & Hp3 & Hi3). apply gwp_ret. split; [by eapply xcall_ended|]. right. exists (y ++ [0]), (arg_strs args argv), t. split; [done|]. split; [done|].
  destruct Hx2 as (l2 & _ & _ & _ & _ & _ & q & Hq & _). eapply executed_same; [done|done|done|]. apply (Hi3 cur q t Hq). by rewrite lookup_insert_eq.
Qed.
End run.
End ExecRun.
