(* ===== verification/ExecFile.v ===== *)
(** [exec] end to end: from a path and arguments in the memory of a process,
    through the file that the path names, to the image, the stack and the
    registers of the new program. *)

From stdpp Require Import functions.
From S2P Require Import Prelude Riscv CString Kalloc Vm PageTable UserMem UserCopy BlockIO Inode InodeSpec DiskInode BlockMap FileData Dir Path DirSpec NameSpec Proc ProcMem ProcSpec ProcStep File FileSpec Syscall Sysfile CallSpec SysSpec Exec ExecMem ExecSpec ExecRun.
Import Kalloc Vm PageTable UserMem UserCopy Proc ProcMem ProcSpec ProcStep File FileSpec Syscall Sysfile CallSpec SysSpec Exec ExecMem ExecSpec ExecRun.

Local Open Scope Z_scope.

Module ExecFile.

Section exec.
Context {D : Type} {BIO : BlockIO D} {LAWS : BlockIOLaws D}.
Context (kend trampoline : Z) (kend_pos : 0 < kend).
Hypothesis tramp_ok : pa_ok trampoline.
Hypothesis tramp_kernel : trampoline + 4096 ≤ 2 ^ 54.
Notation ps := (@Proc.ps (ftab D)).
Notation sys := (@Syscall.sys D).
Notation minv := (ProcSpec.minv kend trampoline).
Context (stk : list Z) (Hstk : length stk = 256%nat) (Hstkb : bytes stk).
Context (d : disk_map) (tr : write_trace) (tree : NameSpec.fs_tree) (Htree : NameSpec.tree_ok d tree).
Context (R0 : InodeSpec.refs) (Hfree : NameSpec.two_free R0) (HR0 : ∀ i, 0 ≤ R0 i ∧ R0 i + 2 < 2 ^ 31).

(** ** The file a path names *)

(** The file of inode [m] can be read. *)
Definition readable (m : Z) : Prop :=
  let b := DiskInode.dinode_at d m in FileData.file_ok d [] (Inode.di_block b) (Inode.di_size b) ∧ 0 ≤ Inode.di_size b < 2 ^ 31.
Context (Hfiles : ∀ m, tree !! m = Some None → readable m).

(** Where the walk of a path starts, for a process in directory [w]. *)
Definition start (w : Z) (path : list Z) : Z := if bool_decide (path !! 0%nat = Some Dir.slash) then Inode.EXT2_ROOTINO else w.
Definition named (w : Z) (path : list Z) : option Z := NameSpec.resolve tree (start w path) false (Path.path_elems (Str.cstr path)).
(** Reading the file that [path] names; there is nothing to read when it names
    none. *)
Definition program (w : Z) (path : list Z) : Z → Z → Z → list Z → list Z → Prop :=
  match named w path with
  | Some m => let b := DiskInode.dinode_at d m in from_file d (Inode.di_block b) (Inode.di_size b)
  | None => λ _ _ _ _ _, False
  end.

Lemma visit_file i ip m y : NameSpec.visit Inode.ROOTDEV i d tr (InodeSpec.add_ref 1 ip R0) ip m y → is_Some (tree !! m) →
  FileData.file_access Inode.ROOTDEV [] i d ∅ tr ip y ∧ Inode.i_addrs y = Inode.di_block (DiskInode.dinode_at d m) ∧
  Inode.i_size y = Inode.di_size (DiskInode.dinode_at d m).
Proof.
  intros Hv [[ents|] Ht]; pose proof Hv as [Hq Hy Hid _ Hload _]; pose proof Hload as Hl; rewrite NameSpec.loaded_eq in Hl;
    (split; [|by rewrite <-Hl]).
  - by eapply NameSpec.visit_access.
  - destruct (Hfiles m Ht) as [Hok Hsz]. constructor; [apply (NameSpec.q_rep _ _ _ _ _ Hq)|done|apply Hid|by eapply NameSpec.loaded_addrs
      |intros b _; apply not_held_empty|rewrite map_size_empty; unfold NBUF; lia|by rewrite <-Hl|by rewrite <-Hl].
Qed.

(** The working directory is inode [w]. *)
Definition workdir (w : Z) (i : Inode.fs D) : Prop :=
  0 < R0 (Inode.cwd i) ∧ ∃ x, Inode.itab i !! Inode.cwd i = Some x ∧ InodeSpec.is_inode Inode.ROOTDEV w x.

Lemma start_ok w i path : workdir w i → NameSpec.start_inum Inode.ROOTDEV R0 i path (start w path).
Proof. intros [HR Hx]. unfold start, NameSpec.start_inum. case_bool_decide; [by left|by right]. Qed.
Lemma cstr_end y x : 0 ∉ y → Str.cstr (y ++ 0 :: x) = y.
Proof.
  induction y as [|c y IH]; intros Hz; [done|]. apply not_elem_of_cons in Hz as [Hc Hz]. cbn. rewrite bool_decide_false by done. f_equal. by apply IH.
Qed.
Lemma program_path w y x : 0 ∉ y → program w (y ++ 0 :: x) = program w (y ++ [0]).
Proof. intros Hz. unfold program, named, start. rewrite !cstr_end by done. by destruct y. Qed.

(** ** exec *)

Section call.
Context (cur : nat) (s0 : ps) (T : gmap nat ptree) (R : Z → Z) (p : proc).
Notation ecall := (ExecSpec.ecall kend trampoline cur s0 T R p).
Notation exec_result := (ExecSpec.exec_result kend trampoline cur s0 T R p).

Lemma exec_named w args argv path s : ecall args [] s → NameSpec.quiet Inode.ROOTDEV (ino (fs s)) d tr R0 → workdir w (ino (fs s)) →
  is_Some (tree !! w) → is_Some (tree !! Inode.EXT2_ROOTINO) → bytes path → (2 ≤ length path)%nat →
  (∀ a, a ∈ argv → a = 0 ∨ arg_page args a) → ends args argv path →
  gwp true (exec kend trampoline stk cur path argv) (exec_result (program w path) args argv) s.
Proof.
  intros He Hq Hw Htw Htr Hb Hlen Hin Hends. assert (Hz : 0 ∈ path) by apply Hends.
  assert (Hts : is_Some (tree !! start w path)) by (unfold start; by case_bool_decide).
  destruct (NameSpec.namei_run stk Hstk Hstkb Inode.ROOTDEV d tr tree Htree R0 Hfree HR0 (ino (fs s)) path (start w path) eq_refl Hq (start_ok w _ path Hw) Hts Hz Hb Hlen)
    as (r & i1 & Hrun & Hres). fold (named w path) in Hres.
  unfold exec. gwp_use (namei_ecall kend trampoline stk ltac:(lia) cur s0 T R p true path args s (λ r' i', r' = r ∧ i' = i1) He); [by eapply gwp_run|].
  intros r' s1 (He1 & _ & -> & Hi1). unfold program. destruct (named w path) as [m|] eqn:Hm.
  2:{ destruct Hres as [-> _]. apply gwp_ret. by left. }
  destruct Hres as (jp & y & -> & Hq1 & Hy & Hid). pose proof (NameSpec.resolve_in _ _ Htree _ _ _ _ Hts Hm) as Htm.
  destruct Htm as [t Ht]. destruct (Htree _ _ Ht) as [Hacc Hlinks _ _ _].
  destruct (NameSpec.visit_start Inode.ROOTDEV i1 d tr _ jp y m Hq1 Hy Hid ltac:(by eapply NameSpec.add_ref_pos) Hacc) as (i2 & z & Hlock & Hv & _).
  rewrite <-Hi1 in Hlock. gwp_use (ilock_ecall kend trampoline cur s0 T R p true jp args s1 (λ _ i', i' = i2) He1); [by eapply gwp_run|].
  intros [] s2 (He2 & _ & Hi2).
  assert (Hfile : ∀ i, NameSpec.visit Inode.ROOTDEV i d tr (InodeSpec.add_ref 1 jp R0) jp m z → FileData.file_access Inode.ROOTDEV [] i d ∅ tr jp z).
  { intros i Hvi. by apply (visit_file i jp m z Hvi). }
  destruct (visit_file i2 jp m z Hv) as (_ & <- & <-); [by eexists|].
  eapply (exec_locked_call kend trampoline kend_pos tramp_ok tramp_kernel stk cur true s0 T R p
    (λ i, NameSpec.visit Inode.ROOTDEV i d tr (InodeSpec.add_ref 1 jp R0) jp m z) _ jp).
  - intros off n buf i Hvi. eapply (file_buf true Inode.ROOTDEV [] d ∅ tr jp z); [exact Hfile| |exact Hvi]. intros i' t' Hi'. by apply NameSpec.visit_io.
  - intros pa off n k b i Hvi. eapply (file_page true Inode.ROOTDEV [] d ∅ tr jp z); [exact Hfile| |exact Hvi]. intros i' t' Hi'. by apply NameSpec.visit_io.
  - intros i Hvi. destruct (NameSpec.visit_put _ _ _ _ _ _ _ _ Hvi Hlinks) as (i' & Hput & _). by eapply gwp_run.
  - lia.
  - done.
  - by rewrite Hi2.
  - done.
  - done.
Qed.
End call.

(** ** The system call *)

Lemma path_buffer y : (length y < Z.to_nat MAXPATH)%nat → length (y ++ 0 :: drop (S (length y)) (path0 stk)) = Z.to_nat MAXPATH.
Proof. intros Hy. unfold path0. rewrite length_app. cbn [length]. rewrite length_drop, length_take, Hstk. change (Z.to_nat MAXPATH) with 128%nat in *. lia. Qed.

(** C3: [exec] runs the program it is asked for.  On a disk that holds a tree
    of files, the system call returns for every path and argument array in the
    memory of the process.  Either the result is -1, and the process is as it
    was; or the path names a file of the tree, and the memory of the process
    is the image that the ELF headers in that file describe - each segment the
    bytes of the file, then zeros, with the segment's permissions - plus a
    guard page that the user cannot touch and a stack page that cannot be
    executed; the stack holds exactly the argument strings and the array of
    pointers to them, 16-byte aligned; the result is their number, [a1] and
    [sp] point to the array, and the program counter is the entry point.  In
    both cases the argument pages are freed and other processes are spared. *)
Theorem exec_runs_program cur (s : sys) l T p u x w :
  minv (st s) l T → finv (st s) → sinv (st s) → procs (st s) !! cur = Some p → state p = RUNNING →
  Inode.cwd (ino (fs (st s))) = iidx (cwd p) → T !! cur = Some u → pmem (mem (st s)) !! trapframe p = Some x →
  NameSpec.quiet Inode.ROOTDEV (ino (fs (st s))) d tr R0 → workdir w (ino (fs (st s))) →
  is_Some (tree !! w) → is_Some (tree !! Inode.EXT2_ROOTINO) →
  ∃ r s', sys_exec kend trampoline stk cur s = Ok r s' ∧ good kend trampoline cur (st s) T (st s') ∧
    sys_exec_result cur (st s) p (program w) u (rd 8 tf_a0 x) (rd 8 tf_a1 x) r (st s').
Proof.
  intros Hm Hf Hs Hp Hr Hcw Hu Hx Hq Hw Htw Htr.
  pose proof (call_start kend trampoline cur (st s) T l p (st s) (apart_quiet cur _ _ T (quiet_refl _)) Hm Hf Hs Hp Hr Hcw) as Hc.
  destruct (mi_live _ _ _ _ _ Hm cur p Hp ltac:(congruence)) as (u' & Hu' & [_ _ (_ & _ & x' & Hx' & Hpx) _]). simplify_eq.
  assert (Hcall : gwp true (sys_exec kend trampoline stk cur) (λ r s', ended kend trampoline cur (st s) T s' ∧
    sys_exec_result cur (st s) p (program w) u (rd 8 tf_a0 x) (rd 8 tf_a1 x) r (st s')) s).
  { eapply (sys_exec_call kend trampoline kend_pos stk ltac:(lia) cur (st s) T _ p true); [by eapply start_ecall|done|done|done|].
    intros y path argv args s1 He Hfs Hz Hyb -> Hyl Hin Hends.
    rewrite <-(program_path w y (drop (S (length y)) (path0 stk))) by done. apply exec_named; rewrite ?Hfs; try done.
    - apply bytes_app. split; [done|]. apply Forall_cons. split; [wrap_lia|]. apply bytes_drop. unfold path0. by apply bytes_take.
    - rewrite path_buffer by done. vm_compute. lia. }
  apply gwp_wp, wp_ok in Hcall as (r & s' & Hrun & [Hg _] & Hres). by exists r, s'.
Qed.
End exec.
End ExecFile.
