(* ===== verification/Trap.v ===== *)
(** Traps from user space: [usertrap], [usertrapret], [devintr] and [clockintr] of
    [kernel/trap.c], and the dispatch of [kernel/syscall.c].

    The registers of the hart that the code reads ([sstatus], [scause], [sepc],
    what the interrupt controller and the UART say) are arguments; the registers
    it loads for the return ([sepc] and [satp]) are the result.  [printf]s to the
    console are left out, and a disk interrupt finds its request complete, since
    disk transfers are done when they are asked for. *)

From S2P Require Import Prelude Riscv CString Kalloc Vm BlockIO Inode Console File FileSpec Proc Syscall Sysfile Exec.
Import Kalloc Vm File Proc Syscall Sysfile Exec.

Local Open Scope Z_scope.

Module Trap.

(** ** Numbers *)

Definition SYS_fork : Z := 1.
Definition SYS_exit : Z := 2.
Definition SYS_wait : Z := 3.
Definition SYS_pipe : Z := 4.
Definition SYS_read : Z := 5.
Definition SYS_kill : Z := 6.
Definition SYS_exec : Z := 7.
Definition SYS_fstat : Z := 8.
Definition SYS_chdir : Z := 9.
Definition SYS_dup : Z := 10.
Definition SYS_getpid : Z := 11.
Definition SYS_sbrk : Z := 12.
Definition SYS_sleep : Z := 13.
Definition SYS_uptime : Z := 14.
Definition SYS_open : Z := 15.
Definition SYS_write : Z := 16.
Definition SYS_mknod : Z := 17.
Definition SYS_unlink : Z := 18.
Definition SYS_link : Z := 19.
Definition SYS_mkdir : Z := 20.
Definition SYS_close : Z := 21.
Definition SYS_printinfo : Z := 22.
Definition SYS_catsys : Z := 23.

Definition UART0_IRQ : Z := 10.
Definition VIRTIO0_IRQ : Z := 1.
Definition external_interrupt : Z := 0x8000000000000009.
Definition timer_interrupt : Z := 0x8000000000000005.

(** Offsets in [struct trapframe] besides those of the arguments. *)
Definition tf_kernel_satp : nat := 0.
Definition tf_kernel_sp : nat := 8.
Definition tf_kernel_trap : nat := 16.
Definition tf_kernel_hartid : nat := 32.

Definition SATP_SV39 : Z := Z.shiftl 8 60.
Definition MAKE_SATP (pagetable : Z) : Z := Z.lor SATP_SV39 (Z.shiftr pagetable 12).

Section trap.
Context {D : Type} {BIO : BlockIO D}.
Context (kend trampoline forkret : Z) (idle : nat → bool) (cons_chan ticks_chan : Z) (stk : list Z) (name : Z → list Z).
Context (spin : nat) (procdump : list Z).
Notation sys := (@Syscall.sys D).

(** ** System calls *)

Section call.
Context (cur : nat).

(** The table of handlers. *)
Definition syscalls (num : Z) : option (M sys Z) :=
  if bool_decide (num = SYS_fork) then Some (sys_fork kend trampoline forkret cur)
  else if bool_decide (num = SYS_exit) then Some (sys_exit kend cur)
  else if bool_decide (num = SYS_wait) then Some (sys_wait kend cur)
  else if bool_decide (num = SYS_pipe) then Some (sys_pipe kend cur)
  else if bool_decide (num = SYS_read) then Some (sys_read cons_chan cur)
  else if bool_decide (num = SYS_kill) then Some (sys_kill cur)
  else if bool_decide (num = SYS_exec) then Some (sys_exec kend trampoline stk cur)
  else if bool_decide (num = SYS_fstat) then Some (sys_fstat stk cur)
  else if bool_decide (num = SYS_chdir) then Some (sys_chdir stk cur)
  else if bool_decide (num = SYS_dup) then Some (sys_dup cur)
  else if bool_decide (num = SYS_getpid) then Some (sys_getpid cur)
  else if bool_decide (num = SYS_sbrk) then Some (sys_sbrk kend cur)
  else if bool_decide (num = SYS_sleep) then Some (sys_sleep ticks_chan cur)
  else if bool_decide (num = SYS_uptime) then Some sys_uptime
  else if bool_decide (num = SYS_open) then Some (sys_open kend stk cur)
  else if bool_decide (num = SYS_write) then Some (sys_write idle cur)
  else if bool_decide (num = SYS_unlink) then Some (sys_unlink stk cur)
  else if bool_decide (num = SYS_link) then Some (sys_link stk cur)
  else if bool_decide (num = SYS_mkdir) then Some (sys_mkdir stk cur)
  else if bool_decide (num = SYS_close) then Some (sys_close kend cur)
  else if bool_decide (num = SYS_printinfo) then Some (sys_printinfo kend stk cur name)
  else None.

Definition set_frame (off : nat) (v : Z) : M sys unit := p ← myproc cur; on_ps (on_mem (tf_put (trapframe p) off v)).
Definition get_frame (off : nat) : M sys Z := p ← myproc cur; on_ps (on_mem (tf_get (trapframe p) off)).

Definition syscall : M sys unit :=
  num ← get_frame tf_a7;
  enter cur;;
  match syscalls (s32 num) with
  | Some f => r ← f; set_frame tf_a0 (u64 r)
  | None => set_frame tf_a0 (u64 (-1))
  end.

(** ** Interrupts *)

(** [rx] are the characters the UART has; [first] says whether this is the hart
    that keeps the time. *)
Definition devintr (first : bool) (scause irq : Z) (rx : list Z) : M sys Z :=
  if bool_decide (scause = external_interrupt) then
    (if bool_decide (irq = UART0_IRQ) then
       woke ← on_ps (on_fs (on_console (Console.uartintr idle spin procdump rx)));
       when woke (on_ps (wakeup (ChAddr cons_chan) (Some cur)))
     else mret tt);;
    mret 1
  else if bool_decide (scause = timer_interrupt) then
    clockintr ticks_chan first (Some cur);;
    mret 2
  else mret 0.

(** ** Traps *)

Definition check_killed : M sys unit :=
  k ← on_ps (is_killed cur);
  if bool_decide (k ≠ 0) then on_ps (exit kend cur (-1)) else mret tt.

(** The program counter and the page table that user mode goes on with. *)
Definition usertrapret (kernel_satp usertrap_ptr hartid : Z) : M sys (Z * Z) :=
  p ← myproc cur;
  set_frame tf_kernel_satp kernel_satp;;
  set_frame tf_kernel_sp (u64 (kstack p + PGSIZE));;
  set_frame tf_kernel_trap usertrap_ptr;;
  set_frame tf_kernel_hartid hartid;;
  epc ← get_frame tf_epc;
  mret (epc, MAKE_SATP (pagetable p)).

Definition usertrap (kernel_satp usertrap_ptr hartid : Z) (first spp : bool) (scause sepc irq : Z) (rx : list Z) : M sys (Z * Z) :=
  if spp then panic "usertrap: not from user mode" else
  set_frame tf_epc sepc;;
  which_dev ← (if bool_decide (scause = 8) then
      check_killed;;
      epc ← get_frame tf_epc;
      set_frame tf_epc (u64 (epc + 4));;
      syscall;;
      mret 0
    else
      which_dev ← devintr first scause irq rx;
      when (bool_decide (which_dev = 0)) (on_ps (setkilled cur));;
      mret which_dev);
  check_killed;;
  when (bool_decide (which_dev = 2)) (on_ps (yield cur));;
  usertrapret kernel_satp usertrap_ptr hartid.
End call.
End trap.
End Trap.
