(* ===== verification/TrapSpec.v ===== *)
(** Traps keep processes apart: whatever a process asks the kernel for, and
    whatever interrupts it. *)

From stdpp Require Import functions relations.
From S2P Require Import Prelude Riscv CString Kalloc Vm PageTable UserMem UserCopy BlockIO Inode InodeSpec Dir Handles Console Proc ProcMem ProcSpec ProcStep File FileSpec Syscall Sysfile CallSpec SysSpec Exec ExecMem ExecSpec ExecRun Trap.
Import Kalloc Vm PageTable UserMem UserCopy Proc ProcMem ProcSpec ProcStep File FileSpec Syscall Sysfile CallSpec SysSpec Exec Trap.

Local Open Scope Z_scope.

Module TrapSpec.

Section trap.
Context {D : Type} {BIO : BlockIO D}.
Context (kend trampoline forkret : Z) (kend_pos : 0 < kend).
Hypothesis tramp_ok : pa_ok trampoline.
Hypothesis tramp_kernel : trampoline + 4096 ≤ 2 ^ 54.
Notation ps := (@Proc.ps (ftab D)).
Notation sys := (@Syscall.sys D).
Notation minv := (ProcSpec.minv kend trampoline).
Context (cur : nat).

(** ** The trap frame *)

Lemma frame_stored (s : ps) l T p y : minv s l T → procs s !! cur = Some p → state p ≠ UNUSED → is_page y →
  let k' := MkKmem (freelist (mem s)) (<[trapframe p := y]> (pmem (mem s))) in minv (put_mem k' s) l T ∧ others s T cur k'.
Proof.
  intros Hm Hp Hst Hy k'. destruct (mi_live _ _ _ _ _ Hm cur p Hp Hst) as (t & Ht & [Hroot Hsp (Htok & Htl & x & Hx & Hpx) Hself]).
  destruct (ExecSpec.pspace_write kend trampoline (mem s) l t (trapframe p) (sz p) (trapframe p) x y Hsp Hself Htl Hx) as (Hmv & Hsp' & _).
  assert (Hown : ∀ z, own t (trapframe p) z → z ∉ l) by (intros z [Hz| ->]; [by eapply upage_apart; [apply Hsp|]|done]).
  apply (minv_update_gen kend trampoline s l T cur p p k' l T (own t (trapframe p)) (own t (trapframe p)) (put_mem k' s) Hm Hp); try done.
  - eapply moves_ext; [apply (moves_frame _ _ _ _ _ _ _ (λ z, own t (trapframe p) z ∧ z ≠ trapframe p) Hmv)|..].
    + intros z [Hz Hne]. split; [by apply Hown|done].
    + intros z. unfold own. destruct (decide (z = trapframe p)); naive_solver.
    + intros z. unfold own. destruct (decide (z = trapframe p)); naive_solver.
  - intros z Hz. split; [by apply (mi_fsep _ _ _ _ _ Hm cur p t z)|].
    intros j q u Hj Hq Hu Ho. by apply (mi_sep _ _ _ _ _ Hm cur j p q t u z Hp Hq Ht Hu (not_eq_sym Hj) Hz).
  - intros _. exists t. split; [done|]. split; [|done]. split; [done|done| |done]. split; [done|]. split; [done|]. exists y. cbn. by rewrite lookup_insert_eq.
  - cbn. by rewrite list_insert_id.
Qed.

Lemma set_frame_run off v (s s' : sys) p l T : (off + 8 ≤ 4096)%nat → minv (st s) l T → procs (st s) !! cur = Some p → state p ≠ UNUSED →
  set_frame cur off v s = Ok tt s' → ∃ x y, pmem (mem (st s)) !! trapframe p = Some x ∧ y = wr 8 off v x ∧ is_page x ∧ is_page y ∧
    st s' = put_mem (MkKmem (freelist (mem (st s))) (<[trapframe p := y]> (pmem (mem (st s))))) (st s) ∧ ticks s' = ticks s.
Proof.
  intros Hoff Hm Hp Hst Hrun. destruct (mi_live _ _ _ _ _ Hm cur p Hp Hst) as (t & Ht & [_ _ (_ & _ & x & Hx & Hpx) _]).
  unfold set_frame, myproc, on_ps, mbind, M_bind, zoom in Hrun. rewrite (getp_run cur p (st s) Hp) in Hrun. cbn [st] in Hrun.
  rewrite (on_mem_run _ (st s) tt _ (tf_put_run (mem (st s)) _ off v x Hx)) in Hrun. injection Hrun as <-. exists x, (wr 8 off v x).
  split; [done|]. split; [done|]. split; [done|]. split; [apply is_page_wr; [done|lia]|]. done.
Qed.

(** ** Before a call *)

Context (s0 : ps) (T : gmap nat ptree).
Notation ended := (SysSpec.ended kend trampoline cur s0 T).
Notation call := (CallSpec.call kend trampoline cur s0 T).

Record begun (s : ps) : Prop := {
  bg_minv : ∃ l, minv s l T;
  bg_finv : finv s;
  bg_sinv : sinv s;
  bg_procs : procs s = procs s0;
  bg_init : initproc s = initproc s0;
  bg_others : others s0 T cur (mem s);
}.
Lemma begun_apart s : begun s → apart_from cur s0 T s T.
Proof.
  intros [_ _ _ Hp Hi Ho]. split; [|..|done].
  - intros j q _ Hq. exists q. rewrite Hp. split; [done|apply sim_refl].
  - intros j q t Hj Hq Ht. split; [done|]. by apply (Ho j q t).
Qed.

Context (p : proc) (p_cur : procs s0 !! cur = Some p) (p_run : state p = RUNNING).

Lemma begun_cur s : begun s → procs s !! cur = Some p.
Proof. intros Hb. by rewrite (bg_procs _ Hb). Qed.
Lemma begun_ended (s : sys) : begun (st s) → ended s.
Proof.
  intros Hb. destruct (bg_minv _ Hb) as (l & Hm). split; [exists l, T; split; [done|]; split; [apply Hb|]; split; [apply Hb|]; by apply spared_apart, begun_apart|].
  exists p. split; [by apply begun_cur|congruence].
Qed.
Lemma begun_frame off v (s : sys) : (off + 8 ≤ 4096)%nat → begun (st s) → pwp (set_frame cur off v) (λ _ s', begun (st s') ∧ fs (st s') = fs (st s)) s.
Proof.
  intros Hoff Hb. apply pwp_ok. intros [] s' Hrun. destruct (bg_minv _ Hb) as (l & Hm).
  destruct (set_frame_run off v s s' p l T Hoff Hm (begun_cur _ Hb) ltac:(congruence) Hrun) as (x & y & _ & _ & _ & Hy & -> & _).
  destruct (frame_stored (st s) l T p y Hm (begun_cur _ Hb) ltac:(congruence) Hy) as [Hm' Ho]. destruct Hb as [_ Hf Hs Hp Hi Ho0]. split; [|done]. split; try done.
  - by exists l.
  - destruct Hf. by split.
  - intros j q u Hj Hq Hu. eapply intact_trans; [by apply (Ho0 j q u)|]. apply (Ho j q u); [done|by rewrite Hp|done].
Qed.
Lemma begun_get off (s : sys) : pwp (get_frame cur off) (λ _ s', s' = s) s.
Proof.
  unfold get_frame. pwp_use (myproc_same cur). intros q s' [-> _]. apply same_reads. apply reads_tf_get.
Qed.
Lemma begun_enter (s : sys) : begun (st s) → pwp (enter cur) (λ _ s', begun (st s') ∧ call (λ x, sum_over (nfd x) (procs (st s'))) none [] p (st s') ∧
  files (fs (st s')) = files (fs (st s)) ∧ console_f (fs (st s')) = console_f (fs (st s)) ∧ mem (st s') = mem (st s)) s.
Proof.
  intros Hb. unfold enter. pwp_use (myproc_same cur). intros q s' [-> Hq]. rewrite (begun_cur _ Hb) in Hq. injection Hq as <-.
  apply pwp_zoom, pwp_zoom, pwp_zoom. unfold modify. apply pwp_ok. intros [] i' [= <-]. cbn [st fs mem files console_f].
  set (f' := with_ino (as_proc p (ino (fs (st s)))) (fs (st s))). change (MkPs _ _ _ _ f') with (put_fs f' (st s)).
  destruct (bg_minv _ Hb) as (l & Hm). assert (Hb' : begun (put_fs f' (st s))).
  { pose proof Hb as [_ Hf Hs Hp Hi Ho]. split; try done.
    - exists l. destruct Hm as [H1 H2 H3 H4 H5 H6 H7]. by split.
    - destruct Hf as [[F1 F2 F3 F4 F5 F6 F7 F8 F9 F10] G2 G3 G4]. split; try done. split; try done. destruct F4 as [R1 R2 R3 R4]. by split. }
  split; [done|]. split; [|done]. destruct (bg_minv _ Hb') as (l' & Hm').
  apply (call_start kend trampoline cur s0 T l'); [by apply begun_apart|done|apply Hb'|apply Hb'|by apply begun_cur|done|done].
Qed.

(** ** Calls on processes *)

Lemma begun_good s s' : begun s → good kend trampoline cur s T s' → good kend trampoline cur s0 T s'.
Proof.
  intros Hb (l' & T' & Hm & Hf & Hs & Hsp). exists l', T'. split; [done|]. split; [done|]. split; [done|].
  intros j q t Hj Hq Hst Ht. pose proof Hq as Hq'. rewrite <-(bg_procs _ Hb) in Hq'.
  destruct (Hsp j q t Hj Hq' Hst Ht) as [(Hex & Ht' & Hi)|Hr]; [left|by right]. split; [done|]. split; [done|].
  eapply intact_trans; [by apply (bg_others _ Hb j q t)|done].
Qed.
Lemma begun_still (s s' : ps) : begun s → still s s' → ∃ q, procs s' !! cur = Some q ∧ state q ≠ UNUSED.
Proof.
  intros Hb [Hq _]. destruct (quiet_lookup_l _ _ _ _ Hq (begun_cur s Hb)) as (q & Hq' & Hs). exists q. split; [done|].
  intros Hu. apply (sim_unused _ _ Hs) in Hu. congruence.
Qed.
Lemma call_run {A} (m : M ps A) (s : sys) : begun (st s) →
  (∀ l a s', minv (st s) l T → finv (st s) → sinv (st s) → running (st s) cur p → m (st s) = Ok a s' →
    good kend trampoline cur (st s) T s' ∧ ∃ q, procs s' !! cur = Some q ∧ state q ≠ UNUSED) →
  pwp (on_ps m) (λ _, ended) s.
Proof.
  intros Hb H. apply pwp_ok. intros a s' Hrun. unfold on_ps, zoom in Hrun. destruct (m (st s)) as [a' s1| | | |] eqn:Hm; try done. injection Hrun as <- <-.
  destruct (bg_minv _ Hb) as (l & Hml). destruct (H l a' s1 Hml (bg_finv _ Hb) (bg_sinv _ Hb)) as [Hg Hq]; [split; [by apply begun_cur|done]|done|].
  split; [by eapply begun_good|done].
Qed.

Lemma sys_fork_ends (s : sys) : begun (st s) → pwp (sys_fork kend trampoline forkret cur) (λ _, ended) s.
Proof.
  intros Hb. apply call_run; [done|]. intros l r s' Hm Hf Hs Hr Hrun. split; [by eapply good_fork|]. destruct Hr as [Hp Hr].
  destruct (mi_live _ _ _ _ _ Hm cur p Hp ltac:(congruence)) as (t & Ht & _).
  destruct (fork_run kend trampoline forkret kend_pos tramp_ok tramp_kernel (st s) l T cur p t Hm Hf Hp Hr Ht) as (r' & s2 & l' & T' & Hrun' & _ & _ & Hk & _).
  rewrite Hrun in Hrun'. injection Hrun' as <- <-. exists p. destruct (Hk cur p Hp) as [Hp' _]; [congruence|]. split; [done|congruence].
Qed.
Lemma sys_wait_ends R (s : sys) : begun (st s) → call R none [] p (st s) → pwp (sys_wait kend cur) (λ _, ended) s.
Proof.
  intros Hb Hc. unfold sys_wait. pwp_use (argaddr_call kend trampoline cur s0 T Hc 0). intros addr s' [-> Ha]. apply call_run; [done|].
  intros l r s' Hm Hf Hs Hr Hrun. split; [by eapply good_wait|]. destruct Hr as [Hp Hr]. destruct (mi_live _ _ _ _ _ Hm cur p Hp ltac:(congruence)) as (t & Ht & _).
  destruct (wait_run kend trampoline kend_pos (st s) l T cur p t addr Hm Hf Hs Hp Hr Ht Ha) as [(r' & s2 & l' & T' & Hrun' & _ & _ & _ & _ & Hres)|(_ & [[Hrun' _]|[Hrun' _]])];
    rewrite Hrun in Hrun'; [|injection Hrun' as -> ->; exists p; split; [done|congruence]|done].
  injection Hrun' as <- <-. exists p. split; [|congruence].
  destruct Hres as [(i & z & k1 & Hz & _ & Hst & _ & _ & _ & Hps & _)|(i & z & _ & _ & _ & _ & _ & _ & Hps & _)]; rewrite Hps; [|done].
  rewrite list_lookup_insert_ne; [done|]. intros ->. congruence.
Qed.
Lemma sys_sbrk_ends R (s : sys) : begun (st s) → call R none [] p (st s) → pwp (sys_sbrk kend cur) (λ _, ended) s.
Proof.
  intros Hb Hc. unfold sys_sbrk. pwp_use (argint_call kend trampoline cur s0 T Hc 0). intros n s' [-> Hn]. pwp_use (myproc_same cur). intros q s' [-> _]. cbv zeta.
  pwp_use (call_run (growproc kend cur n) s Hb).
  - intros l r s' Hm Hf Hs Hr Hrun. split; [by eapply good_sbrk|]. destruct Hr as [Hp Hr]. destruct (mi_live _ _ _ _ _ Hm cur p Hp ltac:(congruence)) as (t & Ht & Hh).
    destruct (growproc_mem kend trampoline kend_pos (st s) l t p n Hh Hn cur Hp) as (r' & k' & l' & t' & size' & Hrun' & _). rewrite Hrun in Hrun'. injection Hrun' as <- ->.
    exists (set_sz size' p). split; [by eapply put_proc_lookup|cbn; congruence].
  - intros r s' He. by pwp_pures.
Qed.
Lemma sys_kill_ends R (s : sys) : begun (st s) → call R none [] p (st s) → pwp (sys_kill cur) (λ _, ended) s.
Proof.
  intros Hb Hc. unfold sys_kill. pwp_use (argint_call kend trampoline cur s0 T Hc 0). intros n s' [-> Hn]. apply call_run; [done|].
  intros l r s' Hm Hf Hs Hr Hrun. destruct (kill_from_run n (Z.to_nat NPROC) 0 (st s)) as (r' & s2 & Hrun' & Hst & _); [by rewrite (mi_len _ _ _ _ _ Hm)|].
  unfold kill in Hrun. rewrite Hrun in Hrun'. injection Hrun' as <- <-. split; [by eapply good_still|by eapply begun_still].
Qed.
Lemma sys_exit_ends R (s : sys) : call R none [] p (st s) → pwp (sys_exit kend cur) (λ _, ended) s.
Proof.
  intros Hc. unfold sys_exit. pwp_use (argint_call kend trampoline cur s0 T Hc 0). intros n s' [-> _]. apply pwp_bind, exit_pwp.
Qed.
Lemma sys_getpid_ends (s : sys) : begun (st s) → pwp (sys_getpid cur) (λ _, ended) s.
Proof. intros Hb. unfold sys_getpid. pwp_use (myproc_same cur). intros q s' [-> _]. apply pwp_ret. by apply begun_ended. Qed.
Lemma sys_sleep_ends R ticks_chan (s : sys) : begun (st s) → call R none [] p (st s) → pwp (sys_sleep ticks_chan cur) (λ _, ended) s.
Proof.
  intros Hb Hc. unfold sys_sleep, sleep_loop. pwp_use (argint_call kend trampoline cur s0 T Hc 0). intros n s' [-> _]. cbv zeta.
  apply pwp_bind, pwp_get, pwp_bind, pwp_get. apply pwp_if; intros _; [|apply pwp_ret; by apply begun_ended].
  pwp_use (on_ps_pwp (is_killed cur) (λ _ s', s' = st s)).
  { unfold is_killed, getp. pwp_pures. done. }
  intros k s' Hs'. apply pwp_if; intros _; [apply pwp_ret; apply begun_ended; by rewrite Hs'|apply sleep_pwp].
Qed.
Lemma sys_uptime_ends (s : sys) : begun (st s) → pwp sys_uptime (λ _, ended) s.
Proof. intros Hb. unfold sys_uptime. pwp_pures. by apply begun_ended. Qed.

(** ** After a call *)

Lemma ended_still (s : sys) s' n : ended s → still (st s) s' → ended (MkSys s' n).
Proof.
  intros [(l & T' & Hm & Hf & Hs & Hsp) (q & Hq & Hst)] Hstill. pose proof (good_still kend trampoline cur (st s) s' l T' Hm Hf Hs Hstill) as (l2 & T2 & Hm2 & Hf2 & Hs2 & _).
  destruct Hstill as [Hqt Hc]. split.
  - exists l, T'. split; [by eapply minv_quiet|]. split; [done|]. split; [done|]. intros j r t Hj Hr Hu Ht.
    destruct (Hsp j r t Hj Hr Hu Ht) as [((r' & Hr' & Hsim) & Ht' & Hi)|(Hz & Hpar & r' & Hr' & Hu')]; destruct (quiet_lookup_l _ _ _ _ Hqt Hr') as (r2 & Hr2 & Hsim2).
    + left. split; [exists r2; split; [done|by eapply sim_trans]|]. split; [done|]. cbn [st]. rewrite (qt_mem _ _ Hqt). done.
    + right. split; [done|]. split; [done|]. exists r2. split; [done|]. by apply (sim_unused _ _ Hsim2).
  - destruct (quiet_lookup_l _ _ _ _ Hqt Hq) as (q2 & Hq2 & Hsim). exists q2. split; [done|]. by rewrite (sim_unused _ _ Hsim).
Qed.
Lemma ended_frame off v (s : sys) : (off + 8 ≤ 4096)%nat → ended s → pwp (set_frame cur off v) (λ _, ended) s.
Proof.
  intros Hoff [(l & T' & Hm & Hf & Hs & Hsp) (q & Hq & Hst)]. apply pwp_ok. intros [] s' Hrun.
  destruct (set_frame_run off v s s' q l T' Hoff Hm Hq Hst Hrun) as (x & y & _ & _ & _ & Hy & Hs' & _).
  destruct (frame_stored (st s) l T' q y Hm Hq Hst Hy) as [Hm' Ho]. unfold SysSpec.ended. rewrite Hs'. split; [|by exists q].
  exists l, T'. split; [done|]. split; [destruct Hf; by split|]. split; [done|]. intros j r t Hj Hr Hu Ht.
  destruct (Hsp j r t Hj Hr Hu Ht) as [((r' & Hr' & Hsim) & Ht' & Hi)|Hright]; [left|by right]. split; [by exists r'|]. split; [done|].
  eapply intact_trans; [done|]. destruct (Ho j r' t Hj Hr' Ht') as [H1 H2]. split; [done|]. by rewrite <-(sim_trapframe _ _ Hsim).
Qed.

Lemma ended_console {A} (m : M Console.console A) (s : sys) : ended s → pwp (on_ps (on_fs (on_console m))) (λ _, ended) s.
Proof.
  intros [(l & T' & Hm & Hf & Hs & Hsp) Hq]. do 3 apply pwp_zoom. apply pwp_ok. intros a c _. split; [|done].
  exists l, T'. split; [destruct Hm as [H1 H2 H3 H4 H5 H6 H7]; by split|]. split; [|done].
  destruct Hf as [[F1 F2 F3 F4 F5 F6 F7 F8 F9 F10] G2 G3 G4]. by split.
Qed.
Lemma ended_wakeup ch who (s : sys) : ended s → pwp (on_ps (wakeup ch who)) (λ _, ended) s.
Proof.
  intros He. apply pwp_ok. intros [] s' Hrun. unfold on_ps, zoom in Hrun. destruct (still_wakeup ch who (st s)) as (s1 & Hw & Hst & _).
  rewrite Hw in Hrun. injection Hrun as <-. by eapply ended_still.
Qed.
Lemma ended_setkilled (s : sys) : ended s → pwp (on_ps (setkilled cur)) (λ _, ended) s.
Proof.
  intros He. pose proof He as [_ (q & Hq & _)]. apply pwp_ok. intros [] s' Hrun. unfold on_ps, zoom, setkilled in Hrun.
  erewrite setp_run in Hrun by exact Hq. injection Hrun as <-. eapply ended_still; [done|]. eapply still_put; [done|by split|by split].
Qed.
Lemma check_killed_same (s : sys) : pwp (check_killed kend cur) (λ _ s', st s' = st s) s.
Proof.
  unfold check_killed. pwp_use (on_ps_pwp (is_killed cur) (λ _ s', s' = st s)).
  { unfold is_killed, getp. pwp_pures. done. }
  intros k s' Hs'. apply pwp_if; intros _; [apply exit_pwp|]. by apply pwp_ret.
Qed.
Lemma check_killed_ends (s : sys) : ended s → pwp (check_killed kend cur) (λ _, ended) s.
Proof. intros He. eapply pwp_mono; [apply check_killed_same|]. cbv beta. intros _ s' Hs'. unfold SysSpec.ended. by rewrite Hs'. Qed.
Lemma yield_pwp {A} (Q : A → sys → Prop) s : pwp (on_ps (yield cur)) Q s.
Proof. apply pwp_zoom. unfold yield, sched. repeat (pwp_pures; try (apply pwp_ok; intros ? ? _)). Qed.

(** ** Whole traps *)

Context (idle : nat → bool) (cons_chan ticks_chan : Z) (stk : list Z) (name : Z → list Z) (spin : nat) (procdump : list Z).
Context (Hstk : (64 ≤ length stk)%nat) (Hbytes : bytes stk).

Lemma devintr_ends first scause irq rx (s : sys) : ended s → pwp (devintr idle cons_chan ticks_chan spin procdump cur first scause irq rx) (λ _, ended) s.
Proof.
  intros He. unfold devintr, clockintr. apply pwp_if; intros _; [|apply pwp_if; intros _; [|by apply pwp_ret]].
  - eapply pwp_bind, (pwp_mono _ (λ _, ended)); [|intros; by apply pwp_ret]. apply pwp_if; intros _; [|by apply pwp_ret].
    pwp_use ended_console; [done|]. intros woke s1 H1. destruct woke; [by apply ended_wakeup|by apply pwp_ret].
  - eapply pwp_bind, (pwp_mono _ (λ _, ended)); [|intros; by apply pwp_ret]. destruct first; [|by apply pwp_ret].
    pwp_pures. eapply ended_wakeup, (ended_still s); [done|apply still_refl].
Qed.

Lemma sys_exec_ends (s : sys) : begun (st s) → Inode.cwd (ino (fs (st s))) = iidx (cwd p) → pwp (sys_exec kend trampoline stk cur) (λ _, ended) s.
Proof.
  intros Hb Hcw. destruct (bg_minv _ Hb) as (l & Hm). pose proof (begun_cur _ Hb) as Hp.
  destruct (mi_live _ _ _ _ _ Hm cur p Hp ltac:(congruence)) as (u & Hu & [_ _ (_ & _ & x & Hx & Hpx) _]).
  pose proof (call_start kend trampoline cur (st s) T l p (st s) (apart_quiet cur _ _ T (quiet_refl _)) Hm (bg_finv _ Hb) (bg_sinv _ Hb) Hp p_run Hcw) as Hc.
  eapply pwp_mono; [apply gwp_pwp, (ExecRun.sys_exec_call kend trampoline kend_pos stk Hstk cur (st s) T (λ x, sum_over (nfd x) (procs (st s))) p false (λ _, ExecRun.any) s u x); try done|].
  - by eapply ExecSpec.start_ecall.
  - intros y path argv args s1 He _ _ _ _ _ Hin _. by apply ExecRun.exec_call.
  - cbv beta. intros r s' [[Hg Hq] _]. split; [by eapply begun_good|done].
Qed.

Lemma call_ends num f (s : sys) : begun (st s) → call (λ x, sum_over (nfd x) (procs (st s))) none [] p (st s) → console_ok (fs (st s)) →
  syscalls kend trampoline forkret idle cons_chan ticks_chan stk name cur num = Some f → pwp f (λ _, ended) s.
Proof.
  intros Hb Hc Hco Hf. unfold syscalls in Hf. repeat (destruct (bool_decide _) in Hf; [injection Hf as <-|]); [..|done].
  - by apply sys_fork_ends.
  - by eapply sys_exit_ends.
  - by eapply sys_wait_ends.
  - by eapply sys_pipe_ends.
  - by eapply sys_read_ends.
  - by eapply sys_kill_ends.
  - apply sys_exec_ends; [done|apply Hc].
  - by eapply sys_fstat_ends.
  - by eapply sys_chdir_ends.
  - by eapply sys_dup_ends.
  - by apply sys_getpid_ends.
  - by eapply sys_sbrk_ends.
  - by eapply sys_sleep_ends.
  - by apply sys_uptime_ends.
  - by eapply sys_open_ends.
  - by eapply sys_write_ends.
  - by eapply sys_unlink_ends.
  - by eapply sys_link_ends.
  - by eapply sys_mkdir_ends.
  - by eapply sys_close_ends.
  - by eapply sys_printinfo_ends.
Qed.

Notation syscall := (Trap.syscall kend trampoline forkret idle cons_chan ticks_chan stk name cur).
Lemma syscall_ends (s : sys) : begun (st s) → console_ok (fs (st s)) → pwp syscall (λ _, ended) s.
Proof.
  intros Hb Hco. unfold Trap.syscall. pwp_use begun_get. intros num s' ->. pwp_use begun_enter; [done|]. intros [] s1 (Hb1 & Hc1 & Hfs & Hcf & _).
  assert (Hco1 : console_ok (fs (st s1))).
  { destruct Hco as [H1 H2]. split; [intros i x; rewrite Hfs, Hcf; apply H1|intros i x; rewrite Hfs, Hcf; apply H2]. }
  destruct (syscalls _ _ _ _ _ _ _ _ _ _) as [f|] eqn:Hf; [pwp_use (call_ends _ f s1 Hb1 Hc1 Hco1 Hf); intros r s2 H2|].
  - apply ended_frame; [unfold tf_a0; lia|done].
  - apply ended_frame; [unfold tf_a0; lia|]. by apply begun_ended.
Qed.
Lemma usertrapret_ends ks ut hart (s : sys) : ended s → pwp (usertrapret cur ks ut hart) (λ _, ended) s.
Proof.
  intros He. unfold usertrapret. pwp_use (myproc_same cur). intros q s' [-> _]. do 4 (pwp_use ended_frame; [unfold tf_kernel_satp, tf_kernel_sp, tf_kernel_trap, tf_kernel_hartid; lia|eassumption|]; clear He; intros [] ? He).
  pwp_use begun_get. intros epc s9 ->. by apply pwp_ret.
Qed.
Lemma usertrap_ends ks ut hart first spp scause sepc irq rx (s : sys) : begun (st s) → console_ok (fs (st s)) →
  pwp (usertrap kend trampoline forkret idle cons_chan ticks_chan stk name spin procdump cur ks ut hart first spp scause sepc irq rx) (λ _, ended) s.
Proof.
  intros Hb Hco. unfold usertrap. apply pwp_if; intros _; [exact I|]. pwp_use begun_frame; [unfold tf_epc; lia|done|]. intros [] s1 [Hb1 Hfs1].
  apply pwp_bind, (pwp_mono _ (λ _, ended)).
  - apply pwp_if; intros _.
    + pwp_use check_killed_same. intros [] s2 Hs2. pwp_use begun_get. intros epc s' ->. rewrite <-Hs2 in Hb1, Hfs1.
      pwp_use begun_frame; [unfold tf_epc; lia|done|]. intros [] s3 [Hb3 Hfs3]. pwp_use syscall_ends; [done|by rewrite Hfs3, Hfs1|]. intros [] s4 H4. by apply pwp_ret.
    + pwp_use devintr_ends; [by apply begun_ended|]. intros w s2 H2. eapply pwp_bind, (pwp_mono _ (λ _, ended)); [|intros; by apply pwp_ret].
      destruct (bool_decide (w = 0)); [by apply ended_setkilled|by apply pwp_ret].
  - intros w s2 H2. pwp_use check_killed_ends; [done|]. intros [] s3 H3. apply pwp_bind. destruct (bool_decide (w = 2)); [apply yield_pwp|].
    apply pwp_ret. by apply usertrapret_ends.
Qed.

(** ** Parts of calls *)

(** A transfer of [read] or [write], whether or not the call then sleeps. *)
Lemma read_ends x va n killed (s : sys) : begun (st s) → 0 ≤ va < 2 ^ 64 →
  pwp (enter cur;; on_ps (on_file (fileread cons_chan (pagetable p) killed x va n))) (λ _, ended) s.
Proof.
  intros Hb Hva. pwp_use begun_enter; [done|]. intros [] s1 (_ & Hc & _). eapply pwp_mono; [apply (on_ps_pwp _ (λ _, call (λ y, sum_over (nfd y) (procs (st s1))) none [] p))|].
  - eapply (at_file kend trampoline cur s0 T); [exact Hc|]. by apply at_fileread.
  - cbv beta. intros r s' Hs'. by eapply call_ended.
Qed.
Lemma write_ends x va n killed (s : sys) : begun (st s) →
  pwp (enter cur;; on_ps (on_file (filewrite idle (pagetable p) killed x va n))) (λ _, ended) s.
Proof.
  intros Hb. pwp_use begun_enter; [done|]. intros [] s1 (_ & Hc & _). eapply pwp_mono; [apply (on_ps_pwp _ (λ _, call (λ y, sum_over (nfd y) (procs (st s1))) none [] p))|].
  - eapply (at_file kend trampoline cur s0 T); [exact Hc|]. by apply at_filewrite.
  - cbv beta. intros r s' Hs'. by eapply call_ended.
Qed.
Lemma print_ends (s : sys) : begun (st s) → pwp (enter cur;; on_inodes Dir.print_root_files) (λ _, ended) s.
Proof.
  intros Hb. pwp_use begun_enter; [done|]. intros [] s1 (_ & Hc & _).
  eapply pwp_mono; [apply (on_inodes_call kend trampoline cur s0 T _ (λ _, []) (λ y, sum_over (nfd y) (procs (st s1))) none [] p); [exact Hc|]|cbv beta; intros; by eapply call_ended].
  intros. by apply Handles.held_print_root_files.
Qed.
End trap.

(** ** Executions *)

Section kernel.
Context {D : Type} {BIO : BlockIO D}.
Context (kend trampoline forkret : Z) (kend_pos : 0 < kend).
Hypothesis tramp_ok : pa_ok trampoline.
Hypothesis tramp_kernel : trampoline + 4096 ≤ 2 ^ 54.
Context (idle : nat → bool) (cons_chan ticks_chan : Z) (stk : list Z) (name : Z → list Z) (spin : nat) (procdump : list Z).
Context (Hstk : (64 ≤ length stk)%nat) (Hbytes : bytes stk).
Notation ps := (@Proc.ps (ftab D)).
Notation sys := (@Syscall.sys D).
Notation minv := (ProcSpec.minv kend trampoline).
Notation usertrap := (Trap.usertrap kend trampoline forkret idle cons_chan ticks_chan stk name spin procdump).
Notation devintr := (Trap.devintr idle cons_chan ticks_chan spin procdump).

(** What can happen next on behalf of process [cur].  [ks_proc] has what ends in
    the scheduler, and the stores of user code; [ks_regs] puts the user's
    registers in the trap frame; [ks_trap] is a trap from user space that
    returns to it; [ks_read] and [ks_write] are the transfers of calls that go on
    to sleep, or were asleep; [ks_print] and the two after it are [printinfo] up
    to the [exit] it ends in; [ks_intr] is an interrupt while the kernel runs.
    Each step says of what kind it is. *)
Inductive kind := Trapping | Listing | Plain.
Inductive kstep (cur : nat) (s : sys) : kind → sys → Prop :=
  | ks_proc s' : pstep kend trampoline forkret cur (st s) s' → kstep cur s Plain (MkSys s' (ticks s))
  | ks_regs p x : running (st s) cur p → is_page x →
      kstep cur s Plain (MkSys (put_mem (MkKmem (freelist (mem (st s))) (<[trapframe p := x]> (pmem (mem (st s))))) (st s)) (ticks s))
  | ks_trap p ks ut hart first spp scause sepc irq rx r s' : running (st s) cur p →
      usertrap cur ks ut hart first spp scause sepc irq rx s = Ok r s' → kstep cur s Trapping s'
  | ks_read p x va n killed r s' : running (st s) cur p → 0 ≤ va < 2 ^ 64 →
      (enter cur;; on_ps (on_file (fileread cons_chan (pagetable p) killed x va n))) s = Ok r s' → kstep cur s Plain s'
  | ks_write p x va n killed r s' : running (st s) cur p →
      (enter cur;; on_ps (on_file (filewrite idle (pagetable p) killed x va n))) s = Ok r s' → kstep cur s Plain s'
  | ks_print p r s' : running (st s) cur p → (enter cur;; on_inodes Dir.print_root_files) s = Ok r s' → kstep cur s Plain s'
  | ks_print_cwd p r s' : running (st s) cur p → (enter cur;; on_inodes Dir.print_cwd_files) s = Ok r s' → kstep cur s Listing s'
  | ks_print_cat p va r s' : running (st s) cur p → (enter cur;; on_inodes (Dir.print_cat_file stk (name va))) s = Ok r s' → kstep cur s Listing s'
  | ks_intr p first scause irq rx r s' : running (st s) cur p → devintr cur first scause irq rx s = Ok r s' → kstep cur s Plain s'.

(** The steps the theorems are about.  [printinfo] of the files of the current
    directory drops a reference that is not its own, and of the contents of a
    file it keeps one (see [cwd_listing_breaks_count]): no execution with one of
    them is covered.  A trap is covered as long as the console is as
    [console_ok] says: no other file has its device number, and it was set up in
    a slot that no file with an inode had before. *)
Definition tame (s : sys) (k : kind) : Prop :=
  match k with Trapping => console_ok (fs (st s)) | Listing => False | Plain => True end.
Definition tstep (s s' : sys) : Prop := ∃ cur k, kstep cur s k s' ∧ tame s k.

Lemma begun_start cur (s : ps) l T : minv s l T → finv s → sinv s → begun kend trampoline cur s T s.
Proof. intros Hm Hf Hs. split; try done. by exists l. Qed.

Lemma kstep_good cur k (s s' : sys) l T : minv (st s) l T → finv (st s) → sinv (st s) → kstep cur s k s' → tame s k → good kend trampoline cur (st s) T (st s').
Proof.
  intros Hm Hf Hs Hstep Hco. pose proof (begun_start cur (st s) l T Hm Hf Hs) as Hb.
  destruct Hstep as [s' Hp|p x [Hp Hr] Hx|p ks ut hart first spp scause sepc irq rx r s' [Hp Hr] Hrun|p x va n kd r s' [Hp Hr] Hva Hrun
    |p x va n kd r s' [Hp Hr] Hrun|p r s' [Hp Hr] Hrun|p r s' _ _|p va r s' _ _|p first scause irq rx r s' [Hp Hr] Hrun].
  - by eapply pstep_good.
  - destruct (frame_stored kend trampoline cur (st s) l T p x Hm Hp ltac:(congruence) Hx) as [Hm' Ho]. exists l, T. split; [done|].
    split; [destruct Hf; by split|]. split; [done|]. intros j q t Hj Hq _ Ht. left. split; [exists q; split; [done|apply sim_refl]|]. split; [done|]. by apply (Ho j q t).
  - by apply (proj1 (pwp_ok _ _ _) (usertrap_ends kend trampoline forkret kend_pos tramp_ok tramp_kernel cur (st s) T p Hp Hr idle cons_chan ticks_chan stk name spin procdump
      Hstk Hbytes ks ut hart first spp scause sepc irq rx s Hb Hco) r s' Hrun).
  - by apply (proj1 (pwp_ok _ _ _) (read_ends kend trampoline kend_pos cur (st s) T p Hp Hr cons_chan x va n kd s Hb Hva) r s' Hrun).
  - by apply (proj1 (pwp_ok _ _ _) (write_ends kend trampoline cur (st s) T p Hp Hr idle x va n kd s Hb) r s' Hrun).
  - by apply (proj1 (pwp_ok _ _ _) (print_ends kend trampoline cur (st s) T p Hp Hr s Hb) r s' Hrun).
  - destruct Hco.
  - destruct Hco.
  - by apply (proj1 (pwp_ok _ _ _) (devintr_ends kend trampoline cur (st s) T idle cons_chan ticks_chan spin procdump first scause irq rx s
      (begun_ended kend trampoline cur (st s) T p Hp Hr s Hb)) r s' Hrun).
Qed.

Lemma kernel_inv (s0 : sys) l0 T0 s :
  minv (st s0) l0 T0 → finv (st s0) → sinv (st s0) → rtc tstep s0 s → ∃ l T, minv (st s) l T ∧ finv (st s) ∧ sinv (st s).
Proof.
  intros Hm Hf Hs Hsteps. revert l0 T0 Hm Hf Hs. induction Hsteps as [s|s s1 s2 (cur & k & Hst & Ht) _ IH]; intros l0 T0 Hm Hf Hs; [eauto|].
  destruct (kstep_good cur k s s1 l0 T0 Hm Hf Hs Hst Ht) as (l1 & T1 & Hm1 & Hf1 & Hs1 & _). by eapply IH.
Qed.

(** C1: the kernel isolates processes from one another.  The executions are
    those of the steps above, from a state that satisfies the invariants: any
    interleaving of processes that compute, change their registers, trap into
    the kernel for a system call, a fault or an interrupt, resume a blocked read
    or write, sleep and are scheduled; except those in which a process calls
    [printinfo] to list its directory or to print a file, or traps while the
    console's file is not as [console_ok] says ([tame]).  In them memory stays
    partitioned: each page of a process, its page table, memory or trap frame,
    is neither free, nor a pipe's, nor another process's.  And whatever process
    runs such a step, it spares the others: each keeps its address space byte
    for byte, its registers, its descriptors and its directory, except a child
    that [wait] reaps. *)
Theorem kernel_isolates (s0 : sys) l0 T0 s :
  minv (st s0) l0 T0 → finv (st s0) → sinv (st s0) → rtc tstep s0 s →
  ∃ l T, minv (st s) l T ∧ finv (st s) ∧
    (∀ i p t x, procs (st s) !! i = Some p → T !! i = Some t → state p ≠ UNUSED → own t (trapframe p) x →
       x ∉ l ∧ ¬ fpages (fs (st s)) x ∧
       ∀ j q u, j ≠ i → procs (st s) !! j = Some q → T !! j = Some u → ¬ own u (trapframe q) x) ∧
    ∀ cur k s', kstep cur s k s' → tame s k → ∃ l' T', minv (st s') l' T' ∧ spared cur (st s) T (st s') T'.
Proof.
  intros Hm Hf Hs Hsteps.
  destruct (kernel_inv s0 l0 T0 s Hm Hf Hs Hsteps) as (l & T & Hm' & Hf' & Hs'). exists l, T. split; [done|]. split; [done|]. split.
  - intros i p t x Hp Ht Hl Ho. destruct (mi_live _ _ _ _ _ Hm' i p Hp Hl) as (t' & Ht' & Hh). simplify_eq.
    split; [by eapply own_apart|]. split; [by eapply (mi_fsep _ _ _ _ _ Hm')|].
    intros j q u Hj Hq Hu. by eapply (mi_sep _ _ _ _ _ Hm' i j).
  - intros cur k s' Hst Ht. destruct (kstep_good cur k s s' l T Hm' Hf' Hs' Hst Ht) as (l' & T' & ? & _ & _ & ?). eauto.
Qed.

(** An open file: its tag says which of its fields are meaningful, and those
    refer to a live object. *)
Definition file_typed (f : ftab D) (j : nat) (x : file) : Prop :=
  match f_type x with
  | FD_NONE => True
  | FD_PIPE => ∃ pi, pipes f !! f_pipe x = Some pi ∧ side (f_writable x) pi = true
  | FD_INODE => ∃ ip y, f_ip x = Some ip ∧ Inode.itab (ino f) !! ip = Some y ∧ 0 < Inode.i_ref y
  | FD_DEVICE => console_f f = fptr j ∨ ∃ ip y, f_ip x = Some ip ∧ Inode.itab (ino f) !! ip = Some y ∧ 0 < Inode.i_ref y
  end.
Lemma counted_entry (i : Inode.fs D) R ip : InodeSpec.refs_ok i R → 0 < R ip → ∃ y, Inode.itab i !! ip = Some y ∧ 0 < Inode.i_ref y.
Proof.
  intros Hi Hp. assert (Hlt : (ip < Inode.NINODE)%nat).
  { destruct (decide (ip < Inode.NINODE)%nat) as [?|Hge]; [done|]. pose proof (InodeSpec.ro_out _ _ Hi ip ltac:(lia)). lia. }
  rewrite <-(InodeSpec.ro_len _ _ Hi) in Hlt. destruct (lookup_lt_is_Some_2 _ _ Hlt) as [y Hy]. exists y. split; [done|].
  by destruct (InodeSpec.ro_cnt _ _ Hi ip y Hy) as [-> _].
Qed.
Lemma inode_typed (f : ftab D) R I j x ip : fok_at f R I → files f !! j = Some x → 0 < f_ref x → f_type x = FD_INODE ∨ f_type x = FD_DEVICE → f_ip x = Some ip →
  ∃ y, Inode.itab (ino f) !! ip = Some y ∧ 0 < Inode.i_ref y.
Proof.
  intros Hf Hx Hr Ht Hip. apply (counted_entry _ _ ip (fk_ino _ _ _ Hf)). assert (Hh : holds_ip ip x = 1) by (unfold holds_ip; by rewrite decide_True).
  pose proof (sum_over_ge (holds_ip ip) _ j x (λ g, proj1 (holds_ip_range ip g)) Hx). pose proof (fk_pos _ _ _ Hf (iptr ip)). cbn. lia.
Qed.
Lemma fok_typed (f : ftab D) R I j x : fok_at f R I → files f !! j = Some x → 0 < f_ref x → file_typed f j x.
Proof.
  intros Hf Hx Hr. pose proof (fk_kind _ _ _ Hf j x Hx Hr) as Hk. unfold kind_ok, file_typed in *. destruct (f_type x) eqn:Ht; [done|..].
  - assert (He : pipe_end (f_pipe x) (f_writable x) x) by done. destruct (pk_file _ _ (fk_pipes _ _ _ Hf) j x _ _ Hx He) as [pi Hpi].
    exists pi. split; [done|]. apply (pk_side _ _ (fk_pipes _ _ _ Hf) _ pi _ Hpi). by exists j, x.
  - destruct Hk as [ip Hip]. destruct (inode_typed f R I j x ip Hf Hx Hr ltac:(auto) Hip) as (y & ? & ?). by exists ip, y.
  - destruct Hk as [Hs|[ip Hip]]; [left; by apply bool_decide_eq_true in Hs|right].
    destruct (inode_typed f R I j x ip Hf Hx Hr ltac:(auto) Hip) as (y & ? & ?). by exists ip, y.
Qed.

(** C11: descriptors are well typed in every execution of [tame] steps, that
    is, as long as no process calls [printinfo] to list its directory or print a
    file, and the console's file is as [console_ok] says when a process traps.
    Each entry of the descriptor table of a process is null or points to an open
    file with at least one reference, and the file's tag says what it holds: a
    pipe that is allocated and open on the side of the file, an inode-table
    entry in use, or the console, the only device file that has no inode.  The
    directory of a live process is an inode-table entry in use. *)
Theorem descriptors_typed (s0 : sys) l0 T0 s i p :
  minv (st s0) l0 T0 → finv (st s0) → sinv (st s0) → rtc tstep s0 s → procs (st s) !! i = Some p →
  (∀ fd x, ofile p !! fd = Some x → x ≠ 0 →
    ∃ j f, x = fptr j ∧ files (fs (st s)) !! j = Some f ∧ 0 < f_ref f ∧ file_typed (fs (st s)) j f) ∧
  (state p ≠ UNUSED → state p ≠ ZOMBIE → ∃ ip y, cwd p = iptr ip ∧ Inode.itab (ino (fs (st s))) !! ip = Some y ∧ 0 < Inode.i_ref y).
Proof.
  intros Hm Hf Hs Hsteps Hp. destruct (kernel_inv s0 l0 T0 s Hm Hf Hs Hsteps) as (l & T & Hm' & Hf' & _). pose proof (fi_ok _ _ Hf') as Hok. split.
  - intros fd x Hx H0. assert (HR : 0 < sum_over (nfd x) (procs (st s))).
    { eapply Z.lt_le_trans; [|apply (sum_over_ge _ _ i p (nfd_nonneg x) Hp)]. apply nfd_in; [done|]. by eapply list_elem_of_lookup_2. }
    destruct (FileSpec.open_file _ _ _ x Hok HR) as (j & f & -> & Hj & Hr). exists j, f. split; [done|]. split; [done|]. split; [done|]. by eapply fok_typed.
  - intros Hu Hz. pose proof (fi_cwd _ _ Hf' i p Hp Hu Hz ltac:(done)) as Hc0. assert (HI : 0 < sum_over (ncwd (cwd p)) (procs (st s))).
    { eapply Z.lt_le_trans; [|apply (sum_over_ge _ _ i p (ncwd_nonneg _) Hp)]. unfold ncwd. rewrite decide_True by done. lia. }
    destruct (fk_iptr _ _ _ Hok (cwd p) HI) as [ip Hip]. rewrite Hip in HI. pose proof (holds_ip_sum ip _ (fk_len _ _ _ Hok)) as Hs1.
    destruct (counted_entry _ _ ip (fk_ino _ _ _ Hok)) as (y & ? & ?); [cbn; lia|]. by exists ip, y.
Qed.
End kernel.

Section listing.
Context {D : Type} {BIO : BlockIO D}.
Context (kend trampoline : Z).
Notation sys := (@Syscall.sys D).
Notation minv := (ProcSpec.minv kend trampoline).

(** C40: why [tame] leaves the listings out.  When [printinfo] has listed the
    current directory of a process, that is still its directory, but the
    reference count of the directory's inode is one less than the number of
    processes and open files that refer to it: [print_cwd_files] gave up a
    reference that [exit], which it calls next, gives up once more. *)
Theorem cwd_listing_breaks_count (s : sys) l T cur p r s' :
  minv (st s) l T → finv (st s) → sinv (st s) → running (st s) cur p →
  (enter cur;; on_inodes Dir.print_cwd_files) s = Ok r s' →
  ∃ ip y, cwd p = iptr ip ∧ procs (st s') !! cur = Some p ∧ Inode.itab (ino (fs (st s'))) !! ip = Some y ∧
    Inode.i_ref y = sum_over (ncwd (iptr ip)) (procs (st s')) + sum_over (holds_ip ip) (files (fs (st s'))) - 1.
Proof.
  intros Hm Hf Hs [Hp Hr] Hrun. apply bind_inv in Hrun as ([] & s1 & Hen & Hrun).
  destruct (proj1 (pwp_ok _ _ _) (begun_enter kend trampoline cur (st s) T p Hp Hr s (begun_start kend trampoline cur (st s) l T Hm Hf Hs)) _ _ Hen) as (_ & Hc & _).
  pose proof Hc as [[l1 Hm1] Hok _ Hsh _ _ Hp1 _ Hcw]. assert (Hc0 : cwd p ≠ 0) by (apply (sh_cwd _ Hsh cur p Hp1); congruence).
  assert (HI : 0 < sum_over (ncwd (cwd p)) (procs (st s1))).
  { eapply Z.lt_le_trans; [|apply (sum_over_ge _ _ cur p (ncwd_nonneg _) Hp1)]. unfold ncwd. rewrite decide_True by done. lia. }
  destruct (fk_iptr _ _ _ Hok (cwd p)) as [ip Hip]; [pose proof (hI_range [] (cwd p)); lia|]. rewrite Hip in *. rewrite iidx_iptr in Hcw.
  set (R := λ j, others_refs (st s1) j - if decide (j = ip) then 1 else 0).
  assert (Hb : ∀ j, 0 ≤ others_refs (st s1) j < 2 ^ 30).
  { intros j. unfold others_refs. pose proof (ncwd_bound kend trampoline T (st s1) (iptr j) (ex_intro _ l1 Hm1)). pose proof (holds_ip_sum j _ (fk_len _ _ _ Hok)). lia. }
  assert (Hpos : 0 < others_refs (st s1) ip) by (unfold others_refs; pose proof (holds_ip_sum ip _ (fk_len _ _ _ Hok)); lia).
  assert (Hheld : Handles.held R ip [ip] (ino (fs (st s1)))).
  { split; [|done]. eapply InodeSpec.refs_ok_ext; [|apply (fk_ino _ _ _ Hok)]. intros j. cbv beta. rewrite hI_iptr. unfold R, others_refs. cbn [Handles.times]. case_decide; lia. }
  assert (Hpost : pwp (on_inodes Dir.print_cwd_files)
    (λ _ t, ∃ i', st t = put_fs (with_ino i' (fs (st s1))) (st s1) ∧ Handles.held R ip [] i') s1).
  { do 3 apply pwp_zoom. eapply pwp_mono; [apply Handles.held_print_cwd_files; [|exact Hheld]|].
    - intros j. unfold R. specialize (Hb j). case_decide as Hj; [rewrite Hj in *|]; lia.
    - cbv beta. intros _ i' Hi'. by exists i'. }
  destruct (proj1 (pwp_ok _ _ _) Hpost _ _ Hrun) as (i' & Hst' & [Hr' _]). rewrite Hst'. cbn.
  assert (Hlt : (ip < length (Inode.itab i'))%nat).
  { rewrite (InodeSpec.ro_len _ _ Hr'). destruct (decide (ip < Inode.NINODE)%nat) as [?|Hge]; [done|].
    pose proof (InodeSpec.ro_out _ _ (Handles.hd_refs _ _ _ _ Hheld) ip ltac:(lia)) as H0. unfold R in H0. cbn in H0. rewrite !decide_True in H0 by done. lia. }
  destruct (lookup_lt_is_Some_2 _ _ Hlt) as [y Hy]. destruct (InodeSpec.ro_cnt _ _ Hr' ip y Hy) as [Hyr _]. exists ip, y. split; [done|]. split; [done|]. split; [done|].
  rewrite Hyr. unfold R, others_refs. cbn. rewrite decide_True by done. lia.
Qed.
End listing.
End TrapSpec.
