(* ===== verification/ProcImage.v ===== *)
(** A concrete system with one process, on which the theorems on processes are
    evaluated: its memory comes from [allocproc], its files from the file table. *)

From stdpp Require Import functions relations.
From S2P Require Import Prelude Riscv CString Kalloc Vm PageTable UserMem UserCopy UserFree Console Pipe BlockIO Bio Inode InodeSpec Image Proc ProcMem ProcSpec ProcStep File FileSpec.
Import Kalloc Vm PageTable UserMem UserCopy Proc ProcMem ProcSpec ProcStep File FileSpec.

Local Open Scope Z_scope.
#[local] Existing Instance Bio.bio_blockio.

Module ProcImage.

Definition image_kend : Z := 0x80020000.
Lemma image_kend_pos : 0 < image_kend.
Proof. done. Qed.
Definition tramp : Z := 0x80007000.
Definition forkret0 : Z := 0x80001234.

(** Twenty-four free pages. *)
Definition page (i : Z) : Z := 0x80100000 + 4096 * i.
Definition image_free : list Z := page <$> seqZ 0 24.
Definition mem0 : kmem :=
  MkKmem (page 0) (list_to_map ((λ i, (page i, wr 8 0 (if bool_decide (i = 23) then 0 else page (i + 1)) zeros)) <$> seqZ 0 24)).

Lemma image_kinv : kinv image_kend mem0 image_free.
Proof.
  assert (Hz : ∀ p, length (wr 8 0 p zeros) = 4096%nat) by (intros; unfold zeros; rewrite length_wr; rewrite length_replicate; (done || vm_compute; lia)).
  assert (Hr : ∀ p, 0 ≤ p < 2 ^ 64 → rd 8 0 (wr 8 0 p zeros) = p) by (intros; apply rd8_wr8; [apply length_replicate|done]).
  split; [|split].
  - cbn [mem0 pmem freelist]. change image_free with [page 0; page 1; page 2; page 3; page 4; page 5; page 6; page 7; page 8; page 9; page 10; page 11; page 12; page 13; page 14; page 15; page 16; page 17; page 18; page 19; page 20; page 21; page 22; page 23]. cbn [chain].
    repeat (split; [by rewrite ?Hr|split; [done|eexists; split; [reflexivity|split; [by rewrite ?Hz|]]]]). done.
  - apply NoDup_fmap_2; [intros i j; unfold page; lia|apply NoDup_seqZ].
  - apply Forall_fmap, Forall_seqZ. intros i Hi. unfold page_ok, page, image_kend, compose. change PGSIZE with 4096. change PHYSTOP with 0x88000000. zlia.
Qed.

Definition proc0 : proc :=
  MkProc UNUSED ChNull 0 0 0 None 0 0 0 0 0 0 (replicate 16 0) 0 (replicate 16 0).
Definition files0 : ftab Bio.bio := MkFtab (replicate NFILE file0) ∅ Image.root_handle (Console.MkConsole (Console.MkCons (replicate 128 0) 0 0 0) Uart.uart0) 0.
Lemma files0_ok : fok_at files0 (λ _, 0) (<[iptr 0 := 1]> (λ _, 0)).
Proof.
  assert (Hno : ∀ i f a w, replicate NFILE file0 !! i = Some f → ¬ pipe_end a w f).
  { intros i f a w [-> _]%lookup_replicate [H _]. cbn in H. lia. }
  assert (Hz : ∀ ip n, sum_over (holds_ip ip) (replicate n file0) = 0).
  { intros ip n. induction n as [|n IH]; [done|]. cbn [replicate sum_over]. by rewrite IH. }
  split.
  - apply length_replicate.
  - intros i x [-> _]%lookup_replicate. unfold ref_ok, shared. cbn [console_f files0]. rewrite bool_decide_false by (unfold fptr; lia). done.
  - intros x Hx. lia.
  - eapply InodeSpec.refs_ok_ext; [|apply (InodeSpec.ref_step_ok (Image.the_fs [], λ _, 0) (Image.root_handle, InodeSpec.add_ref 1 0 (λ _, 0)))].
    + intros ip. unfold InodeSpec.add_ref. cbn [files files0 fst snd]. rewrite Hz.
      destruct (decide (ip = 0%nat)) as [->|Hne]; [by rewrite fn_lookup_insert|]. by rewrite fn_lookup_insert_ne by (unfold iptr; lia).
    + apply Image.boot_refs_ok.
    + eapply InodeSpec.rs_iget; [apply Image.iget_root|lia].
  - intros x. destruct (decide (x = iptr 0)) as [->|Hx]; [eauto|rewrite fn_lookup_insert_ne by done; lia].
  - intros x. destruct (decide (x = iptr 0)) as [->|Hx]; [by rewrite fn_lookup_insert|by rewrite fn_lookup_insert_ne].
  - split.
    + intros a pi w Ha. cbn in Ha. by rewrite lookup_empty in Ha.
    + intros i j f g a w Hf _ He. by destruct (Hno i f a w Hf).
    + intros i f a w Hf He. by destruct (Hno i f a w Hf).
    + intros a pi Ha. cbn in Ha. by rewrite lookup_empty in Ha.
  - by intros i x [-> _]%lookup_replicate.
  - by left.
  - by intros i x [-> _]%lookup_replicate.
Qed.
Definition boot : ps (F := ftab Bio.bio) := MkPs (replicate 64 proc0) 1 None mem0 files0.

Lemma nfd_none x p : ofile p = replicate 16 0 → nfd x p = 0.
Proof.
  intros Hp. unfold nfd. rewrite Hp. destruct (decide (x = 0)) as [|Hx]; [done|]. generalize 16%nat. intros n.
  induction n as [|n IH]; [done|]. cbn [replicate]. by rewrite filter_cons_False by congruence.
Qed.
Lemma boot_procs i p : procs boot !! i = Some p → p = proc0.
Proof. cbn [procs boot]. intros Hp. by apply lookup_replicate in Hp as [-> _]. Qed.
Lemma boot_minv : minv image_kend tramp boot image_free ∅.
Proof.
  split.
  - apply length_replicate.
  - apply image_kinv.
  - intros i p ->%boot_procs _. done.
  - intros i p ->%boot_procs Hl. done.
  - intros i j p q t u x _ _ Ht. by rewrite lookup_empty in Ht.
  - intros x [pi Hx]. cbn in Hx. by rewrite lookup_empty in Hx.
  - intros i p t x _ Ht. by rewrite lookup_empty in Ht.
Qed.

(** The system after [allocproc] found a slot, which is then made to run in the
    root directory. *)
Definition alloc_run : outcome ps (option nat) := allocproc image_kend tramp forkret0 boot.
Lemma alloc_ok : (match alloc_run with Ok (Some O) _ => true | _ => false end) = true.
Proof. vm_compute. reflexivity. Qed.
Definition allocated : ps := match alloc_run with Ok _ s => s | _ => boot end.
Definition runner (p : proc) : proc := set_state RUNNING (set_cwd (iptr 0) p).
Definition one : ps := MkPs (alter runner 0%nat (procs allocated)) (nextpid allocated) (initproc allocated) (mem allocated) (fs allocated).

Lemma tramp_pa : pa_ok tramp.
Proof. done. Qed.
Lemma tramp_low : tramp + 4096 ≤ 2 ^ 54.
Proof. done. Qed.

Lemma allocated_shape : ∃ k l t tf pt,
  allocated = put_mem k (put_proc 0 (fresh forkret0 proc0 (nextpid boot) tf pt) (put_pid (s32 (nextpid boot + 1)) boot)) ∧ minv image_kend tramp allocated l (<[0%nat := t]> ∅).
Proof.
  destruct (allocproc_run image_kend tramp forkret0 image_kend_pos tramp_pa tramp_low boot image_free ∅ boot_minv) as (r & s & Hrun & Hpost).
  pose proof alloc_ok as Hok. unfold allocated. unfold alloc_run in *. rewrite Hrun in *.
  destruct r as [[|n]|]; [|done|done]. destruct Hpost as [[? _]|(i & p & k & l & Hp & _ & _ & [[? _]|(tf & pt & t & [= <-] & -> & Hm & _)])]; [done|done|].
  apply boot_procs in Hp as ->. exists k, l, t, tf, pt. split; [reflexivity|exact Hm].
Qed.

#[local] Opaque allocated.

(** The process runs, and all its invariants hold. *)
Lemma one_inv : ∃ p l t, procs one !! 0%nat = Some p ∧ state p = RUNNING ∧ ofile p = replicate 16 0 ∧ cwd p = iptr 0 ∧ initproc one = None ∧
  fs one = files0 ∧ minv image_kend tramp one l (<[0%nat := t]> ∅) ∧ finv one ∧ sinv one.
Proof.
  destruct allocated_shape as (k & l & t & tf & pt & Heq & Hm). set (q := fresh forkret0 proc0 (nextpid boot) tf pt) in *.
  assert (Hq : procs allocated !! 0%nat = Some q) by (rewrite Heq; reflexivity).
  assert (Hone : one = put_proc 0 (runner q) allocated).
  { unfold one, put_proc. f_equal. rewrite Heq. reflexivity. }
  assert (Hps : procs one = <[0%nat := runner q]> (procs boot)) by (rewrite Hone, Heq; reflexivity).
  assert (Hlook : ∀ i p, procs one !! i = Some p → i = 0%nat ∧ p = runner q ∨ i ≠ 0%nat ∧ p = proc0).
  { intros i p. rewrite Hps. intros [(<- & <- & _)|[? Hp]]%list_lookup_insert_Some; [left; split; reflexivity|]. apply boot_procs in Hp. right. split; [congruence|done]. }
  assert (Hfs : fs one = files0) by (rewrite Hone, Heq; reflexivity).
  exists (runner q), l, t. rewrite Hone at 1. split; [by eapply put_proc_lookup|]. split; [done|]. split; [done|]. split; [done|].
  split; [by rewrite Hone, Heq|]. split; [done|]. split; [rewrite Hone; by eapply minv_slot|]. clear Heq Hone Hq Hm. split.
  - split.
    + rewrite Hfs. assert (Hsum : ∀ (g : proc → Z) n, sum_over g (replicate n proc0) = Z.of_nat n * g proc0).
      { intros g n. induction n as [|n IH]; [done|]. cbn [replicate sum_over]. rewrite IH. lia. }
      eapply fok_at_ext with (R := λ _, 0) (I := <[iptr 0 := 1]> (λ _, 0)).
      * exact files0_ok.
      * intros x. rewrite Hps. cbn [procs boot]. rewrite (sum_over_insert _ _ 0 proc0) by done. rewrite Hsum.
        rewrite !(nfd_none x) by reflexivity. lia.
      * intros x. rewrite Hps. cbn [procs boot]. rewrite (sum_over_insert _ _ 0 proc0) by done. rewrite Hsum.
        unfold ncwd. cbn [cwd proc0 runner set_state set_cwd]. rewrite (decide_False (P := x ≠ 0 ∧ 0 = x)) by (intros [? E]; congruence).
        destruct (decide (x = iptr 0)) as [->|Hx]; [by rewrite fn_lookup_insert|]. rewrite fn_lookup_insert_ne by done.
        rewrite decide_False by (intros [_ E]; congruence). reflexivity.
    + intros i p [[_ ->]|[_ ->]]%Hlook; split; reflexivity.
    + intros i p [[_ ->]|[_ ->]]%Hlook [Hd|Hd]; [discriminate Hd|discriminate Hd|split; reflexivity|discriminate Hd].
    + intros i p [[_ ->]|[_ ->]]%Hlook Hd Hz _; [discriminate|by destruct Hd].
  - intros i p j [[_ ->]|[_ ->]]%Hlook Hst; discriminate Hst.
Qed.
#[local] Opaque one.

Lemma fork_copies_witness : ∃ l T p tc r s' l' T',
  minv image_kend tramp one l T ∧ fork image_kend tramp forkret0 0 one = Ok r s' ∧ minv image_kend tramp s' l' T' ∧ finv s' ∧ keeps one T s' T' ∧
    (r = -1 ∧ (∀ j q, procs s' !! j = Some q → state q ≠ UNUSED → procs one !! j = Some q) ∨
     copied one 0 p tc r s' T').
Proof.
  destruct one_inv as (p & l & t & Hp & Hr & _ & _ & _ & _ & Hm & Hf & _).
  destruct (fork_copies image_kend tramp forkret0 image_kend_pos tramp_pa tramp_low one l (<[0%nat := t]> ∅) 0 p t Hm Hf Hp Hr)
    as (r & s' & l' & T' & H); [apply lookup_insert_eq|]. exists l, (<[0%nat := t]> ∅), p, t, r, s', l', T'. split; [exact Hm|exact H].
Defined.

(** One step, a [yield], and then any other. *)
Lemma processes_isolated_witness : ∃ s l T, rtc (λ a b, ∃ cur, pstep image_kend tramp forkret0 cur a b) one s ∧ s ≠ one ∧
  minv image_kend tramp s l T ∧ finv s ∧
    (∀ i p t x, procs s !! i = Some p → T !! i = Some t → state p ≠ UNUSED → own t (trapframe p) x →
       x ∉ l ∧ ¬ fpages (fs s) x ∧
       ∀ j q u, j ≠ i → procs s !! j = Some q → T !! j = Some u → ¬ own u (trapframe q) x) ∧
    ∀ cur s', pstep image_kend tramp forkret0 cur s s' → ∃ l' T', minv image_kend tramp s' l' T' ∧ spared cur s T s' T'.
Proof.
  destruct one_inv as (p & l & t & Hp & Hr & _ & _ & _ & _ & Hm & Hf & Hs). set (s := put_proc 0 (set_state RUNNABLE p) one).
  assert (Hst : rtc (λ a b, ∃ cur, pstep image_kend tramp forkret0 cur a b) one s).
  { apply rtc_once. exists 0%nat. apply (st_yield _ _ _ 0 one p); [split; [exact Hp|exact Hr]|]. by apply yield_run. }
  destruct (processes_isolated image_kend tramp forkret0 image_kend_pos tramp_pa tramp_low one l (<[0%nat := t]> ∅) s Hm Hf Hs Hst) as (l1 & T1 & H).
  exists s, l1, T1. split; [exact Hst|]. split; [|exact H]. intros Heq.
  assert (Hq : procs s !! 0%nat = Some (set_state RUNNABLE p)) by (by eapply put_proc_lookup).
  rewrite Heq, Hp in Hq. apply (f_equal (fmap state)) in Hq. cbn in Hq. rewrite Hr in Hq. discriminate Hq.
Defined.

(** A process without open files closes none. *)
Lemma close_none cur fd n : ∀ s : ps (F := ftab Bio.bio), close_files image_kend (replicate n 0) fd cur s = Ok tt s.
Proof.
  revert fd. induction n as [|n IH]; intros fd s; [done|]. cbn [replicate close_files]. rewrite bool_decide_false by (by intros []).
  erewrite bind_ok by reflexivity. apply IH.
Qed.

(** *** A parent and its child *)

(** The state after a call that returned, or went to sleep. *)
Definition state_or {S A} (d : S) (o : outcome S A) : S := match o with Ok _ s | Sleep s => s | _ => d end.
Definition is_ok {S A} (o : outcome S A) : bool := match o with Ok _ _ => true | _ => false end.
Definition is_sleep {S A} (o : outcome S A) : bool := match o with Sleep _ => true | _ => false end.
Lemma ok_state {S A} (o : outcome S A) (d : S) : is_ok o = true → ∃ a, o = Ok a (state_or d o).
Proof. destruct o; try done. intros _. by eexists. Qed.
Definition is_yes {S} (o : outcome S bool) : bool := match o with Ok b _ => b | _ => false end.
Lemma yes_state {S} (o : outcome S bool) (d : S) : is_yes o = true → o = Ok true (state_or d o).
Proof. destruct o; try done. cbn. by intros ->. Qed.
Lemma sleep_state {S A} (o : outcome S A) (d : S) : is_sleep o = true → o = Sleep (state_or d o).
Proof. by destruct o. Qed.

(** Process 0 forks and waits; the child runs, exits with status 7, and the
    parent, which that woke, runs again. *)
Definition forked : ps := state_or one (fork image_kend tramp forkret0 0 one).
Definition waiting : ps := state_or one (wait image_kend 0 0 forked).
Definition child_on : ps := state_or one (schedule 1 waiting).
Definition child_gone : ps := state_or one (exit image_kend 1 7 child_on).
Definition awake : ps := state_or one (schedule 0 child_gone).

Definition slot (s : ps (F := ftab Bio.bio)) (i : nat) : proc := default proc0 (procs s !! i).
Lemma slot_some s i : is_Some (procs s !! i) → procs s !! i = Some (slot s i).
Proof. intros [p Hp]. unfold slot. by rewrite Hp. Qed.
Lemma slot_running s i : is_Some (procs s !! i) → state (slot s i) = RUNNING → running s i (slot s i).
Proof. intros Hp Hr. split; [by apply slot_some|exact Hr]. Qed.

Lemma forked_ok : is_ok (fork image_kend tramp forkret0 0 one) = true ∧ is_sleep (wait image_kend 0 0 forked) = true ∧
  is_Some (procs forked !! 0%nat) ∧ state (slot forked 0) = RUNNING.
Proof. vm_compute. eauto. Qed.
Lemma waiting_ok : is_Some (procs waiting !! 0%nat) ∧ state (slot waiting 0) = SLEEPING ∧ chan (slot waiting 0) = ChProc 0 ∧
  is_Some (procs waiting !! 1%nat) ∧ parent (slot waiting 1) = Some 0%nat ∧ state (slot waiting 1) = RUNNABLE.
Proof. vm_compute. eauto 10. Qed.
Lemma child_ok : is_yes (schedule 1 waiting) = true ∧ is_Some (procs child_on !! 1%nat) ∧ state (slot child_on 1) = RUNNING ∧
  ofile (slot child_on 1) = replicate 16 0 ∧ is_ok (exit_cwd 1 child_on) = true ∧ is_sleep (exit image_kend 1 7 child_on) = true.
Proof. vm_compute. eauto 10. Qed.
Lemma awake_ok : is_yes (schedule 0 child_gone) = true ∧ is_Some (procs awake !! 0%nat) ∧ state (slot awake 0) = RUNNING ∧
  is_Some (procs awake !! 1%nat) ∧ parent (slot awake 1) = Some 0%nat ∧ state (slot awake 1) = ZOMBIE ∧ pid (slot awake 1) = 2.
Proof. vm_compute. eauto 10. Qed.

Notation psteps := (rtc (λ a b, ∃ cur, pstep image_kend tramp forkret0 cur a b)).
Lemma fork0 : ∃ r, fork image_kend tramp forkret0 0 one = Ok r forked.
Proof. unfold forked. apply ok_state. exact (proj1 forked_ok). Qed.
Lemma wait0 : wait image_kend 0 0 forked = Sleep waiting.
Proof. unfold waiting. apply sleep_state. exact (proj1 (proj2 forked_ok)). Qed.
Lemma exit1 : exit image_kend 1 7 child_on = Sleep child_gone.
Proof. unfold child_gone. apply sleep_state. apply child_ok. Qed.
Lemma schedule1 : schedule 1 waiting = Ok true child_on.
Proof. unfold child_on. apply yes_state. exact (proj1 child_ok). Qed.
Lemma schedule0 : schedule 0 child_gone = Ok true awake.
Proof. unfold awake. apply yes_state. exact (proj1 awake_ok). Qed.
#[local] Opaque forked waiting child_on child_gone awake.

Lemma waiting_steps : psteps one waiting.
Proof.
  destruct one_inv as (p & _ & _ & Hp & Hr & _), forked_ok as (_ & _ & H0 & Hr0), fork0 as [r Hrun].
  eapply rtc_l; [exists 0%nat; apply (st_fork _ _ _ 0 one p r forked); [exact (conj Hp Hr)|exact Hrun]|].
  apply rtc_once. exists 0%nat. apply (st_wait_sleep _ _ _ 0 forked (slot forked 0) 0 waiting); [exact (slot_running _ _ H0 Hr0)|lia|exact wait0].
Qed.
Lemma awake_steps : psteps one awake.
Proof.
  destruct child_ok as (_ & H1 & Hr & Hof & Hc & _). destruct (ok_state _ one Hc) as [[] Hc'].
  etransitivity; [exact waiting_steps|].
  eapply rtc_l; [exists 1%nat; exact (st_schedule _ _ _ 1 waiting child_on schedule1)|].
  eapply rtc_l; [exists 1%nat; eapply (st_exit _ _ _ 1 child_on (slot child_on 1) 7 child_on _ child_gone);
    [exact (slot_running _ _ H1 Hr)|rewrite Hof; apply close_none|exact Hc'|exact exit1]|].
  apply rtc_once. exists 0%nat. exact (st_schedule _ _ _ 0 child_gone awake schedule0).
Qed.

(** While the parent sleeps the child is alive; after the child's exit the
    parent's [wait] finds it. *)
Lemma no_missed_exit_witness :
  (state (slot waiting 0) = SLEEPING ∧ chan (slot waiting 0) = ChProc 0 ∧ parent (slot waiting 1) = Some 0%nat ∧ state (slot waiting 1) ≠ ZOMBIE) ∧
  (state (slot awake 1) = ZOMBIE ∧ ∃ c q s', wait image_kend 0 0 awake = Ok (pid q) s' ∧ procs awake !! c = Some q ∧ parent q = Some 0%nat ∧ state q = ZOMBIE).
Proof.
  destruct one_inv as (p & l & t & _ & _ & _ & _ & _ & _ & Hm & Hf & Hs).
  destruct waiting_ok as (W0 & Ws & Wc & W1 & Wp & _), awake_ok as (_ & A0 & Ar & A1 & Ap & Az & _). split.
  - split; [exact Ws|]. split; [exact Wc|]. split; [exact Wp|].
    destruct (no_missed_exit image_kend tramp forkret0 image_kend_pos tramp_pa tramp_low one l (<[0%nat := t]> ∅) waiting 0 (slot waiting 0)
      Hm Hf Hs waiting_steps (slot_some _ _ W0)) as [H _].
    destruct (H 0%nat Ws Wc) as [_ Hz]. exact (Hz 1%nat _ (slot_some _ _ W1) Wp).
  - split; [exact Az|].
    destruct (no_missed_exit image_kend tramp forkret0 image_kend_pos tramp_pa tramp_low one l (<[0%nat := t]> ∅) awake 0 (slot awake 0)
      Hm Hf Hs awake_steps (slot_some _ _ A0)) as [_ H].
    apply (H Ar). exists 1%nat, (slot awake 1). split; [exact (slot_some _ _ A1)|]. split; [exact Ap|exact Az].
Defined.

Lemma growproc_resizes_witness : ∃ p l t r k' l' t' size',
  growproc image_kend 0 5000 one = Ok r (put_mem k' (put_proc 0 (set_sz size' p) one)) ∧
    resized (mem one) t (sz p) 5000 r size' k' t' ∧
    minv image_kend tramp (put_mem k' (put_proc 0 (set_sz size' p) one)) l' (<[0%nat := t']> (<[0%nat := t]> ∅)) ∧ others one (<[0%nat := t]> ∅) 0 k' ∧
    minv image_kend tramp one l (<[0%nat := t]> ∅).
Proof.
  destruct one_inv as (p & l & t & Hp & Hr & _ & _ & _ & _ & Hm & _).
  destruct (growproc_resizes image_kend tramp image_kend_pos one l (<[0%nat := t]> ∅) 0 p t 5000 Hm Hp) as (r & k' & l' & t' & size' & H1 & H2 & H3 & H4);
    [by rewrite Hr|apply lookup_insert_eq|lia|]. exists p, l, t, r, k', l', t', size'. auto.
Defined.

Lemma wait_reaps_witness : ∃ p T tc,
  (∃ r s' l' T', wait image_kend 0 0 one = Ok r s' ∧ minv image_kend tramp s' l' T' ∧ finv s' ∧
    (reaped one T 0 tc 0 r s' T' ∨ no_address one T 0 tc 0 r s' T')) ∨
  (∀ i z, procs one !! i = Some z → parent z = Some 0%nat → state z ≠ ZOMBIE) ∧
  (wait image_kend 0 0 one = Ok (-1) one ∧ (killed p ≠ 0 ∨ ∀ i z, procs one !! i = Some z → parent z ≠ Some 0%nat) ∨
   killed p = 0 ∧ wait image_kend 0 0 one = Sleep (put_proc 0 (set_state SLEEPING (set_chan (ChProc 0) p)) one)).
Proof.
  destruct one_inv as (p & l & t & Hp & Hr & _ & _ & _ & _ & Hm & Hf & Hs). exists p, (<[0%nat := t]> ∅), t.
  apply (wait_reaps image_kend tramp image_kend_pos one l (<[0%nat := t]> ∅) 0 p t 0 Hm Hf Hs Hp Hr); [apply lookup_insert_eq|lia].
Defined.

(** Its reference to the directory is the last. *)
Lemma root_put : ∃ f', iput (iptr 0) files0 = Ok tt f'.
Proof. eexists. vm_compute. reflexivity. Qed.
Lemma exit_leaves_zombie_witness : ∃ p l t s' l' q,
  procs one !! 0%nat = Some p ∧ minv image_kend tramp one l (<[0%nat := t]> ∅) ∧
  exit image_kend 0 7 one = Sleep s' ∧ minv image_kend tramp s' l' (<[0%nat := t]> ∅) ∧ finv s' ∧
    procs s' !! 0%nat = Some q ∧ state q = ZOMBIE ∧ xstate q = 7 ∧ pid q = pid p ∧
    ofile q = replicate 16 0 ∧ cwd q = 0 ∧
    (∀ j r, procs s' !! j = Some r → parent r ≠ Some 0%nat) ∧ spared 0 one (<[0%nat := t]> ∅) s' (<[0%nat := t]> ∅).
Proof.
  destruct one_inv as (p & l & t & Hp & Hr & Hof & Hcw & Hin & Hfs & Hm & Hf & Hs). destruct root_put as [f' Hput].
  assert (Hw : exit_cwd 0 one = Ok tt (put_proc 0 (set_cwd 0 p) (put_fs f' one))).
  { unfold exit_cwd. erewrite bind_ok by (by apply getp_run). cbv beta. rewrite Hcw.
    erewrite bind_ok by (apply on_fs_run; rewrite Hfs; exact Hput). cbv beta. by apply setp_run. }
  destruct (exit_leaves_zombie image_kend tramp image_kend_pos one one (put_proc 0 (set_cwd 0 p) (put_fs f' one)) l (<[0%nat := t]> ∅) 0 p 7 Hm Hf Hs Hp Hr) as (s' & l' & q & H).
  - rewrite Hin. discriminate.
  - rewrite Hof. apply close_none.
  - exact Hw.
  - exists p, l, t, s', l', q. split; [exact Hp|]. split; [exact Hm|exact H].
Defined.
End ProcImage.
