(* ===== verification/KernelImage.v ===== *)
(** A concrete kernel with one process, on which the theorems on traps and on
    [exec] are evaluated. *)

From stdpp Require Import functions relations.
From S2P Require Import Prelude Riscv CString Kalloc Vm PageTable UserMem UserCopy Console BlockIO Bio Inode InodeSpec DiskInode FileData Dir NameSpec Image Proc ProcMem ProcSpec ProcStep File FileSpec Syscall Sysfile CallSpec SysSpec ConsoleFile Exec ExecSpec ExecRun ExecFile Trap TrapSpec ProcImage.
Import Kalloc Vm PageTable UserMem UserCopy Proc ProcMem ProcSpec ProcStep File FileSpec Syscall Sysfile CallSpec Exec Trap TrapSpec ProcImage.

Local Open Scope Z_scope.
#[local] Existing Instance Bio.bio_blockio.
#[local] Existing Instance Bio.bio_laws.

Module KernelImage.

Definition idle0 : nat → bool := λ _, true.
Definition kstack0 : list Z := replicate 256 7.
Lemma kstack0_bytes : bytes kstack0.
Proof. apply bytes_replicate. wrap_lia. Qed.
Definition strings0 : Z → list Z := λ _, [].

(** ** A process asks for a program *)

Definition me : proc := default proc0 (procs one !! 0%nat).
(** It gets a page of memory, *)
Definition grown : sys := MkSys (state_or one (growproc image_kend 0 4096 one)) 0.
(** stores there the path [/cat], the argument [x] and, at 64, the array
    [{"cat", "x", 0}], *)
Definition user0 : list Z := Image.path_cat ++ replicate 11 0 ++ [120; 0] ++ replicate 46 0 ++ concat (le_to 8 <$> [1; 16; 0]).
Definition filled0 : sys :=
  MkSys (state_or one (on_mem (copyout (pagetable me) 0 user0) (st grown))) 0.
(** and calls [exec]. *)
Definition regs0 : list Z := wr 8 tf_a1 64 (wr 8 tf_a0 0 (wr 8 tf_a7 SYS_exec zeros)).
Lemma regs0_page : is_page regs0.
Proof. do 3 (apply is_page_wr; [|unfold tf_a0, tf_a1, tf_a7; lia]). apply zeros_page. Qed.
Definition asking : sys :=
  MkSys (put_mem (MkKmem (freelist (mem (st filled0))) (<[trapframe me := regs0]> (pmem (mem (st filled0))))) (st filled0)) 0.
Notation trap0 :=
  (usertrap image_kend tramp forkret0 idle0 0x3000 0x4000 kstack0 strings0 100 [] 0 0x9000 0x5000 0 true false 8 0x10 0 []).
Definition asked : sys := state_or asking (trap0 asking).
(** The same call without the trap around it. *)
Definition entered : sys := state_or asking (enter 0 asking).

Definition proc1 (s : @Syscall.sys Bio.bio) : proc := default proc0 (procs (st s) !! 0%nat).
Lemma grown_ok : is_ok (growproc image_kend 0 4096 one) = true ∧ state (proc1 grown) = RUNNING ∧ pagetable (proc1 grown) = pagetable me.
Proof. vm_compute. auto. Qed.
Lemma filled_ok : is_ok (on_mem (copyout (pagetable me) 0 user0) (st grown)) = true ∧ state (proc1 filled0) = RUNNING ∧
  trapframe (proc1 filled0) = trapframe me ∧ cwd (proc1 filled0) = iptr 0.
Proof. vm_compute. auto. Qed.
Lemma fs_kept : fs (st filled0) = files0.
Proof. vm_compute. reflexivity. Qed.
Lemma trap0_ok : is_ok (trap0 asking) = true.
Proof. vm_compute. reflexivity. Qed.

Notation kstep0 := (kstep image_kend tramp forkret0 idle0 0x3000 0x4000 kstack0 strings0 100 []).
Notation steps := (rtc (tstep image_kend tramp forkret0 idle0 0x3000 0x4000 kstack0 strings0 100 [])).
Lemma plain_step cur (a b c : @Syscall.sys Bio.bio) : kstep0 cur a Plain b → steps b c → steps a c.
Proof. intros H Hs. eapply rtc_l; [|exact Hs]. exists cur, Plain. split; [exact H|exact I]. Qed.
Lemma running0 (s : @Syscall.sys Bio.bio) : is_Some (procs (st s) !! 0%nat) → state (proc1 s) = RUNNING → running (st s) 0 (proc1 s).
Proof. intros [p Hp] Hr. unfold running, proc1 in *. by rewrite Hp in *. Qed.
Lemma filled_steps (c : @Syscall.sys Bio.bio) : steps filled0 c → steps (MkSys one 0) c.
Proof.
  intros Hc. destruct grown_ok as (Hg & Hgr & Hpt), filled_ok as (Hf & Hfr & Htf & _). destruct (ok_state _ one Hg) as [a Ha]. destruct (ok_state _ one Hf) as [b Hb].
  destruct one_inv as (p & _ & _ & Hp & Hr & _).
  eapply (plain_step 0); [apply (ks_proc _ _ _ _ _ _ _ _ _ _ 0 (MkSys one 0)), (st_sbrk _ _ _ 0 one p 4096 a); [by split|lia|exact Ha]|].
  eapply (plain_step 0); [eapply (ks_proc _ _ _ _ _ _ _ _ _ _ 0 grown), (st_write _ _ _ 0 _ (proc1 grown) 0 user0 b); [apply running0; [by vm_compute; eexists|done]|lia| |rewrite Hpt; exact Hb]|exact Hc].
  apply (bool_decide_unpack _). vm_compute. done.
Qed.
(** The registers of a call. *)
Definition with_regs (x : list Z) : @Syscall.sys Bio.bio :=
  MkSys (put_mem (MkKmem (freelist (mem (st filled0))) (<[trapframe me := x]> (pmem (mem (st filled0))))) (st filled0)) 0.
Lemma regs_steps x c : is_page x → steps (with_regs x) c → steps (MkSys one 0) c.
Proof.
  intros Hx Hc. destruct filled_ok as (_ & Hfr & Htf & _). apply filled_steps. eapply (plain_step 0); [|exact Hc]. unfold with_regs.
  rewrite <-Htf. apply (ks_regs _ _ _ _ _ _ _ _ _ _ 0 filled0); [apply running0; [by vm_compute; eexists|done]|exact Hx].
Qed.
Lemma asking_steps : steps (MkSys one 0) asking.
Proof. apply (regs_steps regs0); [exact regs0_page|apply rtc_refl]. Qed.

Lemma files0_console : console_ok files0.
Proof. split; intros i x; [|intros _]; intros [-> _]%lookup_replicate; done. Qed.
Lemma asking_fs : fs (st asking) = files0.
Proof. unfold asking. cbn [st fs put_mem]. exact fs_kept. Qed.
Lemma asking_running : running (st asking) 0 (proc1 asking).
Proof. apply running0; [by vm_compute; eexists|by vm_compute]. Qed.
Lemma asked_steps : steps (MkSys one 0) asked.
Proof.
  eapply rtc_r; [exact asking_steps|]. destruct (ok_state _ asking trap0_ok) as [r Hr]. exists 0%nat, Trapping. split.
  - eapply ks_trap; [exact asking_running|exact Hr].
  - cbn [tame]. rewrite asking_fs. exact files0_console.
Qed.
(** The new program starts at its entry point, with two arguments. *)
Lemma asked_frame : let x := default [] (pmem (mem (st asked)) !! trapframe me) in rd 8 tf_epc x = 120 ∧ rd 8 tf_a0 x = 2.
Proof. vm_compute. auto. Qed.

(** The process above runs the program it asked for. *)
Lemma kernel_isolates_witness : steps (MkSys one 0) asked ∧
  rd 8 tf_epc (default [] (pmem (mem (st asked)) !! trapframe me)) = 120 ∧
  ∃ l T, minv image_kend tramp (st asked) l T ∧ ∀ cur k s', kstep0 cur asked k s' → tame asked k →
    ∃ l' T', minv image_kend tramp (st s') l' T' ∧ spared cur (st asked) T (st s') T'.
Proof.
  split; [exact asked_steps|]. split; [apply asked_frame|]. destruct one_inv as (p & l & t & _ & _ & _ & _ & _ & _ & Hm & Hf & Hs).
  destruct (kernel_isolates image_kend tramp forkret0 image_kend_pos tramp_pa tramp_low idle0 0x3000 0x4000 kstack0 strings0 100 []
    ltac:(cbn; lia) kstack0_bytes (MkSys one 0) l (<[0%nat := t]> ∅) asked Hm Hf Hs asked_steps) as (l1 & T1 & Hm1 & _ & _ & H1).
  exists l1, T1. split; [exact Hm1|exact H1].
Defined.

(** ** It asks for a pipe instead *)

Definition regs1 : list Z := wr 8 tf_a0 128 (wr 8 tf_a7 SYS_pipe zeros).
Lemma regs1_page : is_page regs1.
Proof. do 2 (apply is_page_wr; [|unfold tf_a0, tf_a7; lia]). apply zeros_page. Qed.
Definition piped : sys := state_or asking (trap0 (with_regs regs1)).
Lemma piped_ok : is_ok (trap0 (with_regs regs1)) = true ∧ is_Some (procs (st (with_regs regs1)) !! 0%nat) ∧ state (proc1 (with_regs regs1)) = RUNNING.
Proof. vm_compute. eauto. Qed.
Lemma piped_fds : is_Some (procs (st piped) !! 0%nat) ∧ take 3 (ofile (proc1 piped)) = [fptr 0; fptr 1; 0] ∧
  (f_type <$> take 2 (files (fs (st piped)))) = [FD_PIPE; FD_PIPE].
Proof. vm_compute. eauto. Qed.
Lemma piped_run : ∃ r, trap0 (with_regs regs1) = Ok r piped.
Proof. unfold piped. apply ok_state. exact (proj1 piped_ok). Qed.
#[local] Opaque piped.
Lemma piped_steps : steps (MkSys one 0) piped.
Proof.
  destruct piped_ok as (_ & H0 & Hr), piped_run as [r Hrun]. apply (regs_steps regs1); [exact regs1_page|]. apply rtc_once. exists 0%nat, Trapping. split.
  - eapply ks_trap; [apply running0; [exact H0|exact Hr]|exact Hrun].
  - cbn [tame]. assert (Hfs : fs (st (with_regs regs1)) = files0) by exact fs_kept. rewrite Hfs. exact files0_console.
Qed.

(** Descriptors 0 and 1 are the ends of an allocated pipe. *)
Lemma descriptors_typed_witness :
  (∃ j f pi, ofile (proc1 piped) !! 0%nat = Some (fptr j) ∧ files (fs (st piped)) !! j = Some f ∧ 0 < f_ref f ∧
     f_type f = FD_PIPE ∧ pipes (fs (st piped)) !! f_pipe f = Some pi ∧ side (f_writable f) pi = true) ∧
  ∃ ip y, cwd (proc1 piped) = iptr ip ∧ Inode.itab (ino (fs (st piped))) !! ip = Some y ∧ 0 < Inode.i_ref y.
Proof.
  destruct one_inv as (p & l & t & _ & _ & _ & _ & _ & _ & Hm & Hf & Hs).
  destruct piped_fds as ([q Hq] & Hfd & Hty). assert (Hp : procs (st piped) !! 0%nat = Some (proc1 piped)) by (unfold proc1; rewrite Hq; reflexivity).
  destruct (descriptors_typed image_kend tramp forkret0 image_kend_pos tramp_pa tramp_low idle0 0x3000 0x4000 kstack0 strings0 100 []
    ltac:(cbn; lia) kstack0_bytes (MkSys one 0) l (<[0%nat := t]> ∅) piped 0 (proc1 piped) Hm Hf Hs piped_steps Hp) as [H1 H2]. split.
  - assert (H0 : ofile (proc1 piped) !! 0%nat = Some (fptr 0)).
    { rewrite <-(lookup_take_lt _ 3) by lia. rewrite Hfd. reflexivity. }
    destruct (H1 0%nat (fptr 0) H0) as (j & f & Hj & Hfj & Hr & Hty'); [unfold fptr; lia|]. exists j, f.
    assert (j = 0%nat) as -> by (symmetry; exact (fptr_inj _ _ Hj)).
    assert (Ht : f_type f = FD_PIPE).
    { apply (f_equal (lookup 0%nat)) in Hty. rewrite list_lookup_fmap, lookup_take_lt, Hfj in Hty by lia. cbn in Hty. congruence. }
    unfold file_typed in Hty'. rewrite Ht in Hty'. destruct Hty' as (pi & Hpi & Hsd). exists pi.
    split; [exact H0|]. split; [exact Hfj|]. split; [exact Hr|]. split; [exact Ht|]. split; [exact Hpi|exact Hsd].
  - apply H2; vm_compute; discriminate.
Defined.

(** ** It lists its directory *)

Definition listed : sys := state_or asking ((enter 0;; on_inodes Dir.print_cwd_files) asking).
Lemma listed_ok : is_ok ((enter 0;; on_inodes (D := Bio.bio) Dir.print_cwd_files) asking) = true ∧
  sum_over (ncwd (iptr 0)) (procs (st listed)) + sum_over (holds_ip 0) (files (fs (st listed))) = 1 ∧ cwd (proc1 asking) = iptr 0.
Proof. vm_compute. auto. Qed.
Lemma listed_run : ∃ r, (enter 0;; on_inodes Dir.print_cwd_files) asking = Ok r listed.
Proof. unfold listed. apply ok_state. exact (proj1 listed_ok). Qed.
#[local] Opaque listed.

(** The process is in the root directory, whose inode is then not referred to. *)
Lemma cwd_listing_breaks_count_witness : ∃ y, procs (st listed) !! 0%nat = Some (proc1 asking) ∧ cwd (proc1 asking) = iptr 0 ∧
  Inode.itab (ino (fs (st listed))) !! 0%nat = Some y ∧ Inode.i_ref y = 0.
Proof.
  destruct one_inv as (p & l & t & _ & _ & _ & _ & _ & _ & Hm & Hf & Hs).
  destruct (kernel_inv image_kend tramp forkret0 image_kend_pos tramp_pa tramp_low idle0 0x3000 0x4000 kstack0 strings0 100 []
    ltac:(cbn; lia) kstack0_bytes (MkSys one 0) l (<[0%nat := t]> ∅) asking Hm Hf Hs asking_steps) as (l1 & T1 & Hm1 & Hf1 & Hs1).
  destruct listed_run as [r Hrun], listed_ok as (_ & H1 & Hcw).
  destruct (cwd_listing_breaks_count image_kend tramp asking l1 T1 0 (proc1 asking) r listed Hm1 Hf1 Hs1 asking_running Hrun) as (ip & y & Hip & Hp' & Hy & Hr).
  rewrite Hcw in Hip. assert (ip = 0%nat) as -> by (symmetry; exact (iptr_inj _ _ Hip)). exists y.
  split; [exact Hp'|]. split; [exact Hcw|]. split; [exact Hy|]. rewrite Hr, H1. reflexivity.
Defined.

(** ** exec on it *)

Definition refs1 : InodeSpec.refs := InodeSpec.add_ref 1 0 (λ _, 0).
Lemma refs1_free : NameSpec.two_free refs1.
Proof. exists 1%nat, 2%nat. unfold refs1, InodeSpec.add_ref, Inode.NINODE. split_and!; (done || lia). Qed.
Lemma refs1_small i : 0 ≤ refs1 i ∧ refs1 i + 2 < 2 ^ 31.
Proof. unfold refs1, InodeSpec.add_ref. destruct (decide _); lia. Qed.
Lemma root_quiet p : NameSpec.quiet 1 (as_proc p Image.root_handle) Image.image [] refs1.
Proof.
  destruct (NameSpec.iget_quiet (Image.the_fs []) Image.image [] (λ _, 0) 1 2 Image.boot_quiet) as (ip & y & s' & Hrun & [H1 [H2 H3 H4 H5] H6] & _);
    [exists 0%nat; unfold Inode.NINODE; lia|lia|].
  rewrite Image.iget_root in Hrun. injection Hrun as <- <-. split; [done|by split|done].
Qed.
Lemma image_readable m : Image.the_tree !! m = Some None → ExecFile.readable Image.image m.
Proof.
  unfold Image.the_tree. intros [[<- [=]]|[_ [<- _]%lookup_singleton_Some]]%lookup_insert_Some. unfold ExecFile.readable.
  assert (Hb : Inode.di_block (DiskInode.dinode_at Image.image 3) = Image.file_addrs ∧ Inode.di_size (DiskInode.dinode_at Image.image 3) = 2000) by (vm_compute; auto).
  destruct Hb as [-> ->]. cbv zeta. split; [by apply (Image.image_file_ok Image.image (or_introl eq_refl) eq_refl eq_refl)|lia].
Qed.
Lemma entered_run : enter 0 asking = Ok tt entered.
Proof.
  unfold entered. assert (H : is_ok (enter 0 asking) = true) by (vm_compute; reflexivity). destruct (ok_state _ asking H) as [[] E]. exact E.
Qed.
Lemma entered_fs : fs (st entered) = with_ino (as_proc (proc1 asking) Image.root_handle) files0.
Proof. vm_compute. reflexivity. Qed.
Lemma entered_me : let p := proc1 entered in trapframe p = trapframe me ∧ state p = RUNNING ∧ cwd p = iptr 0 ∧
  pmem (mem (st entered)) !! trapframe p = Some regs0.
Proof. vm_compute. auto. Qed.
Lemma entered_running : running (st entered) 0 (proc1 entered).
Proof. apply running0; [by vm_compute; eexists|by vm_compute]. Qed.
Lemma entered_inv : ∃ l T, minv image_kend tramp (st entered) l T ∧ finv (st entered) ∧ sinv (st entered).
Proof.
  destruct one_inv as (p & l & t & _ & _ & _ & _ & _ & _ & Hm & Hf & Hs).
  destruct (kernel_inv image_kend tramp forkret0 image_kend_pos tramp_pa tramp_low idle0 0x3000 0x4000 kstack0 strings0 100 []
    ltac:(cbn; lia) kstack0_bytes (MkSys one 0) l (<[0%nat := t]> ∅) asking Hm Hf Hs asking_steps) as (l1 & T1 & Hm1 & Hf1 & Hs1).
  destruct asking_running as [Hp Hr].
  destruct (proj1 (pwp_ok _ _ _) (begun_enter image_kend tramp 0 (st asking) T1 (proc1 asking) Hp Hr asking (begun_start image_kend tramp 0 (st asking) l1 T1 Hm1 Hf1 Hs1)) _ _ entered_run)
    as ([[l2 Hm2] Hf2 Hs2 _ _ _] & _). exists l2, T1. split; [exact Hm2|]. split; [exact Hf2|exact Hs2].
Qed.
Lemma exec0_result : match sys_exec image_kend tramp kstack0 0 entered with Ok r _ => r | _ => -1 end = 2.
Proof. vm_compute. reflexivity. Qed.

(** [exec("/cat", {"cat", "x", 0})]. *)
Lemma exec_runs_program_witness : ∃ s' u name strs t, sys_exec image_kend tramp kstack0 0 entered = Ok 2 s' ∧
  string_at (mem (st entered)) u 0 MAXPATH name 0 ∧ ExecRun.user_args (mem (st entered)) u 64 strs ∧
  ExecSpec.executed 0 (st entered) (proc1 entered) (ExecFile.program Image.image Image.the_tree 2 name) strs 2 t (st s').
Proof.
  destruct entered_inv as (l & T & Hm & Hf & Hs), entered_running as [Hp Hr], entered_me as (_ & _ & Hcw & Hx).
  destruct (mi_live _ _ _ _ _ Hm 0%nat _ Hp ltac:(rewrite Hr; discriminate)) as (u & Hu & _).
  destruct (ExecFile.exec_runs_program image_kend tramp image_kend_pos tramp_pa tramp_low kstack0 eq_refl kstack0_bytes Image.image [] Image.the_tree Image.image_tree_ok
    refs1 refs1_free refs1_small image_readable 0 entered l T (proc1 entered) u regs0 2 Hm Hf Hs Hp Hr) as (r & s' & Hrun & _ & Hres).
  - rewrite entered_fs, Hcw. reflexivity.
  - exact Hu.
  - exact Hx.
  - rewrite entered_fs. apply root_quiet.
  - rewrite entered_fs. split; [vm_compute; reflexivity|]. eexists. split; [vm_compute; reflexivity|]. split; reflexivity.
  - eexists. reflexivity.
  - eexists. reflexivity.
  - pose proof exec0_result as H2. rewrite Hrun in H2. rewrite H2 in Hrun, Hres. exists s', u.
    destruct Hres as [[? _]|(name & strs & t & Hn & Ha & He)]; [discriminate|]. exists name, strs, t.
    split; [exact Hrun|]. split; [exact Hn|]. split; [exact Ha|exact He].
Defined.

(** ** The console *)

Lemma console_exit_faults_witness : ∃ s1, open_console 0 (MkSys one 0) = Ok 0 s1 ∧ exit image_kend 0 1 (st s1) = Undef.
Proof.
  destruct one_inv as (p & l & t & Hp & _ & Hl & _ & Hi & Hfs & _).
  apply (ConsoleFile.console_exit_faults image_kend 0 (MkSys one 0) p 0 file0 (replicate 15 0) 1).
  - exact Hp.
  - exact Hl.
  - cbn [st]. rewrite Hi. discriminate.
  - cbn [st]. rewrite Hfs. reflexivity.
  - cbn [st]. rewrite Hfs. reflexivity.
  - cbn [st]. rewrite Hfs. reflexivity.
  - reflexivity.
Defined.
End KernelImage.
